(* ===== verification/_CoqProject ===== *)
-Q . S2P
Prelude.v
Dict.v
Decimals.v
Calendar.v
Db.v
Wallet.v
Webhooks.v
Usage.v
Export.v
Reconcile.v
WalletSpec.v
WalletFacts.v
WalletLaws.v
UsageFacts.v
Books.v
ExportFacts.v
Retention.v
System.v
WalletTheorems.v
BillingTheorems.v
UsageTheorems.v
BooksTheorems.v
Json.v
Text.v
Messages.v
Process.v
Jobs.v
JobAnswers.v
JobTheorems.v
Regex.v
AgentState.v
Guards.v
Citations.v
Guardrails.v
Routing.v
OutputChecks.v
Compaction.v
AgentNode.v
Turn.v
Graph.v
Breaker.v
GraphFacts.v
GraphTheorems.v
ToolCalls.v
ToolTheorems.v
Budgets.v
BudgetTheorems.v
Stream.v
StreamFacts.v
StreamTheorems.v
Telegram.v
TelegramTheorems.v
Sessions.v
SessionTheorems.v
Pricing.v
Gateway.v
Meter.v
MeterTheorems.v
Sha256.v
Wire.v
Providers.v
Fake.v
Stripe.v
Polar.v
WebhookRoute.v
ProviderTheorems.v
Keys.v
Identity.v
McpAuth.v
IdentityTheorems.v
Retrieval.v
RetrievalTheorems.v
Ingestion.v
IngestTheorems.v
Stores.v
ToolRuntime.v
DomainTools.v
DomainTheorems.v
AgentTools.v
AgentToolTheorems.v
