(* ===== verification/Prelude.v ===== *)
(** * agent-core-demo: a verification of its money and of its turns

    The repository is an agent service: people talk to a conversation graph that calls a model
    and tools, jobs carry their turns through a queue to workers, and a prepaid credit ledger
    pays for them.  This library models those parts in Rocq and proves what they promise.  Paths
    are under [src/]; [billing/] stands for [packages/billing/src/credit_billing/].

    ** How the parts interact

    A turn arrives as a job on a Redis stream ([app/job_queue/producer.py]); a worker takes it
    under the conversation's lock, runs the graph and publishes its events
    ([agent_worker.py], [queue.py]).  The graph ([app/agent/graph/]) screens the message, looks in
    the cache, compacts the history, retrieves, calls the model, guards its tool calls, asks a
    person where a call acts, and judges the answer.  What the calls cost is recorded and charged
    ([billing/usage.py]), a gate refuses turns of tenants that have run out
    ([billing/admission.py]), payments come in as webhooks ([billing/webhooks.py]) and both end
    in the ledger ([billing/credits.py]).  Usage is exported to the payment provider
    ([billing/export.py]), swept ([billing/retention.py]) and compared with the ledger
    ([billing/reconcile.py]).

    ** Files

    Shared: [Prelude] (tactics, sums over tables, ordered strings, results), [Dict] (Python's
    dict as its items in order), [Decimals] (decimal.Decimal with 28 digits,
    half-even in the context and half-up where the code quantizes), [Calendar] (UTC timestamps),
    [Json] ([json.dumps], [json.loads], their round trip), [Text] (string operations and the
    sentence scanner), [Regex] ([re]: patterns, their meaning, a matcher proved equivalent).

    Billing: [Db] (the tables, their constraints, transactions, savepoints, failures of
    statements; the monad of the code), [Wallet] ([credits.py]: [grant_in], [debit_in],
    [clawback_in], [adjust_in], [_expire_lot_in], [expire_due], [verify_in] and their host
    versions), [Webhooks] ([webhooks.py], [store.py], [inbox.py]), [Usage] ([usage.py],
    [admission.py], [port.py]), [Export], [Reconcile], [Retention], and [System], the calls a host
    makes, with the states they reach.  Facts: [WalletSpec] (the abstract ledger), [WalletFacts],
    [WalletLaws], [UsageFacts] (of webhooks and of usage), [ExportFacts], [Books].  Properties: [WalletTheorems], [BillingTheorems], [UsageTheorems], [BooksTheorems].

    Queue: [Process] (a coroutine as a program over commands with exceptions, its paths, and
    protocols over them), [Jobs] ([queue.py], [producer.py], [agent_worker.py], the error
    envelope), [JobAnswers] (the lock protocol, many coroutines over one Redis,
    interleaved, dying and losing answers, and what a delivered or reclaimed job does).  Properties: [JobTheorems].

    Turns: [Messages] ([messages.py]), [AgentState] ([state.py] and the reducer of the graph
    library), [Guards] ([loop_guards.py], [tool_guards.py], [skill_guards.py]), [Citations],
    [Guardrails] ([output_guardrails.py], [links.py]), [OutputChecks], [Compaction], [Routing]
    ([model_route.py], [app/core/routing_policy.py]), [AgentNode]
    ([agent_node.py], [retrieval.py], [app/core/untrusted.py]), [Turn] ([core.py], [routing.py],
    [hitl.py], [retry.py], [cache.py], [followups.py]), [Graph] ([build.py]: nodes, edges, runs).
    Facts: [GraphFacts] (of the guards, the length of a turn, and what holds at each node).  [Breaker] is [app/core/resilience.py].  Properties: [GraphTheorems].

    Around a turn: [Budgets] ([app/agent/cost/budgets.py], [budget_holds.py],
    [budget_policies.py], and what [app/agent/runtime/core.py] asks of them before a turn) with
    [BudgetTheorems]; [ToolCalls] ([app/core/tool_idempotency.py] and its
    ledger) with [ToolTheorems].  Both are programs of [Process].

    Out to people: [Stream] ([app/agent/runtime/stream.py], [cancelled_turn.py]: what turns the
    events of a graph run into those of a job, for a turn, an answered pause, a continued and an
    unattended turn) with [StreamFacts] (the protocol of the events, and what a reader has on its
    screen), [StreamTheorems]; [Sessions] ([sessions.py], the session table and the endpoints of
    [app/api/routers/chat.py]) with [SessionTheorems]; [Telegram] ([app/channels/telegram.py])
    with [TelegramTheorems].

    Metering: [Pricing] ([pricing.py]), [Gateway] (the identity codec of [app/core/gateway.py]),
    [Meter] ([metering.py], [usage_events.py], its table and its sweep, [usage_reconcile.py]).
    Properties: [MeterTheorems].

    In from providers: [Sha256] (SHA-256 and HMAC, executable), [Wire] (numbers, base64 and text as
    Python reads them), [Providers] ([billing/providers/base.py] and what an adapter asks of HTTP),
    [Fake], [Stripe] and [Polar] (the adapters in [billing/providers/]), [WebhookRoute] (their registry and
    the endpoint [billing/http.py], on [Webhooks]) with [ProviderTheorems].

    Who is calling: [Keys] (the key caches of [app/core/internal_identity.py] and
    [app/mcp/gateway_auth.py]), [Identity] (the verifier of the first with [app/api/identity.py],
    [app/api/deps.py] and the policy of [app/core/security.py]), [McpAuth] (the second) with
    [IdentityTheorems].

    Knowledge: [Retrieval] ([app/retrieval/]: the vector store behind its alias, the identity of the
    embedding, search, the semantic cache) with [RetrievalTheorems] (many calls over one store,
    interleaved); [Ingestion] ([app/ingestion/] but for the crawler, [app/core/url_safety.py], the
    router [app/api/routers/ingest.py]) with [IngestTheorems].

    Tools: [Stores] (the tables of the domains, their transactions, the operations of
    [app/domains/*/store.py] and [app/core/sql_store.py], and the laws of both), [ToolRuntime]
    ([tool_runtime.py], [scrubbing.py] and [output_limits.py] of [app/core/],
    [app/domains/sandbox_session.py], [web_search.py], [policy.py], and the adapters of search, pages
    and the team channel), [DomainTools] (Modules [Ecorp], [Support], [Ops] and [Sales]: the tools of
    [app/domains/*/tools.py], each a [Definition] of its name, and [TOOLS], which calls one) with
    [DomainTheorems]; [AgentTools] ([app/agent/tools/]: what all domains share, the catalogues of
    skills and subagents, the pre-fetch of a turn and the nested run, on [Retrieval] and [Graph]; the plugins of
    [app/domains/*/domain.py]; [app/core/moderation.py]) with [AgentToolTheorems].

    ** What the theorems show

    Ledger: in every state any calls with any failures reach, lots equal their entries, nobody
    owes and holds at once, history is only appended, keys are used once, tenants do not touch
    each other, debits and expiries take exactly what they say in the promised order.  Money in:
    an event moves money at most once and only as applied, from the catalogue, for the linked
    tenant.  Usage: a unit is kept once with its charge, the gate refuses exactly the exhausted, an
    export neither loses nor invents, the sweep spares evidence, reconciliation reports what was
    not charged.  Queue: one job a conversation, a cancellation included, as long as a lock outlives its
    job, every job answered and acknowledged in that order but one that is itself cancelled, which is
    only acknowledged, a reclaimed job saved before its acknowledgement,
    readers relay the stream, payloads are read back.  Turns: only cleared batches reach the
    tools, a turn ends within its bound and is never stuck, what it ends with is fit to be shown (or
    too short to be judged further); trimming cuts exactly where the floor says and keeps turns whole, repetition is detected up to order, the citation repair only adds
    markers, a turn is routed within the operator's bounds, and the breaker lets through exactly
    what the history allows.  Around a turn: one that starts is below every limit in force and
    the gate let it, and a tool whose result is kept is not run again.  Out to people: every
    generator keeps the protocol the queue counts on, a finished run leaves its reader with
    exactly the answer, a conversation has one owner, a Telegram message gets its one
    turn, and what that turn comes to is sent, before it is passed.  Metering: a call is metered once, an unknown price is never a free one, the
    gateway's identity names one person, and spend the meter did not see is found.  In from
    providers: money moves only for a body that a provider signed and that says a payment was made
    or returned whole, the checks of signatures accept exactly what they mean to, a delivery is
    answered 200 only when its event is settled, one attempt at a purchase is sent once.  Who is
    calling: keys that are trusted are current and fetches are spaced whatever is asked, only
    verified callers are served, a tool server serves only its tenants.  Knowledge: a search stays in
    its scope and answers with the best that it found, a collection is read and written only through an alias that
    was looked at within the cache's lifetime and carries the embedding in use, chunks hold the whole
    text, a repeated upload lands on the same points, no page is fetched but from an address of the open internet, each upload and
    each job is answered.  Tools: a caller without a tenant gets nothing done, a tool touches only its
    tenant's rows, one that needs no approval changes nothing, a sandbox is its conversation's own,
    the tables stay consistent while any number of tools run, what a turn is given in advance is what its two searches, in its caller's scopes, answered, and
    work that is delegated to a subagent only reads, never waits for a person and ends within its steps.

    ** Conventions and bounds

    Amounts are whole micro-credits (NUMERIC(18,6)); costs of a turn are binary64 numbers
    ([SpecFloat]), and Python's [sum] of floats is its compensated one; a wider column range is an
    error of the statement, as in PostgreSQL.  A string is a sequence of characters below 256;
    constants with a character above U+00FF hold its UTF-8 bytes.  A JSON float is kept as the
    text Python writes.  A failed statement rolls the transaction or savepoint back and raises,
    while what Python remembers stays.  The advisory lock of a tenant makes billing transactions
    one sequence, so they are modelled one after the other; Redis commands are interleaved freely.
    Node updates are lists of assignments, and a node that raises gives nothing.

    Fuel: [Json.loads] spends one unit per character it reads, [Text.spans_go],
    [Guardrails.count_go], [AgentNode.safe_go], [ToolRuntime.sub_go], [replace_go], [defused_go] and [AgentTools.strip_markers_go] at most one per
    character, [AgentTools.markers_at] one per marker, [Regex.star_ends] one
    per repetition that moves on (proved enough: [Regex.ends_spec]), [Jobs.read_loop] and the
    reclaim loop one per round, whose number the theorems quantify over.

    ** Parameters

    The payment provider, the clock and the failures of statements (billing); Redis, the
    checkpointer and the run of the graph (queue), the stores, the credit gate and the tool
    (allowance and tool guard), all as answers to commands; the model, the search, the cache,
    moderation, the tools, the tokenizer, the classifier and prices of the router, and the person
    (turns: a [Graph.world] per step); the events of a graph run and the answers of Telegram, of the
    gateway and of the tables (streams, channels, metering); the vector store, the object store, the
    embedder, the reader of documents, the resolver, the search engine, the crawler, the sandbox
    service, the files of the catalogues with the YAML reader, the compiled graphs and the classifier of injections, and with them [urlparse] and the reading and writing of an address as text (knowledge and tools; the flags of
    [ipaddress] are its tables of Python 3.13, in [Ingestion.Ip]); the answers of the payment
    providers and of the key servers, [json.loads] of bytes, [datetime.fromisoformat] and PyJWT
    (adapters and callers); the digests [sha256] and [uuid5];
    LangGraph's reducer and tool test (the class
    [AgentState.LangGraph], one law each, with a concrete instance for the witnesses).

    ** Not modelled

    Telemetry, metrics, logs and the terminal client: glue around the modelled code, without a
    contract of its own but counters, which billing's theorems mention where they are the
    result.  Of the HTTP routes only those of conversations, uploads and webhooks are modelled.  The
    clients of tool servers: clients of outside services.  The retry
    policy of the model call is the library's.  [run()] of the worker is the spawning step of the
    pool.  Prompts and descriptions of tools are data; a graph takes any.  The calculator's
    arithmetic (Python's numbers of both kinds, and its parser) is left out.  Of the conversation's
    state the run id and the graph version, which only logs and traces read, are left out. *)
From Stdlib Require Export ZArith Lia.
From Stdlib Require String.
From stdpp Require Export base tactics option numbers list gmap strings sorting.

Declare Scope py_scope.
Delimit Scope py_scope with py.

(** ** Automation *)

(** [step] case-splits on the first [match] of the goal or of a hypothesis,
    remembers the equation and simplifies; [steps] repeats it. *)
Ltac step :=
  match goal with
  | H : context [match ?x with _ => _ end] |- _ => destruct x eqn:?; simplify_eq/=
  | |- context [match ?x with _ => _ end] => destruct x eqn:?; simplify_eq/=
  end.
Ltac steps := repeat (step; try done).

(** [dec] turns the decisions of the context into propositions. *)
Ltac dec :=
  repeat match goal with
  | H : bool_decide _ = true |- _ => apply bool_decide_eq_true in H
  | H : bool_decide _ = false |- _ => apply bool_decide_eq_false in H
  | H : _ && _ = true |- _ => apply andb_true_iff in H; destruct H
  | H : _ || _ = false |- _ => apply orb_false_iff in H; destruct H
  | H : negb _ = true |- _ => apply negb_true_iff in H
  | H : negb _ = false |- _ => apply negb_false_iff in H
  | H : (_ <=? _)%Z = true |- _ => apply Z.leb_le in H
  | H : (_ <=? _)%Z = false |- _ => apply Z.leb_gt in H
  | H : (_ <? _)%Z = true |- _ => apply Z.ltb_lt in H
  | H : (_ <? _)%Z = false |- _ => apply Z.ltb_ge in H
  | H : (_ =? _)%Z = true |- _ => apply Z.eqb_eq in H
  | H : (_ =? _)%Z = false |- _ => apply Z.eqb_neq in H
  end.

(** The hint databases of the development: [rows] collects the list lemmas on
    tables, [inv] the preservation lemmas of the components' invariants. *)
Create HintDb rows discriminated.
Create HintDb inv discriminated.

(** ** Sums *)

(** [sumZ f l] is SQL's [SUM(f)] over the rows [l], [0] when there are none. *)
Fixpoint sumZ {A} (f : A → Z) (l : list A) : Z :=
  match l with
  | [] => 0
  | x :: l' => f x + sumZ f l'
  end.

Section sumZ.
Context {A : Type}.
Implicit Types (f g : A → Z) (l k : list A).

Lemma sumZ_app f l k : sumZ f (l ++ k) = (sumZ f l + sumZ f k)%Z.
Proof. induction l; simpl; lia. Qed.

Lemma sumZ_ext f g l : (∀ x, x ∈ l → f x = g x) → sumZ f l = sumZ g l.
Proof.
  induction l as [|x l IH]; intros H; simpl; [done|].
  rewrite H, IH; [done| |left]. intros y Hy. apply H. by right.
Qed.

Lemma sumZ_nonneg f l : (∀ x, x ∈ l → 0 ≤ f x)%Z → (0 ≤ sumZ f l)%Z.
Proof.
  induction l as [|x l IH]; intros H; simpl; [lia|].
  assert (0 ≤ f x)%Z by (apply H; left).
  assert (0 ≤ sumZ f l)%Z by (apply IH; intros y Hy; apply H; by right). lia.
Qed.

Lemma sumZ_le f g l : (∀ x, x ∈ l → f x ≤ g x)%Z → (sumZ f l ≤ sumZ g l)%Z.
Proof.
  induction l as [|x l IH]; intros H; simpl; [lia|].
  assert (f x ≤ g x)%Z by (apply H; left).
  assert (sumZ f l ≤ sumZ g l)%Z by (apply IH; intros y Hy; apply H; by right). lia.
Qed.

Lemma sumZ_zero f l : (∀ x, x ∈ l → f x = 0)%Z → sumZ f l = 0%Z.
Proof.
  induction l as [|x l IH]; intros H; simpl; [done|].
  rewrite H, IH; [done| |left]. intros y Hy. apply H. by right.
Qed.

Lemma sumZ_perm f l k : l ≡ₚ k → sumZ f l = sumZ f k.
Proof. induction 1; simpl; lia. Qed.

#[export] Instance sumZ_Proper f : Proper ((≡ₚ) ==> (=)) (sumZ f).
Proof. intros l k. apply sumZ_perm. Qed.

Lemma sumZ_map {B} (h : B → A) f (l : list B) : sumZ f (h <$> l) = sumZ (f ∘ h) l.
Proof. induction l as [|x l IH]; [done|]. rewrite fmap_cons. simpl. by rewrite IH. Qed.

(** A filtered sum is the sum of the rows' figures, [0] where they do not count. *)
Lemma sumZ_filter f (P : A → Prop) `{!∀ x, Decision (P x)} l :
  sumZ f (filter P l) = sumZ (λ x, if decide (P x) then f x else 0%Z) l.
Proof.
  induction l as [|x l IH]; [done|]. rewrite filter_cons.
  simpl. case_decide; simpl; lia.
Qed.

Lemma sumZ_add f g l : sumZ (λ x, f x + g x)%Z l = (sumZ f l + sumZ g l)%Z.
Proof. induction l; simpl; lia. Qed.

Lemma sumZ_opp f l : sumZ (λ x, - f x)%Z l = (- sumZ f l)%Z.
Proof. induction l; simpl; lia. Qed.

(** The figure of one row is at most the sum, when no row is negative. *)
Lemma sumZ_elem_le f l x :
  (∀ y, y ∈ l → 0 ≤ f y)%Z → x ∈ l → (f x ≤ sumZ f l)%Z.
Proof.
  induction l as [|y l IH]; intros Hf Hx; [by apply not_elem_of_nil in Hx|].
  assert (0 ≤ f y)%Z by (apply Hf; left).
  assert (0 ≤ sumZ f l)%Z by (apply sumZ_nonneg; intros z Hz; apply Hf; by right).
  simpl. apply elem_of_cons in Hx as [->|Hx]; [lia|].
  assert (f x ≤ sumZ f l)%Z by (apply IH; [intros z Hz; apply Hf; by right|done]). lia.
Qed.
End sumZ.

(** ** Tables: lists of rows *)

(** SQL's [UPDATE ... SET f WHERE P]: every matching row is replaced in place. *)
Definition update_where {A} (P : A → Prop) `{!∀ x, Decision (P x)} (f : A → A)
    (l : list A) : list A :=
  (λ x, if decide (P x) then f x else x) <$> l.

Section tables.
Context {A : Type}.
Implicit Types (l : list A).

Lemma elem_of_update_where (P : A → Prop) `{!∀ x, Decision (P x)} (f : A → A) l y :
  y ∈ update_where P f l ↔
  ∃ x, x ∈ l ∧ y = (if decide (P x) then f x else x).
Proof.
  unfold update_where. rewrite list_elem_of_fmap.
  split; intros (x & ? & ?); exists x; split; done.
Qed.

(** A key the update does not touch is the same column before and after. *)
Lemma update_where_key {K} (key : A → K) (P : A → Prop) `{!∀ x, Decision (P x)} f l :
  (∀ x, key (f x) = key x) → key <$> update_where P f l = key <$> l.
Proof.
  intros Hk. unfold update_where. rewrite <-list_fmap_compose.
  apply list_fmap_ext. intros i x _. simpl. by case_decide; rewrite ?Hk.
Qed.

Lemma update_where_none (P : A → Prop) `{!∀ x, Decision (P x)} f l :
  (∀ x, x ∈ l → ¬ P x) → update_where P f l = l.
Proof.
  induction l as [|x l IH]; intros Hn; [done|]. simpl.
  rewrite decide_False by (apply Hn; left).
  f_equal. apply IH. intros y Hy. apply Hn. by right.
Qed.

Lemma sumZ_update_where g (P : A → Prop) `{!∀ x, Decision (P x)} f l :
  sumZ g (update_where P f l) =
  (sumZ g l + sumZ (λ x, g (f x) - g x) (filter P l))%Z.
Proof.
  induction l as [|x l IH]; [done|]. rewrite filter_cons. simpl.
  case_decide; simpl; lia.
Qed.

Lemma filter_none (P : A → Prop) `{!∀ x, Decision (P x)} l :
  (∀ x, x ∈ l → ¬ P x) → filter P l = [].
Proof.
  induction l as [|x l IH]; intros Hn; [done|]. rewrite filter_cons.
  rewrite decide_False by (apply Hn; left). apply IH. intros y Hy. apply Hn. by right.
Qed.

Lemma filter_all (P : A → Prop) `{!∀ x, Decision (P x)} l :
  (∀ x, x ∈ l → P x) → filter P l = l.
Proof.
  induction l as [|x l IH]; intros Hn; [done|]. rewrite filter_cons.
  rewrite decide_True by (apply Hn; left). f_equal. apply IH.
  intros y Hy. apply Hn. by right.
Qed.

(** With unique keys, a row is the only one its key selects. *)
Lemma filter_key {K} `{!EqDecision K} (key : A → K) l x :
  NoDup (key <$> l) → x ∈ l → filter (λ y, key y = key x) l = [x].
Proof.
  induction l as [|y l IH]; intros Hnd Hx; [by apply not_elem_of_nil in Hx|].
  apply NoDup_cons in Hnd as [Hy Hnd].
  rewrite filter_cons. apply elem_of_cons in Hx as [->|Hx].
  - rewrite decide_True by done. f_equal.
    apply filter_none. intros z Hz Hkz. apply Hy. apply list_elem_of_fmap. eauto.
  - rewrite decide_False; [by apply IH|]. intros Heq. apply Hy.
    rewrite Heq. by apply list_elem_of_fmap_2.
Qed.

Lemma key_inj {K} (key : A → K) l x y :
  NoDup (key <$> l) → x ∈ l → y ∈ l → key x = key y → x = y.
Proof.
  intros Hnd Hx Hy Hk.
  apply list_elem_of_lookup in Hx as [i Hi]. apply list_elem_of_lookup in Hy as [j Hj].
  assert (i = j) as ->; [|congruence].
  eapply (NoDup_lookup (key <$> l)); [done| |].
  - rewrite list_lookup_fmap, Hi. done.
  - rewrite list_lookup_fmap, Hj. simpl. by rewrite Hk.
Qed.

(** Updating the one row with key [k] moves a sum by that row's change. *)
Lemma sumZ_update_key {K} `{!EqDecision K} (key : A → K) g f l x :
  NoDup (key <$> l) → x ∈ l →
  sumZ g (update_where (λ y, key y = key x) f l) = (sumZ g l + (g (f x) - g x))%Z.
Proof. intros. rewrite sumZ_update_where, filter_key by done. simpl. lia. Qed.

Lemma NoDup_fmap_app_one {K} (key : A → K) l x :
  NoDup (key <$> l) → (∀ y, y ∈ l → key y ≠ key x) → NoDup (key <$> (l ++ [x])).
Proof.
  intros Hnd Hx. rewrite fmap_app. apply NoDup_app. split; [done|]. split.
  - intros k Hk. apply list_elem_of_fmap in Hk as (y & -> & Hy).
    simpl. rewrite list_elem_of_singleton. by apply Hx.
  - simpl. apply NoDup_singleton.
Qed.

Lemma NoDup_fmap_filter {K} (key : A → K) (P : A → Prop) `{!∀ x, Decision (P x)} l :
  NoDup (key <$> l) → NoDup (key <$> filter P l).
Proof.
  intros Hk. induction l as [|x l IH]; [done|].
  apply NoDup_cons in Hk as [Hx Hnd]. rewrite filter_cons.
  case_decide; [|by apply IH]. simpl. apply NoDup_cons. split; [|by apply IH].
  intros (y & Hk & Hy)%list_elem_of_fmap. apply list_elem_of_filter in Hy as [_ Hy].
  apply Hx. rewrite Hk. by apply list_elem_of_fmap_2.
Qed.

Lemma head_filter_Some (P : A → Prop) `{!∀ x, Decision (P x)} l x :
  head (filter P l) = Some x → x ∈ l ∧ P x.
Proof.
  intros Hh. assert (Hx : x ∈ filter P l).
  { destruct (filter P l); simplify_eq/=. left. }
  apply list_elem_of_filter in Hx as [? ?]. done.
Qed.

Lemma head_filter_None (P : A → Prop) `{!∀ x, Decision (P x)} l :
  head (filter P l) = None ↔ ∀ x, x ∈ l → ¬ P x.
Proof.
  split.
  - intros Hh x Hx HP. assert (x ∈ filter P l) as Hf by by apply list_elem_of_filter.
    destruct (filter P l); [by apply not_elem_of_nil in Hf|done].
  - intros Hn. destruct (filter P l) as [|x k] eqn:E; [done|].
    assert (x ∈ filter P l) as Hf by (rewrite E; left).
    apply list_elem_of_filter in Hf as [? Hx]. by destruct (Hn x Hx).
Qed.
End tables.

(** In a sorted list the earlier of two elements comes first. *)
Lemma StronglySorted_lookup_lt {A} (R : relation A) l i j x y :
  StronglySorted R l → l !! i = Some x → l !! j = Some y → (i < j)%nat → R x y.
Proof.
  revert i j. induction l as [|z l IH]; intros [|i] [|j] Hl Hi Hj Hij; try done; try lia.
  all: apply StronglySorted_cons in Hl as [Hz Hs].
  - simpl in Hi, Hj. simplify_eq. rewrite Forall_forall in Hz. by eapply Hz, list_elem_of_lookup_2.
  - simpl in Hi, Hj. eapply (IH i j); try done. lia.
Qed.

#[export] Hint Resolve NoDup_fmap_app_one NoDup_fmap_filter : rows.

(** ** Strings as a total order (SQL's [ORDER BY] on a text column) *)

Definition str_le (a b : string) : Prop := String.leb a b = true.

#[export] Instance str_le_dec a b : Decision (str_le a b).
Proof. unfold str_le. apply _. Defined.

#[export] Instance str_le_total : Total str_le.
Proof. intros a b. apply String.leb_total. Qed.

Lemma ascii_compare_N a b :
  Ascii.compare a b = N.compare (Ascii.N_of_ascii a) (Ascii.N_of_ascii b).
Proof. done. Qed.

Lemma str_le_cons a s b t :
  str_le (String a s) (String b t) ↔
  (Ascii.N_of_ascii a < Ascii.N_of_ascii b)%N ∨ (a = b ∧ str_le s t).
Proof.
  unfold str_le, String.leb. simpl. rewrite ascii_compare_N.
  destruct (N.compare_spec (Ascii.N_of_ascii a) (Ascii.N_of_ascii b)) as [E|E|E].
  - assert (a = b) as ->.
    { rewrite <-(Ascii.ascii_N_embedding a), <-(Ascii.ascii_N_embedding b). by rewrite E. }
    split; [tauto|]. intros [?|[_ ?]]; [lia|done].
  - split; [tauto|done].
  - split; [done|]. intros [?|[-> ?]]; lia.
Qed.

#[export] Instance str_le_trans : Transitive str_le.
Proof.
  intros a. induction a as [|x a IH]; intros [|y b] [|z c]; try done.
  rewrite !str_le_cons. intros [H1|[-> H1]] [H2|[-> H2]].
  - left. lia.
  - by left.
  - by left.
  - right. split; [done|]. by eapply IH.
Qed.

(** ** Results: a value or a raised error *)

Inductive result (E A : Type) : Type :=
| Ok (a : A)
| Err (e : E).
Arguments Ok {E A} a.
Arguments Err {E A} e.

Definition rbind {E A B} (r : result E A) (k : A → result E B) : result E B :=
  match r with Ok a => k a | Err e => Err e end.

Definition rmap_err {E F A} (f : E → F) (r : result E A) : result F A :=
  match r with Ok a => Ok a | Err e => Err (f e) end.

Notation "'let!' x := r 'in' k" := (rbind r (λ x, k))
  (at level 10, x pattern, r at level 100, k at level 200) : py_scope.

Lemma rbind_Ok {E A B} (r : result E A) (k : A → result E B) b :
  rbind r k = Ok b ↔ ∃ a, r = Ok a ∧ k a = Ok b.
Proof.
  destruct r as [a|e]; simpl; split.
  - intros Hk. by exists a.
  - by intros (a' & [= ->] & Hk).
  - done.
  - by intros (a & [=] & _).
Qed.

(** ** Concatenation *)

Lemma str_length_app (s t : string) :
  String.length (s +:+ t)%string = (String.length s + String.length t)%nat.
Proof. induction s as [|a s IH]; [done|]. simpl. by rewrite IH. Qed.

Lemma str_app_assoc (s t u : string) : ((s +:+ t) +:+ u = s +:+ (t +:+ u))%string.
Proof. induction s as [|a s IH]; [done|]. exact (f_equal (String a) IH). Qed.

Lemma str_app_nil (s : string) : (s +:+ "" = s)%string.
Proof. induction s as [|a s IH]; [done|]. exact (f_equal (String a) IH). Qed.

(** ** Text: [str.strip] and blank strings

    A string is a sequence of code points below 256. *)

(** [str.isspace] of one character. *)
Definition py_isspace (a : Ascii.ascii) : bool :=
  let n := Ascii.N_of_ascii a in
  ((9 <=? n) && (n <=? 13) || (28 <=? n) && (n <=? 32) || (n =? 133) || (n =? 160))%N.

(** [not s.strip()] *)
Fixpoint is_blank (s : string) : bool :=
  match s with
  | EmptyString => true
  | String a s => py_isspace a && is_blank s
  end.

(** [not s] for a string, and for an optional string *)
Definition falsy (s : string) : bool := bool_decide (s = ""%string).
Definition falsy_opt (s : option string) : bool :=
  match s with None => true | Some s => falsy s end.

(** ** Positions *)

(** The last position whose element satisfies [P]. *)
Fixpoint last_index {A} (P : A → bool) (l : list A) : option nat :=
  match l with
  | [] => None
  | x :: l => match last_index P l with Some i => Some (S i) | None => if P x then Some O else None end
  end.

Lemma last_index_spec {A} (P : A → bool) l :
  match last_index P l with
  | Some i => (∃ x, l !! i = Some x ∧ P x = true) ∧ ∀ j y, (i < j)%nat → l !! j = Some y → P y = false
  | None => ∀ x, x ∈ l → P x = false
  end.
Proof.
  induction l as [|x l IH]; simpl; [by intros x ?%not_elem_of_nil|].
  destruct (last_index P l) as [i|].
  - destruct IH as [H1 H2]. split; [done|]. intros [|j] y Hj; [lia|]. apply H2. lia.
  - destruct (P x) eqn:E.
    + split; [by exists x|]. intros [|j] y Hj Hy; [lia|]. simpl in Hy. by eapply IH, list_elem_of_lookup_2.
    + intros y [->|Hy]%elem_of_cons; auto.
Qed.

(** The last element, when it satisfies [P], is at the last position that does. *)
Lemma last_index_snoc {A} (P : A → bool) l x : P x = true → last_index P (l ++ [x]) = Some (length l).
Proof. intros HP. induction l as [|y l IH]; simpl; [by rewrite HP|by rewrite IH]. Qed.
