(* ===== verification/Dict.v ===== *)
(** Python's [dict], as the list of its items in insertion order. *)
From S2P Require Import Prelude.

Section dict.
Context {K : Type} `{EqDecision K}.

(** [d[k] = v]: a known key keeps its place. *)
Fixpoint dict_set {V} (k : K) (v : V) (d : list (K * V)) : list (K * V) :=
  match d with
  | [] => [(k, v)]
  | (k', v') :: d => if bool_decide (k' = k) then (k, v) :: d else (k', v') :: dict_set k v d
  end.

(** [d.get(k)] *)
Fixpoint dict_get {V} (k : K) (d : list (K * V)) : option V :=
  match d with
  | [] => None
  | (k', v) :: d => if bool_decide (k' = k) then Some v else dict_get k d
  end.

(** [{key(x): val(x) for x in xs}], on top of [d] *)
Definition dict_of {A V} (key : A → K) (val : A → V) (xs : list A) (d : list (K * V)) : list (K * V) :=
  foldl (λ d x, dict_set (key x) (val x) d) d xs.

(** [d.update(more)] *)
Definition dict_update {V} (d more : list (K * V)) : list (K * V) := dict_of fst snd more d.

(** [defaultdict(list)[k].append(v)] *)
Definition dict_append {V} (k : K) (v : V) (d : list (K * list V)) : list (K * list V) :=
  dict_set k (default [] (dict_get k d) ++ [v]) d.

(** [defaultdict(int)[k] += n] *)
Definition dict_bump (k : K) (n : nat) (d : list (K * nat)) : list (K * nat) :=
  dict_set k (default O (dict_get k d) + n)%nat d.

(** ** Laws *)

Lemma dict_get_set {V} k k' (v : V) d :
  dict_get k (dict_set k' v d) = if bool_decide (k' = k) then Some v else dict_get k d.
Proof.
  induction d as [|[k1 v1] d IH]; simpl; [done|].
  repeat (case_bool_decide; simplify_eq/=; try done).
Qed.

Lemma dict_set_elem {V} k (v : V) d p : p ∈ dict_set k v d → p = (k, v) ∨ p ∈ d.
Proof.
  induction d as [|[k1 v1] d IH]; simpl; [set_solver|].
  case_bool_decide; subst; rewrite !elem_of_cons; naive_solver.
Qed.

Lemma dict_set_keys {V} k (v : V) d k' : k' ∈ (dict_set k v d).*1 ↔ k' = k ∨ k' ∈ d.*1.
Proof.
  induction d as [|[k1 v1] d IH]; simpl; [set_solver|].
  case_bool_decide; subst; simpl; rewrite !elem_of_cons; [naive_solver|]. rewrite IH. naive_solver.
Qed.

Lemma dict_set_fresh {V} k (v : V) d : k ∉ d.*1 → dict_set k v d = d ++ [(k, v)].
Proof.
  induction d as [|[k1 v1] d IH]; simpl; [done|]. intros Hk. apply not_elem_of_cons in Hk as [Hk1 Hk].
  rewrite bool_decide_eq_false_2 by congruence. by rewrite IH.
Qed.

Lemma dict_set_NoDup {V} k (v : V) d : NoDup d.*1 → NoDup (dict_set k v d).*1.
Proof.
  induction d as [|[k1 v1] d IH]; simpl; intros Hd; [apply NoDup_singleton|].
  apply NoDup_cons in Hd as [Hk Hd]. case_bool_decide; subst; simpl; apply NoDup_cons; split; auto.
  rewrite dict_set_keys. intros [->|?]; done.
Qed.

Lemma dict_get_elem {V} k (v : V) d : dict_get k d = Some v → (k, v) ∈ d.
Proof.
  induction d as [|[k1 v1] d IH]; simpl; [done|]. rewrite elem_of_cons.
  case_bool_decide; subst; [intros [= ->]; by left|auto].
Qed.

Lemma dict_elem_get {V} k (v : V) d : NoDup d.*1 → (k, v) ∈ d → dict_get k d = Some v.
Proof.
  induction d as [|[k1 v1] d IH]; simpl; [intros _ Hin; by apply not_elem_of_nil in Hin|].
  rewrite NoDup_cons, elem_of_cons. intros [Hk Hd] [[= -> ->]|Hin].
  - by rewrite bool_decide_eq_true_2.
  - rewrite bool_decide_eq_false_2; [by apply IH|]. intros ->. apply Hk. by apply (list_elem_of_fmap_2 fst) in Hin.
Qed.

Lemma dict_get_None {V} k (d : list (K * V)) : dict_get k d = None ↔ k ∉ d.*1.
Proof.
  induction d as [|[k1 v1] d IH]; simpl; [split; [intros _; apply not_elem_of_nil|done]|].
  rewrite elem_of_cons. case_bool_decide; subst; [naive_solver|]. rewrite IH. naive_solver.
Qed.

Section comprehension.
Context {A V : Type} (key : A → K) (val : A → V).

(** The value under a key is that of its last writer. *)
Lemma dict_of_get xs d k :
  (∃ x, x ∈ xs ∧ key x = k ∧ dict_get k (dict_of key val xs d) = Some (val x)) ∨
  (∀ x, x ∈ xs → key x ≠ k) ∧ dict_get k (dict_of key val xs d) = dict_get k d.
Proof.
  revert d. induction xs as [|x xs IH]; intros d; simpl.
  { right. split; [intros x Hx; by apply not_elem_of_nil in Hx|done]. }
  destruct (IH (dict_set (key x) (val x) d)) as [(y & Hy & Hk & Hg)|[Hno Hg]].
  - left. exists y. split; [by right|done].
  - unfold dict_of in *. rewrite Hg, dict_get_set. case_bool_decide as Hk.
    + left. exists x. split; [left|done].
    + right. split; [|done]. intros y [->|Hy]%elem_of_cons; [done|by apply Hno].
Qed.

Lemma dict_of_elem xs d k v :
  (k, v) ∈ dict_of key val xs d → (∃ x, x ∈ xs ∧ key x = k ∧ val x = v) ∨ (k, v) ∈ d.
Proof.
  revert d. induction xs as [|x xs IH]; intros d Hin; simpl in *; [by right|].
  apply IH in Hin as [(y & Hy & ?)|[[= -> ->]|Hin]%dict_set_elem]; [left|left|by right].
  - exists y. split; [by right|done].
  - exists x. split; [left|done].
Qed.

Lemma dict_of_keys xs d k : k ∈ (dict_of key val xs d).*1 ↔ (∃ x, x ∈ xs ∧ key x = k) ∨ k ∈ d.*1.
Proof.
  revert d. induction xs as [|x xs IH]; intros d; unfold dict_of; simpl.
  { split; [by right|]. intros [(x & Hx & _)|?]; [by apply not_elem_of_nil in Hx|done]. }
  fold (dict_of key val xs (dict_set (key x) (val x) d)). rewrite IH, dict_set_keys. setoid_rewrite elem_of_cons. naive_solver.
Qed.

Lemma dict_of_NoDup xs d : NoDup d.*1 → NoDup (dict_of key val xs d).*1.
Proof. revert d. induction xs as [|x xs IH]; intros d Hd; simpl; [done|]. by apply IH, dict_set_NoDup. Qed.
End comprehension.

(** Appending to the lists of a [defaultdict(list)] keeps the elements, each under its key. *)
Lemma dict_append_elem {V} (k : K) (v : V) d k' l :
  NoDup d.*1 → (k', l) ∈ dict_append k v d →
  (k', l) ∈ d ∨ k' = k ∧ ∃ l0, l = l0 ++ [v] ∧ (l0 = [] ∧ k ∉ d.*1 ∨ (k, l0) ∈ d).
Proof.
  intros Hd [[= -> ->]|Hin]%dict_set_elem; [right|by left]. split; [done|].
  destruct (dict_get k d) as [l0|] eqn:Hg; simpl.
  - exists l0. split; [done|right]. by apply dict_get_elem.
  - exists []. split; [done|left]. split; [done|]. by apply dict_get_None.
Qed.

Lemma dict_append_keeps {V} (k : K) (v : V) d x : x ∈ concat d.*2 → x ∈ concat (dict_append k v d).*2.
Proof.
  unfold dict_append. intros Hx. induction d as [|[k1 l1] d IH]; simpl in *; [by apply not_elem_of_nil in Hx|].
  apply elem_of_app in Hx. case_bool_decide as Hk; simpl.
  - rewrite !elem_of_app. destruct Hx; [by left; left|by right].
  - rewrite elem_of_app. destruct Hx; [by left|right; by apply IH].
Qed.

Lemma dict_append_has {V} (k : K) (v : V) d : v ∈ concat (dict_append k v d).*2.
Proof.
  unfold dict_append. generalize (default [] (dict_get k d)). intros l0.
  induction d as [|[k1 l1] d IH]; simpl; [rewrite !elem_of_app; left; right; left|].
  case_bool_decide; simpl; rewrite !elem_of_app; [left; right; left|by right].
Qed.
End dict.
