(* ===== verification/Decimals.v ===== *)
(** Python's [decimal] module, as the billing code uses it.

    A [Decimal] is a sign, a coefficient and an exponent, or an infinity, or a
    NaN. Arithmetic is done in the default context (28 digits, half-even,
    [Emax] 999999), [quantize] rounds half up as the code asks, and
    [format(d, "f")] prints fixed-point text. The module also holds the two
    functions of [credits.py] that are pure decimal arithmetic,
    [credits_amount] and [credits_for_cost]. A rounded amount of credits is
    six-place, so it is kept as an integer number of millionths. *)
From stdpp Require Import pretty.
From S2P Require Import Prelude.

Local Open Scope Z_scope.
Local Open Scope py_scope.

(** ** The data *)

Inductive decimal : Type :=
| Fin (sgn : bool) (coef : N) (exp : Z)
| Inf (sgn : bool)
| NaN.

(** The conditions of the context that raise. *)
Inductive signal : Type := InvalidOperation | Overflow.

#[export] Instance decimal_eq_dec : EqDecision decimal.
Proof. solve_decision. Defined.

Definition prec : Z := 28.
Definition Emax : Z := 999999.
Definition Emin : Z := -999999.
Definition Etiny : Z := Emin - prec + 1.
Definition Etop : Z := Emax - prec + 1.

Definition pow10 (k : Z) : N := (10 ^ Z.to_N k)%N.

(** The number of decimal digits of a coefficient ([len(self._int)]; zero has one). *)
Fixpoint ndigits_go (fuel : nat) (c : N) : Z :=
  match fuel with
  | O => 1
  | S fuel => if (c <? 10)%N then 1 else 1 + ndigits_go fuel (c / 10)%N
  end.
Definition ndigits (c : N) : Z := ndigits_go (N.to_nat (N.size c)) c.

Definition adjusted (c : N) (e : Z) : Z := e + ndigits c - 1.

(** ** Rounding *)

(** Dropping the last [k] digits of a coefficient, halves away from zero. *)
Definition half_up (c : N) (k : Z) : N :=
  (c / pow10 k + (if pow10 k <=? 2 * (c mod pow10 k) then 1 else 0))%N.

(** The same, halves to the even neighbour (the context's rounding). *)
Definition half_even (c : N) (k : Z) : N :=
  let q := (c / pow10 k)%N in
  let r := (2 * (c mod pow10 k))%N in
  if (pow10 k <? r)%N || ((pow10 k =? r)%N && N.odd q) then (q + 1)%N else q.

(** [Decimal._fix]: a result is rounded to the context's precision. *)
Definition fix_finite (s : bool) (c : N) (e : Z) : result signal decimal :=
  if (c =? 0)%N then Ok (Fin s 0 (Z.min (Z.max e Etiny) Emax)) else
  let exp_min := ndigits c + e - prec in
  if (Etop <? exp_min)%Z then Err Overflow else
  let exp_min := Z.max exp_min Etiny in
  if (e <? exp_min)%Z then
    let c' := half_even c (exp_min - e) in
    let '(c', exp_min) :=
      if (prec <? ndigits c')%Z then ((c' / 10)%N, exp_min + 1) else (c', exp_min) in
    if (Etop <? exp_min)%Z then Err Overflow else Ok (Fin s c' exp_min)
  else Ok (Fin s c e).

(** [a * b] *)
Definition mul (a b : decimal) : result signal decimal :=
  match a, b with
  | NaN, _ | _, NaN => Ok NaN
  | Inf s, Inf t => Ok (Inf (xorb s t))
  | Inf s, Fin t c _ | Fin t c _, Inf s =>
      if (c =? 0)%N then Err InvalidOperation else Ok (Inf (xorb s t))
  | Fin s c e, Fin t d f => fix_finite (xorb s t) (c * d)%N (e + f)
  end.

(** [d.quantize(Decimal("1E<e>"), rounding=ROUND_HALF_UP)] *)
Definition rescale_half_up (c : N) (e e' : Z) : N :=
  if (e' <=? e)%Z then (c * pow10 (e - e'))%N else half_up c (e' - e).

Definition quantize (d : decimal) (e' : Z) : result signal decimal :=
  match d with
  | NaN => Ok NaN
  | Inf _ => Err InvalidOperation
  | Fin s c e =>
      if (e' <? Etiny)%Z || (Emax <? e')%Z then Err InvalidOperation else
      if (c =? 0)%N then Ok (Fin s 0 e') else
      if (Emax <? adjusted c e)%Z then Err InvalidOperation else
      if (prec <? adjusted c e - e' + 1)%Z then Err InvalidOperation else
      let c' := rescale_half_up c e e' in
      if (Emax <? adjusted c' e')%Z then Err InvalidOperation else
      if (prec <? ndigits c')%Z then Err InvalidOperation else
      fix_finite s c' e'
  end.

Definition is_finite (d : decimal) : bool :=
  match d with Fin _ _ _ => true | _ => false end.

(** [d < 0] *)
Definition is_negative (d : decimal) : bool :=
  match d with
  | Fin s c _ => s && negb (c =? 0)%N
  | Inf s => s
  | NaN => false
  end.

(** [d.normalize()]: rounded to the context, trailing zeros moved to the exponent. *)
Fixpoint strip_zeros (fuel : nat) (c : N) (e : Z) : N * Z :=
  match fuel with
  | O => (c, e)
  | S fuel =>
      if ((c mod 10 =? 0)%N && (e <? Emax)%Z) then strip_zeros fuel (c / 10)%N (e + 1) else (c, e)
  end.

Definition normalize (d : decimal) : result signal decimal :=
  match d with
  | Fin s c e =>
      let! d' := fix_finite s c e in
      match d' with
      | Fin s 0 _ => Ok (Fin s 0 0)
      | Fin s c e => let '(c, e) := strip_zeros (N.to_nat (N.size c)) c e in Ok (Fin s c e)
      | d' => Ok d'
      end
  | _ => Ok d
  end.

(** ** Fixed-point text *)

Definition digit (n : N) : Ascii.ascii := Ascii.ascii_of_N (48 + n).

(** The last [k] digits of [n], zeros included. *)
Fixpoint fixed_digits (k : nat) (n : N) : string :=
  match k with
  | O => ""
  | S k => (fixed_digits k (n / 10) +:+ String (digit (n mod 10)) "")%string
  end.

(** [format(d, "f")] *)
Definition format_f (d : decimal) : string :=
  match d with
  | NaN => "NaN"
  | Inf s => (if s then "-Infinity" else "Infinity")%string
  | Fin s c e =>
      ((if s then "-" else "") +:+
       (if (0 <=? e)%Z then pretty (c * pow10 e)%N
        else pretty (c / pow10 (- e))%N +:+ "." +:+
             fixed_digits (Z.to_nat (- e)) (c mod pow10 (- e))))%string
  end.

(** ** Amounts of credits *)

(** A six-place decimal as an integer number of millionths, and back. *)
Definition micro (s : bool) (c : N) : Z := if s then - Z.of_N c else Z.of_N c.
Definition of_micro (z : Z) : decimal := Fin (z <? 0)%Z (Z.abs_N z) (-6).

(** What [credits_amount] and [credits_for_cost] raise. *)
Inductive amount_error : Type :=
| NotFinite                      (* ValueError: credits must be a finite number *)
| BadCost                        (* ValueError: a cost must be finite and non-negative *)
| Signal (sig : signal).         (* an exception of the decimal context *)

(** [credits_amount]: six places, halves away from zero. *)
Definition credits_amount (value : decimal) : result amount_error Z :=
  if negb (is_finite value) then Err NotFinite else
  match quantize value (-6) with
  | Ok (Fin s c _) => Ok (micro s c)
  | Ok _ => Err NotFinite
  | Err sig => Err (Signal sig)
  end.

(** [credits_for_cost]: [cost * rate * markup], then [credits_amount]. *)
Definition credits_for_cost (cost credits_per_usd markup : decimal) : result amount_error Z :=
  if negb (is_finite cost) || is_negative cost then Err BadCost else
  let! p := rmap_err Signal (mul cost credits_per_usd) in
  let! q := rmap_err Signal (mul p markup) in
  credits_amount q.

(** Facts on the decimals of [Decimals.v]: what rounding does to a value, when
    the context leaves a product exact, and that fixed-point text identifies a
    six-place amount. *)

(** ** Powers of ten and digits *)

Lemma pow10_pos k : (0 < pow10 k)%N.
Proof. unfold pow10. pose proof (N.pow_nonzero 10 (Z.to_N k)). lia. Qed.

Lemma pow10_add j k : 0 ≤ j → 0 ≤ k → pow10 (j + k) = (pow10 j * pow10 k)%N.
Proof. intros. unfold pow10. rewrite Z2N.inj_add by done. apply N.pow_add_r. Qed.

Lemma pow10_le j k : j ≤ k → (pow10 j ≤ pow10 k)%N.
Proof. intros. unfold pow10. apply N.pow_le_mono_r; lia. Qed.

Lemma ndigits_go_pos fuel c : 1 ≤ ndigits_go fuel c.
Proof. revert c. induction fuel as [|f IH]; intros c; simpl; [lia|]. case_match; [lia|]. specialize (IH (c / 10)%N). lia. Qed.

Lemma ndigits_pos c : 1 ≤ ndigits c.
Proof. apply ndigits_go_pos. Qed.

Lemma ndigits_go_spec fuel c :
  (0 < c)%N → (c < 2 ^ N.of_nat fuel)%N →
  (pow10 (ndigits_go fuel c - 1) ≤ c < pow10 (ndigits_go fuel c))%N.
Proof.
  revert c. induction fuel as [|f IH]; intros c Hc Hf.
  { simpl in Hf. lia. }
  cbn [ndigits_go]. destruct (N.ltb_spec c 10) as [H|H].
  { unfold pow10. simpl. lia. }
  assert (Hq : (0 < c / 10)%N) by (apply N.div_str_pos; lia).
  assert (Hb : (c / 10 < 2 ^ N.of_nat f)%N).
  { apply N.Div0.div_lt_upper_bound.
    rewrite Nat2N.inj_succ, N.pow_succ_r' in Hf. lia. }
  specialize (IH _ Hq Hb). pose proof (ndigits_go_pos f (c / 10)%N).
  set (d := ndigits_go f (c / 10)) in *.
  replace (1 + d - 1) with (1 + (d - 1)) by lia.
  rewrite !pow10_add by lia. change (pow10 1) with 10%N.
  pose proof (N.div_mod' c 10) as Hdm. pose proof (N.mod_lt c 10 ltac:(done)) as Hm.
  set (q := (c / 10)%N) in *. set (r := (c mod 10)%N) in *.
  destruct IH as [IH1 IH2]. split; [nia|].
  replace d with ((d - 1) + 1) in IH2 |- * by lia.
  rewrite pow10_add in IH2 |- * by lia. change (pow10 1) with 10%N in *. lia.
Qed.

Lemma ndigits_spec c :
  (0 < c)%N → (pow10 (ndigits c - 1) ≤ c < pow10 (ndigits c))%N.
Proof. intros Hc. apply ndigits_go_spec; [done|]. rewrite N2Nat.id. apply N.size_gt. Qed.

Lemma ndigits_le c k : 1 ≤ k → (c < pow10 k)%N → ndigits c ≤ k.
Proof.
  intros Hk Hc. destruct (decide (c = 0%N)) as [->|]; [done|].
  destruct (ndigits_spec c) as [Hlo _]; [lia|].
  destruct (Z_le_gt_dec (ndigits c) k) as [|Hgt]; [done|].
  pose proof (pow10_le k (ndigits c - 1)). lia.
Qed.

(** ** Rounding *)

(** [half_up c k] is [c / 10^k] rounded to the nearest integer, halves up. *)
Lemma half_up_spec c k :
  (2 * pow10 k * half_up c k ≤ 2 * c + pow10 k < 2 * pow10 k * (half_up c k + 1))%N.
Proof.
  unfold half_up. pose proof (pow10_pos k). generalize dependent (pow10 k). intros P HP.
  pose proof (N.div_mod' c P). pose proof (N.mod_lt c P ltac:(lia)).
  set (q := (c / P)%N) in *. set (r := (c mod P)%N) in *.
  destruct (N.leb_spec P (2 * r)); nia.
Qed.

Lemma fix_finite_id s c e :
  ndigits c ≤ prec → Etiny ≤ e ≤ Etop → fix_finite s c e = Ok (Fin s c e).
Proof.
  intros Hd [Hlo Hhi]. unfold fix_finite.
  destruct (N.eqb_spec c 0) as [->|Hc].
  { unfold Etiny, Etop, Emin, Emax, prec in *. repeat f_equal. lia. }
  pose proof (ndigits_pos c). unfold Etop, Etiny, Emin, Emax, prec in *.
  cbv zeta. rewrite (proj2 (Z.ltb_ge _ _)) by lia. by rewrite (proj2 (Z.ltb_ge _ _)) by lia.
Qed.

Lemma rescale_half_up_exact c e e' :
  e' ≤ e → rescale_half_up c e e' = (c * pow10 (e - e'))%N.
Proof. intros. unfold rescale_half_up. by rewrite (proj2 (Z.leb_le _ _)). Qed.

Lemma rescale_half_up_round c e e' :
  e < e' → rescale_half_up c e e' = half_up c (e' - e).
Proof. intros. unfold rescale_half_up. by rewrite (proj2 (Z.leb_gt _ _)). Qed.

Lemma rescale_half_up_zero e e' : rescale_half_up 0 e e' = 0%N.
Proof.
  destruct (Z_le_gt_dec e' e).
  - by rewrite rescale_half_up_exact.
  - rewrite rescale_half_up_round by lia. pose proof (half_up_spec 0 (e' - e)).
    pose proof (pow10_pos (e' - e)). nia.
Qed.

(** Rounding at a value below [10^27] units leaves at most 28 digits. *)
Lemma rescale_half_up_digits c e e' :
  adjusted c e - e' + 1 < prec → ndigits (rescale_half_up c e e') ≤ prec.
Proof.
  unfold adjusted, prec. intros Ha.
  destruct (decide (c = 0%N)) as [->|Hc]; [by rewrite rescale_half_up_zero|].
  destruct (ndigits_spec c) as [_ Hhi]; [lia|]. pose proof (ndigits_pos c).
  destruct (Z_le_gt_dec e' e).
  - rewrite rescale_half_up_exact by lia. apply ndigits_le; [lia|].
    assert (pow10 (ndigits c) * pow10 (e - e') ≤ pow10 28)%N as Hle.
    { rewrite <-pow10_add by lia. apply pow10_le. lia. }
    pose proof (pow10_pos (e - e')) as HP.
    generalize dependent (pow10 (e - e')). generalize dependent (pow10 (ndigits c)).
    intros. nia.
  - rewrite rescale_half_up_round by lia. pose proof (half_up_spec c (e' - e)) as [Hr _].
    pose proof (pow10_pos (e' - e)) as HP. apply ndigits_le; [lia|].
    assert (pow10 (ndigits c) ≤ pow10 27 * pow10 (e' - e))%N as Hle.
    { rewrite <-pow10_add by lia. apply pow10_le. lia. }
    assert (pow10 28 = 10 * pow10 27)%N as -> by (vm_compute; reflexivity).
    pose proof (pow10_pos 27) as HQ.
    generalize dependent (half_up c (e' - e)). generalize dependent (pow10 (e' - e)).
    generalize dependent (pow10 27). generalize dependent (pow10 (ndigits c)).
    intros. nia.
Qed.

Lemma quantize_six s c e :
  adjusted c e ≤ 20 → quantize (Fin s c e) (-6) = Ok (Fin s (rescale_half_up c e (-6)) (-6)).
Proof.
  intros Ha. unfold quantize. cbv zeta.
  change ((-6 <? Etiny) || (Emax <? -6)) with false. cbv iota.
  destruct (N.eqb_spec c 0) as [->|Hc]; [by rewrite rescale_half_up_zero|].
  pose proof (rescale_half_up_digits c e (-6)) as Hd. unfold prec in Hd.
  specialize (Hd ltac:(lia)). pose proof (ndigits_pos (rescale_half_up c e (-6))).
  unfold Emax at 1. rewrite (proj2 (Z.ltb_ge _ _)) by lia.
  unfold prec at 1. rewrite (proj2 (Z.ltb_ge _ _)) by lia.
  unfold Emax at 1. rewrite (proj2 (Z.ltb_ge _ _)) by (unfold adjusted; lia).
  rewrite (proj2 (Z.ltb_ge _ _)) by done.
  by apply fix_finite_id.
Qed.

Lemma quantize_six_inv s c e d :
  quantize (Fin s c e) (-6) = Ok d → d = Fin s (rescale_half_up c e (-6)) (-6).
Proof.
  unfold quantize. cbv zeta. change ((-6 <? Etiny) || (Emax <? -6)) with false. cbv iota.
  destruct (N.eqb_spec c 0) as [->|Hc]; [intros; simplify_eq; by rewrite rescale_half_up_zero|].
  do 3 (case_match; [done|]). case_match eqn:Hp; [done|].
  apply Z.ltb_ge in Hp. rewrite fix_finite_id by done. by intros; simplify_eq.
Qed.

Lemma credits_amount_inv s c e z :
  credits_amount (Fin s c e) = Ok z → z = micro s (rescale_half_up c e (-6)).
Proof.
  unfold credits_amount. cbn [is_finite negb].
  destruct (quantize (Fin s c e) (-6)) as [d|] eqn:Hq; [|done].
  apply quantize_six_inv in Hq as ->. by intros; simplify_eq.
Qed.

Lemma credits_amount_small s c e :
  adjusted c e ≤ 20 → credits_amount (Fin s c e) = Ok (micro s (rescale_half_up c e (-6))).
Proof.
  intros Ha. unfold credits_amount. cbn [is_finite negb]. by rewrite quantize_six.
Qed.

Lemma credits_amount_finite d z : credits_amount d = Ok z → ∃ s c e, d = Fin s c e.
Proof. destruct d; [eauto|done|done]. Qed.

(** An amount that already has six places is not changed. *)
Lemma credits_amount_of_micro z :
  (-10 ^ 27 < z < 10 ^ 27) → credits_amount (of_micro z) = Ok z.
Proof.
  intros Hz. unfold of_micro. rewrite credits_amount_small.
  - rewrite rescale_half_up_exact by done. change (pow10 (-6 - -6)) with 1%N.
    rewrite N.mul_1_r. unfold micro.
    destruct (Z.ltb_spec z 0); f_equal; lia.
  - unfold adjusted. assert (ndigits (Z.abs_N z) ≤ 27); [|lia].
    apply ndigits_le; [done|]. assert (pow10 27 = 10 ^ 27)%N as -> by (vm_compute; done). lia.
Qed.

(** [r] is [c * 10^e] rounded to the nearest millionth, halves away from zero;
    stated without fractions: [2 * 10^6 * |value|] lies in [2|r| - 1, 2|r| + 1). *)
Definition rounds_half_up (c : N) (e : Z) (r : N) : Prop :=
  if e <? -6 then
    (2 * pow10 (-6 - e) * r ≤ 2 * c + pow10 (-6 - e) < 2 * pow10 (-6 - e) * (r + 1))%N
  else r = (c * pow10 (e + 6))%N.

Lemma rescale_rounds c e : rounds_half_up c e (rescale_half_up c e (-6)).
Proof.
  unfold rounds_half_up. destruct (Z.ltb_spec e (-6)).
  - rewrite rescale_half_up_round by done. apply half_up_spec.
  - rewrite rescale_half_up_exact by lia. done.
Qed.

Lemma rounds_half_up_unique c e r r' :
  rounds_half_up c e r → rounds_half_up c e r' → r = r'.
Proof.
  unfold rounds_half_up. destruct (e <? -6); [|congruence].
  pose proof (pow10_pos (-6 - e)). generalize dependent (pow10 (-6 - e)). intros P HP H1 H2.
  destruct (N.lt_trichotomy r r') as [?|[?|?]]; [nia|done|nia].
Qed.

(** ** Products *)

(** A product of at most 28 digits is exact. *)
Lemma mul_exact s c e t d f :
  ndigits (c * d) ≤ prec → Etiny ≤ e + f ≤ Etop →
  mul (Fin s c e) (Fin t d f) = Ok (Fin (xorb s t) (c * d) (e + f)).
Proof. intros. simpl. by apply fix_finite_id. Qed.

Lemma credits_for_cost_exact c e r f m g :
  ndigits (c * r) ≤ prec → ndigits (c * r * m) ≤ prec →
  Etiny ≤ e + f ≤ Etop → Etiny ≤ e + f + g ≤ Etop →
  credits_for_cost (Fin false c e) (Fin false r f) (Fin false m g)
  = credits_amount (Fin false (c * r * m) (e + f + g)).
Proof.
  intros. unfold credits_for_cost. cbn [is_finite is_negative negb orb andb].
  rewrite mul_exact by done. cbn [rmap_err rbind]. by rewrite mul_exact by done.
Qed.

Lemma mul_nonneg_inv c e d f p :
  mul (Fin false c e) (Fin false d f) = Ok p → ∃ c' e', p = Fin false c' e'.
Proof.
  simpl. unfold fix_finite. cbv zeta. intros H.
  repeat (case_match; try done); simplify_eq; eauto.
Qed.

(** Credits for a non-negative cost at non-negative rates are never negative. *)
Lemma credits_for_cost_nonneg cost r f m g z :
  credits_for_cost cost (Fin false r f) (Fin false m g) = Ok z → 0 ≤ z.
Proof.
  unfold credits_for_cost.
  destruct (negb (is_finite cost) || is_negative cost) eqn:Hc; [done|].
  apply orb_false_iff in Hc as [Hfin Hneg]. destruct cost as [s c e| |]; try done.
  assert (s = false ∨ c = 0%N) as Hs.
  { simpl in Hneg. destruct s; [right|by left]. by destruct (N.eqb_spec c 0). }
  intros (p & Hp & (q & Hq & Hz)%rbind_Ok)%rbind_Ok.
  assert (∃ s' c' e', q = Fin s' c' e' ∧ (s' = false ∨ c' = 0%N)) as (s' & c' & e' & -> & Hs').
  { destruct Hs as [->| ->].
    - destruct (mul (Fin false c e) (Fin false r f)) eqn:H1; simplify_eq/=.
      apply mul_nonneg_inv in H1 as (c1 & e1 & ->).
      destruct (mul (Fin false c1 e1) (Fin false m g)) eqn:H2; simplify_eq/=.
      apply mul_nonneg_inv in H2 as (c2 & e2 & ->). naive_solver.
    - simpl in Hp. simplify_eq/=. naive_solver. }
  apply credits_amount_inv in Hz as ->.
  destruct Hs' as [->| ->]; unfold micro; [lia|]. rewrite rescale_half_up_zero. by destruct s'.
Qed.

(** ** Text *)

Lemma string_app_inv (s1 s2 t1 t2 : string) :
  String.length t1 = String.length t2 →
  (s1 +:+ t1)%string = (s2 +:+ t2)%string → s1 = s2 ∧ t1 = t2.
Proof.
  intros Hlen. revert s2. induction s1 as [|a s1 IH]; intros [|b s2] Heq.
  - done.
  - exfalso. apply (f_equal String.length) in Heq.
    rewrite !str_length_app in Heq. simpl in Heq. lia.
  - exfalso. apply (f_equal String.length) in Heq.
    rewrite !str_length_app in Heq. simpl in Heq. lia.
  - injection Heq as -> Heq. apply IH in Heq as [-> ->]. done.
Qed.

Lemma fixed_digits_length k n : String.length (fixed_digits k n) = k.
Proof.
  revert n. induction k as [|k IH]; intros n; [done|].
  simpl. rewrite str_length_app, IH. simpl. lia.
Qed.

Lemma digit_inj m n : (m < 10)%N → (n < 10)%N → digit m = digit n → m = n.
Proof.
  intros Hm Hn H%(f_equal Ascii.N_of_ascii). unfold digit in H.
  rewrite !Ascii.N_ascii_embedding in H by lia. lia.
Qed.

Lemma fixed_digits_inj k m n :
  (m < 10 ^ N.of_nat k)%N → (n < 10 ^ N.of_nat k)%N →
  fixed_digits k m = fixed_digits k n → m = n.
Proof.
  revert m n. induction k as [|k IH]; intros m n Hm Hn H; [simpl in *; lia|].
  rewrite Nat2N.inj_succ, N.pow_succ_r' in Hm, Hn.
  simpl in H. apply string_app_inv in H as [H1 H2]; [|done].
  apply IH in H1; [|apply N.Div0.div_lt_upper_bound; lia..].
  injection H2 as H2. apply digit_inj in H2; [|apply N.mod_lt; done..].
  rewrite (N.div_mod' m 10), (N.div_mod' n 10). lia.
Qed.

(** Two six-place amounts printed alike are the same amount. *)
Lemma format_of_micro_inj a b :
  0 ≤ a → 0 ≤ b → format_f (of_micro a) = format_f (of_micro b) → a = b.
Proof.
  intros Ha Hb. unfold of_micro, format_f.
  rewrite !(proj2 (Z.ltb_ge _ _)) by done. change (0 <=? -6) with false. cbv iota.
  change (Z.to_nat (- -6)) with 6%nat. assert (pow10 (- -6) = 1000000)%N as -> by (vm_compute; done).
  remember (fixed_digits 6 (Z.abs_N a mod 1000000)) as fa eqn:Ea.
  remember (fixed_digits 6 (Z.abs_N b mod 1000000)) as fb eqn:Eb.
  intros H. change (pretty (Z.abs_N a / 1000000)%N +:+ String (Ascii.ascii_of_nat 46) fa =
    pretty (Z.abs_N b / 1000000)%N +:+ String (Ascii.ascii_of_nat 46) fb)%string in H.
  apply string_app_inv in H as [H1 H2].
  2: { simpl. rewrite Ea, Eb. apply f_equal.
       etrans; [apply (fixed_digits_length 6)|symmetry; apply (fixed_digits_length 6)]. }
  apply (inj pretty) in H1. injection H2 as H2. rewrite Ea, Eb in H2.
  apply (fixed_digits_inj 6) in H2; [|apply N.mod_lt; done..].
  assert (Z.abs_N a = Z.abs_N b); [|lia].
  rewrite (N.div_mod' (Z.abs_N a) 1000000), (N.div_mod' (Z.abs_N b) 1000000). lia.
Qed.
