(* ===== verification/Calendar.v ===== *)
(** Python's [datetime], as the code uses it: an instant in microseconds since
    1970-01-01 UTC, whether it carries a time zone, its civil fields (the
    proleptic Gregorian calendar), and its ISO text. *)
From S2P Require Import Prelude Decimals.

Local Open Scope Z_scope.

Record datetime : Type := DateTime {
  dt_us : Z;          (* the instant, as UTC microseconds *)
  dt_aware : bool;    (* tzinfo is not None *)
}.

Definition us_per_second : Z := 1000000.
Definition us_per_hour : Z := 3600 * us_per_second.
Definition us_per_day : Z := 24 * us_per_hour.

(** [timedelta(days=n)] and [timedelta(hours=n)] *)
Definition days (n : Z) : Z := n * us_per_day.
Definition hours (n : Z) : Z := n * us_per_hour.

(** The civil date of a day number (days since 1970-01-01): years are counted from March. *)
Record date : Type := Date { year : Z; month : Z; day : Z }.

Definition civil_from_days (z : Z) : date :=
  let z := z + 719468 in
  let era := z / 146097 in
  let doe := z mod 146097 in
  let yoe := (doe - doe / 1460 + doe / 36524 - doe / 146096) / 365 in
  let doy := doe - (365 * yoe + yoe / 4 - yoe / 100) in
  let mp := (5 * doy + 2) / 153 in
  let m := if mp <? 10 then mp + 3 else mp - 9 in
  Date (yoe + era * 400 + (if m <=? 2 then 1 else 0)) m (doy - (153 * mp + 2) / 5 + 1).

Definition days_from_civil (d : date) : Z :=
  let y := if month d <=? 2 then year d - 1 else year d in
  let era := y / 400 in
  let yoe := y mod 400 in
  let mp := if month d <=? 2 then month d + 9 else month d - 3 in
  let doy := (153 * mp + 2) / 5 + day d - 1 in
  let doe := yoe * 365 + yoe / 4 - yoe / 100 + doy in
  era * 146097 + doe - 719468.

Definition date_of (us : Z) : date := civil_from_days (us / us_per_day).

Definition pad (k : nat) (n : Z) : string := fixed_digits k (Z.to_N n).

(** [dt.astimezone(UTC).isoformat(timespec="microseconds")] *)
Definition isoformat (us : Z) : string :=
  let d := date_of us in
  let t := us mod us_per_day in
  (pad 4 (year d) +:+ "-" +:+ pad 2 (month d) +:+ "-" +:+ pad 2 (day d) +:+ "T" +:+
   pad 2 (t / us_per_hour) +:+ ":" +:+ pad 2 (t / (60 * us_per_second) mod 60) +:+ ":" +:+
   pad 2 (t / us_per_second mod 60) +:+ "." +:+ pad 6 (t mod us_per_second) +:+ "+00:00")%string.

(** [dt.isoformat()] of a UTC time: no microseconds when there are none. *)
Definition isoformat_auto (t : datetime) : string :=
  let us := dt_us t in
  let d := date_of us in
  let s := us mod us_per_day in
  (pad 4 (year d) +:+ "-" +:+ pad 2 (month d) +:+ "-" +:+ pad 2 (day d) +:+ "T" +:+
   pad 2 (s / us_per_hour) +:+ ":" +:+ pad 2 (s / (60 * us_per_second) mod 60) +:+ ":" +:+
   pad 2 (s / us_per_second mod 60) +:+
   (if (s mod us_per_second =? 0)%Z then "" else "." +:+ pad 6 (s mod us_per_second)) +:+
   (if dt_aware t then "+00:00" else ""))%string.

(** The largest instant a [datetime] holds: the end of the year 9999. *)
Definition max_instant : Z := 253402300799999999.

Example isoformat_example : isoformat 1770000000123456 = "2026-02-02T02:40:00.123456+00:00".
Proof. vm_compute. reflexivity. Qed.

(** ** The calendar is consistent *)

(** The year of an era a day falls in, and the day that year starts on. *)
Lemma year_of_era doe :
  0 ≤ doe < 146097 →
  let yoe := (doe - doe / 1460 + doe / 36524 - doe / 146096) / 365 in
  let start y := 365 * y + y / 4 - y / 100 in
  0 ≤ yoe ≤ 399 ∧ start yoe ≤ doe ∧
  (doe < start (yoe + 1) ∨ (yoe = 399 ∧ doe = 146096)).
Proof.
  intros H. cbv zeta.
  assert (doe / 146096 = 0 ∨ doe = 146096) as [Hc| ->]
    by (Z.to_euclidean_division_equations; lia); [|vm_compute; intuition congruence].
  rewrite Hc. split; [|split; [|left]]; Z.to_euclidean_division_equations; lia.
Qed.

(** The month of a year (from March) and the day of that month. *)
Lemma month_of_year doy :
  0 ≤ doy < 366 →
  let mp := (5 * doy + 2) / 153 in
  0 ≤ mp ≤ 11 ∧ (153 * mp + 2) / 5 ≤ doy ∧ (mp < 11 → doy < (153 * (mp + 1) + 2) / 5).
Proof. intros H. cbv zeta. Z.to_euclidean_division_equations. lia. Qed.

(** The first day of the month after [d]'s. *)
Definition next_month (d : date) : date :=
  if month d =? 12 then Date (year d + 1) 1 1 else Date (year d) (month d + 1) 1.

(** [days_from_civil] on a year and month counted from March. *)
Definition march_days (era yoe mp d : Z) : Z :=
  era * 146097 + (yoe * 365 + yoe / 4 - yoe / 100 + ((153 * mp + 2) / 5 + d - 1)) - 719468.

Lemma days_from_march era yoe mp d :
  0 ≤ yoe ≤ 399 → 0 ≤ mp ≤ 11 →
  let m := if mp <? 10 then mp + 3 else mp - 9 in
  days_from_civil (Date (yoe + era * 400 + (if m <=? 2 then 1 else 0)) m d) =
  march_days era yoe mp d.
Proof.
  intros Hy Hm. cbv zeta. unfold days_from_civil, march_days. cbn [year month day].
  assert (Hdiv : ∀ x, x = yoe + era * 400 → x / 400 = era ∧ x mod 400 = yoe).
  { intros x ->. rewrite Z.div_add, Z.mod_add by done.
    rewrite Z.div_small, Z.mod_small by lia. lia. }
  destruct (Z.ltb_spec mp 10).
  - rewrite (proj2 (Z.leb_gt _ _)) by lia.
    destruct (Hdiv (yoe + era * 400 + 0)) as [-> ->]; [lia|].
    replace (mp + 3 - 3) with mp by lia. lia.
  - rewrite (proj2 (Z.leb_le _ _)) by lia.
    destruct (Hdiv (yoe + era * 400 + 1 - 1)) as [-> ->]; [lia|].
    replace (mp - 9 + 9) with mp by lia. lia.
Qed.

Lemma days_next_march era yoe mp :
  0 ≤ yoe ≤ 399 → 0 ≤ mp ≤ 11 →
  let m := if mp <? 10 then mp + 3 else mp - 9 in
  days_from_civil (next_month (Date (yoe + era * 400 + (if m <=? 2 then 1 else 0)) m 1)) =
  if mp =? 11 then
    (if yoe =? 399 then march_days (era + 1) 0 0 1 else march_days era (yoe + 1) 0 1)
  else march_days era yoe (mp + 1) 1.
Proof.
  intros Hy Hm. cbv zeta. unfold next_month. cbn [year month day].
  destruct (Z.eqb_spec mp 11) as [->|Hne].
  { simpl. destruct (Z.eqb_spec yoe 399) as [->|].
    - rewrite <-(days_from_march (era + 1) 0 0) by lia. simpl. do 2 f_equal. lia.
    - rewrite <-(days_from_march era (yoe + 1) 0) by lia. simpl. do 2 f_equal. lia. }
  rewrite <-(days_from_march era yoe (mp + 1)) by lia. cbv zeta.
  destruct (Z.ltb_spec mp 10), (Z.ltb_spec (mp + 1) 10); try lia.
  - rewrite (proj2 (Z.eqb_neq _ _)) by lia. rewrite !(proj2 (Z.leb_gt _ _)) by lia.
    do 2 f_equal. lia.
  - assert (mp = 9) as -> by lia. simpl. do 2 f_equal. lia.
  - assert (mp = 10) as -> by lia. simpl. do 2 f_equal.
Qed.

(** The civil date of a day names that day, and the day lies between the first
    of its month and the first of the next. *)
Lemma civil_spec z :
  let d := civil_from_days z in
  days_from_civil d = z ∧ 1 ≤ month d ≤ 12 ∧
  days_from_civil (Date (year d) (month d) 1) ≤ z < days_from_civil (next_month d).
Proof.
  cbv zeta. unfold civil_from_days. cbv zeta.
  set (era := (z + 719468) / 146097). set (doe := (z + 719468) mod 146097).
  assert (Hdoe : 0 ≤ doe < 146097) by by apply Z.mod_pos_bound.
  assert (Hz : z = era * 146097 + doe - 719468).
  { pose proof (Z.div_mod (z + 719468) 146097). lia. }
  clearbody era doe. destruct (year_of_era doe Hdoe) as (Hy & Hlo & Hhi).
  set (yoe := (doe - doe / 1460 + doe / 36524 - doe / 146096) / 365) in *.
  set (doy := doe - (365 * yoe + yoe / 4 - yoe / 100)).
  assert (Hdoy : 0 ≤ doy < 366).
  { clearbody yoe. subst doy. Z.to_euclidean_division_equations. lia. }
  destruct (month_of_year doy Hdoy) as (Hm & Hdlo & Hdhi).
  set (mp := (5 * doy + 2) / 153) in *. clearbody mp yoe.
  cbn [year month day]. rewrite days_from_march, (days_from_march era yoe mp 1) by done.
  unfold next_month. cbn [year month day].
  split; [unfold march_days; subst doy; lia|].
  split; [destruct (Z.ltb_spec mp 10); lia|].
  split; [unfold march_days; subst doy; lia|].
  pose proof (days_next_march era yoe mp Hy Hm) as Hn. cbv zeta in Hn.
  unfold next_month in Hn. cbn [year month day] in Hn. rewrite Hn. unfold march_days.
  destruct (Z.eqb_spec mp 11).
  2: { specialize (Hdhi ltac:(lia)). subst doy. lia. }
  change ((153 * 0 + 2) / 5) with 0. destruct (Z.eqb_spec yoe 399) as [->|].
  - change (0 / 4) with 0. change (0 / 100) with 0. lia.
  - destruct Hhi as [Hhi|[? _]]; [lia|done].
Qed.
