(* ===== verification/Db.v ===== *)
(** The effects the program runs under: exceptions, the database, and the
    monad of its coroutines.

    A coroutine is a function of an environment and a world. The world holds the
    tables (a table is the list of its rows, in insertion order), a counter of
    the steps taken so far, and the counters the code has incremented. The
    environment holds everything the program does not decide: the identifiers
    [gen_random_uuid()] draws, the two clocks, and, for every step, whether that
    step fails. So a theorem about all environments is a theorem about every
    clock and every schedule of failures.

    [stmt] is one SQL statement, [savepoint] is [async with conn.transaction()],
    [transaction] is [async with get_connection()]: it reads the transaction's
    [now()], commits when the body returns and rolls back when it raises. A
    commit can fail before or after it takes effect ([AckLost]). *)
From S2P Require Import Prelude Decimals Calendar.

Local Open Scope Z_scope.

(** ** Exceptions *)

Inductive exn : Type :=
| ValueError (msg : string)
| RuntimeError (msg : string)
| AssertionError
| DecimalSignal (sig : signal)
| IdempotencyConflict (key tenant : string)
    (differences : list (string * (option string * option string)))
| UniqueViolation (constraint_name : string)
| CheckViolation (constraint_name : string)
| ForeignKeyViolation (constraint_name : string)
| NumericValueOutOfRange
| RaiseException (msg : string)        (* a trigger refused the change *)
| UndefinedTable
| UndefinedColumn
| OtherException (cls : string).

(** [type(exc).__name__] *)
Definition exn_name (x : exn) : string :=
  match x with
  | ValueError _ => "ValueError"
  | RuntimeError _ => "RuntimeError"
  | AssertionError => "AssertionError"
  | DecimalSignal InvalidOperation => "InvalidOperation"
  | DecimalSignal Overflow => "Overflow"
  | IdempotencyConflict _ _ _ => "IdempotencyConflict"
  | UniqueViolation _ => "UniqueViolation"
  | CheckViolation _ => "CheckViolation"
  | ForeignKeyViolation _ => "ForeignKeyViolation"
  | NumericValueOutOfRange => "NumericValueOutOfRange"
  | RaiseException _ => "RaiseException"
  | UndefinedTable => "UndefinedTable"
  | UndefinedColumn => "UndefinedColumn"
  | OtherException cls => cls
  end.

(** ** The schema: the rows of each table *)

Record account : Type := Account {
  acc_tenant : string;
  acc_created_at : Z;
  acc_created_by : string;
}.

Record lot : Type := Lot {
  lot_id : string;
  lot_tenant : string;
  lot_source : string;
  lot_provider : option string;
  lot_external_ref : option string;
  lot_granted : Z;             (* NUMERIC(18,6), in millionths *)
  lot_remaining : Z;           (* NUMERIC(18,6), in millionths *)
  lot_expires_at : option Z;
  lot_created_at : Z;
  lot_created_by : string;
}.

Record txn : Type := Txn {
  txn_id : string;
  txn_tenant : string;
  txn_kind : string;
  txn_key : string;
  txn_usage_event_id : option string;
  txn_cost_usd : option decimal;
  txn_credits_per_usd : option decimal;
  txn_markup : option decimal;
  txn_reason : option string;
  txn_actor : string;
  txn_created_at : Z;
  txn_request : option (gmap string (option string));  (* JSONB; None before the column existed *)
}.

Record entry : Type := Entry {
  en_txn : string;
  en_tenant : string;
  en_lot : string;
  en_amount : Z;
  en_created_at : Z;
}.

Record customer : Type := Customer {
  cu_tenant : string;
  cu_provider : string;
  cu_ref : string;
  cu_created_at : Z;
}.

Record product : Type := Product {
  pr_provider : string;
  pr_ref : string;
  pr_credits : decimal;        (* NUMERIC(18,6), which has a NaN *)
  pr_expires_after_days : option Z;
  pr_active : bool;
}.

(** A JSON value of the payloads the code stores. *)
Inductive json : Type := JNull | JText (s : string) | JInt (z : Z).

Definition json_text (s : option string) : json :=
  match s with None => JNull | Some s => JText s end.

Record inbox_row : Type := InboxRow {
  ib_provider : string;
  ib_event_id : string;
  ib_event_type : string;
  ib_received_at : Z;
  ib_updated_at : Z;
  ib_status : string;
  ib_attempts : Z;
  ib_tenant : option string;
  ib_payload : gmap string json;
  ib_error_class : option string;
}.

Record usage_row : Type := UsageRow {
  us_tenant : string;
  us_event_id : string;
  us_kind : string;
  us_occurred_at : Z;
  us_recorded_at : Z;
  us_cost_usd : option decimal;
  us_credits : option Z;
  us_credits_per_usd : option decimal;
  us_markup : option decimal;
  us_model : option string;
  us_tokens : option Z;
}.

Record outbox_row : Type := OutboxRow {
  ob_provider : string;
  ob_tenant : string;
  ob_event_id : string;
  ob_status : string;
  ob_attempts : Z;
  ob_next_attempt_at : Z;
  ob_last_error_class : option string;
  ob_created_at : Z;
  ob_sent_at : option Z;
}.

Record db : Type := Db {
  accounts : list account;
  lots : list lot;
  txns : list txn;
  entries : list entry;
  customers : list customer;
  products : list product;
  inbox : list inbox_row;
  usage_events : list usage_row;
  outbox : list outbox_row;
}.

Definition empty_db : db := Db [] [] [] [] [] [] [] [] [].

Definition set_accounts f d := Db (f (accounts d)) (lots d) (txns d) (entries d)
  (customers d) (products d) (inbox d) (usage_events d) (outbox d).
Definition set_lots f d := Db (accounts d) (f (lots d)) (txns d) (entries d)
  (customers d) (products d) (inbox d) (usage_events d) (outbox d).
Definition set_txns f d := Db (accounts d) (lots d) (f (txns d)) (entries d)
  (customers d) (products d) (inbox d) (usage_events d) (outbox d).
Definition set_entries f d := Db (accounts d) (lots d) (txns d) (f (entries d))
  (customers d) (products d) (inbox d) (usage_events d) (outbox d).
Definition set_customers f d := Db (accounts d) (lots d) (txns d) (entries d)
  (f (customers d)) (products d) (inbox d) (usage_events d) (outbox d).
Definition set_products f d := Db (accounts d) (lots d) (txns d) (entries d)
  (customers d) (f (products d)) (inbox d) (usage_events d) (outbox d).
Definition set_inbox f d := Db (accounts d) (lots d) (txns d) (entries d)
  (customers d) (products d) (f (inbox d)) (usage_events d) (outbox d).
Definition set_usage_events f d := Db (accounts d) (lots d) (txns d) (entries d)
  (customers d) (products d) (inbox d) (f (usage_events d)) (outbox d).
Definition set_outbox f d := Db (accounts d) (lots d) (txns d) (entries d)
  (customers d) (products d) (inbox d) (usage_events d) (f (outbox d)).

(** A NUMERIC(18,6) column holds at most twelve digits before the point. *)
Definition numeric18_6 (z : Z) : result exn Z :=
  if Z.abs z <? 10 ^ 18 then Ok z else Err NumericValueOutOfRange.

(** A NUMERIC(p,s) column rounds halves away from zero. *)
Definition numeric (p s : Z) (d : decimal) : result exn decimal :=
  match d with
  | NaN => Ok NaN
  | Inf _ => Err NumericValueOutOfRange
  | Fin sg c e =>
      let c' := rescale_half_up c e (- s) in
      if (c' <? pow10 p)%N then Ok (Fin sg c' (- s)) else Err NumericValueOutOfRange
  end.

Definition numeric_opt (p s : Z) (d : option decimal) : result exn (option decimal) :=
  match d with
  | None => Ok None
  | Some d => match numeric p s d with Ok d => Ok (Some d) | Err x => Err x end
  end.

(** [d > 0] in the database, where NaN is greater than every number. *)
Definition numeric_positive (d : decimal) : bool :=
  match d with
  | NaN => true
  | Inf s => negb s
  | Fin s c _ => negb s && negb (c =? 0)%N
  end.

(** An INTEGER column. *)
Definition int32 (z : Z) : result exn Z :=
  if (- 2 ^ 31 <=? z) && (z <? 2 ^ 31) then Ok z else Err NumericValueOutOfRange.

(** [CHECK], [UNIQUE] and [REFERENCES] constraints: a violated one raises. *)
Definition check (holds : bool) (x : exn) : result exn () :=
  if holds then Ok () else Err x.

(** ** Environment, world and coroutines *)

(** A failure of the database or of the way to it, by the class of the driver's exception. *)
Inductive fault : Type :=
| Lost (cls : string)       (* the statement did not take effect *)
| AckLost (cls : string).   (* a commit took effect and its answer was lost *)

Definition fault_class (f : fault) : string := match f with Lost c | AckLost c => c end.
Definition class_exn (cls : string) : exn :=
  if bool_decide (cls = "UndefinedTable"%string) then UndefinedTable else
  if bool_decide (cls = "UndefinedColumn"%string) then UndefinedColumn else OtherException cls.
Definition fault_exn (f : fault) : exn := class_exn (fault_class f).

Record env : Type := Env {
  e_uuid : nat → string;
  e_clock : nat → Z;             (* the database's clock *)
  e_utcnow : nat → Z;            (* the application host's clock *)
  e_fault : nat → option fault;
  e_now : Z;                     (* now() of the open transaction *)
}.

Definition with_now (n : Z) (e : env) : env :=
  Env (e_uuid e) (e_clock e) (e_utcnow e) (e_fault e) n.

Record world : Type := World {
  w_db : db;
  w_tick : nat;
  w_counts : list (string * string);   (* (counter, label), latest first *)
}.

Definition set_db (d : db) (w : world) : world := World d (w_tick w) (w_counts w).
Definition next_tick (w : world) : world := World (w_db w) (S (w_tick w)) (w_counts w).

Definition M (A : Type) : Type := env → world → result exn A * world.

#[export] Instance M_ret : MRet M := λ A a _ w, (Ok a, w).
#[export] Instance M_bind : MBind M := λ A B k m e w,
  match m e w with
  | (Ok a, w') => k a e w'
  | (Err x, w') => (Err x, w')
  end.

Definition raise {A} (x : exn) : M A := λ _ w, (Err x, w).

(** [if cond: raise ValueError(msg)] *)
Definition refuse_if (cond : bool) (x : exn) : M () :=
  if cond then raise x else mret ().

(** A pure computation that may raise. *)
Definition lift {A} (r : result exn A) : M A := λ _ w, (r, w).

Definition try_except {A} (m : M A) (h : exn → M A) : M A := λ e w,
  match m e w with
  | (Ok a, w') => (Ok a, w')
  | (Err x, w') => h x e w'
  end.

(** [metrics.<counter>.labels(<label>).inc()] *)
Definition count (counter label : string) : M () := λ _ w,
  (Ok (), World (w_db w) (w_tick w) ((counter, label) :: w_counts w)).

(** [datetime.now(UTC)] on the application host *)
Definition utcnow : M Z := λ e w, (Ok (e_utcnow e (w_tick w)), next_tick w).

(** One SQL statement: given [now()] and a fresh identifier it reads and changes
    the tables, or violates a constraint and changes nothing. *)
Definition stmt {A} (f : Z → string → db → result exn (A * db)) : M A := λ e w,
  match e_fault e (w_tick w) with
  | Some flt => (Err (fault_exn flt), next_tick w)
  | None =>
      match f (e_now e) (e_uuid e (w_tick w)) (w_db w) with
      | Ok (a, d) => (Ok a, set_db d (next_tick w))
      | Err x => (Err x, next_tick w)
      end
  end.

(** A statement that only reads. *)
Definition query {A} (f : Z → db → A) : M A := stmt (λ now _ d, Ok (f now d, d)).

(** [async with conn.transaction()] inside an open transaction: whatever the
    body raises, its writes are undone. *)
Definition savepoint {A} (m : M A) : M A := λ e w,
  match e_fault e (w_tick w) with
  | Some flt => (Err (fault_exn flt), next_tick w)
  | None =>
      match m e (next_tick w) with
      | (Ok a, w') =>
          match e_fault e (w_tick w') with
          | Some flt => (Err (fault_exn flt), set_db (w_db w) (next_tick w'))
          | None => (Ok a, next_tick w')
          end
      | (Err x, w') => (Err x, set_db (w_db w) w')
      end
  end.

(** [async with get_connection() as conn]: one transaction. *)
Definition transaction {A} (m : M A) : M A := λ e w,
  match e_fault e (w_tick w) with
  | Some flt => (Err (fault_exn flt), next_tick w)
  | None =>
      match m (with_now (e_clock e (w_tick w)) e) (next_tick w) with
      | (Ok a, w') =>
          match e_fault e (w_tick w') with
          | Some (Lost c) => (Err (class_exn c), set_db (w_db w) (next_tick w'))
          | Some (AckLost c) => (Err (class_exn c), next_tick w')
          | None => (Ok a, next_tick w')
          end
      | (Err x, w') => (Err x, set_db (w_db w) w')
      end
  end.

(** [for x in xs: await f(x)] *)
Fixpoint for_each {A} (xs : list A) (f : A → M ()) : M () :=
  match xs with
  | [] => mret ()
  | x :: xs => f x ;; for_each xs f
  end.

(** ** The postcondition logic *)

(** [triple e P m Q E]: started from tables satisfying [P], [m] returns with
    tables satisfying [Q], or raises with tables satisfying [E]. *)
Definition triple {A} (e : env) (P : db → Prop) (m : M A)
    (Q : A → db → Prop) (E : exn → db → Prop) : Prop :=
  ∀ w, P (w_db w) →
    match m e w with
    | (Ok a, w') => Q a (w_db w')
    | (Err x, w') => E x (w_db w')
    end.

(** The exceptions a failure of the environment raises. *)
Definition faulty (e : env) (x : exn) : Prop := ∃ n f, e_fault e n = Some f ∧ x = fault_exn f.

Lemma faulty_with_now n e x : faulty (with_now n e) x ↔ faulty e x.
Proof. done. Qed.

Section triple.
Context (e : env).

Lemma triple_conseq {A} (P P' : db → Prop) (m : M A) (Q Q' : A → db → Prop) (E E' : exn → db → Prop) :
  triple e P' m Q' E' →
  (∀ d, P d → P' d) → (∀ a d, Q' a d → Q a d) → (∀ x d, E' x d → E x d) →
  triple e P m Q E.
Proof.
  intros H HP HQ HE w Hw. specialize (H w (HP _ Hw)).
  destruct (m e w) as [[a|x] w']; auto.
Qed.

(** Case split on the tables before the call. *)
Lemma triple_pure {A} (P : db → Prop) (m : M A) Q E :
  (∀ d, P d → triple e (eq d) m Q E) → triple e P m Q E.
Proof. intros H w Hw. by apply (H (w_db w)). Qed.

Lemma triple_ret {A} (P : db → Prop) (a : A) (Q : A → db → Prop) E :
  (∀ d, P d → Q a d) → triple e P (mret a) Q E.
Proof. intros H w Hw. by apply H. Qed.

Lemma triple_raise {A} (P : db → Prop) x (Q : A → db → Prop) (E : exn → db → Prop) :
  (∀ d, P d → E x d) → triple e P (raise x) Q E.
Proof. intros H w Hw. by apply H. Qed.

Lemma triple_refuse_if (P : db → Prop) b x (Q : () → db → Prop) (E : exn → db → Prop) :
  (∀ d, P d → b = true → E x d) → (∀ d, P d → b = false → Q () d) →
  triple e P (refuse_if b x) Q E.
Proof. intros H1 H2 w Hw. unfold refuse_if. destruct b; [by apply H1|by apply H2]. Qed.

Lemma triple_lift {A} (P : db → Prop) (r : result exn A) Q (E : exn → db → Prop) :
  (∀ d, P d → match r with Ok a => Q a d | Err x => E x d end) →
  triple e P (lift r) Q E.
Proof. intros H w Hw. unfold lift. specialize (H _ Hw). by destruct r. Qed.

Lemma triple_bind {A B} (P : db → Prop) (m : M A) (k : A → M B) R Q E :
  triple e P m R E → (∀ a, triple e (R a) (k a) Q E) → triple e P (m ≫= k) Q E.
Proof.
  intros Hm Hk w Hw. specialize (Hm w Hw). unfold mbind, M_bind.
  destruct (m e w) as [[a|x] w']; [by apply Hk|done].
Qed.

Lemma triple_bind_assoc {A B C} (P : db → Prop) (m : M A) (f : A → M B) (g : B → M C) Q E :
  triple e P ((m ≫= f) ≫= g) Q E → triple e P (m ≫= λ x, f x ≫= g) Q E.
Proof.
  intros H w Hw. specialize (H w Hw). unfold mbind, M_bind in *.
  by destruct (m e w) as [[a|x] w'].
Qed.

Lemma triple_count (P : db → Prop) c l (Q : () → db → Prop) E :
  (∀ d, P d → Q () d) → triple e P (count c l) Q E.
Proof. intros H w Hw. by apply H. Qed.

Lemma triple_utcnow (P : db → Prop) (Q : Z → db → Prop) E :
  (∀ t d, P d → Q t d) → triple e P utcnow Q E.
Proof. intros H w Hw. by apply H. Qed.

Lemma triple_stmt {A} (P : db → Prop) f (Q : A → db → Prop) (E : exn → db → Prop) :
  (∀ d x, P d → faulty e x → E x d) →
  (∀ d u, P d → match f (e_now e) u d with Ok (a, d') => Q a d' | Err x => E x d end) →
  triple e P (stmt f) Q E.
Proof.
  intros HE HQ w Hw. unfold stmt. destruct (e_fault e (w_tick w)) eqn:Hf.
  { apply HE; [done|]. unfold faulty. eauto. }
  specialize (HQ (w_db w) (e_uuid e (w_tick w)) Hw).
  by destruct (f _ _ _) as [[a d]|x].
Qed.

Lemma triple_query {A} (P : db → Prop) (f : Z → db → A) (Q : A → db → Prop)
    (E : exn → db → Prop) :
  (∀ d x, P d → faulty e x → E x d) → (∀ d, P d → Q (f (e_now e) d) d) →
  triple e P (query f) Q E.
Proof. intros HE HQ. apply triple_stmt; auto. Qed.

Lemma triple_try {A} (P : db → Prop) (m : M A) h Q E' E :
  triple e P m Q E' → (∀ x, triple e (E' x) (h x) Q E) →
  triple e P (try_except m h) Q E.
Proof.
  intros Hm Hh w Hw. specialize (Hm w Hw). unfold try_except.
  destruct (m e w) as [[a|x] w']; [done|by apply Hh].
Qed.

(** A savepoint undoes the writes of a body that raises. *)
Lemma triple_savepoint {A} (P : db → Prop) (m : M A) Q E' (E : exn → db → Prop) :
  triple e P m Q E' → (∀ d x, P d → faulty e x → E x d) →
  (∀ d d' x, P d → E' x d' → E x d) → triple e P (savepoint m) Q E.
Proof.
  intros Hm HF HE w Hw. unfold savepoint.
  destruct (e_fault e (w_tick w)) eqn:Hf; [apply HF; [done|]; unfold faulty; eauto|].
  specialize (Hm (next_tick w) Hw).
  destruct (m e (next_tick w)) as [[a|x] w']; [|by eapply HE].
  destruct (e_fault e (w_tick w')) eqn:Hf'; [apply HF; [done|]; unfold faulty; eauto|done].
Qed.

Lemma triple_for_each {A} (P : db → Prop) (xs : list A) f (E : exn → db → Prop) :
  (∀ x, x ∈ xs → triple e P (f x) (λ _, P) E) →
  triple e P (for_each xs f) (λ _, P) E.
Proof.
  induction xs as [|x xs IH]; intros H; simpl.
  { by apply triple_ret. }
  eapply triple_bind; [apply H; left|]. intros []. apply IH. intros y Hy. apply H. by right.
Qed.

(** Whatever holds of the result besides: two triples of one coroutine. *)
Lemma triple_and {A} (P P' : db → Prop) (m : M A) (Q Q' : A → db → Prop) (E E' : exn → db → Prop) :
  triple e P m Q E → triple e P' m Q' E' →
  triple e (λ d, P d ∧ P' d) m (λ a d, Q a d ∧ Q' a d) (λ x d, E x d ∧ E' x d).
Proof.
  intros H H' w [Hw Hw']. specialize (H w Hw). specialize (H' w Hw').
  destruct (m e w) as [[a|x] w']; auto.
Qed.
End triple.

(** A whole transaction: it either takes effect or leaves the tables as they
    were; an exception says which only when the commit's answer arrived. *)
Lemma triple_transaction {A} e (P : db → Prop) (m : M A) Q E' (E : exn → db → Prop) :
  (∀ n, triple (with_now (e_clock e n) e) P m Q E') →
  (∀ d x, P d → faulty e x → E x d) → (∀ d d' x, P d → E' x d' → E x d) →
  (∀ a d x, Q a d → faulty e x → E x d) →
  triple e P (transaction m) Q E.
Proof.
  intros Hm HF HE HQ w Hw. unfold transaction.
  destruct (e_fault e (w_tick w)) eqn:Hf; [apply HF; [done|]; unfold faulty; eauto|].
  specialize (Hm (w_tick w) (next_tick w) Hw).
  destruct (m _ (next_tick w)) as [[a|x] w']; [|by eapply HE].
  destruct (e_fault e (w_tick w')) as [[x|x]|] eqn:Hf'; [| |done].
  - apply HF; [done|]. exists (w_tick w'), (Lost x). done.
  - eapply HQ; [done|]. exists (w_tick w'), (AckLost x). done.
Qed.

(** [preserves I m]: [m] keeps [I] however it ends. *)
Definition preserves {A} (I : db → Prop) (m : M A) : Prop :=
  ∀ e, triple e I m (λ _, I) (λ _, I).

Section preserves.
Context (I : db → Prop).

Lemma preserves_ret {A} (a : A) : preserves I (mret a).
Proof. intros e. by apply triple_ret. Qed.

Lemma preserves_raise {A} x : preserves I (raise (A:=A) x).
Proof. intros e. by apply triple_raise. Qed.

Lemma preserves_refuse_if b x : preserves I (refuse_if b x).
Proof. intros e. by apply triple_refuse_if. Qed.

Lemma preserves_lift {A} (r : result exn A) : preserves I (lift r).
Proof. intros e. apply triple_lift. by destruct r. Qed.

Lemma preserves_bind {A B} (m : M A) (k : A → M B) :
  preserves I m → (∀ a, preserves I (k a)) → preserves I (m ≫= k).
Proof. intros Hm Hk e. eapply triple_bind; [apply Hm|intros a; apply Hk]. Qed.

Lemma preserves_count c l : preserves I (count c l).
Proof. intros e. by apply triple_count. Qed.

Lemma preserves_utcnow : preserves I utcnow.
Proof. intros e. by apply triple_utcnow. Qed.

Lemma preserves_query {A} (f : Z → db → A) : preserves I (query f).
Proof. intros e. by apply triple_query. Qed.

Lemma preserves_stmt {A} (f : Z → string → db → result exn (A * db)) :
  (∀ now u d a d', I d → f now u d = Ok (a, d') → I d') → preserves I (stmt f).
Proof.
  intros H e. apply triple_stmt; [done|]. intros d u Hd.
  destruct (f _ _ _) as [[a d']|] eqn:Hf; [by eapply H|done].
Qed.

Lemma preserves_try {A} (m : M A) h :
  preserves I m → (∀ x, preserves I (h x)) → preserves I (try_except m h).
Proof. intros Hm Hh e. eapply triple_try; [apply Hm|intros x; apply Hh]. Qed.

Lemma preserves_savepoint {A} (m : M A) : preserves I m → preserves I (savepoint m).
Proof. intros Hm e. eapply triple_savepoint; [apply Hm|done..]. Qed.

Lemma preserves_transaction {A} (m : M A) : preserves I m → preserves I (transaction m).
Proof. intros Hm e. eapply triple_transaction; [intros; apply Hm|done..]. Qed.

Lemma preserves_for_each {A} (xs : list A) f :
  (∀ x, preserves I (f x)) → preserves I (for_each xs f).
Proof. intros H e. apply triple_for_each. intros x _. apply H. Qed.
End preserves.

#[export] Hint Resolve preserves_ret preserves_raise preserves_refuse_if preserves_lift
  preserves_bind preserves_count preserves_utcnow preserves_query preserves_try
  preserves_savepoint preserves_transaction preserves_for_each : inv.

(** [pres] walks a coroutine's body; statements are left to the [inv] hints. *)
Ltac pres :=
  repeat first
    [ progress intros
    | solve [auto with inv nocore]
    | apply preserves_bind
    | apply preserves_try
    | apply preserves_savepoint
    | apply preserves_transaction
    | apply preserves_for_each
    | match goal with
      | |- preserves _ (match ?x with _ => _ end) => destruct x
      end ].
