(* ===== verification/Wallet.v ===== *)
(** The credit wallet: [packages/billing/src/credit_billing/credits.py].

    Grants, debits and expiries as an append-only ledger of entries over lots,
    with the idempotency key of every transaction. Each SQL statement of the
    source is one [stmt] here, with the constraints of the tables it writes
    ([sql/20-credit-wallet.sql], [sql/22-billing.sql]); each function is one
    definition, its guards in the source's order. *)
From S2P Require Import Prelude Decimals Calendar Db.

Local Open Scope string_scope.
Local Open Scope list_scope.
Local Open Scope Z_scope.
Local Open Scope py_scope.

(** ** Constants and data *)

Definition GRANT_SOURCES : list string :=
  ["purchase"; "subscription"; "promo"; "manual"; "adjustment"].
Definition EXPIRY_REQUIRED : list string := ["promo"; "subscription"].
Definition LOT_SOURCES : list string := GRANT_SOURCES ++ ["overdraft"].
Definition TXN_KINDS : list string := ["grant"; "debit"; "expire"; "adjust"; "clawback"].

Inductive status : Type := Sapplied | Sduplicate | Sno_account | Snothing.
#[export] Instance status_eq_dec : EqDecision status.
Proof. solve_decision. Defined.

Record pricing : Type := Pricing {
  p_cost_usd : decimal;
  p_credits_per_usd : decimal;
  p_markup : decimal;
}.

Record applied : Type := Applied {
  ap_status : status;
  ap_transaction_id : option string;
  ap_amount : Z;
  ap_shortfall : Z;
}.

Record balance : Type := Balance { available : Z; ledger : Z; debt : Z }.

Definition amount_exn (x : amount_error) : exn :=
  match x with
  | NotFinite => ValueError "credits must be a finite number"
  | BadCost => ValueError "a cost must be a finite, non-negative number"
  | Signal s => DecimalSignal s
  end.

(** ** Allocation *)

Fixpoint plan_go (lots : list (string * Z)) (rest : Z) : list (string * Z) * Z :=
  match lots with
  | [] => ([], rest)
  | (lot_id, remaining) :: lots =>
      if rest <=? 0 then ([], rest) else
      if remaining <=? 0 then plan_go lots rest else
      let take := Z.min remaining rest in
      let '(takes, rest) := plan_go lots (rest - take) in ((lot_id, take) :: takes, rest)
  end.

Definition plan_allocation (lots : list (string * Z)) (need : Z) : list (string * Z) * Z :=
  let '(takes, rest) := plan_go lots need in (takes, Z.max rest 0).

(** ** What a key stands for *)

Definition GRANT_FIELDS : list string :=
  ["amount"; "source"; "provider"; "external_ref"; "expires_at"; "reason"; "actor"].
Definition DEBIT_FIELDS : list string :=
  ["amount"; "usage_event_id"; "cost_usd"; "credits_per_usd"; "markup"; "reason"; "actor"].
Definition EXPIRE_FIELDS : list string := ["lot_id"].

(** A request as stored: a JSON object of texts and nulls. *)
Abbreviation request := (gmap string (option string)).

Definition _decimal (value : option decimal) : result exn (option string) :=
  match value with
  | None => Ok None
  | Some d =>
      match normalize d with
      | Ok d => Ok (Some (format_f d))
      | Err s => Err (DecimalSignal s)
      end
  end.

Definition _instant (value : option datetime) : option string :=
  (λ t, isoformat (dt_us t)) <$> value.

Definition _grant_request (credits : Z) (source : string)
    (provider external_ref : option string) (expires_at : option datetime)
    (reason : option string) (actor : string) : request :=
  list_to_map
    [("kind", Some "grant"); ("amount", Some (format_f (of_micro credits)));
     ("source", Some source); ("provider", provider); ("external_ref", external_ref);
     ("expires_at", _instant expires_at); ("reason", reason); ("actor", Some actor)].

Definition _debit_request (kind : string) (credits : Z) (usage_event_id : option string)
    (pr : option pricing) (reason : option string) (actor : string) : result exn request :=
  let! cost_usd := _decimal (p_cost_usd <$> pr) in
  let! credits_per_usd := _decimal (p_credits_per_usd <$> pr) in
  let! markup := _decimal (p_markup <$> pr) in
  Ok (list_to_map
    [("kind", Some kind); ("amount", Some (format_f (of_micro credits)));
     ("usage_event_id", usage_event_id); ("cost_usd", cost_usd);
     ("credits_per_usd", credits_per_usd); ("markup", markup);
     ("reason", reason); ("actor", Some actor)]).

Definition _compared (compare : option (list string)) (vocabulary : list string) :
    result exn (list string) :=
  match compare with
  | None => Ok ("kind" :: vocabulary)
  | Some names =>
      let unknown := filter (λ n, (n ∉ vocabulary) ∧ n ≠ "kind") names in
      if bool_decide (unknown ≠ []) then Err (ValueError "cannot compare unknown fields")
      else Ok ("kind" :: filter (λ f, f ∈ names) vocabulary)
  end.

(** The compared fields on which two requests differ, with both values. *)
Definition _differences (stored new : request) (fields : list string) :
    list (string * (option string * option string)) :=
  omap (λ field,
    match stored !! field with
    | None => None
    | Some first =>
        let now := default None (new !! field) in
        if bool_decide (first = now) then None else Some (field, (first, now))
    end) fields.

(** ** The statements *)

(** [cur.fetchone()] of a statement certain to return a row. *)
Definition _one {A} (row : option A) : result exn A :=
  match row with
  | Some a => Ok a
  | None => Err (RuntimeError "the statement was expected to return a row and returned none")
  end.

(** [SELECT pg_advisory_xact_lock(...)]: it only waits, for the tenant's other writers. *)
Definition _lock (tenant : string) : M () := query (λ _ _, ()).

Definition insert_account (tenant actor : string) : M () :=
  stmt (λ now _ d,
    let! _ := check (negb (falsy tenant)) (CheckViolation "credit_accounts_tenant_check") in
    Ok ((), if bool_decide (Exists (λ a, acc_tenant a = tenant) (accounts d)) then d
            else set_accounts (λ l, l ++ [Account tenant now actor]) d)).

Definition has_account (tenant : string) : M bool :=
  query (λ _ d, bool_decide (Exists (λ a, acc_tenant a = tenant) (accounts d))).

(** [INSERT INTO credit_transactions ... ON CONFLICT (tenant, idempotency_key) DO NOTHING
    RETURNING id] *)
Definition insert_txn_row (tenant kind key : string) (usage_event_id : option string)
    (pr : option pricing) (reason : option string) (actor : string) (req : request)
    (now : Z) (uuid : string) (d : db) : result exn (option string * db) :=
  let! cost_usd := numeric_opt 18 12 (p_cost_usd <$> pr) in
  let! credits_per_usd := numeric_opt 18 6 (p_credits_per_usd <$> pr) in
  let! markup := numeric_opt 18 6 (p_markup <$> pr) in
  let! _ := check (bool_decide (kind ∈ TXN_KINDS)) (CheckViolation "credit_transactions_kind_check") in
  let! _ := check (negb (falsy key)) (CheckViolation "credit_transactions_idempotency_key_check") in
  if bool_decide (Exists (λ t, txn_tenant t = tenant ∧ txn_key t = key) (txns d)) then Ok (None, d) else
  let! _ := check (bool_decide (Forall (λ t, txn_id t ≠ uuid) (txns d)))
              (UniqueViolation "credit_transactions_pkey") in
  let! _ := check (bool_decide (Exists (λ a, acc_tenant a = tenant) (accounts d)))
              (ForeignKeyViolation "credit_transactions_tenant_fkey") in
  Ok (Some uuid,
      set_txns (λ l, l ++ [Txn uuid tenant kind key usage_event_id cost_usd credits_per_usd
                             markup reason actor now (Some req)]) d).

Definition insert_txn (tenant kind key : string) (usage_event_id : option string)
    (pr : option pricing) (reason : option string) (actor : string) (req : request) :
    M (option string) :=
  stmt (insert_txn_row tenant kind key usage_event_id pr reason actor req).

Definition select_txn (tenant key : string) : M (option (string * option request)) :=
  query (λ _ d, (λ t, (txn_id t, txn_request t)) <$>
    head (filter (λ t, txn_tenant t = tenant ∧ txn_key t = key) (txns d))).

Definition insert_entry (tenant transaction_id lot_id' : string) (amount : Z) : M () :=
  stmt (λ now _ d,
    let! _ := numeric18_6 amount in
    let! _ := check (negb (amount =? 0)) (CheckViolation "credit_entries_amount_check") in
    let! _ := check (bool_decide (Exists (λ t, txn_id t = transaction_id ∧ txn_tenant t = tenant) (txns d)))
                (ForeignKeyViolation "credit_entries_transaction_id_tenant_fkey") in
    let! _ := check (bool_decide (Exists (λ l, lot_id l = lot_id' ∧ lot_tenant l = tenant) (lots d)))
                (ForeignKeyViolation "credit_entries_lot_id_tenant_fkey") in
    Ok ((), set_entries (λ l, l ++ [Entry transaction_id tenant lot_id' amount now]) d)).

(** The CHECK constraints of a row of [credit_lots]. *)
Definition lot_ok (l : lot) : Prop :=
  lot_source l ∈ LOT_SOURCES ∧ 0 ≤ lot_granted l ∧
  (lot_source l = "overdraft" ∨ 0 ≤ lot_remaining l) ∧
  lot_remaining l ≤ lot_granted l ∧
  (lot_source l ≠ "overdraft" ∨ lot_granted l = 0 ∧ lot_expires_at l = None).
#[export] Instance lot_ok_dec l : Decision (lot_ok l).
Proof. unfold lot_ok. apply _. Defined.

(** [UPDATE credit_lots SET remaining = remaining + amount WHERE id = ... AND tenant = ...] *)
Definition add_remaining (amount : Z) (l : lot) : lot :=
  Lot (lot_id l) (lot_tenant l) (lot_source l) (lot_provider l) (lot_external_ref l)
    (lot_granted l) (lot_remaining l + amount) (lot_expires_at l) (lot_created_at l)
    (lot_created_by l).

(** Both amounts fit their columns. *)
Definition lot_in_range (l : lot) : Prop :=
  Z.abs (lot_granted l) < 10 ^ 18 ∧ Z.abs (lot_remaining l) < 10 ^ 18.
#[export] Instance lot_in_range_dec l : Decision (lot_in_range l).
Proof. unfold lot_in_range. apply _. Defined.

Definition update_remaining (tenant lot_id' : string) (amount : Z) : M () :=
  stmt (λ _ _ d,
    let d' := set_lots (update_where (λ l, lot_id l = lot_id' ∧ lot_tenant l = tenant)
                          (add_remaining amount)) d in
    let! _ := check (bool_decide (Forall lot_in_range (lots d'))) NumericValueOutOfRange in
    let! _ := check (bool_decide (Forall lot_ok (lots d'))) (CheckViolation "credit_lots_check") in
    Ok ((), d')).

Definition _move (tenant transaction_id lot_id : string) (amount : Z) : M () :=
  insert_entry tenant transaction_id lot_id amount ;;
  update_remaining tenant lot_id amount.

(** A new row of [credit_lots], against its CHECK, UNIQUE and REFERENCES constraints. *)
Definition is_payment_grant (l : lot) : Prop :=
  lot_source l ∈ ["purchase"; "subscription"] ∧ lot_external_ref l ≠ None.
#[export] Instance is_payment_grant_dec l : Decision (is_payment_grant l).
Proof. unfold is_payment_grant. apply _. Defined.

(** The row conflicts with a row of the partial unique index on payments: two
    NULL providers do not conflict. *)
Definition same_payment (l k : lot) : Prop :=
  is_payment_grant l ∧ is_payment_grant k ∧ lot_tenant l = lot_tenant k ∧
  lot_provider l = lot_provider k ∧ lot_provider l ≠ None ∧
  lot_external_ref l = lot_external_ref k.
#[export] Instance same_payment_dec l k : Decision (same_payment l k).
Proof. unfold same_payment. apply _. Defined.

Definition insert_lot_row (l : lot) (d : db) : result exn db :=
  let! _ := check (bool_decide (lot_in_range l)) NumericValueOutOfRange in
  let! _ := check (bool_decide (lot_ok l)) (CheckViolation "credit_lots_check") in
  let! _ := check (bool_decide (Forall (λ k, lot_id k ≠ lot_id l) (lots d)))
              (UniqueViolation "credit_lots_pkey") in
  let! _ := check (bool_decide (Forall (λ k, ¬ (lot_source l = "overdraft" ∧
                lot_source k = "overdraft" ∧ lot_tenant k = lot_tenant l)) (lots d)))
              (UniqueViolation "credit_lots_one_overdraft_idx") in
  let! _ := check (bool_decide (Forall (λ k, ¬ same_payment l k) (lots d)))
              (UniqueViolation "credit_lots_one_grant_per_payment_idx") in
  let! _ := check (bool_decide (Exists (λ a, acc_tenant a = lot_tenant l) (accounts d)))
              (ForeignKeyViolation "credit_lots_tenant_fkey") in
  Ok (set_lots (λ ls, ls ++ [l]) d).

Definition insert_lot (tenant source : string) (provider external_ref : option string)
    (granted : Z) (expires_at : option datetime) (actor : string) : M string :=
  stmt (λ now uuid d,
    let! d' := insert_lot_row
      (Lot uuid tenant source provider external_ref granted 0 (dt_us <$> expires_at) now actor) d in
    Ok (uuid, d')).

Definition is_overdraft_of (tenant : string) (l : lot) : Prop :=
  lot_tenant l = tenant ∧ lot_source l = "overdraft".
#[export] Instance is_overdraft_of_dec t l : Decision (is_overdraft_of t l).
Proof. unfold is_overdraft_of. apply _. Defined.

(** [INSERT ... 'overdraft' ... ON CONFLICT (tenant) WHERE source = 'overdraft' DO NOTHING] *)
Definition insert_overdraft (tenant : string) : M () :=
  stmt (λ now uuid d,
    if bool_decide (Exists (is_overdraft_of tenant) (lots d)) then Ok ((), d) else
    let! d' := insert_lot_row (Lot uuid tenant "overdraft" None None 0 0 None now "system") d in
    Ok ((), d')).

Definition select_overdraft (tenant : string) : M (option (string * Z)) :=
  query (λ _ d, (λ l, (lot_id l, lot_remaining l)) <$> head (filter (is_overdraft_of tenant) (lots d))).

Definition _overdraft_lot (tenant : string) (create : bool) : M (option (string * Z)) :=
  (if create then insert_overdraft tenant else mret ()) ;;
  select_overdraft tenant.

(** ** Consumption order: [ORDER BY expires_at NULLS LAST, created_at, id] *)

Definition live (tenant : string) (now : Z) (l : lot) : Prop :=
  lot_tenant l = tenant ∧ lot_source l ≠ "overdraft" ∧ 0 < lot_remaining l ∧
  match lot_expires_at l with None => True | Some t => now < t end.
#[export] Instance live_dec t n l : Decision (live t n l).
Proof. unfold live. destruct (lot_expires_at l); apply _. Defined.

Definition consumed_before (l k : lot) : Prop :=
  match lot_expires_at l, lot_expires_at k with
  | Some _, None => True
  | None, Some _ => False
  | None, None =>
      lot_created_at l < lot_created_at k ∨
      lot_created_at l = lot_created_at k ∧ str_le (lot_id l) (lot_id k)
  | Some a, Some b =>
      a < b ∨ a = b ∧ (lot_created_at l < lot_created_at k ∨
        lot_created_at l = lot_created_at k ∧ str_le (lot_id l) (lot_id k))
  end.
#[export] Instance consumed_before_dec l k : Decision (consumed_before l k).
Proof. unfold consumed_before. destruct (lot_expires_at l), (lot_expires_at k); apply _. Defined.

Definition live_lots (tenant : string) (now : Z) (d : db) : list lot :=
  merge_sort consumed_before (filter (live tenant now) (lots d)).

Definition select_live (tenant : string) : M (list (string * Z)) :=
  query (λ now d, (λ l, (lot_id l, lot_remaining l)) <$> live_lots tenant now d).

(** ** The operations *)

Definition _begin_transaction (tenant kind key : string) (actor : string)
    (reason : option string) (req : request) (fields : list string)
    (usage_event_id : option string) (pr : option pricing) :
    M (option string * option string) :=
  row ← insert_txn tenant kind key usage_event_id pr reason actor req;
  match row with
  | Some id => mret (Some id, None)
  | None =>
      row ← select_txn tenant key;
      '(existing, stored) ← lift (_one row);
      match stored with
      | None => mret (None, Some existing)
      | Some stored =>
          let differences := _differences stored req fields in
          if bool_decide (differences = []) then mret (None, Some existing)
          else raise (IdempotencyConflict key tenant differences)
      end
  end.

Definition duplicate_of (existing : option string) : applied := Applied Sduplicate existing 0 0.

Definition grant_in (tenant : string) (amount : decimal) (source idempotency_key actor : string)
    (reason : option string) (expires_at : option datetime)
    (provider external_ref : option string) (compare : option (list string)) : M applied :=
  fields ← lift (_compared compare GRANT_FIELDS);
  credits ← lift (rmap_err amount_exn (credits_amount amount));
  refuse_if (falsy tenant) (ValueError "a grant needs a tenant") ;;
  refuse_if (credits <=? 0) (ValueError "a grant must be above zero") ;;
  refuse_if (bool_decide (source ∉ GRANT_SOURCES)) (ValueError "unknown grant source") ;;
  refuse_if (falsy idempotency_key || falsy actor)
    (ValueError "a grant needs an idempotency key and an actor (who did this)") ;;
  refuse_if (bool_decide (expires_at = None ∧ source ∈ EXPIRY_REQUIRED))
    (ValueError "credits of this source must expire: pass expires_at") ;;
  match expires_at with
  | None => mret ()
  | Some t =>
      let bad := ValueError "expires_at must be a timezone-aware time in the future" in
      refuse_if (negb (dt_aware t)) bad ;;
      now ← utcnow;
      refuse_if (dt_us t <=? now) bad
  end ;;
  _lock tenant ;;
  insert_account tenant actor ;;
  '(transaction_id, existing) ← _begin_transaction tenant "grant" idempotency_key actor reason
    (_grant_request credits source provider external_ref expires_at reason actor) fields None None;
  match transaction_id with
  | None => mret (duplicate_of existing)
  | Some transaction_id =>
      lot_id ← insert_lot tenant source provider external_ref credits expires_at actor;
      _move tenant transaction_id lot_id credits ;;
      overdraft ← _overdraft_lot tenant false;
      match overdraft with
      | Some (debt_lot, owed) =>
          if owed <? 0 then
            let repay := Z.min credits (- owed) in
            _move tenant transaction_id debt_lot repay ;;
            _move tenant transaction_id lot_id (- repay)
          else mret ()
      | None => mret ()
      end ;;
      count "agent_credit_granted_total" source ;;
      mret (Applied Sapplied (Some transaction_id) credits 0)
  end.

Definition debit_in (tenant : string) (amount : decimal) (idempotency_key : string)
    (usage_event_id : option string) (actor : string) (reason : option string) (kind : string)
    (pr : option pricing) (compare : option (list string)) : M applied :=
  fields ← lift (_compared compare DEBIT_FIELDS);
  credits ← lift (rmap_err amount_exn (credits_amount amount));
  refuse_if (credits <? 0) (ValueError "a debit cannot be negative") ;;
  refuse_if (falsy tenant || falsy idempotency_key)
    (ValueError "a debit needs a tenant and an idempotency key") ;;
  if credits =? 0 then mret (Applied Snothing None 0 0) else
  on_credit ← has_account tenant;
  if negb on_credit then mret (Applied Sno_account None 0 0) else
  _lock tenant ;;
  req ← lift (_debit_request kind credits usage_event_id pr reason actor);
  '(transaction_id, existing) ← _begin_transaction tenant kind idempotency_key actor reason
    req fields usage_event_id pr;
  match transaction_id with
  | None => mret (duplicate_of existing)
  | Some transaction_id =>
      lots ← select_live tenant;
      let '(takes, shortfall) := plan_allocation lots credits in
      for_each takes (λ '(lot_id, take), _move tenant transaction_id lot_id (- take)) ;;
      (if 0 <? shortfall then
         overdraft ← _overdraft_lot tenant true;
         match overdraft with
         | None => raise AssertionError
         | Some (debt_lot, _) =>
             _move tenant transaction_id debt_lot (- shortfall) ;;
             if bool_decide (kind = "debit") then count "agent_credit_overdraft_total" "" else mret ()
         end
       else mret ()) ;;
      count "agent_credit_debited_total" kind ;;
      mret (Applied Sapplied (Some transaction_id) credits shortfall)
  end.

Definition clawback_in (tenant : string) (amount : decimal) (idempotency_key actor : string)
    (reason : option string) (compare : option (list string)) : M applied :=
  debit_in tenant amount idempotency_key None actor reason "clawback" None compare.

Definition adjust_in (tenant : string) (amount : decimal) (idempotency_key actor : string)
    (reason : string) (expires_at : option datetime) (compare : option (list string)) : M applied :=
  credits ← lift (rmap_err amount_exn (credits_amount amount));
  refuse_if (credits =? 0) (ValueError "an adjustment of zero changes nothing") ;;
  refuse_if (is_blank reason) (ValueError "an adjustment needs a reason: it is a correction made by hand") ;;
  if 0 <? credits then
    grant_in tenant (of_micro credits) "adjustment" idempotency_key actor (Some reason)
      expires_at None None compare
  else
    refuse_if (bool_decide (expires_at ≠ None))
      (ValueError "a negative adjustment takes credits back; an expiry only applies to credits added") ;;
    debit_in tenant (of_micro (- credits)) idempotency_key None actor (Some reason) "adjust" None compare.

(** ** Expiry *)

(** Past its expiry and still holding credits. *)
Definition due (now : Z) (l : lot) : Prop :=
  lot_source l ≠ "overdraft" ∧ 0 < lot_remaining l ∧
  match lot_expires_at l with None => False | Some t => t ≤ now end.
#[export] Instance due_dec n l : Decision (due n l).
Proof. unfold due. destruct (lot_expires_at l); apply _. Defined.

Definition select_due_remaining (tenant lot_id' : string) : M (option Z) :=
  query (λ now d, lot_remaining <$>
    head (filter (λ l, lot_id l = lot_id' ∧ lot_tenant l = tenant ∧ due now l) (lots d))).

Definition _expire_request (lot_id : string) : request :=
  list_to_map [("kind", Some "expire"); ("lot_id", Some lot_id)].

Definition _expire_lot_in (tenant lot_id : string) : M bool :=
  _lock tenant ;;
  row ← select_due_remaining tenant lot_id;
  match row with
  | None => mret false
  | Some remaining =>
      '(transaction_id, _) ← _begin_transaction tenant "expire" ("expire:" +:+ lot_id) "system"
        (Some "lot reached its expiry") (_expire_request lot_id) ("kind" :: EXPIRE_FIELDS) None None;
      match transaction_id with
      | None => mret false
      | Some transaction_id => _move tenant transaction_id lot_id (- remaining) ;; mret true
      end
  end.

Definition expires_before (l k : lot) : Prop :=
  default 0 (lot_expires_at l) ≤ default 0 (lot_expires_at k).
#[export] Instance expires_before_dec l k : Decision (expires_before l k).
Proof. unfold expires_before. apply _. Defined.

(** [($tenant IS NULL OR tenant = $tenant)] *)
Definition for_tenant (tenant : option string) (l : lot) : Prop :=
  match tenant with None => True | Some t => lot_tenant l = t end.
#[export] Instance for_tenant_dec t l : Decision (for_tenant t l).
Proof. destruct t; simpl; apply _. Defined.

Definition select_due (limit : nat) (tenant : option string) : M (list (string * string)) :=
  query (λ now d, (λ l, (lot_id l, lot_tenant l)) <$>
    take limit (merge_sort expires_before
      (filter (λ l, due now l ∧ for_tenant tenant l) (lots d)))).

Fixpoint expire_all (due_lots : list (string * string)) (expired : Z) : M Z :=
  match due_lots with
  | [] => mret expired
  | (lot_id, tenant) :: due_lots =>
      done ← transaction (_expire_lot_in tenant lot_id);
      expire_all due_lots (expired + if (done : bool) then 1 else 0)
  end.

Definition expire_due (limit : nat) (tenant : option string) : M Z :=
  due_lots ← transaction (select_due limit tenant);
  expire_all due_lots 0.

(** ** Reading the wallet *)

Definition unexpired (now : Z) (l : lot) : Prop :=
  lot_source l ≠ "overdraft" ∧ match lot_expires_at l with None => True | Some t => now < t end.
#[export] Instance unexpired_dec n l : Decision (unexpired n l).
Proof. unfold unexpired. destruct (lot_expires_at l); apply _. Defined.

Definition lots_of (tenant : string) (d : db) : list lot :=
  filter (λ l, lot_tenant l = tenant) (lots d).

Definition on_credit_billing (tenant : string) (d : db) : bool :=
  bool_decide (Exists (λ a, acc_tenant a = tenant) (accounts d)).

(** The one statement of [_read_balance]: lots are joined to the account's row. *)
Definition balance_of (tenant : string) (now : Z) (d : db) : bool * balance :=
  let ls := if on_credit_billing tenant d then lots_of tenant d else [] in
  let live := sumZ lot_remaining (filter (unexpired now) ls) in
  let all := sumZ lot_remaining ls in
  let owed := - sumZ lot_remaining (filter (λ l, lot_source l = "overdraft") ls) in
  (on_credit_billing tenant d, Balance (live - owed) all owed).

Definition _read_balance (tenant : string) : M (bool * balance) := query (balance_of tenant).

Definition balance_in (tenant : string) : M balance := '(_, b) ← _read_balance tenant; mret b.

Definition account_balance_in (tenant : string) : M (option balance) :=
  '(has_account, b) ← _read_balance tenant;
  mret (if (has_account : bool) then Some b else None).

(** The entries of a lot sum to what [remaining] must cache. *)
Definition entries_sum (d : db) (id : string) : Z :=
  sumZ en_amount (filter (λ e, en_lot e = id) (entries d)).

(** Every lot whose [remaining] disagrees, as (lot, remaining, sum of its entries). *)
Definition drift (tenant : string) (d : db) : list (string * Z * Z) :=
  (λ l, (lot_id l, lot_remaining l, entries_sum d (lot_id l))) <$>
    filter (λ l, lot_remaining l ≠ entries_sum d (lot_id l)) (lots_of tenant d).

Definition verify_in (tenant : string) : M (list (string * Z * Z)) := query (λ _, drift tenant).

(** ** The plain functions open their own transaction *)

Definition grant tenant amount source key actor reason expires_at provider external_ref compare :=
  transaction (grant_in tenant amount source key actor reason expires_at provider external_ref compare).
Definition debit tenant amount key usage_event_id actor reason kind pr compare :=
  transaction (debit_in tenant amount key usage_event_id actor reason kind pr compare).
Definition adjust tenant amount key actor reason expires_at compare :=
  transaction (adjust_in tenant amount key actor reason expires_at compare).
Definition read_balance tenant := transaction (balance_in tenant).
Definition account_balance tenant := transaction (account_balance_in tenant).
Definition verify tenant := transaction (verify_in tenant).
