(* ===== verification/Webhooks.v ===== *)
(** Money in: [credit_billing/webhooks.py], [store.py], [inbox.py] and the event
    type of [providers/base.py].

    One provider event becomes a grant, a clawback or a visible refusal. The
    statements follow [sql/22-billing.sql], its trigger included. A row of
    [billing_webhook_events] is an [inbox_row]. *)
From S2P Require Import Prelude Decimals Calendar Db Wallet.

Local Open Scope string_scope.
Local Open Scope list_scope.
Local Open Scope Z_scope.
Local Open Scope py_scope.

(** ** Events and products ([providers/base.py]) *)

Inductive EventKind : Type :=
| CREDITS_PURCHASED | SUBSCRIPTION_PERIOD_STARTED | PAYMENT_REFUNDED
| PAYMENT_PARTIALLY_REFUNDED | DISPUTE_OPENED | DISPUTE_CLOSED | IGNORED.
#[export] Instance EventKind_eq_dec : EqDecision EventKind.
Proof. solve_decision. Defined.

Definition kind_value (k : EventKind) : string :=
  match k with
  | CREDITS_PURCHASED => "credits_purchased"
  | SUBSCRIPTION_PERIOD_STARTED => "subscription_period_started"
  | PAYMENT_REFUNDED => "payment_refunded"
  | PAYMENT_PARTIALLY_REFUNDED => "payment_partially_refunded"
  | DISPUTE_OPENED => "dispute_opened"
  | DISPUTE_CLOSED => "dispute_closed"
  | IGNORED => "ignored"
  end.

Record BillingEvent : Type := {
  ev_provider : string;
  ev_event_id : string;
  ev_kind : EventKind;
  ev_customer_ref : option string;
  ev_product_ref : option string;
  ev_payment_ref : option string;
  ev_amount_minor : option Z;
  ev_currency : option string;
  ev_occurred_at : option datetime;
  ev_raw_type : string;
}.

Definition stored (ev : BillingEvent) : gmap string json :=
  list_to_map
    [("provider", JText (ev_provider ev)); ("event_id", JText (ev_event_id ev));
     ("kind", JText (kind_value (ev_kind ev))); ("customer_ref", json_text (ev_customer_ref ev));
     ("product_ref", json_text (ev_product_ref ev)); ("payment_ref", json_text (ev_payment_ref ev));
     ("amount_minor", match ev_amount_minor ev with None => JNull | Some z => JInt z end);
     ("currency", json_text (ev_currency ev));
     ("occurred_at", json_text (isoformat_auto <$> ev_occurred_at ev));
     ("raw_type", JText (ev_raw_type ev))].

(** [CreditProduct], as the caller builds it. *)
Record CreditProduct : Type := {
  cp_provider : string;
  cp_product_ref : string;
  cp_credits : decimal;
  cp_expires_after_days : option Z;
  cp_active : bool;
}.

(** ** The tables money-in stands on ([store.py]) *)

Record GrantedLot : Type := { gl_lot_id : string; gl_granted : Z; gl_reclaimable : Z }.

Definition is_customer (provider customer_ref : string) (c : customer) : Prop :=
  cu_provider c = provider ∧ cu_ref c = customer_ref.
#[export] Instance is_customer_dec p r c : Decision (is_customer p r c).
Proof. unfold is_customer. apply _. Defined.

Definition tenant_for_customer (provider customer_ref : string) : M (option string) :=
  query (λ _ d, cu_tenant <$> head (filter (is_customer provider customer_ref) (customers d))).

(** The upsert only ever rewrites a link with itself. *)
Definition insert_customer (tenant provider customer_ref : string) : M () :=
  stmt (λ now _ d,
    let! _ := check (negb (falsy tenant)) (CheckViolation "billing_customers_tenant_check") in
    let! _ := check (negb (falsy provider)) (CheckViolation "billing_customers_provider_check") in
    let! _ := check (negb (falsy customer_ref)) (CheckViolation "billing_customers_customer_ref_check") in
    if bool_decide (Exists (is_customer provider customer_ref) (customers d)) then Ok ((), d) else
    let! _ := check (bool_decide (Forall (λ c, ¬ (cu_tenant c = tenant ∧ cu_provider c = provider)) (customers d)))
                (UniqueViolation "billing_customers_tenant_provider_key") in
    Ok ((), set_customers (λ l, l ++ [Customer tenant provider customer_ref now]) d)).

Definition link_customer (tenant provider customer_ref : string) : M () :=
  insert_customer tenant provider customer_ref ;;
  row ← tenant_for_customer provider customer_ref;
  refuse_if (bool_decide (row ≠ Some tenant))
    (ValueError "the customer is already linked to a different tenant").

Definition is_product (provider product_ref : string) (p : product) : Prop :=
  pr_provider p = provider ∧ pr_ref p = product_ref.
#[export] Instance is_product_dec p r x : Decision (is_product p r x).
Proof. unfold is_product. apply _. Defined.

Definition put_product (p : CreditProduct) : M () :=
  stmt (λ _ _ d,
    let! credits := numeric 18 6 (cp_credits p) in
    let! _ := match cp_expires_after_days p with None => Ok 0 | Some n => int32 n end in
    let! _ := check (negb (falsy (cp_provider p))) (CheckViolation "credit_products_provider_check") in
    let! _ := check (negb (falsy (cp_product_ref p))) (CheckViolation "credit_products_product_ref_check") in
    let! _ := check (numeric_positive credits) (CheckViolation "credit_products_credits_check") in
    let! _ := check (match cp_expires_after_days p with None => true | Some n => 0 <? n end)
                (CheckViolation "credit_products_expires_after_days_check") in
    let row := Product (cp_provider p) (cp_product_ref p) credits (cp_expires_after_days p) (cp_active p) in
    Ok ((), set_products (λ l,
      if bool_decide (Exists (is_product (cp_provider p) (cp_product_ref p)) l)
      then update_where (is_product (cp_provider p) (cp_product_ref p)) (λ _, row) l
      else l ++ [row]) d)).

Definition get_product (provider product_ref : string) : M (option product) :=
  query (λ _ d, head (filter (is_product provider product_ref) (products d))).

(** The grant of a payment: [source IN ('purchase', 'subscription')]. *)
Definition is_grant_of (tenant provider payment_ref : string) (l : lot) : Prop :=
  lot_tenant l = tenant ∧ lot_provider l = Some provider ∧
  lot_external_ref l = Some payment_ref ∧ lot_source l ∈ ["purchase"; "subscription"].
#[export] Instance is_grant_of_dec t p r l : Decision (is_grant_of t p r l).
Proof. unfold is_grant_of. apply _. Defined.

Definition created_before (l k : lot) : Prop := lot_created_at l ≤ lot_created_at k.
#[export] Instance created_before_dec l k : Decision (created_before l k).
Proof. unfold created_before. apply _. Defined.

(** What left the lot by a booked expiry. *)
Definition expired_of (d : db) (id : string) : Z :=
  - sumZ en_amount (filter (λ e, en_lot e = id ∧
      Exists (λ t, txn_id t = en_txn e ∧ txn_kind t = "expire") (txns d)) (entries d)).

Definition reclaimable_of (now : Z) (d : db) (l : lot) : Z :=
  lot_granted l - expired_of d (lot_id l)
  - match lot_expires_at l with
    | Some t => if t <=? now then lot_remaining l else 0
    | None => 0
    end.

Definition granted_lot (tenant provider payment_ref : string) : M (option GrantedLot) :=
  query (λ now d,
    (λ l, Build_GrantedLot (lot_id l) (lot_granted l) (Z.max (reclaimable_of now d l) 0)) <$>
      head (merge_sort created_before (filter (is_grant_of tenant provider payment_ref) (lots d)))).

(** ** The policy *)

Inductive Action : Type := Agrant | Aclawback | Aignore | Aquarantine | Ahold.
#[export] Instance Action_eq_dec : EqDecision Action.
Proof. solve_decision. Defined.

Record Plan : Type := { action : Action; plan_reason : option string }.

Definition _PAID : list EventKind := [CREDITS_PURCHASED; SUBSCRIPTION_PERIOD_STARTED].
Definition _TERMINAL : list string := ["applied"; "ignored"; "quarantined"].

Definition quarantine (reason : string) : Plan := Build_Plan Aquarantine (Some reason).

Module Policy.
Definition decide (event : BillingEvent) (tenant : option string) (pr : option product)
    (l : option GrantedLot) (received_at now hold : Z) : Plan :=
  let kind := ev_kind event in
  if bool_decide (kind = IGNORED) then Build_Plan Aignore (Some "unhandled_type") else
  if bool_decide (kind ∈ [DISPUTE_OPENED; DISPUTE_CLOSED]) then quarantine "dispute_needs_a_decision" else
  if bool_decide (kind = PAYMENT_PARTIALLY_REFUNDED) then quarantine "partial_refund_needs_a_decision" else
  if falsy_opt (ev_customer_ref event) then quarantine "no_customer" else
  if bool_decide (tenant = None) then quarantine "unlinked_customer" else
  if falsy_opt (ev_payment_ref event) then quarantine "no_payment_ref" else
  if bool_decide (kind ∈ _PAID) then
    match l with
    | Some _ => Build_Plan Aignore (Some "payment_already_granted")
    | None =>
        match pr with
        | None => quarantine "unknown_product"
        | Some p =>
            if negb (pr_active p) then quarantine "unknown_product" else
            if bool_decide (kind = SUBSCRIPTION_PERIOD_STARTED ∧ pr_expires_after_days p = None)
            then quarantine "subscription_without_expiry" else
            Build_Plan Agrant None
        end
    end
  else
    match l with
    | None => if hold <? now - received_at then quarantine "purchase_never_applied"
              else Build_Plan Ahold (Some "purchase_not_applied_yet")
    | Some l => if gl_reclaimable l <=? 0 then Build_Plan Aignore (Some "nothing_to_reclaim")
                else Build_Plan Aclawback None
    end.
End Policy.

(** ** The inbox *)

Definition is_row (ev : BillingEvent) (r : inbox_row) : Prop :=
  ib_provider r = ev_provider ev ∧ ib_event_id r = ev_event_id ev.
#[export] Instance is_row_dec ev r : Decision (is_row ev r).
Proof. unfold is_row. apply _. Defined.

Definition INBOX_STATUSES : list string := ["received"; "applied"; "ignored"; "quarantined"; "failed"].

(** A new row: it received one delivery. *)
Definition new_row (ev : BillingEvent) (now : Z) (status : string) (error_class : option string) : inbox_row :=
  InboxRow (ev_provider ev) (ev_event_id ev) (ev_raw_type ev) now now status 1 None (stored ev) error_class.

Definition check_row (ev : BillingEvent) : result exn () :=
  let! _ := check (negb (falsy (ev_provider ev))) (CheckViolation "billing_webhook_events_provider_check") in
  check (negb (falsy (ev_event_id ev))) (CheckViolation "billing_webhook_events_event_id_check").

(** The trigger and the CHECK constraints of an update: what an event was never
    changes, and an [applied] or [ignored] event is terminal. *)
Definition update_ok (old new : inbox_row) : result exn () :=
  let! _ := check (negb (bool_decide (ib_status old ∈ ["applied"; "ignored"]) &&
                         negb (bool_decide (ib_status new = ib_status old))))
              (RaiseException "billing_webhook_events: a finished event is terminal") in
  let! _ := check (bool_decide (ib_status new ∈ INBOX_STATUSES)) (CheckViolation "billing_webhook_events_status_check") in
  let! _ := int32 (ib_attempts new) in
  check (1 <=? ib_attempts new) (CheckViolation "billing_webhook_events_attempts_check").

Fixpoint all_ok {A} (f : A → result exn ()) (l : list A) : result exn () :=
  match l with
  | [] => Ok ()
  | x :: l => let! _ := f x in all_ok f l
  end.

Definition update_rows (P : inbox_row → Prop) `{!∀ r, Decision (P r)} (f : inbox_row → inbox_row)
    (d : db) : result exn db :=
  let! _ := all_ok (λ r, update_ok r (f r)) (filter P (inbox d)) in
  Ok (set_inbox (update_where P f) d).

Definition set_status (status : string) (tenant error_class : option string) (now : Z) (r : inbox_row) : inbox_row :=
  InboxRow (ib_provider r) (ib_event_id r) (ib_event_type r) (ib_received_at r) now status
    (ib_attempts r) tenant (ib_payload r) error_class.

Definition received_again (now : Z) (r : inbox_row) : inbox_row :=
  InboxRow (ib_provider r) (ib_event_id r) (ib_event_type r) (ib_received_at r) now "received"
    (ib_attempts r + 1) (ib_tenant r) (ib_payload r) (ib_error_class r).

Definition failed_again (error_class : string) (now : Z) (r : inbox_row) : inbox_row :=
  InboxRow (ib_provider r) (ib_event_id r) (ib_event_type r) (ib_received_at r) now "failed"
    (ib_attempts r + 1) (ib_tenant r) (ib_payload r) (Some error_class).

(** [INSERT ... 'received' ... ON CONFLICT DO NOTHING RETURNING received_at, now()] *)
Definition insert_received (ev : BillingEvent) : M (option (Z * Z)) :=
  stmt (λ now _ d,
    let! _ := check_row ev in
    if bool_decide (Exists (is_row ev) (inbox d)) then Ok (None, d)
    else Ok (Some (now, now), set_inbox (λ l, l ++ [new_row ev now "received" None]) d)).

Definition select_row (ev : BillingEvent) : M (option (string * Z * Z)) :=
  query (λ now d, (λ r, (ib_status r, ib_received_at r, now)) <$> head (filter (is_row ev) (inbox d))).

Definition update_received (ev : BillingEvent) : M () :=
  stmt (λ now _ d, let! d' := update_rows (is_row ev) (received_again now) d in Ok ((), d')).

Definition _claim (ev : BillingEvent) : M (option (Z * Z)) :=
  row ← insert_received ev;
  match row with
  | Some r => mret (Some r)
  | None =>
      existing ← select_row ev;
      match existing with
      | None => raise (RuntimeError "the inbox row vanished between the conflict and the read")
      | Some (status, received_at, now) =>
          if bool_decide (status ∈ _TERMINAL) then mret None else
          update_received ev ;;
          mret (Some (received_at, now))
      end
  end.

Definition _finish (ev : BillingEvent) (status : string) (tenant reason : option string) : M () :=
  stmt (λ now _ d,
    let! d' := update_rows (is_row ev) (set_status status tenant reason now) d in Ok ((), d')).

(** ** Applying an event *)

Inductive Outcome : Type := Oapplied | Oduplicate | Oignored | Oquarantined | Oretry | Ofailed.
#[export] Instance Outcome_eq_dec : EqDecision Outcome.
Proof. solve_decision. Defined.

Definition outcome_value (o : Outcome) : string :=
  match o with
  | Oapplied => "applied" | Oduplicate => "duplicate" | Oignored => "ignored"
  | Oquarantined => "quarantined" | Oretry => "retry" | Ofailed => "failed"
  end.

Definition status_value (s : status) : string :=
  match s with Sapplied => "applied" | Sduplicate => "duplicate" | Sno_account => "no_account" | Snothing => "nothing" end.
Definition clawback_reason (s : status) : string := "clawback_" +:+ status_value s.

(** [datetime.now(UTC) + timedelta(days=n) if n else None] *)
Definition expiry_in (n : option Z) : M (option datetime) :=
  match n with
  | None => mret None
  | Some n =>
      if n =? 0 then mret None else
      now ← utcnow;
      if max_instant <? now + days n then raise (OtherException "OverflowError")
      else mret (Some (DateTime (now + days n) true))
  end.

Definition grant_key (ev : BillingEvent) : string := ev_provider ev +:+ ":" +:+ ev_event_id ev.
Definition clawback_key (provider payment_ref : string) : string :=
  "clawback:" +:+ provider +:+ ":" +:+ payment_ref.
Definition webhook_actor (ev : BillingEvent) : string := "webhook:" +:+ ev_provider ev.
Definition grant_source (k : EventKind) : string :=
  if bool_decide (k = SUBSCRIPTION_PERIOD_STARTED) then "subscription" else "purchase".
(** [frozenset(GRANT_FIELDS) - {"expires_at"}] *)
Definition webhook_compare : list string := filter (λ f, f ≠ "expires_at") GRANT_FIELDS.

Definition apply_grant (ev : BillingEvent) (tenant : string) (p : product) (payment_ref : string) : M Outcome :=
  expires_at ← expiry_in (pr_expires_after_days p);
  conflict ← try_except
    (grant_in tenant (pr_credits p) (grant_source (ev_kind ev)) (grant_key ev) (webhook_actor ev)
       (Some (kind_value (ev_kind ev))) expires_at (Some (ev_provider ev)) (Some payment_ref)
       (Some webhook_compare) ;;
     mret false)
    (λ exc, match exc with IdempotencyConflict _ _ _ => mret true | _ => raise exc end);
  if (conflict : bool) then
    _finish ev "quarantined" (Some tenant) (Some "idempotency_conflict") ;; mret Oquarantined
  else
    _finish ev "applied" (Some tenant) None ;; mret Oapplied.

Definition apply_clawback (ev : BillingEvent) (tenant : string) (l : GrantedLot) (payment_ref : string) : M Outcome :=
  applied ← clawback_in tenant (of_micro (gl_reclaimable l)) (clawback_key (ev_provider ev) payment_ref)
    (webhook_actor ev) (Some (kind_value (ev_kind ev))) (Some []);
  if bool_decide (ap_status applied = Sduplicate) then
    _finish ev "ignored" (Some tenant) (Some "already_reversed") ;; mret Oignored
  else if bool_decide (ap_status applied ≠ Sapplied) then
    _finish ev "quarantined" (Some tenant) (Some (clawback_reason (ap_status applied))) ;; mret Oquarantined
  else
    _finish ev "applied" (Some tenant) None ;; mret Oapplied.

Definition _apply (ev : BillingEvent) (tenant : option string) (p : option product)
    (l : option GrantedLot) (plan : Plan) : M Outcome :=
  match action plan with
  | Agrant =>
      match tenant, p, ev_payment_ref ev with
      | Some tenant, Some p, Some payment_ref => apply_grant ev tenant p payment_ref
      | _, _, _ => raise AssertionError
      end
  | Aclawback =>
      match tenant, l, ev_payment_ref ev with
      | Some tenant, Some l, Some payment_ref => apply_clawback ev tenant l payment_ref
      | _, _, _ => raise AssertionError
      end
  | Aignore => _finish ev "ignored" tenant (plan_reason plan) ;; mret Oignored
  | Ahold => _finish ev "received" tenant (plan_reason plan) ;; mret Oretry
  | Aquarantine => _finish ev "quarantined" tenant (plan_reason plan) ;; mret Oquarantined
  end.

(** [await f(x) if x else None] *)
Definition if_some {A} (x : option string) (f : string → M (option A)) : M (option A) :=
  match x with Some s => if falsy s then mret None else f s | None => mret None end.

Section settings.
(** [BILLING_REFUND_HOLD_HOURS] and [BILLING_WEBHOOK_MAX_ATTEMPTS] *)
Context (refund_hold_hours max_attempts : Z).

Definition _process (ev : BillingEvent) : M Outcome :=
  transaction (
    claimed ← _claim ev;
    match claimed with
    | None => mret Oduplicate
    | Some (received_at, now) =>
        tenant ← if_some (ev_customer_ref ev) (tenant_for_customer (ev_provider ev));
        p ← match tenant with
            | Some _ => if bool_decide (ev_kind ev ∈ _PAID)
                        then if_some (ev_product_ref ev) (get_product (ev_provider ev)) else mret None
            | None => mret None
            end;
        l ← match tenant with
            | Some t => if bool_decide (ev_kind ev ∈ _PAID ∨ ev_kind ev = PAYMENT_REFUNDED)
                        then if_some (ev_payment_ref ev) (granted_lot t (ev_provider ev)) else mret None
            | None => mret None
            end;
        _apply ev tenant p l (Policy.decide ev tenant p l received_at now (hours refund_hold_hours))
    end).

(** [INSERT ... 'failed', 1 ... ON CONFLICT DO UPDATE ... WHERE status IN
    ('received', 'failed') RETURNING attempts] *)
Definition upsert_failed (ev : BillingEvent) (error_class : string) : M (option Z) :=
  stmt (λ now _ d,
    let! _ := check_row ev in
    match head (filter (is_row ev) (inbox d)) with
    | None => Ok (Some 1, set_inbox (λ l, l ++ [new_row ev now "failed" (Some error_class)]) d)
    | Some r =>
        if bool_decide (ib_status r ∈ ["received"; "failed"]) then
          let! d' := update_rows (is_row ev) (failed_again error_class now) d in
          Ok (Some (ib_attempts r + 1), d')
        else Ok (None, d)
    end).

Definition _record_failure (ev : BillingEvent) (error_class : string) : M Outcome :=
  try_except
    (transaction (
      row ← upsert_failed ev error_class;
      match row with
      | None => mret Oduplicate
      | Some attempts =>
          if max_attempts <=? attempts then
            _finish ev "quarantined" None (Some (String.substring 0 100 ("max_attempts:" +:+ error_class))) ;;
            mret Oquarantined
          else mret Ofailed
      end))
    (λ _, mret Ofailed).

Definition process_event (ev : BillingEvent) : M Outcome :=
  outcome ← try_except (_process ev) (λ exc, _record_failure ev (exn_name exc));
  count "agent_billing_webhook_total" (ev_provider ev +:+ "," +:+ outcome_value outcome) ;;
  mret outcome.
End settings.

(** ** Retention of the inbox ([inbox.py]) *)

Definition BILLING_INBOX_MIN_RETENTION_DAYS : Z := 30.

Definition sweepable (older_than_days now : Z) (r : inbox_row) : Prop :=
  ib_status r ∈ ["applied"; "ignored"] ∧ ib_received_at r < now - days older_than_days.
#[export] Instance sweepable_dec n now r : Decision (sweepable n now r).
Proof. unfold sweepable. apply _. Defined.

(** [DELETE ... WHERE (provider, event_id) IN (SELECT ... LIMIT batch_size)] *)
Definition inbox_key (r : inbox_row) : string * string := (ib_provider r, ib_event_id r).

Definition delete_batch (older_than_days : Z) (batch_size : nat) : M nat :=
  stmt (λ now _ d,
    let chosen := inbox_key <$> take batch_size (filter (sweepable older_than_days now) (inbox d)) in
    Ok (length (filter (λ r, inbox_key r ∈ chosen) (inbox d)),
        set_inbox (filter (λ r, inbox_key r ∉ chosen)) d)).

Fixpoint sweep_batches (older_than_days : Z) (batch_size max_batches total : nat) : M nat :=
  match max_batches with
  | O => mret total
  | S max_batches =>
      deleted ← transaction (delete_batch older_than_days batch_size);
      if bool_decide (deleted < batch_size)%nat then mret (total + deleted)%nat
      else sweep_batches older_than_days batch_size max_batches (total + deleted)
  end.

Definition sweep_old_rows (older_than_days : Z) (batch_size max_batches : nat) : M nat :=
  refuse_if (older_than_days <? BILLING_INBOX_MIN_RETENTION_DAYS)
    (ValueError "a sweep must not race a payment provider that is still redelivering") ;;
  sweep_batches older_than_days batch_size max_batches 0.
