(* ===== verification/Usage.v ===== *)
(** Recording billable usage, the credit gate and the billing port:
    [credit_billing/usage.py], [credit_billing/admission.py],
    [credit_billing/port.py] and [app/billing_integration/port.py].

    A host hands over one unit of usage inside its own transaction; the package
    rates it, keeps it, charges it and queues it for export, each of the last
    two in a savepoint of its own. *)
From S2P Require Import Prelude Decimals Calendar Db Wallet.

Local Open Scope string_scope.
Local Open Scope list_scope.
Local Open Scope Z_scope.
Local Open Scope py_scope.

(** ** Data *)

(** What [Decimal(str(cost_usd))] makes of the caller's figure. *)
Inductive cost : Type := Number (d : decimal) | NotANumber.

Record usage : Type := Usage {
  u_tenant : string;
  u_event_id : string;
  u_kind : string;
  u_cost_usd : option cost;      (* None: unpriced *)
  u_model : option string;
  u_tokens : option Z;
}.

Inductive recorded_status : Type := Rrecorded | Rduplicate | Roff | Rfailed.
#[export] Instance recorded_status_eq_dec : EqDecision recorded_status.
Proof. solve_decision. Defined.

Record recorded : Type := Recorded {
  rc_status : recorded_status;
  rc_credits : option Z;
  rc_debit : option applied;
}.

Inductive admission_status : Type := Allowed | Exhausted | Unavailable | Degraded.
Record admission : Type := Admission {
  ad_status : admission_status;
  ad_available : option Z;
  ad_reserved : option Z;
}.
Definition refused (a : admission) : bool :=
  match ad_status a with Exhausted | Unavailable => true | _ => false end.

Record credit_summary_t : Type := CreditSummary { cs_balance : balance; cs_enforced : bool }.

(** [BillingSettings], as far as this file reads it. *)
Record settings : Type := Settings {
  credits_per_usd : option decimal;
  markup : decimal;
  exporters : list string;             (* usage_export_providers(BILLING_PROVIDERS) *)
  credits_enforcement : bool;
  fail_closed : bool;                  (* CREDIT_CHECK_FAILURE_POLICY = "closed" *)
}.

Definition _degrade (path : string) : M () := count "agent_cost_governance_degraded_total" path.

Section settings.
Context (cfg : settings).

(** ** Rating *)

Definition nonblank (s msg : string) : result exn () :=
  if is_blank s then Err (ValueError msg) else Ok ().

(** The cost to store, and the credits it is worth. *)
Definition _valid (u : usage) : result exn (option decimal * option Z) :=
  let! _ := nonblank (u_tenant u) "tenant must be a non-blank string" in
  let! _ := nonblank (u_event_id u) "event_id must be a non-blank string" in
  let! _ := nonblank (u_kind u) "kind must be a non-blank string" in
  let! _ := match u_tokens u with
            | Some n => if n <? 0 then Err (ValueError "tokens must be a non-negative integer") else Ok ()
            | None => Ok ()
            end in
  match u_cost_usd u with
  | None => Ok (None, None)
  | Some NotANumber => Err (ValueError "cost_usd must be a finite number")
  | Some (Number d) =>
      match quantize d (-12) with
      | Err _ => Err (ValueError "cost_usd must be a finite number")
      | Ok c =>
          if negb (is_finite c) then Err (ValueError "cost_usd must be a finite number") else
          if is_negative c then Err (ValueError "cost_usd must not be negative") else
          match credits_per_usd cfg with
          | None => Ok (Some c, None)
          | Some rate =>
              let! worth := rmap_err amount_exn (credits_for_cost c rate (markup cfg)) in
              Ok (Some c, Some worth)
          end
      end
  end.

(** ** The tables ([sql/24], [sql/25]) *)

Definition is_usage (tenant event_id : string) (r : usage_row) : Prop :=
  us_tenant r = tenant ∧ us_event_id r = event_id.
#[export] Instance is_usage_dec t i r : Decision (is_usage t i r).
Proof. unfold is_usage. apply _. Defined.

Definition opt_check {A} (P : A → bool) (v : option A) (x : exn) : result exn () :=
  check (match v with None => true | Some a => P a end) x.

(** [_INSERT]: whether a row was inserted. *)
Definition insert_usage_row (u : usage) (cost_usd : option decimal) (credits : option Z)
    (rate mk : option decimal) (now : Z) (d : db) : result exn (bool * db) :=
  let! cost_usd := numeric_opt 18 12 cost_usd in
  let! _ := match credits with None => Ok 0 | Some c => numeric18_6 c end in
  let! rate := numeric_opt 18 6 rate in
  let! mk := numeric_opt 18 6 mk in
  let! _ := match u_tokens u with None => Ok 0 | Some n => int32 n end in
  let! _ := check (negb (falsy (u_tenant u))) (CheckViolation "billing_usage_events_tenant_check") in
  let! _ := check (negb (falsy (u_event_id u))) (CheckViolation "billing_usage_events_event_id_check") in
  let! _ := check (negb (falsy (u_kind u))) (CheckViolation "billing_usage_events_kind_check") in
  let! _ := opt_check (λ c, negb (is_negative c)) cost_usd (CheckViolation "billing_usage_events_cost_usd_check") in
  let! _ := opt_check (λ c, 0 <=? c) credits (CheckViolation "billing_usage_events_credits_check") in
  let! _ := opt_check numeric_positive rate (CheckViolation "billing_usage_events_credits_per_usd_check") in
  let! _ := opt_check numeric_positive mk (CheckViolation "billing_usage_events_markup_check") in
  let! _ := opt_check (λ n, 0 <=? n) (u_tokens u) (CheckViolation "billing_usage_events_tokens_check") in
  let! _ := opt_check (λ _, bool_decide (rate ≠ None ∧ mk ≠ None)) credits
              (CheckViolation "billing_usage_events_check") in
  if bool_decide (Exists (is_usage (u_tenant u) (u_event_id u)) (usage_events d)) then Ok (false, d) else
  Ok (true, set_usage_events (λ l, l ++ [UsageRow (u_tenant u) (u_event_id u) (u_kind u) now now cost_usd
                                credits rate mk (u_model u) (u_tokens u)]) d).

Definition insert_usage (u : usage) (cost_usd : option decimal) (credits : option Z)
    (rate mk : option decimal) : M bool :=
  stmt (λ now _ d, insert_usage_row u cost_usd credits rate mk now d).

Definition is_outbox (provider tenant event_id : string) (r : outbox_row) : Prop :=
  ob_provider r = provider ∧ ob_tenant r = tenant ∧ ob_event_id r = event_id.
#[export] Instance is_outbox_dec p t i r : Decision (is_outbox p t i r).
Proof. unfold is_outbox. apply _. Defined.

Definition new_outbox (provider tenant event_id : string) (now : Z) : outbox_row :=
  OutboxRow provider tenant event_id "pending" 0 now None now None.

(** One row per exporter the tenant is linked to; a queued event is left as it is. *)
Definition enqueue_one (tenant event_id : string) (now : Z) (l : list outbox_row) (provider : string) :
    list outbox_row :=
  if bool_decide (Exists (is_outbox provider tenant event_id) l) then l
  else l ++ [new_outbox provider tenant event_id now].

Definition export_targets (tenant : string) (d : db) : list string :=
  cu_provider <$> filter (λ c, cu_tenant c = tenant ∧ cu_provider c ∈ exporters cfg) (customers d).

(** [_ENQUEUE] *)
Definition enqueue_rows (u : usage) : M () :=
  stmt (λ now _ d,
    let targets := export_targets (u_tenant u) d in
    let! _ := check (bool_decide (targets = []) ||
                     bool_decide (Exists (is_usage (u_tenant u) (u_event_id u)) (usage_events d)))
                (ForeignKeyViolation "billing_export_outbox_tenant_event_id_fkey") in
    Ok ((), set_outbox (λ l, foldl (enqueue_one (u_tenant u) (u_event_id u) now) l targets) d)).

(** ** Recording *)

Definition _charge (u : usage) (worth : Z) (pr : pricing) : M (option applied) :=
  try_except
    (savepoint (
      r ← debit_in (u_tenant u) (of_micro worth) (u_event_id u) (Some (u_event_id u)) "system"
            (Some ("usage (" +:+ u_kind u +:+ ")")) "debit" (Some pr) None;
      mret (Some r)))
    (λ _, _degrade "credit_debit" ;; mret None).

Definition _enqueue (u : usage) : M () :=
  try_except (savepoint (enqueue_rows u)) (λ _, _degrade "export_enqueue").

(** The body of [record_usage_in]'s savepoint. *)
Definition record_body (u : usage) (cost_usd : option decimal) (worth : option Z) : M recorded :=
  let rate := credits_per_usd cfg in
  let mk := match rate with None => None | Some _ => Some (markup cfg) end in
  inserted ← insert_usage u cost_usd worth rate mk;
  if negb inserted then mret (Recorded Rduplicate None None) else
  debit ← match worth, rate, cost_usd with
          | Some worth, Some rate, Some c => _charge u worth (Pricing c rate (markup cfg))
          | _, _, _ => mret None
          end;
  (if bool_decide (exporters cfg ≠ []) then _enqueue u else mret ()) ;;
  mret (Recorded Rrecorded worth debit).

Definition record_usage_in (u : usage) : M recorded :=
  if bool_decide (credits_per_usd cfg = None ∧ exporters cfg = []) then mret (Recorded Roff None None) else
  match _valid u with
  | Err (ValueError _) => _degrade "billing_event_write" ;; mret (Recorded Rfailed None None)
  | Err exc => raise exc
  | Ok (cost_usd, worth) =>
      try_except (savepoint (record_body u cost_usd worth))
        (λ _, _degrade "billing_event_write" ;; mret (Recorded Rfailed None None))
  end.

(** The host's second line: [app/billing_integration/port.py]. *)
Definition port_record_usage_in (u : usage) : M recorded :=
  try_except (record_usage_in u)
    (λ _, _degrade "billing_event_write" ;; mret (Recorded Rfailed None None)).

(** ** The credit gate *)

(** The transaction of [account_balance]: the wallet, or why it cannot be read. *)
Definition read_wallet (tenant : string) : M (option (option balance)) :=
  try_except (wallet ← account_balance tenant; mret (Some wallet))
    (λ _, _degrade "credit_read" ;; mret None).

Definition admit_tenant (tenant : string) (reserved_usd : M decimal) : M admission :=
  if negb (credits_enforcement cfg) then mret (Admission Allowed None None) else
  match credits_per_usd cfg with
  | None => raise (RuntimeError "CREDITS_ENFORCEMENT is on but CREDITS_PER_USD is not set")
  | Some rate =>
      wallet ← read_wallet tenant;
      match wallet with
      | None => mret (Admission (if fail_closed cfg then Unavailable else Degraded) None None)
      | Some None => mret (Admission Allowed None None)
      | Some (Some b) =>
          usd ← reserved_usd;
          reserved ← lift (rmap_err amount_exn (credits_for_cost usd rate (markup cfg)));
          if 0 <? available b - reserved then mret (Admission Allowed None None) else
          count "agent_credit_enforcement_refused_total" "" ;;
          mret (Admission Exhausted (Some (available b)) (Some reserved))
      end
  end.

Definition credit_summary (tenant : string) : M (option credit_summary_t) :=
  if bool_decide (credits_per_usd cfg = None) then mret None else
  b ← account_balance tenant;
  mret ((λ b, CreditSummary b (credits_enforcement cfg)) <$> b).
End settings.
