(* ===== verification/Export.v ===== *)
(** Money out: [credit_billing/export.py].

    The outbox holds one row per recorded event and usage-billing provider the
    tenant is linked to. A pass gives up on events that are too old, then, for
    each provider, claims the due rows, sends them one customer at a time and
    records every verdict in the transaction that claimed them. *)
From S2P Require Import Prelude Dict Decimals Calendar Db Wallet Webhooks Usage.

Local Open Scope string_scope.
Local Open Scope list_scope.
Local Open Scope Z_scope.
Local Open Scope py_scope.

(** ** Data *)

Record usage_event : Type := UsageEvent {
  ue_event_id : string;
  ue_occurred_at : Z;
  ue_credits : option Z;
  ue_cost_usd : option decimal;
  ue_model : option string;
  ue_total_tokens : Z;
}.

Record export_failure : Type := ExportFailure { ef_event_id : string; retryable : bool }.

Record export_result : Type := ExportResult {
  er_accepted : list string;
  er_duplicate : list string;
  er_failed : list export_failure;
}.

(** One claimed outbox row with what the provider needs to be told about it. *)
Record Due : Type := {
  du_event_id : string;
  du_tenant : string;
  du_attempts : Z;
  du_customer_ref : option string;
  du_usage : usage_event;
}.

Inductive verdict_status : Type := Vsent | Vpending | Vfailed.
#[export] Instance verdict_status_eq_dec : EqDecision verdict_status.
Proof. solve_decision. Defined.

Record Verdict : Type := {
  vd_status : verdict_status;
  vd_delay_seconds : Z;
  vd_error : option string;
}.

Definition status_name (s : verdict_status) : string :=
  match s with Vsent => "sent" | Vpending => "pending" | Vfailed => "failed" end.

(** A usage-billing adapter: what [export_usage] answers at a given step to a
    customer (tenant, provider, reference) and a batch, or the class of what it
    raises ([TimeoutError] past the deadline). *)
Definition adapter : Type := nat → string → string → string → list usage_event → result string export_result.

(** ** Verdicts *)

Definition backoff_seconds (failures base cap : Z) : Z :=
  Z.min (base * 2 ^ (Z.min (Z.max failures 1 - 1) 30)) cap.

(** [s[:100]] *)
Definition clip100 (s : string) : string := String.substring 0 100 s.

Section verdicts.
Context (max_attempts base cap : Z).

Definition retry (due : Due) (reason : string) : Verdict :=
  let failures := du_attempts due + 1 in
  if max_attempts <=? failures
  then Build_Verdict Vfailed 0 (Some (clip100 ("attempts_exhausted:" +:+ reason)))
  else Build_Verdict Vpending (backoff_seconds failures base cap) (Some (clip100 reason)).

Definition verdict_of (failed : list (string * export_failure)) (landed : list string) (due : Due) : Verdict :=
  match dict_get (du_event_id due) failed with
  | Some f => if retryable f then retry due "provider_retryable"
              else Build_Verdict Vfailed 0 (Some "provider_permanent")
  | None =>
      if bool_decide (du_event_id due ∈ landed) then Build_Verdict Vsent 0 None
      else retry due "unreported"
  end.

Definition failed_by_id (res : export_result) : list (string * export_failure) :=
  dict_of ef_event_id id (er_failed res) [].

Definition verdicts (batch : list Due) (answer : result string export_result) : list (string * Verdict) :=
  let one := match answer with
             | Err reason => λ due, retry due reason
             | Ok res => verdict_of (failed_by_id res) (er_accepted res ++ er_duplicate res)
             end in
  dict_of du_event_id one batch [].
End verdicts.

(** ** Statements *)

Definition OUTBOX_STATUSES : list string := ["pending"; "sent"; "expired"; "failed"].

(** The trigger and the CHECK constraints of an update of the outbox. *)
Definition outbox_ok (old new : outbox_row) : result exn () :=
  let! _ := check (bool_decide (ob_status old = "pending") ||
                   bool_decide (ob_status new = ob_status old ∧ ob_attempts new = ob_attempts old ∧
                                ob_sent_at new = ob_sent_at old))
              (RaiseException "billing_export_outbox: a finished row cannot change") in
  let! _ := int32 (ob_attempts new) in
  let! _ := check (bool_decide (ob_status new ∈ OUTBOX_STATUSES)) (CheckViolation "billing_export_outbox_status_check") in
  let! _ := check (0 <=? ob_attempts new) (CheckViolation "billing_export_outbox_attempts_check") in
  check (bool_decide (ob_status new = "sent" ↔ ob_sent_at new ≠ None)) (CheckViolation "billing_export_outbox_check").

Definition update_outbox (P : outbox_row → Prop) `{!∀ r, Decision (P r)} (f : outbox_row → outbox_row)
    (d : db) : result exn db :=
  let! _ := all_ok (λ r, outbox_ok r (f r)) (filter P (outbox d)) in
  Ok (set_outbox (update_where P f) d).

Definition event_of (o : outbox_row) (u : usage_row) : Prop :=
  us_event_id u = ob_event_id o ∧ us_tenant u = ob_tenant o.
#[export] Instance event_of_dec o u : Decision (event_of o u).
Proof. unfold event_of. apply _. Defined.

Definition too_old (names : list string) (max_age_days now : Z) (d : db) (o : outbox_row) : Prop :=
  ob_status o = "pending" ∧ ob_provider o ∈ names ∧
  Exists (λ u, event_of o u ∧ us_occurred_at u < now - days max_age_days) (usage_events d).
#[export] Instance too_old_dec names n now d o : Decision (too_old names n now d o).
Proof. unfold too_old. apply _. Defined.

Definition expired_row (o : outbox_row) : outbox_row :=
  OutboxRow (ob_provider o) (ob_tenant o) (ob_event_id o) "expired" (ob_attempts o) (ob_next_attempt_at o)
    (Some "max_age") (ob_created_at o) (ob_sent_at o).

(** How many events of each provider were given up on. *)
Definition _expire (max_age_days : Z) (names : list string) : M (list (string * nat)) :=
  transaction (stmt (λ now _ d,
    let! d' := update_outbox (too_old names max_age_days now d) expired_row d in
    Ok (foldl (λ counts o, dict_bump (ob_provider o) 1 counts) []
          (filter (too_old names max_age_days now d) (outbox d)), d'))).

(** [ORDER BY o.next_attempt_at, o.created_at] *)
Definition due_before (a b : outbox_row) : Prop :=
  ob_next_attempt_at a < ob_next_attempt_at b ∨
  ob_next_attempt_at a = ob_next_attempt_at b ∧ ob_created_at a ≤ ob_created_at b.
#[export] Instance due_before_dec a b : Decision (due_before a b).
Proof. unfold due_before. apply _. Defined.

Definition is_due (name : string) (now : Z) (o : outbox_row) : Prop :=
  ob_provider o = name ∧ ob_status o = "pending" ∧ ob_next_attempt_at o ≤ now.
#[export] Instance is_due_dec name now o : Decision (is_due name now o).
Proof. unfold is_due. apply _. Defined.

(** [LEFT JOIN billing_customers]: the references the tenant is linked by, or none. *)
Definition links_of (o : outbox_row) (d : db) : list (option string) :=
  match filter (λ c, cu_tenant c = ob_tenant o ∧ cu_provider c = ob_provider o) (customers d) with
  | [] => [None]
  | cs => (λ c, Some (cu_ref c)) <$> cs
  end.

Definition due_of (o : outbox_row) (u : usage_row) (ref : option string) : Due := {|
  du_event_id := ob_event_id o; du_tenant := ob_tenant o; du_attempts := ob_attempts o; du_customer_ref := ref;
  du_usage := UsageEvent (ob_event_id o) (us_occurred_at u) (us_credits u) (us_cost_usd u) (us_model u)
                (default 0 (us_tokens u)) |}.

Definition claimed (name : string) (batch_size : nat) (now : Z) (d : db) : list Due :=
  take batch_size (
    o ← merge_sort due_before (filter (is_due name now) (outbox d));
    u ← filter (event_of o) (usage_events d);
    ref ← links_of o d;
    [due_of o u ref]).

Definition group_by_customer (dues : list Due) : list (string * option string * list Due) :=
  foldl (λ groups due, dict_append (du_tenant due, du_customer_ref due) due groups) [] dues.

(** ** A pass *)

Section pass.
Context (max_attempts base cap : Z).

Definition _send (call : adapter) (tenant name ref : string) (batch : list Due) :
    M (result string export_result) :=
  λ _ w, (Ok (call (w_tick w) tenant name ref (du_usage <$> batch)), next_tick w).

Fixpoint decide_groups (call : adapter) (name : string) (groups : list (string * option string * list Due))
    (decided : list (string * Verdict)) : M (list (string * Verdict)) :=
  match groups with
  | [] => mret decided
  | (tenant, None, batch) :: groups =>
      decide_groups call name groups (dict_update decided
        ((λ due, (du_event_id due, Build_Verdict Vfailed 0 (Some "unlinked_customer"))) <$> batch))
  | (tenant, Some ref, batch) :: groups =>
      answer ← _send call tenant name ref batch;
      decide_groups call name groups (dict_update decided (verdicts max_attempts base cap batch answer))
  end.

Definition recorded_row (verdict : Verdict) (now : Z) (o : outbox_row) : outbox_row :=
  match vd_status verdict with
  | Vsent => OutboxRow (ob_provider o) (ob_tenant o) (ob_event_id o) "sent" (ob_attempts o + 1)
               (ob_next_attempt_at o) None (ob_created_at o) (Some now)
  | Vfailed => OutboxRow (ob_provider o) (ob_tenant o) (ob_event_id o) "failed" (ob_attempts o + 1)
                 (ob_next_attempt_at o) (vd_error verdict) (ob_created_at o) (ob_sent_at o)
  | Vpending => OutboxRow (ob_provider o) (ob_tenant o) (ob_event_id o) (ob_status o) (ob_attempts o + 1)
                  (now + vd_delay_seconds verdict * us_per_second) (vd_error verdict) (ob_created_at o) (ob_sent_at o)
  end.

Definition _record (provider tenant event_id : string) (verdict : Verdict) : M () :=
  stmt (λ now _ d,
    let! d' := update_outbox (is_outbox provider tenant event_id) (recorded_row verdict now) d in Ok ((), d')).

(** [{due.event_id: due.tenant for batch in groups.values() for due in batch}] *)
Definition owner_of (groups : list (string * option string * list Due)) : list (string * string) :=
  dict_of du_event_id du_tenant (concat (snd <$> groups)) [].

Definition _drain (name : string) (call : adapter) (batch_size : nat) : M (list (string * nat)) :=
  transaction (
    dues ← query (claimed name batch_size);
    let groups := group_by_customer dues in
    decided ← decide_groups call name groups [];
    for_each decided (λ '(event_id, verdict),
      match dict_get event_id (owner_of groups) with
      | None => raise (OtherException "KeyError")
      | Some tenant => _record name tenant event_id verdict
      end) ;;
    mret (foldl (λ counts '(_, verdict),
      dict_bump (if bool_decide (vd_status verdict = Vpending) then "retry" else status_name (vd_status verdict)) 1 counts)
      [] decided)).

(** The age of the oldest pending event, which [agent_usage_export_oldest_pending_age_seconds] is set to. *)
Definition pending_age (provider : string) (now : Z) (d : db) : Z :=
  match ob_created_at <$> filter (λ o, ob_provider o = provider ∧ ob_status o = "pending") (outbox d) with
  | [] => 0
  | x :: xs => now - foldl Z.min x xs
  end.

Definition _set_age_gauge (provider : string) : M Z := transaction (query (pending_age provider)).

(** [metrics.<counter>.labels(<label>).inc(n)] *)
Fixpoint count_many (counter label : string) (n : nat) : M () :=
  match n with O => mret () | S n => count counter label ;; count_many counter label n end.

Definition add_totals (counts totals : list (string * nat)) : list (string * nat) :=
  foldl (λ totals '(outcome, n), dict_bump outcome n totals) totals counts.

Definition count_outcomes (name : string) (counts : list (string * nat)) : M () :=
  for_each counts (λ '(outcome, n), count_many "agent_usage_export_total" (name +:+ "," +:+ outcome) n).

Fixpoint drain_all (providers : list (string * adapter)) (batch_size : nat) (totals : list (string * nat)) :
    M (list (string * nat)) :=
  match providers with
  | [] => mret totals
  | (name, call) :: providers =>
      counts ← _drain name call batch_size;
      count_outcomes name counts ;;
      _set_age_gauge name ;;
      drain_all providers batch_size (add_totals counts totals)
  end.

Definition run_once (providers : list (string * adapter)) (batch_size : nat) (max_age_days : Z) :
    M (list (string * nat)) :=
  counts ← _expire max_age_days (fst <$> providers);
  for_each counts (λ '(name, n), count_many "agent_usage_export_total" (name +:+ ",expired") n) ;;
  drain_all providers batch_size (foldl (λ totals '(_, n), dict_bump "expired" n totals) [] counts).
End pass.
