(* ===== verification/Reconcile.v ===== *)
(** The wallet reconciliation: [credit_billing/reconcile.py].

    A pass reads the usage events of a window, keeps those that were worth
    credits, were recorded for a tenant that had a wallet and have no transaction
    under their id, and reports them by tenant and day. *)
From S2P Require Import Prelude Dict Decimals Calendar Db Wallet Webhooks Usage.

Local Open Scope string_scope.
Local Open Scope list_scope.
Local Open Scope Z_scope.
Local Open Scope py_scope.

(** ** Data *)

Record Window : Type := { win_start : Z; win_end : Z }.

Definition empty (w : Window) : bool := win_end w <? win_start w.

(** Whole UTC days back to midnight, up to [settle_seconds] ago, at whole seconds. *)
Definition default_window (now lookback_days settle_seconds : Z) : Window := {|
  win_start := (now - days (lookback_days - 1)) / us_per_day * us_per_day;
  win_end := (now - settle_seconds * us_per_second) / us_per_second * us_per_second |}.

(** [fi_day] is the number of days since the epoch, [fi_usd] is in units of 10^-12. *)
Record Finding : Type := {
  fi_tenant : string;
  fi_day : Z;
  fi_events : nat;
  fi_credits : Z;
  fi_usd : Z;
}.

Record Report : Type := {
  rp_window : Window;
  rp_findings : list Finding;
  rp_tenants : nat;
  rp_events : nat;
  rp_skipped : list string;
  rp_outstanding_live : option Z;
  rp_outstanding_debt : option Z;
}.

Definition max_drift_usd (r : Report) : Z :=
  match fi_usd <$> rp_findings r with [] => 0 | u :: us => foldl Z.max u us end.

Definition outcome (r : Report) : string := if bool_decide (rp_findings r = []) then "ok" else "drift".

(** ** The queries *)

Definition in_window (w : Window) (u : usage_row) : Prop :=
  win_start w <= us_occurred_at u ∧ us_occurred_at u <= win_end w.
#[export] Instance in_window_dec w u : Decision (in_window w u).
Proof. unfold in_window. apply _. Defined.

(** Worth credits, recorded while the tenant had a wallet, and never charged. *)
Definition worth_credits (u : usage_row) : Prop := 0 < default 0 (us_credits u).
#[export] Instance worth_credits_dec u : Decision (worth_credits u).
Proof. unfold worth_credits. apply _. Defined.

Definition had_wallet (d : db) (u : usage_row) : Prop :=
  Exists (λ a, acc_tenant a = us_tenant u ∧ acc_created_at a <= us_recorded_at u) (accounts d).
#[export] Instance had_wallet_dec d u : Decision (had_wallet d u).
Proof. unfold had_wallet. apply _. Defined.

Definition charged_under (d : db) (u : usage_row) : Prop :=
  Exists (λ t, txn_tenant t = us_tenant u ∧ txn_key t = us_event_id u) (txns d).
#[export] Instance charged_under_dec d u : Decision (charged_under d u).
Proof. unfold charged_under. apply _. Defined.

Definition uncharged (w : Window) (d : db) (u : usage_row) : Prop :=
  in_window w u ∧ worth_credits u ∧ had_wallet d u ∧ ¬ charged_under d u.
#[export] Instance uncharged_dec w d u : Decision (uncharged w d u).
Proof. unfold uncharged. apply _. Defined.

(** A stored cost, NUMERIC(18,12) and finite, in units of 10^-12. *)
Definition pico (c : option decimal) : Z :=
  match c with
  | Some (Fin s c e) => let n := Z.of_N (rescale_half_up c e (-12)) in if s then - n else n
  | _ => 0
  end.

(** [GROUP BY tenant, (occurred_at AT TIME ZONE 'UTC')::date] *)
Definition tenant_day (u : usage_row) : string * Z := (us_tenant u, us_occurred_at u / us_per_day).

Definition finding_of (rows : list usage_row) (key : string * Z) : Finding :=
  let group := filter (λ u, tenant_day u = key) rows in
  {| fi_tenant := key.1; fi_day := key.2; fi_events := length group;
     fi_credits := sumZ (λ u, default 0 (us_credits u)) group;
     fi_usd := sumZ (λ u, pico (us_cost_usd u)) group |}.

(** [sorted(findings, key=lambda f: (-f.usd, f.tenant, f.day))] *)
Definition finding_before (a b : Finding) : Prop :=
  fi_usd b < fi_usd a ∨ fi_usd a = fi_usd b ∧
    (str_le (fi_tenant a) (fi_tenant b) ∧ fi_tenant a ≠ fi_tenant b ∨
     fi_tenant a = fi_tenant b ∧ fi_day a <= fi_day b).
#[export] Instance finding_before_dec a b : Decision (finding_before a b).
Proof. unfold finding_before. apply _. Defined.

Definition findings_in (w : Window) (d : db) : list Finding :=
  let rows := filter (uncharged w d) (usage_events d) in
  merge_sort finding_before (finding_of rows <$> remove_dups (tenant_day <$> rows)).

Definition uncharged_by_tenant_day (w : Window) : M (list Finding) :=
  transaction (query (λ _, findings_in w)).

Definition events_in (w : Window) : M (nat * nat) :=
  transaction (query (λ _ d,
    let rows := filter (in_window w) (usage_events d) in
    (length rows, length (remove_dups (us_tenant <$> rows))))).

Definition wallet_totals (tenant : option string) : M (Z * Z) :=
  transaction (query (λ now d,
    let ls := filter (for_tenant tenant) (lots d) in
    (sumZ lot_remaining (filter (unexpired now) ls),
     - sumZ lot_remaining (filter (λ l, lot_source l = "overdraft") ls)))).

Definition reconcile (w : Window) : M Report :=
  if empty w then mret (Build_Report w [] 0 0
    ["window: it is empty (the settle period reaches back past the start of the day)"] None None) else
  '(events, tenants) ← events_in w;
  findings ← uncharged_by_tenant_day w;
  '(live, debt) ← wallet_totals None;
  mret (Build_Report w findings tenants events [] (Some live) (Some debt)).

(** ** What the findings say *)

#[export] Instance finding_before_total : Total finding_before.
Proof.
  intros a b. unfold finding_before.
  destruct (Z.lt_trichotomy (fi_usd a) (fi_usd b)) as [|[|]]; [right; by left| |left; by left].
  destruct (decide (fi_tenant a = fi_tenant b)) as [|Hne].
  - destruct (Z.le_ge_cases (fi_day a) (fi_day b)); [left|right]; right; (split; [done|right; split; [done|lia]]).
  - destruct (str_le_total (fi_tenant a) (fi_tenant b)); [left|right]; right; (split; [done|left; split; [done|congruence]]).
Qed.

Section findings.
Context (w : Window) (d : db).

Definition rows_of (key : string * Z) : list usage_row :=
  filter (λ u, tenant_day u = key) (filter (uncharged w d) (usage_events d)).

(** The report has exactly one finding per tenant and day with an uncharged event. *)
Lemma findings_elem f :
  f ∈ findings_in w d ↔
  ∃ u, u ∈ usage_events d ∧ uncharged w d u ∧ f = finding_of (filter (uncharged w d) (usage_events d)) (tenant_day u).
Proof.
  unfold findings_in. rewrite merge_sort_Permutation, list_elem_of_fmap. split.
  - intros (k & -> & Hk). rewrite elem_of_remove_dups in Hk. apply list_elem_of_fmap in Hk as (u & -> & Hu).
    apply list_elem_of_filter in Hu as [Hu Hin]. eauto.
  - intros (u & Hu & Hun & ->). eexists. split; [done|]. apply elem_of_remove_dups, list_elem_of_fmap_2.
    by apply list_elem_of_filter.
Qed.

Lemma findings_keys : NoDup ((λ f, (fi_tenant f, fi_day f)) <$> findings_in w d).
Proof.
  unfold findings_in. rewrite merge_sort_Permutation, <-list_fmap_compose.
  rewrite (list_fmap_ext _ id).
  - rewrite list_fmap_id. apply NoDup_remove_dups.
  - by intros i [t day] _.
Qed.

Lemma findings_sorted : Sorted finding_before (findings_in w d).
Proof. apply Sorted_merge_sort, _. Qed.

(** Every uncharged event is in the sums of one finding. *)
Lemma findings_cover u :
  u ∈ usage_events d → uncharged w d u →
  ∃ f, f ∈ findings_in w d ∧ fi_tenant f = us_tenant u ∧ fi_day f = us_occurred_at u / us_per_day ∧
    default 0 (us_credits u) ≤ fi_credits f ∧ (1 ≤ fi_events f)%nat.
Proof.
  intros Hu Hun. eexists. split; [apply findings_elem; eauto|]. split_and!; [done|done| |].
  - apply (sumZ_elem_le (λ u, default 0 (us_credits u))).
    + intros y [_ [(_ & Hw & _) _]%list_elem_of_filter]%list_elem_of_filter. unfold worth_credits in Hw. lia.
    + apply list_elem_of_filter. split; [done|]. by apply list_elem_of_filter.
  - assert (Hin : u ∈ filter (λ v, tenant_day v = tenant_day u) (filter (uncharged w d) (usage_events d))).
    { apply list_elem_of_filter. split; [done|]. by apply list_elem_of_filter. }
    simpl. destruct (filter _ (filter _ _)); [by apply not_elem_of_nil in Hin|simpl; lia].
Qed.
End findings.
