(* ===== verification/WalletSpec.v ===== *)
(** What the wallet promises, and the closed form of what it writes.

    [wf] is the well-formedness of the wallet's tables, [ledger_ok] that every
    lot's cached [remaining] is the sum of its entries, [canonical] that a
    wallet which owes holds no live credit. [booked] is the pure effect of one
    booking: a transaction, the lots it opens, and its signed moves. The lemmas
    here say what a booking does to lots, entries and sums; [WalletFacts]
    shows that the coroutines of [Wallet] perform exactly such bookings. *)
From S2P Require Import Prelude Decimals Calendar Db Wallet.

Local Open Scope Z_scope.

(** ** Invariants *)

Definition key_of (t : txn) : string * string := (txn_tenant t, txn_key t).

Record wf (d : db) : Prop := {
  wf_accounts : NoDup (acc_tenant <$> accounts d);
  wf_lots : NoDup (lot_id <$> lots d);
  wf_txns : NoDup (txn_id <$> txns d);
  wf_keys : NoDup (key_of <$> txns d);
  wf_lot_account : ∀ l, l ∈ lots d → lot_tenant l ∈ acc_tenant <$> accounts d;
  wf_txn_account : ∀ t, t ∈ txns d → txn_tenant t ∈ acc_tenant <$> accounts d;
  wf_entry_lot : ∀ e, e ∈ entries d → (en_lot e, en_tenant e) ∈ (λ l, (lot_id l, lot_tenant l)) <$> lots d;
  wf_entry_txn : ∀ e, e ∈ entries d → (en_txn e, en_tenant e) ∈ (λ t, (txn_id t, txn_tenant t)) <$> txns d;
  wf_lot_ok : ∀ l, l ∈ lots d → lot_ok l;
  wf_overdraft : ∀ l k, l ∈ lots d → k ∈ lots d → lot_source l = "overdraft"%string →
    lot_source k = "overdraft"%string → lot_tenant l = lot_tenant k → lot_id l = lot_id k;
  wf_payment : ∀ l k, l ∈ lots d → k ∈ lots d → same_payment l k → lot_id l = lot_id k;
}.

(** [credits.verify] finds nothing, for any tenant. *)
Definition ledger_ok (d : db) : Prop :=
  ∀ l, l ∈ lots d → lot_remaining l = entries_sum d (lot_id l).

Definition inv (d : db) : Prop := wf d ∧ ledger_ok d.

(** A wallet that owes holds no live credit, at [now] or later. *)
Definition canonical (now : Z) (d : db) : Prop :=
  ∀ o l, o ∈ lots d → l ∈ lots d → lot_source o = "overdraft"%string → lot_remaining o < 0 →
    lot_tenant l = lot_tenant o → ¬ live (lot_tenant o) now l.

(** ** Tables that say the same about the wallet *)

Definition wallet_of (d : db) : list account * list lot * list txn * list entry :=
  (accounts d, lots d, txns d, entries d).

Record same_wallet (d d' : db) : Prop := SameWallet { same_tables : wallet_of d = wallet_of d' }.

#[export] Instance same_wallet_equiv : Equivalence same_wallet.
Proof.
  split; [by intros d|intros d d' [Hs]; by split|]. intros d1 d2 d3 [H1] [H2]. split. by rewrite H1.
Qed.

(** ** One booking *)

Abbreviation moves := (list (string * Z)).

(** What the moves do to the lot [id]. *)
Definition delta (ms : moves) (id : string) : Z := sumZ snd (filter (λ m, m.1 = id) ms).

Definition move_lot (tenant : string) (ms : moves) (l : lot) : lot :=
  if decide (lot_tenant l = tenant) then add_remaining (delta ms (lot_id l)) l else l.

Definition move_entry (now : Z) (tenant txn : string) (m : string * Z) : entry :=
  Entry txn tenant m.1 m.2 now.

Definition moved (now : Z) (tenant txn : string) (ms : moves) (d : db) : db :=
  Db (accounts d) (move_lot tenant ms <$> lots d) (txns d)
    (entries d ++ (move_entry now tenant txn <$> ms))
    (customers d) (products d) (inbox d) (usage_events d) (outbox d).

(** The tables after a transaction [x] that opens the lots [new] and moves [ms]. *)
Definition booked (now : Z) (x : txn) (new : list lot) (ms : moves) (d : db) : db :=
  moved now (txn_tenant x) (txn_id x) ms
    (set_lots (λ ls, ls ++ new) (set_txns (λ ts, ts ++ [x]) d)).

(** [sub tenant d ms]: every move is of a lot of [tenant]. *)
Definition moves_of (tenant : string) (d : db) (ms : moves) : Prop :=
  ∀ m, m ∈ ms → ∃ l, l ∈ lots d ∧ lot_id l = m.1 ∧ lot_tenant l = tenant.

(** What may still be consumed: the unexpired lots and the debt. *)
Definition counted (now : Z) (l : lot) : Prop :=
  unexpired now l ∨ lot_source l = "overdraft"%string.
#[export] Instance counted_dec n l : Decision (counted n l).
Proof. unfold counted. apply _. Defined.

Definition lots_sum (tenant : string) (P : lot → Prop) `{!∀ l, Decision (P l)} (d : db) : Z :=
  sumZ lot_remaining (filter P (lots_of tenant d)).

(** ** Facts about moves *)

Lemma delta_nil id : delta [] id = 0.
Proof. done. Qed.

Lemma delta_app ms ms' id : delta (ms ++ ms') id = delta ms id + delta ms' id.
Proof. unfold delta. by rewrite filter_app, sumZ_app. Qed.

Lemma delta_cons id a ms id' :
  delta ((id, a) :: ms) id' = (if decide (id = id') then a else 0) + delta ms id'.
Proof. unfold delta. rewrite filter_cons. simpl. case_decide; simpl; lia. Qed.

Lemma delta_notin ms id : id ∉ ms.*1 → delta ms id = 0.
Proof.
  intros Hn. unfold delta. rewrite filter_none; [done|].
  intros m Hm <-. apply Hn. by apply list_elem_of_fmap_2.
Qed.

Lemma delta_in ms id a : NoDup ms.*1 → (id, a) ∈ ms → delta ms id = a.
Proof.
  intros Hnd Hin. unfold delta. rewrite (filter_key fst ms (id, a) Hnd Hin). simpl. lia.
Qed.

Lemma move_lot_static t ms l :
  lot_id (move_lot t ms l) = lot_id l ∧ lot_tenant (move_lot t ms l) = lot_tenant l ∧
  lot_source (move_lot t ms l) = lot_source l ∧ lot_provider (move_lot t ms l) = lot_provider l ∧
  lot_external_ref (move_lot t ms l) = lot_external_ref l ∧
  lot_granted (move_lot t ms l) = lot_granted l ∧
  lot_expires_at (move_lot t ms l) = lot_expires_at l ∧
  lot_created_at (move_lot t ms l) = lot_created_at l ∧
  lot_created_by (move_lot t ms l) = lot_created_by l.
Proof. unfold move_lot. by case_decide. Qed.

Lemma move_lot_id t ms l : lot_id (move_lot t ms l) = lot_id l.
Proof. apply move_lot_static. Qed.
Lemma move_lot_tenant t ms l : lot_tenant (move_lot t ms l) = lot_tenant l.
Proof. apply move_lot_static. Qed.
Lemma move_lot_source t ms l : lot_source (move_lot t ms l) = lot_source l.
Proof. apply move_lot_static. Qed.
Lemma move_lot_expires t ms l : lot_expires_at (move_lot t ms l) = lot_expires_at l.
Proof. apply move_lot_static. Qed.

Lemma move_lot_remaining t ms l :
  lot_tenant l = t → lot_remaining (move_lot t ms l) = lot_remaining l + delta ms (lot_id l).
Proof. intros H. unfold move_lot. by rewrite decide_True. Qed.

Lemma move_lot_other t ms l : lot_tenant l ≠ t → move_lot t ms l = l.
Proof. intros H. unfold move_lot. by rewrite decide_False. Qed.

Lemma move_lot_nil t l : move_lot t [] l = l.
Proof.
  unfold move_lot. case_decide; [|done]. rewrite delta_nil. destruct l. unfold add_remaining.
  simpl. f_equal. lia.
Qed.

Lemma move_lot_app t ms ms' l :
  move_lot t ms' (move_lot t ms l) = move_lot t (ms ++ ms') l.
Proof.
  unfold move_lot. destruct (decide (lot_tenant l = t)) as [He|He].
  - rewrite decide_True by done. rewrite delta_app. unfold add_remaining. simpl. f_equal. lia.
  - by rewrite decide_False.
Qed.

Create Rewrite HintDb moves.
#[export] Hint Rewrite move_lot_id move_lot_tenant move_lot_source move_lot_expires : moves.

Lemma moved_nil now t x d : moved now t x [] d = d.
Proof.
  destruct d. unfold moved. simpl. rewrite app_nil_r. f_equal.
  rewrite <-(list_fmap_id lots) at 2. apply list_fmap_ext. intros i l _. apply move_lot_nil.
Qed.

Lemma moved_app now t x ms ms' d :
  moved now t x ms' (moved now t x ms d) = moved now t x (ms ++ ms') d.
Proof.
  unfold moved. simpl. rewrite fmap_app, app_assoc. f_equal.
  rewrite <-list_fmap_compose. apply list_fmap_ext. intros i l _. apply move_lot_app.
Qed.

(** Opening a lot after moves of other lots is opening it before them. *)
Lemma moved_set_lots now t x ms l d :
  lot_id l ∉ ms.*1 →
  set_lots (λ ls, ls ++ [l]) (moved now t x ms d) = moved now t x ms (set_lots (λ ls, ls ++ [l]) d).
Proof.
  intros Hl. unfold moved, set_lots. simpl. f_equal. rewrite fmap_app. simpl. do 2 f_equal.
  unfold move_lot. case_decide; [|done]. rewrite delta_notin by done.
  destruct l. unfold add_remaining. simpl. f_equal. lia.
Qed.

Lemma elem_of_booked_lots now x new ms d l :
  l ∈ lots (booked now x new ms d) ↔
  ∃ k, (k ∈ lots d ∨ k ∈ new) ∧ l = move_lot (txn_tenant x) ms k.
Proof.
  unfold booked, moved, set_lots. simpl. rewrite list_elem_of_fmap.
  setoid_rewrite elem_of_app. split; intros (k & ? & ?); eauto.
Qed.

(** ** What a booking does to sums *)

(** A property of a lot that its balance does not enter. *)
Class Static (P : lot → Prop) : Prop :=
  static : ∀ t ms l, P (move_lot t ms l) ↔ P l.

#[export] Instance static_unexpired now : Static (unexpired now).
Proof. intros t ms l. unfold unexpired. by rewrite move_lot_source, move_lot_expires. Qed.
#[export] Instance static_source s : Static (λ l, lot_source l = s).
Proof. intros t ms l. by rewrite move_lot_source. Qed.
#[export] Instance static_counted now : Static (counted now).
Proof. intros t ms l. unfold counted. rewrite static, move_lot_source. done. Qed.
#[export] Instance static_True : Static (λ _, True).
Proof. done. Qed.

(** The moves of a list that touch the lots with [P]. *)
Definition moves_sum (P : lot → Prop) `{!∀ l, Decision (P l)} (ls : list lot) (ms : moves) : Z :=
  sumZ snd (filter (λ m, Exists (λ l, P l ∧ lot_id l = m.1) ls) ms).

Lemma moves_sum_delta (P : lot → Prop) `{!∀ l, Decision (P l)} ls ms :
  NoDup (lot_id <$> ls) →
  sumZ (λ l, delta ms (lot_id l)) (filter P ls) = moves_sum P ls ms.
Proof.
  intros Hnd. unfold moves_sum. induction ms as [|[id a] ms IH].
  { simpl. apply sumZ_zero. intros. apply delta_nil. }
  rewrite (sumZ_ext _ (λ l, (if decide (id = lot_id l) then a else 0) + delta ms (lot_id l)))
    by (intros; apply delta_cons).
  rewrite sumZ_add, IH, filter_cons. clear IH. simpl.
  assert (Hs : sumZ (λ l, if decide (id = lot_id l) then a else 0) (filter P ls) =
    if decide (Exists (λ l, P l ∧ lot_id l = id) ls) then a else 0); [|rewrite Hs; case_decide; simpl; lia].
  case_decide as He.
  - apply Exists_exists in He as (l & Hl & HP & <-).
    rewrite <-(sumZ_filter (λ _, a) (λ k, lot_id l = lot_id k)).
    rewrite (list_filter_iff _ (λ k, lot_id k = lot_id l)) by (intros; split; congruence).
    rewrite (filter_key lot_id _ l); [simpl; lia|by apply NoDup_fmap_filter|].
    by apply list_elem_of_filter.
  - apply sumZ_zero. intros l [HP Hl]%list_elem_of_filter. rewrite decide_False; [done|].
    intros ->. apply He. apply Exists_exists. eauto.
Qed.

(** The tenant's sum over lots with [P], after a booking: the new lots count with
    what they open with, the moves with their amounts. *)
Lemma lots_sum_booked (P : lot → Prop) `{!∀ l, Decision (P l)} `{!Static P} now x new ms d :
  NoDup (lot_id <$> lots d ++ new) →
  (∀ l, l ∈ new → lot_tenant l = txn_tenant x ∧ lot_remaining l = 0) →
  lots_sum (txn_tenant x) P (booked now x new ms d) =
  lots_sum (txn_tenant x) P d + moves_sum P (filter (λ l, lot_tenant l = txn_tenant x) (lots d ++ new)) ms.
Proof.
  intros Hnd Hnew. unfold lots_sum, lots_of, booked, moved, set_lots. simpl.
  set (t := txn_tenant x) in *. set (ls := lots d ++ new) in *.
  rewrite <-moves_sum_delta by by apply NoDup_fmap_filter.
  rewrite !list_filter_filter.
  transitivity (sumZ lot_remaining (filter (λ l, P l ∧ lot_tenant l = t) ls) +
    sumZ (λ l, delta ms (lot_id l)) (filter (λ l, P l ∧ lot_tenant l = t) ls)).
  - rewrite <-sumZ_add, !sumZ_filter, sumZ_map. apply sumZ_ext. intros l _. simpl.
    assert (P (move_lot t ms l) ∧ lot_tenant (move_lot t ms l) = t ↔ P l ∧ lot_tenant l = t) as Hiff
      by (by rewrite static, move_lot_tenant).
    destruct (decide (P l ∧ lot_tenant l = t)) as [Hd|Hd].
    + rewrite decide_True by by apply Hiff. apply move_lot_remaining. tauto.
    + rewrite decide_False by by rewrite Hiff. done.
  - f_equal. unfold ls. rewrite filter_app, sumZ_app.
    rewrite (sumZ_zero _ (filter _ new)); [lia|].
    intros l [_ Hl]%list_elem_of_filter. by apply Hnew.
Qed.

(** Another tenant's lots do not change. *)
Lemma booked_other_lots now x new ms d t :
  t ≠ txn_tenant x → (∀ l, l ∈ new → lot_tenant l = txn_tenant x) →
  lots_of t (booked now x new ms d) = lots_of t d.
Proof.
  intros Ht Hnew. unfold lots_of, booked, moved, set_lots. simpl. rewrite fmap_app, filter_app.
  rewrite (filter_none _ (_ <$> new)), app_nil_r.
  2: { intros l (k & -> & Hk)%list_elem_of_fmap. rewrite move_lot_tenant, Hnew by done. done. }
  induction (lots d) as [|l ls IH]; [done|]. cbn [fmap list_fmap]. rewrite !filter_cons, IH.
  rewrite move_lot_tenant. case_decide; [|done]. by rewrite move_lot_other by congruence.
Qed.

Lemma booked_accounts now x new ms d : accounts (booked now x new ms d) = accounts d.
Proof. done. Qed.

(** ** A booking keeps the ledger *)

Lemma ledger_booked now x new ms d :
  wf d → ledger_ok d →
  NoDup (lot_id <$> lots d ++ new) →
  (∀ l, l ∈ new → lot_tenant l = txn_tenant x ∧ lot_remaining l = 0) →
  (∀ m, m ∈ ms → ∃ l, l ∈ lots d ++ new ∧ lot_id l = m.1 ∧ lot_tenant l = txn_tenant x) →
  ledger_ok (booked now x new ms d).
Proof.
  intros Hwf Hok Hnd Hnew Hms l (k & Hk & ->)%elem_of_booked_lots. rewrite move_lot_id.
  assert (Hsum : entries_sum (booked now x new ms d) (lot_id k) =
    entries_sum d (lot_id k) + delta ms (lot_id k)).
  { unfold entries_sum, booked, moved, set_lots. simpl. rewrite filter_app, sumZ_app. f_equal.
    unfold delta. rewrite !sumZ_filter, sumZ_map. apply sumZ_ext. done. }
  assert (Hold : lot_remaining k = entries_sum d (lot_id k)).
  { destruct Hk as [Hk|Hk]; [by apply Hok|]. rewrite (proj2 (Hnew k Hk)).
    unfold entries_sum. rewrite filter_none; [done|]. intros e He Hl.
    pose proof (wf_entry_lot d Hwf e He) as (k' & Hk' & Hin)%list_elem_of_fmap. simplify_eq.
    rewrite fmap_app in Hnd. apply NoDup_app in Hnd as (_ & Hnd & _).
    apply (Hnd (lot_id k)); [|by apply list_elem_of_fmap_2].
    rewrite <-Hl, H. by apply list_elem_of_fmap_2. }
  rewrite Hsum, <-Hold. destruct (decide (lot_tenant k = txn_tenant x)) as [He|He].
  - by apply move_lot_remaining.
  - rewrite move_lot_other by done. rewrite delta_notin; [lia|].
    intros (m & Hm & Hin)%list_elem_of_fmap. destruct (Hms m Hin) as (k' & Hk' & Hid & Ht).
    apply He. rewrite <-Ht. f_equal. eapply (key_inj lot_id); [done| |done|congruence].
    by apply elem_of_app.
Qed.
