(* ===== verification/WalletFacts.v ===== *)
(** The wallet's coroutines keep its tables well formed, and each of them performs exactly one
    booking of [WalletSpec] or writes nothing. *)
From S2P Require Import Prelude Decimals Calendar Db Wallet WalletSpec.

Local Open Scope Z_scope.
Local Open Scope py_scope.

(** ** Statements *)

Lemma check_Ok b x (v : ()) : check b x = Ok v ↔ b = true.
Proof. destruct b; simpl; [by destruct v|]. split; done. Qed.

(** [inv_ok] splits a chain of [let!] that returned [Ok]. *)
Ltac inv_ok :=
  repeat match goal with
  | H : rbind _ _ = Ok _ |- _ => apply rbind_Ok in H; destruct H as (? & ? & H)
  | H : check _ _ = Ok _ |- _ => apply check_Ok in H
  | H : bool_decide _ = true |- _ => apply bool_decide_eq_true in H
  | H : bool_decide _ = false |- _ => apply bool_decide_eq_false in H
  | H : Forall _ _ |- _ => rewrite Forall_forall in H
  | H : Exists _ _ |- _ => rewrite Exists_exists in H
  | H : Ok _ = Ok _ |- _ => injection H as H
  | H : Err _ = Ok _ |- _ => discriminate H
  | H : (if ?b then _ else _) = Ok _ |- _ => destruct b eqn:?
  end; simplify_eq.

Ltac destruct_ex :=
  repeat match goal with H : ∃ _, _ |- _ => destruct H | H : _ ∧ _ |- _ => destruct H end.

(** *** Opening an account *)

Definition open_account (now : Z) (tenant actor : string) (d : db) : db :=
  if bool_decide (Exists (λ a, acc_tenant a = tenant) (accounts d)) then d
  else set_accounts (λ l, l ++ [Account tenant now actor]) d.

Lemma has_account_elem tenant d :
  Exists (λ a, acc_tenant a = tenant) (accounts d) ↔ tenant ∈ acc_tenant <$> accounts d.
Proof. rewrite Exists_exists, list_elem_of_fmap. split; intros (a & ? & ?); exists a; auto. Qed.

Lemma wf_open_account now tenant actor d : wf d → wf (open_account now tenant actor d).
Proof.
  intros Hwf. unfold open_account. case_bool_decide as Hn; [done|].
  rewrite has_account_elem in Hn. destruct Hwf as [Wacc Wlots Wtxns Wkeys Wla Wta Wel Wet Wok Wov Wpay]. split; try done; simpl.
  - apply NoDup_fmap_app_one; [done|]. intros a Ha Heq. apply Hn. simpl in Heq. rewrite <-Heq.
    by apply list_elem_of_fmap_2.
  - intros l Hl. rewrite fmap_app, elem_of_app. left. by apply Wla.
  - intros l Hl. rewrite fmap_app, elem_of_app. left. by apply Wta.
Qed.

Lemma open_account_frame now tenant actor d :
  lots (open_account now tenant actor d) = lots d ∧ txns (open_account now tenant actor d) = txns d ∧
  entries (open_account now tenant actor d) = entries d.
Proof. unfold open_account. by case_bool_decide. Qed.

Lemma ledger_open_account now tenant actor d :
  ledger_ok d → ledger_ok (open_account now tenant actor d).
Proof.
  unfold ledger_ok, entries_sum. by destruct (open_account_frame now tenant actor d) as (-> & _ & ->).
Qed.

(** *** A transaction row *)

Lemma wf_add_txn t d :
  wf d → (∀ k, k ∈ txns d → txn_id k ≠ txn_id t) → (∀ k, k ∈ txns d → key_of k ≠ key_of t) →
  txn_tenant t ∈ acc_tenant <$> accounts d → wf (set_txns (λ l, l ++ [t]) d).
Proof.
  intros Hwf Hid Hkey Hacc. destruct Hwf as [Wacc Wlots Wtxns Wkeys Wla Wta Wel Wet Wok Wov Wpay]. split; try done; simpl.
  - by apply NoDup_fmap_app_one.
  - by apply NoDup_fmap_app_one.
  - intros k [Hk| ->%list_elem_of_singleton]%elem_of_app; [by apply Wta|done].
  - intros e He. rewrite fmap_app, elem_of_app. left. by apply Wet.
Qed.

(** *** A lot row *)

Lemma insert_lot_row_Ok l d d' :
  insert_lot_row l d = Ok d' →
  d' = set_lots (λ ls, ls ++ [l]) d ∧ lot_ok l ∧
  (∀ k, k ∈ lots d → lot_id k ≠ lot_id l) ∧
  (∀ k, k ∈ lots d → ¬ (lot_source l = "overdraft"%string ∧ lot_source k = "overdraft"%string ∧
     lot_tenant k = lot_tenant l)) ∧
  (∀ k, k ∈ lots d → ¬ same_payment l k) ∧ lot_tenant l ∈ acc_tenant <$> accounts d.
Proof.
  unfold insert_lot_row. intros H. inv_ok. split_and!; auto.
  apply has_account_elem, Exists_exists. eauto.
Qed.

Lemma same_payment_sym l k : same_payment l k → same_payment k l.
Proof. unfold same_payment. intros (? & ? & ? & Hp & ? & ?). rewrite <-Hp. by split_and!. Qed.

Lemma wf_insert_lot_row l d d' : insert_lot_row l d = Ok d' → wf d → wf d'.
Proof.
  intros (-> & Hok & Hid & Ho & Hp & Hacc)%insert_lot_row_Ok Hwf. destruct Hwf as [Wacc Wlots Wtxns Wkeys Wla Wta Wel Wet Wok Wov Wpay]. split; try done; simpl.
  - by apply NoDup_fmap_app_one.
  - intros k [Hk| ->%list_elem_of_singleton]%elem_of_app; [by apply Wla|done].
  - intros e He. rewrite fmap_app, elem_of_app. left. by apply Wel.
  - intros k [Hk| ->%list_elem_of_singleton]%elem_of_app; [by apply Wok|done].
  - intros k k' [Hk| ->%list_elem_of_singleton]%elem_of_app
      [Hk'| ->%list_elem_of_singleton]%elem_of_app Hs Hs' Ht; try done; [by apply Wov| |];
      exfalso; [apply (Ho k)|apply (Ho k')]; done.
  - intros k k' [Hk| ->%list_elem_of_singleton]%elem_of_app
      [Hk'| ->%list_elem_of_singleton]%elem_of_app Hs; try done; [by apply Wpay| |];
      exfalso; [apply (Hp k)|apply (Hp k')]; try done. by apply same_payment_sym.
Qed.

(** *** Moves *)

Lemma wf_add_entry now t x id a d :
  wf d → (id, t) ∈ (λ l, (lot_id l, lot_tenant l)) <$> lots d →
  (x, t) ∈ (λ k, (txn_id k, txn_tenant k)) <$> txns d →
  wf (set_entries (λ l, l ++ [Entry x t id a now]) d).
Proof.
  intros Hwf Hl Hx. destruct Hwf as [Wacc Wlots Wtxns Wkeys Wla Wta Wel Wet Wok Wov Wpay]. split; try done; simpl;
  intros e [He| ->%list_elem_of_singleton]%elem_of_app; auto.
Qed.

Lemma wf_map_lots f d :
  (∀ l, lot_id (f l) = lot_id l ∧ lot_tenant (f l) = lot_tenant l ∧ lot_source (f l) = lot_source l ∧
    lot_provider (f l) = lot_provider l ∧ lot_external_ref (f l) = lot_external_ref l) →
  (∀ l, l ∈ lots d → lot_ok (f l)) →
  wf d → wf (set_lots (fmap f) d).
Proof.
  intros Hf Hok Hwf. destruct Hwf as [Wacc Wlots Wtxns Wkeys Wla Wta Wel Wet Wok Wov Wpay]. split; try done; simpl.
  - rewrite <-list_fmap_compose, (list_fmap_ext _ lot_id); [done|]. intros i l _. apply Hf.
  - intros l (k & -> & Hk)%list_elem_of_fmap. destruct (Hf k) as (_ & -> & _). auto.
  - intros e He. rewrite <-list_fmap_compose, (list_fmap_ext _ (λ l, (lot_id l, lot_tenant l))); [auto|].
    intros i l _. simpl. by destruct (Hf l) as (-> & -> & _).
  - intros l (k & -> & Hk)%list_elem_of_fmap. auto.
  - intros l l' (k & -> & Hk)%list_elem_of_fmap (k' & -> & Hk')%list_elem_of_fmap.
    destruct (Hf k) as (-> & -> & -> & _), (Hf k') as (-> & -> & -> & _). auto.
  - intros l l' (k & -> & Hk)%list_elem_of_fmap (k' & -> & Hk')%list_elem_of_fmap.
    unfold same_payment, is_payment_grant.
    destruct (Hf k) as (-> & -> & -> & -> & ->), (Hf k') as (-> & -> & -> & -> & ->). auto.
Qed.

(** ** Every statement keeps the tables well formed *)

Lemma preserves_wf_insert_account tenant actor : preserves wf (insert_account tenant actor).
Proof.
  apply preserves_stmt. intros now u d a d' Hwf H. inv_ok.
  by apply (wf_open_account now tenant actor).
Qed.

Lemma insert_txn_row_Ok tenant kind key ue pr reason actor req now u d r d' :
  insert_txn_row tenant kind key ue pr reason actor req now u d = Ok (r, d') →
  (r = None ∧ d' = d ∧ ∃ t, t ∈ txns d ∧ key_of t = (tenant, key)) ∨
  (∃ t, r = Some (txn_id t) ∧ d' = set_txns (λ l, l ++ [t]) d ∧ key_of t = (tenant, key) ∧
    txn_kind t = kind ∧ txn_request t = Some req ∧ txn_usage_event_id t = ue ∧ txn_created_at t = now ∧
    (∀ k, k ∈ txns d → txn_id k ≠ txn_id t) ∧ (∀ k, k ∈ txns d → key_of k ≠ key_of t) ∧
    tenant ∈ acc_tenant <$> accounts d).
Proof.
  unfold insert_txn_row. intros H. inv_ok.
  - left. split_and!; [done..|]. destruct Heqb as (t & Ht & <- & <-). by exists t.
  - right. exists (Txn u tenant kind key ue x x0 x1 reason actor now (Some req)).
    split_and!; [done..|auto| |].
    + intros k Hk Heq. apply Heqb. apply Exists_exists. exists k. split; [done|].
      unfold key_of in Heq. simpl in Heq. by injection Heq.
    + apply has_account_elem, Exists_exists. eauto.
Qed.

Lemma preserves_wf_insert_txn tenant kind key ue pr reason actor req :
  preserves wf (insert_txn tenant kind key ue pr reason actor req).
Proof.
  apply preserves_stmt. intros now u d a d' Hwf H. apply insert_txn_row_Ok in H.
  destruct H as [(_ & -> & _)|(t & _ & -> & Hk & _ & _ & _ & _ & Hid & Hkey & Hacc)]; [done|].
  apply wf_add_txn; try done. unfold key_of in Hk. by injection Hk as -> _.
Qed.

Lemma preserves_wf_insert_entry tenant x id a : preserves wf (insert_entry tenant x id a).
Proof.
  apply preserves_stmt. intros now u d r d' Hwf H. inv_ok.
  destruct_ex. subst. apply wf_add_entry; [done| |]; apply list_elem_of_fmap; eexists; (split; [|done]); simpl; congruence.
Qed.

Lemma update_where_is_map t id a (ls : list lot) :
  update_where (λ l, lot_id l = id ∧ lot_tenant l = t) (add_remaining a) ls =
  move_lot t [(id, a)] <$> ls.
Proof.
  apply list_fmap_ext. intros i l _. unfold move_lot. case_decide as H.
  - destruct H as [<- <-]. rewrite decide_True, delta_cons, decide_True, delta_nil by done.
    f_equal. lia.
  - case_decide as Ht; [|done]. rewrite delta_cons, decide_False, delta_nil; [|naive_solver].
    destruct l. unfold add_remaining. simpl. f_equal. lia.
Qed.

Lemma preserves_wf_update_remaining tenant id a : preserves wf (update_remaining tenant id a).
Proof.
  apply preserves_stmt. intros now u d r d' Hwf H. unfold set_lots in H. simpl in H.
  rewrite !update_where_is_map in H. inv_ok.
  apply (wf_map_lots (move_lot tenant [(id, a)]) d); [|intros l Hl|done].
  - intros l. split_and!; apply move_lot_static.
  - match goal with H : ∀ x, x ∈ _ → lot_ok x |- _ => apply H end. by apply list_elem_of_fmap_2.
Qed.

Lemma preserves_wf_insert_lot tenant source provider ref granted expires actor :
  preserves wf (insert_lot tenant source provider ref granted expires actor).
Proof. apply preserves_stmt. intros now u d r d' Hwf H. inv_ok. by eapply wf_insert_lot_row. Qed.

Lemma preserves_wf_insert_overdraft tenant : preserves wf (insert_overdraft tenant).
Proof.
  apply preserves_stmt. intros now u d r d' Hwf H. inv_ok; [done|]. by eapply wf_insert_lot_row.
Qed.

#[export] Hint Resolve preserves_wf_insert_account preserves_wf_insert_txn preserves_wf_insert_entry
  preserves_wf_update_remaining preserves_wf_insert_lot preserves_wf_insert_overdraft : inv.

(** ** Every operation keeps the tables well formed, however it ends *)

Lemma preserves_wf_begin tenant kind key actor reason req fields ue pr :
  preserves wf (_begin_transaction tenant kind key actor reason req fields ue pr).
Proof. unfold _begin_transaction, select_txn. pres. Qed.

Lemma preserves_wf_move tenant x id a : preserves wf (_move tenant x id a).
Proof. unfold _move. pres. Qed.

Lemma preserves_wf_overdraft tenant create : preserves wf (_overdraft_lot tenant create).
Proof. unfold _overdraft_lot, select_overdraft. pres. Qed.

#[export] Hint Resolve preserves_wf_begin preserves_wf_move preserves_wf_overdraft : inv.

Lemma preserves_wf_grant tenant amount source key actor reason expires_at provider ref compare :
  preserves wf (grant_in tenant amount source key actor reason expires_at provider ref compare).
Proof. unfold grant_in, _lock. pres. Qed.

Lemma preserves_wf_debit tenant amount key ue actor reason kind pr compare :
  preserves wf (debit_in tenant amount key ue actor reason kind pr compare).
Proof. unfold debit_in, _lock, has_account, select_live. pres. Qed.

#[export] Hint Resolve preserves_wf_grant preserves_wf_debit : inv.

Lemma preserves_wf_adjust tenant amount key actor reason expires_at compare :
  preserves wf (adjust_in tenant amount key actor reason expires_at compare).
Proof. unfold adjust_in. pres. Qed.

Lemma preserves_wf_expire_lot tenant id : preserves wf (_expire_lot_in tenant id).
Proof. unfold _expire_lot_in, _lock, select_due_remaining. pres. Qed.

#[export] Hint Resolve preserves_wf_adjust preserves_wf_expire_lot : inv.

(** ** Allocation *)

Lemma plan_go_spec (lots : list (string * Z)) need :
  0 ≤ need → (∀ m, m ∈ lots → 0 < m.2) →
  let '(takes, rest) := plan_go lots need in
  sumZ snd takes + rest = need ∧ 0 ≤ rest ∧ (0 < rest → takes = lots) ∧
  (∀ m, m ∈ takes → 0 < m.2) ∧
  Forall2 (λ a b, a.1 = b.1 ∧ a.2 ≤ b.2) takes (take (length takes) lots) ∧
  (∀ i, (S i < length takes)%nat → takes !! i = lots !! i).
Proof.
  revert need. induction lots as [|[id r] lots IH]; intros need Hn Hpos; simpl.
  { split_and!; [lia..|done|set_solver|constructor|]. intros i Hi. simpl in Hi. lia. }
  destruct (Z.leb_spec need 0).
  { simpl. split_and!; [lia..|set_solver|constructor|]. intros i Hi. simpl in Hi. lia. }
  assert (Hr : 0 < r) by (apply (Hpos (id, r)); left).
  rewrite (proj2 (Z.leb_gt _ _)) by done.
  specialize (IH (need - Z.min r need) ltac:(lia)).
  destruct (plan_go lots (need - Z.min r need)) as [takes rest].
  destruct IH as (Hs & H0 & Hall & Hp & HF & Hi); [intros; apply Hpos; by right|].
  assert (0 ≤ sumZ snd takes) by (apply sumZ_nonneg; intros; by apply Z.lt_le_incl, Hp).
  simpl. split_and!; [lia..| | |constructor; [simpl; split; [done|lia]|done]|].
  - intros Hrest. rewrite Hall by done. do 2 f_equal. lia.
  - intros m [->|Hm]%elem_of_cons; [simpl; lia|by apply Hp].
  - intros [|i] Hlen; simpl in *; [|apply Hi; lia].
    destruct takes as [|[id' a'] takes]; simpl in *; [lia|].
    destruct lots as [|[id'' r''] lots]; simpl in *; [by inversion HF|].
    clear HF.
    assert (0 < a') by (apply (Hp (id', a')); left).
    assert (0 ≤ sumZ snd takes) by (apply sumZ_nonneg; intros; apply Z.lt_le_incl, Hp; by right).
    do 2 f_equal. lia.
Qed.

(** ** The steps of a booking, as triples *)

(** Why an operation may raise although nothing is wrong with the request. *)
Inductive infra (e : env) : exn → Prop :=
| infra_fault x : faulty e x → infra e x
| infra_txn_id : infra e (UniqueViolation "credit_transactions_pkey")
| infra_lot_id : infra e (UniqueViolation "credit_lots_pkey")
| infra_range : infra e NumericValueOutOfRange.

(** A request the wallet refuses, whatever the state of the machine. *)
Definition refusal (x : exn) : Prop :=
  match x with
  | ValueError _ | DecimalSignal _ | IdempotencyConflict _ _ _ => True
  | _ => False
  end.

(** A raised operation was refused with nothing written, or broke down. *)
Definition failed (e : env) (d0 : db) (x : exn) (d : db) : Prop :=
  infra e x ∨ refusal x ∧ d = d0.

Section triples.
Context (e : env).
Let now : Z := e_now e.

Lemma bind_wf {A B} d (m : M A) (k : A → M B) R Q E :
  wf d → preserves wf m → triple e (eq d) m R E →
  (∀ a d', R a d' → wf d' → triple e (eq d') (k a) Q E) →
  triple e (eq d) (m ≫= k) Q E.
Proof.
  intros Hwf Hp Hm Hk. eapply triple_bind.
  - eapply triple_conseq; [apply (triple_and e (eq d) wf _ _ _ _ _ Hm (Hp e))| | |].
    + by intros ? <-.
    + intros a d' H. exact H.
    + by intros x d' [? _].
  - intros a. apply triple_pure. intros d' [? ?]. by apply Hk.
Qed.

Lemma move_lot_one t id a l :
  lot_tenant l = t → lot_id l = id → move_lot t [(id, a)] l = add_remaining a l.
Proof.
  intros Ht Hi. unfold move_lot. rewrite decide_True by done.
  rewrite delta_cons, decide_True, delta_nil by done. f_equal. lia.
Qed.

(** Every other lot passes its checks already. *)
Lemma move_one_ok d t id a l :
  wf d → l ∈ lots d → lot_id l = id → lot_tenant l = t → lot_ok (add_remaining a l) →
  ∀ k, k ∈ move_lot t [(id, a)] <$> lots d → lot_ok k.
Proof.
  intros Hwf Hl <- <- Hok k (k' & -> & Hk)%list_elem_of_fmap.
  destruct (decide (lot_id k' = lot_id l)) as [He|He].
  - assert (k' = l) as -> by by apply (key_inj lot_id _ _ _ (wf_lots d Hwf)).
    by rewrite move_lot_one.
  - pose proof (wf_lot_ok d Hwf k' Hk). unfold move_lot. case_decide; [|done].
    rewrite delta_cons, decide_False, delta_nil by done. unfold add_remaining, lot_ok in *.
    simpl. rewrite Z.add_0_r. done.
Qed.

Lemma triple_move d x t l a :
  wf d → x ∈ txns d → txn_tenant x = t → l ∈ lots d → lot_tenant l = t → a ≠ 0 →
  lot_ok (add_remaining a l) →
  triple e (eq d) (_move t (txn_id x) (lot_id l) a)
    (λ _ d', d' = moved now t (txn_id x) [(lot_id l, a)] d) (λ x _, infra e x).
Proof.
  intros Hwf Hx Htx Hl Htl Ha Hok. unfold _move, insert_entry, update_remaining.
  eapply triple_bind.
  - apply (triple_stmt e _ _ (λ _ d', d' = set_entries (λ l', l' ++ [Entry (txn_id x) t (lot_id l) a now]) d)).
    { intros ? y ? ?. by constructor. }
    intros ? u <-. unfold numeric18_6. destruct (_ <? _); [|apply infra_range]. cbn [rbind].
    rewrite (proj2 (Z.eqb_neq a 0)) by done. simpl.
    rewrite bool_decide_true by (apply Exists_exists; eauto). simpl.
    rewrite bool_decide_true by (apply Exists_exists; eauto). done.
  - intros []. apply triple_stmt.
    { intros ? y ? ?. by constructor. }
    intros d' u Hd'. subst d'. unfold set_entries, set_lots. simpl. rewrite !update_where_is_map.
    case_bool_decide; [|apply infra_range]. simpl.
    rewrite bool_decide_true; [done|]. apply Forall_forall. by eapply move_one_ok.
Qed.

Lemma insert_lot_row_Err l d x :
  insert_lot_row l d = Err x → lot_ok l → lot_tenant l ∈ acc_tenant <$> accounts d →
  (∀ k, k ∈ lots d → ¬ (lot_source l = "overdraft"%string ∧ lot_source k = "overdraft"%string ∧
     lot_tenant k = lot_tenant l)) →
  infra e x ∨ x = UniqueViolation "credit_lots_one_grant_per_payment_idx" ∧
    Exists (same_payment l) (lots d).
Proof.
  intros H Hok Hacc Ho. unfold insert_lot_row in H.
  case_bool_decide; simpl in H; [|simplify_eq; left; apply infra_range].
  rewrite bool_decide_true in H by done. simpl in H.
  case_bool_decide; simpl in H; [|simplify_eq; left; apply infra_lot_id].
  rewrite bool_decide_true in H by by apply Forall_forall. simpl in H.
  case_bool_decide as Hp; simpl in H.
  - rewrite bool_decide_true in H by by apply has_account_elem. done.
  - simplify_eq. right. split; [done|]. apply not_Forall_Exists in Hp; [|apply _].
    eapply Exists_impl; [exact Hp|]. intros k Hk. simpl in Hk. by apply dec_stable.
Qed.

(** The overdraft lot a wallet ends up with: its own, or a new empty one. *)
Definition overdraft_of (t : string) (d : db) (o : lot) (new : list lot) : Prop :=
  is_overdraft_of t o ∧
  (o ∈ lots d ∧ new = [] ∨
   new = [o] ∧ lot_remaining o = 0 ∧ (∀ k, k ∈ lots d → lot_id k ≠ lot_id o) ∧
   (∀ k, k ∈ lots d → ¬ is_overdraft_of t k)).

Lemma head_overdraft t d o :
  wf d → o ∈ lots d → is_overdraft_of t o → head (filter (is_overdraft_of t) (lots d)) = Some o.
Proof.
  intros Hwf Ho Hov. destruct (head (filter _ _)) as [k|] eqn:Hh.
  - apply head_filter_Some in Hh as [Hk Hkov]. f_equal.
    apply (key_inj lot_id _ _ _ (wf_lots d Hwf) Hk Ho).
    destruct Hov, Hkov. apply (wf_overdraft d Hwf); congruence.
  - rewrite head_filter_None in Hh. by destruct (Hh o).
Qed.

Lemma triple_overdraft d t :
  wf d → t ∈ acc_tenant <$> accounts d →
  triple e (eq d) (_overdraft_lot t true)
    (λ r d', ∃ o new, overdraft_of t d o new ∧ d' = set_lots (λ ls, ls ++ new) d ∧
       r = Some (lot_id o, lot_remaining o))
    (λ x _, infra e x).
Proof.
  intros Hwf Ht. unfold _overdraft_lot, insert_overdraft, select_overdraft.
  apply (bind_wf d _ _ (λ _ d', ∃ o new, overdraft_of t d o new ∧ d' = set_lots (λ ls, ls ++ new) d ∧ o ∈ lots d'));
    [done|apply (preserves_wf_insert_overdraft t)| |].
  - apply triple_stmt; [intros; by constructor|]. intros ? u <-.
    case_bool_decide as Hex.
    + apply Exists_exists in Hex as (o & Ho & Hov). exists o, []. split; [split; [done|by left]|].
      destruct d. unfold set_lots. simpl. by rewrite app_nil_r.
    + set (o := Lot u t _ _ _ _ _ _ _ _).
      assert (Hno : ∀ k, k ∈ lots d → ¬ is_overdraft_of t k).
      { intros k Hk Hov. apply Hex. apply Exists_exists. eauto. }
      destruct (insert_lot_row o d) as [d'|x] eqn:Hi; simpl.
      * apply insert_lot_row_Ok in Hi as (-> & _ & Hid & _). exists o, [o].
        split; [|split; [done|apply elem_of_app; right; left]]. split; [done|]. right. done.
      * apply insert_lot_row_Err in Hi; [|apply (bool_decide_unpack (lot_ok o)); vm_compute; done|done|].
        -- destruct Hi as [|[_ Hi]]; [done|]. apply Exists_exists in Hi as (k & _ & [Hg _] & _).
           simpl in Hg. by repeat (apply elem_of_cons in Hg as [Hg|Hg]; [done|]); apply not_elem_of_nil in Hg.
        -- intros k Hk (_ & ? & ?). by apply (Hno k).
  - intros [] d' (o & new & Ho & -> & Hin) Hwf'. apply triple_query; [intros; by constructor|].
    intros ? <-. rewrite (head_overdraft t _ o); [|done|done|apply Ho]. simpl. eauto.
Qed.
End triples.

(** ** The transaction row *)

(** The row a new transaction gets. *)
Definition txn_for (tenant kind key : string) (ue : option string) (req : request) (now : Z)
    (d : db) (t : txn) : Prop :=
  key_of t = (tenant, key) ∧ txn_kind t = kind ∧ txn_usage_event_id t = ue ∧
  txn_request t = Some req ∧ txn_created_at t = now ∧
  (∀ k, k ∈ txns d → txn_id k ≠ txn_id t) ∧ (∀ k, k ∈ txns d → key_of k ≠ key_of t).

(** The row that used the key before, for a request that agrees on [fields]. *)
Definition replayed (tenant key : string) (req : request) (fields : list string) (d : db)
    (t : txn) : Prop :=
  t ∈ txns d ∧ key_of t = (tenant, key) ∧
  match txn_request t with None => True | Some stored => _differences stored req fields = [] end.

(** The row that used the key before, for a different request. *)
Definition conflicting (tenant key : string) (req : request) (fields : list string) (d : db)
    (diffs : list (string * (option string * option string))) : Prop :=
  diffs ≠ [] ∧ ∃ t stored, t ∈ txns d ∧ key_of t = (tenant, key) ∧ txn_request t = Some stored ∧
    _differences stored req fields = diffs.

Section begin.
Context (e : env) (tenant kind key actor : string) (reason : option string) (req : request)
  (fields : list string) (ue : option string) (pr : option pricing).

Lemma head_key d t :
  wf d → t ∈ txns d → key_of t = (tenant, key) →
  head (filter (λ k, txn_tenant k = tenant ∧ txn_key k = key) (txns d)) = Some t.
Proof.
  intros Hwf Ht Hk. destruct (head (filter _ _)) as [k|] eqn:Hh.
  - apply head_filter_Some in Hh as [Hin [H1 H2]]. f_equal.
    apply (key_inj key_of _ _ _ (wf_keys d Hwf)); [done..|]. rewrite Hk. unfold key_of. congruence.
  - rewrite head_filter_None in Hh. unfold key_of in Hk. injection Hk as H1 H2.
    by destruct (Hh t).
Qed.

Lemma numeric_opt_Err p s v x : numeric_opt p s v = Err x → x = NumericValueOutOfRange.
Proof.
  destruct v as [v|]; [|done]. unfold numeric_opt, numeric. intros H.
  repeat case_match; simplify_eq; done.
Qed.

Lemma triple_begin d :
  wf d → kind ∈ TXN_KINDS → key ≠ ""%string → tenant ∈ acc_tenant <$> accounts d →
  triple e (eq d) (_begin_transaction tenant kind key actor reason req fields ue pr)
    (λ r d',
      (∃ t, r = (Some (txn_id t), None) ∧ txn_for tenant kind key ue req (e_now e) d t ∧
         d' = set_txns (λ ts, ts ++ [t]) d) ∨
      (∃ t, r = (None, Some (txn_id t)) ∧ replayed tenant key req fields d t ∧ d' = d))
    (λ x d', infra e x ∨
      ∃ diffs, x = IdempotencyConflict key tenant diffs ∧ conflicting tenant key req fields d diffs ∧ d' = d).
Proof.
  intros Hwf Hkind Hkey Hacc. unfold _begin_transaction, insert_txn, select_txn.
  eapply (triple_bind e _ _ _ (λ r d',
    (∃ t, r = Some (txn_id t) ∧ txn_for tenant kind key ue req (e_now e) d t ∧
       d' = set_txns (λ ts, ts ++ [t]) d) ∨
    (r = None ∧ d' = d ∧ ∃ t, t ∈ txns d ∧ key_of t = (tenant, key)))).
  - apply triple_stmt; [intros; left; by apply infra_fault|]. intros ? u <-.
    destruct (insert_txn_row _ _ _ _ _ _ _ _ _ _ _) as [[r d']|x] eqn:Hi.
    + apply insert_txn_row_Ok in Hi as [(-> & -> & Ht)|(t & -> & -> & Hk & Hkd & Hrq & Hue & Hnow & Hid & Hks & _)].
      * by right.
      * left. exists t. done.
    + left. unfold insert_txn_row in Hi.
      destruct (numeric_opt 18 12 _) eqn:?; simpl in Hi; [|simplify_eq; erewrite numeric_opt_Err by done; apply infra_range].
      destruct (numeric_opt 18 6 (p_credits_per_usd <$> pr)) eqn:?; simpl in Hi;
        [|simplify_eq; erewrite numeric_opt_Err by done; apply infra_range].
      destruct (numeric_opt 18 6 (p_markup <$> pr)) eqn:?; simpl in Hi;
        [|simplify_eq; erewrite numeric_opt_Err by done; apply infra_range].
      rewrite bool_decide_true in Hi by done. cbn [check rbind] in Hi.
      unfold falsy in Hi. rewrite (bool_decide_false (key = _)) in Hi by done. cbn [negb check rbind] in Hi.
      case_bool_decide; [done|].
      case_bool_decide; cbn [check rbind] in Hi; [|simplify_eq; apply infra_txn_id].
      by rewrite bool_decide_true in Hi by by apply has_account_elem.
  - intros r. apply triple_pure. intros d' [(t & -> & Ht & ->)|(-> & -> & t & Hin & Hk)].
    { apply triple_ret. intros ? <-. left. eauto. }
    eapply (triple_bind e _ _ _ (λ row d', d' = d ∧ row = Some (txn_id t, txn_request t))).
    { apply triple_query; [intros; left; by apply infra_fault|]. intros ? <-. split; [done|].
      by rewrite (head_key d t). }
    intros row. apply triple_pure. intros ? [-> ->].
    eapply (triple_bind e _ _ _ (λ v d', d' = d ∧ v = (txn_id t, txn_request t))).
    { apply triple_lift. intros ? <-. done. }
    intros [ex st]. apply triple_pure. intros ? [-> [= -> ->]].
    destruct (txn_request t) as [stored|] eqn:Hst.
    + case_bool_decide as Hd.
      * apply triple_ret. intros ? <-. right. exists t. split_and!; [done| |done].
        unfold replayed. by rewrite Hst.
      * apply triple_raise. intros ? <-. right. eexists. split; [done|]. split; [|done].
        split; [done|]. exists t, stored. done.
    + apply triple_ret. intros ? <-. right. exists t. split_and!; [done| |done].
      unfold replayed. by rewrite Hst.
Qed.
End begin.

(** Each wallet operation performs exactly one booking, or writes nothing.

    [debit_effect], [grant_effect] and [expire_effect] are the abstract
    specifications of [debit_in], [grant_in] and [_expire_lot_in]: which
    booking they make of which request in which state. The triples say that the
    coroutines implement them, and that a coroutine that raises either refused
    the request with nothing written or broke down (and is rolled back). *)

Local Open Scope Z_scope.
Local Open Scope py_scope.

(** ** Specifications *)

Definition negated (ms : moves) : moves := (λ m, (m.1, - m.2)) <$> ms.

Definition live_pairs (tenant : string) (now : Z) (d : db) : moves :=
  (λ l, (lot_id l, lot_remaining l)) <$> live_lots tenant now d.

(** The moves of a debit, and the overdraft lot it may open. *)
Definition debit_moves (tenant : string) (now credits : Z) (d : db) (new : list lot) (ms : moves)
    (shortfall : Z) : Prop :=
  let '(takes, rest) := plan_allocation (live_pairs tenant now d) credits in
  shortfall = rest ∧
  if 0 <? rest then ∃ o, overdraft_of tenant d o new ∧ ms = negated takes ++ [(lot_id o, - rest)]
  else new = [] ∧ ms = negated takes.

(** [req] is the request the key stands for, when it can be written down. *)
Inductive debit_effect (now : Z) (tenant key kind : string) (ue : option string) (credits : Z)
    (req : result exn request) (fields : list string) (d : db) : applied → db → Prop :=
| debit_nothing :
    credits = 0 → debit_effect now tenant key kind ue credits req fields d (Applied Snothing None 0 0) d
| debit_no_account :
    0 < credits → tenant ∉ acc_tenant <$> accounts d →
    debit_effect now tenant key kind ue credits req fields d (Applied Sno_account None 0 0) d
| debit_duplicate t rq :
    0 < credits → req = Ok rq → replayed tenant key rq fields d t →
    debit_effect now tenant key kind ue credits req fields d (duplicate_of (Some (txn_id t))) d
| debit_applied t rq new ms shortfall :
    0 < credits → req = Ok rq → tenant ∈ acc_tenant <$> accounts d →
    txn_for tenant kind key ue rq now d t → debit_moves tenant now credits d new ms shortfall →
    debit_effect now tenant key kind ue credits req fields d
      (Applied Sapplied (Some (txn_id t)) credits shortfall) (booked now t new ms d).

(** The lot a grant opens, and its moves: the credits in, then what repays the debt. *)
Definition grant_lot (tenant source : string) (provider ref : option string) (credits : Z)
    (expires_at : option datetime) (actor : string) (now : Z) (d : db) (l : lot) : Prop :=
  l = Lot (lot_id l) tenant source provider ref credits 0 (dt_us <$> expires_at) now actor ∧
  (∀ k, k ∈ lots d → lot_id k ≠ lot_id l) ∧ (∀ k, k ∈ lots d → ¬ same_payment l k).

Definition grant_moves (tenant : string) (credits : Z) (d : db) (id : string) (ms : moves) : Prop :=
  match head (filter (is_overdraft_of tenant) (lots d)) with
  | Some o =>
      if lot_remaining o <? 0 then
        let repay := Z.min credits (- lot_remaining o) in
        ms = [(id, credits); (lot_id o, repay); (id, - repay)]
      else ms = [(id, credits)]
  | None => ms = [(id, credits)]
  end.

Inductive grant_effect (now : Z) (tenant key source actor : string) (provider ref : option string)
    (expires_at : option datetime) (credits : Z) (req : request) (fields : list string) (d : db) :
    applied → db → Prop :=
| grant_duplicate t :
    replayed tenant key req fields d t →
    grant_effect now tenant key source actor provider ref expires_at credits req fields d
      (duplicate_of (Some (txn_id t))) d
| grant_applied t l ms :
    let d1 := open_account now tenant actor d in
    txn_for tenant "grant" key None req now d t →
    grant_lot tenant source provider ref credits expires_at actor now d l →
    grant_moves tenant credits d (lot_id l) ms →
    grant_effect now tenant key source actor provider ref expires_at credits req fields d
      (Applied Sapplied (Some (txn_id t)) credits 0) (booked now t [l] ms d1).

Inductive expire_effect (now : Z) (tenant id : string) (d : db) : bool → db → Prop :=
| expire_nothing : expire_effect now tenant id d false d
| expire_booked t l :
    l ∈ lots d → lot_id l = id → lot_tenant l = tenant → due now l →
    txn_for tenant "expire" ("expire:" +:+ id)%string None (_expire_request id) now d t →
    expire_effect now tenant id d true (booked now t [] [(id, - lot_remaining l)] d).

(** ** Taking from lots *)

(** Every take is of a different lot of the tenant, and of at most what it holds. *)
Definition takable (tenant : string) (d : db) (takes : moves) : Prop :=
  NoDup takes.*1 ∧
  ∀ m, m ∈ takes → ∃ l, l ∈ lots d ∧ lot_id l = m.1 ∧ lot_tenant l = tenant ∧
    lot_source l ≠ "overdraft"%string ∧ 0 < m.2 ≤ lot_remaining l.

Lemma take_ok l a :
  lot_ok l → lot_source l ≠ "overdraft"%string → 0 < a ≤ lot_remaining l → lot_ok (add_remaining (- a) l).
Proof.
  intros (H1 & H2 & H3 & H4 & H5) Hs Ha. unfold lot_ok, add_remaining. simpl.
  split_and!; [done|done|right; lia|lia|by left].
Qed.

Lemma moved_lots_elem now t x ms d l :
  l ∈ lots d → move_lot t ms l ∈ lots (moved now t x ms d).
Proof. intros Hl. simpl. by apply list_elem_of_fmap_2. Qed.

Lemma takable_cons now t x id a takes d :
  takable t d ((id, a) :: takes) → takable t (moved now t x [(id, - a)] d) takes.
Proof.
  intros [Hnd Ht]. rewrite fmap_cons in Hnd. apply NoDup_cons in Hnd as [Hid Hnd]. split; [done|]. intros m Hm.
  destruct (Ht m) as (l & Hl & Hlid & Htl & Hs & Ha); [by right|].
  exists (move_lot t [(id, - a)] l). split; [by apply moved_lots_elem|].
  rewrite move_lot_id, move_lot_tenant, move_lot_source, move_lot_remaining by done.
  rewrite delta_cons, decide_False, delta_nil; [split_and!; [done..|lia|lia]|].
  intros ->. apply Hid. simpl. rewrite Hlid. by apply list_elem_of_fmap_2.
Qed.

Lemma triple_takes e x t takes : ∀ d,
  wf d → x ∈ txns d → txn_tenant x = t → takable t d takes →
  triple e (eq d) (for_each takes (λ '(id, take), _move t (txn_id x) id (- take)))
    (λ _ d', d' = moved (e_now e) t (txn_id x) (negated takes) d) (λ y _, infra e y).
Proof.
  induction takes as [|[id a] takes IH]; intros d Hwf Hx Ht Htk; simpl.
  { apply triple_ret. intros ? <-. by rewrite moved_nil. }
  destruct Htk as [Hnd Hall]. destruct (Hall (id, a)) as (l & Hl & Hid & Htl & Hs & Ha); [left|].
  simpl in Hid, Ha. subst id.
  eapply bind_wf; [done|apply preserves_wf_move| |].
  - apply triple_move; [done..|lia|]. apply take_ok; [by apply (wf_lot_ok d Hwf)|done|lia].
  - intros [] d' -> Hwf'.
    pose proof (takable_cons (e_now e) t (txn_id x) _ _ _ _ (conj Hnd Hall)) as Htk.
    eapply triple_conseq; [apply (IH _ Hwf' Hx Ht Htk)|done| |done].
    intros [] d' ->. by rewrite moved_app.
Qed.

(** ** Debits *)

Lemma live_pairs_elem tenant now d m :
  m ∈ live_pairs tenant now d ↔
  ∃ l, l ∈ lots d ∧ live tenant now l ∧ m = (lot_id l, lot_remaining l).
Proof.
  unfold live_pairs, live_lots. rewrite list_elem_of_fmap.
  split.
  - intros (l & -> & Hl). rewrite merge_sort_Permutation, list_elem_of_filter in Hl.
    destruct Hl. eauto.
  - intros (l & Hl & Hlive & ->). exists l. split; [done|].
    by rewrite merge_sort_Permutation, list_elem_of_filter.
Qed.

Lemma live_pairs_ids tenant now d : wf d → NoDup (live_pairs tenant now d).*1.
Proof.
  intros Hwf. unfold live_pairs, live_lots. rewrite <-list_fmap_compose.
  assert (H : NoDup (lot_id <$> filter (live tenant now) (lots d)))
    by (apply NoDup_fmap_filter, Hwf).
  by rewrite merge_sort_Permutation.
Qed.

Lemma prefix_fst (takes pairs : moves) :
  Forall2 (λ a b : string * Z, a.1 = b.1 ∧ a.2 ≤ b.2) takes (take (length takes) pairs) →
  takes.*1 `prefix_of` pairs.*1.
Proof.
  intros HF. exists (drop (length takes) pairs).*1. rewrite <-(take_drop (length takes) pairs) at 1.
  rewrite fmap_app. f_equal. clear -HF. generalize dependent (take (length takes) pairs).
  intros k HF. induction HF as [|a b l k [Hab _] _ IH]; [done|]. rewrite !fmap_cons. by f_equal.
Qed.

(** What the plan takes from the tenant's live lots can be taken. *)
Lemma plan_takable tenant now d credits takes rest :
  wf d → 0 ≤ credits → plan_allocation (live_pairs tenant now d) credits = (takes, rest) →
  takable tenant d takes ∧ sumZ snd takes + rest = credits ∧ 0 ≤ rest ∧
  (0 < rest → takes = live_pairs tenant now d) ∧
  (∀ m, m ∈ takes → ∃ l, l ∈ lots d ∧ live tenant now l ∧ lot_id l = m.1).
Proof.
  intros Hwf Hc. unfold plan_allocation. pose proof (plan_go_spec (live_pairs tenant now d) credits Hc) as H.
  destruct (plan_go _ _) as [tk r]. intros [= -> <-]. destruct H as (Hs & H0 & Hall & Hp & HF & _).
  { intros m (l & _ & Hl & ->)%live_pairs_elem. apply Hl. }
  assert (Hm : ∀ m, m ∈ takes → ∃ l, l ∈ lots d ∧ live tenant now l ∧ lot_id l = m.1 ∧ m.2 ≤ lot_remaining l).
  { intros m [i Hi]%list_elem_of_lookup. eapply Forall2_lookup_l in HF as (b & Hb & Hb1 & Hb2); [|exact Hi].
    apply lookup_take_Some in Hb as [Hb _]. apply list_elem_of_lookup_2, live_pairs_elem in Hb as (l & ? & ? & ->).
    exists l. done. }
  split; [split|].
  - destruct (prefix_fst _ _ HF) as [k Hk]. pose proof (live_pairs_ids tenant now d Hwf) as Hnd.
    rewrite Hk in Hnd. by apply NoDup_app in Hnd as [? _].
  - intros m Hin. destruct (Hm m Hin) as (l & Hl & (Ht & Hsrc & _) & Hid & Hle).
    exists l. split_and!; [done..|by apply Hp|done].
  - split_and!; [lia|lia|intros; apply Hall; lia|]. intros m Hin. destruct (Hm m Hin) as (l & ? & ? & ? & ?). eauto.
Qed.

Lemma negated_fst ms : (negated ms).*1 = ms.*1.
Proof. unfold negated. by rewrite <-list_fmap_compose. Qed.

Lemma overdraft_ok t o a : lot_ok o → is_overdraft_of t o → 0 < a → lot_ok (add_remaining (- a) o).
Proof.
  intros (H1 & H2 & H3 & H4 & H5) [_ Hs] Ha. unfold lot_ok, add_remaining. simpl.
  split_and!; [done|done|by left|lia|done].
Qed.

Lemma txn_for_facts tenant kind key ue rq now d t :
  txn_for tenant kind key ue rq now d t → txn_tenant t = tenant ∧ txn_key t = key.
Proof. intros [Hk _]. unfold key_of in Hk. by injection Hk. Qed.

(** The overdraft lot found after taking from other lots is the one of before. *)
Lemma overdraft_moved now t x takes d o new :
  takable t d takes → overdraft_of t (moved now t x (negated takes) d) o new →
  ∃ o', overdraft_of t d o' new ∧ lot_id o' = lot_id o ∧
    set_lots (λ ls, ls ++ new) (moved now t x (negated takes) d) =
    moved now t x (negated takes) (set_lots (λ ls, ls ++ new) d) ∧
    o ∈ lots (set_lots (λ ls, ls ++ new) (moved now t x (negated takes) d)).
Proof.
  intros Htk [Hot [[Ho ->]|(-> & Hz & Hid & Hno)]].
  - simpl in Ho. apply list_elem_of_fmap in Ho as (o' & -> & Ho'). exists o'.
    rewrite move_lot_id. split_and!; [|done| |].
    + split; [|by left]. destruct Hot as [H1 H2]. rewrite move_lot_tenant in H1.
      rewrite move_lot_source in H2. by split.
    + unfold set_lots, moved. simpl. by rewrite !app_nil_r.
    + simpl. rewrite app_nil_r. by apply list_elem_of_fmap_2.
  - assert (Hnew : ∀ k, k ∈ lots d → lot_id k ≠ lot_id o).
    { intros k Hk. rewrite <-(move_lot_id t (negated takes)). apply Hid. by apply moved_lots_elem. }
    exists o. split_and!; [|done| |apply elem_of_app; right; left].
    + split; [done|]. right. split_and!; [done..|]. intros k Hk [H1 H2].
      apply (Hno (move_lot t (negated takes) k)); [by apply moved_lots_elem|].
      split; by rewrite ?move_lot_tenant, ?move_lot_source.
    + rewrite moved_set_lots; [done|]. rewrite negated_fst. intros (m & Hm & Hmin)%list_elem_of_fmap.
      destruct (proj2 Htk m Hmin) as (l & Hl & Hlid & _). apply (Hnew l); congruence.
Qed.

(** The moves of a debit, after its transaction row. *)
Lemma triple_debit_moves e tenant credits kind d t rq key ue :
  wf d → wf (set_txns (λ ts, ts ++ [t]) d) → 0 < credits → tenant ∈ acc_tenant <$> accounts d →
  txn_for tenant kind key ue rq (e_now e) d t →
  triple e (eq (set_txns (λ ts, ts ++ [t]) d))
    (lots ← select_live tenant;
     let '(takes, shortfall) := plan_allocation lots credits in
     for_each takes (λ '(lot_id, take), _move tenant (txn_id t) lot_id (- take)) ;;
     (if 0 <? shortfall then
        overdraft ← _overdraft_lot tenant true;
        match overdraft with
        | None => raise AssertionError
        | Some (debt_lot, _) =>
            _move tenant (txn_id t) debt_lot (- shortfall) ;;
            if bool_decide (kind = "debit"%string) then count "agent_credit_overdraft_total" "" else mret ()
        end
      else mret ()) ;;
     count "agent_credit_debited_total" kind ;;
     mret (Applied Sapplied (Some (txn_id t)) credits shortfall))
    (λ r d', ∃ new ms shortfall, debit_moves tenant (e_now e) credits d new ms shortfall ∧
       r = Applied Sapplied (Some (txn_id t)) credits shortfall ∧
       d' = booked (e_now e) t new ms d)
    (λ x _, infra e x).
Proof.
  intros Hwf Hwf1 Hc Hacc Ht. destruct (txn_for_facts _ _ _ _ _ _ _ _ Ht) as [Htt _].
  set (d1 := set_txns _ d) in *.
  assert (Hin : t ∈ txns d1) by (apply elem_of_app; right; left).
  eapply (triple_bind e _ _ _ (λ ps d', d' = d1 ∧ ps = live_pairs tenant (e_now e) d)).
  { apply triple_query; [intros; by constructor|]. intros ? <-. done. }
  intros ps. apply triple_pure. intros ? [-> ->].
  destruct (plan_allocation (live_pairs tenant (e_now e) d) credits) as [takes rest] eqn:Hplan.
  destruct (plan_takable tenant (e_now e) d credits takes rest Hwf ltac:(lia) Hplan)
    as (Htk & _ & Hrest & _ & Hlive).
  assert (Htk1 : takable tenant d1 takes) by exact Htk.
  eapply bind_wf; [exact Hwf1| |by apply triple_takes|].
  { apply preserves_for_each. intros [id a]. apply preserves_wf_move. }
  intros [] d2 -> Hwf2.
  eapply (triple_bind e _ _ _ (λ _ d', ∃ new ms, debit_moves tenant (e_now e) credits d new ms rest ∧
    d' = booked (e_now e) t new ms d)).
  2: { intros []. apply triple_pure. intros ? (new & ms & Hms & ->).
    eapply (triple_bind e _ _ _ (λ _, eq (booked (e_now e) t new ms d))).
    { by apply triple_count. } intros []. apply triple_ret. intros ? <-. by exists new, ms, rest. }
  destruct (0 <? rest) eqn:Hr.
  2: { apply triple_ret. intros ? <-. exists [], (negated takes). split.
    { unfold debit_moves. by rewrite Hplan, Hr. }
    unfold booked. rewrite Htt. f_equal. destruct d. unfold d1, set_lots, set_txns. simpl.
    by rewrite app_nil_r. }
  apply Z.ltb_lt in Hr. eapply bind_wf; [exact Hwf2|apply preserves_wf_overdraft|by apply triple_overdraft|].
  intros r d3 (o & new & Hov & -> & ->) Hwf3.
  destruct (overdraft_moved _ _ _ _ _ _ _ Htk1 Hov) as (o' & Hov' & Hid & Heq & Hoin). cbn iota beta.
  eapply triple_bind.
  { apply (triple_move e _ t tenant o); [done|done|done|done|apply Hov|lia|].
    eapply overdraft_ok; [by apply (wf_lot_ok _ Hwf3)|apply Hov|done]. }
  intros []. apply (triple_conseq e _ (λ d', ∃ new ms, debit_moves tenant (e_now e) credits d new ms rest ∧
    d' = booked (e_now e) t new ms d) _ _
    (λ _ d', ∃ new ms, debit_moves tenant (e_now e) credits d new ms rest ∧
    d' = booked (e_now e) t new ms d) _ (λ x _, infra e x)); [|intros ? ->|done|done].
  { case_bool_decide; [by apply triple_count|by apply triple_ret]. }
  exists new, (negated takes ++ [(lot_id o', - rest)]). split.
  - unfold debit_moves. rewrite Hplan. split; [done|]. rewrite (proj2 (Z.ltb_lt _ _)) by done. eauto.
  - rewrite Heq, moved_app. unfold booked. by rewrite Htt, Hid.
Qed.

(** [m] either returns as [Q] says or failed with the tables it started from. *)
Definition spec {A} (e : env) (d : db) (m : M A) (Q : A → db → Prop) : Prop :=
  triple e (eq d) m Q (failed e d).

Lemma spec_lift {A B} e d (r : result exn A) (k : A → M B) Q :
  (∀ x, r = Err x → refusal x) → (∀ a, r = Ok a → spec e d (k a) Q) →
  spec e d (lift r ≫= k) Q.
Proof.
  intros Herr Hk. eapply (triple_bind e _ _ _ (λ a d', d' = d ∧ r = Ok a)).
  - apply triple_lift. intros ? <-. destruct r; [done|]. right. auto.
  - intros a. apply triple_pure. intros ? [-> ?]. by apply Hk.
Qed.

Lemma spec_refuse {B} e d b x (k : () → M B) Q :
  (b = true → refusal x) → (b = false → spec e d (k ()) Q) → spec e d (refuse_if b x ≫= k) Q.
Proof.
  intros Hx Hk. unfold refuse_if. destruct b.
  - intros w Hw. right. split; [auto|done].
  - intros w Hw. by apply Hk.
Qed.

Lemma spec_query {A B} e d (f : Z → db → A) (k : A → M B) Q :
  spec e d (k (f (e_now e) d)) Q → spec e d (query f ≫= k) Q.
Proof.
  intros Hk. eapply (triple_bind e _ _ _ (λ a d', d' = d ∧ a = f (e_now e) d)).
  - apply triple_query; [|by intros ? <-]. intros. left. by constructor.
  - intros a. apply triple_pure. by intros ? [-> ->].
Qed.

Lemma spec_utcnow {B} e d (k : Z → M B) Q : (∀ t, spec e d (k t) Q) → spec e d (utcnow ≫= k) Q.
Proof.
  intros Hk. eapply (triple_bind e _ _ _ (λ _, eq d)); [apply triple_utcnow; by intros ? ? <-|done].
Qed.

Lemma spec_ret {A} e d (a : A) (Q : A → db → Prop) : Q a d → spec e d (mret a) Q.
Proof. intros H. apply triple_ret. by intros ? <-. Qed.

Lemma credits_amount_refusal amount x :
  rmap_err amount_exn (credits_amount amount) = Err x → refusal x.
Proof. destruct (credits_amount amount) as [|[]]; simpl; intros; by simplify_eq. Qed.

Lemma compared_refusal compare voc x : _compared compare voc = Err x → refusal x.
Proof. unfold _compared. intros. repeat case_match; by simplify_eq. Qed.

Lemma debit_request_refusal kind c ue pr reason actor x :
  _debit_request kind c ue pr reason actor = Err x → refusal x.
Proof.
  assert (Hd : ∀ v y, _decimal v = Err y → refusal y).
  { intros v y. unfold _decimal. intros. repeat case_match; by simplify_eq. }
  unfold _debit_request. destruct (_decimal _) eqn:?; simpl; [|intros; simplify_eq; eauto].
  destruct (_decimal (p_credits_per_usd <$> pr)) eqn:?; simpl; [|intros; simplify_eq; eauto].
  destruct (_decimal (p_markup <$> pr)) eqn:?; simpl; [done|intros; simplify_eq; eauto].
Qed.

Lemma rmap_err_Ok {E F A} (f : E → F) (r : result E A) a : rmap_err f r = Ok a → r = Ok a.
Proof. by destruct r; simpl; intros; simplify_eq. Qed.

Lemma falsy_false s : falsy s = false → s ≠ ""%string.
Proof. unfold falsy. by rewrite bool_decide_eq_false. Qed.

(** [debit_in] implements [debit_effect]. *)
Lemma spec_debit_in e d tenant amount key ue actor reason kind pr compare :
  wf d → kind ∈ TXN_KINDS →
  spec e d (debit_in tenant amount key ue actor reason kind pr compare) (λ r d',
    ∃ fields credits, _compared compare DEBIT_FIELDS = Ok fields ∧ credits_amount amount = Ok credits ∧
      debit_effect (e_now e) tenant key kind ue credits
        (_debit_request kind credits ue pr reason actor) fields d r d').
Proof.
  intros Hwf Hkind. unfold debit_in.
  apply spec_lift; [apply compared_refusal|]. intros fields Hf.
  apply spec_lift; [apply credits_amount_refusal|]. intros credits Hc%rmap_err_Ok.
  apply spec_refuse; [done|]. intros Hneg%Z.ltb_ge.
  apply spec_refuse; [done|]. intros [Ht Hk]%orb_false_iff.
  destruct (Z.eqb_spec credits 0) as [Hz|Hz].
  { apply spec_ret. exists fields, credits. split_and!; [done..|]. by constructor. }
  assert (Hpos : 0 < credits) by lia. apply spec_query.
  case_bool_decide as Hacc; cbn [negb]; rewrite has_account_elem in Hacc.
  2: { apply spec_ret. exists fields, credits. split_and!; [done..|]. by constructor. }
  unfold _lock. apply spec_query.
  apply spec_lift; [apply debit_request_refusal|]. intros rq Hrq.
  eapply bind_wf; [done|apply preserves_wf_begin| |].
  { eapply triple_conseq; [by apply (triple_begin e tenant kind key actor reason rq fields ue pr d Hwf Hkind (falsy_false _ Hk))|done|intros a d' H; exact H|].
    intros x d' [?|(diffs & -> & _ & ->)]; [by left|by right]. }
  intros [txn_id ex] d' [(t & [= -> ->] & Ht' & ->)|(t & [= -> ->] & Ht' & ->)] Hwf'.
  - eapply triple_conseq; [eapply triple_debit_moves; [exact Hwf|exact Hwf'|exact Hpos|exact Hacc|exact Ht']|done| |by left].
    intros r d' (new & ms & sh & Hms & -> & ->). exists fields, credits. split_and!; [done..|]. by econstructor.
  - apply triple_ret. intros ? <-. exists fields, credits. split_and!; [done..|]. by econstructor.
Qed.

(** ** Grants *)

(** Besides, a grant may lose the race for a payment that was granted already. *)
Definition grant_failed (e : env) (d0 : db) (x : exn) (d : db) : Prop :=
  failed e d0 x d ∨ x = UniqueViolation "credit_lots_one_grant_per_payment_idx".

Lemma spec_bind {A B} e d (m : M A) (k : A → M B) R Q E :
  triple e (eq d) m (λ a d', d' = d ∧ R a) E → (∀ a, R a → triple e (eq d) (k a) Q E) →
  triple e (eq d) (m ≫= k) Q E.
Proof.
  intros Hm Hk. eapply triple_bind; [exact Hm|]. intros a. apply triple_pure. intros ? [-> ?]. by apply Hk.
Qed.

Lemma new_lot_ok t src p ref credits exp now actor id :
  src ∈ GRANT_SOURCES → 0 < credits →
  let l := Lot id t src p ref credits 0 exp now actor in
  lot_ok l ∧ lot_ok (add_remaining credits l) ∧ src ≠ "overdraft"%string.
Proof.
  intros Hs Hc. assert (src ≠ "overdraft"%string).
  { intros ->. by apply (bool_decide_pack ("overdraft"%string ∈ GRANT_SOURCES)) in Hs. }
  cbv zeta. unfold lot_ok, add_remaining. simpl.
  split_and!; try done; try lia; try (right; lia); try by left.
  all: unfold LOT_SOURCES; apply elem_of_app; by left.
Qed.

(** Repaying the debt out of a new lot, in the state the lot's credits went in. *)
Lemma triple_repay e t tenant credits d2 l :
  let now := e_now e in
  let d := moved now tenant (txn_id t) [(lot_id l, credits)] d2 in
  wf d2 → wf d → t ∈ txns d2 → txn_tenant t = tenant → 0 < credits →
  l ∈ lots d2 → lot_tenant l = tenant → lot_remaining l = 0 → lot_granted l = credits →
  lot_source l ≠ "overdraft"%string → 
  (∀ o, o ∈ lots d2 → is_overdraft_of tenant o → lot_id o ≠ lot_id l) →
  triple e (eq d)
    (overdraft ← _overdraft_lot tenant false;
     match overdraft with
     | Some (debt_lot, owed) =>
         if owed <? 0 then
           let repay := Z.min credits (- owed) in
           _move tenant (txn_id t) debt_lot repay ;;
           _move tenant (txn_id t) (lot_id l) (- repay)
         else mret ()
     | None => mret ()
     end)
    (λ _ d', ∃ ms, grant_moves tenant credits d2 (lot_id l) ms ∧
       d' = moved now tenant (txn_id t) ms d2)
    (λ x _, infra e x).
Proof.
  cbv zeta. intros Hwf2 Hwf Ht Htt Hc Hl Htl Hz Hg Hs Hno.
  set (d := moved _ _ _ _ d2) in *.
  assert (Hhead : head (filter (is_overdraft_of tenant) (lots d)) =
    move_lot tenant [(lot_id l, credits)] <$> head (filter (is_overdraft_of tenant) (lots d2))).
  { destruct (head (filter _ (lots d2))) as [o|] eqn:Hh.
    - apply head_filter_Some in Hh as [Ho Hov].
      apply (head_overdraft tenant d (move_lot tenant [(lot_id l, credits)] o)); [done| |].
      + by apply moved_lots_elem.
      + destruct Hov. split; by rewrite ?move_lot_tenant, ?move_lot_source.
    - rewrite head_filter_None in Hh. apply head_filter_None. intros o Ho [H1 H2].
      simpl in Ho. apply list_elem_of_fmap in Ho as (k & -> & Hk).
      rewrite move_lot_tenant in H1. rewrite move_lot_source in H2. by apply (Hh k). }
  unfold _overdraft_lot, select_overdraft. eapply (spec_bind e d _ _ (λ r,
    r = (λ o, (lot_id o, lot_remaining o)) <$> head (filter (is_overdraft_of tenant) (lots d2)))).
  { intros w Hw. cbn. unfold query, stmt, mbind, M_bind, mret, M_ret.
    destruct (e_fault e (w_tick w)) eqn:Hf; [constructor; unfold faulty; eauto|].
    cbn. rewrite <-Hw. split; [done|]. rewrite Hhead. destruct (head (filter _ (lots d2))) as [o|] eqn:Hh; [|done].
    apply head_filter_Some in Hh as [Ho Hov]. simpl. rewrite move_lot_id, move_lot_remaining by apply Hov.
    rewrite delta_cons, decide_False, delta_nil; [do 3 f_equal; lia|]. intros Heq. by apply (Hno o). }
  intros r ->. unfold grant_moves. destruct (head (filter _ (lots d2))) as [o|] eqn:Hh; simpl.
  2: { apply triple_ret. intros ? <-. eauto. }
  apply head_filter_Some in Hh as [Ho Hov].
  destruct (Z.ltb_spec (lot_remaining o) 0) as [Hneg|Hpos].
  2: { apply triple_ret. intros ? <-. eauto. }
  set (repay := Z.min credits (- lot_remaining o)).
  set (o1 := move_lot tenant [(lot_id l, credits)] o). set (l1 := move_lot tenant [(lot_id l, credits)] l).
  assert (Hor : lot_remaining o1 = lot_remaining o).
  { unfold o1. rewrite move_lot_remaining by apply Hov.
    rewrite delta_cons, decide_False, delta_nil; [lia|]. intros Heq. by apply (Hno o). }
  assert (Hid1 : lot_id o = lot_id o1) by (unfold o1; by rewrite move_lot_id).
  eapply (bind_wf e d _ _ (λ _ d', d' = moved (e_now e) tenant (txn_id t) [(lot_id o1, repay)] d));
    [done|apply preserves_wf_move| |].
  { rewrite Hid1. apply triple_move; [done..|by apply moved_lots_elem| |lia|].
    - unfold o1. rewrite move_lot_tenant. apply Hov.
    - pose proof (wf_lot_ok d Hwf o1) as (H1 & H2 & H3 & H4 & H5); [by apply moved_lots_elem|].
      destruct (proj1 (or_comm _ _) H5) as [[Hg1 He1]|Hn].
      2: { destruct Hn. unfold o1. rewrite move_lot_source. apply Hov. }
      unfold lot_ok, add_remaining. simpl. split_and!; [done|done|left; unfold o1; rewrite move_lot_source; apply Hov|lia|by right]. }
  intros [] d3 -> Hwf3.
  assert (Hl3 : move_lot tenant [(lot_id o1, repay)] l1 ∈ lots (moved (e_now e) tenant (txn_id t) [(lot_id o1, repay)] d))
    by by apply moved_lots_elem, moved_lots_elem.
  assert (Hid3 : lot_id (move_lot tenant [(lot_id o1, repay)] l1) = lot_id l) by (unfold l1; by rewrite !move_lot_id).
  rewrite <-Hid3.
  eapply triple_conseq; [apply (triple_move e _ t tenant _ (- repay) Hwf3 Ht Htt Hl3)|done| |done].
  - unfold l1. by rewrite !move_lot_tenant.
  - lia.
  - apply take_ok; [by apply (wf_lot_ok _ Hwf3)|unfold l1; by rewrite !move_lot_source|].
    unfold l1. rewrite !move_lot_remaining by (by rewrite ?move_lot_tenant).
    rewrite move_lot_id, !delta_cons, !delta_nil, <-Hid1, (decide_False (P:=lot_id o = _)), decide_True by auto. lia.
  - intros [] d' ->. eexists. split; [done|]. unfold d. rewrite !moved_app, Hid3, <-Hid1. done.
Qed.

Lemma open_account_accounts now tenant actor d :
  tenant ∈ acc_tenant <$> accounts (open_account now tenant actor d).
Proof.
  unfold open_account. case_bool_decide as H; [by apply has_account_elem|]. simpl.
  rewrite fmap_app, elem_of_app. right. left.
Qed.

Lemma open_account_id now tenant actor d :
  tenant ∈ acc_tenant <$> accounts d → open_account now tenant actor d = d.
Proof. intros H. unfold open_account. by rewrite bool_decide_true by by apply has_account_elem. Qed.

Lemma triple_insert_account e tenant actor d :
  tenant ≠ ""%string →
  triple e (eq d) (insert_account tenant actor) (λ _ d', d' = open_account (e_now e) tenant actor d)
    (λ x _, infra e x).
Proof.
  intros Ht. apply triple_stmt; [intros; by constructor|]. intros ? u <-.
  unfold falsy. rewrite bool_decide_false by done. done.
Qed.

Lemma key_has_account d t tenant key :
  wf d → t ∈ txns d → key_of t = (tenant, key) → tenant ∈ acc_tenant <$> accounts d.
Proof. intros Hwf Ht Hk. pose proof (wf_txn_account d Hwf t Ht). unfold key_of in Hk. by simplify_eq. Qed.

(** The grant's writes, once its transaction row is in. *)
Lemma triple_grant_moves e tenant source provider ref credits expires actor d t rq key :
  wf d → wf (set_txns (λ ts, ts ++ [t]) d) → 0 < credits → tenant ∈ acc_tenant <$> accounts d →
  source ∈ GRANT_SOURCES → txn_for tenant "grant" key None rq (e_now e) d t →
  triple e (eq (set_txns (λ ts, ts ++ [t]) d))
    (lot_id ← insert_lot tenant source provider ref credits expires actor;
     _move tenant (txn_id t) lot_id credits ;;
     overdraft ← _overdraft_lot tenant false;
     match overdraft with
     | Some (debt_lot, owed) =>
         if owed <? 0 then
           let repay := Z.min credits (- owed) in
           _move tenant (txn_id t) debt_lot repay ;;
           _move tenant (txn_id t) lot_id (- repay)
         else mret ()
     | None => mret ()
     end ;;
     count "agent_credit_granted_total" source ;;
     mret (Applied Sapplied (Some (txn_id t)) credits 0))
    (λ r d', ∃ l ms, grant_lot tenant source provider ref credits expires actor (e_now e) d l ∧
       grant_moves tenant credits d (lot_id l) ms ∧
       r = Applied Sapplied (Some (txn_id t)) credits 0 ∧ d' = booked (e_now e) t [l] ms d)
    (λ x _, infra e x ∨ x = UniqueViolation "credit_lots_one_grant_per_payment_idx").
Proof.
  intros Hwf Hwf1 Hc Hacc Hsrc Ht. destruct (txn_for_facts _ _ _ _ _ _ _ _ Ht) as [Htt _].
  set (d1 := set_txns _ d) in *.
  assert (Hin : t ∈ txns d1) by (apply elem_of_app; right; left).
  eapply (bind_wf e d1 _ _ (λ id d', ∃ l, lot_id l = id ∧
    grant_lot tenant source provider ref credits expires actor (e_now e) d l ∧
    d' = set_lots (λ ls, ls ++ [l]) d1)); [done|apply preserves_wf_insert_lot| |].
  { apply triple_stmt; [intros; left; by constructor|]. intros ? u <-.
    set (l := Lot u tenant source _ _ _ _ _ _ _).
    destruct (new_lot_ok tenant source provider ref credits (dt_us <$> expires) (e_now e) actor u Hsrc Hc)
      as (Hok & _ & Hno).
    destruct (insert_lot_row l d1) as [d'|x] eqn:Hi; simpl.
    - apply insert_lot_row_Ok in Hi as (-> & _ & Hid & _ & Hp & _). exists l. done.
    - apply (insert_lot_row_Err e) in Hi as [Hi|[-> _]]; [by left|by right|done|done|].
      intros k _ [? _]. by apply Hno. }
  intros id d2 (l & <- & Hl & ->) Hwf2. destruct Hl as (Heql & Hfresh & Hpay).
  destruct (new_lot_ok tenant source provider ref credits (dt_us <$> expires) (e_now e) actor (lot_id l) Hsrc Hc)
    as (_ & Hok & Hno). rewrite <-Heql in Hok.
  assert (Hlt : lot_tenant l = tenant ∧ lot_remaining l = 0 ∧ lot_granted l = credits ∧ lot_source l = source)
    by (rewrite Heql; done). destruct Hlt as (Hlt & Hlr & Hlg & Hls).
  assert (Hlin : l ∈ lots (set_lots (λ ls, ls ++ [l]) d1)) by (apply elem_of_app; right; left).
  assert (Hov : ∀ o, o ∈ lots (set_lots (λ ls, ls ++ [l]) d1) → is_overdraft_of tenant o → lot_id o ≠ lot_id l).
  { intros o [Ho| ->%list_elem_of_singleton]%elem_of_app [_ Hs]; [by apply Hfresh|congruence]. }
  eapply (bind_wf e _ _ _ (λ _ d', d' = moved (e_now e) tenant (txn_id t) [(lot_id l, credits)]
    (set_lots (λ ls, ls ++ [l]) d1))); [exact Hwf2|apply preserves_wf_move| |].
  { eapply triple_conseq; [eapply (triple_move e _ t tenant l credits Hwf2); try done; lia|done|done|by left]. }
  intros [] d3 -> Hwf3. apply triple_bind_assoc.
  eapply triple_bind.
  { eapply triple_conseq; [apply (triple_repay e t tenant credits _ l Hwf2 Hwf3); try done; by rewrite Hls|done|
      intros a d' H; exact H|by left]. }
  intros []. apply triple_pure. intros d4 (ms & Hms & ->).
  eapply (triple_bind e _ _ _ (λ _, eq _)); [by apply triple_count|]. intros [].
  apply triple_ret. intros ? <-. exists l, ms. split_and!; [done| |done|].
  - unfold grant_moves in *. simpl in Hms. rewrite filter_app in Hms.
    rewrite (filter_none _ [l]), app_nil_r in Hms; [done|].
    intros k ->%list_elem_of_singleton [_ ?]. congruence.
  - unfold booked. by rewrite Htt.
Qed.

(** [grant_in] implements [grant_effect]. *)
Lemma spec_grant_in e d tenant amount source key actor reason expires provider ref compare :
  wf d →
  triple e (eq d) (grant_in tenant amount source key actor reason expires provider ref compare)
    (λ r d', ∃ fields credits, _compared compare GRANT_FIELDS = Ok fields ∧
      credits_amount amount = Ok credits ∧ 0 < credits ∧ source ∈ GRANT_SOURCES ∧
      (source ∈ EXPIRY_REQUIRED → expires ≠ None) ∧
      grant_effect (e_now e) tenant key source actor provider ref expires credits
        (_grant_request credits source provider ref expires reason actor) fields d r d')
    (grant_failed e d).
Proof.
  intros Hwf. unfold grant_in.
  assert (Hlift : ∀ A B (r : result exn A) (k : A → M B) Q, (∀ x, r = Err x → refusal x) →
    (∀ a, r = Ok a → triple e (eq d) (k a) Q (grant_failed e d)) → triple e (eq d) (lift r ≫= k) Q (grant_failed e d)).
  { intros A B r k Q Herr Hk. eapply (spec_bind e d _ _ (λ a, r = Ok a)); [|done].
    apply triple_lift. intros ? <-. destruct r; [done|]. left; right. auto. }
  assert (Href : ∀ B b msg (k : () → M B) Q, (b = false → triple e (eq d) (k ()) Q (grant_failed e d)) →
    triple e (eq d) (refuse_if b (ValueError msg) ≫= k) Q (grant_failed e d)).
  { intros B b msg k Q Hk. eapply (spec_bind e d _ _ (λ _, b = false)); [|intros []; apply Hk].
    apply triple_refuse_if; intros ? <- Hb; [left; right|]; done. }
  apply Hlift; [apply compared_refusal|]. intros fields Hf.
  apply Hlift; [apply credits_amount_refusal|]. intros credits Hc%rmap_err_Ok.
  apply Href. intros Ht%falsy_false. apply Href. intros Hpos%Z.leb_gt.
  apply Href. intros Hsrc%bool_decide_eq_false. apply dec_stable in Hsrc.
  apply Href. intros [Hk _]%orb_false_iff. apply Href. intros Hexp%bool_decide_eq_false.
  eapply (spec_bind e d _ _ (λ _, True)).
  { destruct expires as [x|]; [|by apply triple_ret]. cbv zeta. apply Href. intros _.
    eapply (triple_bind e _ _ _ (λ _, eq d)); [by apply triple_utcnow|]. intros n.
    apply triple_refuse_if; intros ? <- _; [left; right|]; done. }
  intros _ _. eapply (spec_bind e d _ _ (λ _, True)).
  { apply triple_query; [intros; left; left; by constructor|by intros ? <-]. }
  intros _ _. eapply bind_wf; [done|apply preserves_wf_insert_account| |].
  { eapply triple_conseq; [by apply triple_insert_account|done|intros a d' H; exact H|]. intros; left; by left. }
  intros [] d1 Hd1 Hwf1. set (rq := _grant_request _ _ _ _ _ _ _).
  pose proof (open_account_accounts (e_now e) tenant actor d) as Hacc. rewrite <-Hd1 in Hacc.
  destruct (open_account_frame (e_now e) tenant actor d) as (Hlots & Htxns & _). rewrite <-Hd1 in Hlots, Htxns.
  assert (Hsame : ∀ t, t ∈ txns d1 → key_of t = (tenant, key) → d1 = d).
  { intros t Hin Hkt. rewrite Hd1. apply open_account_id. eapply key_has_account; [done| |done]. by rewrite <-Htxns. }
  eapply bind_wf; [done|apply preserves_wf_begin| |].
  { eapply triple_conseq; [apply (triple_begin e tenant "grant" key actor reason rq fields None None d1 Hwf1);
      [by vm_compute; repeat constructor|by apply falsy_false|done]|done|intros a d' H; exact H|].
    intros x d' [?|(diffs & -> & (_ & t & st & Hin & Hkt & _) & ->)]; left; [by left|right; split; [done|]].
    by eapply Hsame. }
  intros [tid ex] d2 [(t & [= -> ->] & Ht' & ->)|(t & [= -> ->] & Ht' & ->)] Hwf2.
  - eapply triple_conseq; [eapply (triple_grant_moves e tenant source provider ref credits expires actor d1 t rq key); done|done| |].
    + intros r d' (l & ms & Hl & Hms & -> & ->). exists fields, credits. split_and!; try done.
      { intros Hin ->. by apply Hexp. }
      rewrite Hd1. apply grant_applied; [|unfold grant_lot in *; by rewrite <-Hlots|
        unfold grant_moves in *; by rewrite <-Hlots].
      unfold txn_for in *. by rewrite <-Htxns.
    + intros x d' [?|?]; [left; by left|by right].
  - apply triple_ret. intros ? <-. exists fields, credits. split_and!; try done.
    { intros Hin ->. by apply Hexp. }
    assert (d1 = d) as -> by (destruct Ht' as (? & ? & _); by eapply Hsame). by constructor.
Qed.

(** ** Expiry *)

(** [_expire_lot_in] implements [expire_effect]. *)
Lemma spec_expire_lot_in e d tenant id :
  wf d → spec e d (_expire_lot_in tenant id) (λ r d', expire_effect (e_now e) tenant id d r d').
Proof.
  intros Hwf. unfold _expire_lot_in, _lock. apply spec_query.
  unfold select_due_remaining. apply spec_query.
  destruct (head (filter _ (lots d))) as [l|] eqn:Hh; simpl; [|apply spec_ret; constructor].
  apply head_filter_Some in Hh as (Hl & <- & <- & Hdue).
  pose proof (wf_lot_account d Hwf l Hl) as Hacc.
  eapply bind_wf; [done|apply preserves_wf_begin| |].
  { eapply triple_conseq; [apply (triple_begin e (lot_tenant l) "expire" ("expire:" +:+ lot_id l)%string
      "system" (Some "lot reached its expiry"%string) (_expire_request (lot_id l)) ("kind"%string :: EXPIRE_FIELDS)
      None None d Hwf); [by vm_compute; repeat constructor|done|done]|done|intros a d' H; exact H|].
    intros x d' [?|(diffs & -> & _ & ->)]; [by left|by right]. }
  intros [tid ex] d1 [(t & [= -> ->] & Ht & ->)|(t & [= -> ->] & Ht & ->)] Hwf1.
  2: { apply spec_ret. constructor. }
  destruct (txn_for_facts _ _ _ _ _ _ _ _ Ht) as [Htt _].
  eapply triple_bind.
  { eapply triple_conseq; [eapply (triple_move e _ t (lot_tenant l) l (- lot_remaining l) Hwf1); try done|done|intros a d' H; exact H|by left].
    - apply elem_of_app. right. left.
    - destruct Hdue as (_ & ? & _). lia.
    - apply take_ok; [by apply (wf_lot_ok d Hwf)|apply Hdue|]. destruct Hdue as (_ & ? & _). lia. }
  intros []. apply triple_ret. intros d' ->.
  assert (moved (e_now e) (lot_tenant l) (txn_id t) [(lot_id l, - lot_remaining l)] (set_txns (λ ts, ts ++ [t]) d)
    = booked (e_now e) t [] [(lot_id l, - lot_remaining l)] d) as ->.
  { unfold booked. rewrite Htt. f_equal. destruct d. unfold set_lots, set_txns. simpl. by rewrite app_nil_r. }
  by econstructor.
Qed.

(** ** The functions that open their own transaction *)

(** A transaction of an operation that meets its specification either takes
    effect or changes nothing, whatever it raises. *)
Lemma transact {A} e d (m : M A) (Q : Z → A → db → Prop) :
  (∀ n, triple (with_now (e_clock e n) e) (eq d) m (Q (e_clock e n)) (λ _ _, True)) →
  triple e (eq d) (transaction m)
    (λ a d', ∃ n, Q (e_clock e n) a d')
    (λ _ d', d' = d ∨ ∃ n a, Q (e_clock e n) a d').
Proof.
  intros H. apply (triple_transaction e (eq d) m _ (λ _ _, True)).
  - intros n. eapply triple_conseq; [apply H|done|by eauto|done].
  - intros ? x <- _. by left.
  - intros ? ? x <- _. by left.
  - intros a d' x (n & HQ) _. right. eauto.
Qed.

(** The change a committed or failed call of a wallet function makes. *)
Inductive wallet_effect (now : Z) (d : db) : db → Prop :=
| effect_none : wallet_effect now d d
| effect_debit tenant key kind ue credits rq fields r d' :
    debit_effect now tenant key kind ue credits rq fields d r d' → wallet_effect now d d'
| effect_grant tenant key source actor provider ref expires credits rq fields r d' :
    0 < credits → source ∈ GRANT_SOURCES →
    grant_effect now tenant key source actor provider ref expires credits rq fields d r d' →
    wallet_effect now d d'
| effect_expire tenant id r d' : expire_effect now tenant id d r d' → wallet_effect now d d'.

Lemma spec_adjust_in e d tenant amount key actor reason expires compare :
  wf d →
  triple e (eq d) (adjust_in tenant amount key actor reason expires compare)
    (λ _ d', wallet_effect (e_now e) d d') (grant_failed e d).
Proof.
  intros Hwf. unfold adjust_in.
  eapply (spec_bind e d _ _ (λ a, rmap_err amount_exn (credits_amount amount) = Ok a)).
  { apply triple_lift. intros ? <-. destruct (rmap_err _ _) as [|x] eqn:Hx; [done|].
    left; right. split; [by eapply credits_amount_refusal|done]. }
  intros credits _. eapply (spec_bind e d _ _ (λ _, credits ≠ 0)).
  { apply triple_refuse_if; intros ? <- H; [left; right; done|]. by apply Z.eqb_neq in H. }
  intros _ Hz. eapply (spec_bind e d _ _ (λ _, True)).
  { apply triple_refuse_if; intros ? <- H; [left; right; done|done]. }
  intros _ _. destruct (0 <? credits).
  - eapply triple_conseq; [apply (spec_grant_in e d); done|done| |done].
    intros r d' (f & c & _ & _ & Hc & Hs & _ & He). by eapply effect_grant.
  - eapply (spec_bind e d _ _ (λ _, True)).
    { apply triple_refuse_if; intros ? <- H; [left; right; done|done]. }
    intros _ _. eapply triple_conseq; [apply (spec_debit_in e d); [done|by vm_compute; repeat constructor]|done| |].
    + intros r d' (f & c & _ & _ & He). by eapply effect_debit.
    + intros x d' H. by left.
Qed.

(** A debit of a kind the schema does not know writes nothing. *)
Lemma unknown_kind e d tenant amount key ue actor reason kind pr compare :
  kind ∉ TXN_KINDS →
  triple e (eq d) (debit_in tenant amount key ue actor reason kind pr compare)
    (λ _ d', d' = d) (λ _ _, True).
Proof.
  intros Hk. unfold debit_in.
  eapply (spec_bind e d _ _ (λ _, True)); [apply triple_lift; intros ? <-; by case_match|]. intros fields _.
  eapply (spec_bind e d _ _ (λ _, True)); [apply triple_lift; intros ? <-; by case_match|]. intros credits _.
  eapply (spec_bind e d _ _ (λ _, True)); [by apply triple_refuse_if; [|intros ? <-]|]. intros _ _.
  eapply (spec_bind e d _ _ (λ _, True)); [by apply triple_refuse_if; [|intros ? <-]|]. intros _ _.
  destruct (credits =? 0); [by apply triple_ret; intros ? <-|].
  eapply (spec_bind e d _ _ (λ _, True)); [by apply triple_query; [|intros ? <-]|]. intros b _.
  destruct (negb b); [by apply triple_ret; intros ? <-|].
  eapply (spec_bind e d _ _ (λ _, True)); [by apply triple_query; [|intros ? <-]|]. intros _ _.
  eapply (spec_bind e d _ _ (λ _, True)); [apply triple_lift; intros ? <-; by case_match|]. intros rq _.
  eapply (triple_bind e _ _ _ (λ _ _, False)); [|intros [[?|] ?]; by apply triple_pure].
  unfold _begin_transaction. eapply (triple_bind e _ _ _ (λ _ _, False)); [|intros r; by apply triple_pure].
  apply triple_stmt; [done|]. intros ? u <-. unfold insert_txn_row.
  repeat (destruct (numeric_opt _ _ _); simpl; [|done]). by rewrite bool_decide_false.
Qed.

(** ** Why a debit is refused *)

(** The arguments a debit is refused for, whatever the state. *)
Definition invalid_debit (tenant : string) (amount : decimal) (key : string) (ue : option string)
    (actor : string) (reason : option string) (kind : string) (pr : option pricing)
    (compare : option (list string)) : Prop :=
  match _compared compare DEBIT_FIELDS, credits_amount amount with
  | Ok _, Ok credits =>
      credits < 0 ∨ tenant = ""%string ∨ key = ""%string ∨
      ∃ x, _debit_request kind credits ue pr reason actor = Err x
  | _, _ => True
  end.

Inductive debit_refusal (tenant : string) (amount : decimal) (key : string) (ue : option string)
    (actor : string) (reason : option string) (kind : string) (pr : option pricing)
    (compare : option (list string)) (d : db) : exn → Prop :=
| refused_arguments x :
    invalid_debit tenant amount key ue actor reason kind pr compare →
    debit_refusal tenant amount key ue actor reason kind pr compare d x
| refused_conflict fields credits rq diffs :
    _compared compare DEBIT_FIELDS = Ok fields → credits_amount amount = Ok credits →
    _debit_request kind credits ue pr reason actor = Ok rq → conflicting tenant key rq fields d diffs →
    debit_refusal tenant amount key ue actor reason kind pr compare d (IdempotencyConflict key tenant diffs).

Lemma falsy_true s : falsy s = true → s = ""%string.
Proof. unfold falsy. by rewrite bool_decide_eq_true. Qed.

Lemma spec_bind_err {A B} e d (m : M A) (k : A → M B) (R : A → Prop) (E : exn → Prop) :
  triple e (eq d) m (λ a d', d' = d ∧ R a) (λ x d', infra e x ∨ d' = d ∧ E x) →
  (∀ a, R a → triple e (eq d) (k a) (λ _ _, True) (λ x d', infra e x ∨ d' = d ∧ E x)) →
  triple e (eq d) (m ≫= k) (λ _ _, True) (λ x d', infra e x ∨ d' = d ∧ E x).
Proof. apply spec_bind. Qed.

Lemma debit_errors e d tenant amount key ue actor reason kind pr compare :
  wf d → kind ∈ TXN_KINDS →
  triple e (eq d) (debit_in tenant amount key ue actor reason kind pr compare) (λ _ _, True)
    (λ x d', infra e x ∨ d' = d ∧ debit_refusal tenant amount key ue actor reason kind pr compare d x).
Proof.
  intros Hwf Hkind. unfold debit_in.
  assert (Hbad : ∀ x, invalid_debit tenant amount key ue actor reason kind pr compare →
    infra e x ∨ d = d ∧ debit_refusal tenant amount key ue actor reason kind pr compare d x).
  { intros x Hi. right. split; [done|]. by constructor. }
  eapply (spec_bind_err e d _ _ (λ fields, _compared compare DEBIT_FIELDS = Ok fields)).
  { apply triple_lift. intros ? <-. destruct (_compared _ _) eqn:Hf; [done|]. apply Hbad.
    unfold invalid_debit. by rewrite Hf. }
  intros fields Hf. eapply (spec_bind_err e d _ _ (λ credits, credits_amount amount = Ok credits)).
  { apply triple_lift. intros ? <-. destruct (credits_amount amount) eqn:Hc; [done|]. apply Hbad.
    unfold invalid_debit. by rewrite Hf, Hc. }
  intros credits Hc. assert (Hinv : ∀ P, P → (P → credits < 0 ∨ tenant = ""%string ∨ key = ""%string ∨
      ∃ x, _debit_request kind credits ue pr reason actor = Err x) →
    invalid_debit tenant amount key ue actor reason kind pr compare).
  { intros P HP Hi. unfold invalid_debit. rewrite Hf, Hc. auto. }
  eapply (spec_bind_err e d _ _ (λ _, 0 ≤ credits)).
  { apply triple_refuse_if; intros ? <- Hb.
    - apply Hbad. apply (Hinv _ Hb). intros ?%Z.ltb_lt. by left.
    - split; [done|]. by apply Z.ltb_ge. }
  intros _ Hneg. eapply (spec_bind_err e d _ _ (λ _, falsy key = false)).
  { apply triple_refuse_if; intros ? <- Hb.
    - apply Hbad. apply (Hinv _ Hb). intros [?%falsy_true|?%falsy_true]%orb_true_iff; auto.
    - split; [done|]. by apply orb_false_iff in Hb as [_ ?]. }
  intros _ Hk. destruct (credits =? 0) eqn:Hz; [by apply triple_ret|]. apply Z.eqb_neq in Hz.
  unfold has_account, _lock. eapply (spec_bind_err e d _ _ (λ b, b = bool_decide (Exists (λ a, acc_tenant a = tenant) (accounts d)))).
  { apply triple_query; [|by intros ? <-]. intros. left. by constructor. }
  intros b ->. case_bool_decide as Hacc; cbn [negb]; [|by apply triple_ret]. rewrite has_account_elem in Hacc.
  eapply (spec_bind_err e d _ _ (λ _, True)).
  { apply triple_query; [|by intros ? <-]. intros. left. by constructor. }
  intros _ _. eapply (spec_bind_err e d _ _ (λ rq, _debit_request kind credits ue pr reason actor = Ok rq)).
  { apply triple_lift. intros ? <-. destruct (_debit_request _ _ _ _ _ _) eqn:Hrq; [done|]. apply Hbad.
    apply (Hinv _ Hrq). eauto. }
  intros rq Hrq. eapply bind_wf; [done|apply preserves_wf_begin| |].
  { eapply triple_conseq; [by apply (triple_begin e tenant kind key actor reason rq fields ue pr d Hwf Hkind (falsy_false _ Hk))|done|intros a d' H; exact H|].
    intros x d' [?|(diffs & -> & Hcf & ->)]; [by left|right]. split; [done|]. by eapply refused_conflict. }
  intros [tid ex] d' [(t & [= -> ->] & Ht' & ->)|(t & [= -> ->] & Ht' & ->)] Hwf'; [|by apply triple_ret].
  eapply triple_conseq; [eapply triple_debit_moves; [exact Hwf|exact Hwf'| |exact Hacc|exact Ht']; lia|done|done|].
  intros x d' Hi. by left.
Qed.
