(* ===== verification/WalletLaws.v ===== *)
(** What the bookings of the wallet mean: the ledger adds up, the balance moves
    by the booked amount, a wallet never owes and holds at once, and another
    tenant's wallet is not touched. These are facts about [debit_effect],
    [grant_effect] and [expire_effect]; [WalletFacts] ties them to the code. *)
From S2P Require Import Prelude Decimals Calendar Db Wallet WalletSpec WalletFacts.

Local Open Scope Z_scope.
Local Open Scope py_scope.

(** ** Bookings of well-formed moves *)

Record bookable (t : string) (d : db) (new : list lot) (ms : moves) : Prop := {
  bk_ids : NoDup (lot_id <$> lots d ++ new);
  bk_new : ∀ l, l ∈ new → lot_tenant l = t ∧ lot_remaining l = 0;
  bk_moves : ∀ m, m ∈ ms → ∃ l, l ∈ lots d ++ new ∧ lot_id l = m.1 ∧ lot_tenant l = t;
}.

Lemma bookable_ledger now x d new ms :
  inv d → bookable (txn_tenant x) d new ms → ledger_ok (booked now x new ms d).
Proof. intros [Hwf Hok] [H1 H2 H3]. by apply ledger_booked. Qed.

Lemma bookable_ids_one d l :
  wf d → (∀ k, k ∈ lots d → lot_id k ≠ lot_id l) → NoDup (lot_id <$> lots d ++ [l]).
Proof. intros Hwf Hl. by apply NoDup_fmap_app_one; [apply Hwf|]. Qed.

Lemma overdraft_bookable t d o new :
  wf d → overdraft_of t d o new → bookable t d new [] ∧ o ∈ lots d ++ new.
Proof.
  intros Hwf [[Ht _] [[Ho ->]|(-> & Hz & Hid & _)]].
  - split; [|by rewrite app_nil_r]. split; [rewrite app_nil_r; apply Hwf|set_solver|set_solver].
  - split; [|apply elem_of_app; right; left]. split; [by apply bookable_ids_one| |set_solver].
    by intros l ->%list_elem_of_singleton.
Qed.

(** The overdraft lot is not one of the live lots. *)
Lemma negated_elem ms m : m ∈ negated ms ↔ ∃ k, k ∈ ms ∧ m = (k.1, - k.2).
Proof. unfold negated. rewrite list_elem_of_fmap. split; intros (k & ? & ?); exists k; auto. Qed.

Lemma debit_bookable tenant now credits d new ms sh :
  wf d → 0 ≤ credits → debit_moves tenant now credits d new ms sh → bookable tenant d new ms.
Proof.
  intros Hwf Hc. unfold debit_moves. destruct (plan_allocation _ _) as [takes rest] eqn:Hp.
  destruct (plan_takable _ _ _ _ _ _ Hwf Hc Hp) as ([_ Htk] & _).
  assert (Hneg : ∀ m, m ∈ negated takes → ∃ l, l ∈ lots d ++ new ∧ lot_id l = m.1 ∧ lot_tenant l = tenant).
  { intros m (k & Hk & ->)%negated_elem. destruct (Htk k Hk) as (l & ? & ? & ? & _).
    exists l. split; [apply elem_of_app; by left|done]. }
  intros [_ H]. destruct (0 <? rest).
  - destruct H as (o & Hov & ->). destruct (overdraft_bookable _ _ _ _ Hwf Hov) as [[H1 H2 _] Ho].
    split; [done|done|]. intros m [Hm| ->%list_elem_of_singleton]%elem_of_app; [by apply Hneg|].
    exists o. split_and!; [done|done|apply Hov].
  - destruct H as [-> ->]. split; [rewrite app_nil_r; apply Hwf|set_solver|done].
Qed.

Lemma grant_moves_ids tenant credits d l ms m :
  grant_moves tenant credits d (lot_id l) ms → m ∈ ms →
  m.1 = lot_id l ∨ ∃ o, o ∈ lots d ∧ is_overdraft_of tenant o ∧ m.1 = lot_id o.
Proof.
  unfold grant_moves. destruct (head _) as [o|] eqn:Hh.
  2: { intros -> ->%list_elem_of_singleton. by left. }
  apply head_filter_Some in Hh as [Ho Hov]. destruct (_ <? 0).
  2: { intros -> ->%list_elem_of_singleton. by left. }
  cbv zeta. intros ->. intros [->|[->|[->|[]%not_elem_of_nil]%elem_of_cons]%elem_of_cons]%elem_of_cons;
    [by left|right|by left]. eauto.
Qed.

Lemma grant_bookable tenant source p r credits ex actor now d l ms :
  wf d → grant_lot tenant source p r credits ex actor now d l →
  grant_moves tenant credits d (lot_id l) ms → bookable tenant d [l] ms.
Proof.
  intros Hwf (Hl & Hid & _) Hms. split; [by apply bookable_ids_one| |].
  - intros k ->%list_elem_of_singleton. by rewrite Hl.
  - intros m Hm. destruct (grant_moves_ids _ _ _ _ _ _ Hms Hm) as [Heq|(o & Ho & [Ht _] & Heq)].
    + exists l. split_and!; [apply elem_of_app; right; left|done|by rewrite Hl].
    + exists o. split_and!; [apply elem_of_app; by left|done|done].
Qed.

Lemma expire_bookable d l :
  wf d → l ∈ lots d → bookable (lot_tenant l) d [] [(lot_id l, - lot_remaining l)].
Proof.
  intros Hwf Hl. split; [rewrite app_nil_r; apply Hwf|set_solver|].
  intros m ->%list_elem_of_singleton. exists l. by rewrite app_nil_r.
Qed.

(** ** Every booking keeps the ledger *)

Lemma booked_of_open now tenant actor d : inv d → inv (open_account now tenant actor d).
Proof. intros [? ?]. split; [by apply wf_open_account|by apply ledger_open_account]. Qed.

Lemma open_account_grant now tenant actor d n' source p r credits ex l ms :
  grant_lot tenant source p r credits ex actor n' d l → grant_moves tenant credits d (lot_id l) ms →
  grant_lot tenant source p r credits ex actor n' (open_account now tenant actor d) l ∧
  grant_moves tenant credits (open_account now tenant actor d) (lot_id l) ms.
Proof.
  unfold grant_lot, grant_moves. destruct (open_account_frame now tenant actor d) as (-> & _). done.
Qed.

Lemma effect_ledger now d d' : inv d → wallet_effect now d d' → ledger_ok d'.
Proof.
  intros Hinv Heff. pose proof (proj1 Hinv) as Hwf. destruct Heff as
    [|tenant key kind ue credits rq fields r d' He|tenant key source actor p ref ex credits rq fields r d' Hc Hs He
     |tenant id r d' He]; [apply Hinv|..].
  - destruct He as [| |t rq'|t rq' new ms sh Hc _ _ Ht Hms]; [apply Hinv..|].
    apply bookable_ledger; [done|]. rewrite (proj1 (txn_for_facts _ _ _ _ _ _ _ _ Ht)).
    eapply debit_bookable; [done| |done]. lia.
  - destruct He as [|t l ms d1 Ht Hl Hms]; [apply Hinv|].
    apply bookable_ledger; [by apply booked_of_open|]. rewrite (proj1 (txn_for_facts _ _ _ _ _ _ _ _ Ht)).
    destruct (open_account_grant now tenant actor d now source p ref credits ex l ms Hl Hms).
    eapply grant_bookable; [by apply wf_open_account|done|done].
  - destruct He as [|t l Hl <- <- Hdue Ht]; [apply Hinv|].
    apply bookable_ledger; [done|]. rewrite (proj1 (txn_for_facts _ _ _ _ _ _ _ _ Ht)).
    by apply expire_bookable.
Qed.

(** [tidy m]: run to its end, [m] keeps the invariant; whatever it raises, it
    keeps the tables well formed. Undone, it keeps the invariant. *)
Definition tidy {A} (m : M A) : Prop :=
  preserves wf m ∧ ∀ e, triple e inv m (λ _, inv) (λ _ _, True).

Lemma tidy_savepoint {A} (m : M A) : tidy m → preserves inv (savepoint m).
Proof. intros [_ H] e. eapply triple_savepoint; [apply H|done..]. Qed.

Lemma tidy_transaction {A} (m : M A) : tidy m → preserves inv (transaction m).
Proof. intros [_ H] e. eapply triple_transaction; [intros; apply H|done..]. Qed.

Lemma tidy_of_effect {A} (m : M A) :
  preserves wf m →
  (∀ e d, wf d → triple e (eq d) m (λ _ d', wallet_effect (e_now e) d d') (λ _ _, True)) → tidy m.
Proof.
  intros Hp H. split; [done|]. intros e. apply triple_pure. intros d Hinv.
  eapply triple_conseq; [apply (triple_and e _ wf m _ _ _ _ (H e d (proj1 Hinv)) (Hp e))| | |done].
  - intros ? <-. split; [done|apply Hinv].
  - intros a d' [He Hwf']. split; [done|]. by eapply effect_ledger.
Qed.

Lemma tidy_grant tenant amount source key actor reason expires p ref compare :
  tidy (grant_in tenant amount source key actor reason expires p ref compare).
Proof.
  apply tidy_of_effect; [apply preserves_wf_grant|]. intros e d Hwf.
  eapply triple_conseq; [by apply spec_grant_in|done| |done].
  intros r d' (f & c & _ & _ & Hc & Hs & _ & He). by eapply effect_grant.
Qed.

Lemma tidy_debit tenant amount key ue actor reason kind pr compare :
  kind ∈ TXN_KINDS → tidy (debit_in tenant amount key ue actor reason kind pr compare).
Proof.
  intros Hk. apply tidy_of_effect; [apply preserves_wf_debit|]. intros e d Hwf.
  eapply triple_conseq; [by apply spec_debit_in|done| |done].
  intros r d' (f & c & _ & _ & He). by eapply effect_debit.
Qed.

Lemma tidy_adjust tenant amount key actor reason expires compare :
  tidy (adjust_in tenant amount key actor reason expires compare).
Proof.
  apply tidy_of_effect; [apply preserves_wf_adjust|]. intros e d Hwf.
  eapply triple_conseq; [by apply spec_adjust_in|done|done|done].
Qed.

Lemma tidy_expire tenant id : tidy (_expire_lot_in tenant id).
Proof.
  apply tidy_of_effect; [apply preserves_wf_expire_lot|]. intros e d Hwf.
  eapply triple_conseq; [by apply spec_expire_lot_in|done| |done].
  intros r d' He. by eapply effect_expire.
Qed.

(** ** Balances *)

Lemma lots_of_no_account t d :
  wf d → on_credit_billing t d = false → lots_of t d = [].
Proof.
  intros Hwf Hno. apply bool_decide_eq_false in Hno. rewrite has_account_elem in Hno.
  apply filter_none. intros l Hl <-. by apply Hno, wf_lot_account.
Qed.

(** The three figures of a balance as sums over the tenant's lots. *)
Lemma balance_of_sums t now d :
  wf d →
  balance_of t now d =
  (on_credit_billing t d,
   Balance (lots_sum t (counted now) d) (lots_sum t (λ _, True) d)
     (- lots_sum t (λ l, lot_source l = "overdraft"%string) d)).
Proof.
  intros Hwf. unfold balance_of. f_equal.
  assert (Hls : (if on_credit_billing t d then lots_of t d else []) = lots_of t d).
  { destruct (on_credit_billing t d) eqn:Hb; [done|]. by rewrite lots_of_no_account. }
  rewrite Hls. unfold lots_sum. f_equal.
  - rewrite !sumZ_filter. rewrite Z.sub_opp_r, <-sumZ_add. apply sumZ_ext. intros l _.
    unfold counted, unexpired. repeat case_decide; try lia; tauto.
  - by rewrite filter_all.
Qed.

Lemma moves_sum_all (P : lot → Prop) `{!∀ l, Decision (P l)} ls ms :
  (∀ m, m ∈ ms → ∃ l, l ∈ ls ∧ P l ∧ lot_id l = m.1) → moves_sum P ls ms = sumZ snd ms.
Proof.
  intros Hall. unfold moves_sum. rewrite filter_all; [done|]. intros m Hm. apply Exists_exists.
  destruct (Hall m Hm) as (l & ? & ? & ?). eauto.
Qed.

Lemma moves_sum_none (P : lot → Prop) `{!∀ l, Decision (P l)} ls ms :
  (∀ m l, m ∈ ms → l ∈ ls → lot_id l = m.1 → ¬ P l) → moves_sum P ls ms = 0.
Proof.
  intros Hn. unfold moves_sum. rewrite filter_none; [done|]. intros m Hm (l & Hl & HP & Hid)%Exists_exists.
  by apply (Hn m l).
Qed.

Lemma sum_negated ms : sumZ snd (negated ms) = - sumZ snd ms.
Proof. unfold negated. rewrite sumZ_map. apply sumZ_opp. Qed.

(** The credits of a debit leave the available balance, whatever it holds. *)
Lemma debit_available now tenant d t new ms credits sh :
  wf d → 0 ≤ credits → txn_tenant t = tenant → debit_moves tenant now credits d new ms sh →
  lots_sum tenant (counted now) (booked now t new ms d) = lots_sum tenant (counted now) d - credits.
Proof.
  intros Hwf Hc <- Hms. destruct (debit_bookable _ _ _ _ _ _ _ Hwf Hc Hms) as [Hids Hnew _].
  rewrite lots_sum_booked by (done || apply _). unfold debit_moves in Hms.
  destruct (plan_allocation (live_pairs (txn_tenant t) now d) credits) as [takes rest] eqn:Hp.
  destruct (plan_takable _ _ _ _ _ _ Hwf Hc Hp) as (_ & Hsum & Hr0 & _ & Hlive).
  rewrite moves_sum_all.
  - destruct Hms as [-> Hms]. destruct (Z.ltb_spec 0 rest).
    + destruct Hms as (o & _ & ->). rewrite sumZ_app, sum_negated. simpl. lia.
    + destruct Hms as [_ ->]. rewrite sum_negated. lia.
  - assert (Hneg : ∀ m, m ∈ negated takes → ∃ l, l ∈ lots d ∧ lot_tenant l = txn_tenant t ∧ counted now l ∧ lot_id l = m.1).
    { intros m (k & Hk & ->)%negated_elem. destruct (Hlive k Hk) as (l & Hl & (Ht & Hs & _ & Hex) & Hid).
      exists l. split_and!; [done..|by left|done]. }
    intros m Hm. setoid_rewrite list_elem_of_filter. destruct Hms as [-> Hms]. destruct (0 <? rest).
    + destruct Hms as (o & Hov & ->). apply elem_of_app in Hm as [Hm| ->%list_elem_of_singleton].
      * destruct (Hneg m Hm) as (l & Hl & ? & ? & ?). exists l. rewrite elem_of_app. auto.
      * destruct (overdraft_bookable _ _ _ _ Hwf Hov) as [_ Ho]. destruct Hov as [[? ?] _].
        exists o. split_and!; [done|done|by right|done].
    + destruct Hms as [_ ->]. destruct (Hneg m Hm) as (l & Hl & ? & ? & ?). exists l. rewrite elem_of_app. auto.
Qed.

(** What a debit cannot take from live lots is its shortfall. *)
Lemma debit_shortfall now tenant d credits new ms sh :
  wf d → 0 ≤ credits → debit_moves tenant now credits d new ms sh →
  sh = Z.max 0 (credits - lots_sum tenant (unexpired now) d).
Proof.
  intros Hwf Hc Hms. unfold debit_moves in Hms.
  destruct (plan_allocation (live_pairs tenant now d) credits) as [takes rest] eqn:Hp.
  destruct (plan_takable _ _ _ _ _ _ Hwf Hc Hp) as (Htk & Hsum & Hr0 & Hall & Hlive).
  destruct Hms as [-> _].
  assert (Htot : sumZ snd (live_pairs tenant now d) = lots_sum tenant (unexpired now) d).
  { unfold live_pairs, live_lots, lots_sum, lots_of. rewrite sumZ_map, merge_sort_Permutation.
    rewrite list_filter_filter, !sumZ_filter. apply sumZ_ext. intros l Hl. simpl.
    destruct (wf_lot_ok d Hwf l Hl) as (_ & _ & Hrem & _). unfold live, unexpired.
    repeat case_decide; try lia; try tauto. destruct Hrem; [tauto|].
    assert (lot_remaining l = 0 ∨ 0 < lot_remaining l) as [|] by lia; [lia|tauto]. }
  assert (Hle : sumZ snd takes ≤ sumZ snd (live_pairs tenant now d)).
  { unfold plan_allocation in Hp. pose proof (plan_go_spec (live_pairs tenant now d) credits Hc) as Hs.
    destruct (plan_go (live_pairs tenant now d) credits) as [tk r]. injection Hp as -> _.
    destruct Hs as (_ & _ & _ & _ & HF & _).
    { intros m (l & _ & Hl & ->)%live_pairs_elem. apply Hl. }
    rewrite <-(take_drop (length takes) (live_pairs tenant now d)), sumZ_app.
    assert (0 ≤ sumZ snd (drop (length takes) (live_pairs tenant now d))).
    { apply sumZ_nonneg. intros m Hm. assert (Hin : m ∈ live_pairs tenant now d).
      { rewrite <-(take_drop (length takes)). apply elem_of_app. by right. }
      apply live_pairs_elem in Hin as (l & _ & Hl & ->). destruct Hl as (_ & _ & ? & _). simpl. lia. }
    assert (sumZ snd takes ≤ sumZ snd (take (length takes) (live_pairs tenant now d))); [|lia].
    clear -HF. generalize dependent (take (length takes) (live_pairs tenant now d)). intros k HF.
    induction HF as [|a b l k [_ ?] _ IH]; simpl; lia. }
  destruct (Z.le_gt_cases rest 0); [lia|]. specialize (Hall ltac:(lia)). subst takes. lia.
Qed.

(** A grant adds its credits to the available balance, the debt repaid out of them. *)
Lemma grant_available now tenant source p r credits ex actor d t l ms :
  wf d → txn_tenant t = tenant → grant_lot tenant source p r credits ex actor now d l →
  source ∈ GRANT_SOURCES → grant_moves tenant credits d (lot_id l) ms →
  match ex with None => True | Some x => now < dt_us x end →
  lots_sum tenant (counted now) (booked now t [l] ms d) = lots_sum tenant (counted now) d + credits.
Proof.
  intros Hwf <- Hl Hs Hms Hex. destruct (grant_bookable _ _ _ _ _ _ _ _ _ _ _ Hwf Hl Hms) as [Hids Hnew _].
  rewrite lots_sum_booked by (done || apply _). rewrite moves_sum_all.
  - f_equal. unfold grant_moves in Hms.
    destruct (head (filter (is_overdraft_of (txn_tenant t)) (lots d))) as [o|]; [|rewrite Hms; simpl; lia].
    destruct (lot_remaining o <? 0); cbv zeta in Hms; rewrite Hms; simpl; lia.
  - intros m Hm. setoid_rewrite list_elem_of_filter. destruct Hl as (Hl & _ & _).
    destruct (grant_moves_ids _ _ _ _ _ _ Hms Hm) as [->|(o & Ho & [Hot Hos] & ->)].
    + exists l. split_and!; [by rewrite Hl|apply elem_of_app; right; left| |done].
      left. rewrite Hl. unfold unexpired. simpl. split.
      * intros ->. by apply (bool_decide_pack ("overdraft"%string ∈ GRANT_SOURCES)) in Hs.
      * by destruct ex.
    + exists o. split_and!; [done|apply elem_of_app; by left|by right|done].
Qed.

Lemma overdraft_sum t d :
  wf d → lots_sum t (λ l, lot_source l = "overdraft"%string) d =
  match head (filter (is_overdraft_of t) (lots d)) with Some o => lot_remaining o | None => 0 end.
Proof.
  intros Hwf. unfold lots_sum, lots_of. rewrite list_filter_filter.
  rewrite (list_filter_iff _ (is_overdraft_of t)) by (unfold is_overdraft_of; tauto).
  destruct (filter (is_overdraft_of t) (lots d)) as [|o [|k rest]] eqn:Hf; simpl; [done|lia|].
  exfalso. assert (Hnd : NoDup (lot_id <$> filter (is_overdraft_of t) (lots d)))
    by apply NoDup_fmap_filter, Hwf.
  assert (Hin : ∀ x, x ∈ o :: k :: rest → x ∈ lots d ∧ is_overdraft_of t x).
  { intros x. rewrite <-Hf, list_elem_of_filter. tauto. }
  destruct (Hin o) as (Ho & Hot & Hos); [left|]. destruct (Hin k) as (Hk & Hkt & Hks); [right; left|].
  rewrite Hf, !fmap_cons in Hnd. apply NoDup_cons in Hnd as [Hnd _]. apply Hnd.
  rewrite (wf_overdraft d Hwf o k) by congruence. left.
Qed.

(** The debt after a grant: what the credits did not cover. *)
Lemma grant_debt now tenant source p r credits ex actor d t l ms :
  wf d → txn_tenant t = tenant → 0 < credits → grant_lot tenant source p r credits ex actor now d l →
  source ∈ GRANT_SOURCES → grant_moves tenant credits d (lot_id l) ms →
  let owed := - lots_sum tenant (λ k, lot_source k = "overdraft"%string) d in
  - lots_sum tenant (λ k, lot_source k = "overdraft"%string) (booked now t [l] ms d) =
  if 0 <? owed then Z.max 0 (owed - credits) else owed.
Proof.
  intros Hwf <- Hc Hl Hs Hms. cbv zeta.
  destruct (grant_bookable _ _ _ _ _ _ _ _ _ _ _ Hwf Hl Hms) as [Hids Hnew _].
  rewrite lots_sum_booked by (done || apply _). destruct Hl as (Hl & Hfresh & _).
  assert (Hln : lot_source l ≠ "overdraft"%string).
  { rewrite Hl. simpl. intros ->. by apply (bool_decide_pack ("overdraft"%string ∈ GRANT_SOURCES)) in Hs. }
  set (od := λ k : lot, lot_source k = "overdraft"%string).
  set (ls := filter (λ k, lot_tenant k = txn_tenant t) (lots d ++ [l])).
  assert (Hnol : ∀ a, moves_sum od ls [(lot_id l, a)] = 0).
  { intros a. apply moves_sum_none. intros m k ->%list_elem_of_singleton Hk Hid. unfold od.
    apply list_elem_of_filter in Hk as [_ Hk]. simpl in Hid.
    assert (k = l) as ->; [|done]. apply (key_inj lot_id _ _ _ Hids Hk); [apply elem_of_app; right; left|done]. }
  assert (Happ : ∀ m ms', moves_sum od ls (m :: ms') = moves_sum od ls [m] + moves_sum od ls ms').
  { intros m ms'. unfold moves_sum. rewrite (filter_app _ [m] ms'). apply sumZ_app. }
  unfold ls, od in *. rewrite overdraft_sum by done. unfold grant_moves in Hms.
  destruct (head (filter (is_overdraft_of (txn_tenant t)) (lots d))) as [o|] eqn:Hh; [|rewrite Hms, Hnol; simpl; lia].
  apply head_filter_Some in Hh as [Ho [Hot Hos]].
  destruct (Z.ltb_spec (lot_remaining o) 0); [|rewrite Hms, Hnol, (proj2 (Z.ltb_ge _ _)); lia].
  cbv zeta in Hms. rewrite Hms, Happ, Hnol, Happ, Hnol, moves_sum_all.
  - simpl. rewrite (proj2 (Z.ltb_lt _ _)) by lia. lia.
  - intros m ->%list_elem_of_singleton. exists o. split_and!; [|done|done].
    apply list_elem_of_filter. split; [done|]. apply elem_of_app. by left.
Qed.

(** ** A used key *)

Lemma effect_key_used now t key kind ue c rq fields d r d' x :
  x ∈ txns d → key_of x = (t, key) → debit_effect now t key kind ue c rq fields d r d' → d' = d.
Proof.
  intros Hx Hk He. destruct He as [| | |y rq' new ms sh _ _ _ (Hky & _ & _ & _ & _ & _ & Hfresh) _]; try done.
  destruct (Hfresh x Hx). congruence.
Qed.

Lemma grant_key_used now t key s a p ref ex c rq fields d r d' x :
  x ∈ txns d → key_of x = (t, key) → grant_effect now t key s a p ref ex c rq fields d r d' → d' = d.
Proof.
  intros Hx Hk He. destruct He as [|y l ms d1 (Hky & _ & _ & _ & _ & _ & Hfresh) _ _]; [done|].
  destruct (Hfresh x Hx). congruence.
Qed.

(** ** States

    The states a wallet passes through: it never owes while it holds (canonical),
    lots are consumed in order, other tenants are untouched, and what was
    written is never rewritten. *)

Local Open Scope Z_scope.
Local Open Scope py_scope.

(** ** The canonical state *)

Lemma delta_nonpos ms id : (∀ m, m ∈ ms → m.2 ≤ 0) → delta ms id ≤ 0.
Proof.
  intros H. unfold delta. rewrite <-(Z.opp_involutive (sumZ _ _)), <-sumZ_opp.
  assert (0 ≤ sumZ (λ m : string * Z, - m.2) (filter (λ m, m.1 = id) ms)); [|lia].
  apply sumZ_nonneg. intros m [_ Hm]%list_elem_of_filter. specialize (H m Hm). simpl. lia.
Qed.

Lemma move_lot_le t ms l :
  delta ms (lot_id l) ≤ 0 → lot_remaining (move_lot t ms l) ≤ lot_remaining l.
Proof.
  intros Hd. unfold move_lot. case_decide; [|done]. simpl. lia.
Qed.

(** A lot that is live after its credits only went down was live before. *)
Lemma live_before t t' now now' ms l :
  now ≤ now' → delta ms (lot_id l) ≤ 0 → live t now' (move_lot t' ms l) → live t now l.
Proof.
  intros Hn Hd (H1 & H2 & H3 & H4). pose proof (move_lot_le t' ms l Hd).
  rewrite move_lot_tenant in H1. rewrite move_lot_source in H2. rewrite move_lot_expires in H4.
  unfold live. split_and!; [done|done|lia|]. destruct (lot_expires_at l); [lia|done].
Qed.

Lemma takes_delta_overdraft t now d takes rest credits o :
  wf d → 0 ≤ credits → plan_allocation (live_pairs t now d) credits = (takes, rest) →
  o ∈ lots d → lot_source o = "overdraft"%string → delta (negated takes) (lot_id o) = 0.
Proof.
  intros Hwf Hc Hp Ho Hs. apply delta_notin. rewrite negated_fst.
  intros (m & Hm & Hin)%list_elem_of_fmap.
  destruct (plan_takable _ _ _ _ _ _ Hwf Hc Hp) as ([_ Htk] & _).
  destruct (Htk m Hin) as (l & Hl & Hid & _ & Hns & _). apply Hns.
  by rewrite (key_inj lot_id _ l o (wf_lots d Hwf) Hl Ho) by congruence.
Qed.

Lemma takes_nonpos t now d takes rest credits m :
  wf d → 0 ≤ credits → plan_allocation (live_pairs t now d) credits = (takes, rest) →
  m ∈ negated takes → m.2 ≤ 0.
Proof.
  intros Hwf Hc Hp (k & Hk & ->)%negated_elem.
  destruct (plan_takable _ _ _ _ _ _ Hwf Hc Hp) as ([_ Htk] & _).
  destruct (Htk k Hk) as (? & _ & _ & _ & _ & ?). simpl. lia.
Qed.

(** After a debit that ran short, no lot of the tenant is live. *)
Lemma short_drains t now d takes rest credits l ms :
  wf d → 0 ≤ credits → plan_allocation (live_pairs t now d) credits = (takes, rest) → 0 < rest →
  l ∈ lots d → live t now l → lot_remaining l + delta (negated takes ++ ms) (lot_id l) ≤ delta ms (lot_id l).
Proof.
  intros Hwf Hc Hp Hr Hl Hlive. destruct (plan_takable _ _ _ _ _ _ Hwf Hc Hp) as ([Hnd _] & _ & _ & Hall & _).
  specialize (Hall Hr). subst takes. rewrite delta_app.
  rewrite (delta_in _ (lot_id l) (- lot_remaining l)); [lia|by rewrite negated_fst|].
  apply negated_elem. exists (lot_id l, lot_remaining l). split; [|done].
  apply live_pairs_elem. eauto.
Qed.

Lemma canonical_booked N d d' :
  canonical N d →
  (∀ o' l', o' ∈ lots d' → l' ∈ lots d' → lot_source o' = "overdraft"%string → lot_remaining o' < 0 →
     lot_tenant l' = lot_tenant o' → live (lot_tenant o') N l' →
     ∃ o l, o ∈ lots d ∧ l ∈ lots d ∧ lot_source o = "overdraft"%string ∧ lot_remaining o < 0 ∧
       lot_tenant o = lot_tenant o' ∧ live (lot_tenant o') N l) →
  canonical N d'.
Proof.
  intros Hcan H o' l' Ho' Hl' Hs Hneg Ht Hlive.
  destruct (H o' l' Ho' Hl' Hs Hneg Ht Hlive) as (o & l & Ho & Hl & Hso & Hno & Hto & Hlive').
  rewrite <-Hto in Hlive'. apply (Hcan o l); try done. by destruct Hlive'.
Qed.

Lemma debit_canonical N now tenant credits d t new ms sh :
  wf d → 0 < credits → now ≤ N → txn_tenant t = tenant → debit_moves tenant now credits d new ms sh →
  canonical N d → canonical N (booked now t new ms d).
Proof.
  intros Hwf Hc Hn Htt Hms Hcan. apply (canonical_booked N d); [done|].
  intros o' l' Ho' Hl' Hs Hneg Htl Hlive.
  unfold debit_moves in Hms. destruct (plan_allocation (live_pairs tenant now d) credits) as [takes rest] eqn:Hp.
  assert (Hneg0 : ∀ m, m ∈ negated takes → m.2 ≤ 0) by (intros m; eapply takes_nonpos; [done| |done]; lia).
  apply elem_of_booked_lots in Ho' as (o & Ho & ->). apply elem_of_booked_lots in Hl' as (l & Hl & ->).
  rewrite !move_lot_tenant, ?move_lot_source in *. rewrite Htt in *.
  destruct Hms as [-> Hms]. destruct (Z.ltb_spec 0 rest) as [Hr|Hr].
  - destruct Hms as (od & Hov & ->).
    assert (Hneg1 : ∀ m, m ∈ negated takes ++ [(lot_id od, - rest)] → m.2 ≤ 0).
    { intros m [Hm| ->%list_elem_of_singleton]%elem_of_app; [by apply Hneg0|simpl; lia]. }
    assert (Hlin : l ∈ lots d).
    { destruct Hl as [Hl|Hl]; [done|]. destruct Hov as [[_ Hods] [[_ ->]|[-> _]]]; [set_solver|].
      apply list_elem_of_singleton in Hl as ->. destruct Hlive as (_ & Hns & _). by rewrite move_lot_source in Hns. }
    assert (Hlive0 : live (lot_tenant o) now l).
    { eapply live_before; [done| |exact Hlive]. by apply delta_nonpos. }
    destruct (decide (lot_tenant o = tenant)) as [Heq|Hne].
    + exfalso. rewrite Heq in Hlive0. destruct Hlive as (_ & _ & Hpos & _).
      rewrite move_lot_remaining in Hpos by congruence.
      pose proof (short_drains tenant now d takes rest credits l [(lot_id od, - rest)] Hwf ltac:(lia) Hp Hr Hlin Hlive0) as Hz.
      assert (delta [(lot_id od, - rest)] (lot_id l) ≤ 0); [|lia].
      apply delta_nonpos. intros m ->%list_elem_of_singleton. simpl. lia.
    + exists o, l. rewrite move_lot_other in Hneg by done. rewrite move_lot_other in Hlive by congruence.
      split_and!; try done. destruct Ho as [Ho|Ho]; [done|].
      destruct Hov as [[Hodt _] [[_ ->]|[-> _]]]; [set_solver|]. apply list_elem_of_singleton in Ho as ->. done.
  - destruct Hms as [-> ->]. destruct Ho as [Ho|Ho]; [|set_solver]. destruct Hl as [Hl|Hl]; [|set_solver].
    assert (Hrem : lot_remaining (move_lot tenant (negated takes) o) = lot_remaining o).
    { unfold move_lot. case_decide; [|done]. simpl.
      rewrite (takes_delta_overdraft tenant now d takes rest credits o Hwf ltac:(lia) Hp Ho Hs). lia. }
    exists o, l. rewrite Hrem in Hneg. split_and!; try done.
    eapply live_before; [done| |exact Hlive]. by apply delta_nonpos.
Qed.

Lemma grant_canonical N now tenant source p r credits ex actor d t l ms :
  wf d → txn_tenant t = tenant → 0 < credits → source ∈ GRANT_SOURCES →
  grant_lot tenant source p r credits ex actor now d l → grant_moves tenant credits d (lot_id l) ms →
  canonical N d → canonical N (booked now t [l] ms d).
Proof.
  intros Hwf Htt Hc Hsrc (Hl & Hfresh & _) Hms Hcan. apply (canonical_booked N d); [done|].
  intros o' k' Ho' Hk' Hs Hneg Htk Hlive.
  apply elem_of_booked_lots in Ho' as (o & Ho & ->). apply elem_of_booked_lots in Hk' as (k & Hk & ->).
  rewrite !move_lot_tenant, ?move_lot_source in *. rewrite Htt in *.
  assert (Ho0 : o ∈ lots d).
  { destruct Ho as [Ho|Ho]; [done|]. apply list_elem_of_singleton in Ho as ->. rewrite Hl in Hs. simpl in Hs.
    subst source. by apply (bool_decide_pack ("overdraft"%string ∈ GRANT_SOURCES)) in Hsrc. }
  destruct (decide (lot_tenant o = tenant)) as [Heq|Hne].
  2: { rewrite move_lot_other in Hneg by done. rewrite move_lot_other in Hlive by congruence.
    exists o, k. split_and!; try done. destruct Hk as [Hk|Hk]; [done|].
    apply list_elem_of_singleton in Hk as ->. rewrite Hl in Htk. simpl in Htk. congruence. }
  assert (Hh : head (filter (is_overdraft_of tenant) (lots d)) = Some o).
  { by apply head_overdraft. }
  unfold grant_moves in Hms. rewrite Hh in Hms.
  assert (Hol : lot_id o ≠ lot_id l) by by apply Hfresh.
  rewrite move_lot_remaining in Hneg by done. cbv zeta in Hms.
  destruct (Z.ltb_spec (lot_remaining o) 0) as [Hn|Hn]; rewrite Hms in Hneg, Hlive.
  2: { rewrite !delta_cons, delta_nil in Hneg. repeat case_decide; try congruence. lia. }
  rewrite !delta_cons, delta_nil in Hneg. rewrite !(decide_False (P := lot_id l = lot_id o)), decide_True in Hneg by congruence.
  exists o, k. split_and!; try done.
  - destruct Hk as [Hk|Hk]; [done|]. exfalso. apply list_elem_of_singleton in Hk as ->.
    destruct Hlive as (_ & _ & Hpos & _). rewrite move_lot_remaining in Hpos by by rewrite Hl.
    rewrite !delta_cons, delta_nil in Hpos. repeat case_decide; try congruence.
    rewrite Hl in Hpos. simpl in Hpos. lia.
  - eapply live_before; [reflexivity| |exact Hlive].
    destruct Hk as [Hk|Hk].
    + rewrite !delta_cons, delta_nil, !(decide_False (P := lot_id l = _)) by (intros He; by apply (Hfresh k)).
      case_decide as Hok; [|lia]. exfalso.
      assert (o = k) as -> by by apply (key_inj lot_id _ _ _ (wf_lots d Hwf)).
      destruct Hlive as (_ & Hns & _). by rewrite move_lot_source in Hns.
    + apply list_elem_of_singleton in Hk as ->.
      destruct Hlive as (_ & _ & Hpos & _). rewrite move_lot_remaining in Hpos by by rewrite Hl.
      rewrite !delta_cons, delta_nil in Hpos |- *. repeat case_decide; try congruence.
      rewrite Hl in Hpos. simpl in Hpos. lia.
Qed.

Lemma expire_canonical N now d t l :
  wf d → txn_tenant t = lot_tenant l → l ∈ lots d → due now l →
  canonical N d → canonical N (booked now t [] [(lot_id l, - lot_remaining l)] d).
Proof.
  intros Hwf Htt Hl (Hns & Hpos & _) Hcan. apply (canonical_booked N d); [done|].
  intros o' k' Ho' Hk' Hs Hneg Htk Hlive.
  apply elem_of_booked_lots in Ho' as (o & [Ho|Ho] & ->); [|set_solver].
  apply elem_of_booked_lots in Hk' as (k & [Hk|Hk] & ->); [|set_solver].
  rewrite !move_lot_tenant, ?move_lot_source in *.
  exists o, k. split_and!; try done.
  - unfold move_lot in Hneg. case_decide; [|done]. simpl in Hneg.
    rewrite delta_cons, delta_nil, decide_False in Hneg; [lia|]. intros Heq. apply Hns.
    by rewrite (key_inj lot_id _ l o (wf_lots d Hwf) Hl Ho).
  - eapply live_before; [reflexivity| |exact Hlive]. apply delta_nonpos.
    intros m ->%list_elem_of_singleton. simpl. lia.
Qed.

Lemma effect_canonical N now d d' :
  wf d → now ≤ N → canonical N d → wallet_effect now d d' → canonical N d'.
Proof.
  intros Hwf Hn Hcan Heff. destruct Heff as
    [|tenant key kind ue credits rq fields r d' He|tenant key source actor p ref ex credits rq fields r d' Hc Hs He
     |tenant id r d' He]; [done|..].
  - destruct He as [| |t rq'|t rq' new ms sh Hc _ _ Ht Hms]; [done..|].
    destruct (txn_for_facts _ _ _ _ _ _ _ _ Ht) as [Htt _].
    by apply (debit_canonical N now tenant credits d t new ms sh).
  - destruct He as [|t l ms d1 Ht Hl Hms]; [done|].
    destruct (open_account_grant now tenant actor d now source p ref credits ex l ms Hl Hms) as [Hl1 Hms1].
    destruct (txn_for_facts _ _ _ _ _ _ _ _ Ht) as [Htt _].
    apply (grant_canonical N now tenant source p ref credits ex actor); try done.
    + by apply wf_open_account.
    + unfold d1, canonical. by destruct (open_account_frame now tenant actor d) as (-> & _).
  - destruct He as [|t l Hl <- <- Hdue Ht]; [done|].
    destruct (txn_for_facts _ _ _ _ _ _ _ _ Ht) as [Htt _].
    by apply (expire_canonical N now d t l).
Qed.

(** ** Lots are consumed in order *)

#[export] Instance consumed_before_total : Total consumed_before.
Proof.
  intros l k. unfold consumed_before. destruct (lot_expires_at l), (lot_expires_at k); auto.
  all: destruct (str_le_total (lot_id l) (lot_id k)).
  all: destruct (Z.lt_trichotomy (lot_created_at l) (lot_created_at k)) as [|[|]]; auto.
  all: destruct (Z.lt_trichotomy z z0) as [|[|]]; auto 6.
Qed.

#[export] Instance consumed_before_trans : Transitive consumed_before.
Proof.
  intros a b c. unfold consumed_before.
  destruct (lot_expires_at a), (lot_expires_at b), (lot_expires_at c); try done; intros H1 H2.
  all: assert (Hs : str_le (lot_id a) (lot_id b) → str_le (lot_id b) (lot_id c) → str_le (lot_id a) (lot_id c))
    by (intros; by etrans).
  - destruct H1 as [?|[? [?|[? ?]]]], H2 as [?|[? [?|[? ?]]]]; try (left; lia).
    all: right; (split; [lia|]); try (left; lia). right. split; [lia|auto].
  - destruct H1 as [?|[? ?]], H2 as [?|[? ?]]; try (left; lia). right. split; [lia|auto].
Qed.

Lemma str_le_antisym a b : str_le a b → str_le b a → a = b.
Proof.
  revert b. induction a as [|x a IH]; intros [|y b]; try done.
  rewrite !str_le_cons. intros [?|[-> H1]] [?|[? H2]]; [lia|subst; lia|lia|]. f_equal. by apply IH.
Qed.

Lemma consumed_before_antisym l k : consumed_before l k → consumed_before k l → lot_id l = lot_id k.
Proof.
  unfold consumed_before. destruct (lot_expires_at l), (lot_expires_at k); try done; intros H1 H2.
  - apply str_le_antisym; destruct H1 as [?|[? [?|[? ?]]]], H2 as [?|[? [?|[? ?]]]]; try lia; done.
  - apply str_le_antisym; destruct H1 as [?|[? ?]], H2 as [?|[? ?]]; try lia; done.
Qed.

(** A debit that takes from a lot has emptied every lot to be consumed before it. *)
Lemma debit_order now tenant credits d new ms sh l k :
  wf d → 0 ≤ credits → debit_moves tenant now credits d new ms sh →
  l ∈ lots d → k ∈ lots d → live tenant now l → live tenant now k →
  consumed_before l k → lot_id l ≠ lot_id k → delta ms (lot_id k) ≠ 0 →
  delta ms (lot_id l) = - lot_remaining l.
Proof.
  intros Hwf Hc Hms Hl Hk Hll Hlk Hb Hne Hd. unfold debit_moves in Hms.
  destruct (plan_allocation (live_pairs tenant now d) credits) as [takes rest] eqn:Hp.
  destruct (plan_takable _ _ _ _ _ _ Hwf Hc Hp) as ([Hnd _] & _ & _ & _ & _).
  assert (Hms' : ∀ j, j ∈ lots d → live tenant now j → delta ms (lot_id j) = delta (negated takes) (lot_id j)).
  { intros j Hj (_ & Hjs & _). destruct Hms as [_ Hms]. destruct (0 <? rest); [|by destruct Hms as [_ ->]].
    destruct Hms as (o & [[_ Hos] Hov] & ->). rewrite delta_app, delta_cons, delta_nil, decide_False; [lia|].
    intros Heq. destruct Hov as [[Ho _]|(_ & _ & Hid & _)]; [|by apply (Hid j)].
    apply Hjs. by rewrite <-(key_inj lot_id _ o j (wf_lots d Hwf) Ho Hj). }
  rewrite Hms' in Hd |- * by done. unfold plan_allocation in Hp.
  pose proof (plan_go_spec (live_pairs tenant now d) credits Hc) as Hplan.
  destruct (plan_go (live_pairs tenant now d) credits) as [tk r]. injection Hp as -> _.
  destruct Hplan as (_ & _ & _ & _ & HF & Hfull).
  { intros m (j & _ & Hj & ->)%live_pairs_elem. apply Hj. }
  assert (Hin : lot_id k ∈ takes.*1).
  { destruct (decide (lot_id k ∈ takes.*1)); [done|]. by rewrite delta_notin in Hd by by rewrite negated_fst. }
  apply list_elem_of_fmap in Hin as ([? a] & Hida & [j Hj]%list_elem_of_lookup). simpl in Hida. subst.
  assert (Hkj : live_lots tenant now d !! j = Some k).
  { eapply Forall2_lookup_l in HF as ([id' b] & Hb1 & Hb2 & _); [|exact Hj]. simpl in Hb2. subst.
    apply lookup_take_Some in Hb1 as [Hb1 _]. unfold live_pairs in Hb1. rewrite list_lookup_fmap in Hb1.
    destruct (live_lots tenant now d !! j) as [k'|] eqn:Hk'; simplify_eq/=. f_equal.
    apply (key_inj lot_id _ _ _ (wf_lots d Hwf)); [|done|done].
    apply list_elem_of_lookup_2 in Hk'. unfold live_lots in Hk'.
    rewrite merge_sort_Permutation in Hk'. by apply list_elem_of_filter in Hk' as [_ ?]. }
  assert (Hlin : l ∈ live_lots tenant now d).
  { unfold live_lots. rewrite merge_sort_Permutation. by apply list_elem_of_filter. }
  apply list_elem_of_lookup in Hlin as [i Hi].
  assert (Hsorted : StronglySorted consumed_before (live_lots tenant now d))
    by (apply StronglySorted_merge_sort; apply _).
  destruct (Nat.lt_trichotomy i j) as [Hij|[->|Hij]].
  - apply delta_in; [by rewrite negated_fst|]. apply negated_elem. exists (lot_id l, lot_remaining l).
    split; [|done]. apply (list_elem_of_lookup_2 _ i). rewrite Hfull.
    + unfold live_pairs. by rewrite list_lookup_fmap, Hi.
    + apply lookup_lt_Some in Hj. lia.
  - simplify_eq.
  - exfalso. apply Hne. apply consumed_before_antisym; [done|].
    by apply (StronglySorted_lookup_lt consumed_before _ j i k l Hsorted).
Qed.

(** ** Other tenants are untouched *)

(** Everything the wallet knows of one tenant. *)
Definition tenant_rows (t : string) (d : db) : bool * list lot * list txn * list entry :=
  (on_credit_billing t d, lots_of t d, filter (λ x, txn_tenant x = t) (txns d),
   filter (λ e, en_tenant e = t) (entries d)).

Lemma booked_isolated now x new ms d t :
  t ≠ txn_tenant x → (∀ l, l ∈ new → lot_tenant l = txn_tenant x) →
  tenant_rows t (booked now x new ms d) = tenant_rows t d.
Proof.
  intros Ht Hnew. unfold tenant_rows. rewrite booked_other_lots by done.
  unfold booked, moved, set_lots, set_txns. simpl. rewrite !filter_app.
  rewrite (filter_none _ [x]) by (intros y ->%list_elem_of_singleton; congruence).
  rewrite (filter_none _ (_ <$> ms)); [by rewrite !app_nil_r|].
  intros y (m & -> & _)%list_elem_of_fmap. simpl. congruence.
Qed.

Lemma open_account_isolated now tenant actor d t :
  t ≠ tenant → tenant_rows t (open_account now tenant actor d) = tenant_rows t d.
Proof.
  intros Ht. unfold tenant_rows, lots_of, on_credit_billing.
  destruct (open_account_frame now tenant actor d) as (-> & -> & ->). do 3 f_equal.
  apply bool_decide_ext. unfold open_account. case_bool_decide; [done|]. simpl.
  rewrite Exists_app, Exists_cons, Exists_nil. simpl. intuition congruence.
Qed.

Lemma debit_isolated now tenant key kind ue credits rq fields d r d' t :
  wf d → debit_effect now tenant key kind ue credits rq fields d r d' → t ≠ tenant →
  tenant_rows t d' = tenant_rows t d.
Proof.
  intros Hwf [| |x rq'|x rq' new ms sh Hc _ _ Hx Hms] Ht; [done..|].
  destruct (txn_for_facts _ _ _ _ _ _ _ _ Hx) as [Htt _].
  apply booked_isolated; [congruence|]. rewrite Htt.
  destruct (debit_bookable _ _ _ _ _ _ _ Hwf (Z.lt_le_incl _ _ Hc) Hms) as [_ Hnew _]. intros l Hl. by apply Hnew.
Qed.

Lemma grant_isolated now tenant key source actor p ref ex credits rq fields d r d' t :
  grant_effect now tenant key source actor p ref ex credits rq fields d r d' → t ≠ tenant →
  tenant_rows t d' = tenant_rows t d.
Proof.
  intros [x|x l ms d1 Hx (Hl & _) Hms] Ht; [done|].
  destruct (txn_for_facts _ _ _ _ _ _ _ _ Hx) as [Htt _].
  rewrite booked_isolated; [by apply open_account_isolated|congruence|].
  intros k ->%list_elem_of_singleton. by rewrite Hl, Htt.
Qed.

Lemma expire_isolated now tenant id d r d' t :
  expire_effect now tenant id d r d' → t ≠ tenant → tenant_rows t d' = tenant_rows t d.
Proof.
  intros [|x l Hl _ <- _ Hx] Ht; [done|]. destruct (txn_for_facts _ _ _ _ _ _ _ _ Hx) as [Htt _].
  apply booked_isolated; [congruence|set_solver].
Qed.

(** ** Nothing written is rewritten *)

Definition lot_grant (l : lot) : string * string * string * option string * option string * Z * option Z * Z * string :=
  (lot_id l, lot_tenant l, lot_source l, lot_provider l, lot_external_ref l, lot_granted l,
   lot_expires_at l, lot_created_at l, lot_created_by l).

(** Transactions, entries and what a lot was granted as only accumulate. *)
Record grows (d d' : db) : Prop := {
  gr_accounts : accounts d `prefix_of` accounts d';
  gr_txns : txns d `prefix_of` txns d';
  gr_entries : entries d `prefix_of` entries d';
  gr_lots : lot_grant <$> lots d `prefix_of` lot_grant <$> lots d';
}.

#[export] Instance grows_preorder : PreOrder grows.
Proof.
  split; [by intros d|]. intros d1 d2 d3 [H1 H2 H3 H4] [K1 K2 K3 K4]. split; by etrans.
Qed.

(** The wallet's tables are the same. *)
Lemma grows_same d d' : same_wallet d d' → grows d d'.
Proof. intros [[= H1 H2 H3 H4]]. split; by rewrite ?H1, ?H2, ?H3, ?H4. Qed.

Lemma grows_open_account now tenant actor d : grows d (open_account now tenant actor d).
Proof.
  unfold open_account. case_bool_decide; [done|]. split; simpl; try done. by exists [Account tenant now actor].
Qed.

Lemma grows_booked now x new ms d : grows d (booked now x new ms d).
Proof.
  split; simpl; try done; [by exists [x]|by eexists|].
  exists (lot_grant <$> new). rewrite <-list_fmap_compose, <-fmap_app. apply list_fmap_ext.
  intros i l _. unfold lot_grant. simpl.
  by destruct (move_lot_static (txn_tenant x) ms l) as (-> & -> & -> & -> & -> & -> & -> & -> & ->).
Qed.

Lemma effect_grows now d d' : wallet_effect now d d' → grows d d'.
Proof.
  intros [|? ? ? ? ? ? ? ? ? He|? ? ? ? ? ? ? ? ? ? ? ? _ _ He|? ? ? ? He]; [done|..];
    destruct He; try done; try apply grows_booked.
  etrans; [apply grows_open_account|apply grows_booked].
Qed.
