(* ===== verification/UsageFacts.v ===== *)
(** What processing one provider event does: the inbox row and the wallet move
    together, and nothing but a linked customer's catalogued purchase is granted. *)
From S2P Require Import Prelude Decimals Calendar Db Wallet Webhooks WalletSpec WalletFacts WalletLaws Usage.

Local Open Scope string_scope.
Local Open Scope list_scope.
Local Open Scope Z_scope.
Local Open Scope py_scope.

(** ** The inbox row of an event *)

Definition row_status (ev : BillingEvent) (d : db) : option string :=
  ib_status <$> head (filter (is_row ev) (inbox d)).

Definition finished (ev : BillingEvent) (d : db) : Prop :=
  ∃ s, row_status ev d = Some s ∧ s ∈ _TERMINAL.

(** [d'] is [d] but for its inbox. *)
Definition inbox_only (d d' : db) : Prop := d' = set_inbox (λ _, inbox d') d.

#[export] Instance inbox_only_preorder : PreOrder inbox_only.
Proof.
  split; [intros []; done|]. intros [] [] []. unfold inbox_only, set_inbox. simpl. intros H1 H2. congruence.
Qed.

Lemma inbox_only_wallet d d' : inbox_only d d' → same_wallet d d'.
Proof. intros ->. done. Qed.

Lemma inbox_only_tables d d' : inbox_only d d' → customers d' = customers d ∧ products d' = products d.
Proof. by intros ->. Qed.

Lemma update_rows_Ok (P : inbox_row → Prop) `{!∀ r, Decision (P r)} f d d' :
  update_rows P f d = Ok d' →
  d' = set_inbox (λ _, update_where P f (inbox d)) d ∧
  all_ok (λ r, update_ok r (f r)) (filter P (inbox d)) = Ok ().
Proof. unfold update_rows. intros Hu. inv_ok. destruct x. done. Qed.

Lemma head_update_where (P : inbox_row → Prop) `{!∀ r, Decision (P r)} f l :
  (∀ r, P (f r) ↔ P r) → head (filter P (update_where P f l)) = f <$> head (filter P l).
Proof.
  intros Hf. induction l as [|r l IH]; [done|]. unfold update_where. rewrite fmap_cons, !filter_cons.
  destruct (decide (P r)) as [Hr|Hr].
  - by rewrite decide_True by by apply Hf.
  - by rewrite decide_False.
Qed.

Lemma is_row_static ev r s t c n :
  (is_row ev (set_status s t c n r) ↔ is_row ev r) ∧ (is_row ev (received_again n r) ↔ is_row ev r) ∧
  (is_row ev (failed_again s n r) ↔ is_row ev r).
Proof. done. Qed.

Lemma row_status_Some ev d : Exists (is_row ev) (inbox d) → ∃ r, head (filter (is_row ev) (inbox d)) = Some r.
Proof.
  intros (r & Hr & Hev)%Exists_exists. destruct (head _) as [r'|] eqn:Hh; [eauto|].
  rewrite head_filter_None in Hh. by destruct (Hh r).
Qed.

Section triples.
Context (e : env) (ev : BillingEvent).

Lemma triple_insert_received d :
  triple e (eq d) (insert_received ev)
    (λ r d', match r with
      | Some (received_at, now) => received_at = now ∧ inbox_only d d' ∧ row_status ev d = None ∧
          row_status ev d' = Some "received"
      | None => d' = d ∧ row_status ev d ≠ None
      end) (λ _ d', d' = d).
Proof.
  apply triple_stmt; [by intros ? ? <-|]. intros ? u <-. destruct (check_row ev); simpl; [|done].
  case_bool_decide as Hex.
  - split; [done|]. unfold row_status. by destruct (row_status_Some ev d Hex) as [r ->].
  - split_and!; [done|by destruct d| |].
    + unfold row_status. destruct (head _) eqn:Hh; [|done]. apply head_filter_Some in Hh as [? ?].
      destruct Hex. apply Exists_exists. eauto.
    + unfold row_status. simpl. rewrite filter_app, (filter_none _ (inbox d)).
      * rewrite filter_cons, decide_True by done. done.
      * intros r Hr Hev. apply Hex. apply Exists_exists. eauto.
Qed.

Lemma triple_update d (f : Z → inbox_row → inbox_row) (s : string) :
  (∀ n r, is_row ev (f n r) ↔ is_row ev r) → (∀ n r, ib_status (f n r) = s) →
  triple e (eq d) (stmt (λ now _ d, let! d' := update_rows (is_row ev) (f now) d in Ok ((), d')))
    (λ _ d', inbox_only d d' ∧ (row_status ev d ≠ None → row_status ev d' = Some s) ∧
       (∀ s0, row_status ev d = Some s0 → s0 ∈ ["applied"; "ignored"] → s0 = s)) (λ _ d', d' = d).
Proof.
  intros Hf Hs. apply triple_stmt; [by intros ? ? <-|]. intros ? u <-.
  destruct (update_rows _ _ d) as [d'|] eqn:Hu; simpl; [|done].
  apply update_rows_Ok in Hu as [-> Hok]. split; [by destruct d|]. unfold row_status. simpl.
  rewrite head_update_where by done.
  destruct (filter (is_row ev) (inbox d)) as [|r rs]; simpl in *; [done|]. split; [by rewrite Hs|].
  intros s0 [= <-] Hin. apply rbind_Ok in Hok as ([] & Hok & _). unfold update_ok in Hok. inv_ok.
  rewrite Hs in *. rewrite (bool_decide_true (ib_status r ∈ _)) in * by done. simpl in *.
  destruct (bool_decide (s = ib_status r)) eqn:Hb; [|done]. by apply bool_decide_eq_true in Hb.
Qed.

Lemma triple_finish d s t r :
  triple e (eq d) (_finish ev s t r)
    (λ _ d', inbox_only d d' ∧ (row_status ev d ≠ None → row_status ev d' = Some s)) (λ _ d', d' = d).
Proof.
  eapply triple_conseq; [apply (triple_update d (λ n, set_status s t r n) s); done|done| |done].
  intros [] d' (? & ? & _). done.
Qed.

Lemma triple_claim d :
  triple e (eq d) (_claim ev)
    (λ r d', match r with
      | None => d' = d ∧ finished ev d
      | Some (received_at, now) => inbox_only d d' ∧ ¬ finished ev d ∧ row_status ev d' = Some "received"
      end) (λ _ _, True).
Proof.
  unfold _claim. eapply triple_bind.
  { eapply triple_conseq; [apply triple_insert_received|done|intros a d' H; exact H|done]. }
  intros [[ra n]|]; apply triple_pure; intros d'.
  - intros (_ & Hin & Hnone & Hs). apply triple_ret. intros ? <-. split_and!; [done| |done].
    intros (s & Hs' & _). congruence.
  - intros [-> Hsome]. unfold select_row. eapply (spec_bind e d _ _ (λ r,
      r = (λ r, (ib_status r, ib_received_at r, e_now e)) <$> head (filter (is_row ev) (inbox d)))).
    { by apply triple_query; [|intros ? <-]. }
    intros r ->. unfold row_status in Hsome. destruct (head _) as [r|] eqn:Hh; [simpl|done].
    assert (Hst : row_status ev d = Some (ib_status r)) by (unfold row_status; by rewrite Hh).
    case_bool_decide as Ht.
    { apply triple_ret. intros ? <-. split; [done|]. by exists (ib_status r). }
    eapply triple_bind.
    { eapply triple_conseq; [apply (triple_update d received_again "received"); done|done|intros a d' H; exact H|done]. }
    intros []. apply triple_pure. intros d' (Hin & Hs & _). apply triple_ret. intros ? <-.
    split_and!; [done| |apply Hs; by rewrite Hst]. intros (s & Hs' & Hts). congruence.
Qed.
End triples.

(** ** The wallet's invariants see only the wallet's tables *)

#[export] Instance wf_proper : Proper (same_wallet ==> iff) wf.
Proof.
  enough (Hp : ∀ d d', same_wallet d d' → wf d → wf d') by (intros d d' Hs; split; apply Hp; by symmetry in Hs || done).
  intros [] [] [[= -> -> -> ->]] [W1 W2 W3 W4 W5 W6 W7 W8 W9 W10 W11]. by split.
Qed.

#[export] Instance ledger_proper : Proper (same_wallet ==> iff) ledger_ok.
Proof. intros [] [] [[= -> -> -> ->]]. done. Qed.

#[export] Instance inv_proper : Proper (same_wallet ==> iff) inv.
Proof. intros d d' Hs. unfold inv. by rewrite Hs. Qed.

#[export] Instance canonical_proper now : Proper (same_wallet ==> iff) (canonical now).
Proof. intros [] [] [[= -> -> -> ->]]. done. Qed.

Lemma preserves_same_wallet {A} (I : db → Prop) (f : Z → string → db → result exn (A * db)) :
  Proper (same_wallet ==> iff) I →
  (∀ now u d a d', f now u d = Ok (a, d') → same_wallet d d') → preserves I (stmt f).
Proof.
  intros HI Hf. apply preserves_stmt. intros now u d a d' Hd He. by rewrite <-(Hf _ _ _ _ _ He).
Qed.

Lemma update_rows_wallet (P : inbox_row → Prop) `{!∀ r, Decision (P r)} f d d' :
  update_rows P f d = Ok d' → same_wallet d d'.
Proof. by intros [-> _]%update_rows_Ok. Qed.

Section inbox_preserves.
Context (I : db → Prop) (HI : Proper (same_wallet ==> iff) I).

Lemma preserves_finish ev s t r : preserves I (_finish ev s t r).
Proof.
  apply preserves_same_wallet; [done|]. intros now u d a d' Hd. inv_ok. by eapply update_rows_wallet.
Qed.

Lemma preserves_claim ev : preserves I (_claim ev).
Proof.
  unfold _claim, select_row. pres.
  - apply preserves_same_wallet; [done|]. intros now u d a d' Hd. by inv_ok.
  - apply preserves_same_wallet; [done|]. intros now u d a d' Hd. inv_ok. by eapply update_rows_wallet.
Qed.

Lemma preserves_upsert_failed ev c : preserves I (upsert_failed ev c).
Proof.
  apply preserves_same_wallet; [done|]. intros now u d a d' Hd. inv_ok.
  destruct (head _); inv_ok; try done. by eapply update_rows_wallet.
Qed.

Lemma preserves_link_customer t p r : preserves I (link_customer t p r).
Proof.
  unfold link_customer, tenant_for_customer. pres.
  apply preserves_same_wallet; [done|]. intros now u d a d' Hd. by inv_ok.
Qed.

Lemma preserves_put_product p : preserves I (put_product p).
Proof. apply preserves_same_wallet; [done|]. intros now u d a d' Hd. cbv zeta in Hd; inv_ok; done. Qed.

Lemma preserves_sweep n b m : preserves I (sweep_old_rows n b m).
Proof.
  unfold sweep_old_rows. apply preserves_bind; [apply preserves_refuse_if|intros []]. generalize 0%nat.
  induction m as [|m IH]; intros total; simpl; [apply preserves_ret|].
  apply preserves_bind; [apply preserves_transaction|intros k].
  - apply preserves_same_wallet; [done|]. intros now u d a d' Hd. cbv zeta in Hd; inv_ok; done.
  - destruct (bool_decide _); [apply preserves_ret|apply IH].
Qed.
End inbox_preserves.

#[export] Hint Resolve wf_proper preserves_finish preserves_claim preserves_upsert_failed : inv.

(** ** What one delivery does *)

(** The linked tenant of an event's customer. *)
Definition linked (ev : BillingEvent) (tenant : string) (d : db) : Prop :=
  ∃ c, c ∈ customers d ∧ cu_provider c = ev_provider ev ∧ ev_customer_ref ev = Some (cu_ref c) ∧
    cu_tenant c = tenant.

(** The catalogue entry of an event's product. *)
Definition catalogued (ev : BillingEvent) (p : product) (d : db) : Prop :=
  p ∈ products d ∧ pr_provider p = ev_provider ev ∧ ev_product_ref ev = Some (pr_ref p) ∧ pr_active p = true.

Definition noted_status (o : Outcome) : option string :=
  match o with
  | Oignored => Some "ignored" | Oquarantined => Some "quarantined" | Oretry => Some "received"
  | _ => None
  end.

Inductive process_effect (now : Z) (ev : BillingEvent) (d : db) : Outcome → db → Prop :=
| process_duplicate : finished ev d → process_effect now ev d Oduplicate d
| process_noted o d' :
    ¬ finished ev d → inbox_only d d' → row_status ev d' = noted_status o → noted_status o ≠ None →
    process_effect now ev d o d'
| process_granted tenant p payment_ref ex credits rq fields r d1 d2 d' :
    ¬ finished ev d → linked ev tenant d → catalogued ev p d → ev_kind ev ∈ _PAID →
    ev_payment_ref ev = Some payment_ref → payment_ref ≠ "" →
    (∀ l, l ∈ lots d → ¬ is_grant_of tenant (ev_provider ev) payment_ref l) →
    credits_amount (pr_credits p) = Ok credits → 0 < credits →
    inbox_only d d1 →
    grant_effect now tenant (grant_key ev) (grant_source (ev_kind ev)) (webhook_actor ev)
      (Some (ev_provider ev)) (Some payment_ref) ex credits rq fields d1 r d2 →
    inbox_only d2 d' → row_status ev d' = Some "applied" →
    process_effect now ev d Oapplied d'
| process_clawed tenant l payment_ref credits rq fields r d1 d2 d' :
    ¬ finished ev d → linked ev tenant d → ev_kind ev = PAYMENT_REFUNDED →
    ev_payment_ref ev = Some payment_ref → payment_ref ≠ "" →
    l ∈ lots d → is_grant_of tenant (ev_provider ev) payment_ref l →
    credits = reclaimable_of now d l → 0 < credits → inbox_only d d1 →
    debit_effect now tenant (clawback_key (ev_provider ev) payment_ref) "clawback" None credits rq fields d1 r d2 →
    ap_status r = Sapplied → inbox_only d2 d' → row_status ev d' = Some "applied" →
    process_effect now ev d Oapplied d'.

Lemma finished_static ev d d' : row_status ev d = row_status ev d' → finished ev d → finished ev d'.
Proof. unfold finished. by intros ->. Qed.

Lemma grant_effect_inbox now t k s a p r ex c rq f d x d' :
  grant_effect now t k s a p r ex c rq f d x d' → inbox d' = inbox d ∧ customers d' = customers d ∧ products d' = products d.
Proof. destruct 1; [done|]. unfold d1, open_account. simpl. by case_bool_decide. Qed.

Lemma debit_effect_inbox now t k kd ue c rq f d x d' :
  debit_effect now t k kd ue c rq f d x d' → inbox d' = inbox d ∧ customers d' = customers d ∧ products d' = products d.
Proof. by destruct 1. Qed.

Lemma row_status_inbox ev d d' : inbox d = inbox d' → row_status ev d = row_status ev d'.
Proof. unfold row_status. by intros ->. Qed.

Lemma if_some_spec {A B} e d (x : option string) (f : string → Z → db → option A) (k : option A → M B) Q E :
  (∀ w c, E w c) →
  (∀ r, r = (match x with Some s => if falsy s then None else f s (e_now e) d | None => None end) →
     triple e (eq d) (k r) Q E) →
  triple e (eq d) (if_some x (λ s, query (f s)) ≫= k) Q E.
Proof.
  intros HE Hk. eapply (spec_bind e d _ _ (λ r, r = (match x with Some s => if falsy s then None else f s (e_now e) d | None => None end))); [|done].
  unfold if_some. destruct x as [s|]; [destruct (falsy s)|].
  - by apply triple_ret.
  - by apply triple_query; [|intros ? <-].
  - by apply triple_ret.
Qed.

Lemma linked_head ev d s t :
  ev_customer_ref ev = Some s →
  cu_tenant <$> head (filter (is_customer (ev_provider ev) s) (customers d)) = Some t → linked ev t d.
Proof.
  intros Hs Hh. destruct (head _) as [c|] eqn:Hc; simplify_eq/=. apply head_filter_Some in Hc as [Hin [H1 H2]].
  exists c. by rewrite Hs, H2.
Qed.

Lemma finish_as e ev d s t r (o : Outcome) (Q : Outcome → db → Prop) :
  row_status ev d ≠ None →
  (∀ d', inbox_only d d' → row_status ev d' = Some s → Q o d') →
  triple e (eq d) (_finish ev s t r ;; mret o) Q (λ _ _, True).
Proof.
  intros Hrow HQ. eapply triple_bind.
  - eapply triple_conseq; [apply triple_finish|done|intros a d' H; exact H|done].
  - intros []. apply triple_ret. intros d' [Hin Hs]. auto.
Qed.

Lemma head_merge_sort {A} (R : relation A) `{!RelDecision R} l x :
  head (merge_sort R l) = Some x → x ∈ l.
Proof.
  intros Hh. rewrite <-(merge_sort_Permutation R l). destruct (merge_sort R l); simplify_eq/=. left.
Qed.

Lemma head_merge_sort_None {A} (R : relation A) `{!RelDecision R} l :
  head (merge_sort R l) = None → l = [].
Proof.
  intros Hh. pose proof (merge_sort_Permutation R l) as Hp. destruct (merge_sort R l); [|done].
  by apply Permutation_nil_l in Hp.
Qed.

(** ** Applying a plan *)

Section apply.
Context (e : env) (ev : BillingEvent) (d d1 : db).
Context (Hwf : wf d) (Hfin : ¬ finished ev d) (H01 : inbox_only d d1)
  (Hst : row_status ev d1 = Some "received").
Let now := e_now e.

Lemma wf_claimed : wf d1.
Proof. by rewrite <-(inbox_only_wallet _ _ H01). Qed.

Lemma noted s t r o :
  noted_status o = Some s →
  triple e (eq d1) (_finish ev s t r ;; mret o) (process_effect now ev d) (λ _ _, True).
Proof.
  intros Ho. apply finish_as; [by rewrite Hst|]. intros d' Hin Hs.
  apply process_noted; [done|by etrans|by rewrite Hs|by rewrite Ho].
Qed.

Lemma apply_grant_spec tenant p payment_ref :
  linked ev tenant d → catalogued ev p d → ev_kind ev ∈ _PAID → ev_payment_ref ev = Some payment_ref →
  payment_ref ≠ "" → (∀ l, l ∈ lots d → ¬ is_grant_of tenant (ev_provider ev) payment_ref l) →
  triple e (eq d1) (apply_grant ev tenant p payment_ref) (process_effect now ev d) (λ _ _, True).
Proof.
  intros Hl Hp Hk Hr Hrn Hno. unfold apply_grant.
  eapply (spec_bind e d1 _ _ (λ _, True)).
  { unfold expiry_in. destruct (pr_expires_after_days p) as [n|]; [|by apply triple_ret].
    destruct (n =? 0); [by apply triple_ret|].
    eapply (triple_bind e _ _ _ (λ _, eq d1)); [by apply triple_utcnow|]. intros t.
    destruct (_ <? _); [by apply triple_raise|by apply triple_ret]. }
  intros ex _. set (m := grant_in _ _ _ _ _ _ _ _ _ _).
  eapply (triple_bind e _ _ _ (λ c d2, if (c : bool) then d2 = d1 else
    ∃ credits rq fields r, credits_amount (pr_credits p) = Ok credits ∧ 0 < credits ∧
      grant_effect now tenant (grant_key ev) (grant_source (ev_kind ev)) (webhook_actor ev)
        (Some (ev_provider ev)) (Some payment_ref) ex credits rq fields d1 r d2)).
  - apply (triple_try e (eq d1) _ _ _ (grant_failed e d1)).
    + eapply triple_bind.
      * eapply triple_conseq; [apply spec_grant_in, wf_claimed|done|intros a d' H; exact H|done].
      * intros r. apply triple_ret. intros d2 (fields & credits & _ & Hc & Hpos & _ & _ & He). eauto 10.
    + intros x. destruct x; try by apply triple_raise. apply triple_ret. intros d2 Hf.
      destruct Hf as [[Hi|[_ ->]]|Hx]; [|done|done]. exfalso. inversion Hi as [y Hy| | |]; subst.
      destruct Hy as (n & f & _ & Hx). unfold fault_exn, class_exn in Hx. by repeat case_match.
  - intros []; apply triple_pure.
    + intros ? ->. by apply noted.
    + intros d2 (credits & rq & fields & r & Hc & Hpos & He).
      destruct (grant_effect_inbox _ _ _ _ _ _ _ _ _ _ _ _ _ _ He) as [Hib _].
      apply finish_as; [by rewrite (row_status_inbox _ _ d1), Hst|]. intros d' Hin Hs.
      by eapply process_granted.
Qed.

Lemma apply_clawback_spec tenant l payment_ref gl :
  linked ev tenant d → ev_kind ev = PAYMENT_REFUNDED → ev_payment_ref ev = Some payment_ref →
  payment_ref ≠ "" → l ∈ lots d → is_grant_of tenant (ev_provider ev) payment_ref l →
  gl_reclaimable gl = reclaimable_of now d l → 0 < gl_reclaimable gl →
  triple e (eq d1) (apply_clawback ev tenant gl payment_ref) (process_effect now ev d) (λ _ _, True).
Proof.
  intros Hl Hk Hr Hrn Hlin Hg Hrec Hpos. unfold apply_clawback, clawback_in.
  assert (Hkind : "clawback" ∈ TXN_KINDS) by by apply (bool_decide_unpack ("clawback" ∈ TXN_KINDS)).
  eapply triple_bind.
  { eapply triple_conseq; [exact (spec_debit_in e d1 _ _ _ _ _ _ _ _ _ wf_claimed Hkind)|done|
      intros a d' Ha; exact Ha|done]. }
  intros r. apply triple_pure. intros d2 (fields & credits & _ & Hc & He).
  assert (credits = gl_reclaimable gl) as ->.
  { unfold of_micro in Hc. apply credits_amount_inv in Hc. rewrite rescale_half_up_exact in Hc by done.
    change (pow10 (-6 - -6)) with 1%N in Hc. unfold micro in Hc.
    destruct (Z.ltb_spec (gl_reclaimable gl) 0); lia. }
  destruct (debit_effect_inbox _ _ _ _ _ _ _ _ _ _ _ He) as [Hib _].
  case_bool_decide as H1; [|case_bool_decide as H2].
  - assert (d2 = d1) as -> by by inversion He; subst. by apply noted.
  - assert (d2 = d1) as -> by by inversion He; subst. by apply noted.
  -
    apply finish_as; [by rewrite (row_status_inbox _ _ d1), Hst|]. intros d' Hin Hs.
    eapply process_clawed; done.
Qed.
End apply.

(** What the policy decides, action by action. *)
Lemma decide_cases ev tenant p l received_at now hold :
  let plan := Policy.decide ev tenant p l received_at now hold in
  match action plan with
  | Agrant => ∃ t x r, tenant = Some t ∧ p = Some x ∧ l = None ∧ pr_active x = true ∧ ev_kind ev ∈ _PAID ∧
      ev_payment_ref ev = Some r ∧ r ≠ "" ∧
      (ev_kind ev = SUBSCRIPTION_PERIOD_STARTED → pr_expires_after_days x ≠ None)
  | Aclawback => ∃ t gl r, tenant = Some t ∧ l = Some gl ∧ ev_kind ev = PAYMENT_REFUNDED ∧
      ev_payment_ref ev = Some r ∧ r ≠ "" ∧ 0 < gl_reclaimable gl
  | Ahold => ev_kind ev = PAYMENT_REFUNDED ∧ l = None ∧ now - received_at ≤ hold
  | Aignore | Aquarantine => plan_reason plan ≠ None
  end.
Proof.
  cbv zeta. unfold Policy.decide. destruct (ev_kind ev) eqn:Hk; cbn -[falsy_opt]; try done.
  all: destruct (falsy_opt (ev_customer_ref ev)); [done|].
  all: destruct tenant as [t|]; cbn -[falsy_opt]; [|done].
  all: destruct (ev_payment_ref ev) as [r|]; cbn; [destruct (falsy r) eqn:Hr|]; try done.
  all: apply falsy_false in Hr; destruct l as [gl|]; cbn; try done.
  - destruct p as [x|]; cbn; [destruct (pr_active x) eqn:?|]; cbn; try done.
    exists t, x, r. split_and!; done || set_solver.
  - destruct p as [x|]; cbn; [destruct (pr_active x) eqn:?|]; cbn; try done.
    destruct (pr_expires_after_days x) eqn:?; cbn; [|done]. exists t, x, r. split_and!; done || set_solver.
  - destruct (Z.leb_spec (gl_reclaimable gl) 0); cbn; [done|]. exists t, gl, r. done.
  - destruct (Z.ltb_spec hold (now - received_at)); cbn; done.
Qed.

(** [_process], before its commit. *)
Lemma process_body_spec e d hold ev :
  wf d →
  triple e (eq d)
    (claimed ← _claim ev;
     match claimed with
     | None => mret Oduplicate
     | Some (received_at, now) =>
         tenant ← if_some (ev_customer_ref ev) (tenant_for_customer (ev_provider ev));
         p ← match tenant with
             | Some _ => if bool_decide (ev_kind ev ∈ _PAID)
                         then if_some (ev_product_ref ev) (get_product (ev_provider ev)) else mret None
             | None => mret None
             end;
         l ← match tenant with
             | Some t => if bool_decide (ev_kind ev ∈ _PAID ∨ ev_kind ev = PAYMENT_REFUNDED)
                         then if_some (ev_payment_ref ev) (granted_lot t (ev_provider ev)) else mret None
             | None => mret None
             end;
         _apply ev tenant p l (Policy.decide ev tenant p l received_at now (hours hold))
     end)
    (process_effect (e_now e) ev d) (λ _ _, True).
Proof.
  intros Hwf. eapply triple_bind.
  { eapply triple_conseq; [apply triple_claim|done|intros a d' Ha; exact Ha|done]. }
  intros [[ra n]|]; apply triple_pure; intros d1.
  2: { intros [-> Hfin]. apply triple_ret. intros ? <-. by constructor. }
  intros (H01 & Hfin & Hst). destruct (inbox_only_tables _ _ H01) as [Hcu Hpr].
  assert (Hlots : lots d1 = lots d ∧ entries d1 = entries d ∧ txns d1 = txns d) by by rewrite H01.
  destruct Hlots as (Hlots & Hen & Htx).
  unfold tenant_for_customer. apply if_some_spec; [done|]. intros tenant Htenant.
  assert (Hlink : ∀ t, tenant = Some t → linked ev t d).
  { intros t ->. destruct (ev_customer_ref ev) as [s|] eqn:Hs; [|done]. destruct (falsy s); [done|].
    eapply linked_head; [done|]. by rewrite <-Hcu. }
  eapply (spec_bind e d1 _ _ (λ p, ∀ x, p = Some x → x ∈ products d ∧ pr_provider x = ev_provider ev ∧
    ev_product_ref ev = Some (pr_ref x))).
  { destruct tenant; [|by apply triple_ret]. destruct (bool_decide _); [|by apply triple_ret].
    unfold if_some, get_product. destruct (ev_product_ref ev) as [cref|]; [|by apply triple_ret].
    destruct (falsy cref); [by apply triple_ret|]. apply triple_query; [done|]. intros ? <-. split; [done|].
    intros x Hx. apply head_filter_Some in Hx as [Hx [H1 H2]]. by rewrite <-Hpr, H2. }
  intros p Hp.
  eapply (spec_bind e d1 _ _ (λ l, ∀ t, tenant = Some t →
    (ev_kind ev ∈ _PAID ∨ ev_kind ev = PAYMENT_REFUNDED) → falsy_opt (ev_payment_ref ev) = false →
    ∃ r, ev_payment_ref ev = Some r ∧ r ≠ "" ∧
    match l with
    | None => ∀ k, k ∈ lots d → ¬ is_grant_of t (ev_provider ev) r k
    | Some gl => ∃ k, k ∈ lots d ∧ is_grant_of t (ev_provider ev) r k ∧
        gl_reclaimable gl = Z.max (reclaimable_of (e_now e) d k) 0
    end)).
  { destruct tenant as [t|]; [|by apply triple_ret]. case_bool_decide as Hk; [|apply triple_ret; by intros ? <-].
    unfold if_some, granted_lot. destruct (ev_payment_ref ev) as [r|]; [|apply triple_ret; by intros ? <-].
    simpl. destruct (falsy r) eqn:Hr; [apply triple_ret; by intros ? <-|]. apply triple_query; [done|]. intros ? <-.
    split; [done|]. intros ? [= <-] _ _. exists r. split; [done|]. split; [by apply falsy_false|].
    rewrite Hlots. destruct (head (merge_sort _ _)) as [k|] eqn:Hh; simpl.
    - apply head_merge_sort, list_elem_of_filter in Hh as [Hg Hin]. exists k. split_and!; [done|done|].
      unfold reclaimable_of, expired_of. by rewrite Hen, Htx.
    - apply head_merge_sort_None in Hh. intros k Hk' Hg.
      assert (Hin : k ∈ filter (is_grant_of t (ev_provider ev) r) (lots d)) by by apply list_elem_of_filter.
      rewrite Hh in Hin. by apply not_elem_of_nil in Hin. }
  intros l Hl.
  pose proof (decide_cases ev tenant p l ra n (hours hold)) as Hplan. unfold _apply.
  destruct (Policy.decide _ _ _ _ _ _ _) as [[] why]; cbn in Hplan |- *; try by apply noted.
  - destruct Hplan as (t & x & r & -> & -> & -> & Hact & Hk & Hr & Hrn & _).
    assert (Hfp : falsy_opt (ev_payment_ref ev) = false) by (rewrite Hr; by apply bool_decide_eq_false).
    destruct (Hl t eq_refl (or_introl Hk) Hfp) as (r' & Hr' & _ & Hno).
    destruct (Hp x eq_refl) as (H1 & H2 & H3). rewrite Hr. simplify_eq.
    apply (apply_grant_spec e ev d d1); try done. by apply Hlink.
  - destruct Hplan as (t & gl & r & -> & -> & Hk & Hr & Hrn & Hpos).
    assert (Hfp : falsy_opt (ev_payment_ref ev) = false) by (rewrite Hr; by apply bool_decide_eq_false).
    destruct (Hl t eq_refl (or_intror Hk) Hfp) as (r' & Hr' & _ & k & Hkin & Hg & Hrec).
    rewrite Hr. simplify_eq. apply (apply_clawback_spec e ev d d1 Hwf Hfin H01 Hst t k); try done; [by apply Hlink|lia].
Qed.

(** ** One delivery, from end to end *)

Lemma process_spec e d hold ev :
  wf d →
  triple e (eq d) (_process hold ev) (λ o d', ∃ n, process_effect (e_clock e n) ev d o d')
    (λ _ d', d' = d ∨ ∃ n o, process_effect (e_clock e n) ev d o d').
Proof. intros Hwf. apply (transact e d _ (λ n, process_effect n ev d)). intros n. by apply process_body_spec. Qed.

(** An event nobody has to come back to: its row is neither received nor failed. *)
Definition settled (ev : BillingEvent) (d : db) : Prop :=
  ∃ s, row_status ev d = Some s ∧ s ∉ ["received"; "failed"].

Lemma finished_settled ev d : finished ev d → settled ev d.
Proof. intros (s & Hs & Ht). exists s. split; [done|]. intros H. set_unfold in H. set_unfold in Ht. intuition congruence. Qed.

Lemma triple_upsert_failed e d ev c :
  triple e (eq d) (upsert_failed ev c)
    (λ r d', match r with
      | None => d' = d ∧ settled ev d
      | Some _ => inbox_only d d' ∧ ¬ finished ev d ∧ row_status ev d' ≠ None
      end) (λ _ d', d' = d).
Proof.
  apply triple_stmt; [by intros ? ? <-|]. intros ? u <-. destruct (check_row ev); simpl; [|done].
  destruct (head _) as [r|] eqn:Hh.
  - case_bool_decide as Hs.
    + destruct (update_rows _ _ _) eqn:Hu; simpl; [|done].
      apply update_rows_Ok in Hu as [-> _]. split_and!; [by destruct d| |].
      * intros (s & Hst & Ht). unfold row_status in Hst. rewrite Hh in Hst. simplify_eq/=.
        set_unfold in Hs. set_unfold in Ht. intuition congruence.
      * unfold row_status. simpl. rewrite head_update_where by done. by rewrite Hh.
    + split; [done|]. exists (ib_status r). unfold row_status. by rewrite Hh.
  - split_and!; [by destruct d| |].
    + intros (s & Hst & _). unfold row_status in Hst. by rewrite Hh in Hst.
    + unfold row_status. simpl. rewrite filter_app. rewrite head_filter_None in Hh.
      rewrite (filter_none _ (inbox d)) by done. rewrite filter_cons, decide_True by done. done.
Qed.

Lemma record_failure_spec e d max ev c :
  triple e (eq d) (_record_failure max ev c)
    (λ o d', inbox_only d d' ∧ (finished ev d → d' = d) ∧ o ∈ [Oduplicate; Oquarantined; Ofailed]) (λ _ _, False).
Proof.
  unfold _record_failure.
  eapply (triple_try e _ _ _ _ (λ _ d', inbox_only d d' ∧ (finished ev d → d' = d))).
  - eapply triple_conseq; [apply (transact e d _ (λ _ o d', inbox_only d d' ∧ (finished ev d → d' = d) ∧
      o ∈ [Oduplicate; Oquarantined; Ofailed]))|done| |].
    + intros n. eapply triple_bind.
      { eapply triple_conseq; [apply triple_upsert_failed|done|intros a d' Ha; exact Ha|done]. }
      intros [k|]; apply triple_pure; intros d'.
      * intros (Hin & Hnf & _). destruct (max <=? k).
        -- eapply triple_bind.
           { eapply triple_conseq; [apply triple_finish|done|intros a d2 Ha; exact Ha|done]. }
           intros []. apply triple_ret. intros d2 [Hin2 _]. split_and!; [by etrans|done|set_solver].
        -- apply triple_ret. intros ? <-. split_and!; [done|done|set_solver].
      * intros [-> _]. apply triple_ret. intros ? <-. split_and!; [done|done|set_solver].
    + by intros o d' [_ ?].
    + intros x d' [->|(n & o & ? & ? & _)]; done.
  - intros x. apply triple_ret. intros d' [? ?]. split_and!; [done|done|set_solver].
Qed.

Lemma record_failure_settles e d max ev c :
  triple e (eq d) (_record_failure max ev c) (λ o d', o = Ofailed ∨ settled ev d') (λ _ _, False).
Proof.
  unfold _record_failure. eapply (triple_try e _ _ _ _ (λ _ _, True)).
  - eapply triple_conseq; [apply (transact e d _ (λ _ o d', o = Ofailed ∨ settled ev d'))|done| |done].
    + intros n. eapply triple_bind.
      { eapply triple_conseq; [apply triple_upsert_failed|done|intros a d' Ha; exact Ha|done]. }
      intros [k|]; apply triple_pure; intros d'.
      * intros (_ & _ & Hrow). destruct (max <=? k).
        -- eapply triple_bind.
           { eapply triple_conseq; [apply triple_finish|done|intros a d2 Ha; exact Ha|done]. }
           intros []. apply triple_ret. intros d2 [_ Hs]. right. exists "quarantined". split; [by apply Hs|]. set_solver.
        -- apply triple_ret. by left.
      * intros [-> Hs]. apply triple_ret. intros ? <-. by right.
    + by intros o d' [_ ?].
  - intros x. apply triple_ret. by left.
Qed.

(** One delivery of an event: at most one decision commits, and what may follow
    it is a note of failure in the event's own row, unless it is finished. *)
Definition delivered (e : env) (ev : BillingEvent) (d : db) (o : Outcome) (d' : db) : Prop :=
  (∃ n, process_effect (e_clock e n) ev d o d') ∨
  o ∈ [Oduplicate; Oquarantined; Ofailed] ∧
  ∃ dm, (dm = d ∨ ∃ n o', process_effect (e_clock e n) ev d o' dm) ∧
    inbox_only dm d' ∧ (finished ev dm → d' = dm).

Lemma process_event_spec e d hold max ev :
  wf d → triple e (eq d) (process_event hold max ev) (delivered e ev d) (λ _ _, False).
Proof.
  intros Hwf. unfold process_event.
  eapply triple_bind; [|intros o; eapply (triple_bind e _ _ _ (λ _, delivered e ev d o));
    [by apply triple_count|intros []; by apply triple_ret]].
  apply (triple_try e _ _ _ _ (λ _ dm, dm = d ∨ ∃ n o, process_effect (e_clock e n) ev d o dm)).
  { eapply triple_conseq; [by apply process_spec|done| |done]. intros o d' ?. by left. }
  intros x. apply triple_pure. intros dm Hdm.
  eapply triple_conseq; [apply record_failure_spec|done| |done].
  intros o d' (Hin & Hfin & Ho). right. split; [done|]. exists dm. done.
Qed.

(** ** What a delivery may do to the wallet *)

(** It leaves it alone, or it grants a catalogued purchase or claws back a
    refunded one, and the event's row says so. *)
(** What the handler answers for is settled, unless the answer asks for another delivery. *)
Lemma process_event_settles e d hold max ev :
  wf d → triple e (eq d) (process_event hold max ev) (λ o d', o ∈ [Ofailed; Oretry] ∨ settled ev d') (λ _ _, False).
Proof.
  intros Hwf. unfold process_event.
  apply (triple_bind e _ _ _ (λ o d', o ∈ [Ofailed; Oretry] ∨ settled ev d'));
    [|intros o; apply (triple_bind e _ _ _ (λ _ d', o ∈ [Ofailed; Oretry] ∨ settled ev d')); [by apply triple_count|intros []; by apply triple_ret]].
  apply (triple_try e _ _ _ _ (λ _ _, True)).
  { eapply triple_conseq; [by apply process_spec| | |done]; [done|]. intros o d' [n He].
    destruct He as [Hf|o d' _ _ Hs Hn| |].
    - right. by apply finished_settled.
    - destruct o; cbn in Hs, Hn; try done; [right|right|left; set_solver]; eexists; (split; [exact Hs|set_solver]).
    - right. exists "applied". split; [done|set_solver].
    - right. exists "applied". split; [done|set_solver]. }
  intros x. apply triple_pure. intros dm _.
  eapply triple_conseq; [apply record_failure_settles|done| |done].
  intros o d' [->|?]; [left; set_solver|by right].
Qed.

Lemma process_effect_wallet now ev d o d' :
  process_effect now ev d o d' →
  same_wallet d d' ∨ ¬ finished ev d ∧ row_status ev d' = Some "applied" ∧
    ∃ tenant, linked ev tenant d ∧ ∃ d1 d2, inbox_only d d1 ∧ inbox_only d2 d' ∧
    ((∃ p payment_ref ex credits rq fields r, catalogued ev p d ∧ ev_kind ev ∈ _PAID ∧
       ev_payment_ref ev = Some payment_ref ∧
       (∀ l, l ∈ lots d → ¬ is_grant_of tenant (ev_provider ev) payment_ref l) ∧
       credits_amount (pr_credits p) = Ok credits ∧ 0 < credits ∧
       grant_effect now tenant (grant_key ev) (grant_source (ev_kind ev)) (webhook_actor ev)
         (Some (ev_provider ev)) (Some payment_ref) ex credits rq fields d1 r d2) ∨
     (∃ l payment_ref credits rq fields r, ev_kind ev = PAYMENT_REFUNDED ∧
       ev_payment_ref ev = Some payment_ref ∧ l ∈ lots d ∧
       is_grant_of tenant (ev_provider ev) payment_ref l ∧ credits = reclaimable_of now d l ∧ 0 < credits ∧
       ap_status r = Sapplied ∧
       debit_effect now tenant (clawback_key (ev_provider ev) payment_ref) "clawback" None credits rq fields d1 r d2)).
Proof.
  intros [Hf|o' d2 Hf Hin Hs Hn|tenant p ref ex credits rq fields r d1 d2 d3 Hf Hl Hp Hk Hr Hrn Hno Hc Hpos H01 He H23 Hs
    |tenant l ref credits rq fields r d1 d2 d3 Hf Hl Hk Hr Hrn Hin Hg Hc Hpos H01 He Hst H23 Hs].
  - by left.
  - left. by apply inbox_only_wallet.
  - right. split_and!; [done|done|]. exists tenant. split; [done|]. exists d1, d2. split_and!; [done|done|].
    left. by exists p, ref, ex, credits, rq, fields, r.
  - right. split_and!; [done|done|]. exists tenant. split; [done|]. exists d1, d2. split_and!; [done|done|].
    right. by exists l, ref, credits, rq, fields, r.
Qed.

Lemma grant_source_known k : grant_source k ∈ GRANT_SOURCES.
Proof. destruct k; by apply (bool_decide_unpack (_ ∈ GRANT_SOURCES)). Qed.

Lemma process_effect_inv now ev d o d' :
  inv d → process_effect now ev d o d' → ledger_ok d' ∧ (∀ N, now ≤ N → canonical N d → canonical N d') ∧ grows d d'.
Proof.
  intros Hinv Hp. destruct (process_effect_wallet _ _ _ _ _ Hp) as [Hs|(_ & _ & tenant & Hl & d1 & d2 & H01 & H23 & He)].
  { split_and!; [rewrite <-Hs; apply Hinv|intros N _; by rewrite Hs|by apply grows_same]. }
  assert (Heff : wallet_effect now d1 d2).
  { destruct He as [(p & ref & ex & credits & rq & fields & r & _ & _ & _ & _ & _ & Hpos & He)|
      (l & ref & credits & rq & fields & r & _ & _ & _ & _ & _ & _ & _ & He)].
    - eapply effect_grant; [done| |done]. by apply grant_source_known.
    - by eapply effect_debit. }
  apply inbox_only_wallet in H01, H23. rewrite H01 in Hinv. split_and!.
  - rewrite <-H23. by eapply effect_ledger.
  - intros N Hn Hcan. rewrite <-H23. rewrite H01 in Hcan. eapply effect_canonical; [apply Hinv| | |]; done.
  - etrans; [by apply grows_same|]. etrans; [by eapply effect_grows|by apply grows_same].
Qed.

(** What recording a unit of usage does, and what the credit gate answers. *)

Local Open Scope string_scope.
Local Open Scope list_scope.
Local Open Scope Z_scope.
Local Open Scope py_scope.

Lemma of_micro_amount z c : credits_amount (of_micro z) = Ok c → c = z.
Proof.
  intros Hc. unfold of_micro in Hc. apply credits_amount_inv in Hc. rewrite rescale_half_up_exact in Hc by done.
  change (pow10 (-6 - -6)) with 1%N in Hc. unfold micro in Hc. destruct (Z.ltb_spec z 0); lia.
Qed.

(** [d'] is [d] but for its outbox. *)
Definition outbox_only (d d' : db) : Prop := d' = set_outbox (λ _, outbox d') d.

Lemma outbox_only_refl d : outbox_only d d.
Proof. by destruct d. Qed.

Lemma outbox_only_wallet d d' : outbox_only d d' → same_wallet d d'.
Proof. by intros ->. Qed.

Definition add_usage (row : usage_row) (d : db) : db := set_usage_events (λ l, l ++ [row]) d.

Lemma add_usage_wallet row d : same_wallet d (add_usage row d).
Proof. done. Qed.

(** The row of a unit recorded at [now]. *)
Definition new_row_of (now : Z) (u : usage) (row : usage_row) : Prop :=
  is_usage (u_tenant u) (u_event_id u) row ∧ us_occurred_at row = now ∧ us_recorded_at row = now.

Definition has_usage (u : usage) (d : db) : Prop :=
  Exists (is_usage (u_tenant u) (u_event_id u)) (usage_events d).

(** [a] never raises. *)
Lemma triple_try_total {A} e d (m : M A) (h : exn → M A) Q :
  triple e (eq d) m Q (λ _, eq d) → (∀ x, triple e (eq d) (h x) Q (λ _ _, False)) →
  triple e (eq d) (try_except m h) Q (λ _ _, False).
Proof. intros Hm Hh. by eapply triple_try. Qed.

Lemma triple_savepoint_undo {A} e d (m : M A) Q :
  triple e (eq d) m Q (λ _ _, True) → triple e (eq d) (savepoint m) Q (λ _, eq d).
Proof. intros Hm. by eapply triple_savepoint; [exact Hm|..]. Qed.

Section settings.
Context (cfg : settings).

Inductive charged (now : Z) (u : usage) (worth : option Z) (d1 : db) : option applied → db → Prop :=
| charged_none : charged now u worth d1 None d1
| charged_some w c rate fields r d2 :
    worth = Some w → credits_per_usd cfg = Some rate →
    debit_effect now (u_tenant u) (u_event_id u) "debit" (Some (u_event_id u)) w
      (_debit_request "debit" w (Some (u_event_id u)) (Some (Pricing c rate (markup cfg)))
         (Some ("usage (" +:+ u_kind u +:+ ")")) "system") fields d1 r d2 →
    charged now u worth d1 (Some r) d2.

Inductive record_effect (now : Z) (u : usage) (d : db) : recorded → db → Prop :=
| record_off : credits_per_usd cfg = None → exporters cfg = [] →
    record_effect now u d (Recorded Roff None None) d
| record_failed : record_effect now u d (Recorded Rfailed None None) d
| record_duplicate : has_usage u d → record_effect now u d (Recorded Rduplicate None None) d
| record_kept c worth row debit d2 d' :
    ¬ has_usage u d → _valid cfg u = Ok (c, worth) →
    new_row_of now u row → us_credits row = worth →
    numeric_opt 18 12 c = Ok (us_cost_usd row) →
    charged now u worth (add_usage row d) debit d2 → outbox_only d2 d' →
    record_effect now u d (Recorded Rrecorded worth debit) d'.

Lemma insert_usage_row_Ok u c w rate mk now d b d' :
  insert_usage_row u c w rate mk now d = Ok (b, d') →
  (b = false ∧ d' = d ∧ has_usage u d) ∨
  (b = true ∧ ¬ has_usage u d ∧ ∃ row, d' = add_usage row d ∧ new_row_of now u row ∧
    us_credits row = w ∧ numeric_opt 18 12 c = Ok (us_cost_usd row)).
Proof.
  unfold insert_usage_row, opt_check. intros Hi. inv_ok.
  { left. split_and!; [done..|]. by apply Exists_exists. }
  right.
  split_and!; [done|done|]. eexists. split_and!; [reflexivity|done|done|done].
Qed.

Lemma charge_spec e d1 u w c rate :
  wf d1 → credits_per_usd cfg = Some rate →
  triple e (eq d1) (_charge u w (Pricing c rate (markup cfg))) (charged (e_now e) u (Some w) d1) (λ _ _, False).
Proof.
  intros Hwf Hrate. unfold _charge. apply triple_try_total.
  - apply triple_savepoint_undo. eapply triple_bind.
    { eapply triple_conseq; [refine (spec_debit_in e d1 _ _ _ _ _ _ _ _ _ Hwf _)|done|intros a d' Ha; exact Ha|done].
      by apply (bool_decide_unpack ("debit" ∈ TXN_KINDS)). }
    intros r. apply triple_ret. intros d2 (fields & w' & _ & Hw & He). apply of_micro_amount in Hw as ->.
    by eapply charged_some.
  - intros x. eapply (triple_bind e _ _ _ (λ _, eq d1)); [by apply triple_count|].
    intros []. apply triple_ret. intros ? <-. constructor.
Qed.

Lemma enqueue_spec e d2 u :
  triple e (eq d2) (_enqueue cfg u) (λ _ d', outbox_only d2 d') (λ _ _, False).
Proof.
  unfold _enqueue. apply triple_try_total.
  - apply triple_savepoint_undo, triple_stmt; [done|]. intros ? n <-. cbv zeta.
    destruct (check _ _); simpl; [by destruct d2|done].
  - intros x. apply triple_count. intros ? <-. apply outbox_only_refl.
Qed.

Lemma record_body_spec e d u c worth :
  wf d → _valid cfg u = Ok (c, worth) →
  triple e (eq d) (record_body cfg u c worth) (record_effect (e_now e) u d) (λ _ _, True).
Proof.
  intros Hwf Hv. unfold record_body. cbv zeta.
  eapply (triple_bind e _ _ _ (λ b d1, (b = false ∧ d1 = d ∧ has_usage u d) ∨
    (b = true ∧ ¬ has_usage u d ∧ ∃ row, d1 = add_usage row d ∧ new_row_of (e_now e) u row ∧
    us_credits row = worth ∧ numeric_opt 18 12 c = Ok (us_cost_usd row)))).
  { apply triple_stmt; [done|]. intros ? n <-. destruct (insert_usage_row _ _ _ _ _ _ _) as [[b d1]|] eqn:Hi; [|done].
    by apply insert_usage_row_Ok in Hi. }
  intros b. apply triple_pure. intros d1 [(-> & -> & Hu)|(-> & Hu & row & -> & Hrow & Hcr & Hco)]; simpl.
  { apply triple_ret. intros ? <-. by constructor. }
  assert (Hwf1 : wf (add_usage row d)) by (by rewrite <-(add_usage_wallet row d)).
  eapply (triple_bind e _ _ _ (λ r d2, charged (e_now e) u worth (add_usage row d) r d2)).
  { destruct worth as [w|], (credits_per_usd cfg) as [rate|] eqn:Hrate, c as [c|];
      try (apply triple_ret; intros ? <-; constructor).
    eapply triple_conseq; [by apply charge_spec|done|done|done]. }
  intros debit. apply triple_pure. intros d2 Hch.
  eapply (triple_bind e _ _ _ (λ _ d', outbox_only d2 d')).
  { case_bool_decide; [|apply triple_ret; intros ? <-; apply outbox_only_refl].
    eapply triple_conseq; [apply enqueue_spec|done|done|done]. }
  intros []. apply triple_ret. intros d' Hout. by eapply record_kept.
Qed.

Lemma valid_Err u x :
  _valid cfg u = Err x → (∃ msg, x = ValueError msg) ∨ (∃ sig, x = DecimalSignal sig).
Proof.
  unfold _valid, nonblank. intros Hv.
  repeat (case_match; simpl in Hv; simplify_eq/=; eauto).
  all: destruct (credits_for_cost _ _ _) as [|[]]; simpl in Hv; simplify_eq; eauto.
Qed.

Lemma valid_Ok u c worth :
  _valid cfg u = Ok (c, worth) →
  match c, credits_per_usd cfg with
  | Some c, Some rate => ∃ z, worth = Some z ∧ credits_for_cost c rate (markup cfg) = Ok z
  | _, _ => worth = None
  end.
Proof.
  unfold _valid, nonblank. intros Hv. repeat (case_match; simpl in Hv; simplify_eq/=; eauto).
  all: destruct (credits_for_cost _ _ _) eqn:Hz; simpl in Hv; simplify_eq; eauto.
Qed.

Lemma preserves_wf_record u : preserves wf (record_usage_in cfg u).
Proof.
  unfold record_usage_in, record_body, _charge, _enqueue, _degrade. pres.
  - apply preserves_same_wallet; [apply _|]. intros now n d b d' Hi.
    by apply insert_usage_row_Ok in Hi as [(_ & -> & _)|(_ & _ & row & -> & _)].
  - apply preserves_same_wallet; [apply _|]. intros now n d b d' Hi. cbv zeta in Hi. by inv_ok.
Qed.

(** [record_usage_in] raises only for a figure the decimal context cannot hold,
    before it touches a table. *)
Lemma record_usage_spec e d u :
  wf d →
  triple e (eq d) (record_usage_in cfg u) (record_effect (e_now e) u d)
    (λ x d', d' = d ∧ ∃ sig, _valid cfg u = Err (DecimalSignal sig) ∧ x = DecimalSignal sig).
Proof.
  intros Hwf. unfold record_usage_in. case_bool_decide as Hoff.
  { apply triple_ret. intros ? <-. by apply record_off; apply Hoff. }
  assert (Hfail : ∀ E, triple e (eq d) (_degrade "billing_event_write" ;; mret (Recorded Rfailed None None))
    (record_effect (e_now e) u d) E).
  { intros E. eapply (triple_bind e _ _ _ (λ _, eq d)); [by apply triple_count|].
    intros []. apply triple_ret. intros ? <-. constructor. }
  destruct (_valid cfg u) as [[c worth]|x] eqn:Hv.
  - eapply triple_conseq; [apply triple_try_total with (Q := record_effect (e_now e) u d)|done|done|done].
    + apply triple_savepoint_undo. by apply record_body_spec.
    + intros x. apply Hfail.
  - destruct (valid_Err _ _ Hv) as [[msg ->]|[sig ->]]; [apply Hfail|].
    apply triple_raise. intros ? <-. eauto.
Qed.
End settings.
