(* ===== verification/Books.v ===== *)
(** The books of recorded usage: what the tables of usage events and of the
    export outbox satisfy in every state. *)
From S2P Require Import Prelude Decimals Calendar Db Wallet Webhooks Usage Export.
From S2P Require Import WalletSpec WalletFacts.

Local Open Scope string_scope.
Local Open Scope list_scope.
Local Open Scope Z_scope.

#[export] Instance usage_row_eq_dec : EqDecision usage_row.
Proof. solve_decision. Defined.

Definition usage_key (r : usage_row) : string * string := (us_tenant r, us_event_id r).
Definition outbox_key (o : outbox_row) : string * string * string := (ob_provider o, ob_tenant o, ob_event_id o).

(** A row of the outbox against its CHECK constraints. *)
Record row_ok (o : outbox_row) : Prop := RowOk {
  row_status_known : ob_status o ∈ OUTBOX_STATUSES;
  row_attempts : 0 ≤ ob_attempts o;
  row_sent : ob_status o = "sent" ↔ ob_sent_at o ≠ None;
}.

(** The primary keys, the foreign key and the CHECK constraints. *)
Record books (d : db) : Prop := Books {
  bk_usage : NoDup (usage_key <$> usage_events d);
  bk_outbox : NoDup (outbox_key <$> outbox d);
  bk_events : ∀ o, o ∈ outbox d → ∃ u, u ∈ usage_events d ∧ event_of o u;
  bk_rows : ∀ o, o ∈ outbox d → row_ok o;
}.

Definition same_books (d d' : db) : Prop := usage_events d' = usage_events d ∧ outbox d' = outbox d.

Lemma books_same d d' : same_books d d' → books d → books d'.
Proof. intros [Hu Ho] [B1 B2 B3 B4]. split; by rewrite ?Hu, ?Ho. Qed.

Lemma is_outbox_key p t i o : is_outbox p t i o ↔ outbox_key o = (p, t, i).
Proof. unfold is_outbox, outbox_key. split; [by intros (-> & -> & ->)|by intros [= -> -> ->]]. Qed.

Lemma is_usage_key t i r : is_usage t i r ↔ usage_key r = (t, i).
Proof. unfold is_usage, usage_key. split; [by intros (-> & ->)|by intros [= -> ->]]. Qed.

(** ** New rows *)

Lemma books_add_usage row d :
  books d → ¬ Exists (is_usage (us_tenant row) (us_event_id row)) (usage_events d) →
  books (set_usage_events (λ l, l ++ [row]) d).
Proof.
  intros [B1 B2 B3 B4] Hnew. split; simpl; [|done| |done].
  - apply NoDup_fmap_app_one; [done|]. intros r Hr Hk. apply Hnew, Exists_exists.
    exists r. split; [done|]. by apply is_usage_key.
  - intros o Ho. destruct (B3 o Ho) as (u & Hu & Hou). exists u. split; [|done]. apply elem_of_app. by left.
Qed.

Lemma enqueue_one_elem t i now l p o :
  o ∈ enqueue_one t i now l p → o ∈ l ∨ o = new_outbox p t i now.
Proof.
  unfold enqueue_one. case_bool_decide; [by left|]. intros [Hin|Hin]%elem_of_app; [by left|].
  right. by apply list_elem_of_singleton.
Qed.

Lemma enqueue_all_elem t i now ps l o :
  o ∈ foldl (enqueue_one t i now) l ps → o ∈ l ∨ ∃ p, p ∈ ps ∧ o = new_outbox p t i now.
Proof.
  revert l. induction ps as [|p ps IH]; intros l Ho; simpl in Ho; [by left|].
  apply IH in Ho as [Ho|(q & Hq & ->)]; [|right; exists q; split; [by right|done]].
  apply enqueue_one_elem in Ho as [Ho| ->]; [by left|]. right. exists p. split; [left|done].
Qed.

Lemma enqueue_all_keys t i now ps l :
  NoDup (outbox_key <$> l) → NoDup (outbox_key <$> foldl (enqueue_one t i now) l ps).
Proof.
  revert l. induction ps as [|p ps IH]; intros l Hl; simpl; [done|]. apply IH.
  unfold enqueue_one. case_bool_decide as Hex; [done|]. apply NoDup_fmap_app_one; [done|].
  intros o Ho Hk. apply Hex, Exists_exists. exists o. split; [done|]. by apply is_outbox_key.
Qed.

Lemma books_enqueue t i now ps d :
  books d → (ps ≠ [] → Exists (is_usage t i) (usage_events d)) →
  books (set_outbox (λ l, foldl (enqueue_one t i now) l ps) d).
Proof.
  intros [B1 B2 B3 B4] Hfk. split; simpl; [done|by apply enqueue_all_keys| |].
  - intros o [Ho|(p & Hp & ->)]%enqueue_all_elem; [by apply B3|].
    destruct ps as [|q ps]; [by apply not_elem_of_nil in Hp|].
    specialize (Hfk ltac:(done)). apply Exists_exists in Hfk as (u & Hu & Ht & Hi). exists u. by split.
  - intros o [Ho|(p & _ & ->)]%enqueue_all_elem; [by apply B4|].
    split; simpl; [|done|done]. by apply (bool_decide_unpack ("pending" ∈ OUTBOX_STATUSES)).
Qed.

(** ** Every statement keeps the books *)

Lemma preserves_books_stmt {A} (f : Z → string → db → result exn (A * db)) :
  (∀ now u d a d', f now u d = Ok (a, d') → same_books d d') → preserves books (stmt f).
Proof. intros Hf. apply preserves_stmt. intros now u d a d' Hd He. by eapply books_same; [eapply Hf|]. Qed.

(** A statement of the wallet, the inbox or the catalogue. *)
Ltac books_stmt :=
  apply preserves_books_stmt; intros ? ? ? ? ? He; cbv beta zeta in He; inv_ok; subst;
  first [done | repeat case_match; simplify_eq; done].

Lemma preserves_books_begin tenant kind key actor reason req fields ue pr :
  preserves books (_begin_transaction tenant kind key actor reason req fields ue pr).
Proof.
  unfold _begin_transaction, select_txn. pres. apply preserves_books_stmt. intros now u d a d' He.
  unfold insert_txn_row in He. by inv_ok.
Qed.

Lemma preserves_books_move tenant t l amount : preserves books (_move tenant t l amount).
Proof. unfold _move. pres; books_stmt. Qed.

Lemma preserves_books_overdraft tenant create : preserves books (_overdraft_lot tenant create).
Proof.
  unfold _overdraft_lot, select_overdraft. pres. apply preserves_books_stmt. intros now u d a d' He.
  unfold insert_lot_row in He. by inv_ok.
Qed.

Lemma preserves_books_insert_lot tenant source p r c ex actor :
  preserves books (insert_lot tenant source p r c ex actor).
Proof. apply preserves_books_stmt. intros now u d a d' He. unfold insert_lot_row in He. by inv_ok. Qed.

Lemma preserves_books_insert_account tenant actor : preserves books (insert_account tenant actor).
Proof. books_stmt. Qed.

#[export] Hint Resolve preserves_books_begin preserves_books_move preserves_books_overdraft
  preserves_books_insert_lot preserves_books_insert_account : inv.

Lemma preserves_books_grant tenant amount source key actor reason ex p r compare :
  preserves books (grant_in tenant amount source key actor reason ex p r compare).
Proof. unfold grant_in, _lock. pres. Qed.

Lemma preserves_books_debit tenant amount key ue actor reason kind pr compare :
  preserves books (debit_in tenant amount key ue actor reason kind pr compare).
Proof. unfold debit_in, has_account, _lock, select_live. pres. Qed.

#[export] Hint Resolve preserves_books_grant preserves_books_debit : inv.

Lemma preserves_books_adjust tenant amount key actor reason ex compare :
  preserves books (adjust_in tenant amount key actor reason ex compare).
Proof. unfold adjust_in. pres. Qed.

Lemma preserves_books_expire_all due n : preserves books (expire_all due n).
Proof.
  revert n. induction due as [|[id t] due IH]; intros n; simpl; [apply preserves_ret|].
  unfold _expire_lot_in, _lock, select_due_remaining. pres.
Qed.

Lemma preserves_books_update_rows (P : inbox_row → Prop) `{!∀ r, Decision (P r)} f d d' :
  update_rows P f d = Ok d' → same_books d d'.
Proof. unfold update_rows. intros He. by inv_ok. Qed.

Lemma preserves_books_finish ev s t r : preserves books (_finish ev s t r).
Proof. apply preserves_books_stmt. intros now u d a d' He. inv_ok. by eapply preserves_books_update_rows. Qed.

#[export] Hint Resolve preserves_books_adjust preserves_books_expire_all preserves_books_finish : inv.

Lemma preserves_books_claim ev : preserves books (_claim ev).
Proof.
  unfold _claim, select_row. pres.
  - books_stmt.
  - apply preserves_books_stmt. intros now u d a d' He. inv_ok. by eapply preserves_books_update_rows.
Qed.

#[export] Hint Resolve preserves_books_claim : inv.

Lemma preserves_books_process hold ev : preserves books (_process hold ev).
Proof.
  unfold _process, tenant_for_customer, get_product, granted_lot, if_some, _apply, apply_grant, apply_clawback,
    clawback_in, expiry_in. pres.
Qed.

Lemma preserves_books_upsert ev c : preserves books (upsert_failed ev c).
Proof.
  apply preserves_books_stmt. intros now u d a d' He. repeat case_match; inv_ok; try done.
  by eapply preserves_books_update_rows.
Qed.

#[export] Hint Resolve preserves_books_process preserves_books_upsert : inv.

Lemma preserves_books_event hold max ev : preserves books (process_event hold max ev).
Proof. unfold process_event, _record_failure. pres. Qed.

Lemma preserves_books_link t p c : preserves books (link_customer t p c).
Proof. unfold link_customer, insert_customer, tenant_for_customer. pres. books_stmt. Qed.

Lemma preserves_books_product p : preserves books (put_product p).
Proof. unfold put_product. books_stmt. Qed.

Lemma preserves_books_sweep n b m : preserves books (sweep_old_rows n b m).
Proof.
  assert (Hb : ∀ m t, preserves books (sweep_batches n b m t)).
  { intros k. induction k as [|k IH]; intros t; simpl; pres. unfold delete_batch. books_stmt. }
  unfold sweep_old_rows. pres.
Qed.

(** ** Recording keeps the books *)

Lemma preserves_books_insert_usage u c w rate mk : preserves books (insert_usage u c w rate mk).
Proof.
  apply preserves_stmt. intros now id d b d' Hd He. unfold insert_usage_row in He. inv_ok; [done|].
  apply books_add_usage; [done|]. simpl. by match goal with H : ¬ Exists _ _ |- _ => intros Hex; apply H end.
Qed.

Lemma preserves_books_enqueue cfg u : preserves books (enqueue_rows cfg u).
Proof.
  apply preserves_stmt. intros now id d b d' Hd He. cbv zeta in He. inv_ok.
  apply books_enqueue; [done|]. intros Hne.
  match goal with H : _ || _ = true |- _ => apply orb_true_iff in H as [H%bool_decide_eq_true|H%bool_decide_eq_true] end; done.
Qed.

#[export] Hint Resolve preserves_books_insert_usage preserves_books_enqueue : inv.

Lemma preserves_books_record cfg u : preserves books (record_usage_in cfg u).
Proof. unfold record_usage_in, record_body, _charge, _enqueue, _degrade. pres. Qed.
