(* ===== verification/ExportFacts.v ===== *)
(** What a pass of the export worker does to the outbox. *)
From S2P Require Import Prelude Dict Decimals Calendar Db Wallet Webhooks Usage Export.
From S2P Require Import WalletSpec WalletFacts UsageFacts Books.

Local Open Scope string_scope.
Local Open Scope list_scope.
Local Open Scope Z_scope.

(** ** Verdicts *)

(** The answer says that the event landed, and does not say that it failed. *)
Definition says_landed (id : string) (res : export_result) : Prop :=
  id ∈ er_accepted res ++ er_duplicate res ∧ id ∉ ef_event_id <$> er_failed res.

Section verdicts.
Context (max_attempts base cap : Z).

(** What the answer justifies for one row. *)
Record justified (answer : result string export_result) (due : Due) (v : Verdict) : Prop := Justified {
  jf_sent : vd_status v = Vsent → ∃ res, answer = Ok res ∧ says_landed (du_event_id due) res;
  jf_pending : vd_status v = Vpending →
    du_attempts due + 1 < max_attempts ∧ vd_delay_seconds v = backoff_seconds (du_attempts due + 1) base cap;
}.

Lemma retry_justified answer due reason : justified answer due (retry max_attempts base cap due reason).
Proof. unfold retry. destruct (Z.leb_spec max_attempts (du_attempts due + 1)); by split. Qed.

Lemma verdict_of_justified res due :
  justified (Ok res) due
    (verdict_of max_attempts base cap (failed_by_id res) (er_accepted res ++ er_duplicate res) due).
Proof.
  unfold verdict_of. destruct (dict_get _ (failed_by_id res)) as [f|] eqn:Hf.
  { destruct (retryable f); [apply retry_justified|by split]. }
  case_bool_decide as Hin; [|apply retry_justified]. split; [|done]. intros _. exists res. split; [done|]. split; [done|].
  apply dict_get_None in Hf. intros Hid. apply Hf. apply dict_of_keys. left.
  apply list_elem_of_fmap in Hid as (f & -> & Hin'). eauto.
Qed.

(** Every row of the batch has a verdict, and every verdict is of one of its rows. *)
Lemma verdicts_spec batch answer :
  (∀ id v, (id, v) ∈ verdicts max_attempts base cap batch answer →
     ∃ due, due ∈ batch ∧ du_event_id due = id ∧ justified answer due v) ∧
  (∀ id, id ∈ (verdicts max_attempts base cap batch answer).*1 ↔ ∃ due, due ∈ batch ∧ du_event_id due = id).
Proof.
  split.
  - intros id v Hin. unfold verdicts in Hin.
    apply dict_of_elem in Hin as [(due & Hd & Hid & <-)|Hin]; [|by apply not_elem_of_nil in Hin].
    exists due. split_and!; [done|done|]. destruct answer as [res|reason]; [apply verdict_of_justified|apply retry_justified].
  - intros id. unfold verdicts. rewrite dict_of_keys. simpl. split; [|by left].
    intros [?|Hin]; [done|by apply not_elem_of_nil in Hin].
Qed.

Lemma backoff_bounds failures : 0 < base → 0 < cap →
  0 < backoff_seconds failures base cap ≤ cap ∧
  (∀ more, failures ≤ more → backoff_seconds failures base cap ≤ backoff_seconds more base cap) ∧
  (1 ≤ failures ≤ 31 → backoff_seconds failures base cap = Z.min (base * 2 ^ (failures - 1)) cap).
Proof.
  intros Hb Hc. unfold backoff_seconds.
  assert (Hp : ∀ n, 0 < 2 ^ Z.min (Z.max n 1 - 1) 30) by (intros n; apply Z.pow_pos_nonneg; lia).
  split_and!.
  - specialize (Hp failures). nia.
  - lia.
  - intros more Hm. assert (2 ^ Z.min (Z.max failures 1 - 1) 30 ≤ 2 ^ Z.min (Z.max more 1 - 1) 30) by (apply Z.pow_le_mono_r; lia).
    apply Z.min_le_compat_r. nia.
  - intros Hf. do 3 f_equal. lia.
Qed.
End verdicts.

(** ** Rows *)

Section pass.
Context (max_attempts base cap : Z) (providers : list (string * adapter)).

(** Some provider answered, to a call that sent the event, that it landed. *)
Definition landed (provider tenant event_id : string) : Prop :=
  ∃ call tick ref batch res, (provider, call) ∈ providers ∧
    call tick tenant provider ref batch = Ok res ∧ event_id ∈ ue_event_id <$> batch ∧ says_landed event_id res.

(** How a row may change. *)
Record progress (o o' : outbox_row) : Prop := Progress {
  pg_key : outbox_key o' = outbox_key o;
  pg_created : ob_created_at o' = ob_created_at o;
  pg_finished : ob_status o ≠ "pending" → o' = o;
  pg_attempts : ob_attempts o ≤ ob_attempts o';
  pg_budget : ob_status o' = "pending" → o' = o ∨ ob_attempts o' < max_attempts;
  pg_sent : ob_status o' = "sent" → o' = o ∨ landed (ob_provider o) (ob_tenant o) (ob_event_id o);
}.

#[export] Instance progress_refl : Reflexive progress.
Proof. intros o. split; auto with lia. Qed.

#[export] Instance progress_trans : Transitive progress.
Proof.
  intros o1 o2 o3 [K1 C1 F1 A1 B1 S1] [K2 C2 F2 A2 B2 S2]. split; [congruence|congruence| |lia| |].
  - intros Hs. rewrite F2; [by apply F1|by rewrite (F1 Hs)].
  - intros Hs. destruct (B2 Hs) as [->|]; [|by right]. by apply B1.
  - intros Hs. destruct (S2 Hs) as [->|Hl]; [by apply S1|]. right.
    unfold outbox_key in K1. injection K1 as Hp Ht Hi. by rewrite <-Hp, <-Ht, <-Hi.
Qed.

(** [d'] is [d] but for its outbox, whose rows have made progress. *)
Definition exported (d d' : db) : Prop :=
  outbox_only d d' ∧ Forall2 progress (outbox d) (outbox d').

#[export] Instance exported_refl : Reflexive exported.
Proof. intros d. split; [apply outbox_only_refl|reflexivity]. Qed.

#[export] Instance exported_trans : Transitive exported.
Proof.
  intros d1 d2 d3 [Ho1 Hf1] [Ho2 Hf2]. split; [|by etrans].
  unfold outbox_only in *. rewrite Ho2, Ho1. by destruct d1.
Qed.

Lemma all_ok_elem {A} (f : A → result exn ()) l x : all_ok f l = Ok () → x ∈ l → f x = Ok ().
Proof.
  induction l as [|y l IH]; simpl; intros Hok Hx; [by apply not_elem_of_nil in Hx|].
  apply rbind_Ok in Hok as ([] & Hy & Hok). apply elem_of_cons in Hx as [->|Hx]; auto.
Qed.

Lemma update_outbox_Ok (P : outbox_row → Prop) `{!∀ r, Decision (P r)} f d d' :
  update_outbox P f d = Ok d' →
  d' = set_outbox (update_where P f) d ∧ ∀ o, o ∈ outbox d → P o → outbox_ok o (f o) = Ok ().
Proof.
  unfold update_outbox. intros Hu. apply rbind_Ok in Hu as ([] & Hall & [= <-]). split; [done|].
  intros o Ho HP. apply (all_ok_elem (λ r, outbox_ok r (f r)) _ o Hall). by apply list_elem_of_filter.
Qed.

Lemma update_outbox_exported (P : outbox_row → Prop) `{!∀ r, Decision (P r)} f d d' :
  update_outbox P f d = Ok d' →
  (∀ o, o ∈ outbox d → P o → outbox_ok o (f o) = Ok () → progress o (f o)) → exported d d'.
Proof.
  intros [-> Hok]%update_outbox_Ok Hp. split; [by destruct d|]. simpl. unfold update_where.
  apply Forall2_fmap_r, Forall2_same_length_lookup_2; [done|]. intros i o o' Ho Ho'. simplify_eq. simpl.
  case_decide; [|reflexivity]. apply list_elem_of_lookup_2 in Ho. auto.
Qed.

Lemma update_outbox_books (P : outbox_row → Prop) `{!∀ r, Decision (P r)} f d d' :
  (∀ o, outbox_key (f o) = outbox_key o) → books d → update_outbox P f d = Ok d' → books d'.
Proof.
  intros Hk [B1 B2 B3 B4] [-> Hok]%update_outbox_Ok. split; simpl; [done|by rewrite update_where_key| |].
  - intros o (x & Hx & ->)%elem_of_update_where. destruct (B3 x Hx) as (u & Hu & He). exists u. split; [done|].
    specialize (Hk x). unfold outbox_key in Hk. unfold event_of in *. case_decide; [|done]. injection Hk as _ -> ->. done.
  - intros o (x & Hx & ->)%elem_of_update_where. case_decide as HP; [|by apply B4].
    specialize (Hok x Hx HP). unfold outbox_ok in Hok. inv_ok. split; [done|lia|done].
Qed.

Lemma expired_progress names n now d o : too_old names n now d o → progress o (expired_row o).
Proof. intros (Hs & _). by split. Qed.

Lemma outbox_ok_pending o new : outbox_ok o new = Ok () → ob_attempts new ≠ ob_attempts o → ob_status o = "pending".
Proof.
  unfold outbox_ok. intros Hok Hne. inv_ok.
  match goal with H : _ || _ = true |- _ => apply orb_true_iff in H as [H|H]; dec end; [done|by destruct_ex].
Qed.

Lemma recorded_key v now o : outbox_key (recorded_row v now o) = outbox_key o.
Proof. unfold recorded_row. by destruct (vd_status v). Qed.

Lemma recorded_progress v now o :
  (vd_status v = Vsent → landed (ob_provider o) (ob_tenant o) (ob_event_id o)) →
  (vd_status v = Vpending → ob_attempts o + 1 < max_attempts) →
  outbox_ok o (recorded_row v now o) = Ok () → progress o (recorded_row v now o).
Proof.
  intros Hsent Hpend Hok. apply outbox_ok_pending in Hok; [|unfold recorded_row; destruct (vd_status v); simpl; lia].
  unfold recorded_row. destruct (vd_status v) eqn:Hv; split; simpl; try done; try lia; intros Hs; try by rewrite Hok in Hs.
  - right. by apply Hsent.
  - right. by apply Hpend.
Qed.

(** ** The claimed batch *)

Lemma claimed_elem name n now d due :
  due ∈ claimed name n now d →
  ∃ o, o ∈ outbox d ∧ is_due name now o ∧ du_event_id due = ob_event_id o ∧ du_tenant due = ob_tenant o ∧
    du_attempts due = ob_attempts o ∧ ue_event_id (du_usage due) = ob_event_id o.
Proof.
  unfold claimed. intros (i & Hin%list_elem_of_lookup_2 & _)%elem_of_take.
  apply list_elem_of_bind in Hin as (o & Hin & Ho). apply list_elem_of_bind in Hin as (u & Hin & Hu).
  apply list_elem_of_bind in Hin as (r & Hin & _). apply list_elem_of_singleton in Hin as ->.
  rewrite merge_sort_Permutation in Ho. apply list_elem_of_filter in Ho as [Hd Ho].
  exists o. by split_and!.
Qed.

Lemma claimed_attempts name n now d due :
  due ∈ claimed name n now d → NoDup (outbox_key <$> outbox d) →
  ∀ o, o ∈ outbox d → outbox_key o = (name, du_tenant due, du_event_id due) → du_attempts due = ob_attempts o.
Proof.
  intros Hd Hnd o Ho Hk. destruct (claimed_elem _ _ _ _ _ Hd) as (x & Hx & (Hp & _) & Hi & Ht & -> & _).
  f_equal. eapply (key_inj outbox_key); [exact Hnd|done|done|]. rewrite Hk. unfold outbox_key. congruence.
Qed.

(** The groups are the claimed rows, by customer. *)
Lemma group_by_customer_spec dues :
  NoDup (group_by_customer dues).*1 ∧
  (∀ k l due, (k, l) ∈ group_by_customer dues → due ∈ l → due ∈ dues ∧ (du_tenant due, du_customer_ref due) = k) ∧
  (∀ due, due ∈ dues → due ∈ concat (group_by_customer dues).*2).
Proof.
  unfold group_by_customer. induction dues as [|due dues IH] using rev_ind.
  { split_and!; [apply NoDup_nil_2| |]; intros *; simpl; intros Hin; by apply not_elem_of_nil in Hin. }
  rewrite foldl_app. simpl. set (g := foldl _ _ _) in *. clearbody g. destruct IH as (Hnd & Hin & Hall). split_and!.
  - by apply dict_set_NoDup.
  - intros k l x Hl Hx. apply dict_append_elem in Hl as [Hl|(-> & l0 & -> & Hl0)]; [|..|done].
    + destruct (Hin k l x Hl Hx) as [? ?]. split; [apply elem_of_app; by left|done].
    + apply elem_of_app in Hx as [Hx|Hx%list_elem_of_singleton].
      * destruct Hl0 as [[-> _]|Hl0]; [by apply not_elem_of_nil in Hx|].
        destruct (Hin _ _ _ Hl0 Hx) as [? ?]. split; [apply elem_of_app; by left|done].
      * subst. split; [apply elem_of_app; right; left|done].
  - intros x [Hx|Hx%list_elem_of_singleton]%elem_of_app.
    + by apply dict_append_keeps, Hall.
    + subst. apply dict_append_has.
Qed.
Lemma group_elem {K} (due : Due) (gs : list (K * list Due)) :
  due ∈ concat gs.*2 → ∃ k l, (k, l) ∈ gs ∧ due ∈ l.
Proof.
  induction gs as [|[k l] gs IH]; simpl; [intros Hd; by apply not_elem_of_nil in Hd|].
  intros [Hd|Hd]%elem_of_app; [exists k, l; split; [left|done]|].
  destruct (IH Hd) as (k' & l' & Hl & ?). exists k', l'. split; [by right|done].
Qed.

(** ** One drained provider *)

Section drain.
Context (name : string) (call : adapter) (Hcall : (name, call) ∈ providers).

(** A verdict the pass may record for a claimed row. *)
Definition allowed (due : Due) (v : Verdict) : Prop :=
  (vd_status v = Vsent → landed name (du_tenant due) (du_event_id due)) ∧
  (vd_status v = Vpending →
     du_attempts due + 1 < max_attempts ∧ vd_delay_seconds v = backoff_seconds (du_attempts due + 1) base cap).

(** The verdicts after the rows [pre] were decided: one per event id, that of the
    last row with it, whose tenant [owner_of] also names. *)
Record decided_for (pre : list Due) (decided : list (string * Verdict)) : Prop := DecidedFor {
  df_keys : NoDup decided.*1;
  df_all : ∀ due, due ∈ pre → du_event_id due ∈ decided.*1;
  df_get : ∀ id v, dict_get id decided = Some v →
    ∃ due, due ∈ pre ∧ du_event_id due = id ∧
      dict_get id (dict_of du_event_id du_tenant pre []) = Some (du_tenant due) ∧ allowed due v;
}.

Lemma decided_for_nil : decided_for [] [].
Proof. split; [apply NoDup_nil_2|by intros due Hd%not_elem_of_nil|done]. Qed.

Lemma decided_for_batch pre decided batch vs tenant :
  decided_for pre decided → (∀ due, due ∈ batch → du_tenant due = tenant) →
  (∀ id v, (id, v) ∈ vs → ∃ due, due ∈ batch ∧ du_event_id due = id ∧ allowed due v) →
  (∀ id, (∃ due, due ∈ batch ∧ du_event_id due = id) → id ∈ vs.*1) →
  decided_for (pre ++ batch) (dict_update decided vs).
Proof.
  intros [Hnd Hall Hget] Ht Hvs Hkeys. split.
  - by apply dict_of_NoDup.
  - intros due [Hd|Hd]%elem_of_app; unfold dict_update; apply dict_of_keys; [right; auto|left].
    assert (Hk : du_event_id due ∈ vs.*1) by eauto. apply list_elem_of_fmap in Hk as (p & Hp & Hpin). by exists p.
  - intros id v Hg. assert (Hown : dict_of du_event_id du_tenant (pre ++ batch) [] =
      dict_of du_event_id du_tenant batch (dict_of du_event_id du_tenant pre [])) by apply foldl_app.
    rewrite Hown. clear Hown. unfold dict_update in Hg.
    destruct (dict_of_get fst snd vs decided id) as [([id' v'] & Hin & Hid & Hg')|[Hno Hg']]; rewrite Hg' in Hg; simpl in *.
    + simplify_eq. destruct (Hvs _ _ Hin) as (due & Hd & Hid & Hok).
      exists due. split_and!; [apply elem_of_app; by right|done| |done].
      destruct (dict_of_get du_event_id du_tenant batch (dict_of du_event_id du_tenant pre []) id) as [(x & Hx & _ & ->)|[Hno _]].
      * by rewrite !Ht.
      * by destruct (Hno due Hd).
    + destruct (Hget _ _ Hg) as (due & Hd & Hid & Hown & Hok). exists due.
      split_and!; [apply elem_of_app; by left|done| |done].
      destruct (dict_of_get du_event_id du_tenant batch (dict_of du_event_id du_tenant pre []) id) as [(x & Hx & Hxid & _)|[_ ->]]; [|done].
      assert (Hk : id ∈ vs.*1) by eauto. apply list_elem_of_fmap in Hk as (p & Hk & Hin). by destruct (Hno _ Hin).
Qed.

Lemma decide_groups_spec e d groups pre decided :
  (∀ k l due, (k, l) ∈ groups → due ∈ l → du_tenant due = k.1 ∧ du_event_id due = ue_event_id (du_usage due)) →
  decided_for pre decided →
  triple e (eq d) (decide_groups max_attempts base cap call name groups decided)
    (λ dec d', d' = d ∧ decided_for (pre ++ concat groups.*2) dec) (λ _ _, False).
Proof.
  revert pre decided. induction groups as [|[[t [ref|]] batch] groups IH]; intros pre decided Hg Hdec; simpl.
  { apply triple_ret. intros ? <-. by rewrite app_nil_r. }
  - assert (Hb : ∀ due, due ∈ batch → du_tenant due = t ∧ du_event_id due = ue_event_id (du_usage due)).
    { intros due Hd. by apply (Hg (t, Some ref) batch due); [left|]. }
    eapply (triple_bind e _ _ _ (λ ans d', d' = d ∧ ∃ n, ans = call n t name ref (du_usage <$> batch))).
    { intros w ->. simpl. split; [done|]. by exists (w_tick w). }
    intros answer. apply triple_pure. intros ? (-> & n & Hans). rewrite app_assoc. apply IH.
    { intros k l due Hl. apply Hg. by right. }
    destruct (verdicts_spec max_attempts base cap batch answer) as [Hv Hk].
    apply (decided_for_batch _ _ _ _ t); [done|intros due Hd; by apply Hb| |intros id; apply Hk].
    intros id v Hin. destruct (Hv _ _ Hin) as (due & Hd & Hid & [Hs Hp]). exists due.
    split_and!; [done|done|]. split; [|intros Hv'; by apply Hp].
    intros Hsent. destruct (Hs Hsent) as (res & Hres & Hsays). destruct (Hb due Hd) as [-> Hue].
    exists call, n, ref, (du_usage <$> batch), res. split_and!; [done|congruence| |done].
    rewrite Hue. by apply list_elem_of_fmap_2, list_elem_of_fmap_2.
  - rewrite app_assoc. apply IH.
    { intros k l due Hl. apply Hg. by right. }
    apply (decided_for_batch _ _ _ _ t); [done| | |].
    + intros due Hd. by apply (Hg (t, None) batch due); [left|].
    + intros id v (due & [= -> ->] & Hd)%list_elem_of_fmap. by exists due.
    + intros id (due & Hd & <-). apply list_elem_of_fmap. eexists. split; [|by apply (list_elem_of_fmap_2 _ _ _ Hd)]. done.
Qed.

(** The outbox while the verdicts are recorded: the rows of the events not yet
    recorded are those that were claimed. *)
Definition recording (d : db) (rest : list string) (d' : db) : Prop :=
  exported d d' ∧ ∀ o, o ∈ outbox d' → ob_event_id o ∈ rest → o ∈ outbox d.

Lemma record_spec e d now n (dues : list Due) id v rest :
  NoDup (outbox_key <$> outbox d) → (∀ due, due ∈ dues → due ∈ claimed name n now d) → id ∉ rest →
  ∀ tenant due, due ∈ dues → du_event_id due = id → du_tenant due = tenant → allowed due v →
  triple e (recording d (id :: rest)) (_record name tenant id v) (λ _, recording d rest) (λ _ _, True).
Proof.
  intros Hnd Hdues Hid tenant due Hd Hdi Hdt [Hsent Hpend]. apply triple_stmt; [done|].
  intros d1 u [Hexp Hsame]. destruct (update_outbox _ _ d1) as [d2|x] eqn:Hup; simpl; [|done]. split.
  - etrans; [exact Hexp|]. eapply update_outbox_exported; [exact Hup|]. intros o Ho (Hp & Ht & Hi) Hok.
    apply (recorded_progress v _ o); [|intros Hv|done].
    { rewrite Hp, Ht, Hi, <-Hdi, <-Hdt. done. }
    destruct (claimed_elem name n now d due (Hdues _ Hd)) as (o' & Ho' & (Hp' & _) & Hi' & Ht' & Ha & _).
    assert (o = o') as ->; [|rewrite <-Ha; by apply Hpend].
    eapply (key_inj outbox_key); [exact Hnd|apply Hsame; [done|rewrite Hi; left]|done|].
    unfold outbox_key. congruence.
  - intros o Ho Hin. apply update_outbox_Ok in Hup as [-> _]. simpl in Ho.
    apply elem_of_update_where in Ho as (x & Hx & ->). case_decide as HP.
    + exfalso. apply Hid. destruct HP as (_ & _ & <-). unfold recorded_row in Hin. by destruct (vd_status v).
    + apply Hsame; [done|by right].
Qed.

Lemma record_all_spec e d now n (dues : list Due) decided owner :
  NoDup (outbox_key <$> outbox d) → (∀ due, due ∈ dues → due ∈ claimed name n now d) → NoDup decided.*1 →
  (∀ id v, (id, v) ∈ decided → ∃ due, due ∈ dues ∧ du_event_id due = id ∧
     dict_get id owner = Some (du_tenant due) ∧ allowed due v) →
  triple e (recording d decided.*1)
    (for_each decided (λ '(event_id, verdict),
       match dict_get event_id owner with
       | None => raise (OtherException "KeyError")
       | Some tenant => _record name tenant event_id verdict
       end)) (λ _, recording d []) (λ _ _, True).
Proof.
  intros Hnd Hdues. induction decided as [|[id v] decided IH]; intros Hk Hdec; simpl.
  { by apply triple_ret. }
  apply NoDup_cons in Hk as [Hid Hk]. destruct (Hdec id v) as (due & Hd & Hdi & Hown & Hok); [left|]. rewrite Hown.
  eapply triple_bind; [by eapply (record_spec e d now n dues id v decided.*1)|].
  intros []. apply IH; [done|]. intros id' v' Hin. apply Hdec. by right.
Qed.

Lemma drain_spec e d batch_size :
  books d → triple e (eq d) (_drain max_attempts base cap name call batch_size) (λ _, exported d) (λ _, exported d).
Proof.
  intros Hb. unfold _drain.
  eapply (triple_transaction e _ _ (λ _, exported d) (λ _ _, True)); [|by intros ? ? <-|by intros ? ? ? <-|done].
  intros n. set (e' := with_now _ e).
  eapply (triple_bind e' _ _ _ (λ dues d', d' = d ∧ dues = claimed name batch_size (e_clock e n) d)).
  { apply triple_query; [done|]. by intros ? <-. }
  intros dues. apply triple_pure. intros ? [-> ->]. set (dues := claimed _ _ _ d). cbv zeta.
  destruct (group_by_customer_spec dues) as (_ & Hin & Hall).
  eapply triple_bind.
  { eapply triple_conseq; [apply (decide_groups_spec e' d (group_by_customer dues) [] [])|done|intros a d' H; exact H|done].
    - intros k l due Hl Hd. destruct (Hin k l due Hl Hd) as [Hdue <-]. split; [done|].
      destruct (claimed_elem _ _ _ _ _ Hdue) as (o & _ & _ & -> & _ & _ & ->). done.
    - apply decided_for_nil. }
  intros decided. apply triple_pure. intros ? (-> & [Hnd _ Hget]). simpl in Hget.
  eapply (triple_bind e' _ _ _ (λ _, recording d [])).
  { eapply (triple_conseq e' _ (recording d decided.*1)).
    - apply (record_all_spec e' d (e_clock e n) batch_size dues); [by destruct Hb|done|done|].
      intros id v Hdv. destruct (Hget id v) as (due & Hd & Hdi & Hown & Hok); [by apply dict_elem_get|].
      exists due. split_and!; [|done|done|done].
      apply group_elem in Hd as (k & l & Hl & Hd). by apply (Hin k l).
    - intros ? <-. split; [reflexivity|done].
    - done.
    - done. }
  intros []. apply triple_ret. by intros d' [? _].
Qed.
End drain.

(** ** A whole pass *)

Lemma expire_spec e d n names :
  triple e (eq d) (_expire n names) (λ _, exported d) (λ _, exported d).
Proof.
  eapply (triple_transaction e _ _ (λ _, exported d) (λ _ _, True)); [|by intros ? ? <-|by intros ? ? ? <-|done].
  intros m. apply triple_stmt; [done|]. intros ? u <-.
  destruct (update_outbox _ _ d) as [d2|x] eqn:Hup; simpl; [|done].
  eapply update_outbox_exported; [exact Hup|]. intros o _ Ho _. by eapply expired_progress.
Qed.

Lemma preserves_books_expire n names : preserves books (_expire n names).
Proof.
  apply preserves_transaction, preserves_stmt. intros now u d a d' Hd He. cbv beta in He.
  apply rbind_Ok in He as (d1 & Hup & [= _ <-]). by eapply update_outbox_books; [|exact Hd|exact Hup].
Qed.

Lemma preserves_books_send name call t ref batch : preserves books (_send call t name ref batch).
Proof. by intros e w Hw. Qed.

Lemma preserves_books_decide name call groups decided :
  preserves books (decide_groups max_attempts base cap call name groups decided).
Proof.
  revert decided. induction groups as [|[[t [ref|]] batch] groups IH]; intros decided; simpl; [apply preserves_ret| |apply IH].
  apply preserves_bind; [apply preserves_books_send|intros a; apply IH].
Qed.

Lemma preserves_books_record_verdict name t id v : preserves books (_record name t id v).
Proof.
  apply preserves_stmt. intros now u d a d' Hd He. apply rbind_Ok in He as (d1 & Hup & [= _ <-]).
  by eapply update_outbox_books; [apply recorded_key|exact Hd|exact Hup].
Qed.

Lemma preserves_books_drain name call n : preserves books (_drain max_attempts base cap name call n).
Proof.
  unfold _drain. apply preserves_transaction, preserves_bind; [apply preserves_query|]. intros dues.
  apply preserves_bind; [apply preserves_books_decide|]. intros decided.
  apply preserves_bind; [|intros []; apply preserves_ret]. apply preserves_for_each. intros [id v].
  destruct (dict_get _ _); [apply preserves_books_record_verdict|apply preserves_raise].
Qed.

Lemma preserves_count_many I c l n : preserves I (count_many c l n).
Proof. induction n as [|n IH]; simpl; pres. Qed.

Definition keeping (d d' : db) : Prop := exported d d' ∧ books d'.

Lemma keeping_step {A} e d (m : M A) :
  (∀ d1, books d1 → triple e (eq d1) m (λ _, exported d1) (λ _, exported d1)) → preserves books m →
  triple e (keeping d) m (λ _, keeping d) (λ _, keeping d).
Proof.
  intros Hm Hp. apply triple_pure. intros d1 [H1 Hb].
  eapply triple_conseq; [apply (triple_and e _ _ _ _ _ _ _ (Hm d1 Hb) (Hp e))|by intros ? <-| |];
    intros a d' [H2 Hb']; (split; [by etrans|done]).
Qed.

Lemma run_once_keeping e d batch_size max_age_days :
  triple e (keeping d) (run_once max_attempts base cap providers batch_size max_age_days)
    (λ _, keeping d) (λ _, keeping d).
Proof.
  unfold run_once. eapply triple_bind.
  { apply keeping_step; [intros; apply expire_spec|apply preserves_books_expire]. }
  intros counts. eapply triple_bind.
  { apply (preserves_for_each (keeping d)). intros [name k]. apply preserves_count_many. }
  intros []. generalize (foldl (λ totals '(_, n), dict_bump "expired" n totals) [] counts).
  enough (Hps : ∀ ps totals, (∀ p, p ∈ ps → p ∈ providers) →
    triple e (keeping d) (drain_all max_attempts base cap ps batch_size totals) (λ _, keeping d) (λ _, keeping d))
    by (intros totals; by apply Hps).
  intros ps. induction ps as [|[name call] ps IH]; intros totals Hps; simpl; [by apply triple_ret|].
  eapply triple_bind.
  { apply keeping_step; [|apply preserves_books_drain]. intros d1 Hb. apply drain_spec; [|done]. apply Hps. left. }
  intros cs. eapply triple_bind.
  { apply (preserves_for_each (keeping d)). intros [o k]. apply preserves_count_many. }
  intros []. eapply triple_bind.
  { apply (preserves_transaction (keeping d)), preserves_query. }
  intros age. apply IH. intros p Hp. apply Hps. by right.
Qed.
End pass.

(** ** A pass without failures settles what it claimed *)

Section settle.
Context (max_attempts base cap : Z) (name : string).

(** The outbox after the verdicts of [decided] were recorded. *)
Definition record_all (now : Z) (owner : list (string * string)) (decided : list (string * Verdict))
    (rows : list outbox_row) : list outbox_row :=
  foldl (λ rows '(id, v),
    match dict_get id owner with
    | Some tenant => update_where (is_outbox name tenant id) (recorded_row v now) rows
    | None => rows
    end) rows decided.

Lemma recorded_event v now o : ob_event_id (recorded_row v now o) = ob_event_id o.
Proof. unfold recorded_row. by destruct (vd_status v). Qed.

Lemma record_all_other now owner decided rows o :
  o ∈ rows → ob_event_id o ∉ decided.*1 → o ∈ record_all now owner decided rows.
Proof.
  revert rows. induction decided as [|[id v] decided IH]; intros rows Ho Hid; simpl in *; [done|].
  apply not_elem_of_cons in Hid as [Hne Hid]. apply IH; [|done].
  destruct (dict_get id owner) as [t|]; [|done]. apply elem_of_update_where. exists o. split; [done|].
  rewrite decide_False; [done|]. by intros (_ & _ & ?).
Qed.

Lemma record_all_one now owner decided rows o v t :
  o ∈ rows → NoDup decided.*1 → (ob_event_id o, v) ∈ decided →
  dict_get (ob_event_id o) owner = Some t → is_outbox name t (ob_event_id o) o →
  recorded_row v now o ∈ record_all now owner decided rows.
Proof.
  revert rows. induction decided as [|[id v'] decided IH]; intros rows Ho Hnd Hin Hown Hkey; simpl in *;
    [by apply not_elem_of_nil in Hin|].
  apply NoDup_cons in Hnd as [Hid Hnd]. apply elem_of_cons in Hin as [[= <- <-]|Hin].
  - rewrite Hown. apply record_all_other; [|by rewrite recorded_event].
    apply elem_of_update_where. exists o. split; [done|]. by rewrite decide_True.
  - apply IH; try done. destruct (dict_get id owner) as [t'|]; [|done].
    apply elem_of_update_where. exists o. split; [done|]. rewrite decide_False; [done|].
    intros (_ & _ & Heq). apply Hid. rewrite <-Heq. by apply (list_elem_of_fmap_2 fst) in Hin.
Qed.

(** Recording a verdict of a pending row violates no constraint. *)
Lemma recorded_ok v now o :
  row_ok o → ob_status o = "pending" → ob_attempts o < 2 ^ 31 - 1 → outbox_ok o (recorded_row v now o) = Ok ().
Proof.
  intros [Hst Ha Hs] Hp Hmax. unfold outbox_ok. rewrite (bool_decide_eq_true_2 (ob_status o = "pending")) by done. simpl.
  assert (Hatt : ob_attempts (recorded_row v now o) = ob_attempts o + 1) by (unfold recorded_row; by destruct (vd_status v)).
  unfold int32. rewrite Hatt. rewrite (proj2 (Z.leb_le (- 2 ^ 31) _)) by lia. rewrite (proj2 (Z.ltb_lt _ (2 ^ 31))) by lia. simpl.
  rewrite (proj2 (Z.leb_le 0 (ob_attempts o + 1))) by lia.
  assert (Hnone : ob_sent_at o = None).
  { destruct (ob_sent_at o) eqn:Hsent; [|done]. rewrite Hp in Hs. assert ("pending" = "sent")%string by (by apply Hs). done. }
  unfold recorded_row. destruct (vd_status v); simpl.
  - done.
  - rewrite Hp, Hnone. done.
  - rewrite Hnone. done.
Qed.

Lemma all_ok_true {A} (f : A → result exn ()) l : (∀ x, x ∈ l → f x = Ok ()) → all_ok f l = Ok ().
Proof.
  induction l as [|x l IH]; intros Hf; simpl; [done|]. rewrite (Hf x) by left. simpl. apply IH. intros y Hy. apply Hf. by right.
Qed.

Lemma record_settles_spec e d owner decided :
  (∀ id v t o, (id, v) ∈ decided → dict_get id owner = Some t → o ∈ outbox d → is_outbox name t id o →
     row_ok o ∧ ob_status o = "pending" ∧ ob_attempts o < 2 ^ 31 - 1) →
  (∀ id v, (id, v) ∈ decided → is_Some (dict_get id owner)) → NoDup decided.*1 →
  ∀ rows, (∀ o, o ∈ rows → ob_event_id o ∈ decided.*1 → o ∈ outbox d) →
  triple e (eq (set_outbox (λ _, rows) d))
    (for_each decided (λ '(event_id, verdict),
       match dict_get event_id owner with
       | None => raise (OtherException "KeyError")
       | Some tenant => _record name tenant event_id verdict
       end)) (λ _, eq (set_outbox (λ _, record_all (e_now e) owner decided rows) d)) (λ x _, faulty e x).
Proof.
  induction decided as [|[id v] decided IH]; intros Hrows Hown Hk rows Hsame; simpl.
  { by apply triple_ret. }
  apply NoDup_cons in Hk as [Hid Hk]. destruct (Hown id v) as [t Ht]; [left|]. rewrite Ht.
  eapply (triple_bind e _ _ _ (λ _, eq (set_outbox (λ _, update_where (is_outbox name t id) (recorded_row v (e_now e)) rows) d))).
  - apply triple_stmt; [done|]. intros ? u <-. unfold update_outbox. rewrite all_ok_true; [done|].
    intros o [HP Ho]%list_elem_of_filter. simpl in Ho.
    assert (Hin : o ∈ outbox d) by (apply Hsame; [done|]; destruct HP as (_ & _ & ->); left).
    destruct (Hrows id v t o) as (Hr & Hp & Ha); [left|done..|]. by apply recorded_ok.
  - intros []. apply IH; [|intros id' v' Hin; apply (Hown id' v'); by right|done|].
    + intros id' v' t' o Hin. apply (Hrows id' v'). by right.
    + intros o Ho Hin. apply elem_of_update_where in Ho as (x & Hx & ->). case_decide as HP.
      * exfalso. apply Hid. rewrite recorded_event in Hin. by destruct HP as (_ & _ & <-).
      * apply Hsame; [done|by right].
Qed.

(** What a claimed row has become. *)
Definition settled (now : Z) (due : Due) (d d' : db) : Prop :=
  ∃ o o', o ∈ outbox d ∧ o' ∈ outbox d' ∧ outbox_key o = (name, du_tenant due, du_event_id due) ∧
    outbox_key o' = outbox_key o ∧ ob_attempts o' = ob_attempts o + 1 ∧
    (ob_status o' = "pending" → ob_attempts o' < max_attempts ∧
       ob_next_attempt_at o' = now + backoff_seconds (ob_attempts o') base cap * us_per_second).

Lemma drain_settles e d call batch_size :
  books d → (∀ o, o ∈ outbox d → ob_attempts o < 2 ^ 31 - 1) →
  (∀ n x y, x ∈ claimed name batch_size n d → y ∈ claimed name batch_size n d →
     du_event_id x = du_event_id y → du_tenant x = du_tenant y) →
  triple e (eq d) (_drain max_attempts base cap name call batch_size)
    (λ _ d', ∃ n, ∀ due, due ∈ claimed name batch_size (e_clock e n) d → settled (e_clock e n) due d d')
    (λ x _, faulty e x).
Proof.
  intros Hb Hmax Huniq. destruct Hb as [_ Hkeys _ Hrows]. unfold _drain.
  eapply (triple_transaction e _ _ _ (λ x _, faulty e x)); [|done..].
  intros n. set (e' := with_now _ e). set (now := e_clock e n).
  eapply (triple_bind e' _ _ _ (λ dues d', d' = d ∧ dues = claimed name batch_size now d)).
  { apply triple_query; [done|]. by intros ? <-. }
  intros dues. apply triple_pure. intros ? [-> ->]. set (dues := claimed _ _ _ d). cbv zeta.
  destruct (group_by_customer_spec dues) as (_ & Hin & Hall).
  assert (Hclaimed : ∀ due, due ∈ concat (group_by_customer dues).*2 → due ∈ dues).
  { intros due (k & l & Hl & Hd)%group_elem. by apply (Hin k l). }
  eapply triple_bind.
  { eapply triple_conseq; [apply (decide_groups_spec max_attempts base cap [(name, call)] name call
      ltac:(left) e' d (group_by_customer dues) [] [])|done|intros a d' H; exact H|done].
    - intros k l due Hl Hd. destruct (Hin k l due Hl Hd) as [Hdue <-]. split; [done|].
      destruct (claimed_elem _ _ _ _ _ Hdue) as (o & _ & _ & -> & _ & _ & ->). done.
    - apply decided_for_nil. }
  intros decided. apply triple_pure. intros ? (-> & [Hnd Hdall Hget]). simpl in Hget, Hdall.
  fold (owner_of (group_by_customer dues)) in Hget. set (owner := owner_of _) in *.
  assert (Hone : ∀ id v, (id, v) ∈ decided → ∃ due, due ∈ dues ∧ du_event_id due = id ∧
    dict_get id owner = Some (du_tenant due) ∧ allowed max_attempts base cap [(name, call)] name due v).
  { intros id v Hdv. destruct (Hget id v) as (due & Hd & ?); [by apply dict_elem_get|]. eauto. }
  eapply (triple_bind e' _ _ _ (λ _, eq (set_outbox (λ _, record_all now owner decided (outbox d)) d))).
  { eapply triple_conseq; [refine (record_settles_spec e' d owner decided _ _ _ (outbox d) _)|intros ? <-; by destruct d|done|done].
    - intros id v t o Hdv Ht Ho Ho'. destruct (Hone id v Hdv) as (due & Hd & Hdi & Hdt & _).
      destruct (claimed_elem _ _ _ _ _ Hd) as (x & Hx & (Hxp & Hxs & _) & Hxi & Hxt & _).
      assert (o = x) as ->; [|auto].
      eapply (key_inj outbox_key); [exact Hkeys|done|done|]. apply is_outbox_key in Ho'. rewrite Ho'.
      unfold outbox_key. congruence.
    - intros id v Hdv. destruct (Hone id v Hdv) as (due & _ & _ & -> & _). eauto.
    - done.
    - done. }
  intros []. apply triple_ret. intros ? <-. exists n. intros due Hd.
  assert (Hid : du_event_id due ∈ decided.*1) by (apply Hdall, Hall, Hd).
  apply list_elem_of_fmap in Hid as ([id v] & Hid & Hdv). simpl in Hid. subst id.
  destruct (Hone _ _ Hdv) as (due' & Hd' & Hdi' & Hown & _ & Hpend).
  rewrite (Huniq now due' due Hd' Hd Hdi') in Hown.
  destruct (claimed_elem _ _ _ _ _ Hd) as (o & Ho & (Hop & Hos & _) & Hoi & Hot & Hoa & _).
  exists o, (recorded_row v now o).
  assert (Hatt : ob_attempts (recorded_row v now o) = ob_attempts o + 1) by (unfold recorded_row; by destruct (vd_status v)).
  split_and!; [done| |unfold outbox_key; congruence|apply recorded_key|done|].
  - apply (record_all_one now owner decided (outbox d) o v (du_tenant due)); rewrite <-?Hoi; done.
  - rewrite Hatt. unfold recorded_row. destruct (vd_status v) eqn:Hv; simpl; try done. intros _.
    destruct (Hpend eq_refl) as [Hlt ->].
    assert (du_attempts due' = ob_attempts o) as Ha; [|by rewrite Ha in *].
    apply (claimed_attempts _ _ _ _ _ Hd' Hkeys o Ho). unfold outbox_key.
    by rewrite Hop, <-Hoi, <-Hot, Hdi', (Huniq now due' due Hd' Hd Hdi').
Qed.
End settle.

Lemma preserves_books_run_once max base cap providers n age : preserves books (run_once max base cap providers n age).
Proof.
  intros e. apply triple_pure. intros d Hd.
  eapply triple_conseq; [apply (run_once_keeping max base cap providers e d)|intros ? <-| |];
    [by split|by intros a d' [? ?]..].
Qed.

(** ** An invariant of the wallet does not see a pass *)

Section wallet_invariants.
Context (I : db → Prop) (HI : Proper (same_wallet ==> iff) I).

Lemma preserves_update_outbox {A} (f : Z → string → db → result exn (A * db)) :
  (∀ now u d a d', f now u d = Ok (a, d') → outbox_only d d') → preserves I (stmt f).
Proof. intros Hf. apply preserves_same_wallet; [done|]. intros now u d a d' He. eapply outbox_only_wallet, Hf, He. Qed.

Lemma update_outbox_only (P : outbox_row → Prop) `{!∀ r, Decision (P r)} f d d' :
  update_outbox P f d = Ok d' → outbox_only d d'.
Proof. intros [-> _]%update_outbox_Ok. by destruct d. Qed.

Lemma preserves_decide_groups max base cap call name groups decided :
  preserves I (decide_groups max base cap call name groups decided).
Proof.
  revert decided. induction groups as [|[[t [ref|]] batch] groups IH]; intros decided; simpl; [apply preserves_ret| |apply IH].
  apply preserves_bind; [by intros e w Hw|intros answer; apply IH].
Qed.

Lemma preserves_drain max base cap name call n : preserves I (_drain max base cap name call n).
Proof.
  unfold _drain. apply preserves_transaction, preserves_bind; [apply preserves_query|]. intros dues.
  apply preserves_bind; [apply preserves_decide_groups|]. intros decided.
  apply preserves_bind; [|intros []; apply preserves_ret]. apply preserves_for_each. intros [id v].
  destruct (dict_get _ _); [|apply preserves_raise]. apply preserves_update_outbox. intros now u d x d' He.
  apply rbind_Ok in He as (d1 & Hup & [= _ <-]). by eapply update_outbox_only.
Qed.

Lemma preserves_run_once max base cap providers n age : preserves I (run_once max base cap providers n age).
Proof.
  unfold run_once. apply preserves_bind.
  { unfold _expire. apply preserves_transaction, preserves_update_outbox. intros now u d a d' He.
    apply rbind_Ok in He as (d1 & Hup & [= _ <-]). by eapply update_outbox_only. }
  intros counts. apply preserves_bind; [apply preserves_for_each; intros []; apply preserves_count_many|]. intros [].
  generalize (foldl (λ totals '(_, n), dict_bump "expired" n totals) [] counts).
  induction providers as [|[name call] ps IH]; intros totals; simpl; [apply preserves_ret|].
  apply preserves_bind; [apply preserves_drain|]. intros cs. apply preserves_bind.
  { apply preserves_for_each. intros [o k]. apply preserves_count_many. }
  intros []. apply preserves_bind; [unfold _set_age_gauge; pres|]. intros age'. apply IH.
Qed.
End wallet_invariants.
