(* ===== verification/Retention.v ===== *)
(** Retention of the usage events: [credit_billing/retention.py].

    Events past the cutoff are deleted in batches, each batch with its finished
    export rows and in a transaction of its own; an event whose export is not
    finished is kept and counted. *)
From S2P Require Import Prelude Dict Decimals Calendar Db Wallet Webhooks Usage Export.
From S2P Require Import WalletSpec WalletFacts UsageFacts Books.

Local Open Scope string_scope.
Local Open Scope list_scope.
Local Open Scope Z_scope.

Definition BILLING_USAGE_EVENT_MIN_RETENTION_DAYS : Z := 35.

Record SweepResult : Type := {
  sr_deleted : nat;
  sr_outbox_cleared : nat;
  sr_held_back : nat;
  sr_complete : bool;
}.

(** [EXISTS (SELECT 1 FROM billing_export_outbox ... o.status <> 'sent')] *)
Definition unfinished (d : db) (u : usage_row) : Prop :=
  Exists (λ o, event_of o u ∧ ob_status o ≠ "sent") (outbox d).
#[export] Instance unfinished_dec d u : Decision (unfinished d u).
Proof. unfold unfinished. apply _. Defined.

Definition past_cutoff (older_than_days now : Z) (u : usage_row) : Prop :=
  us_occurred_at u < now - days older_than_days.
#[export] Instance past_cutoff_dec n now u : Decision (past_cutoff n now u).
Proof. unfold past_cutoff. apply _. Defined.

Definition doomed (older_than_days now : Z) (d : db) (u : usage_row) : Prop :=
  past_cutoff older_than_days now u ∧ ¬ unfinished d u.
#[export] Instance doomed_dec n now d u : Decision (doomed n now d u).
Proof. unfold doomed. apply _. Defined.

(** The foreign key of an outbox row. *)
Definition event_key (o : outbox_row) : string * string := (ob_tenant o, ob_event_id o).

(** [_BATCH]: the events chosen, and the tables without them and their exports. *)
Definition chosen (older_than_days : Z) (n : nat) (now : Z) (d : db) : list (string * string) :=
  usage_key <$> take n (filter (doomed older_than_days now d) (usage_events d)).

Definition clear_events (keys : list (string * string)) (d : db) : db :=
  set_usage_events (filter (λ u, usage_key u ∉ keys)) (set_outbox (filter (λ o, event_key o ∉ keys)) d).

(** [set_config('billing_usage_events.allow_delete', 'on', true)]: lets the
    transaction's next statement delete. *)
Definition _allow_delete : M () := query (λ _ _, ()).

Definition _batch (older_than_days : Z) (n : nat) : M (nat * nat) :=
  transaction (
    _allow_delete ;;
    stmt (λ now _ d,
      let keys := chosen older_than_days n now d in
      Ok ((length (filter (λ u, usage_key u ∈ keys) (usage_events d)),
           length (filter (λ o, event_key o ∈ keys) (outbox d))), clear_events keys d))).

Definition _held_back (older_than_days : Z) : M nat :=
  transaction (query (λ now d,
    length (filter (λ u, past_cutoff older_than_days now u ∧ unfinished d u) (usage_events d)))).

Fixpoint event_batches (older_than_days : Z) (batch_size max_batches deleted cleared : nat) : M (nat * nat * bool) :=
  match max_batches with
  | O => mret (deleted, cleared, false)
  | S max_batches =>
      '(gone, outbox) ← _batch older_than_days batch_size;
      if bool_decide (gone < batch_size)%nat then mret (deleted + gone, cleared + outbox, true)%nat
      else event_batches older_than_days batch_size max_batches (deleted + gone) (cleared + outbox)
  end.

Definition sweep_old_events (older_than_days : Z) (batch_size max_batches : nat) : M SweepResult :=
  refuse_if (older_than_days <? BILLING_USAGE_EVENT_MIN_RETENTION_DAYS)
    (ValueError "the wallet reconciliation or the export would stop seeing usage that is still inside its window") ;;
  '(deleted, cleared, complete) ← event_batches older_than_days batch_size max_batches 0 0;
  held ← _held_back older_than_days;
  mret (Build_SweepResult deleted cleared held complete).

(** ** What a sweep may remove *)

(** From [d] to [d'] only events past the cutoff at a time up to [now] are gone,
    each with every export sent; exports that are not finished are all kept. *)
Record swept (older_than_days now : Z) (d d' : db) : Prop := Swept {
  sw_rest : d' = set_usage_events (λ _, usage_events d') (set_outbox (λ _, outbox d') d);
  sw_events : usage_events d' `sublist_of` usage_events d;
  sw_outbox : outbox d' `sublist_of` outbox d;
  sw_gone : ∀ u, u ∈ usage_events d → u ∉ usage_events d' → past_cutoff older_than_days now u ∧ ¬ unfinished d u;
  sw_kept : ∀ o, o ∈ outbox d → ob_status o ≠ "sent" → o ∈ outbox d';
}.

Lemma swept_refl n now d : swept n now d d.
Proof. split; [by destruct d|done|done|done|done]. Qed.

Lemma swept_trans n now d1 d2 d3 : swept n now d1 d2 → swept n now d2 d3 → swept n now d1 d3.
Proof.
  intros [R1 E1 O1 G1 K1] [R2 E2 O2 G2 K2]. split; [|by etrans|by etrans| |by eauto].
  - rewrite R2, R1. by destruct d1.
  - intros u Hu Hn. destruct (decide (u ∈ usage_events d2)) as [Hin|Hin]; [|by apply G1].
    destruct (G2 u Hin Hn) as [Hold Hfin]. split; [done|]. intros Hun. apply Hfin.
    apply Exists_exists in Hun as (o & Ho & Hou & Hs). apply Exists_exists. exists o. split; [by apply K1|done].
Qed.

Lemma swept_later n now now' d d' : now ≤ now' → swept n now d d' → swept n now' d d'.
Proof.
  intros Hn [R E O G K]. split; try done. intros u Hu Hn'. destruct (G u Hu Hn') as [Hold ?]. split; [|done].
  unfold past_cutoff in *. lia.
Qed.

Lemma swept_wallet n now d d' : swept n now d d' → same_wallet d d'.
Proof. by intros [-> _ _ _ _]. Qed.

Lemma event_of_key o u : event_of o u ↔ event_key o = usage_key u.
Proof. unfold event_of, event_key, usage_key. split; [by intros [-> ->]|by intros [= -> ->]]. Qed.

Lemma clear_swept days n now d :
  NoDup (usage_key <$> usage_events d) → swept days now d (clear_events (chosen days n now d) d).
Proof.
  intros Hnd. assert (Hch : ∀ u, u ∈ usage_events d → usage_key u ∈ chosen days n now d → doomed days now d u).
  { intros u Hu (x & Hk & (i & Hx%list_elem_of_lookup_2 & _)%elem_of_take)%list_elem_of_fmap.
    apply list_elem_of_filter in Hx as [Hx Hin]. by rewrite (key_inj usage_key _ _ _ Hnd Hu Hin Hk). }
  split; simpl.
  - by destruct d.
  - apply sublist_filter.
  - apply sublist_filter.
  - intros u Hu Hn. apply Hch; [done|]. destruct (decide (usage_key u ∈ chosen days n now d)) as [|Hno]; [done|].
    exfalso. apply Hn. by apply list_elem_of_filter.
  - intros o Ho Hs. apply list_elem_of_filter. split; [|done]. intros Hin.
    apply list_elem_of_fmap in Hin as (u & Hk & (i & Hu%list_elem_of_lookup_2 & _)%elem_of_take).
    apply list_elem_of_filter in Hu as [[_ Hfin] Hu]. apply Hfin, Exists_exists. exists o. split; [done|].
    split; [by apply event_of_key|done].
Qed.

Lemma swept_books n now d d' :
  (∀ o u, o ∈ outbox d' → u ∈ usage_events d → event_of o u → u ∈ usage_events d') → swept n now d d' → books d → books d'.
Proof.
  intros Hfk [_ E O _ _] [B1 B2 B3 B4].
  assert (Ho : ∀ o, o ∈ outbox d' → o ∈ outbox d) by (intros o Hin; by eapply elem_of_sublist).
  split.
  - eapply sublist_NoDup; [done|]. by apply fmap_sublist.
  - eapply sublist_NoDup; [done|]. by apply fmap_sublist.
  - intros o Hin. destruct (B3 o (Ho o Hin)) as (u & Hu & Hou). exists u. split; [by eapply Hfk|done].
  - intros o Hin. by apply B4, Ho.
Qed.

Lemma sublist_filter_mono {A} (P : A → Prop) `{!∀ x, Decision (P x)} (l k : list A) :
  l `sublist_of` k → filter P l `sublist_of` filter P k.
Proof.
  induction 1 as [|x l k _ IH|x l k _ IH]; [done| |]; rewrite !filter_cons; case_decide; try done.
  - by apply sublist_skip.
  - by apply sublist_cons.
Qed.

(** A batch that removed fewer events than it might have left none behind. *)
Lemma clear_complete days n now d :
  (length (filter (λ u, usage_key u ∈ chosen days n now d) (usage_events d)) < n)%nat →
  ∀ u, u ∈ usage_events (clear_events (chosen days n now d) d) →
    ¬ doomed days now (clear_events (chosen days n now d) d) u.
Proof.
  intros Hlt. assert (Htake : take n (filter (doomed days now d) (usage_events d)) = filter (doomed days now d) (usage_events d)).
  { destruct (decide (length (filter (doomed days now d) (usage_events d)) ≤ n)%nat); [by apply take_ge|]. exfalso.
    assert (Hsub : take n (filter (doomed days now d) (usage_events d)) `sublist_of`
      filter (λ u, usage_key u ∈ chosen days n now d) (usage_events d)).
    { rewrite <-(filter_all (λ u, usage_key u ∈ chosen days n now d) (take n _)).
      - apply sublist_filter_mono. etrans; [apply sublist_take|apply sublist_filter].
      - intros u Hu. by apply list_elem_of_fmap_2. }
    apply sublist_length in Hsub. rewrite length_take in Hsub. lia. }
  intros u [Hno Hu]%list_elem_of_filter [Hold Hfin]. apply Hno. unfold chosen. rewrite Htake.
  apply list_elem_of_fmap_2, list_elem_of_filter. split; [|done]. split; [done|]. intros Hun. apply Hfin.
  apply Exists_exists in Hun as (o & Ho & Hou & Hs). apply Exists_exists. exists o. split; [|done].
  apply list_elem_of_filter. split; [|done]. by rewrite (proj1 (event_of_key o u) Hou).
Qed.

(** ** The sweep *)

Section sweep.
Context (e : env) (N : Z) (Hclock : ∀ n, e_clock e n ≤ N) (older_than_days : Z).

(** No event that could go is left, by the clock of some transaction of the sweep. *)
Definition nothing_left (d : db) : Prop :=
  ∃ n, ∀ u, u ∈ usage_events d → ¬ doomed older_than_days (e_clock e n) d u.

Definition sweeping (d d' : db) : Prop := swept older_than_days N d d' ∧ books d'.

Lemma batch_sweeps d n :
  books d →
  triple e (eq d) (_batch older_than_days n)
    (λ r d', sweeping d d' ∧ ((r.1 < n)%nat → nothing_left d')) (λ _, sweeping d).
Proof.
  intros Hb. apply (triple_transaction e _ _ _ (λ _ _, True));
    [|intros ? ? <- _; split; [apply swept_refl|done]|intros ? ? ? <- _; split; [apply swept_refl|done]|by intros a d' x [? _]].
  intros k. eapply (triple_bind _ _ _ _ (λ _, eq d)); [by apply triple_query|]. intros [].
  apply triple_stmt; [done|]. intros ? id <-. cbv zeta. split.
  - assert (Hsw : swept older_than_days N d (clear_events (chosen older_than_days n (e_clock e k) d) d)).
    { eapply (swept_later _ (e_clock e k)); [apply Hclock|]. by apply clear_swept, Hb. }
    split; [exact Hsw|]. eapply swept_books; [|exact Hsw|done]. intros o u [Ho _]%list_elem_of_filter Hu Hou.
    apply list_elem_of_filter. split; [|done]. by rewrite <-(proj1 (event_of_key o u) Hou).
  - intros Hlt. exists k. by apply clear_complete.
Qed.

Lemma batches_sweep d n m deleted cleared :
  books d →
  triple e (eq d) (event_batches older_than_days n m deleted cleared)
    (λ r d', sweeping d d' ∧ (r.2 = true → nothing_left d')) (λ _, sweeping d).
Proof.
  revert d deleted cleared. induction m as [|m IH]; intros d deleted cleared Hb; simpl.
  { apply triple_ret. intros ? <-. split; [|done]. split; [apply swept_refl|done]. }
  eapply triple_bind; [by apply batch_sweeps|]. intros [gone out]. apply triple_pure. intros d1 [[H1 Hb1] Hleft].
  case_bool_decide.
  - apply triple_ret. intros ? <-. split; [by split|]. intros _. by apply Hleft.
  - eapply triple_conseq; [apply IH, Hb1|done| |].
    + intros r d' [[H2 Hb2] Hl]. split; [|done]. split; [by eapply swept_trans|done].
    + intros x d' [H2 Hb2]. split; [by eapply swept_trans|done].
Qed.

Lemma sweep_old_events_spec d n m :
  books d →
  triple e (eq d) (sweep_old_events older_than_days n m)
    (λ r d', BILLING_USAGE_EVENT_MIN_RETENTION_DAYS ≤ older_than_days ∧ sweeping d d' ∧
       (sr_complete r = true → nothing_left d') ∧
       ∃ k, sr_held_back r = length (filter (λ u, past_cutoff older_than_days (e_clock e k) u ∧ unfinished d' u) (usage_events d')))
    (λ _ d', sweeping d d' ∧ (older_than_days < BILLING_USAGE_EVENT_MIN_RETENTION_DAYS → d' = d)).
Proof.
  intros Hb. unfold sweep_old_events. eapply (triple_bind _ _ _ _ (λ _ d', d' = d ∧ BILLING_USAGE_EVENT_MIN_RETENTION_DAYS ≤ older_than_days)).
  { apply triple_refuse_if; intros ? <- Hlt; [|apply Z.ltb_ge in Hlt; by split].
    split; [split; [apply swept_refl|done]|done]. }
  intros []. apply triple_pure. intros ? [-> Hdays].
  eapply triple_bind.
  { eapply triple_conseq; [by apply batches_sweep|done|intros a d' H; exact H|].
    intros x d' Hs. split; [done|]. lia. }
  intros [[deleted cleared] complete]. apply triple_pure. intros d1 [[H1 Hb1] Hleft].
  eapply (triple_bind _ _ _ _ (λ held d', d' = d1 ∧ ∃ k, held =
    length (filter (λ u, past_cutoff older_than_days (e_clock e k) u ∧ unfinished d' u) (usage_events d')))).
  - apply (triple_transaction e _ _ _ (λ _, eq d1)).
    + intros k. apply triple_query; [done|]. intros ? <-. split; [done|]. by exists k.
    + intros ? x <- _. split; [by split|lia].
    + intros ? ? x <- <-. split; [by split|lia].
    + intros a ? x [-> _] _. split; [by split|lia].
  - intros held. apply triple_ret. intros ? (-> & Hheld). split_and!; [done|by split|done|done].
Qed.
End sweep.

Lemma preserves_books_batches older_than_days n m a b : preserves books (event_batches older_than_days n m a b).
Proof.
  revert a b. induction m as [|m IH]; intros a b; simpl; [apply preserves_ret|].
  apply preserves_bind; [|intros [g o]; destruct (bool_decide _); [apply preserves_ret|apply IH]].
  unfold _batch, _allow_delete. pres. apply preserves_stmt. intros now id d r d' Hd [= _ <-].
  eapply (swept_books older_than_days now); [|by apply clear_swept, Hd|done].
  intros o u [Ho _]%list_elem_of_filter Hu Hou. apply list_elem_of_filter. split; [|done].
  by rewrite <-(proj1 (event_of_key o u) Hou).
Qed.

#[export] Hint Resolve preserves_books_batches : inv.

Lemma preserves_books_events_sweep older_than_days n m : preserves books (sweep_old_events older_than_days n m).
Proof. unfold sweep_old_events, _held_back. pres. Qed.

Lemma preserves_events_sweep (I : db → Prop) older_than_days n m :
  Proper (same_wallet ==> iff) I → preserves I (sweep_old_events older_than_days n m).
Proof.
  intros HI. assert (Hb : ∀ k a b, preserves I (event_batches older_than_days n k a b)).
  { intros k. induction k as [|k IH]; intros a b; simpl; [apply preserves_ret|]. unfold _batch, _allow_delete. pres.
    apply preserves_same_wallet; [done|]. by intros now id d r d' [= _ <-]. }
  unfold sweep_old_events, _held_back. pres.
Qed.
