(* ===== verification/System.v ===== *)
(** The billing system as a whole: every way the program touches the wallet's
    tables, in any order, at any times and under any schedule of failures. *)
From S2P Require Import Prelude Decimals Calendar Db Wallet Webhooks Usage Export.
From S2P Require Import WalletSpec WalletFacts WalletLaws UsageFacts Books ExportFacts Retention.

Local Open Scope Z_scope.

(** ** Calls *)

Inductive call : Type :=
| CGrant (tenant : string) (amount : decimal) (source key actor : string) (reason : option string)
    (expires_at : option datetime) (provider external_ref : option string) (compare : option (list string))
| CDebit (tenant : string) (amount : decimal) (key : string) (usage_event_id : option string)
    (actor : string) (reason : option string) (kind : string) (pr : option pricing)
    (compare : option (list string))
| CAdjust (tenant : string) (amount : decimal) (key actor reason : string)
    (expires_at : option datetime) (compare : option (list string))
| CExpire (limit : nat) (tenant : option string)
| CEvent (ev : BillingEvent)
| CUsage (u : usage)
| CLink (tenant provider customer_ref : string)
| CProduct (p : CreditProduct)
| CSweep (older_than_days : Z) (batch_size max_batches : nat)
| CExport (max_attempts base cap : Z) (providers : list (string * adapter)) (batch_size : nat) (max_age_days : Z)
| CSweepEvents (older_than_days : Z) (batch_size max_batches : nat).

(** The settings the calls run under. *)
Record config : Type := Config {
  c_usage : settings;
  c_refund_hold_hours : Z;
  c_max_attempts : Z;
}.

Definition run (cfg : config) (c : call) : M () :=
  match c with
  | CGrant tenant amount source key actor reason expires_at provider external_ref compare =>
      grant tenant amount source key actor reason expires_at provider external_ref compare ;; mret ()
  | CDebit tenant amount key ue actor reason kind pr compare =>
      debit tenant amount key ue actor reason kind pr compare ;; mret ()
  | CAdjust tenant amount key actor reason expires_at compare =>
      adjust tenant amount key actor reason expires_at compare ;; mret ()
  | CExpire limit tenant => expire_due limit tenant ;; mret ()
  | CEvent ev => process_event (c_refund_hold_hours cfg) (c_max_attempts cfg) ev ;; mret ()
  | CUsage u => transaction (port_record_usage_in (c_usage cfg) u) ;; mret ()
  | CLink tenant provider customer_ref => transaction (link_customer tenant provider customer_ref)
  | CProduct p => transaction (put_product p)
  | CSweep n b m => sweep_old_rows n b m ;; mret ()
  | CExport max base cap providers n age => run_once max base cap providers n age ;; mret ()
  | CSweepEvents n b m => sweep_old_events n b m ;; mret ()
  end.

(** The tables a sequence of calls can lead to by the time [now], starting empty. *)
Inductive reachable (cfg : config) : Z → db → Prop :=
| reach_empty now : reachable cfg now empty_db
| reach_call now now' d e c w :
    reachable cfg now d → now ≤ now' → (∀ n, e_clock e n ≤ now') → w_db w = d →
    reachable cfg now' (w_db (snd (run cfg c e w))).

(** ** What every call keeps *)

(** The invariant at the time [N], of tables that have grown from [d0]. *)
Definition sound (N : Z) (d0 d : db) : Prop := inv d ∧ canonical N d ∧ grows d0 d.

#[export] Instance grows_proper d0 : Proper (same_wallet ==> iff) (grows d0).
Proof. intros d d' Hs. split; intros Hg; (etrans; [exact Hg|]); apply grows_same; [done|by symmetry]. Qed.

#[export] Instance sound_proper N d0 : Proper (same_wallet ==> iff) (sound N d0).
Proof. intros d d' Hs. unfold sound. by rewrite Hs. Qed.

Lemma sound_effect N now d0 d d' :
  sound N d0 d → wf d' → now ≤ N → wallet_effect now d d' → sound N d0 d'.
Proof.
  intros (Hinv & Hcan & Hg) Hwf Hn He. split_and!.
  - split; [done|by eapply effect_ledger].
  - eapply effect_canonical; [apply Hinv|done|done|done].
  - etrans; [done|by eapply effect_grows].
Qed.

Section keeps.
Context (N : Z) (d0 : db) (e : env) (Hclock : ∀ n, e_clock e n ≤ N).

Definition keeps {A} (m : M A) : Prop := triple e (sound N d0) m (λ _, sound N d0) (λ _, sound N d0).

Lemma keeps_preserves {A} (m : M A) : preserves (sound N d0) m → keeps m.
Proof. intros Hm. apply Hm. Qed.

Lemma keeps_unit {A} (m : M A) : keeps m → keeps (m ;; mret ()).
Proof. intros Hm. eapply triple_bind; [exact Hm|]. intros a. by apply triple_ret. Qed.

(** An operation whose runs are wallet effects keeps the invariant in a transaction. *)
Lemma keeps_transaction {A} (m : M A) :
  preserves wf m →
  (∀ e' d, wf d → triple e' (eq d) m (λ _ d', wallet_effect (e_now e') d d') (λ _ _, True)) →
  keeps (transaction m).
Proof.
  intros Hp Hm. eapply (triple_transaction e _ m (λ _, sound N d0) (λ _ _, True)); [|done..].
  intros n. apply triple_pure. intros d Hd.
  eapply triple_conseq; [apply (triple_and _ _ wf m _ _ _ _ (Hm _ d (proj1 (proj1 Hd))) (Hp _))| | |done].
  - intros ? <-. split; [done|apply Hd].
  - intros a d' [He Hwf]. by eapply sound_effect; [|done|apply (Hclock n)|].
Qed.

Lemma keeps_grant tenant amount source key actor reason ex p r compare :
  keeps (grant tenant amount source key actor reason ex p r compare).
Proof.
  apply keeps_transaction; [apply preserves_wf_grant|]. intros e' d Hwf.
  eapply triple_conseq; [by apply spec_grant_in|done| |done].
  intros a d' (f & c & _ & _ & Hc & Hs & _ & He). by eapply effect_grant.
Qed.

Lemma keeps_debit_in tenant amount key ue actor reason kind pr compare e' d :
  wf d →
  triple e' (eq d) (debit_in tenant amount key ue actor reason kind pr compare)
    (λ _ d', wallet_effect (e_now e') d d') (λ _ _, True).
Proof.
  intros Hwf. destruct (decide (kind ∈ TXN_KINDS)) as [Hk|Hk].
  - eapply triple_conseq; [by apply spec_debit_in|done| |done].
    intros a d' (f & c & _ & _ & He). by eapply effect_debit.
  - eapply triple_conseq; [by apply unknown_kind|done| |done]. intros a d' ->. constructor.
Qed.

Lemma keeps_debit tenant amount key ue actor reason kind pr compare :
  keeps (debit tenant amount key ue actor reason kind pr compare).
Proof.
  apply keeps_transaction; [apply preserves_wf_debit|]. intros e' d Hwf. by apply keeps_debit_in.
Qed.

Lemma keeps_adjust tenant amount key actor reason ex compare :
  keeps (adjust tenant amount key actor reason ex compare).
Proof.
  apply keeps_transaction; [apply preserves_wf_adjust|]. intros e' d Hwf.
  by eapply triple_conseq; [apply spec_adjust_in| | |].
Qed.

Lemma keeps_expire_all due n : keeps (expire_all due n).
Proof.
  revert n. induction due as [|[id t] due IH]; intros n; simpl; [by apply triple_ret|].
  eapply triple_bind; [|intros b; apply IH].
  apply keeps_transaction; [apply preserves_wf_expire_lot|]. intros e' d Hwf.
  eapply triple_conseq; [by apply spec_expire_lot_in|done| |done].
  intros b d' He. by eapply effect_expire.
Qed.

Lemma keeps_expire_due limit t : keeps (expire_due limit t).
Proof.
  unfold expire_due. eapply triple_bind; [|intros due; apply keeps_expire_all].
  apply keeps_preserves, preserves_transaction, preserves_query.
Qed.

Lemma sound_process now ev d o d' :
  sound N d0 d → wf d' → now ≤ N → process_effect now ev d o d' → sound N d0 d'.
Proof.
  intros (Hinv & Hcan & Hg) Hwf Hn He.
  destruct (process_effect_inv _ _ _ _ _ Hinv He) as (Hl & Hc & Hg'). split_and!; [done|by apply Hc|by etrans].
Qed.

Lemma preserves_wf_process hold ev : preserves wf (_process hold ev).
Proof.
  unfold _process, tenant_for_customer, get_product, granted_lot, if_some, _apply, apply_grant, apply_clawback, clawback_in, expiry_in.
  pres.
Qed.

Lemma keeps_event hold max ev : keeps (process_event hold max ev).
Proof.
  apply triple_pure. intros d Hd.
  assert (Hwf : wf d) by apply Hd.
  unfold process_event. eapply (triple_bind e _ _ _ (λ _, sound N d0));
    [|intros o; eapply (triple_bind e _ _ _ (λ _, sound N d0)); [by apply triple_count|intros []; by apply triple_ret]].
  apply (triple_try e _ _ _ _ (λ _, sound N d0)).
  - eapply triple_conseq; [apply (triple_and e _ wf _ _ _ _ _ (process_spec e d hold ev Hwf) (preserves_wf_process hold ev e))| | |].
    + by intros ? <-.
    + intros o d' [(n & He) Hwf']. by eapply sound_process; [|done|apply (Hclock n)|].
    + intros x d' [[->|(n & o & He)] Hwf']; [done|]. by eapply sound_process; [|done|apply (Hclock n)|].
  - intros x. apply triple_pure. intros d' Hd'.
    eapply triple_conseq; [apply record_failure_spec|done| |done].
    intros o d2 (Hin & _). by rewrite <-(inbox_only_wallet _ _ Hin).
Qed.

Lemma sound_record cfg now u d r d' :
  sound N d0 d → wf d' → now ≤ N → record_effect cfg now u d r d' → sound N d0 d'.
Proof.
  intros Hs Hwf Hn He. destruct He as [| | |c worth row debit d2 d' _ _ _ _ _ Hch Hout]; [done..|].
  apply outbox_only_wallet in Hout. rewrite <-Hout in Hwf |- *.
  rewrite (add_usage_wallet row d) in Hs.
  destruct Hch as [|w c' rate fields r d2 _ _ Hch]; [done|].
  eapply sound_effect; [done..|]. by eapply effect_debit.
Qed.

Lemma preserves_wf_usage cfg u : preserves wf (port_record_usage_in cfg u).
Proof. unfold port_record_usage_in, _degrade. pres. apply preserves_wf_record. Qed.

Lemma keeps_usage cfg u : keeps (transaction (port_record_usage_in cfg u)).
Proof.
  eapply (triple_transaction e _ _ (λ _, sound N d0) (λ _ _, True)); [|done..].
  intros n. apply triple_pure. intros d Hd.
  assert (Hrec : triple (with_now (e_clock e n) e) (eq d) (port_record_usage_in cfg u)
    (λ _ d', ∃ r, record_effect cfg (e_clock e n) u d r d') (λ _ _, True)).
  { apply (triple_try _ _ _ _ _ (λ _, eq d)).
    - eapply triple_conseq; [apply record_usage_spec, Hd|done| |by intros x d' [-> _]]. intros r d' He. eauto.
    - intros x. eapply (triple_bind _ _ _ _ (λ _, eq d)); [by apply triple_count|].
      intros []. apply triple_ret. intros ? <-. eexists. apply record_failed. }
  eapply triple_conseq; [exact (triple_and _ _ _ _ _ _ _ _ Hrec (preserves_wf_usage cfg u _))| | |done].
  - intros ? <-. split; [done|apply Hd].
  - intros r d' [(r' & He) Hwf]. by eapply sound_record; [|done|apply (Hclock n)|].
Qed.

Lemma keeps_run cfg c : keeps (run cfg c).
Proof.
  destruct c; simpl; try apply keeps_unit.
  - apply keeps_grant.
  - apply keeps_debit.
  - apply keeps_adjust.
  - apply keeps_expire_due.
  - apply keeps_event.
  - apply keeps_usage.
  - apply keeps_preserves, preserves_transaction, preserves_link_customer, _.
  - apply keeps_preserves, preserves_transaction, preserves_put_product, _.
  - apply keeps_preserves, preserves_sweep, _.
  - apply keeps_preserves, preserves_run_once, _.
  - apply keeps_preserves, preserves_events_sweep, _.
Qed.
End keeps.

Lemma run_sound cfg N e c w d0 :
  (∀ n, e_clock e n ≤ N) → sound N d0 (w_db w) → sound N d0 (w_db (snd (run cfg c e w))).
Proof.
  intros Hclock Hs. pose proof (keeps_run N d0 e Hclock cfg c w Hs) as Hk.
  by destruct (run cfg c e w) as [[a|x] w'].
Qed.

Lemma canonical_later N N' d : N ≤ N' → canonical N d → canonical N' d.
Proof.
  intros Hn Hcan o l Ho Hl Hs Hneg Ht (H1 & H2 & H3 & H4). apply (Hcan o l); try done.
  unfold live. split_and!; [done..|]. destruct (lot_expires_at l); [lia|done].
Qed.

Lemma sound_empty N : sound N empty_db empty_db.
Proof.
  split_and!; [|by intros o l Ho%not_elem_of_nil|done].
  split; [|by intros l Hl%not_elem_of_nil].
  split; simpl; try apply NoDup_nil_2; intros; by match goal with H : _ ∈ [] |- _ => apply not_elem_of_nil in H end.
Qed.

Lemma reachable_sound cfg N d : reachable cfg N d → inv d ∧ canonical N d.
Proof.
  induction 1 as [N|N N' d e c w _ [Hinv Hcan] Hn Hclock <-].
  - split; apply (sound_empty N).
  - assert (Hs : sound N' (w_db w) (w_db w)) by (split_and!; [done|by eapply canonical_later|done]).
    by destruct (run_sound cfg N' e c w (w_db w) Hclock Hs) as (? & ? & _).
Qed.

Lemma reachable_wf cfg N d : reachable cfg N d → wf d.
Proof. intros Hr. by apply (reachable_sound cfg N). Qed.

(** ** The books of recorded usage *)

Lemma preserves_books_run cfg c : preserves books (run cfg c).
Proof.
  destruct c; simpl; unfold grant, debit, adjust, expire_due, select_due, port_record_usage_in, _degrade;
    apply preserves_bind || apply preserves_transaction; try (intros; apply preserves_ret).
  - apply preserves_transaction, preserves_books_grant.
  - apply preserves_transaction, preserves_books_debit.
  - apply preserves_transaction, preserves_books_adjust.
  - pres.
  - apply preserves_books_event.
  - pres. apply preserves_books_record.
  - apply preserves_books_link.
  - apply preserves_books_product.
  - apply preserves_books_sweep.
  - apply preserves_books_run_once.
  - apply preserves_books_events_sweep.
Qed.

Lemma reachable_books cfg N d : reachable cfg N d → books d.
Proof.
  induction 1 as [N|N N' d e c w _ Hb Hn Hclock <-].
  - split; simpl; try apply NoDup_nil_2; intros o Ho; by apply not_elem_of_nil in Ho.
  - pose proof (preserves_books_run cfg c e w Hb) as Hk. by destruct (run cfg c e w) as [[]].
Qed.

(** A run of a coroutine meets its triple. *)
Lemma run_triple {A} e (m : M A) w P Q E a w' :
  triple e P m Q E → P (w_db w) → m e w = (Ok a, w') → Q a (w_db w').
Proof. intros Hm Hp Hrun. specialize (Hm w Hp). by rewrite Hrun in Hm. Qed.

Lemma run_triple_err {A} e (m : M A) w P Q E x w' :
  triple e P m Q E → P (w_db w) → m e w = (Err x, w') → E x (w_db w').
Proof. intros Hm Hp Hrun. specialize (Hm w Hp). by rewrite Hrun in Hm. Qed.

(** What a run of [record_usage_in] leaves behind. *)
Lemma recorded_run scfg cfg now u e w r w' :
  reachable cfg now (w_db w) → record_usage_in scfg u e w = (Ok r, w') →
  record_effect scfg (e_now e) u (w_db w) r (w_db w').
Proof.
  intros Hr Hrun. apply reachable_wf in Hr.
  exact (run_triple e _ w _ _ _ _ _ (record_usage_spec scfg e (w_db w) u Hr) eq_refl Hrun).
Qed.
