(* ===== verification/WalletTheorems.v ===== *)
(** The wallet's properties, as theorems about the coroutines of [Wallet] and the
    reachable tables of [System], each with a concrete instance. *)
From stdpp Require Import pretty.
From S2P Require Import Prelude Decimals Calendar Db Wallet Webhooks Usage.
From S2P Require Import WalletSpec WalletFacts WalletLaws UsageFacts System.

Local Open Scope string_scope.
Local Open Scope list_scope.
Local Open Scope Z_scope.

(** ** A concrete run, for the witnesses *)

Module Demo.
(** Identifiers u0, u1, ...; a clock that stands at 1000 but for the last lines. *)
Definition env0 : env := Env (λ n, "u" +:+ pretty n) (λ _, 1000) (λ _, 1000) (λ _, None) 1000.
Definition empty : world := World empty_db 0 [].

Definition cfg : config :=
  Config (Settings (Some (Fin false 100 0)) (Fin false 1 0) [] true false) 24 5.

Definition promo : call :=
  CGrant "acme" (of_micro 5000000) "promo" "k-promo" "ops" None (Some (DateTime 2000 true)) None None None.
Definition purchase : call :=
  CGrant "acme" (of_micro 3000000) "purchase" "k-buy" "ops" None None None None None.

Definition world1 : world := Eval vm_compute in snd (run cfg purchase env0 (snd (run cfg promo env0 empty))).
Definition db1 : db := w_db world1.
(** A debit of six credits: five from the promotional lot, one from the purchase. *)
Abbreviation spend :=
  (debit_in "acme" (of_micro 6000000) "call-1" (Some "call-1") "system" None "debit" None None).
Definition spent : world := Eval vm_compute in snd (spend env0 world1).
Lemma spend_run : spend env0 world1 = (Ok (Applied Sapplied (Some "u21") 6000000 0), spent).
Proof. vm_compute. reflexivity. Qed.
(** A debit of ten, two more than there are: the wallet then owes. *)
Definition spend_all : call :=
  CDebit "acme" (of_micro 10000000) "call-2" None "system" None "debit" None None.
Definition world2 : world := Eval vm_compute in snd (run cfg spend_all env0 world1).
Definition db2 : db := w_db world2.

(** A grant to the wallet that owes two credits. *)
Abbreviation fix_grant :=
  (grant_in "acme" (of_micro 5000000) "manual" "k-fix" "ops" None None None None None).
Definition fixed : world := Eval vm_compute in snd (fix_grant env0 world2).
Lemma fix_run : fix_grant env0 world2 = (Ok (Applied Sapplied (Some "u35") 5000000 0), fixed).
Proof. vm_compute. reflexivity. Qed.

Definition row (d : db) (i : nat) : lot := nth i (lots d) (Lot "" "" "" None None 0 0 None 0 "").

Definition no_txn : txn := Txn "" "" "" "" None None None None None "" 0 None.
(** What "k-buy" was first used for, and what a small debit asks for. *)
Definition bought : request := Eval vm_compute in default ∅ (txn_request (nth 1 (txns db1) no_txn)).
Definition small : request := Eval vm_compute in
  match _debit_request "debit" 777 None None None "system" with Ok r => r | Err _ => ∅ end.

Definition big : request := Eval vm_compute in
  match _debit_request "debit" 6000000 (Some "call-1") None None "system" with Ok r => r | Err _ => ∅ end.
(** The promotional lot's expiry, booked at 2000. *)
Definition swept : world := Eval vm_compute in snd (_expire_lot_in "acme" "u5" (with_now 2000 env0) world1).
Lemma sweep_run : _expire_lot_in "acme" "u5" (with_now 2000 env0) world1 = (Ok true, swept).
Proof. vm_compute. reflexivity. Qed.

Lemma debit_kind : "debit" ∈ TXN_KINDS.
Proof. by apply (bool_decide_unpack ("debit" ∈ TXN_KINDS)). Qed.

Lemma reachable1 : reachable cfg 1000 db1.
Proof.
  assert (db1 = w_db (snd (run cfg purchase env0 (snd (run cfg promo env0 empty))))) as -> by (vm_compute; reflexivity).
  eapply (reach_call cfg 1000 1000 _ env0 purchase); [|done|done|reflexivity].
  eapply (reach_call cfg 1000 1000 _ env0 promo); [apply reach_empty|done|done|reflexivity].
Qed.

Lemma reachable2 : reachable cfg 1000 db2.
Proof.
  assert (db2 = w_db (snd (run cfg spend_all env0 world1))) as -> by (vm_compute; reflexivity).
  eapply (reach_call cfg 1000 1000 _ env0 spend_all); [apply reachable1|done|done|reflexivity].
Qed.

Example balance1 : balance_of "acme" 1000 db1 = (true, Balance 8000000 8000000 0).
Proof. vm_compute. reflexivity. Qed.
Example balance2 : balance_of "acme" 1000 db2 = (true, Balance (-2000000) (-2000000) 2000000).
Proof. vm_compute. reflexivity. Qed.
End Demo.

(** ** The ledger *)

(** C1: the ledger is the truth. In every state the system can reach, whatever the
    order of grants, debits, adjustments, expiries, webhook deliveries and usage
    records, and whichever statements and commits fail on the way, every lot's
    cached [remaining] equals the sum of its entries, so [verify] finds no drift. *)
Theorem ledger_always_adds_up cfg now d :
  reachable cfg now d → ∀ tenant, drift tenant d = [].
Proof.
  intros Hr tenant. destruct (reachable_sound _ _ _ Hr) as [[_ Hl] _].
  unfold drift. rewrite filter_none; [done|]. intros l Hin Hne. apply Hne, Hl.
  by apply list_elem_of_filter in Hin as [_ ?].
Qed.

Lemma ledger_always_adds_up_witness : drift "acme" Demo.db2 = [] ∧ length (entries Demo.db2) = 5%nat.
Proof. split; [apply (ledger_always_adds_up Demo.cfg 1000 _ Demo.reachable2)|vm_compute; reflexivity]. Defined.

(** The canonical state. In every reachable state a wallet that owes holds
    nothing it could spend: its available balance is exactly minus its debt. *)
Theorem never_owes_and_holds cfg now d tenant :
  reachable cfg now d →
  let b := snd (balance_of tenant now d) in
  0 < debt b → available b = - debt b.
Proof.
  intros Hr. destruct (reachable_sound _ _ _ Hr) as [[Hwf _] Hcan].
  rewrite balance_of_sums by done. cbn. rewrite overdraft_sum by done.
  destruct (head _) as [o|] eqn:Hh; [|lia]. apply head_filter_Some in Hh as [Ho [Hot Hos]]. intros Hneg.
  rewrite Z.opp_involutive. transitivity (lots_sum tenant (λ l, lot_source l = "overdraft") d).
  - unfold lots_sum. rewrite !sumZ_filter. apply sumZ_ext. intros l [Hlt Hl]%list_elem_of_filter.
    unfold counted. repeat case_decide; try tauto.
    destruct (wf_lot_ok d Hwf l Hl) as (_ & _ & [?|Hrem] & _); [tauto|].
    assert (lot_remaining l = 0 ∨ 0 < lot_remaining l) as [|Hpos] by lia; [done|].
    destruct (Hcan o l Ho Hl Hos); [lia|congruence|]. split_and!; [congruence|tauto|done|].
    by match goal with H : unexpired _ _ ∨ _ |- _ => destruct H as [[_ ?]|?] end.
  - rewrite overdraft_sum by done. by rewrite (head_overdraft tenant d o).
Qed.

Lemma never_owes_and_holds_witness :
  available (snd (balance_of "acme" 1000 Demo.db2)) = - debt (snd (balance_of "acme" 1000 Demo.db2)).
Proof. apply (never_owes_and_holds Demo.cfg); [apply Demo.reachable2|vm_compute; reflexivity]. Defined.

(** C3: nothing written is rewritten. Whatever one call does, with whatever
    failures, the transactions, the entries and what each lot was granted of the
    tables before are a prefix of those after. *)
Theorem history_is_never_rewritten cfg now now' d e c w :
  reachable cfg now d → w_db w = d → now ≤ now' → (∀ n, e_clock e n ≤ now') →
  let d' := w_db (snd (run cfg c e w)) in
  txns d `prefix_of` txns d' ∧ entries d `prefix_of` entries d' ∧
  lot_grant <$> lots d `prefix_of` lot_grant <$> lots d'.
Proof.
  intros Hr <- Hn Hclock. destruct (reachable_sound _ _ _ Hr) as [Hinv Hcan].
  assert (Hs : sound now' (w_db w) (w_db w)) by (split_and!; [done|by eapply canonical_later|done]).
  destruct (run_sound cfg now' e c w (w_db w) Hclock Hs) as (_ & _ & []). done.
Qed.

Lemma history_is_never_rewritten_witness : txns Demo.db1 `prefix_of` txns Demo.db2.
Proof.
  refine (proj1 (history_is_never_rewritten Demo.cfg 1000 1000 Demo.db1 Demo.env0 Demo.spend_all Demo.world1
    Demo.reachable1 eq_refl _ _)); done.
Defined.

(** ** Debits and grants *)

(** C4: a debit takes exactly its credits. When [debit_in] answers [applied], the
    amount is [credits_amount] of the request, the available balance is lower by
    exactly that amount, and the shortfall is what the unexpired lots could not
    cover. It never depends on the balance being sufficient. *)
Theorem debit_takes_exactly cfg now e w tenant amount key ue actor reason kind pr compare r w' :
  reachable cfg now (w_db w) → kind ∈ TXN_KINDS →
  debit_in tenant amount key ue actor reason kind pr compare e w = (Ok r, w') → ap_status r = Sapplied →
  credits_amount amount = Ok (ap_amount r) ∧
  available (snd (balance_of tenant (e_now e) (w_db w'))) =
    available (snd (balance_of tenant (e_now e) (w_db w))) - ap_amount r ∧
  ap_shortfall r =
    Z.max 0 (ap_amount r - sumZ lot_remaining (filter (unexpired (e_now e)) (lots_of tenant (w_db w)))).
Proof.
  intros Hr Hk Hrun Hst. apply reachable_wf in Hr as Hwf.
  pose proof (run_triple e _ w _ _ _ _ _ (preserves_wf_debit tenant amount key ue actor reason kind pr compare e) Hwf Hrun) as Hwf'.
  destruct (run_triple e _ w _ _ _ _ _ (spec_debit_in e (w_db w) tenant amount key ue actor reason kind pr compare Hwf Hk)
    eq_refl Hrun) as (fields & credits & _ & Hc & He).
  set (d' := w_db w') in *. clearbody d'.
  inversion He as [| | |t rq new ms sh Hpos _ _ Ht Hms Heq Hd]; subst; try done.
  split; [done|]. rewrite !balance_of_sums by done. cbn [snd available ap_amount ap_shortfall].
  destruct (txn_for_facts _ _ _ _ _ _ _ _ Ht) as [Htt _]. split.
  - eapply debit_available; [done|lia|done|done].
  - eapply debit_shortfall; [done|lia|done].
Qed.

Lemma debit_takes_exactly_witness :
  available (snd (balance_of "acme" 1000 (w_db Demo.spent))) = 8000000 - 6000000.
Proof.
  refine (eq_trans (proj1 (proj2 (debit_takes_exactly Demo.cfg 1000 Demo.env0 Demo.world1 "acme" (of_micro 6000000)
    "call-1" (Some "call-1") "system" None "debit" None None _ Demo.spent Demo.reachable1 Demo.debit_kind
    Demo.spend_run eq_refl))) _).
  vm_compute. reflexivity.
Defined.

(** A grant adds exactly its credits and repays the debt out of them. When
    [grant_in] answers [applied] for credits that have not expired by the
    database's clock, the available balance is higher by exactly the amount, and
    what is still owed is what the amount did not cover. *)
Theorem grant_adds_exactly cfg now e w tenant amount source key actor reason expires p ref compare r w' :
  reachable cfg now (w_db w) →
  grant_in tenant amount source key actor reason expires p ref compare e w = (Ok r, w') →
  ap_status r = Sapplied → match expires with None => True | Some x => e_now e < dt_us x end →
  credits_amount amount = Ok (ap_amount r) ∧ 0 < ap_amount r ∧
  available (snd (balance_of tenant (e_now e) (w_db w'))) =
    available (snd (balance_of tenant (e_now e) (w_db w))) + ap_amount r ∧
  debt (snd (balance_of tenant (e_now e) (w_db w'))) =
    (let owed := debt (snd (balance_of tenant (e_now e) (w_db w))) in
     if 0 <? owed then Z.max 0 (owed - ap_amount r) else owed).
Proof.
  intros Hr Hrun Hst Hex. apply reachable_wf in Hr as Hwf.
  pose proof (run_triple e _ w _ _ _ _ _ (preserves_wf_grant tenant amount source key actor reason expires p ref compare e) Hwf Hrun) as Hwf'.
  destruct (run_triple e _ w _ _ _ _ _ (spec_grant_in e (w_db w) tenant amount source key actor reason expires p ref compare Hwf)
    eq_refl Hrun) as (fields & credits & _ & Hc & Hpos & Hsrc & _ & He).
  set (d' := w_db w') in *. clearbody d'. inversion He as [|t l ms d1 Ht Hl Hms Heq Hd]; subst; try done.
  destruct (txn_for_facts _ _ _ _ _ _ _ _ Ht) as [Htt _].
  destruct (open_account_grant (e_now e) tenant actor (w_db w) (e_now e) source p ref credits expires l ms Hl Hms) as [Hl1 Hms1].
  pose proof (wf_open_account (e_now e) tenant actor _ Hwf) as Hwf1.
  assert (Hsum : ∀ P `{!∀ l, Decision (P l)}, lots_sum tenant P d1 = lots_sum tenant P (w_db w)).
  { intros P ?. unfold lots_sum, lots_of, d1. by destruct (open_account_frame (e_now e) tenant actor (w_db w)) as (-> & _). }
  rewrite !balance_of_sums by done. cbn [snd available ap_amount debt]. split_and!; [done|done| |].
  - rewrite <-(Hsum (counted (e_now e)) _). by eapply grant_available.
  - rewrite <-(Hsum (λ k, lot_source k = "overdraft") _).
    by apply (grant_debt (e_now e) tenant source p ref credits expires actor d1 t l ms).
Qed.

Lemma grant_adds_exactly_witness :
  debt (snd (balance_of "acme" 1000 (w_db Demo.fixed))) = 0 ∧
  available (snd (balance_of "acme" 1000 (w_db Demo.fixed))) = -2000000 + 5000000.
Proof.
  destruct (grant_adds_exactly Demo.cfg 1000 Demo.env0 Demo.world2 "acme" (of_micro 5000000) "manual" "k-fix" "ops"
    None None None None None _ Demo.fixed Demo.reachable2 Demo.fix_run eq_refl I) as (_ & _ & H1 & H2).
  split; [refine (eq_trans H2 _)|refine (eq_trans H1 _)]; vm_compute; reflexivity.
Defined.

(** Lots are consumed in order. If a debit took anything from a lot, every live
    lot of the tenant that comes before it (earliest expiry first, lots without
    expiry last, then by creation and identifier) is empty afterwards. *)
Theorem debit_consumes_in_order cfg now e w tenant amount key ue actor reason kind pr compare r w' l k :
  reachable cfg now (w_db w) → kind ∈ TXN_KINDS →
  debit_in tenant amount key ue actor reason kind pr compare e w = (Ok r, w') →
  l ∈ lots (w_db w) → k ∈ lots (w_db w) → live tenant (e_now e) l → live tenant (e_now e) k →
  consumed_before l k → lot_id l ≠ lot_id k →
  (∃ k', k' ∈ lots (w_db w') ∧ lot_id k' = lot_id k ∧ lot_remaining k' ≠ lot_remaining k) →
  ∃ l', l' ∈ lots (w_db w') ∧ lot_id l' = lot_id l ∧ lot_remaining l' = 0.
Proof.
  intros Hr Hk Hrun Hl Hkin Hll Hlk Hb Hne (k' & Hk' & Hid & Hch). apply reachable_wf in Hr as Hwf.
  pose proof (run_triple e _ w _ _ _ _ _ (preserves_wf_debit tenant amount key ue actor reason kind pr compare e) Hwf Hrun) as Hwf'.
  destruct (run_triple e _ w _ _ _ _ _ (spec_debit_in e (w_db w) tenant amount key ue actor reason kind pr compare Hwf Hk)
    eq_refl Hrun) as (fields & credits & _ & Hc & He).
  set (d' := w_db w') in *. clearbody d'.
  assert (Hsame : d' = w_db w → False).
  { intros ->. apply Hch. f_equal. by apply (key_inj lot_id _ _ _ (wf_lots _ Hwf)). }
  inversion He as [| | |t rq new ms sh Hpos _ _ Ht Hms Heq Hd]; subst; try by destruct Hsame.
  destruct (txn_for_facts _ _ _ _ _ _ _ _ Ht) as [Htt _].
  assert (Hm : ∀ j, j ∈ lots (w_db w) → live tenant (e_now e) j →
    move_lot tenant ms j ∈ lots (booked (e_now e) t new ms (w_db w)) ∧
    lot_remaining (move_lot tenant ms j) = lot_remaining j + delta ms (lot_id j)).
  { intros j Hj Hlj. split; [|by apply move_lot_remaining, Hlj].
    apply elem_of_booked_lots. exists j. rewrite Htt. auto. }
  destruct (Hm k Hkin Hlk) as [Hk1 Hk2]. destruct (Hm l Hl Hll) as [Hl1 Hl2].
  exists (move_lot tenant ms l). rewrite move_lot_id. split_and!; [done|done|]. rewrite Hl2.
  rewrite (debit_order (e_now e) tenant credits (w_db w) new ms sh l k Hwf); try done; try lia.
  intros Hz. apply Hch. rewrite Hz, Z.add_0_r in Hk2. rewrite <-Hk2. f_equal.
  apply (key_inj lot_id _ _ _ (wf_lots _ Hwf')); [done|done|]. by rewrite move_lot_id.
Qed.

(** The promotional lot expires, so it goes first; the purchase is touched, so it is empty. *)
Lemma debit_consumes_in_order_witness :
  ∃ l', l' ∈ lots (w_db Demo.spent) ∧ lot_id l' = "u5" ∧ lot_remaining l' = 0.
Proof.
  refine (debit_consumes_in_order Demo.cfg 1000 Demo.env0 Demo.world1 "acme" (of_micro 6000000) "call-1" (Some "call-1")
    "system" None "debit" None None _ Demo.spent (Demo.row Demo.db1 0) (Demo.row Demo.db1 1)
    Demo.reachable1 Demo.debit_kind Demo.spend_run _ _ _ _ _ _ _).
  - vm_compute. left.
  - vm_compute. right. left.
  - by apply (bool_decide_unpack (live _ _ _)).
  - by apply (bool_decide_unpack (live _ _ _)).
  - by apply (bool_decide_unpack (consumed_before _ _)).
  - vm_compute. discriminate.
  - exists (Demo.row (w_db Demo.spent) 1). split; [vm_compute; right; left|]. split; vm_compute; [reflexivity|discriminate].
Defined.

(** ** Idempotency keys *)

(** A transaction of a coroutine that meets a specification: what is left behind
    is what it started from, or one of its effects. *)
Lemma transact_outcome {A} e (m : M A) w (R : db → db → Prop) :
  (∀ n, triple (with_now (e_clock e n) e) (eq (w_db w)) m (λ _ d', R (w_db w) d') (λ _ _, True)) →
  let d' := w_db (snd (transaction m e w)) in d' = w_db w ∨ R (w_db w) d'.
Proof.
  intros Hm. pose proof (transact e (w_db w) m (λ _ _ d', R (w_db w) d') Hm w eq_refl) as Ht.
  destruct (transaction m e w) as [[a|x] w']; simpl.
  - destruct Ht as [n Ht]. by right.
  - destruct Ht as [->|(n & a & Ht)]; [by left|by right].
Qed.

(** C7: exactly once. Once a tenant's key has been used, calling [grant] or [debit]
    with it again, with the same request or a different one and whatever fails,
    leaves every table as it was. *)
Theorem used_key_changes_nothing cfg now e w tenant key x :
  reachable cfg now (w_db w) → x ∈ txns (w_db w) → key_of x = (tenant, key) →
  (∀ amount ue actor reason kind pr compare,
     w_db (snd (debit tenant amount key ue actor reason kind pr compare e w)) = w_db w) ∧
  (∀ amount source actor reason expires p ref compare,
     w_db (snd (grant tenant amount source key actor reason expires p ref compare e w)) = w_db w).
Proof.
  intros Hr Hx Hk. apply reachable_wf in Hr as Hwf. split.
  - intros amount ue actor reason kind pr compare.
    destruct (transact_outcome e (debit_in tenant amount key ue actor reason kind pr compare) w (λ d d', d' = d)); try done.
    intros n. destruct (decide (kind ∈ TXN_KINDS)) as [Hkd|Hkd]; [|by apply unknown_kind].
    eapply triple_conseq; [by apply spec_debit_in|done| |done].
    intros r d' (f & c & _ & _ & He). by eapply effect_key_used.
  - intros amount source actor reason expires p ref compare.
    destruct (transact_outcome e (grant_in tenant amount source key actor reason expires p ref compare) w (λ d d', d' = d)); try done.
    intros n. eapply triple_conseq; [by apply spec_grant_in|done| |done].
    intros r d' (f & c & _ & _ & _ & _ & _ & He). by eapply grant_key_used.
Qed.

Lemma used_key_changes_nothing_witness :
  w_db (snd (debit "acme" (of_micro 777) "k-buy" None "system" None "debit" None None Demo.env0 Demo.world1)) = Demo.db1.
Proof.
  refine (proj1 (used_key_changes_nothing Demo.cfg 1000 Demo.env0 Demo.world1 "acme" "k-buy"
    (nth 1 (txns Demo.db1) Demo.no_txn) Demo.reachable1 _ eq_refl) _ _ _ _ _ _ _).
  vm_compute. right. left.
Defined.

(** C8: a key stands for one request. If the key was first used with a stored
    request that differs from this debit's in a compared field, [debit_in] does
    not answer; unless the machine breaks down it raises [IdempotencyConflict]
    naming exactly the differing fields with both values, and the tables are
    unchanged. *)
Theorem different_request_is_refused cfg now e w tenant amount key ue actor reason kind pr compare
    fields credits rq x stored :
  reachable cfg now (w_db w) → kind ∈ TXN_KINDS →
  _compared compare DEBIT_FIELDS = Ok fields → credits_amount amount = Ok credits → 0 < credits →
  _debit_request kind credits ue pr reason actor = Ok rq →
  x ∈ txns (w_db w) → key_of x = (tenant, key) → txn_request x = Some stored →
  _differences stored rq fields ≠ [] → tenant ≠ "" → key ≠ "" →
  match debit_in tenant amount key ue actor reason kind pr compare e w with
  | (Ok _, _) => False
  | (Err exc, w') => infra e exc ∨
      exc = IdempotencyConflict key tenant (_differences stored rq fields) ∧ w_db w' = w_db w
  end.
Proof.
  intros Hr Hkd Hf Hc Hpos Hrq Hx Hk Hst Hd Ht Hkn. apply reachable_wf in Hr as Hwf.
  pose proof (spec_debit_in e _ tenant amount key ue actor reason kind pr compare Hwf Hkd w eq_refl) as Hok.
  pose proof (debit_errors e _ tenant amount key ue actor reason kind pr compare Hwf Hkd w eq_refl) as Herr.
  assert (Huniq : ∀ y, y ∈ txns (w_db w) → key_of y = (tenant, key) → y = x).
  { intros y Hy Hky. apply (key_inj key_of _ _ _ (wf_keys _ Hwf) Hy Hx). congruence. }
  destruct (debit_in _ _ _ _ _ _ _ _ _ e w) as [[r|exc] w'].
  - destruct Hok as (f & c & Hf' & Hc' & He).
    rewrite Hf in Hf'. rewrite Hc in Hc'. simplify_eq. rewrite Hrq in He.
    inversion He as [Hz|Hz Hno|y rq' Hz Hrq' (Hy & Hky & Hrep)|y rq' new ms sh Hz Hrq' Hacc (Hky & _ & _ & _ & _ & _ & Hfresh) _]; subst.
    + lia.
    + apply Hno. by eapply key_has_account.
    + rewrite (Huniq y Hy Hky), Hst in Hrep. congruence.
    + destruct (Hfresh x Hx). congruence.
  - destruct Herr as [|[Hd' Href]]; [by left|right].
    destruct Href as [exc Hi|f c rq' diffs Hf' Hc' Hrq' (_ & y & st & Hy & Hky & Hst' & Hdiffs)].
    + exfalso. unfold invalid_debit in Hi. rewrite Hf, Hc in Hi.
      destruct Hi as [|[|[|[z Hz]]]]; [lia|done|done|congruence].
    + rewrite Hf in Hf'. rewrite Hc in Hc'. simplify_eq. rewrite Hrq in Hrq'.
      rewrite (Huniq y Hy Hky), Hst in Hst'. by simplify_eq.
Qed.

Lemma different_request_is_refused_witness :
  match debit_in "acme" (of_micro 777) "k-buy" None "system" None "debit" None None Demo.env0 Demo.world1 with
  | (Ok _, _) => False
  | (Err exc, w') => infra Demo.env0 exc ∨
      exc = IdempotencyConflict "k-buy" "acme" (_differences Demo.bought Demo.small ("kind" :: DEBIT_FIELDS)) ∧
      w_db w' = w_db Demo.world1
  end ∧
  _differences Demo.bought Demo.small ("kind" :: DEBIT_FIELDS) =
    [("kind", (Some "grant", Some "debit")); ("amount", (Some "3.000000", Some "0.000777"));
     ("actor", (Some "ops", Some "system"))].
Proof.
  split; [|vm_compute; reflexivity].
  refine (different_request_is_refused Demo.cfg 1000 Demo.env0 Demo.world1 "acme" (of_micro 777) "k-buy" None "system"
    None "debit" None None ("kind" :: DEBIT_FIELDS) 777 Demo.small (nth 1 (txns Demo.db1) Demo.no_txn) Demo.bought
    Demo.reachable1 Demo.debit_kind eq_refl eq_refl eq_refl eq_refl _ eq_refl eq_refl _ _ _);
    vm_compute; [right; left|discriminate..].
Defined.

(** A debit is never refused for a short balance. For a valid request under a
    key not used before, whatever the tenant holds or owes, [debit_in] either
    answers [applied], or the machine broke down: a failed statement, a collision
    of generated identifiers, or an amount that does not fit its column. Without
    an account it is a no-op. *)
Theorem debit_is_never_refused cfg now e w tenant amount key ue actor reason kind pr compare
    fields credits rq :
  reachable cfg now (w_db w) → kind ∈ TXN_KINDS →
  _compared compare DEBIT_FIELDS = Ok fields → credits_amount amount = Ok credits → 0 < credits →
  _debit_request kind credits ue pr reason actor = Ok rq → tenant ≠ "" → key ≠ "" →
  (∀ x, x ∈ txns (w_db w) → key_of x ≠ (tenant, key)) →
  match debit_in tenant amount key ue actor reason kind pr compare e w with
  | (Ok r, w') => if on_credit_billing tenant (w_db w) then ap_status r = Sapplied ∧ ap_amount r = credits
                  else ap_status r = Sno_account ∧ w_db w' = w_db w
  | (Err exc, _) => infra e exc
  end.
Proof.
  intros Hr Hkd Hf Hc Hpos Hrq Ht Hkn Hnew. apply reachable_wf in Hr as Hwf.
  pose proof (spec_debit_in e _ tenant amount key ue actor reason kind pr compare Hwf Hkd w eq_refl) as Hok.
  pose proof (debit_errors e _ tenant amount key ue actor reason kind pr compare Hwf Hkd w eq_refl) as Herr.
  destruct (debit_in _ _ _ _ _ _ _ _ _ e w) as [[r|exc] w'].
  - destruct Hok as (f & c & Hf' & Hc' & He).
    rewrite Hf in Hf'. rewrite Hc in Hc'. simplify_eq. rewrite Hrq in He. set (d' := w_db w') in *. clearbody d'.
    unfold on_credit_billing. case_bool_decide as Hacc; rewrite has_account_elem in Hacc;
    inversion He as [Hz|Hz Hno|y rq' Hz Hrq' (Hy & Hky & Hrep)|y rq' new ms sh Hz Hrq' Hacc' _ _]; subst;
      try done; try lia; by destruct (Hnew y).
  - destruct Herr as [|[_ Href]]; [done|]. exfalso.
    destruct Href as [exc Hi|f c rq' diffs Hf' Hc' Hrq' (_ & y & st & Hy & Hky & _)]; [|by destruct (Hnew y)].
    unfold invalid_debit in Hi. rewrite Hf, Hc in Hi. destruct Hi as [|[|[|[z Hz]]]]; [lia|done|done|congruence].
Qed.

Lemma debit_is_never_refused_witness :
  match Demo.spend Demo.env0 Demo.world2 with
  | (Ok r, w') => if on_credit_billing "acme" (w_db Demo.world2) then ap_status r = Sapplied ∧ ap_amount r = 6000000
                  else ap_status r = Sno_account ∧ w_db w' = w_db Demo.world2
  | (Err exc, _) => infra Demo.env0 exc
  end.
Proof.
  refine (debit_is_never_refused Demo.cfg 1000 Demo.env0 Demo.world2 "acme" (of_micro 6000000) "call-1" (Some "call-1")
    "system" None "debit" None None ("kind" :: DEBIT_FIELDS) 6000000 Demo.big Demo.reachable2 Demo.debit_kind
    eq_refl eq_refl eq_refl eq_refl _ _ _); [discriminate..|].
  apply Forall_forall.
  by apply (bool_decide_unpack (Forall (λ x, key_of x ≠ ("acme", "call-1")) (txns (w_db Demo.world2)))).
Defined.

(** ** Tenants *)

(** Tenants are isolated. Whatever a grant, debit or adjustment of one tenant
    does, and whatever fails, no other tenant's account, lots, transactions or
    entries change. *)
Theorem tenants_are_isolated cfg now e w tenant other :
  reachable cfg now (w_db w) → other ≠ tenant →
  (∀ amount key ue actor reason kind pr compare,
     tenant_rows other (w_db (snd (debit tenant amount key ue actor reason kind pr compare e w))) =
     tenant_rows other (w_db w)) ∧
  (∀ amount source key actor reason expires p ref compare,
     tenant_rows other (w_db (snd (grant tenant amount source key actor reason expires p ref compare e w))) =
     tenant_rows other (w_db w)) ∧
  (∀ id, tenant_rows other (w_db (snd (transaction (_expire_lot_in tenant id) e w))) =
     tenant_rows other (w_db w)).
Proof.
  intros Hr Ho. apply reachable_wf in Hr as Hwf.
  assert (Hout : ∀ A (m : M A), (∀ n, triple (with_now (e_clock e n) e) (eq (w_db w)) m
      (λ _ d', tenant_rows other d' = tenant_rows other (w_db w)) (λ _ _, True)) →
    tenant_rows other (w_db (snd (transaction m e w))) = tenant_rows other (w_db w)).
  { intros A m Hm. by destruct (transact_outcome e m w (λ d d', tenant_rows other d' = tenant_rows other d) Hm) as [->|]. }
  split_and!; intros; apply Hout; intros n.
  - destruct (decide (kind ∈ TXN_KINDS)) as [Hkd|Hkd].
    + eapply triple_conseq; [by apply spec_debit_in|done| |done].
      intros r d' (f & c & _ & _ & He). by eapply debit_isolated.
    + eapply triple_conseq; [by apply unknown_kind|done| |done]. by intros r d' ->.
  - eapply triple_conseq; [by apply spec_grant_in|done| |done].
    intros r d' (f & c & _ & _ & _ & _ & _ & He). by eapply grant_isolated.
  - eapply triple_conseq; [by apply spec_expire_lot_in|done| |done].
    intros r d' He. by eapply expire_isolated.
Qed.

Lemma tenants_are_isolated_witness :
  tenant_rows "acme" (w_db (snd (debit "globex" (of_micro 5) "k" None "system" None "debit" None None Demo.env0 Demo.world1)))
  = tenant_rows "acme" Demo.db1.
Proof.
  refine (proj1 (tenants_are_isolated Demo.cfg 1000 Demo.env0 Demo.world1 "globex" "acme" Demo.reachable1 _) _ _ _ _ _ _ _ _).
  discriminate.
Defined.

(** ** Expiry *)

(** Expiry books exactly what a due lot still holds. When [_expire_lot_in]
    answers [True], the lot was past its expiry and is empty afterwards, the
    ledger balance is lower by what it held, and the available balance, which
    had stopped counting it, is the same. *)
Theorem expiry_books_the_remainder cfg now e w tenant id w' :
  reachable cfg now (w_db w) → _expire_lot_in tenant id e w = (Ok true, w') →
  ∃ l, l ∈ lots (w_db w) ∧ lot_id l = id ∧ lot_tenant l = tenant ∧ due (e_now e) l ∧
    (∃ l', l' ∈ lots (w_db w') ∧ lot_id l' = id ∧ lot_remaining l' = 0) ∧
    ledger (snd (balance_of tenant (e_now e) (w_db w'))) =
      ledger (snd (balance_of tenant (e_now e) (w_db w))) - lot_remaining l ∧
    available (snd (balance_of tenant (e_now e) (w_db w'))) =
      available (snd (balance_of tenant (e_now e) (w_db w))).
Proof.
  intros Hr Hrun. apply reachable_wf in Hr as Hwf.
  pose proof (run_triple e _ w _ _ _ _ _ (preserves_wf_expire_lot tenant id e) Hwf Hrun) as Hwf'.
  pose proof (run_triple e _ w _ _ _ _ _ (spec_expire_lot_in e (w_db w) tenant id Hwf) eq_refl Hrun) as He.
  set (d' := w_db w') in *. clearbody d'. inversion He as [|t l Hl Hid Ht Hdue Htxn Hb Hd]; subst.
  destruct (txn_for_facts _ _ _ _ _ _ _ _ Htxn) as [Htt _].
  destruct (expire_bookable _ _ Hwf Hl) as [Hids Hnew _].
  exists l. split_and!; try done.
  - exists (move_lot (lot_tenant l) [(lot_id l, - lot_remaining l)] l). split_and!.
    + apply elem_of_booked_lots. exists l. rewrite Htt. auto.
    + by rewrite move_lot_id.
    + rewrite move_lot_remaining, delta_cons, delta_nil, decide_True by done. lia.
  - rewrite !balance_of_sums by done. cbn [snd ledger]. rewrite <-Htt.
    rewrite lots_sum_booked by (rewrite ?Htt; done || apply _). rewrite moves_sum_all; [simpl; lia|].
    intros m ->%list_elem_of_singleton. exists l. rewrite app_nil_r. split_and!; [|done|done].
    by apply list_elem_of_filter.
  - rewrite !balance_of_sums by done. cbn [snd available]. rewrite <-Htt.
    rewrite lots_sum_booked by (rewrite ?Htt; done || apply _). rewrite moves_sum_none; [lia|].
    intros m k ->%list_elem_of_singleton Hk Hkid. rewrite app_nil_r in Hk.
    apply list_elem_of_filter in Hk as [_ Hk]. simpl in Hkid.
    assert (k = l) as -> by by apply (key_inj lot_id _ _ _ (wf_lots _ Hwf)).
    destruct Hdue as (Hns & _ & Hex). unfold counted, unexpired. destruct (lot_expires_at l); [|done].
    intros [[_ ?]|?]; [lia|done].
Qed.

Lemma expiry_books_the_remainder_witness :
  ∃ l, l ∈ lots Demo.db1 ∧ lot_id l = "u5" ∧ lot_remaining l = 5000000 ∧
    ledger (snd (balance_of "acme" 2000 (w_db Demo.swept))) = ledger (snd (balance_of "acme" 2000 Demo.db1)) - lot_remaining l.
Proof.
  destruct (expiry_books_the_remainder Demo.cfg 1000 (with_now 2000 Demo.env0) Demo.world1 "acme" "u5" Demo.swept
    Demo.reachable1 Demo.sweep_run) as (l & Hl & Hid & _ & _ & _ & Hled & _).
  exists l. split; [exact Hl|]. split; [exact Hid|]. split; [|exact Hled].
  vm_compute in Hl. repeat (apply elem_of_cons in Hl as [->|Hl]; [reflexivity || discriminate Hid|]).
  by apply not_elem_of_nil in Hl.
Defined.

(** ** Allocation *)

(** The allocation plan. For lots that hold credits, in any order, the plan
    takes from a prefix of them, at least something from each and all of every
    one but the last, and what it takes together with the shortfall is exactly
    what was needed; a shortfall means every lot was emptied. *)
Theorem plan_allocation_spec lots need takes shortfall :
  0 ≤ need → (∀ m, m ∈ lots → 0 < m.2) → plan_allocation lots need = (takes, shortfall) →
  sumZ snd takes + shortfall = need ∧ 0 ≤ shortfall ∧ (0 < shortfall → takes = lots) ∧
  takes.*1 `prefix_of` lots.*1 ∧ (∀ m, m ∈ takes → 0 < m.2) ∧
  Forall2 (λ a b : string * Z, a.1 = b.1 ∧ a.2 ≤ b.2) takes (take (length takes) lots) ∧
  (∀ i, (S i < length takes)%nat → takes !! i = lots !! i).
Proof.
  intros Hn Hpos. unfold plan_allocation. pose proof (plan_go_spec lots need Hn Hpos) as Hp.
  destruct (plan_go lots need) as [tk rest]. intros [= <- <-]. destruct Hp as (Hs & H0 & Hall & Hp & HF & Hi).
  rewrite Z.max_l by done. split_and!; try done. by apply prefix_fst.
Qed.

Lemma plan_allocation_spec_witness :
  plan_allocation [("a", 3); ("b", 4); ("c", 5)] 6 = ([("a", 3); ("b", 3)], 0) ∧ sumZ snd [("a", 3); ("b", 3)] + 0 = 6.
Proof.
  split; [reflexivity|]. refine (proj1 (plan_allocation_spec [("a", 3); ("b", 4); ("c", 5)] 6 [("a", 3); ("b", 3)] 0 _ _ eq_refl));
    [lia|]. intros m Hm. repeat (apply elem_of_cons in Hm as [->|Hm]; [simpl; lia|]). by apply not_elem_of_nil in Hm.
Defined.

(** ** Amounts *)

(** An amount of credits is its value rounded half up at six places: of all
    integers of millionths exactly one is the nearest, ties going away from
    zero, and [credits_amount] returns it with the sign of the value. *)
Theorem credits_amount_rounds_half_up s c e z :
  credits_amount (Fin s c e) = Ok z →
  ∃ r, z = micro s r ∧ rounds_half_up c e r ∧ ∀ r', rounds_half_up c e r' → r' = r.
Proof.
  intros Hz. apply credits_amount_inv in Hz as ->. eexists. split; [done|].
  split; [apply rescale_rounds|]. intros r' Hr'. eapply rounds_half_up_unique; [done|apply rescale_rounds].
Qed.

Lemma credits_amount_rounds_half_up_witness :
  ∃ r, -2 = micro true r ∧ rounds_half_up 15 (-7) r ∧ ∀ r', rounds_half_up 15 (-7) r' → r' = r.
Proof. exact (credits_amount_rounds_half_up true 15 (-7) (-2) eq_refl). Defined.

(** The price of a cost is its exact product with the rate and the markup,
    rounded once, whenever the products fit the decimal context's 28 digits. *)
Theorem price_is_exact c e r f m g :
  ndigits (c * r) ≤ prec → ndigits (c * r * m) ≤ prec →
  Etiny ≤ e + f ≤ Etop → Etiny ≤ e + f + g ≤ Etop → adjusted (c * r * m) (e + f + g) ≤ 20 →
  ∃ z, credits_for_cost (Fin false c e) (Fin false r f) (Fin false m g) = Ok (Z.of_N z) ∧
    rounds_half_up (c * r * m) (e + f + g) z.
Proof.
  intros H1 H2 H3 H4 H5. rewrite credits_for_cost_exact by done. rewrite credits_amount_small by done.
  eexists. split; [reflexivity|apply rescale_rounds].
Qed.

Lemma price_is_exact_witness :
  ∃ z, credits_for_cost (Fin false 123 (-4)) (Fin false 100 0) (Fin false 15 (-1)) = Ok (Z.of_N z) ∧
    rounds_half_up (123 * 100 * 15) (-4 + 0 + -1) z.
Proof. apply (price_is_exact 123 (-4) 100 0 15 (-1)); vm_compute; done || (split; discriminate). Defined.

(** Beyond 28 digits the result is rounded twice. The exact product here,
    10000000000.499..., is nearest to 10000000000 millionths; the context rounds
    it up to 28 digits first, and the price comes out one millionth higher. *)
Theorem price_may_round_twice :
  credits_for_cost (Fin false 10000000000499999999999999999999 (-27)) (Fin false 1 0) (Fin false 1 0) = Ok 10000000001 ∧
  rounds_half_up 10000000000499999999999999999999 (-27) 10000000000.
Proof. split; [vm_compute; reflexivity|]. apply rescale_rounds. Qed.
