(* ===== verification/BillingTheorems.v ===== *)
(** The properties of money in (webhooks), of recorded usage and of the credit
    gate, each with a concrete instance. *)
From stdpp Require Import pretty.
From S2P Require Import Prelude Decimals Calendar Db Wallet Webhooks Usage.
From S2P Require Import WalletSpec WalletFacts WalletLaws UsageFacts System.

Local Open Scope string_scope.
Local Open Scope list_scope.
Local Open Scope Z_scope.

(** ** A concrete run, for the witnesses *)

Module Shop.
Definition env0 : env := Env (λ n, "u" +:+ pretty n) (λ _, 1000) (λ _, 1000) (λ _, None) 1000.
(** The first statement of the second transaction fails. *)
Definition env_down : env := Env (λ n, "u" +:+ pretty n) (λ _, 1000) (λ _, 1000) (λ _, Some (Lost "OperationalError")) 1000.
Definition cfg : config :=
  Config (Settings (Some (Fin false 100 0)) (Fin false 1 0) ["stripe"] true false) 24 5.

Definition event (id : string) (kind : EventKind) : BillingEvent := {|
  ev_provider := "stripe"; ev_event_id := id; ev_kind := kind;
  ev_customer_ref := Some "cus_1"; ev_product_ref := Some "pack"; ev_payment_ref := Some "pay_1";
  ev_amount_minor := Some 999; ev_currency := Some "usd"; ev_occurred_at := None; ev_raw_type := "checkout" |}.
Definition buy : BillingEvent := event "evt_1" CREDITS_PURCHASED.
Definition refund : BillingEvent := event "evt_2" PAYMENT_REFUNDED.
Definition pack : CreditProduct := {|
  cp_provider := "stripe"; cp_product_ref := "pack"; cp_credits := Fin false 500 0;
  cp_expires_after_days := None; cp_active := true |}.

Definition linked_world : world := Eval vm_compute in
  snd (run cfg (CProduct pack) env0 (snd (run cfg (CLink "acme" "stripe" "cus_1") env0 (World empty_db 0 [])))).
Definition bought_world : world := Eval vm_compute in snd (run cfg (CEvent buy) env0 linked_world).
Definition refunded_world : world := Eval vm_compute in snd (run cfg (CEvent refund) env0 bought_world).

Lemma reachable_linked : reachable cfg 1000 (w_db linked_world).
Proof.
  assert (w_db linked_world = w_db (snd (run cfg (CProduct pack) env0
    (snd (run cfg (CLink "acme" "stripe" "cus_1") env0 (World empty_db 0 [])))))) as -> by (vm_compute; reflexivity).
  eapply (reach_call cfg 1000 1000 _ env0 (CProduct pack)); [|done|done|reflexivity].
  eapply (reach_call cfg 1000 1000 _ env0 (CLink "acme" "stripe" "cus_1")); [apply reach_empty|done|done|reflexivity].
Qed.
Lemma reachable_bought : reachable cfg 1000 (w_db bought_world).
Proof.
  assert (w_db bought_world = w_db (snd (run cfg (CEvent buy) env0 linked_world))) as -> by (vm_compute; reflexivity).
  eapply (reach_call cfg 1000 1000 _ env0 (CEvent buy)); [apply reachable_linked|done|done|reflexivity].
Qed.
Lemma reachable_refunded : reachable cfg 1000 (w_db refunded_world).
Proof.
  assert (w_db refunded_world = w_db (snd (run cfg (CEvent refund) env0 bought_world))) as -> by (vm_compute; reflexivity).
  eapply (reach_call cfg 1000 1000 _ env0 (CEvent refund)); [apply reachable_bought|done|done|reflexivity].
Qed.

Example bought_balance : balance_of "acme" 1000 (w_db bought_world) = (true, Balance 500000000 500000000 0).
Proof. vm_compute. reflexivity. Qed.
Example refunded_balance : balance_of "acme" 1000 (w_db refunded_world) = (true, Balance 0 0 0).
Proof. vm_compute. reflexivity. Qed.
End Shop.

(** What a delivery leaves behind, from its specification. *)
Lemma deliver hold max cfg now ev e w :
  reachable cfg now (w_db w) →
  ∃ o, fst (process_event hold max ev e w) = Ok o ∧
    delivered e ev (w_db w) o (w_db (snd (process_event hold max ev e w))).
Proof.
  intros Hr. destruct (reachable_sound _ _ _ Hr) as [[Hwf _] _].
  pose proof (process_event_spec e (w_db w) hold max ev Hwf w eq_refl) as Hp.
  destruct (process_event hold max ev e w) as [[o|x] w']; [|done]. simpl. eauto.
Qed.

(** The change of the wallet a delivery commits is that of one decision. *)
Lemma delivered_wallet e ev d o d' :
  delivered e ev d o d' →
  same_wallet d d' ∨ ∃ n o' dm, process_effect (e_clock e n) ev d o' dm ∧ same_wallet dm d' ∧
    (finished ev dm → d' = dm).
Proof.
  intros [[n He]|(_ & dm & [->|(n & o' & He)] & Hin & Hfin)].
  - right. by exists n, o, d'.
  - left. by apply inbox_only_wallet.
  - right. exists n, o', dm. split_and!; [done|by apply inbox_only_wallet|done].
Qed.

(** ** Webhooks *)

(** processing an event never raises. Whatever fails, even the record of the
    failure, the handler answers with an outcome and counts it exactly once. *)
Theorem process_event_never_raises hold max ev e w :
  ∃ o w', process_event hold max ev e w = (Ok o, w') ∧
    ∃ before, w_counts w' = ("agent_billing_webhook_total", ev_provider ev +:+ "," +:+ outcome_value o) :: before.
Proof.
  unfold process_event, mbind, M_bind.
  assert (Hret : ∃ o w', try_except (_process hold ev) (λ exc, _record_failure max ev (exn_name exc)) e w = (Ok o, w')).
  { unfold try_except at 1. destruct (_process hold ev e w) as [[o|x] w1]; [eauto|].
    unfold _record_failure, try_except. destruct (transaction _ e w1) as [[o|y] w2]; eauto. }
  destruct Hret as (o & w' & ->). unfold count, mret, M_ret. eauto.
Qed.

(** A finished event is never applied again. Once the inbox row of an event is
    applied, ignored or quarantined, delivering it any number of times, with any
    failures, changes no table. *)
Theorem finished_event_changes_nothing cfg now hold max ev e w :
  reachable cfg now (w_db w) → finished ev (w_db w) →
  w_db (snd (process_event hold max ev e w)) = w_db w ∧
  ∃ o, fst (process_event hold max ev e w) = Ok o ∧ o ∈ [Oduplicate; Oquarantined; Ofailed].
Proof.
  intros Hr Hf. destruct (deliver hold max cfg now ev e w Hr) as (o & Ho & Hd).
  assert (Hdup : ∀ n o' d', process_effect (e_clock e n) ev (w_db w) o' d' → o' = Oduplicate ∧ d' = w_db w).
  { intros n o' d' He. by destruct He. }
  destruct Hd as [[n He]|(Hin & dm & Hdm & _ & Hfin)].
  - destruct (Hdup _ _ _ He) as [-> ->]. split; [done|]. exists Oduplicate. split; [done|left].
  - assert (dm = w_db w) as -> by (destruct Hdm as [->|(n & o' & He)]; [done|by eapply Hdup]).
    split; [by apply Hfin|]. eauto.
Qed.

Lemma finished_event_changes_nothing_witness :
  w_db (snd (process_event 24 5 Shop.buy Shop.env0 Shop.bought_world)) = w_db Shop.bought_world.
Proof.
  refine (proj1 (finished_event_changes_nothing Shop.cfg 1000 24 5 Shop.buy Shop.env0 Shop.bought_world Shop.reachable_bought _)).
  exists "applied". split; [vm_compute; reflexivity|left].
Defined.

(** The money and the status commit together. If a delivery changed the
    wallet at all, then in the very same tables the event's inbox row is
    applied: there is no state, whatever failed and when, with credits moved and
    the event open, so a retry cannot move them twice. *)
Theorem money_moves_only_when_applied cfg now hold max ev e w :
  reachable cfg now (w_db w) →
  let d' := w_db (snd (process_event hold max ev e w)) in
  same_wallet (w_db w) d' ∨ ¬ finished ev (w_db w) ∧ row_status ev d' = Some "applied".
Proof.
  intros Hr d'. destruct (deliver hold max cfg now ev e w Hr) as (o & _ & Hd).
  destruct (delivered_wallet _ _ _ _ _ Hd) as [|(n & o' & dm & He & Hs & Hfin)]; [by left|].
  destruct (process_effect_wallet _ _ _ _ _ He) as [Hs'|(Hnf & Hrow & _)]; [left; by etrans|].
  right. split; [done|]. unfold d'. rewrite Hfin; [done|]. exists "applied". split; [done|left].
Qed.

Lemma money_moves_only_when_applied_witness :
  same_wallet (w_db Shop.linked_world) (w_db Shop.bought_world) ∨
  ¬ finished Shop.buy (w_db Shop.linked_world) ∧ row_status Shop.buy (w_db Shop.bought_world) = Some "applied".
Proof.
  assert (w_db Shop.bought_world = w_db (snd (process_event 24 5 Shop.buy Shop.env0 Shop.linked_world))) as ->
    by (vm_compute; reflexivity).
  exact (money_moves_only_when_applied Shop.cfg 1000 24 5 Shop.buy Shop.env0 Shop.linked_world Shop.reachable_linked).
Defined.

(** C19: a payload names neither who is paid nor how much. If a delivery changed
    the wallet, then the tenant is the one the app linked to the customer, and
    either it was granted the credits of an active product of the app's
    catalogue, or the reclaimable credits of a lot that tenant had bought with
    that payment were taken back. *)
Theorem grants_come_from_the_catalogue cfg now hold max ev e w :
  reachable cfg now (w_db w) →
  let d := w_db w in let d' := w_db (snd (process_event hold max ev e w)) in
  same_wallet d d' ∨
  ∃ tenant n d1 d2, linked ev tenant d ∧ same_wallet d d1 ∧ same_wallet d2 d' ∧
   ((∃ p credits ref expires rq fields r, catalogued ev p d ∧ ev_kind ev ∈ _PAID ∧ ev_payment_ref ev = Some ref ∧
       credits_amount (pr_credits p) = Ok credits ∧ 0 < credits ∧
       grant_effect (e_clock e n) tenant (grant_key ev) (grant_source (ev_kind ev)) (webhook_actor ev)
         (Some (ev_provider ev)) (Some ref) expires credits rq fields d1 r d2) ∨
    (∃ l ref rq fields r, ev_kind ev = PAYMENT_REFUNDED ∧ ev_payment_ref ev = Some ref ∧ l ∈ lots d ∧
       is_grant_of tenant (ev_provider ev) ref l ∧ 0 < reclaimable_of (e_clock e n) d l ∧ ap_status r = Sapplied ∧
       debit_effect (e_clock e n) tenant (clawback_key (ev_provider ev) ref) "clawback" None
         (reclaimable_of (e_clock e n) d l) rq fields d1 r d2)).
Proof.
  intros Hr d d'. destruct (deliver hold max cfg now ev e w Hr) as (o & _ & Hd).
  destruct (delivered_wallet _ _ _ _ _ Hd) as [|(n & o' & dm & He & Hs & _)]; [by left|].
  destruct (process_effect_wallet _ _ _ _ _ He) as [Hs'|(_ & _ & t & Hl & d1 & d2 & H01 & H23 & Hm)]; [left; by etrans|].
  right. exists t, n, d1, d2. split_and!; [done|by apply inbox_only_wallet|etrans; [by apply inbox_only_wallet|done]|].
  destruct Hm as [(p & ref & ex & c & rq & f & r & Hp & Hk & Href & _ & Hc & Hpos & Hg)|
    (l & ref & c & rq & f & r & Hk & Href & Hlin & Hg & -> & Hpos & Hst & Hdeb)].
  - left. by exists p, c, ref, ex, rq, f, r.
  - right. by exists l, ref, rq, f, r.
Qed.

Lemma grants_come_from_the_catalogue_witness :
  let d := w_db Shop.linked_world in
  let d' := w_db (snd (process_event 24 5 Shop.buy Shop.env0 Shop.linked_world)) in
  same_wallet d d' ∨ ∃ tenant, linked Shop.buy tenant d.
Proof.
  cbv zeta.
  destruct (grants_come_from_the_catalogue Shop.cfg 1000 24 5 Shop.buy Shop.env0 Shop.linked_world Shop.reachable_linked)
    as [H|(tenant & n & d1 & d2 & H & _)]; [left; exact H|right; exists tenant; exact H].
Defined.

(** C20: one payment is granted once. If the linked tenant already holds the grant
    of this payment, or already used the event's own grant key (so even when
    retention has swept the event's inbox row), then delivering a paid event for
    it, under any event id and with any failures, leaves the wallet as it is. *)
Theorem payment_is_granted_once cfg now hold max ev e w ref :
  reachable cfg now (w_db w) → ev_kind ev ∈ _PAID → ev_payment_ref ev = Some ref →
  (∀ tenant, linked ev tenant (w_db w) →
     (∃ l, l ∈ lots (w_db w) ∧ is_grant_of tenant (ev_provider ev) ref l) ∨
     (∃ x, x ∈ txns (w_db w) ∧ key_of x = (tenant, grant_key ev))) →
  same_wallet (w_db w) (w_db (snd (process_event hold max ev e w))).
Proof.
  intros Hr Hk Href Hdone. destruct (deliver hold max cfg now ev e w Hr) as (o & _ & Hd).
  destruct (delivered_wallet _ _ _ _ _ Hd) as [|(n & o' & dm & He & Hs & _)]; [done|].
  destruct (process_effect_wallet _ _ _ _ _ He) as [Hs'|(_ & _ & t & Hl & d1 & d2 & H01 & H23 & Hm)]; [by etrans|].
  destruct Hm as [(p & ref' & ex & c & rq & f & r & Hp & _ & Href' & Hno & Hc & Hpos & Hg)|
    (l & ref' & c & rq & f & r & Hk' & _)]; [|rewrite Hk' in Hk; by apply (bool_decide_pack (PAYMENT_REFUNDED ∈ _PAID)) in Hk].
  simplify_eq. destruct (Hdone t Hl) as [(l & Hlin & Hlg)|(x & Hx & Hkx)]; [by destruct (Hno l)|].
  assert (d2 = d1) as -> by (eapply grant_key_used; [|exact Hkx|exact Hg]; by rewrite H01).
  etrans; [by apply inbox_only_wallet|]. etrans; [by apply inbox_only_wallet|done].
Qed.

(** The provider describes the payment again, under another event id. *)
Lemma payment_is_granted_once_witness :
  same_wallet (w_db Shop.bought_world)
    (w_db (snd (process_event 24 5 (Shop.event "evt_9" CREDITS_PURCHASED) Shop.env0 Shop.bought_world))).
Proof.
  refine (payment_is_granted_once Shop.cfg 1000 24 5 (Shop.event "evt_9" CREDITS_PURCHASED) Shop.env0 Shop.bought_world "pay_1" Shop.reachable_bought _ eq_refl _).
  - by apply (bool_decide_unpack (CREDITS_PURCHASED ∈ _PAID)).
  - intros tenant (c & Hc & _ & _ & <-). vm_compute in Hc. apply elem_of_cons in Hc as [->|Hc]; [|by apply not_elem_of_nil in Hc].
    left. eexists. split; [left|]. by apply (bool_decide_unpack (is_grant_of _ _ _ _)).
Defined.

(** One refund is taken back once. After the clawback of a payment is booked
    for the linked tenant, a full-refund event for that payment, under any event
    id, with whatever amount is reclaimable then, leaves the wallet as it is. *)
Theorem refund_is_taken_back_once cfg now hold max ev e w ref :
  reachable cfg now (w_db w) → ev_kind ev = PAYMENT_REFUNDED → ev_payment_ref ev = Some ref →
  (∀ tenant, linked ev tenant (w_db w) →
     ∃ x, x ∈ txns (w_db w) ∧ key_of x = (tenant, clawback_key (ev_provider ev) ref)) →
  same_wallet (w_db w) (w_db (snd (process_event hold max ev e w))).
Proof.
  intros Hr Hk Href Hdone. destruct (deliver hold max cfg now ev e w Hr) as (o & _ & Hd).
  destruct (delivered_wallet _ _ _ _ _ Hd) as [|(n & o' & dm & He & Hs & _)]; [done|].
  destruct (process_effect_wallet _ _ _ _ _ He) as [Hs'|(_ & _ & t & Hl & d1 & d2 & H01 & H23 & Hm)]; [by etrans|].
  destruct Hm as [(p & ref' & ex & c & rq & f & r & Hp & Hk' & _)|
    (l & ref' & c & rq & f & r & _ & Href' & _ & _ & _ & _ & _ & Hdeb)].
  { rewrite Hk in Hk'. by apply (bool_decide_pack (PAYMENT_REFUNDED ∈ _PAID)) in Hk'. }
  simplify_eq. destruct (Hdone t Hl) as (x & Hx & Hkx).
  assert (d2 = d1) as -> by (eapply effect_key_used; [|exact Hkx|exact Hdeb]; by rewrite H01).
  etrans; [by apply inbox_only_wallet|]. etrans; [by apply inbox_only_wallet|done].
Qed.

Lemma refund_is_taken_back_once_witness :
  same_wallet (w_db Shop.refunded_world)
    (w_db (snd (process_event 24 5 (Shop.event "evt_7" PAYMENT_REFUNDED) Shop.env0 Shop.refunded_world))).
Proof.
  refine (refund_is_taken_back_once Shop.cfg 1000 24 5 (Shop.event "evt_7" PAYMENT_REFUNDED) Shop.env0 Shop.refunded_world "pay_1" Shop.reachable_refunded eq_refl eq_refl _).
  intros tenant (c & Hc & _ & _ & <-). vm_compute in Hc. apply elem_of_cons in Hc as [->|Hc]; [|by apply not_elem_of_nil in Hc].
  eexists. split; [right; left|reflexivity].
Defined.

(** Evaluates the decisions the event's kind settles. *)
Ltac settle_kind :=
  repeat match goal with
  | |- context [@bool_decide ?P ?D] =>
      let b := eval vm_compute in (@bool_decide P D) in
      lazymatch b with true => idtac | false => idtac end; change (@bool_decide P D) with b
  end; cbv iota; simpl action; simpl plan_reason.

(** Settles one row of the decision table, the kind of the event being known. *)
Ltac policy_row :=
  repeat split; intros;
  repeat match goal with
  | H : _ ∧ _ |- _ => destruct H
  | H : ∃ _, _ |- _ => destruct H
  | H : Some _ = Some _ |- _ => injection H as H; subst
  | H : ?k = ?k → _ |- _ => specialize (H eq_refl)
  end;
  first [done | congruence | lia
    | match goal with H : _ ∈ _PAID |- _ => exfalso; by apply (bool_decide_pack (_ ∈ _PAID)) in H end
    | match goal with H : _ ∈ [Aignore; Aquarantine] |- _ => exfalso; by apply (bool_decide_pack (_ ∈ [Aignore; Aquarantine])) in H end
    | by apply (bool_decide_unpack (_ ∈ _PAID)) | by eauto | eexists; split_and!; [done|congruence..]].

(** The policy is total and guesses nothing. Money is granted only for a paid
    event of a linked tenant for an active product with no earlier grant, and
    taken back only for a full refund of a granted payment with something left
    to reclaim; a refund is held only while its purchase may still come; and
    everything else is ignored or quarantined with a reason. *)
Theorem policy_guesses_nothing ev tenant p l received_at now hold :
  let plan := Policy.decide ev tenant p l received_at now hold in
  (action plan = Agrant ↔ ev_kind ev ∈ _PAID ∧ falsy_opt (ev_customer_ref ev) = false ∧ tenant ≠ None ∧
     falsy_opt (ev_payment_ref ev) = false ∧ l = None ∧
     ∃ x, p = Some x ∧ pr_active x = true ∧
       (ev_kind ev = SUBSCRIPTION_PERIOD_STARTED → pr_expires_after_days x ≠ None)) ∧
  (action plan = Aclawback ↔ ev_kind ev = PAYMENT_REFUNDED ∧ falsy_opt (ev_customer_ref ev) = false ∧ tenant ≠ None ∧
     falsy_opt (ev_payment_ref ev) = false ∧ ∃ gl, l = Some gl ∧ 0 < gl_reclaimable gl) ∧
  (action plan = Ahold → ev_kind ev = PAYMENT_REFUNDED ∧ l = None ∧ now - received_at ≤ hold) ∧
  (action plan ∈ [Aignore; Aquarantine] → plan_reason plan ≠ None).
Proof.
  cbv zeta. unfold Policy.decide.
  destruct (ev_kind ev) eqn:Hk; settle_kind; try policy_row.
  all: destruct (falsy_opt (ev_customer_ref ev)); [policy_row|].
  all: destruct tenant as [t|]; settle_kind; [|policy_row].
  all: destruct (falsy_opt (ev_payment_ref ev)); [policy_row|].
  all: destruct l as [gl|]; try policy_row.
  - destruct p as [x|]; [destruct (pr_active x) eqn:?|]; settle_kind; policy_row.
  - destruct p as [x|]; [destruct (pr_active x) eqn:?; [destruct (pr_expires_after_days x) eqn:?|]|]; settle_kind; policy_row.
  - destruct (Z.leb_spec (gl_reclaimable gl) 0); policy_row.
  - destruct (Z.ltb_spec hold (now - received_at)); policy_row.
Qed.
