(* ===== verification/UsageTheorems.v ===== *)
(** The properties of recorded usage and of the credit gate, each with a concrete
    instance. *)
From stdpp Require Import pretty.
From S2P Require Import Prelude Decimals Calendar Db Wallet Webhooks Usage.
From S2P Require Import WalletSpec WalletFacts WalletLaws UsageFacts System.

Local Open Scope string_scope.
Local Open Scope list_scope.
Local Open Scope Z_scope.

(** ** A concrete run, for the witnesses *)

Module Meter.
Definition env0 : env := Env (λ n, "u" +:+ pretty n) (λ _, 1000) (λ _, 1000) (λ _, None) 1000.
(** Every statement and every commit fails. *)
Definition env_down : env :=
  Env (λ n, "u" +:+ pretty n) (λ _, 1000) (λ _, 1000) (λ _, Some (Lost "OperationalError")) 1000.
Definition priced : settings := Settings (Some (Fin false 100 0)) (Fin false 1 0) ["openmeter"] true true.
Definition cfg : config := Config priced 24 5.
Definition call1 : usage := Usage "acme" "call-1" "chat" (Some (Number (Fin false 12 (-2)))) (Some "gpt") (Some 150).

Definition opened : world := Eval vm_compute in
  snd (run cfg (CGrant "acme" (Fin false 50 0) "manual" "welcome" "ops" None None None None None) env0 (World empty_db 0 [])).
Definition metered : world := Eval vm_compute in snd (record_usage_in priced call1 env0 opened).
Definition metered_run : world := Eval vm_compute in snd (run cfg (CUsage call1) env0 opened).

Lemma reachable_opened : reachable cfg 1000 (w_db opened).
Proof.
  assert (w_db opened = w_db (snd (run cfg (CGrant "acme" (Fin false 50 0) "manual" "welcome" "ops" None None None None None)
    env0 (World empty_db 0 [])))) as -> by (vm_compute; reflexivity).
  eapply (reach_call cfg 1000 1000 _ env0 (CGrant _ _ _ _ _ _ _ _ _ _)); [apply reach_empty|done|done|reflexivity].
Qed.
Lemma reachable_metered : reachable cfg 1000 (w_db metered_run).
Proof.
  assert (w_db metered_run = w_db (snd (run cfg (CUsage call1) env0 opened))) as -> by (vm_compute; reflexivity).
  eapply (reach_call cfg 1000 1000 _ env0 (CUsage call1)); [apply reachable_opened|done|done|reflexivity].
Qed.
Example opened_balance : balance_of "acme" 1000 (w_db opened) = (true, Balance 50000000 50000000 0).
Proof. vm_compute. reflexivity. Qed.
Example metered_balance : balance_of "acme" 1000 (w_db metered) = (true, Balance 38000000 38000000 0).
Proof. vm_compute. reflexivity. Qed.
End Meter.

(** Reading the balance sees the wallet only. *)
Lemma balance_of_wallet t now d d' : same_wallet d d' → balance_of t now d = balance_of t now d'.
Proof. intros [Hs]. destruct d, d'. unfold wallet_of in Hs. simpl in Hs. by simplify_eq. Qed.

(** A debit moves the wallet and nothing else. *)
Lemma debit_effect_usage now t key kind ue c rq fields d r d' :
  debit_effect now t key kind ue c rq fields d r d' → usage_events d' = usage_events d.
Proof. by destruct 1. Qed.

Lemma debit_effect_balance now t key kind ue c rq fields d r d' :
  wf d → wf d' → debit_effect now t key kind ue c rq fields d r d' →
  if bool_decide (ap_status r = Sapplied)
  then ap_amount r = c ∧ available (snd (balance_of t now d')) = available (snd (balance_of t now d)) - c
  else d' = d.
Proof.
  intros Hwf Hwf' He. inversion He as [| | |x rq' new ms sh Hpos _ _ Ht Hms Heq Hd]; subst; try done.
  rewrite bool_decide_eq_true_2 by done. split; [done|]. rewrite !balance_of_sums by done. cbn [snd available].
  destruct (txn_for_facts _ _ _ _ _ _ _ _ Ht) as [Htt _]. eapply debit_available; [done|lia|done|done].
Qed.

(** ** Recording *)

(** A unit of usage is recorded, charged and queued at most once. When the
    tenant already has a record under the event id, a repeat (with any cost, any
    settings and any failures) changes no table and reports no charge. *)
Theorem usage_is_recorded_once scfg cfg now u e w :
  reachable cfg now (w_db w) → has_usage u (w_db w) →
  w_db (snd (record_usage_in scfg u e w)) = w_db w ∧
  ∀ r, fst (record_usage_in scfg u e w) = Ok r → rc_status r ≠ Rrecorded ∧ rc_credits r = None ∧ rc_debit r = None.
Proof.
  intros Hr Hu. apply reachable_wf in Hr. pose proof (record_usage_spec scfg e (w_db w) u Hr w eq_refl) as Hs.
  destruct (record_usage_in scfg u e w) as [[r|x] w']; simpl in Hs |- *; [|by destruct Hs as [-> _]].
  destruct Hs; try done; (split; [done|]); intros r' [= <-]; done.
Qed.

Lemma usage_is_recorded_once_witness :
  w_db (snd (record_usage_in Meter.priced Meter.call1 Meter.env0 Meter.metered_run)) = w_db Meter.metered_run.
Proof.
  refine (proj1 (usage_is_recorded_once Meter.priced Meter.cfg 1000 Meter.call1 Meter.env0 Meter.metered_run Meter.reachable_metered _)).
  left. split; reflexivity.
Defined.

(** A recorded unit is kept with its credits whatever becomes of its charge.
    Exactly one row is added, under the tenant and event id, with the cost rounded
    to the column and the credits that cost is worth at the configured rate; a
    charge that failed or did not apply leaves the wallet as it was, and one that
    applied takes exactly the recorded credits from the balance. *)
Theorem usage_is_kept_with_its_charge scfg cfg now u e w worth debit w' :
  reachable cfg now (w_db w) → record_usage_in scfg u e w = (Ok (Recorded Rrecorded worth debit), w') →
  ¬ has_usage u (w_db w) ∧
  (∃ row c, usage_events (w_db w') = usage_events (w_db w) ++ [row] ∧ is_usage (u_tenant u) (u_event_id u) row ∧
     us_credits row = worth ∧ numeric_opt 18 12 c = Ok (us_cost_usd row) ∧
     match c, credits_per_usd scfg with
     | Some c, Some rate => ∃ z, worth = Some z ∧ credits_for_cost c rate (markup scfg) = Ok z
     | _, _ => worth = None
     end) ∧
  match debit with
  | Some r =>
      if bool_decide (ap_status r = Sapplied)
      then worth = Some (ap_amount r) ∧
        available (snd (balance_of (u_tenant u) (e_now e) (w_db w'))) =
        available (snd (balance_of (u_tenant u) (e_now e) (w_db w))) - ap_amount r
      else same_wallet (w_db w) (w_db w')
  | None => same_wallet (w_db w) (w_db w')
  end.
Proof.
  intros Hr Hrun. pose proof (recorded_run _ _ _ _ _ _ _ _ Hr Hrun) as He. apply reachable_wf in Hr as Hwf.
  pose proof (run_triple e _ w _ _ _ _ _ (preserves_wf_record scfg u e) Hwf Hrun) as Hwf'.
  set (d' := w_db w') in *. clearbody d'.
  inversion He as [| | |c w1 row debit1 d2 d3 Hnew Hv Hrow Hcr Hco Hch Hout]; subst.
  rewrite <-(outbox_only_wallet _ _ Hout) in Hwf'. rewrite Hout. split; [done|]. apply valid_Ok in Hv.
  rewrite (add_usage_wallet row (w_db w)) in Hwf. split.
  - exists row, c. split_and!; try done; [|apply Hrow]. destruct Hch as [|? ? ? ? ? ? _ _ Hdeb]; [done|].
    exact (debit_effect_usage _ _ _ _ _ _ _ _ _ _ _ Hdeb).
  - destruct Hch as [|w0 c0 rate fields r d2 Hw Hrate Hdeb]; [done|].
    pose proof (debit_effect_balance _ _ _ _ _ _ _ _ _ _ _ Hwf Hwf' Hdeb) as Hbal.
    case_bool_decide; [|by rewrite Hbal]. destruct Hbal as [-> Hb]. split; [done|]. exact Hb.
Qed.

Lemma usage_is_kept_with_its_charge_witness :
  available (snd (balance_of "acme" 1000 (w_db Meter.metered))) = 50000000 - 12000000.
Proof.
  refine (eq_trans (proj2 (proj2 (proj2 (usage_is_kept_with_its_charge Meter.priced Meter.cfg 1000 Meter.call1 Meter.env0
    Meter.opened (Some 12000000) (Some (Applied Sapplied (Some "u14") 12000000 0)) Meter.metered Meter.reachable_opened _)))) _).
  - vm_compute. reflexivity.
  - vm_compute. reflexivity.
Defined.

(** What a protected body returns comes from the body or from its handler. *)
Lemma try_except_total {A} (m : M A) (h : exn → M A) e w :
  (∀ x w1, ∃ r w', h x e w1 = (Ok r, w')) →
  ∃ r w', try_except m h e w = (Ok r, w') ∧ (m e w = (Ok r, w') ∨ ∃ x w1, m e w = (Err x, w1) ∧ h x e w1 = (Ok r, w')).
Proof.
  intros Hh. unfold try_except. destruct (m e w) as [[r|x] w1] eqn:Hm; [by eauto 6|].
  destruct (Hh x w1) as (r & w' & Hr). rewrite Hr. eauto 10.
Qed.

Lemma triple_any {A} e P (m : M A) : triple e P m (λ _ _, True) (λ _ _, True).
Proof. intros w _. by destruct (m e w) as [[] ?]. Qed.

(** A body that got as far as answering recorded the unit or found it recorded. *)
Lemma record_body_status scfg u c worth e :
  triple e (λ _, True) (record_body scfg u c worth) (λ r _, rc_status r ≠ Rfailed) (λ _ _, True).
Proof.
  unfold record_body. cbv zeta. eapply triple_bind; [apply triple_any|]. intros b.
  destruct b; simpl; [|by apply triple_ret]. eapply triple_bind; [apply triple_any|]. intros debit.
  eapply triple_bind; [apply triple_any|]. intros []. by apply triple_ret.
Qed.

Lemma record_failed_counts scfg u e w r w' :
  record_usage_in scfg u e w = (Ok r, w') → rc_status r = Rfailed →
  ∃ pre, w_counts w' = ("agent_cost_governance_degraded_total", "billing_event_write") :: pre.
Proof.
  intros Hrun Hst. unfold record_usage_in, raise, _degrade, count, mbind, M_bind, mret, M_ret in Hrun. case_bool_decide; [by simplify_eq|].
  destruct (_valid scfg u) as [[c worth]|x]; [|by destruct x; simplify_eq/=; eauto].
  unfold try_except in Hrun. destruct (savepoint _ e w) as [[r1|x] w1] eqn:Hs; [|by simplify_eq/=; eauto].
  simplify_eq. unfold savepoint in Hs. destruct (e_fault e _); [done|].
  pose proof (record_body_status scfg u c worth e (next_tick w) I) as Hb.
  destruct (record_body _ _ _ _ _ _) as [[r2|x] w2]; [|done]. destruct (e_fault e _); [done|]. by simplify_eq.
Qed.

(** Recording fails only as documented, with one exception. [record_usage_in]
    raises only the signal of the decimal context while it rates the figure, and
    then it has changed no table; the host's port never raises at all, and a fault
    it swallows is counted. *)
Theorem usage_raises_only_while_rating scfg cfg now u e w :
  reachable cfg now (w_db w) →
  (∀ x w', record_usage_in scfg u e w = (Err x, w') →
     w_db w' = w_db w ∧ ∃ sig, x = DecimalSignal sig ∧ _valid scfg u = Err (DecimalSignal sig)) ∧
  ∃ r w', port_record_usage_in scfg u e w = (Ok r, w') ∧
    (rc_status r = Rfailed → ∃ pre, w_counts w' = ("agent_cost_governance_degraded_total", "billing_event_write") :: pre).
Proof.
  intros Hr. apply reachable_wf in Hr. split.
  - intros x w' Hrun. destruct (run_triple_err e _ w _ _ _ _ _ (record_usage_spec scfg e (w_db w) u Hr) eq_refl Hrun)
      as (Hd & sig & Hv & Hx). eauto.
  - unfold port_record_usage_in. destruct (try_except_total (record_usage_in scfg u)
      (λ _, _degrade "billing_event_write" ;; mret (Recorded Rfailed None None)) e w) as (r & w' & Hrun & Hcase).
    { intros x w1. unfold _degrade, count, mbind, M_bind, mret, M_ret. eauto. }
    exists r, w'. split; [done|]. intros Hst. destruct Hcase as [Hok|(x & w1 & _ & Hh)].
    + by eapply record_failed_counts.
    + unfold _degrade, count, mbind, M_bind, mret, M_ret in Hh. simplify_eq. simpl. eauto.
Qed.

Lemma usage_raises_only_while_rating_witness :
  ∃ r w', port_record_usage_in Meter.priced Meter.call1 Meter.env_down Meter.opened = (Ok r, w') ∧
    (rc_status r = Rfailed → ∃ pre, w_counts w' = ("agent_cost_governance_degraded_total", "billing_event_write") :: pre).
Proof.
  exact (proj2 (usage_raises_only_while_rating Meter.priced Meter.cfg 1000 Meter.call1 Meter.env_down Meter.opened Meter.reachable_opened)).
Defined.

(** A figure the column could not hold is not counted as a failure but raised.
    At a rate of ten credits a cent, a cost of 10^15 dollars has a price of more
    than 28 digits, and [record_usage_in] raises [decimal.InvalidOperation] into
    its caller's transaction, where [except ValueError] does not catch it. *)
Theorem usage_can_raise e w :
  let u := Usage "acme" "call-9" "chat" (Some (Number (Fin false 1 15))) None None in
  let scfg := Settings (Some (Fin false 1 8)) (Fin false 1 0) [] true true in
  record_usage_in scfg u e w = (Err (DecimalSignal InvalidOperation), w).
Proof. reflexivity. Qed.

(** ** The credit gate *)

Section gate.
Context (scfg : settings) (tenant : string) (e : env) (w : world).

(** One answered read of the balance: the transaction's clock and the rows it saw. *)
Lemma account_balance_run :
  (∀ n, e_fault e n = None) →
  ∃ n w', account_balance tenant e w =
    (Ok (if on_credit_billing tenant (w_db w) then Some (snd (balance_of tenant (e_clock e n) (w_db w))) else None), w') ∧
    w_db w' = w_db w ∧ w_counts w' = w_counts w.
Proof.
  intros Hf. exists (w_tick w). unfold account_balance, transaction, account_balance_in, _read_balance, query, stmt,
    mbind, M_bind, mret, M_ret. rewrite Hf. simpl. rewrite Hf. simpl.
  unfold balance_of. cbv beta iota. simpl. rewrite Hf. eexists. split; [reflexivity|done].
Qed.

Lemma account_balance_reads : w_db (snd (account_balance tenant e w)) = w_db w.
Proof.
  unfold account_balance, transaction, account_balance_in, _read_balance, query, stmt, mbind, M_bind, mret, M_ret.
  repeat (case_match; simplify_eq/=; try done).
Qed.
End gate.

(** C27: the gate refuses exactly the tenants whose credits are spoken for. With
    enforcement on, a rate set and a readable wallet, the tenant is refused if and
    only if it is on credit billing and its available credits, less the price of
    what its running work holds, are not positive; the answer then carries both
    figures, and a tenant with no wallet is allowed without its holds being read. *)
Theorem gate_refuses_exactly_the_exhausted scfg tenant e w rate usd r :
  (∀ n, e_fault e n = None) → credits_enforcement scfg = true → credits_per_usd scfg = Some rate →
  credits_for_cost usd rate (markup scfg) = Ok r →
  ∃ n a w', admit_tenant scfg tenant (mret usd) e w = (Ok a, w') ∧ w_db w' = w_db w ∧
    let b := snd (balance_of tenant (e_clock e n) (w_db w)) in
    (refused a = true ↔ on_credit_billing tenant (w_db w) = true ∧ available b ≤ r) ∧
    (refused a = true → a = Admission Exhausted (Some (available b)) (Some r)) ∧
    (on_credit_billing tenant (w_db w) = false → ∀ holds, admit_tenant scfg tenant holds e w = (Ok a, w')).
Proof.
  intros Hf Hon Hrate Hr. destruct (account_balance_run tenant e w Hf) as (n & w1 & Hread & Hdb & _).
  assert (Hrw : read_wallet tenant e w = (Ok (Some (if on_credit_billing tenant (w_db w)
    then Some (snd (balance_of tenant (e_clock e n) (w_db w))) else None)), w1)).
  { unfold read_wallet, try_except, mbind, M_bind. by rewrite Hread. }
  unfold admit_tenant. rewrite Hon, Hrate. cbn [negb]. unfold mbind, M_bind at 1. rewrite Hrw.
  exists n. set (b := snd (balance_of tenant (e_clock e n) (w_db w))) in *. clearbody b.
  destruct (on_credit_billing tenant (w_db w)) eqn:Hoc.
  - unfold mret, M_ret, M_bind, lift. rewrite Hr. simpl. destruct (Z.ltb_spec 0 (available b - r)).
    + eexists _, _. split; [reflexivity|]. split_and!; [done| | |done]; simpl; [split; [done|lia]|done].
    + eexists _, _. split; [reflexivity|]. split_and!; [done| | |done]; simpl; [|done]. split; [intros _; split; [done|lia]|done].
  - eexists _, _. split; [reflexivity|]. split_and!; [done| | |]; try done.
    + split; [done|by intros []].
    + intros _ holds. unfold M_bind. by rewrite Hrw.
Qed.

Lemma gate_refuses_exactly_the_exhausted_witness :
  ∃ n a w', admit_tenant Meter.priced "acme" (mret (Fin false 5 (-1))) Meter.env0 Meter.opened = (Ok a, w') ∧
    (refused a = true → a = Admission Exhausted (Some (available (snd (balance_of "acme" (e_clock Meter.env0 n) (w_db Meter.opened)))))
      (Some 50000000)).
Proof.
  destruct (gate_refuses_exactly_the_exhausted Meter.priced "acme" Meter.env0 Meter.opened (Fin false 100 0)
    (Fin false 5 (-1)) 50000000) as (n & a & w' & H1 & _ & _ & H2 & _); [done|done|done|vm_compute; reflexivity|].
  exists n, a, w'. by split.
Defined.

(** The gate degrades as configured. With enforcement off nothing is read and
    everyone is allowed; with it on, a wallet that cannot be read refuses exactly
    when the policy is "closed", changes no table and is counted, and no fault of
    the wallet is raised. *)
Theorem gate_follows_the_failure_policy scfg tenant reserved e w rate x w1 :
  credits_per_usd scfg = Some rate → account_balance tenant e w = (Err x, w1) →
  ∃ a w', admit_tenant scfg tenant reserved e w = (Ok a, w') ∧ w_db w' = w_db w ∧
    refused a = (credits_enforcement scfg && fail_closed scfg) ∧
    (credits_enforcement scfg = false → a = Admission Allowed None None ∧ w' = w) ∧
    (credits_enforcement scfg = true →
       ad_status a = (if fail_closed scfg then Unavailable else Degraded) ∧
       w_counts w' = ("agent_cost_governance_degraded_total", "credit_read") :: w_counts w1).
Proof.
  intros Hrate Hread. pose proof (account_balance_reads tenant e w) as Hdb. rewrite Hread in Hdb. simpl in Hdb.
  unfold admit_tenant. destruct (credits_enforcement scfg); [|by eexists _, _]. rewrite Hrate. cbn [negb].
  unfold read_wallet, try_except, _degrade, count, mbind, M_bind, mret, M_ret. rewrite Hread.
  eexists _, _. split; [reflexivity|]. by destruct (fail_closed scfg).
Qed.

Lemma gate_follows_the_failure_policy_witness :
  ∃ a w', admit_tenant Meter.priced "acme" (mret (Fin false 5 (-1))) Meter.env_down Meter.opened = (Ok a, w') ∧ refused a = true.
Proof.
  destruct (gate_follows_the_failure_policy Meter.priced "acme" (mret (Fin false 5 (-1))) Meter.env_down Meter.opened
    (Fin false 100 0) (class_exn "OperationalError") (next_tick Meter.opened)) as (a & w' & H1 & _ & H2 & _);
    [done|vm_compute; reflexivity|]. exists a, w'. by split.
Defined.
