(* ===== verification/BooksTheorems.v ===== *)
(** The properties of the export worker, of the retention sweep and of the
    reconciliation, each with a concrete instance. *)
From stdpp Require Import pretty.
From S2P Require Import Prelude Dict Decimals Calendar Db Wallet Webhooks Usage Export Reconcile.
From S2P Require Import WalletSpec WalletFacts WalletLaws UsageFacts.
From S2P Require Import Books ExportFacts Retention System.

Local Open Scope string_scope.
Local Open Scope list_scope.
Local Open Scope Z_scope.

(** ** A concrete run, for the witnesses *)

Module Ledger.

Definition env_at (t : Z) : env := Env (λ n, "u" +:+ pretty n) (λ _, t) (λ _, t) (λ _, None) t.
Definition priced : settings := Settings (Some (Fin false 100 0)) (Fin false 1 0) ["openmeter"] true true.
Definition cfg : config := Config priced 24 5.
Definition call1 : usage := Usage "acme" "call-1" "chat" (Some (Number (Fin false 12 (-2)))) (Some "gpt") (Some 150).

(** The provider accepts every event it is sent. *)
Definition accepts : adapter := λ _ _ _ _ batch, Ok (ExportResult (ue_event_id <$> batch) [] []).
(** The provider is down. *)
Definition down : adapter := λ _ _ _ _ _, Err "ConnectError".

Definition linked : world := Eval vm_compute in
  snd (run cfg (CLink "acme" "openmeter" "cus_1") (env_at 1000) (World empty_db 0 [])).
Definition metered : world := Eval vm_compute in snd (run cfg (CUsage call1) (env_at 1000) linked).
Abbreviation exporting call := (run_once 3 30 3600 [("openmeter", call)] 100 30).
Definition sent : world := Eval vm_compute in snd (exporting accepts (env_at 2000) metered).
Definition retried : world := Eval vm_compute in snd (exporting down (env_at 2000) metered).
Definition exported_run : world := Eval vm_compute in
  snd (run cfg (CExport 3 30 3600 [("openmeter", accepts)] 100 30) (env_at 2000) metered).

Lemma books_linked : reachable cfg 1000 (w_db linked).
Proof.
  assert (w_db linked = w_db (snd (run cfg (CLink "acme" "openmeter" "cus_1") (env_at 1000) (World empty_db 0 [])))) as ->
    by (vm_compute; reflexivity).
  eapply (reach_call cfg 1000 1000 _ (env_at 1000) (CLink _ _ _)); [apply reach_empty|done|done|reflexivity].
Qed.
Lemma books_metered : reachable cfg 1000 (w_db metered).
Proof.
  assert (w_db metered = w_db (snd (run cfg (CUsage call1) (env_at 1000) linked))) as -> by (vm_compute; reflexivity).
  eapply (reach_call cfg 1000 1000 _ (env_at 1000) (CUsage _)); [apply books_linked|done|done|reflexivity].
Qed.
Lemma books_exported : reachable cfg 2000 (w_db exported_run).
Proof.
  assert (w_db exported_run = w_db (snd (run cfg (CExport 3 30 3600 [("openmeter", accepts)] 100 30) (env_at 2000) metered))) as ->
    by (vm_compute; reflexivity).
  eapply (reach_call cfg 1000 2000 _ (env_at 2000) (CExport _ _ _ _ _ _)); [apply books_metered|done|done|reflexivity].
Qed.

Example sent_status : ob_status <$> outbox (w_db sent) = ["sent"].
Proof. vm_compute. reflexivity. Qed.
Example retried_status : (λ o, (ob_status o, ob_attempts o, ob_next_attempt_at o)) <$> outbox (w_db retried) =
  [("pending", 1, 2000 + 30 * us_per_second)].
Proof. vm_compute. reflexivity. Qed.

(** The wallet is opened, and the first statement of the charge fails: the event is
    kept uncharged. *)
Definition env_charge_down : env :=
  Env (λ n, "u" +:+ pretty n) (λ _, 1000) (λ _, 1000) (λ n, if bool_decide (n = 12%nat) then Some (Lost "OperationalError") else None) 1000.
Definition opened : world := Eval vm_compute in
  snd (run cfg (CGrant "acme" (Fin false 50 0) "manual" "welcome" "ops" None None None None None) (env_at 1000) (World empty_db 0 [])).
Lemma books_opened : reachable cfg 1000 (w_db opened).
Proof.
  assert (w_db opened = w_db (snd (run cfg (CGrant "acme" (Fin false 50 0) "manual" "welcome" "ops" None None None None None)
    (env_at 1000) (World empty_db 0 [])))) as -> by (vm_compute; reflexivity).
  eapply (reach_call cfg 1000 1000 _ (env_at 1000) (CGrant _ _ _ _ _ _ _ _ _ _)); [apply reach_empty|done|done|reflexivity].
Qed.
Definition uncharged_world : world := Eval vm_compute in snd (record_usage_in priced call1 env_charge_down opened).
Example uncharged_run :
  record_usage_in priced call1 env_charge_down opened = (Ok (Recorded Rrecorded (Some 12000000) None), uncharged_world).
Proof. vm_compute. reflexivity. Qed.

End Ledger.

(** ** Export *)

(** C29: the export worker neither loses usage nor claims what a provider did not
    say. Whatever fails during a pass, every outbox row is still there, under the
    same key; a finished row is as it was; attempts never fall and stay below the
    budget while a row is pending; and a row became [sent] only if a provider
    answered, to a call that sent the event, that it landed. Nothing else of the
    database changed. *)
Theorem export_never_loses_or_lies cfg now max base cap providers batch_size max_age_days e w :
  reachable cfg now (w_db w) →
  let d' := w_db (snd (run_once max base cap providers batch_size max_age_days e w)) in
  outbox_only (w_db w) d' ∧ Forall2 (progress max providers) (outbox (w_db w)) (outbox d').
Proof.
  intros Hr d'. apply reachable_books in Hr as Hb.
  pose proof (run_once_keeping max base cap providers e (w_db w) batch_size max_age_days w) as Hk.
  specialize (Hk ltac:(split; [reflexivity|done])). unfold d'.
  by destruct (run_once _ _ _ _ _ _ e w) as [[a|x] w']; destruct Hk as [[? ?] _].
Qed.

Lemma export_never_loses_or_lies_witness :
  ob_status <$> outbox (w_db Ledger.sent) = ["sent"] ∧
  Forall2 (progress 3 [("openmeter", Ledger.accepts)]) (outbox (w_db Ledger.metered)) (outbox (w_db Ledger.sent)).
Proof.
  split; [vm_compute; reflexivity|].
  assert (w_db Ledger.sent = w_db (snd (run_once 3 30 3600 [("openmeter", Ledger.accepts)] 100 30 (Ledger.env_at 2000) Ledger.metered)))
    as -> by (vm_compute; reflexivity).
  exact (proj2 (export_never_loses_or_lies Ledger.cfg 1000 3 30 3600 [("openmeter", Ledger.accepts)] 100 30 (Ledger.env_at 2000)
    Ledger.metered Ledger.books_metered)).
Defined.

(** C30: a pass settles what it claims. Without failures, and with event ids that are
    unique across the batch, draining a provider returns, and every claimed row has
    used one more attempt: it is finished, or it is pending within the budget and
    waits for exactly the back-off of its attempts. So no event is retried for ever. *)
Theorem export_settles_what_it_claims cfg now max base cap name call batch_size e w :
  reachable cfg now (w_db w) → (∀ n, e_fault e n = None) →
  (∀ o, o ∈ outbox (w_db w) → ob_attempts o < 2 ^ 31 - 1) →
  (∀ n x y, x ∈ claimed name batch_size n (w_db w) → y ∈ claimed name batch_size n (w_db w) →
     du_event_id x = du_event_id y → du_tenant x = du_tenant y) →
  ∃ counts w' n, _drain max base cap name call batch_size e w = (Ok counts, w') ∧
    ∀ due, due ∈ claimed name batch_size (e_clock e n) (w_db w) →
      settled max base cap name (e_clock e n) due (w_db w) (w_db w').
Proof.
  intros Hr Hf Hmax Huniq. apply reachable_books in Hr as Hb.
  pose proof (drain_settles max base cap name e (w_db w) call batch_size Hb Hmax Huniq w eq_refl) as Hd.
  destruct (_drain _ _ _ _ _ _ e w) as [[counts|x] w']; [destruct Hd as (n & Hd); eauto|].
  destruct Hd as (n & f & Hn & _). by rewrite Hf in Hn.
Qed.

Lemma export_settles_what_it_claims_witness :
  ∃ counts w' n, _drain 3 30 3600 "openmeter" Ledger.down 100 (Ledger.env_at 2000) Ledger.metered = (Ok counts, w') ∧
    ∀ due, due ∈ claimed "openmeter" 100 (e_clock (Ledger.env_at 2000) n) (w_db Ledger.metered) →
      settled 3 30 3600 "openmeter" (e_clock (Ledger.env_at 2000) n) due (w_db Ledger.metered) (w_db w').
Proof.
  apply (export_settles_what_it_claims Ledger.cfg 1000 3 30 3600 "openmeter" Ledger.down 100 (Ledger.env_at 2000)
    Ledger.metered Ledger.books_metered).
  - done.
  - intros o Ho. apply elem_of_cons in Ho as [->|Ho]; [done|by apply not_elem_of_nil in Ho].
  - intros n x y Hx Hy _. destruct (claimed_elem _ _ _ _ _ Hx) as (o & Ho & _ & _ & -> & _).
    destruct (claimed_elem _ _ _ _ _ Hy) as (o' & Ho' & _ & _ & -> & _).
    apply elem_of_cons in Ho as [->|Ho]; [|by apply not_elem_of_nil in Ho].
    apply elem_of_cons in Ho' as [->|Ho']; [done|by apply not_elem_of_nil in Ho'].
Defined.

(** ** Retention *)

(** The sweep deletes no evidence. Below the floor it raises before a row is
    touched; otherwise, whatever fails, an event it removed was past the cutoff with
    every export sent, every unfinished export row is kept, and no other table
    changes. When it answers [complete], nothing removable is left. *)
Theorem sweep_deletes_no_evidence cfg now N older_than_days batch_size max_batches e w :
  reachable cfg now (w_db w) → (∀ n, e_clock e n ≤ N) →
  let d' := w_db (snd (sweep_old_events older_than_days batch_size max_batches e w)) in
  swept older_than_days N (w_db w) d' ∧
  (older_than_days < BILLING_USAGE_EVENT_MIN_RETENTION_DAYS → d' = w_db w) ∧
  ∀ r, fst (sweep_old_events older_than_days batch_size max_batches e w) = Ok r →
    BILLING_USAGE_EVENT_MIN_RETENTION_DAYS ≤ older_than_days ∧
    (sr_complete r = true → ∃ n, ∀ u, u ∈ usage_events d' → ¬ doomed older_than_days (e_clock e n) d' u).
Proof.
  intros Hr Hclock d'. apply reachable_books in Hr as Hb.
  pose proof (sweep_old_events_spec e N Hclock older_than_days (w_db w) batch_size max_batches Hb w eq_refl) as Hs.
  unfold d'. destruct (sweep_old_events _ _ _ e w) as [[r|x] w']; simpl.
  - destruct Hs as (Hdays & [Hs _] & Hc & _). split_and!; [done|intros Hlt; exfalso; lia|]. intros r' [= <-]. by split.
  - destruct Hs as ([Hs _] & Hd). by split_and!.
Qed.

(** Forty days later the event whose export was sent is gone. *)
Lemma sweep_deletes_no_evidence_witness :
  length (usage_events (w_db Ledger.exported_run)) = 1%nat ∧
  usage_events (w_db (snd (sweep_old_events 35 100 10 (Ledger.env_at (days 40)) Ledger.exported_run))) = [] ∧
  swept 35 (days 40) (w_db Ledger.exported_run)
    (w_db (snd (sweep_old_events 35 100 10 (Ledger.env_at (days 40)) Ledger.exported_run))).
Proof.
  split_and!; [reflexivity|vm_compute; reflexivity|].
  exact (proj1 (sweep_deletes_no_evidence Ledger.cfg 2000 (days 40) 35 100 10 (Ledger.env_at (days 40)) Ledger.exported_run
    Ledger.books_exported (λ _, Z.le_refl _))).
Defined.

(** ** Reconciliation *)

(** No uncharged usage is silent. When [record_usage_in] kept a unit worth
    credits for a tenant with a wallet but could not charge it, every reconciliation
    of a window with that moment reports a finding for the tenant and the day whose
    credits include the unit's; and a unit whose charge was applied is in none. *)
Theorem uncharged_usage_is_reported scfg cfg now u e w credits debit w' win :
  reachable cfg now (w_db w) → record_usage_in scfg u e w = (Ok (Recorded Rrecorded (Some credits) debit), w') →
  0 < credits → (∀ t, t ∈ txns (w_db w) → key_of t ≠ (u_tenant u, u_event_id u)) →
  (∃ a, a ∈ accounts (w_db w) ∧ acc_tenant a = u_tenant u ∧ acc_created_at a ≤ e_now e) →
  win_start win ≤ e_now e ≤ win_end win →
  match debit with
  | None => ∃ f, f ∈ findings_in win (w_db w') ∧ fi_tenant f = u_tenant u ∧ fi_day f = e_now e / us_per_day ∧
      credits ≤ fi_credits f
  | Some r => ap_status r = Sapplied → ∀ row, row ∈ usage_events (w_db w') →
      is_usage (u_tenant u) (u_event_id u) row → ¬ uncharged win (w_db w') row
  end.
Proof.
  intros Hr Hrun Hpos Hkey Hacc Hwin. pose proof (recorded_run _ _ _ _ _ _ _ _ Hr Hrun) as He.
  set (d' := w_db w') in *. clearbody d'.
  inversion He as [| | |c w1 row debit1 d2 d3 Hnew Hv (Hrow & Hocc & Hrec) Hcr Hco Hch Hout]; subst.
  rewrite Hout. destruct Hch as [|w0 c0 rate fields r d2 Hw Hrate Hdeb].
  - destruct (findings_cover win (set_outbox (λ _, outbox d') (add_usage row (w_db w))) row)
      as (f & Hf & Ht & Hday & Hc & _).
    + apply elem_of_app. right. left.
    + destruct Hrow as [Hrt Hri]. split_and!.
      * unfold in_window. rewrite Hocc. lia.
      * unfold worth_credits. by rewrite Hcr.
      * apply Exists_exists. destruct Hacc as (a & Ha & Hat & Hac). exists a. split; [done|]. by rewrite Hrt, Hrec.
      * intros Hex. apply Exists_exists in Hex as (t & Ht & Htt & Htk). apply (Hkey t Ht). unfold key_of. congruence.
    + exists f. split_and!; [done|by destruct Hrow as [<- _]|congruence|]. by rewrite Hcr in Hc.
  - intros Hst row' _ [Ht Hi] (_ & _ & _ & Hun). apply Hun. apply Exists_exists.
    inversion Hdeb as [| | |x rq new ms sh _ _ _ Htxn _ Heq Hd]; subst; try done.
    exists x. split; [apply elem_of_app; right; left|].
    apply txn_for_facts in Htxn as (Hxt & Hxk). rewrite Ht, Hi. by split.
Qed.

(** The charge failed on its first statement: the event is reported, with its
    twelve credits. *)
Lemma uncharged_usage_is_reported_witness :
  0 < 12000000 ∧
  ∃ f, f ∈ findings_in (Build_Window 0 2000) (w_db Ledger.uncharged_world) ∧ fi_tenant f = "acme" ∧ fi_day f = 0 ∧
    12000000 ≤ fi_credits f.
Proof.
  split; [lia|].
  refine (uncharged_usage_is_reported Ledger.priced Ledger.cfg 1000 Ledger.call1 Ledger.env_charge_down Ledger.opened
    12000000 None Ledger.uncharged_world (Build_Window 0 2000) Ledger.books_opened Ledger.uncharged_run _ _ _ _).
  - lia.
  - intros t Ht. apply elem_of_cons in Ht as [->|Ht]; [done|by apply not_elem_of_nil in Ht].
  - eexists. split; [apply list_elem_of_here|]. by split.
  - done.
Defined.
