(* ===== verification/Json.v ===== *)
(** JSON values, [json.dumps] and [json.loads] as the job queue and the loop guards use
    them, and their round trip.

    A float is kept as the text [float.__repr__] gives it.  Escapes of characters above
    U+00FF do not decode: a string is a sequence of characters below 256. *)
From Stdlib Require Import Ascii Decimal DecimalString DecimalZ.
From S2P Require Import Prelude Dict.

Local Open Scope string_scope.
Local Open Scope list_scope.

Inductive json : Type :=
| JNull
| JBool (b : bool)
| JInt (z : Z)
| JFloat (repr : string)
| JStr (s : string)
| JList (l : list json)
| JObj (l : list (string * json)).

Section json_ind.
Variable P : json → Prop.
Hypothesis Hnull : P JNull.
Hypothesis Hbool : ∀ b, P (JBool b).
Hypothesis Hint : ∀ z, P (JInt z).
Hypothesis Hfloat : ∀ r, P (JFloat r).
Hypothesis Hstr : ∀ s, P (JStr s).
Hypothesis Hlist : ∀ l, Forall P l → P (JList l).
Hypothesis Hobj : ∀ l, Forall (λ p, P p.2) l → P (JObj l).

Fixpoint json_rect' (j : json) : P j :=
  match j with
  | JNull => Hnull
  | JBool b => Hbool b
  | JInt z => Hint z
  | JFloat r => Hfloat r
  | JStr s => Hstr s
  | JList l => Hlist l ((fix go l : Forall P l :=
      match l with [] => Forall_nil_2 _ | x :: l => Forall_cons_2 _ _ _ (json_rect' x) (go l) end) l)
  | JObj l => Hobj l ((fix go l : Forall (λ p, P p.2) l :=
      match l with [] => Forall_nil_2 _ | x :: l => Forall_cons_2 _ _ _ (json_rect' x.2) (go l) end) l)
  end.
End json_ind.

#[export] Instance json_eq_dec : EqDecision json.
Proof.
  refine (fix go (a b : json) : Decision (a = b) :=
    let list_dec : EqDecision (list json) := @list_eq_dec _ go in
    let pair_dec : EqDecision (string * json) := @prod_eq_dec _ _ _ go in
    let obj_dec : EqDecision (list (string * json)) := @list_eq_dec _ pair_dec in
    match a, b with
    | JNull, JNull => left eq_refl
    | JBool x, JBool y => cast_if (decide (x = y))
    | JInt x, JInt y => cast_if (decide (x = y))
    | JFloat x, JFloat y => cast_if (decide (x = y))
    | JStr x, JStr y => cast_if (decide (x = y))
    | JList x, JList y => cast_if (list_dec x y)
    | JObj x, JObj y => cast_if (obj_dec x y)
    | _, _ => right _
    end); clear list_dec pair_dec obj_dec go; congruence.
Defined.

(** ** [json.dumps] *)

Definition hex_digit (n : N) : Ascii.ascii := Ascii.ascii_of_N (if (n <? 10)%N then 48 + n else 87 + n)%N.

(** [ESCAPE_DCT], and [\u00XX] for what is not printable ASCII. *)
Definition escape (a : Ascii.ascii) : string :=
  let n := Ascii.N_of_ascii a in
  if (n =? 34)%N then "\" +:+ String a EmptyString else
  if (n =? 92)%N then "\\" else
  if (n =? 10)%N then "\n" else
  if (n =? 13)%N then "\r" else
  if (n =? 9)%N then "\t" else
  if (n =? 12)%N then "\f" else
  if (n =? 8)%N then "\b" else
  if ((32 <=? n) && (n <=? 126))%N then String a EmptyString else
  "\u00" +:+ String (hex_digit (n / 16)) (String (hex_digit (n mod 16)) EmptyString).

Definition quote : Ascii.ascii := Ascii.ascii_of_N 34.

Fixpoint escaped (s : string) : string :=
  match s with EmptyString => "" | String a s => escape a +:+ escaped s end.

Definition dump_str (s : string) : string := String quote (escaped s +:+ String quote EmptyString).

Definition dump_int (z : Z) : string := NilZero.string_of_int (Z.to_int z).

(** [sep.join(xs)] *)
Fixpoint join (sep : string) (xs : list string) : string :=
  match xs with
  | [] => ""
  | [x] => x
  | x :: xs => x +:+ sep +:+ join sep xs
  end.

Fixpoint dumps (j : json) : string :=
  match j with
  | JNull => "null"
  | JBool true => "true"
  | JBool false => "false"
  | JInt z => dump_int z
  | JFloat r => r
  | JStr s => dump_str s
  | JList l => "[" +:+ join ", " (dumps <$> l) +:+ "]"
  | JObj l => "{" +:+ join ", " ((λ p, dump_str p.1 +:+ ": " +:+ dumps p.2) <$> l) +:+ "}"
  end.

(** [json.dumps(j, sort_keys=True)]: the items of every object by key. *)
Definition key_le {A} (a b : string * A) : Prop := str_le a.1 b.1.
#[export] Instance key_le_dec {A} (a b : string * A) : Decision (key_le a b).
Proof. unfold key_le. apply _. Defined.

Fixpoint sort_keys (j : json) : json :=
  match j with
  | JList l => JList (sort_keys <$> l)
  | JObj l => JObj (merge_sort key_le ((λ p, (p.1, sort_keys p.2)) <$> l))
  | _ => j
  end.

Definition dumps_sorted (j : json) : string := dumps (sort_keys j).

(** ** [json.loads] *)

Definition is_ws (a : Ascii.ascii) : bool :=
  let n := Ascii.N_of_ascii a in ((n =? 32) || (n =? 9) || (n =? 10) || (n =? 13))%N.

Fixpoint skip_ws (s : string) : string :=
  match s with
  | String a s' => if is_ws a then skip_ws s' else s
  | EmptyString => ""
  end.

Definition hex_value (a : Ascii.ascii) : option N :=
  let n := Ascii.N_of_ascii a in
  if ((48 <=? n) && (n <=? 57))%N then Some (n - 48)%N else
  if ((97 <=? n) && (n <=? 102))%N then Some (n - 87)%N else
  if ((65 <=? n) && (n <=? 70))%N then Some (n - 55)%N else None.

Definition unescape (a : Ascii.ascii) : option Ascii.ascii :=
  let n := Ascii.N_of_ascii a in
  if ((n =? 34) || (n =? 92) || (n =? 47))%N then Some a else
  if (n =? 110)%N then Some (Ascii.ascii_of_N 10) else
  if (n =? 114)%N then Some (Ascii.ascii_of_N 13) else
  if (n =? 116)%N then Some (Ascii.ascii_of_N 9) else
  if (n =? 102)%N then Some (Ascii.ascii_of_N 12) else
  if (n =? 98)%N then Some (Ascii.ascii_of_N 8) else None.

(** The rest of a string, after its opening quote. *)
Fixpoint load_str (s : string) : option (string * string) :=
  match s with
  | EmptyString => None
  | String a s =>
      let n := Ascii.N_of_ascii a in
      if (n =? 34)%N then Some ("", s) else
      if (n =? 92)%N then
        match s with
        | String "u"%char (String "0"%char (String "0"%char (String h (String l s)))) =>
            match hex_value h, hex_value l, load_str s with
            | Some h, Some l, Some (t, rest) => Some (String (Ascii.ascii_of_N (16 * h + l)) t, rest)
            | _, _, _ => None
            end
        | String e s =>
            match unescape e, load_str s with
            | Some c, Some (t, rest) => Some (String c t, rest)
            | _, _ => None
            end
        | EmptyString => None
        end
      else if (n <? 32)%N then None else
        match load_str s with Some (t, rest) => Some (String a t, rest) | None => None end
  end.

Definition is_digit (a : Ascii.ascii) : bool :=
  let n := Ascii.N_of_ascii a in ((48 <=? n) && (n <=? 57))%N.

(** The characters a number can have. *)
Definition in_number (a : Ascii.ascii) : bool :=
  is_digit a || bool_decide (a ∈ ["-"; "+"; "."; "e"; "E"]%char).

Fixpoint span (P : Ascii.ascii → bool) (s : string) : string * string :=
  match s with
  | String a s' => if P a then let '(t, rest) := span P s' in (String a t, rest) else ("", s)
  | EmptyString => ("", "")
  end.

Definition drop_digits (s : string) : option string :=
  match span is_digit s with (EmptyString, _) => None | (_, rest) => Some rest end.

(** A number with a fraction, an exponent or both, no leading zeros. *)
Definition drop_exponent (s : string) : option string :=
  match s with
  | String ("e"|"E")%char s =>
      match s with String ("+"|"-")%char s => drop_digits s | _ => drop_digits s end
  | _ => None
  end.

Definition unsigned (s : string) : string :=
  match s with String "-"%char s => s | _ => s end.

Definition is_float (s : string) : bool :=
  match span is_digit (unsigned s) with
  | (EmptyString, _) => false
  | (String "0"%char (String _ _), _) => false
  | (_, String "."%char rest) =>
      match drop_digits rest with
      | Some "" => true
      | Some rest => bool_decide (drop_exponent rest = Some "")
      | None => false
      end
  | (_, rest) => bool_decide (drop_exponent rest = Some "")
  end.

Definition load_number (t : string) : option json :=
  if is_float t then Some (JFloat t) else
  match NilZero.int_of_string t with
  | Some i =>
      if bool_decide (t = dump_int (Z.of_int i)) || bool_decide (t = "-0") then Some (JInt (Z.of_int i)) else None
  | None => None
  end.

Definition literals : list (string * json) :=
  [("null", JNull); ("true", JBool true); ("false", JBool false);
   ("NaN", JFloat "NaN"); ("Infinity", JFloat "Infinity"); ("-Infinity", JFloat "-Infinity")].

Fixpoint strip_prefix (p s : string) : option string :=
  match p, s with
  | EmptyString, _ => Some s
  | String a p, String b s => if Ascii.eqb a b then strip_prefix p s else None
  | _, EmptyString => None
  end.

Fixpoint load_literal (ls : list (string * json)) (s : string) : option (json * string) :=
  match ls with
  | [] => None
  | (p, j) :: ls => match strip_prefix p s with Some rest => Some (j, rest) | None => load_literal ls s end
  end.

(** The parser, with fuel: a value, the items of a list, the items of an object. *)
Fixpoint load_value (n : nat) (s : string) : option (json * string) :=
  match n with
  | O => None
  | S n =>
      match s with
      | String "["%char s =>
          match skip_ws s with
          | String "]"%char rest => Some (JList [], rest)
          | s => match load_items n s with Some (l, rest) => Some (JList l, rest) | None => None end
          end
      | String "{"%char s =>
          match skip_ws s with
          | String "}"%char rest => Some (JObj [], rest)
          | s => match load_pairs n s [] with Some (l, rest) => Some (JObj l, rest) | None => None end
          end
      | String a s' =>
          if Ascii.eqb a quote then
            match load_str s' with Some (t, rest) => Some (JStr t, rest) | None => None end
          else match load_literal literals s with
          | Some r => Some r
          | None => let '(t, rest) := span in_number s in
              match load_number t with Some j => Some (j, rest) | None => None end
          end
      | EmptyString => None
      end
  end
with load_items (n : nat) (s : string) : option (list json * string) :=
  match n with
  | O => None
  | S n =>
      match load_value n s with
      | Some (j, rest) =>
          match skip_ws rest with
          | String "]"%char rest => Some ([j], rest)
          | String ","%char rest =>
              match load_items n (skip_ws rest) with Some (l, rest) => Some (j :: l, rest) | None => None end
          | _ => None
          end
      | None => None
      end
  end
with load_pairs (n : nat) (s : string) (acc : list (string * json)) : option (list (string * json) * string) :=
  match n with
  | O => None
  | S n =>
      match s with
      | String a s =>
          if negb (Ascii.eqb a quote) then None else
          match load_str s with
          | Some (k, rest) =>
              match skip_ws rest with
              | String ":"%char rest =>
                  match load_value n (skip_ws rest) with
                  | Some (j, rest) =>
                      match skip_ws rest with
                      | String "}"%char rest => Some (dict_set k j acc, rest)
                      | String ","%char rest => load_pairs n (skip_ws rest) (dict_set k j acc)
                      | _ => None
                      end
                  | None => None
                  end
              | _ => None
              end
          | None => None
          end
      | EmptyString => None
      end
  end.

Definition loads (s : string) : option json :=
  match load_value (2 * String.length s + 2) (skip_ws s) with
  | Some (j, rest) => if bool_decide (skip_ws rest = "") then Some j else None
  | None => None
  end.

(** ** The round trip *)

Fixpoint wf_json (j : json) : Prop :=
  match j with
  | JFloat r => is_float r = true ∨ r ∈ ["NaN"; "Infinity"; "-Infinity"]
  | JList l => (fix go l := match l with [] => True | x :: l => wf_json x ∧ go l end) l
  | JObj l => NoDup l.*1 ∧ (fix go l := match l with [] => True | (_, x) :: l => wf_json x ∧ go l end) l
  | _ => True
  end.

Lemma wf_list l : wf_json (JList l) ↔ Forall wf_json l.
Proof.
  simpl. induction l as [|x l IH]; [by split; [constructor|]|]. rewrite IH. by rewrite Forall_cons.
Qed.

Lemma wf_obj l : wf_json (JObj l) ↔ NoDup l.*1 ∧ Forall (λ p, wf_json p.2) l.
Proof.
  simpl. assert (∀ P Q R : Prop, (Q ↔ R) → (P ∧ Q ↔ P ∧ R)) as H by tauto. apply H.
  clear H. induction l as [|[k x] l IH]; [by split; [constructor|]|]. rewrite IH. by rewrite Forall_cons.
Qed.

Lemma load_str_escape a t :
  load_str (escape a +:+ t) =
    match load_str t with Some (u, rest) => Some (String a u, rest) | None => None end.
Proof. destruct a as [[] [] [] [] [] [] [] []]; reflexivity. Qed.

Lemma load_str_escaped s rest : load_str (escaped s +:+ String quote rest) = Some (s, rest).
Proof. induction s as [|a s IH]; [done|]. simpl. by rewrite str_app_assoc, load_str_escape, IH. Qed.

Definition no_number (s : string) : Prop :=
  match s with String a _ => in_number a = false | EmptyString => True end.

Lemma span_stop P t rest :
  (∀ a, a ∈ String.list_ascii_of_string t → P a = true) →
  match rest with String a _ => P a = false | EmptyString => True end →
  span P (t +:+ rest) = (t, rest).
Proof.
  induction t as [|a t IH]; intros Ht Hr; simpl.
  - destruct rest as [|a rest]; simpl; [done|]. by rewrite Hr.
  - rewrite Ht by left. rewrite IH; [done| |done]. intros b Hb. apply Ht. by right.
Qed.

Definition starts_number (s : string) : Prop :=
  match unsigned s with String a _ => is_digit a = true | EmptyString => False end.

Lemma number_dispatch n t rest :
  starts_number t →
  load_value (S n) (t +:+ rest) =
    let '(t, rest) := span in_number (t +:+ rest) in
    match load_number t with Some j => Some (j, rest) | None => None end.
Proof.
  unfold starts_number. intros Ht. destruct t as [|a t]; [done|].
  destruct a as [[] [] [] [] [] [] [] []]; try discriminate Ht; try reflexivity.
  destruct t as [|a t]; [done|].
  destruct a as [[] [] [] [] [] [] [] []]; try discriminate Ht; reflexivity.
Qed.

Lemma uint_digits d : ∀ a, a ∈ String.list_ascii_of_string (NilEmpty.string_of_uint d) → is_digit a = true.
Proof.
  induction d; intros a Ha; simpl in Ha; try (by apply not_elem_of_nil in Ha);
    (apply elem_of_cons in Ha as [->|Ha]; [done|by apply IHd]).
Qed.

Lemma dump_uint d : ∀ a, a ∈ String.list_ascii_of_string (NilZero.string_of_uint d) → is_digit a = true.
Proof.
  destruct d; [|apply uint_digits..]. intros a Ha. simpl in Ha.
  apply elem_of_cons in Ha as [->|Ha]; [done|by apply not_elem_of_nil in Ha].
Qed.

Lemma string_of_uint_cons d : ∃ a t, NilZero.string_of_uint d = String a t ∧ is_digit a = true.
Proof. destruct d; simpl; eauto. Qed.

Lemma dump_int_in_number z a : a ∈ String.list_ascii_of_string (dump_int z) → in_number a = true.
Proof.
  unfold dump_int, in_number. destruct (Z.to_int z) as [d|d]; simpl; intros Ha.
  - by rewrite (dump_uint d).
  - apply elem_of_cons in Ha as [->|Ha]; [done|]. by rewrite (dump_uint d).
Qed.

Lemma dump_int_starts z : starts_number (dump_int z).
Proof.
  unfold dump_int, starts_number. destruct (Z.to_int z) as [d|d]; simpl;
    destruct (string_of_uint_cons d) as (a & t & -> & Ha); simpl; [|done].
  destruct a as [[] [] [] [] [] [] [] []]; try discriminate Ha; done.
Qed.

Lemma to_int_nonnil z : Z.to_int z ≠ Pos Nil ∧ Z.to_int z ≠ Neg Nil.
Proof.
  destruct z as [|p|p]; split; simpl; try done; intros [= H]; by apply DecimalPos.Unsigned.to_uint_nonnil in H.
Qed.

Lemma digits_not_float s : (∀ a, a ∈ String.list_ascii_of_string (unsigned s) → is_digit a = true) → is_float s = false.
Proof.
  intros Hd. unfold is_float. rewrite <-(str_app_nil (unsigned s)), (span_stop is_digit _ ""); [|done|done].
  destruct (unsigned s) as [|a t]; [done|]. destruct t; destruct a as [[] [] [] [] [] [] [] []]; reflexivity.
Qed.

Lemma load_dump_int z : load_number (dump_int z) = Some (JInt z).
Proof.
  unfold load_number. rewrite digits_not_float.
  - unfold dump_int. destruct (to_int_nonnil z). rewrite NilZero.isi by done. rewrite DecimalZ.of_to.
    by rewrite bool_decide_eq_true_2.
  - unfold dump_int. destruct (Z.to_int z) as [d|d]; simpl; [|apply dump_uint].
    destruct (string_of_uint_cons d) as (a & t & E & Ha). pose proof (dump_uint d) as Hd. rewrite E in Hd |- *.
    destruct a as [[] [] [] [] [] [] [] []]; try discriminate Ha; exact Hd.
Qed.

Lemma float_starts r : is_float r = true → starts_number r.
Proof.
  unfold is_float, starts_number. destruct (unsigned r) as [|a s]; simpl; [done|].
  by destruct (is_digit a).
Qed.

Lemma span_in P s t rest : span P s = (t, rest) → s = t +:+ rest ∧ ∀ a, a ∈ String.list_ascii_of_string t → P a = true.
Proof.
  revert t rest. induction s as [|a s IH]; intros t rest; simpl.
  - intros [= <- <-]. split; [done|]. intros a Ha. by apply not_elem_of_nil in Ha.
  - destruct (P a) eqn:E.
    + destruct (span P s) as [u v]. intros [= <- <-]. destruct (IH u v eq_refl) as [-> Hu]. split; [done|].
      intros b Hb. simpl in Hb. apply elem_of_cons in Hb as [->|Hb]; [done|by apply Hu].
    + intros [= <- <-]. split; [done|]. intros b Hb. by apply not_elem_of_nil in Hb.
Qed.

(** Every character of [s] can be in a number. *)
Definition numeric_text (s : string) : Prop := ∀ a, a ∈ String.list_ascii_of_string s → in_number a = true.

Lemma numeric_nil : numeric_text "".
Proof. intros a Ha. by apply not_elem_of_nil in Ha. Qed.
Lemma numeric_cons a s : in_number a = true → numeric_text s → numeric_text (String a s).
Proof. intros Ha Hs b Hb. simpl in Hb. apply elem_of_cons in Hb as [->|Hb]; [done|by apply Hs]. Qed.
Lemma numeric_app s t : numeric_text s → numeric_text t → numeric_text (s +:+ t).
Proof.
  intros Hs Ht. induction s as [|a s IH]; [done|].
  apply (numeric_cons a (s +:+ t)); [apply Hs; left|apply IH; intros b Hb; apply Hs; by right].
Qed.
Lemma numeric_digits s : (∀ a, a ∈ String.list_ascii_of_string s → is_digit a = true) → numeric_text s.
Proof. intros Hs a Ha. unfold in_number. by rewrite Hs. Qed.

Lemma drop_digits_numeric s rest : drop_digits s = Some rest → numeric_text rest → numeric_text s.
Proof.
  unfold drop_digits. destruct (span is_digit s) as [t u] eqn:E. apply span_in in E as [-> Ht].
  destruct t; [done|]. intros [= ->] Hr. apply numeric_app; [by apply numeric_digits|done].
Qed.

Lemma drop_exponent_numeric s : drop_exponent s = Some "" → numeric_text s.
Proof.
  destruct s as [|a s]; [done|]. intros H.
  destruct a as [[] [] [] [] [] [] [] []]; try discriminate H; (apply numeric_cons; [done|]);
    (destruct s as [|b s]; [done|]);
    (destruct b as [[] [] [] [] [] [] [] []]; simpl in H; try (by apply drop_digits_numeric in H; [|apply numeric_nil]);
      (apply numeric_cons; [done|]); by apply drop_digits_numeric in H; [|apply numeric_nil]).
Qed.

Lemma float_numeric s : is_float s = true → numeric_text s.
Proof.
  intros Hf. assert (Hu : numeric_text (unsigned s)).
  { unfold is_float in Hf. destruct (span is_digit (unsigned s)) as [t rest] eqn:E.
    apply span_in in E as [-> Ht]. apply numeric_app; [by apply numeric_digits|].
    assert (Hr : match rest with
      | String "."%char rest => match drop_digits rest with
          Some "" => true | Some rest => bool_decide (drop_exponent rest = Some "") | None => false end
      | _ => bool_decide (drop_exponent rest = Some "") end = true).
    { destruct t as [|a t]; [done|]. destruct t as [|b t]; [|];
        destruct a as [[] [] [] [] [] [] [] []]; try exact Hf; discriminate Hf. }
    clear Hf. assert (Hexp : bool_decide (drop_exponent rest = Some "") = true → numeric_text rest).
    { intros Hb. apply bool_decide_eq_true in Hb. by apply drop_exponent_numeric. }
    destruct rest as [|a rest]; [by apply Hexp|].
    destruct a as [[] [] [] [] [] [] [] []]; try (by apply Hexp). clear Hexp.
    apply numeric_cons; [done|]. destruct (drop_digits rest) as [r|] eqn:E; [|done].
    apply (drop_digits_numeric _ r); [done|]. destruct r as [|b r]; [apply numeric_nil|].
    apply bool_decide_eq_true in Hr. by apply drop_exponent_numeric. }
  destruct s as [|a s]; [done|]. destruct a as [[] [] [] [] [] [] [] []]; try exact Hu.
  apply numeric_cons; done.
Qed.

Lemma load_float r rest n :
  is_float r = true → no_number rest → load_value (S n) (r +:+ rest) = Some (JFloat r, rest).
Proof.
  intros Hf Hr. rewrite number_dispatch by by apply float_starts. rewrite span_stop; [|by apply float_numeric|done].
  unfold load_number. by rewrite Hf.
Qed.

Lemma load_int z rest n : no_number rest → load_value (S n) (dump_int z +:+ rest) = Some (JInt z, rest).
Proof.
  intros Hr. rewrite number_dispatch by apply dump_int_starts.
  rewrite span_stop; [|apply dump_int_in_number|done]. by rewrite load_dump_int.
Qed.

(** What a value starts with: nothing to skip, and no closing bracket. *)
Definition starts_value (s : string) : Prop :=
  match s with String a _ => is_ws a = false ∧ a ≠ "]"%char ∧ a ≠ "}"%char | EmptyString => False end.

Lemma starts_number_value s t : starts_number s → starts_value (s +:+ t).
Proof.
  unfold starts_number. destruct s as [|a s]; [done|].
  destruct a as [[] [] [] [] [] [] [] []]; try done; intros _; split_and!; done.
Qed.

Lemma dumps_starts j t : wf_json j → starts_value (dumps j +:+ t).
Proof.
  destruct j as [|[]|z|r|s|l|l]; simpl; intros Hw; try by split_and!.
  - apply starts_number_value, dump_int_starts.
  - destruct Hw as [Hf|Hw]; [by apply starts_number_value, float_starts|].
    repeat (apply elem_of_cons in Hw as [->|Hw]; [by split_and!|]). by apply not_elem_of_nil in Hw.
Qed.

Lemma skip_ws_value s : starts_value s → skip_ws s = s.
Proof. destruct s as [|a s]; [done|]. intros [Ha _]. simpl. by rewrite Ha. Qed.

Lemma skip_ws_comma s : starts_value s → skip_ws (String " "%char s) = s.
Proof. intros Hs. simpl. by apply skip_ws_value. Qed.

Lemma load_list_step n s :
  starts_value s →
  load_value (S n) (String "["%char s) =
    match load_items n s with Some (l, rest) => Some (JList l, rest) | None => None end.
Proof.
  intros Hs. pose proof (skip_ws_value s Hs) as Hk. simpl. rewrite Hk.
  destruct s as [|a s]; [done|]. destruct Hs as (_ & Ha & _).
  destruct a as [[] [] [] [] [] [] [] []]; done.
Qed.

Lemma load_obj_step n s :
  load_value (S n) (String "{"%char (String quote s)) =
    match load_pairs n (String quote s) [] with Some (l, rest) => Some (JObj l, rest) | None => None end.
Proof. reflexivity. Qed.

Definition loaded (j : json) : Prop := ∀ n rest,
  (String.length (dumps j) < n)%nat → no_number rest → load_value n (dumps j +:+ rest) = Some (j, rest).

Lemma dumps_length j : wf_json j → (0 < String.length (dumps j))%nat.
Proof.
  intros Hw. pose proof (dumps_starts j "" Hw) as Hs. rewrite str_app_nil in Hs.
  destruct (dumps j); [done|]. simpl. lia.
Qed.

Lemma items_loaded l : Forall (λ j, wf_json j ∧ loaded j) l → l ≠ [] → ∀ n rest,
  (String.length (join ", " (dumps <$> l)) + 1 < n)%nat →
  load_items n (join ", " (dumps <$> l) +:+ String "]"%char rest) = Some (l, rest).
Proof.
  induction 1 as [|x l [Hw Hx] Hl IH]; [done|]. intros _ n rest Hn.
  destruct n as [|n]; [lia|]. destruct l as [|y l].
  - cbn [fmap list_fmap join] in Hn |- *. cbn [load_items].
    rewrite Hx; [reflexivity|lia|reflexivity].
  - set (m := join ", " (dumps <$> (y :: l))) in *.
    change (join ", " (dumps <$> (x :: y :: l))) with (dumps x +:+ String "," (String " " m)) in Hn |- *.
    rewrite !str_length_app in Hn. cbn [String.length] in Hn. pose proof (dumps_length x Hw).
    rewrite str_app_assoc. cbn [load_items]. rewrite Hx; [|lia|reflexivity].
    assert (Hs : starts_value (m +:+ String "]" rest)).
    { apply Forall_cons in Hl as [[Hwy _] _]. unfold m. destruct l as [|z l]; [by apply dumps_starts|].
      change (join ", " (dumps <$> (y :: z :: l))) with (dumps y +:+ (", " +:+ join ", " (dumps <$> (z :: l)))).
      rewrite str_app_assoc. by apply dumps_starts. }
    change (skip_ws (String "," (String " " m) +:+ String "]" rest)) with (String "," (String " " (m +:+ String "]" rest))).
    cbv iota. rewrite skip_ws_comma by done. rewrite IH; [done|done|]. lia.
Qed.

Definition dump_item (p : string * json) : string := dump_str p.1 +:+ ": " +:+ dumps p.2.

Lemma pairs_loaded l : Forall (λ p, wf_json p.2 ∧ loaded p.2) l → l ≠ [] → ∀ n rest acc,
  (String.length (join ", " (dump_item <$> l)) + 1 < n)%nat → NoDup (acc ++ l).*1 →
  load_pairs n (join ", " (dump_item <$> l) +:+ String "}"%char rest) acc = Some (acc ++ l, rest).
Proof.
  induction 1 as [|[k x] l [Hw Hx] Hl IH]; [done|]. intros _ n rest acc Hn Hnd. simpl in Hw, Hx.
  destruct n as [|n]; [lia|].
  assert (Hk : dict_set k x acc = acc ++ [(k, x)]).
  { apply dict_set_fresh. intros Hin. rewrite fmap_app in Hnd. apply NoDup_app in Hnd as (_ & Hnd & _).
    apply (Hnd k Hin). left. }
  assert (Hhead : ∀ t, dump_item (k, x) +:+ t =
    String quote (escaped k +:+ String quote (String ":" (String " " (dumps x +:+ t))))).
  { intros t. unfold dump_item, dump_str. cbn [fst snd]. rewrite !str_app_assoc. f_equal.
    change (String quote (escaped k +:+ String quote "") +:+ (": " +:+ (dumps x +:+ t)))
      with (String quote ((escaped k +:+ String quote "") +:+ (": " +:+ (dumps x +:+ t)))). f_equal.
    by rewrite str_app_assoc. }
  assert (Hlen : (String.length (dumps x) + 4 ≤ String.length (dump_item (k, x)))%nat).
  { pose proof (f_equal String.length (Hhead "")) as E. rewrite str_app_nil in E. rewrite E. cbn [String.length].
    rewrite str_length_app. cbn [String.length]. rewrite str_length_app. lia. }
  destruct l as [|y l].
  - cbn [fmap list_fmap join] in Hn |- *. rewrite Hhead. cbn [load_pairs].
    change (negb (Ascii.eqb quote quote)) with false. cbv iota. rewrite load_str_escaped.
    match goal with |- context [skip_ws (String ":" ?s)] => change (skip_ws (String ":" s)) with (String ":" s) end.
    cbv iota. rewrite skip_ws_comma by by apply dumps_starts. rewrite Hx; [|lia|reflexivity].
    rewrite <-Hk. reflexivity.
  - set (m := join ", " (dump_item <$> (y :: l))) in *.
    change (join ", " (dump_item <$> ((k, x) :: y :: l))) with (dump_item (k, x) +:+ String "," (String " " m)) in Hn |- *.
    rewrite str_length_app in Hn. cbn [String.length] in Hn.
    rewrite str_app_assoc, Hhead. cbn [load_pairs].
    change (negb (Ascii.eqb quote quote)) with false. cbv iota. rewrite load_str_escaped.
    match goal with |- context [skip_ws (String ":" ?s)] => change (skip_ws (String ":" s)) with (String ":" s) end.
    cbv iota. rewrite skip_ws_comma by by apply dumps_starts. rewrite Hx; [|lia|reflexivity].
    assert (Hs : starts_value (m +:+ String "}" rest)).
    { unfold m. destruct l as [|z l]; [by split_and!|]. by split_and!. }
    change (skip_ws (String "," (String " " m) +:+ String "}" rest)) with (String "," (String " " (m +:+ String "}" rest))).
    cbv iota. rewrite skip_ws_comma, Hk by done. rewrite IH; [by rewrite <-app_assoc|done|lia|by rewrite <-app_assoc].
Qed.

Lemma load_dumps j : wf_json j → loaded j.
Proof.
  induction j as [|b|z|r|s|l IH|l IH] using json_rect'; intros Hw n rest Hn Hr; (destruct n as [|n]; [lia|]).
  - reflexivity.
  - by destruct b.
  - by apply load_int.
  - destruct Hw as [Hf|Hw]; [by apply load_float|].
    repeat (apply elem_of_cons in Hw as [->|Hw]; [reflexivity|]). by apply not_elem_of_nil in Hw.
  - cbn [dumps]. unfold dump_str.
    change (String quote (escaped s +:+ String quote "") +:+ rest) with (String quote ((escaped s +:+ String quote "") +:+ rest)).
    rewrite str_app_assoc.
    change (String quote "" +:+ rest) with (String quote rest).
    match goal with |- load_value _ (String quote ?t) = _ =>
      change (load_value (S n) (String quote t)) with (match load_str t with Some (u, r) => Some (JStr u, r) | None => None end) end.
    by rewrite load_str_escaped.
  - apply wf_list in Hw. destruct l as [|x l]; [reflexivity|].
    change (dumps (JList (x :: l))) with (String "[" (join ", " (dumps <$> (x :: l)) +:+ "]")) in Hn |- *.
    cbn [String.length] in Hn. rewrite str_length_app in Hn. cbn [String.length] in Hn.
    assert (Hall : Forall (λ j, wf_json j ∧ loaded j) (x :: l)).
    { rewrite Forall_forall in IH, Hw |- *. intros j Hj. split; [by apply Hw|]. by apply IH, Hw. }
    set (m := join ", " (dumps <$> (x :: l))) in *.
    change (String "[" (m +:+ "]") +:+ rest) with (String "[" ((m +:+ "]") +:+ rest)). rewrite str_app_assoc.
    change ("]" +:+ rest) with (String "]" rest). rewrite load_list_step.
    + unfold m in Hn |- *. rewrite items_loaded; [done|done|done|lia].
    + apply Forall_cons in Hw as [Hwx _]. unfold m. destruct l as [|z l]; [by apply dumps_starts|].
      change (join ", " (dumps <$> (x :: z :: l))) with (dumps x +:+ (", " +:+ join ", " (dumps <$> (z :: l)))).
      rewrite str_app_assoc. by apply dumps_starts.
  - apply wf_obj in Hw as [Hnd Hw]. destruct l as [|[k x] l]; [reflexivity|].
    change (dumps (JObj ((k, x) :: l))) with (String "{" (join ", " (dump_item <$> ((k, x) :: l)) +:+ "}")) in Hn |- *.
    cbn [String.length] in Hn. rewrite str_length_app in Hn. cbn [String.length] in Hn.
    assert (Hall : Forall (λ p, wf_json p.2 ∧ loaded p.2) ((k, x) :: l)).
    { rewrite Forall_forall in IH, Hw |- *. intros p Hp. split; [by apply Hw|]. by apply IH, Hw. }
    set (m := join ", " (dump_item <$> ((k, x) :: l))) in *.
    change (String "{" (m +:+ "}") +:+ rest) with (String "{" ((m +:+ "}") +:+ rest)). rewrite str_app_assoc.
    change ("}" +:+ rest) with (String "}" rest).
    assert (∃ t, m +:+ String "}" rest = String quote t) as [t Ht].
    { unfold m. destruct l as [|z l]; eexists; reflexivity. }
    rewrite Ht, load_obj_step, <-Ht. unfold m in Hn |- *. by rewrite pairs_loaded by (done || lia).
Qed.

(** What is dumped loads back. *)
Lemma loads_dumps j : wf_json j → loads (dumps j) = Some j.
Proof.
  intros Hw. unfold loads. pose proof (dumps_starts j "" Hw) as Hs. rewrite str_app_nil in Hs.
  rewrite skip_ws_value by done. rewrite <-(str_app_nil (dumps j)) at 2.
  rewrite load_dumps; [reflexivity|done|lia|done].
Qed.
