(* ===== verification/Text.v ===== *)
(** Python's operations on text that the agent graph uses, and the word and sentence
    scanners its regular expressions stand for. *)
From Stdlib Require Import Ascii.
From S2P Require Import Prelude Json.

Local Open Scope string_scope.
Local Open Scope list_scope.

(** [s.startswith(p)], [p in s], [s[:n]], [s[n:]] *)
Definition startswith (s p : string) : bool := String.prefix p s.

Fixpoint contains (s p : string) : bool :=
  startswith s p || match s with EmptyString => false | String _ s => contains s p end.

Fixpoint take_str (n : nat) (s : string) : string :=
  match n, s with S n, String a s => String a (take_str n s) | _, _ => "" end.
Fixpoint drop_str (n : nat) (s : string) : string :=
  match n, s with S n, String _ s => drop_str n s | _, _ => s end.

(** [s.find(p)]: the first position [p] is at. *)
Fixpoint find_str (s p : string) : option nat :=
  if startswith s p then Some O else
  match s with EmptyString => None | String _ s => S <$> find_str s p end.

(** [s.find(p, n)] *)
Definition find_from (s p : string) (n : nat) : option nat := Nat.add n <$> find_str (drop_str n s) p.

(** [c.lower()], for characters below 256. *)
Definition lower_char (a : ascii) : ascii :=
  let n := N_of_ascii a in
  if ((65 <=? n) && (n <=? 90) || (192 <=? n) && (n <=? 222) && negb (n =? 215))%N then ascii_of_N (n + 32) else a.

Fixpoint lower (s : string) : string :=
  match s with EmptyString => "" | String a s => String (lower_char a) (lower s) end.

(** [s.lstrip()], [s.rstrip()], [s.strip()] *)
Fixpoint lstrip (s : string) : string :=
  match s with String a s' => if py_isspace a then lstrip s' else s | EmptyString => "" end.
Fixpoint rstrip (s : string) : string :=
  match s with
  | EmptyString => ""
  | String a s => let t := rstrip s in if py_isspace a && bool_decide (t = "") then "" else String a t
  end.
Definition strip (s : string) : string := rstrip (lstrip s).

(** ** Words *)

(** [[a-z0-9]] *)
Definition is_word_char (a : ascii) : bool :=
  let n := N_of_ascii a in ((97 <=? n) && (n <=? 122) || (48 <=? n) && (n <=? 57))%N.

(** [re.compile(r"[a-z0-9]+").findall(s)] *)
Fixpoint words_go (s : string) (word : string) : list string :=
  match s with
  | EmptyString => if bool_decide (word = "") then [] else [word]
  | String a s =>
      if is_word_char a then words_go s (word +:+ String a "")
      else (if bool_decide (word = "") then [] else [word]) ++ words_go s ""
  end.
Definition find_words (s : string) : list string := words_go s "".

(** [s.split(" ")] without empty parts: [s.split()] of a text with plain blanks. *)
Fixpoint split_go (s : string) (word : string) : list string :=
  match s with
  | EmptyString => if bool_decide (word = "") then [] else [word]
  | String a s =>
      if py_isspace a then (if bool_decide (word = "") then [] else [word]) ++ split_go s ""
      else split_go s (word +:+ String a "")
  end.
Definition split (s : string) : list string := split_go s "".

(** ** Numbers in brackets *)

Definition open_bracket : ascii := "["%char.
Definition close_bracket : ascii := "]"%char.

(** [int(digits)] *)
Fixpoint int_of_digits (s : string) (acc : Z) : Z :=
  match s with
  | EmptyString => acc
  | String a s => int_of_digits s (10 * acc + (Z.of_N (N_of_ascii a) - 48))%Z
  end.

(** [\[(\d+)\]] at the start of [s]: the digits and what follows. *)
Definition bracket_number (s : string) : option (string * string) :=
  match s with
  | String "["%char s =>
      match Json.span is_digit s with
      | (EmptyString, _) => None
      | (digits, String "]"%char rest) => Some (digits, rest)
      | _ => None
      end
  | _ => None
  end.

(** [re.compile(r"\[(\d+)\]").findall(s)]: matches cannot overlap, because a match has
    one opening bracket. *)
Fixpoint find_markers (s : string) : list string :=
  match s with
  | EmptyString => []
  | String _ s' =>
      match bracket_number s with Some (digits, _) => [digits] | None => [] end ++ find_markers s'
  end.

(** ** Sentences *)

(** [[ \t]*] *)
Fixpoint skip_blanks (s : string) : string :=
  match s with
  | String a s' => if bool_decide (a = " "%char ∨ a = "009"%char) then skip_blanks s' else s
  | EmptyString => ""
  end.

(** [(?=\s|\Z)] *)
Definition at_boundary (s : string) : bool :=
  match s with EmptyString => true | String a _ => py_isspace a end.

(** What is left after [(?:[ \t]*\[\d+\])*(?=\s|\Z)]: as many markers as leave a boundary
    behind. *)
Fixpoint markers_end (n : nat) (s : string) : option string :=
  let here := if at_boundary s then Some s else None in
  match n with
  | O => here
  | S n =>
      match bracket_number (skip_blanks s) with
      | Some (_, rest) => match markers_end n rest with Some r => Some r | None => here end
      | None => here
      end
  end.

Definition is_stop (a : ascii) : bool := bool_decide (a ∈ ["."; "!"; "?"]%char).

(** What is left after [.*?(?:[.!?](?:[ \t]*\[\d+\])*(?=\s|\Z)|\Z)] at [s]. *)
Fixpoint sentence_rest (s : string) : string :=
  match s with
  | EmptyString => ""
  | String a s' =>
      match (if is_stop a then markers_end (String.length s') s' else None) with
      | Some rest => rest
      | None => sentence_rest s'
      end
  end.

(** [sentence_spans], from position [at] on. *)
Fixpoint spans_go (fuel : nat) (at_ : nat) (s : string) : list (nat * nat) :=
  match fuel with
  | O => []
  | S fuel =>
      match s with
      | EmptyString => []
      | String a s' =>
          if py_isspace a then spans_go fuel (S at_) s' else
          let rest := sentence_rest s' in
          let stop := (at_ + (String.length s - String.length rest))%nat in
          (at_, stop) :: spans_go fuel stop rest
      end
  end.

Definition sentence_spans (text : string) : list (nat * nat) := spans_go (String.length text) 0 text.

(** [text[start:end]] *)
Definition slice (text : string) (start stop : nat) : string := take_str (stop - start) (drop_str start text).

Definition split_sentences (text : string) : list string :=
  (λ '(start, stop), slice text start stop) <$> sentence_spans text.

(** ** [repr] and [str] of a JSON value *)

Definition apostrophe : ascii := "'"%char.

Definition repr_char (q : ascii) (a : ascii) : string :=
  let n := N_of_ascii a in
  if Ascii.eqb a q then "\" +:+ String a "" else
  if (n =? 92)%N then "\\" else
  if (n =? 9)%N then "\t" else
  if (n =? 10)%N then "\n" else
  if (n =? 13)%N then "\r" else
  if ((32 <=? n) && (n <=? 126) || (161 <=? n) && negb (n =? 173))%N then String a "" else
  "\x" +:+ String (hex_digit (n / 16)) (String (hex_digit (n mod 16)) "").

Fixpoint repr_chars (q : ascii) (s : string) : string :=
  match s with EmptyString => "" | String a s => repr_char q a +:+ repr_chars q s end.

(** Double quotes only around a text with an apostrophe and no double quote. *)
Definition repr_str (s : string) : string :=
  let q := if contains s (String apostrophe "") && negb (contains s (String quote "")) then quote else apostrophe in
  String q (repr_chars q s +:+ String q "").

Fixpoint py_repr (j : json) : string :=
  match j with
  | JNull => "None"
  | JBool true => "True"
  | JBool false => "False"
  | JInt z => dump_int z
  | JFloat r => r
  | JStr s => repr_str s
  | JList l => "[" +:+ join ", " (py_repr <$> l) +:+ "]"
  | JObj l => "{" +:+ join ", " ((λ p, repr_str p.1 +:+ ": " +:+ py_repr p.2) <$> l) +:+ "}"
  end.

(** [str(j)], what an f-string writes for [j] *)
Definition py_str (j : json) : string := match j with JStr s => s | _ => py_repr j end.

(** ** Pieces of a text *)

Lemma take_drop_str n s : take_str n s +:+ drop_str n s = s.
Proof. revert s. induction n as [|n IH]; intros [|a s]; try done. exact (f_equal (String a) (IH s)). Qed.

Lemma length_take_str n s : String.length (take_str n s) = Nat.min n (String.length s).
Proof. revert s. induction n as [|n IH]; intros [|a s]; cbn [take_str String.length]; [done..|]. by rewrite IH. Qed.

Lemma length_drop_str n s : String.length (drop_str n s) = (String.length s - n)%nat.
Proof. revert s. induction n as [|n IH]; intros [|a s]; cbn [drop_str String.length]; [done..|]. by rewrite IH. Qed.

Lemma drop_drop_str n m s : drop_str n (drop_str m s) = drop_str (m + n) s.
Proof. revert s. induction m as [|m IH]; intros [|a s]; try done; [by destruct n|apply IH]. Qed.

Lemma take_take_str n m s : take_str n (take_str m s) = take_str (Nat.min n m) s.
Proof. revert m s. induction n as [|n IH]; intros [|m] [|a s]; try done. exact (f_equal (String a) (IH m s)). Qed.

Lemma drop_take_str n m s : drop_str n (take_str m s) = take_str (m - n) (drop_str n s).
Proof. revert m s. induction n as [|n IH]; intros [|m] [|a s]; try done; [by cbn; destruct (m - n)%nat|]. exact (IH m s). Qed.

Lemma drop_str_app n s t : (n <= String.length s)%nat → drop_str n (s +:+ t) = drop_str n s +:+ t.
Proof. revert s. induction n as [|n IH]; intros [|a s] Hn; cbn [String.length] in Hn; [done..|lia|]. apply (IH s). lia. Qed.

Lemma take_str_all n s : (String.length s <= n)%nat → take_str n s = s.
Proof. revert s. induction n as [|n IH]; intros [|a s] Hn; cbn [String.length] in Hn; [done|lia|done|]. cbn [take_str]. by rewrite IH by lia. Qed.

Lemma drop_str_all n s : (String.length s <= n)%nat → drop_str n s = "".
Proof. revert s. induction n as [|n IH]; intros [|a s] Hn; cbn [String.length] in Hn; [done|lia|done|]. apply (IH s). lia. Qed.

Lemma join_cons s l : join "" (s :: l) = s +:+ join "" l.
Proof. destruct l; [by cbn; rewrite str_app_nil|done]. Qed.
