(* ===== verification/Messages.v ===== *)
(** The messages of a conversation and the helpers of [app/agent/graph/messages.py].

    A text with a character above U+00FF holds its UTF-8 bytes. *)
From Stdlib Require Import Ascii.
From S2P Require Import Prelude Dict Json Text.

Local Open Scope string_scope.
Local Open Scope list_scope.

(** ** Data *)

Record tool_call : Type := ToolCall { tc_name : string; tc_args : json; tc_id : string }.
#[export] Instance tool_call_eq_dec : EqDecision tool_call.
Proof. solve_decision. Defined.

(** One entry of a multimodal content list: a plain string, a [text] part, an
    [image_url] part, or a dict of another type. *)
Inductive part : Type :=
| PStr (s : string)
| PText (s : string)
| PImage (url : string)
| POther (j : json).
#[export] Instance part_eq_dec : EqDecision part.
Proof. solve_decision. Defined.

Inductive content : Type :=
| Plain (s : string)
| Parts (ps : list part).
#[export] Instance content_eq_dec : EqDecision content.
Proof. solve_decision. Defined.

Inductive message_type : Type := HumanMessage | AIMessage | ToolMessage | SystemMessage.
#[export] Instance message_type_eq_dec : EqDecision message_type.
Proof. solve_decision. Defined.

Record message : Type := Message {
  m_type : message_type;
  m_id : option string;
  m_content : content;
  m_tool_calls : list tool_call;          (* of an AIMessage *)
  m_tool_call_id : string;                (* of a ToolMessage *)
  m_name : option string;
  m_status : string;                      (* of a ToolMessage: "success" or "error" *)
  m_kwargs : list (string * json);        (* additional_kwargs *)
}.
#[export] Instance message_eq_dec : EqDecision message.
Proof. solve_decision. Defined.

(** [isinstance(m, T)] *)
Definition is_type (t : message_type) (m : message) : bool := bool_decide (m_type m = t).

Definition with_content (c : content) (m : message) : message :=
  Message (m_type m) (m_id m) c (m_tool_calls m) (m_tool_call_id m) (m_name m) (m_status m) (m_kwargs m).
Definition with_kwargs (kw : list (string * json)) (m : message) : message :=
  Message (m_type m) (m_id m) (m_content m) (m_tool_calls m) (m_tool_call_id m) (m_name m) (m_status m) kw.

(** [HumanMessage(...)], [AIMessage(...)] and [SystemMessage(...)] of a text; the reducer
    gives the id. *)
Definition said (t : message_type) (text : string) (kw : list (string * json)) : message :=
  Message t None (Plain text) [] "" None "" kw.

(** [bool(x)] of a value, or of nothing *)
Definition truthy (x : option json) : bool :=
  match x with
  | None | Some JNull | Some (JBool false) => false
  | Some (JInt z) => negb (z =? 0)%Z
  | Some (JStr s) => negb (falsy s)
  | Some (JList l) => negb (bool_decide (l = []))
  | Some (JObj l) => negb (bool_decide (l = []))
  | Some (JFloat r) => negb (bool_decide (r = "0.0" ∨ r = "-0.0"))
  | Some (JBool true) => true
  end.

Definition CANNOT_HELP_MESSAGE : string := "I can't help with that request.".
Definition GATEWAY_REFUSAL_KEY : string := "gateway_refusal".
Definition WITHHELD_MESSAGE : string := "[This message was withheld: a content policy refused it.]".
Definition RETRY_ARTIFACT_KEY : string := "retry_artifact".
Definition COMPACTION_MARKER_KEY : string := "compaction_marker".

(** ** Kinds of message *)

Definition is_compaction_marker (m : message) : bool := truthy (dict_get COMPACTION_MARKER_KEY (m_kwargs m)).
Definition is_legacy_prompt (m : message) : bool := is_type SystemMessage m && negb (is_compaction_marker m).
Definition is_retry_artifact (m : message) : bool := truthy (dict_get RETRY_ARTIFACT_KEY (m_kwargs m)).
Definition is_user_message (m : message) : bool := is_type HumanMessage m && negb (is_retry_artifact m).

Definition _LEGACY_RETRY_FEEDBACK : list (string * list string) := [
  ("That answer repeated internal system instructions.", []);
  ("That answer was too short — please give a fuller answer.", []);
  ("That answer showed a script and its output as if a real tool had run it", []);
  ("The skill you loaded said to use ", [" for this — you computed a number by hand"]);
  ("You described using a tool instead of actually calling it", []);
  ("That answer uses facts from source(s) ", [" without citing them. Do not call any tools"]);
  ("That answer cites ", [", but its content does not actually support what you wrote"])].

Definition _is_legacy_retry_feedback (text : string) : bool :=
  existsb (λ '(start, parts), startswith text start && forallb (contains text) parts) _LEGACY_RETRY_FEEDBACK.

(** The test of one pair: [feedback] right after [answer]. *)
Definition legacy_pair (answer feedback : message) : bool :=
  is_type HumanMessage feedback && negb (is_retry_artifact feedback) &&
  bool_decide (m_id feedback ≠ None) &&
  match m_content feedback with Plain s => _is_legacy_retry_feedback s | Parts _ => false end &&
  is_type AIMessage answer && bool_decide (m_tool_calls answer = []) && negb (is_retry_artifact answer).

Fixpoint legacy_retry_artifact_ids (messages : list message) : list string :=
  match messages with
  | answer :: ((feedback :: _) as rest) =>
      (if legacy_pair answer feedback then option_list (m_id feedback) ++ option_list (m_id answer) else []) ++
      legacy_retry_artifact_ids rest
  | _ => []
  end.

Definition heal_legacy_retry_artifacts (messages : list message) : list message :=
  let ids := legacy_retry_artifact_ids messages in
  (λ m, with_kwargs (dict_set RETRY_ARTIFACT_KEY (JBool true) (m_kwargs m)) m) <$>
    filter (λ m, m_id m ∈ (Some <$> ids)) messages.

(** [next((m for m in reversed(messages) if is_user_message(m)), None)] *)
Definition last_human_message (messages : list message) : option message :=
  head (filter (λ m, is_user_message m = true) (reverse messages)).

Definition nonempty (s : string) : bool := negb (falsy s).

Definition blank_line : string := String "010"%char (String "010"%char "").

Definition with_turn_notes (question : message) (before after : list string) : message :=
  let lead := join blank_line before in
  let tail := join blank_line after in
  let new_content :=
    match m_content question with
    | Plain c => Plain (join blank_line (filter (λ s, nonempty s = true) [lead; c; tail]))
    | Parts ps => Parts ((if nonempty lead then [PText lead] else []) ++ ps ++ (if nonempty tail then [PText tail] else []))
    end in
  with_content new_content question.

Definition previous_human_message (messages : list message) (before_index : nat) : option message :=
  last_human_message (take before_index messages).

(** ** Text of a message *)

Definition part_text (p : part) : string := match p with PText s => s | _ => "" end.

Definition human_text (m : option message) : string :=
  match m with
  | None => ""
  | Some m => match m_content m with Plain s => s | Parts ps => join "" (part_text <$> ps) end
  end.

Definition is_image (p : part) : bool := match p with PImage _ => true | _ => false end.

Definition human_has_content (m : option message) : bool :=
  match m with
  | None => false
  | Some m' =>
      match m_content m' with
      | Plain s => nonempty (strip s)
      | Parts ps => nonempty (strip (human_text m)) || existsb is_image ps
      end
  end.

(** [getattr(m, "content", "") or ""] *)
Definition content_or_empty (m : message) : content :=
  match m_content m with Parts [] => Plain "" | c => c end.

(** [str(content)]: a text, or the representation of the list. *)
Definition part_repr (p : part) : string :=
  match p with
  | PStr s => repr_str s
  | PText s => "{'type': 'text', 'text': " +:+ repr_str s +:+ "}"
  | PImage url => "{'type': 'image_url', 'image_url': {'url': " +:+ repr_str url +:+ "}}"
  | POther j => py_repr j
  end.
Definition content_str (c : content) : string :=
  match c with Plain s => s | Parts ps => "[" +:+ join ", " (part_repr <$> ps) +:+ "]" end.

(** [bool(content)] *)
Definition has_content (c : content) : bool :=
  match c with Plain s => nonempty s | Parts ps => negb (bool_decide (ps = [])) end.

(** ** The current turn *)

(** [messages[last_human_index:]], the whole list when nobody asked anything. *)
Fixpoint current_turn_messages (messages : list message) : list message :=
  match messages with
  | [] => []
  | m :: rest =>
      if existsb is_user_message rest then current_turn_messages rest else messages
  end.

Definition reject_tool_calls (tool_calls : list tool_call) (reason : string) : list message :=
  (λ tc, Message ToolMessage None (Plain reason) [] (tc_id tc) (Some (tc_name tc)) "success" []) <$> tool_calls.

(** ** Words *)

Definition _STOPWORDS : list string := split
  "a an the is are was were and or of to in for on at by with from that this it its be as you your can will if not into their his her they he she we".

(** A set of words, as a list without repetitions. *)
Definition content_words (text : string) : list string :=
  remove_dups (filter (λ w, w ∉ _STOPWORDS ∧ (2 < String.length w)%nat) (find_words (lower text))).

Definition _VAGUE_QUERY_MAX_CONTENT_WORDS : nat := 4.

Definition retrieval_query (current_text : string) (previous_human : option message) : string :=
  match previous_human with
  | Some _ =>
      if Nat.leb (length (content_words current_text)) _VAGUE_QUERY_MAX_CONTENT_WORDS
      then human_text previous_human +:+ " " +:+ current_text else current_text
  | None => current_text
  end.

(** ** Facts *)

(** The current turn is the end of the history, from its last question on. *)
Lemma current_turn_suffix messages : ∃ earlier, messages = earlier ++ current_turn_messages messages.
Proof.
  induction messages as [|m rest [earlier IH]]; [by exists []|]. simpl.
  destruct (existsb is_user_message rest); [|by exists []]. exists (m :: earlier). simpl. by rewrite <-IH.
Qed.

Lemma existsb_elem {A} (P : A → bool) l : existsb P l = true ↔ ∃ x, x ∈ l ∧ P x = true.
Proof.
  rewrite existsb_exists. split; intros (x & Hx & HP); exists x; split; try done; by apply list_elem_of_In.
Qed.

(** It starts with a question, and has no other one. *)
Lemma current_turn_question messages :
  existsb is_user_message messages = true →
  ∃ q rest, current_turn_messages messages = q :: rest ∧ is_user_message q = true ∧ existsb is_user_message rest = false.
Proof.
  induction messages as [|m rest IH]; simpl; [done|]. intros H.
  destruct (existsb is_user_message rest) eqn:E; [by apply IH|]. exists m, rest. by rewrite orb_false_r in H.
Qed.

Lemma current_turn_elem messages m : m ∈ current_turn_messages messages → m ∈ messages.
Proof.
  destruct (current_turn_suffix messages) as [earlier E]. intros Hm. rewrite E. apply elem_of_app. by right.
Qed.

Lemma reject_answers tool_calls reason : m_tool_call_id <$> reject_tool_calls tool_calls reason = tc_id <$> tool_calls.
Proof. unfold reject_tool_calls. rewrite <-list_fmap_compose. by apply list_fmap_ext. Qed.
