(* ===== verification/Process.v ===== *)
(** Programs as trees of commands: what a coroutine of the job queue does between two
    suspensions is one command, and the rest depends on its answer.

    A program says nothing about what the commands do; [Jobs] writes the queue's coroutines
    in it, and [JobAnswers] reasons about every answer, or about every interleaving of several
    programs over one store. *)
From S2P Require Import Prelude.

(** A raised exception: its class, and its text where the code looks at it. *)
Record exc : Type := Exc { exc_class : string; exc_text : string }.
#[export] Instance exc_eq_dec : EqDecision exc.
Proof. solve_decision. Defined.

Section programs.
Context {cmd : Type → Type}.

Inductive prog (A : Type) : Type :=
| Ret (a : A)
| Throw (e : exc)
| Do (R : Type) (c : cmd R) (k : result exc R → prog A).

Arguments Ret {A} a.
Arguments Throw {A} e.
Arguments Do {A R} c k.

Fixpoint bind {A B} (p : prog A) (f : A → prog B) : prog B :=
  match p with
  | Ret a => f a
  | Throw e => Throw e
  | Do c k => Do c (λ r, bind (k r) f)
  end.

(** [await client.command(...)]: its answer, or the exception it raises. *)
Definition call {R} (c : cmd R) : prog R :=
  Do c (λ r, match r with Ok v => Ret v | Err e => Throw e end).

(** [try: p except Exception as exc: h exc] *)
Fixpoint catch {A} (p : prog A) (h : exc → prog A) : prog A :=
  match p with
  | Ret a => Ret a
  | Throw e => h e
  | Do c k => Do c (λ r, catch (k r) h)
  end.

(** [try: p finally: q]: an exception of [q] replaces what [p] ended with. *)
Fixpoint finally {A} (p : prog A) (q : prog ()) : prog A :=
  match p with
  | Ret a => bind q (λ _, Ret a)
  | Throw e => bind q (λ _, Throw e)
  | Do c k => Do c (λ r, finally (k r) q)
  end.

Definition of_result {A} (r : result exc A) : prog A :=
  match r with Ok a => Ret a | Err e => Throw e end.

Fixpoint each {A} (xs : list A) (f : A → prog ()) : prog () :=
  match xs with
  | [] => Ret ()
  | x :: xs => bind (f x) (λ _, each xs f)
  end.

(** One answered command of a run. *)
Record step : Type := Step { st_type : Type; st_cmd : cmd st_type; st_answer : result exc st_type }.
Arguments Step {st_type} _ _.

(** [path p tr out]: answering [p]'s commands as [tr] says, it ends with [out]. *)
Fixpoint path {A} (p : prog A) (tr : list step) (out : result exc A) : Prop :=
  match p with
  | Ret a => tr = [] ∧ out = Ok a
  | Throw e => tr = [] ∧ out = Err e
  | Do c k => match tr with
              | [] => False
              | s :: tr => ∃ r, s = Step c r ∧ path (k r) tr out
              end
  end.

(** Running [p] with answers computed from a state. *)
Section run.
Context {S : Type} (answer : S → ∀ R, cmd R → result exc R * S).
Fixpoint run {A} (p : prog A) (s : S) : result exc A * list step * S :=
  match p with
  | Ret a => (Ok a, [], s)
  | Throw e => (Err e, [], s)
  | Do c k =>
      let '(r, s) := answer s _ c in
      let '(out, tr, s) := run (k r) s in (out, Step c r :: tr, s)
  end.

Lemma run_path {A} (p : prog A) s : path p (snd (fst (run p s))) (fst (fst (run p s))).
Proof.
  revert s. induction p as [a|e|R c k IH]; intros s; simpl; [done..|].
  destruct (answer s R c) as [r s'] eqn:E. specialize (IH r s'). destruct (run (k r) s') as [[out tr] s''].
  by exists r.
Qed.
End run.

(** ** Paths of composed programs *)

Lemma path_bind {A B} (p : prog A) (f : A → prog B) tr out :
  path (bind p f) tr out ↔
  (∃ a tr1 tr2, path p tr1 (Ok a) ∧ path (f a) tr2 out ∧ tr = tr1 ++ tr2) ∨
  (∃ e, path p tr (Err e) ∧ out = Err e).
Proof.
  revert tr out. induction p as [a|e|R c k IH]; simpl; intros tr out.
  - split; [intros Hp; left; by exists a, [], tr|].
    by intros [(a' & tr1 & tr2 & [-> [= ->]] & Hf & ->)|(e & [_ [=]] & _)].
  - split; [intros [-> ->]; right; by exists e|].
    by intros [(a' & tr1 & tr2 & [_ [=]] & _)|(e' & [-> [= ->]] & ->)].
  - destruct tr as [|s tr]; [split; [done|]|].
    + intros [(a & [|s tr1] & tr2 & H1 & _ & E)|(e & H1 & _)]; done.
    + split.
      * intros (r & -> & Hp). apply IH in Hp as [(a & tr1 & tr2 & H1 & H2 & ->)|(e & H1 & ->)]; [left|right].
        -- exists a, (Step c r :: tr1), tr2. split_and!; [by exists r|done|done].
        -- exists e. split; [by exists r|done].
      * intros [(a & [|s1 tr1] & tr2 & H1 & H2 & E)|(e & (r & -> & H1) & ->)]; [done| |].
        -- destruct H1 as (r & -> & H1). simplify_eq/=. exists r. split; [done|]. apply IH. left. by exists a, tr1, tr2.
        -- exists r. split; [done|]. apply IH. right. by exists e.
Qed.

Lemma path_catch {A} (p : prog A) (h : exc → prog A) tr out :
  path (catch p h) tr out ↔
  (∃ a, path p tr (Ok a) ∧ out = Ok a) ∨
  (∃ e tr1 tr2, path p tr1 (Err e) ∧ path (h e) tr2 out ∧ tr = tr1 ++ tr2).
Proof.
  revert tr out. induction p as [a|e|R c k IH]; simpl; intros tr out.
  - split; [intros [-> ->]; left; by exists a|].
    by intros [(a' & [-> [= ->]] & ->)|(e & tr1 & tr2 & [_ [=]] & _)].
  - split; [intros Hp; right; by exists e, [], tr|].
    by intros [(a' & [_ [=]] & _)|(e' & tr1 & tr2 & [-> [= ->]] & Hh & ->)].
  - destruct tr as [|s tr]; [split; [done|]|].
    + intros [(a & H1 & _)|(e & [|s tr1] & tr2 & H1 & _ & E)]; done.
    + split.
      * intros (r & -> & Hp). apply IH in Hp as [(a & H1 & ->)|(e & tr1 & tr2 & H1 & H2 & ->)]; [left|right].
        -- exists a. split; [by exists r|done].
        -- exists e, (Step c r :: tr1), tr2. split_and!; [by exists r|done|done].
      * intros [(a & (r & -> & H1) & ->)|(e & [|s1 tr1] & tr2 & H1 & H2 & E)]; [|done|].
        -- exists r. split; [done|]. apply IH. left. by exists a.
        -- destruct H1 as (r & -> & H1). simplify_eq/=. exists r. split; [done|]. apply IH. right. by exists e, tr1, tr2.
Qed.

Lemma path_finally {A} (p : prog A) (q : prog ()) tr out :
  path (finally p q) tr out ↔
  ∃ out1 tr1 tr2 outq, path p tr1 out1 ∧ path q tr2 outq ∧ tr = tr1 ++ tr2 ∧
    out = match outq with Ok _ => out1 | Err e => Err e end.
Proof.
  revert tr out. induction p as [a|e|R c k IH]; simpl; intros tr out.
  - rewrite path_bind. split.
    + intros [([] & tr1 & tr2 & H1 & [-> ->] & ->)|(e & H1 & ->)].
      * exists (Ok a), [], tr1, (Ok ()). by rewrite app_nil_r.
      * by exists (Ok a), [], tr, (Err e).
    + intros (out1 & tr1 & tr2 & [[]|e] & [-> ->] & Hq & -> & ->).
      * left. exists (), tr2, []. by rewrite app_nil_r.
      * right. by exists e.
  - rewrite path_bind. split.
    + intros [([] & tr1 & tr2 & H1 & [-> ->] & ->)|(e' & H1 & ->)].
      * exists (Err e), [], tr1, (Ok ()). by rewrite app_nil_r.
      * by exists (Err e), [], tr, (Err e').
    + intros (out1 & tr1 & tr2 & [[]|e'] & [-> ->] & Hq & -> & ->).
      * left. exists (), tr2, []. by rewrite app_nil_r.
      * right. by exists e'.
  - destruct tr as [|s tr]; [split; [done|]|].
    + intros (out1 & [|s1 tr1] & tr2 & outq & H1 & _ & E & _); done.
    + split.
      * intros (r & -> & Hp). apply IH in Hp as (out1 & tr1 & tr2 & outq & H1 & H2 & -> & ->).
        exists out1, (Step c r :: tr1), tr2, outq. split_and!; [by exists r|done|done|done].
      * intros (out1 & [|s1 tr1] & tr2 & outq & H1 & H2 & E & ->); [done|].
        destruct H1 as (r & -> & H1). simplify_eq/=. exists r. split; [done|]. apply IH. by exists out1, tr1, tr2, outq.
Qed.

Lemma path_call {R} (c : cmd R) tr out : path (call c) tr out ↔ tr = [Step c out].
Proof.
  simpl. destruct tr as [|s tr]; [done|]. split.
  - intros (r & -> & Hr). destruct r as [v|e]; destruct Hr as [-> ->]; done.
  - intros [= -> ->]. exists out. by destruct out.
Qed.
(** ** Protocols

    A protocol follows a program with a state of its own: which commands are allowed in a
    state, and the state after a command and its answer.  [safe x p Q]: from [x], on every
    answer, [p] only issues allowed commands, and [Q] holds where it ends. *)
Section protocol.
Context {X : Type} (allowed : X → ∀ R, cmd R → Prop) (next : X → ∀ R, cmd R → result exc R → X).

Fixpoint safe {A} (x : X) (p : prog A) (Q : X → result exc A → Prop) : Prop :=
  match p with
  | Ret a => Q x (Ok a)
  | Throw e => Q x (Err e)
  | Do c k => allowed x _ c ∧ ∀ r, safe (next x _ c r) (k r) Q
  end.

(** A trace keeps to the protocol, and the state it leads to. *)
Fixpoint kept (x : X) (tr : list step) : Prop :=
  match tr with
  | [] => True
  | Step c r :: tr => allowed x _ c ∧ kept (next x _ c r) tr
  end.
Fixpoint after (x : X) (tr : list step) : X :=
  match tr with [] => x | Step c r :: tr => after (next x _ c r) tr end.

Lemma safe_path {A} x (p : prog A) Q tr out : safe x p Q → path p tr out → kept x tr ∧ Q (after x tr) out.
Proof.
  revert x tr. induction p as [a|e|R c k IH]; simpl; intros x tr Hs.
  - by intros [-> ->].
  - by intros [-> ->].
  - destruct Hs as [Ha Hs]. destruct tr as [|s tr]; [done|]. intros (r & -> & Hp). simpl.
    destruct (IH r _ _ (Hs r) Hp) as [Hk HQ]. done.
Qed.

Lemma kept_split x tr1 tr2 : kept x (tr1 ++ tr2) ↔ kept x tr1 ∧ kept (after x tr1) tr2.
Proof. revert x. induction tr1 as [|[R c r] tr IH]; intros x; simpl; [tauto|]. rewrite IH. tauto. Qed.

Lemma safe_conseq {A} x (p : prog A) (Q Q' : X → result exc A → Prop) :
  safe x p Q → (∀ x r, Q x r → Q' x r) → safe x p Q'.
Proof.
  intros Hs HQ. revert x Hs. induction p as [a|e|R c k IH]; simpl; intros x Hs; [by apply HQ..|].
  destruct Hs as [Ha Hs]. split; [done|]. intros r. by apply IH.
Qed.

Lemma safe_and {A} x (p : prog A) (Q Q' : X → result exc A → Prop) :
  safe x p Q → safe x p Q' → safe x p (λ x r, Q x r ∧ Q' x r).
Proof.
  revert x. induction p as [a|e|R c k IH]; simpl; intros x; [by split..|].
  intros [Ha Hs] [_ Hs']. split; [done|]. intros r. by apply IH.
Qed.

Lemma safe_bind {A B} x (p : prog A) (f : A → prog B) Q :
  safe x p (λ x r, match r with Ok a => safe x (f a) Q | Err e => Q x (Err e) end) → safe x (bind p f) Q.
Proof.
  revert x. induction p as [a|e|R c k IH]; simpl; intros x Hs; [done..|].
  destruct Hs as [Ha Hs]. split; [done|]. intros r. by apply IH.
Qed.

Lemma safe_catch {A} x (p : prog A) (h : exc → prog A) Q :
  safe x p (λ x r, match r with Ok a => Q x (Ok a) | Err e => safe x (h e) Q end) → safe x (catch p h) Q.
Proof.
  revert x. induction p as [a|e|R c k IH]; simpl; intros x Hs; [done..|].
  destruct Hs as [Ha Hs]. split; [done|]. intros r. by apply IH.
Qed.

Lemma safe_finally {A} x (p : prog A) (q : prog ()) Q :
  safe x p (λ x r, safe x q (λ x rq, Q x (match rq with Ok _ => r | Err e => Err e end))) → safe x (finally p q) Q.
Proof.
  revert x. induction p as [a|e|R c k IH]; simpl; intros x Hs.
  - apply safe_bind. eapply safe_conseq; [exact Hs|]. by intros x' [[]|e].
  - apply safe_bind. eapply safe_conseq; [exact Hs|]. by intros x' [[]|e'].
  - destruct Hs as [Ha Hs]. split; [done|]. intros r. by apply IH.
Qed.

Lemma safe_call {R} x (c : cmd R) Q : allowed x _ c → (∀ r, Q (next x _ c r) r) → safe x (call c) Q.
Proof. intros Ha HQ. split; [done|]. intros [v|e]; apply HQ. Qed.

Lemma safe_of_result {A} x (r : result exc A) Q : Q x r → safe x (of_result r) Q.
Proof. by destruct r. Qed.

Lemma safe_each {A} x (xs : list A) f (Q : X → result exc () → Prop) (I : X → Prop) :
  (∀ x a, a ∈ xs → I x → safe x (f a) (λ x r, match r with Ok _ => I x | Err e => Q x (Err e) end)) →
  I x → (∀ x, I x → Q x (Ok ())) → safe x (each xs f) Q.
Proof.
  intros Hf Hi HQ. revert x Hi. induction xs as [|a xs IH]; simpl; intros x Hi; [by apply HQ|].
  apply safe_bind. eapply safe_conseq; [apply Hf; [left|done]|]. intros x' [[]|e]; [|done].
  apply IH. intros x1 b Hb. apply Hf. by right.
Qed.
End protocol.
End programs.

Arguments prog cmd A : clear implicits.
Arguments step cmd : clear implicits.
Arguments Ret {cmd A} a.
Arguments Throw {cmd A} e.
Arguments Do {cmd A R} c k.
Arguments Step {cmd st_type} _ _.

Declare Scope prog_scope.
Delimit Scope prog_scope with prog.
Notation "x ← p ; q" := (bind p (λ x, q)) (at level 20, p at level 100, q at level 200, right associativity) : prog_scope.
Notation "' x ← p ; q" := (bind p (λ x, q)) (at level 20, x pattern, p at level 100, q at level 200, right associativity) : prog_scope.
Notation "p ;; q" := (bind p (λ _, q)) (at level 100, q at level 200, right associativity) : prog_scope.

(** ** Programs of one component inside another's

    [inject] names a command of the one as a command of the other. *)
Section lift.
Context {cmd cmd' : Type → Type} (inject : ∀ R, cmd R → cmd' R).

Fixpoint lift {A} (p : prog cmd A) : prog cmd' A :=
  match p with
  | Ret a => Ret a
  | Throw e => Throw e
  | Do c k => Do (inject _ c) (λ r, lift (k r))
  end.

Definition lift_step (s : step cmd) : step cmd' := match s with Step c r => Step (inject _ c) r end.

Lemma path_lift {A} (p : prog cmd A) tr out : path (lift p) tr out ↔ ∃ tr', path p tr' out ∧ tr = map lift_step tr'.
Proof.
  revert tr. induction p as [a|e|R c k IH]; intros tr; cbn [lift path].
  - split; [intros [-> ->]; by exists []|by intros (tr' & [-> ->] & ->)].
  - split; [intros [-> ->]; by exists []|by intros (tr' & [-> ->] & ->)].
  - split.
    + destruct tr as [|s tr]; [done|]. intros (r & -> & (tr' & Hp & ->)%IH). exists (Step c r :: tr'). split; [by exists r|done].
    + intros ([|s tr'] & Hp & ->); [done|]. destruct Hp as (r & -> & Hp). exists r. split; [done|]. apply IH. by exists tr'.
Qed.
End lift.

(** [except Exception], and programs all of whose steps have a property, on every answer. *)

Local Open Scope string_scope.

(** [BaseException]s that are no [Exception]s. *)
Definition base_exception (e : exc) : bool := bool_decide (exc_class e ∈ ["CancelledError"; "GeneratorExit"]).

(** [try: p except Exception as e: h e] *)
Definition catch_exception {cmd A} (p : prog cmd A) (h : exc → prog cmd A) : prog cmd A :=
  catch p (λ e, if base_exception e then Throw e else h e).

Local Close Scope string_scope.

Section only.
Context {cmd : Type → Type} (Q : step cmd → Prop).

Definition only {A} (p : prog cmd A) : Prop := ∀ tr out, path p tr out → Forall Q tr.

Lemma only_ret {A} (a : A) : only (Ret a).
Proof. intros tr out [-> _]. constructor. Qed.
Lemma only_throw {A} e : only (Throw e : prog cmd A).
Proof. intros tr out [-> _]. constructor. Qed.
Lemma only_of_result {A} (r : result exc A) : only (of_result r).
Proof. destruct r; [apply only_ret|apply only_throw]. Qed.

Lemma only_call {R} (c : cmd R) : (∀ r, Q (Step c r)) → only (call c).
Proof. intros Hc tr out ->%path_call. by constructor. Qed.

Lemma only_bind {A B} (p : prog cmd A) (f : A → prog cmd B) : only p → (∀ a, only (f a)) → only (bind p f).
Proof.
  intros Hp Hf tr out [(a & tr1 & tr2 & H1 & H2 & ->)|(e & H & _)]%path_bind; [|by eapply Hp].
  apply Forall_app_2; [by eapply Hp|by eapply Hf].
Qed.

Lemma only_catch {A} (p : prog cmd A) h : only p → (∀ e, only (h e)) → only (catch p h).
Proof.
  intros Hp Hh tr out [(a & H & _)|(e & tr1 & tr2 & H1 & H2 & ->)]%path_catch; [by eapply Hp|].
  apply Forall_app_2; [by eapply Hp|by eapply Hh].
Qed.

Lemma only_catch_exception {A} (p : prog cmd A) h : only p → (∀ e, only (h e)) → only (catch_exception p h).
Proof. intros Hp Hh. apply only_catch; [done|]. intros e. destruct (base_exception e); [apply only_throw|apply Hh]. Qed.

Lemma only_finally {A} (p : prog cmd A) q : only p → only q → only (finally p q).
Proof.
  intros Hp Hq tr out (out1 & tr1 & tr2 & outq & H1 & H2 & -> & _)%path_finally.
  apply Forall_app_2; [by eapply Hp|by eapply Hq].
Qed.

Lemma only_if {A} (b : bool) (p q : prog cmd A) : only p → only q → only (if b then p else q).
Proof. by destruct b. Qed.

Lemma only_each {A} (xs : list A) f : (∀ x, only (f x)) → only (each xs f).
Proof. intros Hf. induction xs as [|x xs IH]; cbn [each]; [apply only_ret|by apply only_bind]. Qed.
End only.

Lemma only_impl {cmd : Type → Type} (Q Q' : step cmd → Prop) {A} (p : prog cmd A) : only Q p → (∀ s, Q s → Q' s) → only Q' p.
Proof. intros Hp HQ tr out H. eapply Forall_impl; [by eapply Hp|done]. Qed.

(** What the steps of a path show, of which some programs have nothing. *)
Lemma omap_none {A B} (f : A → option B) (l : list A) : Forall (λ x, f x = None) l → omap f l = [].
Proof. induction 1 as [|x l Hx Hl IH]; [done|]. cbn [omap list_omap]. by rewrite Hx. Qed.

Create HintDb steps discriminated.
#[export] Hint Resolve only_ret only_throw only_of_result only_call only_bind only_catch only_catch_exception only_finally only_if only_each : steps.
#[export] Hint Extern 3 => progress intros : steps.
