(* ===== verification/Jobs.v ===== *)
(** The job queue: [app/job_queue/queue.py], [producer.py] and [agent_worker.py], with the
    error envelope of [app/core/errors.py].

    Redis, the checkpointer and the graph's run are not modelled: a coroutine is a program
    over their commands ([Process]).  What the run of a turn yields is an argument. *)
From stdpp Require Import pretty.
From S2P Require Import Prelude Dict Json Text Messages Process.

Local Open Scope string_scope.
Local Open Scope list_scope.
Local Open Scope Z_scope.

(** ** Errors *)

Inductive ErrorCode : Type :=
| TIMEOUT | MODERATION_BLOCKED | CHECKPOINT_LOST | CHECKPOINT_INCOMPATIBLE | PENDING_APPROVAL | UNATTENDED_PAUSE
| CANCELLED | COST_CEILING_EXCEEDED | TENANT_BUDGET_EXCEEDED | PERSONAL_BUDGET_EXCEEDED | BUDGET_CHECK_UNAVAILABLE
| INSUFFICIENT_CREDITS | PROVIDER_BUDGET_EXCEEDED | MODEL_UNPRICED | EMBEDDING_IDENTITY_MISMATCH | THREAD_BUSY
| NO_PROGRESS | WORKER_LOST | UNAUTHENTICATED | FORBIDDEN | RATE_LIMITED | AUTH_UNAVAILABLE | INTERNAL.

Definition code_value (c : ErrorCode) : string :=
  match c with
  | TIMEOUT => "timeout" | MODERATION_BLOCKED => "moderation_blocked" | CHECKPOINT_LOST => "checkpoint_lost"
  | CHECKPOINT_INCOMPATIBLE => "checkpoint_incompatible" | PENDING_APPROVAL => "pending_approval"
  | UNATTENDED_PAUSE => "unattended_pause" | CANCELLED => "cancelled"
  | COST_CEILING_EXCEEDED => "cost_ceiling_exceeded" | TENANT_BUDGET_EXCEEDED => "tenant_budget_exceeded"
  | PERSONAL_BUDGET_EXCEEDED => "personal_budget_exceeded" | BUDGET_CHECK_UNAVAILABLE => "budget_check_unavailable"
  | INSUFFICIENT_CREDITS => "insufficient_credits" | PROVIDER_BUDGET_EXCEEDED => "provider_budget_exceeded"
  | MODEL_UNPRICED => "model_unpriced" | EMBEDDING_IDENTITY_MISMATCH => "embedding_identity_mismatch"
  | THREAD_BUSY => "thread_busy" | NO_PROGRESS => "no_progress" | WORKER_LOST => "worker_lost"
  | UNAUTHENTICATED => "unauthenticated" | FORBIDDEN => "forbidden" | RATE_LIMITED => "rate_limited"
  | AUTH_UNAVAILABLE => "auth_unavailable" | INTERNAL => "internal"
  end.

Record ErrorEnvelope : Type := Envelope { env_code : ErrorCode; env_message : string; env_details : json }.

Definition to_dict (e : ErrorEnvelope) : list (string * json) :=
  [("code", JStr (code_value (env_code e))); ("message", JStr (env_message e)); ("details", env_details e)].

Definition INTERNAL_ERROR_MESSAGE : string :=
  "Something went wrong on our side while handling this request. Please try again; if it keeps happening, contact support.".

Definition internal_error_envelope (e : exc) : ErrorEnvelope :=
  Envelope INTERNAL INTERNAL_ERROR_MESSAGE (JObj [("error_class", JStr (exc_class e))]).

(** An event is a dict; the error event of an envelope. *)
Abbreviation event := (list (string * json)).

Definition error_event (e : ErrorEnvelope) : event :=
  [("type", JStr "error"); ("content", JStr (env_message e))] ++ to_dict e.

(** ** Commands *)

Abbreviation fields := (list (string * string)).
Abbreviation entry := (string * list (string * string))%type.

(** What [graph.aget_state] answers: the stored messages, the nodes still to run, and for
    each pending task whether it has interrupts. *)
Record snapshot : Type := Snapshot { sn_messages : list message; sn_next : list string; sn_interrupts : list bool }.

Inductive cmd : Type → Type :=
| Get (key : string) : cmd (option string)
| SetKey (key value : string) (nx : bool) (ex : Z) : cmd bool
| Delete (key : string) : cmd ()
| EvalRelease (key token : string) : cmd ()             (* client.eval(_RELEASE_LOCK_SCRIPT, 1, key, token) *)
| XGroupCreate (stream group : string) : cmd ()
| XAdd (stream : string) (fs : fields) (maxlen : option Z) : cmd string
| Expire (key : string) (seconds : Z) : cmd ()
| XRead (stream last_id : string) (block_ms count : Z) : cmd (list entry)
| XReadGroup (group consumer stream : string) (count block_ms : Z) : cmd (list entry)
| XAck (stream group entry_id : string) : cmd ()
| XAutoClaim (stream group consumer : string) (min_idle_ms : Z) (start_id : string) (count : Z) : cmd (string * list entry)
| Uuid4 : cmd string                                    (* uuid.uuid4().hex *)
| Monotonic : cmd Z                                     (* time.monotonic(), in microseconds *)
| Stopping (seconds : Z) : cmd bool                     (* wait for the stop event, at most so long *)
| Count (counter label : string) : cmd ()
| GetState (thread_id : json) : cmd (option snapshot)   (* graph.aget_state *)
| CancelRun (thread_id ctx : json) : cmd bool           (* runtime.stream.cancel_run *)
| Touch (thread_id : json) : cmd ()                     (* a step of the graph, on the thread's checkpoint *)
| Emit (ev : event) : cmd ().                           (* an async generator yields an event to its caller *)

Abbreviation P := (prog cmd).
Local Open Scope prog_scope.

(** The stream of events a run of the graph yields: it works on the thread, yields, asks
    whether it is cancelled, ends or raises. *)
Inductive source : Type :=
| Done
| Fail (e : exc)
| Yield (ev : event) (k : source)
| Poll (k : result exc bool → source)
| Work (k : source).

(** Which run: the arguments of [astream_events_turn], [_continue_turn] and [_resume], and of
    their unattended forms. *)
Inductive run_of : Type :=
| RunTurn (text thread ctx require_approval images : json) (unattended : bool)
| RunContinue (thread ctx : json) (unattended : bool)
| RunResume (thread approved ctx : json).

(** ** Payloads *)

(** [payload["k"]] and [payload.get("k", d)] of a loaded payload *)
Definition subscript (j : json) (k : string) : result exc json :=
  match j with
  | JObj d => match dict_get k d with Some v => Ok v | None => Err (Exc "KeyError" k) end
  | _ => Err (Exc "TypeError" "")
  end.

Definition get_item (j : json) (k : string) : result exc (option json) :=
  match j with JObj d => Ok (dict_get k d) | _ => Err (Exc "AttributeError" "get") end.

(** [fields["payload"]] and [json.loads] of it *)
Definition payload_text (fs : fields) : result exc string :=
  match dict_get "payload" fs with Some t => Ok t | None => Err (Exc "KeyError" "payload") end.

Definition loads_exc (t : string) : result exc json :=
  match loads t with Some j => Ok j | None => Err (Exc "JSONDecodeError" "") end.

(** ** queue.py *)

Definition CONSUMER_GROUP : string := "agent-workers".
Definition TERMINAL_EVENT_TYPES : list string := ["done"; "error"; "approval_required"].
Definition RESULTS_STREAM_TTL_SECONDS : Z := 300.
Definition CANCEL_FLAG_TTL_SECONDS : Z := 60.
Definition DEAD_LETTER_MAXLEN : Z := 1000.
Definition RECLAIM_ATTEMPTS_FIELD : string := "_reclaim_attempts".

(** [event.get("type") in TERMINAL_EVENT_TYPES] *)
Definition is_terminal (ev : event) : bool :=
  match dict_get "type" ev with Some (JStr t) => bool_decide (t ∈ TERMINAL_EVENT_TYPES) | _ => false end.

(** The settings the queue reads. *)
Record settings : Type := Settings {
  REQUEST_TIMEOUT_SECONDS : Z;
  MAX_AUTO_RECLAIM_RETRIES : Z;
  AGENT_WORKER_RECLAIM_IDLE_SECONDS : Z;
  WORKER_RECLAIM_INTERVAL_SECONDS : Z;
  CHAT_FIRST_RESPONSE_DEADLINE_SECONDS : Z;
  AGENT_DOMAIN : string;
  CONSUMER_NAME : string;
}.

Definition results_stream_key (request_id : string) : string := "agent:results:" +:+ request_id.
Definition requests_stream_key (domain : string) : string := "agent:requests:" +:+ domain.
Definition cancel_flag_key (thread_id : string) : string := "agent:cancel:" +:+ thread_id.
Definition thread_lock_key (thread_id : string) : string := "agent:lock:" +:+ thread_id.
Definition _submission_dedup_key (thread_id digest : string) : string :=
  "chat:submit_dedup:" +:+ thread_id +:+ ":" +:+ digest.
Definition dead_letter_stream_key (requests_stream : string) : string := requests_stream +:+ ":dead".

Definition ensure_consumer_group (domain : string) : P () :=
  catch (call (XGroupCreate (requests_stream_key domain) CONSUMER_GROUP))
    (λ e, if bool_decide (exc_class e = "ResponseError") && contains (exc_text e) "BUSYGROUP" then Ret () else Throw e).

Definition turn_payload (request_id text thread_id : string) (ctx : json) (require_approval : bool)
    (images : option (list string)) (unattended : bool) : json :=
  JObj [("kind", JStr "turn"); ("request_id", JStr request_id); ("text", JStr text); ("thread_id", JStr thread_id);
        ("ctx", ctx); ("require_approval", JBool require_approval);
        ("images", JList (JStr <$> default [] images)); ("unattended", JBool unattended)].

Definition publish_request (request_id text thread_id : string) (ctx : json) (domain : string)
    (require_approval : bool) (images : option (list string)) (unattended : bool) : P () :=
  call (XAdd (requests_stream_key domain)
    [("payload", dumps (turn_payload request_id text thread_id ctx require_approval images unattended))] None) ;;
  Ret ().

Definition resume_payload (request_id thread_id : string) (approved : bool) (ctx : json) : json :=
  JObj [("kind", JStr "resume"); ("request_id", JStr request_id); ("thread_id", JStr thread_id);
        ("approved", JBool approved); ("ctx", ctx)].

Definition publish_resume_request (request_id thread_id : string) (approved : bool) (ctx : json) (domain : string) : P () :=
  call (XAdd (requests_stream_key domain) [("payload", dumps (resume_payload request_id thread_id approved ctx))] None) ;;
  Ret ().

Definition cancel_payload (request_id thread_id : string) (ctx : json) : json :=
  JObj [("kind", JStr "cancel"); ("request_id", JStr request_id); ("thread_id", JStr thread_id); ("ctx", ctx)].

Definition publish_cancel_request (request_id thread_id : string) (ctx : json) (domain : string) : P () :=
  call (XAdd (requests_stream_key domain) [("payload", dumps (cancel_payload request_id thread_id ctx))] None) ;;
  Ret ().

Definition set_cancel_flag (thread_id : string) : P () :=
  call (SetKey (cancel_flag_key thread_id) "1" false CANCEL_FLAG_TTL_SECONDS) ;; Ret ().

Definition is_cancelled (thread_id : string) : P bool :=
  v ← call (Get (cancel_flag_key thread_id));
  Ret (match v with Some v => nonempty v | None => false end).

Definition clear_cancel_flag (thread_id : string) : P () := call (Delete (cancel_flag_key thread_id)).

(** _RELEASE_LOCK_SCRIPT, over any store with GET and DEL *)
Definition _RELEASE_LOCK_SCRIPT {S} (get : string → S → option string) (del : string → S → S) (key arg : string) (s : S) : S :=
  if bool_decide (get key s = Some arg) then del key s else s.

Section queue.
Context (cfg : settings).

Definition THREAD_LOCK_TTL_SECONDS : Z := REQUEST_TIMEOUT_SECONDS cfg * 2.

Definition acquire_thread_lock (thread_id token : string) : P bool :=
  call (SetKey (thread_lock_key thread_id) token true THREAD_LOCK_TTL_SECONDS).

Definition release_thread_lock (thread_id token : string) : P () :=
  call (EvalRelease (thread_lock_key thread_id) token).

Definition claim_or_get_existing_submission (thread_id digest request_id : string) (ttl_seconds : Z) : P (string * bool) :=
  let key := _submission_dedup_key thread_id digest in
  claimed ← call (SetKey key request_id true ttl_seconds);
  if (claimed : bool) then Ret (request_id, true) else
  existing ← call (Get key);
  match existing with
  | None => call (SetKey key request_id false ttl_seconds) ;; Ret (request_id, true)
  | Some existing => Ret (existing, false)
  end.

Definition release_submission_claim (thread_id digest : string) : P () :=
  catch_exception (call (Delete (_submission_dedup_key thread_id digest))) (λ _, Ret ()).

Definition publish_result (request_id : string) (ev : event) : P () :=
  let key := results_stream_key request_id in
  call (XAdd key [("payload", dumps (JObj ev))] None) ;;
  call (Expire key RESULTS_STREAM_TTL_SECONDS).

Definition delete_results_stream (request_id : string) : P () :=
  catch_exception (call (Delete (results_stream_key request_id))) (λ _, Ret ()).

(** The entries of one read, in order; [true] after a terminal event. *)
Fixpoint read_entries (entries : list entry) (last_id : string) : P (string * bool) :=
  match entries with
  | [] => Ret (last_id, false)
  | (entry_id, fs) :: entries =>
      text ← of_result (payload_text fs);
      ev ← of_result (loads_exc text);
      match ev with
      | JObj ev =>
          call (Emit ev) ;;
          if is_terminal ev then Ret (entry_id, true) else read_entries entries entry_id
      | _ => Throw (Exc "AttributeError" "get")
      end
  end.

(** The loop of [read_results], at most [fuel] times round; [false] when it would go on. *)
Fixpoint read_loop (fuel : nat) (request_id : string) (block_ms : Z) (seconds : Z) (deadline : option Z)
    (last_id : string) : P bool :=
  match fuel with
  | O => Ret false
  | S fuel =>
      expired ← match deadline with
                | None => Ret false
                | Some deadline => now ← call Monotonic; Ret (deadline <=? now)
                end;
      if (expired : bool) then
        call (Count "agent_worker_unreachable_total" "agent") ;;
        call (Emit [("type", JStr "error");
          ("content", JStr ("No response for " +:+ repr_str request_id +:+ " after " +:+ dump_int seconds +:+
             "s — is an agent-worker running for this domain?"))]) ;;
        Ret true
      else
      entries ← call (XRead (results_stream_key request_id) last_id block_ms 10);
      match entries with
      | [] => read_loop fuel request_id block_ms seconds deadline last_id
      | entries =>
          '(last_id, finished) ← read_entries entries last_id;
          if (finished : bool) then Ret true else read_loop fuel request_id block_ms seconds None last_id
      end
  end.

Definition read_results (fuel : nat) (request_id : string) (block_ms : Z) (first_event_deadline_seconds : option Z) : P bool :=
  deadline ← match first_event_deadline_seconds with
             | None => Ret None
             | Some s => now ← call Monotonic; Ret (Some (now + s * 1000000))
             end;
  read_loop fuel request_id block_ms (default 0 first_event_deadline_seconds) deadline "0".

(** XAUTOCLAIM's cursor, at most [fuel] pages; [None] when there are more. *)
Fixpoint reclaim_pages (fuel : nat) (stream group consumer : string) (min_idle_ms count : Z) (cursor : string)
    (claimed : list entry) : P (option (list entry)) :=
  match fuel with
  | O => Ret None
  | S fuel =>
      '(cursor, entries) ← call (XAutoClaim stream group consumer min_idle_ms cursor count);
      let claimed := claimed ++ entries in
      if bool_decide (cursor = "0-0") then Ret (Some claimed)
      else reclaim_pages fuel stream group consumer min_idle_ms count cursor claimed
  end.

Definition reclaim_stale_entries (fuel : nat) (stream group consumer : string) (min_idle_ms : Z) : P (option (list entry)) :=
  reclaim_pages fuel stream group consumer min_idle_ms 50 "0-0" [].

Definition publish_dead_letter (requests_stream entry_id : string) (payload : json) (reason : string) : P () :=
  call (XAdd (dead_letter_stream_key requests_stream)
    [("original_entry_id", entry_id); ("reason", reason); ("payload", dumps payload)] (Some DEAD_LETTER_MAXLEN)) ;;
  Ret ().

(** [payload.get(RECLAIM_ATTEMPTS_FIELD, 0)] as a number: anything else cannot be added to. *)
Definition attempts_of (payload : list (string * json)) : result exc Z :=
  match dict_get RECLAIM_ATTEMPTS_FIELD payload with
  | None => Ok 0
  | Some (JInt n) => Ok n
  | Some (JBool b) => Ok (if b then 1 else 0)
  | Some _ => Err (Exc "TypeError" "")
  end.

Definition republished (payload : list (string * json)) (attempts : Z) : list (string * json) :=
  dict_set RECLAIM_ATTEMPTS_FIELD (JInt (attempts + 1)) payload.

Definition republish_job (requests_stream : string) (payload : list (string * json)) : P string :=
  attempts ← of_result (attempts_of payload);
  call (XAdd requests_stream [("payload", dumps (JObj (republished payload attempts)))] None).
End queue.

(** ** producer.py *)

Section producer.
Context (cfg : settings) (sha256_hex : string → string).

Definition _events (fuel : nat) (request_id : string) : P bool :=
  read_results fuel request_id 5000 (Some (CHAT_FIRST_RESPONSE_DEADLINE_SECONDS cfg)).

Definition stream_turn (fuel : nat) (text thread_id : string) (ctx : json) (domain : string)
    (require_approval unattended : bool) (dedup_key : option string) : P bool :=
  request_id ← call Uuid4;
  let digest := sha256_hex <$> dedup_key in
  '(request_id, is_new) ← match digest with
     | None => Ret (request_id, true)
     | Some digest => claim_or_get_existing_submission thread_id digest request_id RESULTS_STREAM_TTL_SECONDS
     end;
  (if (is_new : bool) then
     catch_exception (publish_request request_id text thread_id ctx domain require_approval None unattended)
       (λ e, match digest with Some digest => release_submission_claim thread_id digest | None => Ret () end ;; Throw e)
   else Ret ()) ;;
  _events fuel request_id.

Definition stream_resume (fuel : nat) (thread_id : string) (approved : bool) (ctx : json) (domain : string) : P bool :=
  request_id ← call Uuid4;
  publish_resume_request request_id thread_id approved ctx domain ;;
  _events fuel request_id.

Definition cancel_turn (thread_id : string) (ctx : json) (domain : string) : P () :=
  set_cancel_flag thread_id ;;
  request_id ← call Uuid4;
  publish_cancel_request request_id thread_id ctx domain.
End producer.

(** ** agent_worker.py *)

(** The coroutines of one job share the flag [lock_released]: programs that pass it on,
    also past an exception. *)
Definition L (A : Type) : Type := bool → P (result exc A * bool).

Definition pass {A} (a : A) : L A := λ released, Ret (Ok a, released).
Definition await {A} (p : P A) : L A := λ released,
  catch (a ← p; Ret (Ok a, released)) (λ e, Ret (Err e, released)).
Definition and_then {A B} (m : L A) (f : A → L B) : L B := λ released,
  '(r, released) ← m released;
  match r with Ok a => f a released | Err e => Ret (Err e, released) end.
(** [try: m finally: q] *)
Definition at_last {A} (m : L A) (q : L ()) : L A := λ released,
  '(r, released) ← m released;
  '(rq, released) ← q released;
  Ret (match rq with Ok _ => r | Err e => Err e end, released).

Section worker.
Context (cfg : settings) (runs : run_of → source).

Definition REQUESTS_STREAM : string := requests_stream_key (AGENT_DOMAIN cfg).

(** [release_lock]: at most once *)
Definition release_lock (thread_id lock_token : string) : L () := λ released,
  if released then Ret (Ok (), true) else
  catch (release_thread_lock thread_id lock_token ;; Ret (Ok (), true)) (λ e, Ret (Err e, true)).

(** One item of [event.get("type") in TERMINAL_EVENT_TYPES], a release and the publish. *)
Definition publish_event (request_id : string) (release : L ()) (ev : event) : L () :=
  and_then (if is_terminal ev then release else pass ()) (λ _, await (publish_result request_id ev)).

(** The events of [s]; [cancel_check] is what the run polls. *)
Fixpoint _publish_events (thread_id : json) (cancel_check : P bool) (request_id : string) (release : L ()) (s : source) : L () :=
  match s with
  | Done => pass ()
  | Fail e => λ released, Ret (Err e, released)
  | Work k => and_then (await (call (Touch thread_id))) (λ _, _publish_events thread_id cancel_check request_id release k)
  | Poll k => λ released,
      r ← catch (b ← cancel_check; Ret (Ok b)) (λ e, Ret (Err e));
      _publish_events thread_id cancel_check request_id release (k r) released
  | Yield ev k =>
      and_then (publish_event request_id release ev)
        (λ _, _publish_events thread_id cancel_check request_id release k)
  end.

(** [payload.get(k) or None], [payload.get(k, False)] *)
Definition item (payload : json) (k : string) : L json := await (of_result (subscript payload k)).
Definition item_or (payload : json) (k : string) (d : json) : L json :=
  await (v ← of_result (get_item payload k); Ret (default d v)).

Definition or_none (j : json) : json := if truthy (Some j) then j else JNull.

Definition _process_turn (request_id : string) (payload : json) (release : L ()) : L () :=
  and_then (item payload "thread_id") (λ thread_id,
  and_then (await (clear_cancel_flag (py_str thread_id))) (λ _,
  and_then (item_or payload "unattended" JNull) (λ unattended,
  and_then (item payload "text") (λ text,
  and_then (item payload "ctx") (λ ctx,
  and_then (item_or payload "require_approval" (JBool false)) (λ require_approval,
  and_then (item_or payload "images" JNull) (λ images,
  _publish_events thread_id (is_cancelled (py_str thread_id)) request_id release
    (runs (RunTurn text thread_id ctx require_approval (or_none images) (truthy (Some unattended))))))))))).

Definition _process_turn_continue (request_id : string) (payload : json) (release : L ()) : L () :=
  and_then (item payload "thread_id") (λ thread_id,
  and_then (await (clear_cancel_flag (py_str thread_id))) (λ _,
  and_then (item_or payload "unattended" JNull) (λ unattended,
  and_then (item payload "ctx") (λ ctx,
  _publish_events thread_id (is_cancelled (py_str thread_id)) request_id release
    (runs (RunContinue thread_id ctx (truthy (Some unattended)))))))).

Definition _process_resume (request_id : string) (payload : json) (release : L ()) : L () :=
  and_then (item payload "thread_id") (λ thread_id,
  and_then (await (clear_cancel_flag (py_str thread_id))) (λ _,
  and_then (item payload "approved") (λ approved,
  and_then (item payload "ctx") (λ ctx,
  _publish_events thread_id (is_cancelled (py_str thread_id)) request_id release
    (runs (RunResume thread_id approved ctx)))))).

Definition _process_cancel (request_id : string) (payload : json) (release : L ()) : L () :=
  and_then (item payload "thread_id") (λ thread_id,
  and_then (item payload "ctx") (λ ctx,
  and_then (await (call (CancelRun thread_id ctx))) (λ cancelled,
  let ev := if (cancelled : bool) then error_event (Envelope CANCELLED "Cancelled by user." JNull)
            else [("type", JStr "done")] in
  and_then release (λ _, await (publish_result request_id ev))))).

Definition _DISPATCH : list (string * (string → json → L () → L ())) :=
  [("turn", _process_turn); ("turn_continue", _process_turn_continue);
   ("resume", _process_resume); ("cancel", _process_cancel)].

(** [_DISPATCH.get(kind)]: a kind that is no text is not in it. *)
Definition handler_of (kind : json) : option (string → json → L () → L ()) :=
  match kind with JStr k => dict_get k _DISPATCH | _ => None end.

Definition THREAD_BUSY_MESSAGE : string :=
  "Another turn is already in progress on this conversation. Please wait for it to finish.".

(** The guarded part of [process_request]: take the lock, run the job, release the lock. *)
Definition guarded (request_id kind : json) (payload : json) (lock_token : string) : P () :=
  thread_id ← of_result (subscript payload "thread_id");
  match handler_of kind with
  | None => Throw (Exc "ValueError" ("unknown job kind: " +:+ py_repr kind))
  | Some handler =>
      acquired ← acquire_thread_lock cfg (py_str thread_id) lock_token;
      if (acquired : bool) then
        let release := release_lock (py_str thread_id) lock_token in
        '(r, _) ← at_last (handler (py_str request_id) payload release) release false;
        of_result r
      else publish_result (py_str request_id) (error_event (Envelope THREAD_BUSY THREAD_BUSY_MESSAGE JNull))
  end.

Definition process_request (entry_id : string) (fs : fields) : P () :=
  text ← of_result (payload_text fs);
  payload ← of_result (loads_exc text);
  request_id ← of_result (subscript payload "request_id");
  kind ← of_result (get_item payload "kind");
  lock_token ← call Uuid4;
  finally
    (catch_exception (guarded request_id (default (JStr "turn") kind) payload lock_token)
      (λ e, publish_result (py_str request_id) (error_event (internal_error_envelope e))))
    (call (XAck REQUESTS_STREAM CONSUMER_GROUP entry_id)).

(** *** Reclaim *)

Definition _turn_already_completed (turn_messages : list message) : bool :=
  match last turn_messages with
  | None => false
  | Some m => is_type AIMessage m && bool_decide (m_tool_calls m = []) && negb (is_retry_artifact m)
  end.

Inductive reclaim_action : Type := dead_letter | retry_fresh | retry_continue.
#[export] Instance reclaim_action_eq_dec : EqDecision reclaim_action.
Proof. solve_decision. Defined.

(** The messages after the last question, none when there is no question. *)
Fixpoint after_last_question (messages : list message) : option (list message) :=
  match messages with
  | [] => None
  | m :: rest =>
      match after_last_question rest with
      | Some turn => Some turn
      | None => if is_user_message m then Some rest else None
      end
  end.

(** What a readable checkpoint says; [None] is a thread without one. *)
Definition classify (state : option snapshot) : reclaim_action * bool :=
  let messages := match state with Some s => sn_messages s | None => [] end in
  match state, after_last_question messages with
  | Some s, Some turn_messages =>
      if _turn_already_completed turn_messages then (dead_letter, false) else
      if bool_decide (sn_next s ≠ []) && existsb id (sn_interrupts s) then (dead_letter, false) else
      if bool_decide (sn_next s = []) then (dead_letter, true) else (retry_continue, false)
  | _, _ => (retry_fresh, false)
  end.

Definition _classify_reclaimed_turn (thread_id : json) : P reclaim_action :=
  state ← catch_exception (s ← call (GetState thread_id); Ret (Ok s)) (λ e, Ret (Err e));
  match state with
  | Err _ => Ret dead_letter
  | Ok state =>
      let '(action, nothing_to_continue) := classify state in
      (if (nothing_to_continue : bool) then call (Count "agent_checkpoint_issue_total" "nothing_to_continue") else Ret ()) ;;
      Ret action
  end.

Definition _dead_letter_reclaimed (entry_id : string) (payload : json) (reason : string) : P () :=
  call (Count "agent_worker_job_reclaimed_total" "agent,dead_lettered") ;;
  publish_dead_letter REQUESTS_STREAM entry_id payload reason ;;
  call (XAck REQUESTS_STREAM CONSUMER_GROUP entry_id).

Definition WORKER_LOST_MESSAGE : string :=
  "The worker handling this request stopped responding before it finished. Please try again.".

(** Whether the job may run again, and the payload it would run with. *)
Definition retry_decision (payload : list (string * json)) : P (bool * list (string * json)) :=
  let kind := default (JStr "turn") (dict_get "kind" payload) in
  let thread_id := default JNull (dict_get "thread_id" payload) in
  if bool_decide (kind ∈ [JStr "cancel"; JStr "resume"]) then Ret (true, payload) else
  if bool_decide (kind ∈ [JStr "turn"; JStr "turn_continue"] ∧ thread_id ≠ JNull) then
    action ← _classify_reclaimed_turn thread_id;
    if bool_decide (action = dead_letter) then Ret (false, payload) else
    Ret (true, dict_set "kind" (JStr (if bool_decide (action = retry_fresh) then "turn" else "turn_continue")) payload)
  else Ret (false, payload).

Definition _handle_reclaimed_job (entry_id : string) (fs : fields) : P () :=
  match rbind (payload_text fs) loads_exc with
  | Err _ => _dead_letter_reclaimed entry_id (JObj []) "unreadable_payload"
  | Ok (JObj payload) =>
      '(safe_to_retry, payload) ← retry_decision payload;
      attempts ← (if (safe_to_retry : bool) then of_result (attempts_of payload) else Ret 0);
      if (safe_to_retry : bool) && (attempts <? MAX_AUTO_RECLAIM_RETRIES cfg) then
        republish_job REQUESTS_STREAM payload ;;
        call (Count "agent_worker_job_reclaimed_total" "agent,retried") ;;
        call (XAck REQUESTS_STREAM CONSUMER_GROUP entry_id)
      else
        (if truthy (dict_get "request_id" payload) then
           publish_result (py_str (default JNull (dict_get "request_id" payload)))
             (error_event (Envelope WORKER_LOST WORKER_LOST_MESSAGE JNull))
         else Ret ()) ;;
        _dead_letter_reclaimed entry_id (JObj payload) "worker_lost"
  | Ok _ => Throw (Exc "AttributeError" "get")
  end.

(** One pass of the loop; what it raises is logged. *)
Definition reclaim_pass (fuel : nat) : P () :=
  catch_exception
    (entries ← reclaim_stale_entries fuel REQUESTS_STREAM CONSUMER_GROUP (CONSUMER_NAME cfg)
                 (AGENT_WORKER_RECLAIM_IDLE_SECONDS cfg * 1000);
     each (default [] entries) (λ '(entry_id, fs), _handle_reclaimed_job entry_id fs))
    (λ _, Ret ()).

(** The loop, at most [passes] times round. *)
Fixpoint _reclaim_loop (fuel passes : nat) : P () :=
  match passes with
  | O => Ret ()
  | S passes =>
      stop ← call (Stopping (WORKER_RECLAIM_INTERVAL_SECONDS cfg));
      if (stop : bool) then Ret () else reclaim_pass fuel ;; _reclaim_loop fuel passes
  end.
End worker.
