(* ===== verification/JobAnswers.v ===== *)
(** The lock protocol of the job queue: which commands its coroutines may issue when, on
    every answer of Redis, the checkpointer and the graph. *)
From S2P Require Import Prelude Dict Json Text Messages Process Jobs.

Local Open Scope string_scope.
Local Open Scope list_scope.
Local Open Scope Z_scope.

(** ** What a run may do *)

(** The run of a turn yields JSON objects, and its terminal event is the last thing it does
    with the conversation. *)
Fixpoint sound_run (ended : bool) (s : source) : Prop :=
  match s with
  | Done | Fail _ => True
  | Work k => ended = false ∧ sound_run false k
  | Poll k => ∀ r, sound_run ended (k r)
  | Yield ev k => wf_json (JObj ev) ∧ sound_run (ended || is_terminal ev) k
  end.

(** ** The protocol *)

Inductive phase : Type := Idle | Held (key : string) | Released.

(** A coroutine's own token, and where it is with the lock. *)
Record lock_state : Type := LockState { own_token : option string; lock_phase : phase }.
Definition unlocked : lock_state := LockState None Idle.

Definition holds (x : lock_state) : Prop := match lock_phase x with Held _ => True | _ => False end.

Definition LOCK_PREFIX : string := "agent:lock:".
Definition is_lock (key : string) : bool := startswith key LOCK_PREFIX.

(** The entry of a results stream is a terminal event. *)
Definition terminal_fields (fs : list (string * string)) : bool :=
  match dict_get "payload" fs with
  | Some t => match loads t with Some (JObj ev) => is_terminal ev | _ => false end
  | None => false
  end.

Section lock.
Context (cfg : settings).

(** Lock keys are only set with [NX], the lifetime and the own token, and only released by
    the script with the own token; the conversation is worked on, by a step of the graph or
    by a cancellation, only under its lock; a terminal event and the acknowledgement come after the release. *)
Definition allowed (x : lock_state) (R : Type) (c : cmd R) : Prop :=
  match c with
  | SetKey key v nx ex =>
      is_lock key = true → nx = true ∧ own_token x = Some v ∧ ex = THREAD_LOCK_TTL_SECONDS cfg ∧ lock_phase x = Idle
  | Delete key => is_lock key = false
  | EvalRelease key token => own_token x = Some token ∧ lock_phase x = Held key
  | Touch thread_id => lock_phase x = Held (thread_lock_key (py_str thread_id))
  | CancelRun thread_id _ => lock_phase x = Held (thread_lock_key (py_str thread_id))
  | XAdd stream fs _ => is_lock stream = false ∧ (holds x → terminal_fields fs = false)
  | XAck stream _ _ => is_lock stream = false ∧ ¬ holds x
  | Expire key _ => is_lock key = false
  | XGroupCreate stream _ => is_lock stream = false
  | XReadGroup _ _ stream _ _ => is_lock stream = false
  | XAutoClaim stream _ _ _ _ _ => is_lock stream = false
  | Uuid4 => lock_phase x = Idle
  | _ => True
  end.

Definition next (x : lock_state) (R : Type) (c : cmd R) : result exc R → lock_state :=
  match c in cmd R return result exc R → lock_state with
  | Uuid4 => λ r, match r with Ok u => LockState (Some u) (lock_phase x) | Err _ => x end
  | SetKey key v nx ex => λ r,
      match r with
      | Ok true => if is_lock key then LockState (own_token x) (Held key) else x
      | _ => x
      end
  | EvalRelease key token => λ _, LockState (own_token x) Released
  | _ => λ _, x
  end.

Abbreviation keeps := (safe allowed next).

Lemma thread_key_is_lock t : is_lock (thread_lock_key t) = true.
Proof. unfold is_lock, startswith, LOCK_PREFIX, thread_lock_key. by destruct t. Qed.

Lemma other_keys t d : is_lock (cancel_flag_key t) = false ∧ is_lock (_submission_dedup_key t d) = false ∧
  is_lock (results_stream_key t) = false.
Proof. done. Qed.

(** *** Publishing *)

Lemma terminal_fields_dumps ev : wf_json (JObj ev) → terminal_fields [("payload", dumps (JObj ev))] = is_terminal ev.
Proof. intros Hw. unfold terminal_fields. cbn [dict_get]. rewrite bool_decide_eq_true_2 by done. by rewrite loads_dumps. Qed.

Lemma keeps_publish_result {Q} x rid ev :
  wf_json (JObj ev) → (holds x → is_terminal ev = false) → (∀ r, Q x r) → keeps x (publish_result rid ev) Q.
Proof.
  intros Hw Ht HQ. unfold publish_result. apply safe_bind, safe_call.
  - split; [done|]. intros Hh. rewrite terminal_fields_dumps by done. by apply Ht.
  - intros [v|e]; [|by apply HQ]. by apply safe_call.
Qed.

Lemma wf_error_event env : wf_json (env_details env) → wf_json (JObj (error_event env)).
Proof.
  intros Hw. apply wf_obj. split.
  - vm_compute. repeat constructor; vm_compute; intros H; repeat (apply elem_of_cons in H as [H|H]; [done|]);
      by apply not_elem_of_nil in H.
  - repeat constructor. done.
Qed.

Lemma wf_internal e : wf_json (JObj (error_event (internal_error_envelope e))).
Proof. apply wf_error_event, wf_obj. split; [apply NoDup_singleton|]. by repeat constructor. Qed.

Lemma wf_done : wf_json (JObj [("type", JStr "done")]).
Proof. apply wf_obj. split; [apply NoDup_singleton|]. by repeat constructor. Qed.

(** *** Coroutines with the release flag *)

(** Where a job under the lock is: not released and holding it, or released. *)
Definition under (key token : string) (released : bool) (x : lock_state) : Prop :=
  own_token x = Some token ∧ lock_phase x = if released then Released else Held key.

Definition good {A} (key token : string) (ended ended' : bool) (m : L A) : Prop :=
  ∀ x released, under key token released x → (released = true → ended = true) →
  keeps x (m released) (λ x' r, ∃ r' released', r = Ok (r', released') ∧ under key token released' x' ∧
    (released' = true → ended' = true ∨ ∃ e, r' = Err e)).

Lemma good_and_then {A B} key token e1 e2 e3 (m : L A) (f : A → L B) :
  good key token e1 e2 m → (∀ a, good key token e2 e3 (f a)) → good key token e1 e3 (and_then m f).
Proof.
  intros Hm Hf x released Hx He. unfold and_then. apply safe_bind.
  eapply safe_conseq; [by apply Hm|]. intros x' r (r' & released' & -> & Hx' & He'). cbn iota beta.
  destruct r' as [a|e].
  - apply Hf; [done|]. intros Hr. by destruct (He' Hr) as [?|[? ?]].
  - simpl. exists (Err e), released'. split_and!; [done|done|]. eauto.
Qed.

Lemma good_pass key token e : good key token e e (pass ()).
Proof. intros x released Hx He. simpl. exists (Ok ()), released. split_and!; [done|done|]. intros Hr. left. by apply He. Qed.

Lemma good_await {A} key token e (p : P A) :
  (∀ x released, under key token released x → (released = true → e = true) → keeps x p (λ x' _, x' = x)) →
  good key token e e (await p).
Proof.
  intros Hp x released Hx He. unfold await. apply safe_catch, safe_bind.
  eapply safe_conseq; [by eapply Hp|]. intros x' [a|exn] ->; simpl.
  - exists (Ok a), released. split_and!; [done|done|]. intros Hr. left. by apply He.
  - exists (Err exn), released. split_and!; [done|done|]. intros Hr. left. by apply He.
Qed.

Lemma good_weaken {A} key token e1 e2 (m : L A) : good key token e1 e1 m → (e1 = true → e2 = true) → good key token e1 e2 m.
Proof.
  intros Hm He x released Hx Hr. eapply safe_conseq; [by apply Hm|].
  intros x' r (r' & released' & -> & Hx' & He'). exists r', released'. split_and!; [done|done|].
  intros H. destruct (He' H) as [?|?]; [left; by apply He|by right].
Qed.

Lemma release_spec thread token released x :
  under (thread_lock_key thread) token released x →
  keeps x (release_lock thread token released)
    (λ x' r, ∃ r', r = Ok (r', true) ∧ under (thread_lock_key thread) token true x').
Proof.
  intros [Ht Hp]. unfold release_lock. destruct released.
  - simpl. exists (Ok ()). by repeat split.
  - apply safe_catch, safe_bind, safe_call; [by split|]. intros [[]|e']; simpl; by eexists.
Qed.

Lemma await_publish_spec key token released x rid ev :
  wf_json (JObj ev) → under key token released x → (released = false → is_terminal ev = false) →
  keeps x (await (publish_result rid ev) released) (λ x' r, ∃ r', r = Ok (r', released) ∧ x' = x).
Proof.
  intros Hw [Ht Hp] He. unfold await. apply safe_catch, safe_bind, keeps_publish_result; [done| |].
  - unfold holds. rewrite Hp. by destruct released; [|intros _; apply He].
  - intros [[]|e]; simpl; by eexists.
Qed.

Lemma good_release thread token e : good (thread_lock_key thread) token e true (release_lock thread token).
Proof.
  intros x released Hx He. eapply safe_conseq; [by apply release_spec|].
  intros x' r (r' & -> & Hx'). exists r', true. split_and!; [done|done|by left].
Qed.

(** A release, then a publish that cannot come before it. *)
Lemma good_final thread token e rid ev :
  wf_json (JObj ev) →
  good (thread_lock_key thread) token e true
    (and_then (release_lock thread token) (λ _, await (publish_result rid ev))).
Proof.
  intros Hw x released Hx He. unfold and_then. apply safe_bind.
  eapply safe_conseq; [by apply release_spec|]. intros x' r (r' & -> & Hx'). cbn iota beta.
  destruct r' as [[]|exn]; [|exists (Err exn), true; split_and!; [done|done|by left]].
  eapply safe_conseq; [by eapply await_publish_spec|]. intros x1 r1 (r' & -> & ->). exists r', true.
  split_and!; [done|done|by left].
Qed.

Lemma good_event thread token e rid ev :
  wf_json (JObj ev) →
  good (thread_lock_key thread) token e (e || is_terminal ev) (publish_event rid (release_lock thread token) ev).
Proof.
  intros Hw. unfold publish_event. destruct (is_terminal ev) eqn:Et; [rewrite orb_true_r; by apply good_final|].
  rewrite orb_false_r. intros x released Hx He. eapply safe_conseq; [by eapply await_publish_spec|].
  intros x1 r1 (r' & -> & ->). exists r', released. split_and!; [done|done|]. intros Hr. left. by apply He.
Qed.

Lemma keeps_quiet {Q} x thread : (∀ r, Q x r) → keeps x (is_cancelled thread) Q.
Proof. intros HQ. apply safe_bind, safe_call; [done|]. by intros [v|e]; simpl. Qed.

Lemma good_events thread token rid s e :
  sound_run e s →
  good (thread_lock_key (py_str thread)) token e true
    (_publish_events thread (is_cancelled (py_str thread)) rid (release_lock (py_str thread) token) s).
Proof.
  revert e. induction s as [|exn|ev k IH|k IH|k IH]; intros e Hs; cbn [sound_run] in Hs; cbn [_publish_events].
  - apply good_weaken; [apply good_pass|done].
  - intros x released Hx He. exists (Err exn), released. split_and!; [done|done|by left].
  - destruct Hs as [Hw Hs]. eapply good_and_then; [by apply good_event|]. intros []. by apply IH.
  - intros x released Hx He. cbv beta. apply safe_bind, safe_catch, safe_bind, keeps_quiet.
    intros [b|exn]; cbn [safe]; by apply (IH _ e).
  - destruct Hs as [-> Hs]. eapply (good_and_then _ _ false false); [|intros []; by apply IH].
    apply good_await. intros x released [_ Hp] Hr. destruct released; [by discriminate Hr|].
    apply safe_call; [exact Hp|done].
Qed.

Lemma good_item key token e payload k : good key token e e (item payload k).
Proof. apply good_await. intros x released _ _. by apply safe_of_result. Qed.

Lemma good_item_or key token e payload k d : good key token e e (item_or payload k d).
Proof.
  apply good_await. intros x released _ _. apply safe_bind, safe_of_result. by destruct (get_item payload k).
Qed.

Lemma good_clear key token e t : good key token e e (await (clear_cancel_flag t)).
Proof. apply good_await. intros x released _ _. by apply safe_call. Qed.

Lemma good_at_last {A} thread token (m : L A) :
  good (thread_lock_key thread) token false true m → ∀ x, under (thread_lock_key thread) token false x →
  keeps x (at_last m (release_lock thread token) false)
    (λ x' r, ∃ r', r = Ok (r', true) ∧ under (thread_lock_key thread) token true x').
Proof.
  intros Hm x Hx. unfold at_last. apply safe_bind.
  eapply safe_conseq; [by apply Hm|]. intros x' r (r' & released' & -> & Hx' & _). cbn iota beta.
  apply safe_bind. eapply safe_conseq; [by apply release_spec|]. intros x1 r1 (r1' & -> & Hx1). simpl. by eexists.
Qed.
End lock.

(** *** The jobs *)

Section jobs.
Context (cfg : settings) (runs : run_of → source).
Hypothesis runs_sound : ∀ r, sound_run false (runs r).

Abbreviation keeps := (safe (allowed cfg) next).

Ltac items :=
  repeat match goal with
  | |- good _ _ _ _ _ (and_then (item _ _) _) => eapply good_and_then; [apply good_item|intros ?]
  | |- good _ _ _ _ _ (and_then (item_or _ _ _) _) => eapply good_and_then; [apply good_item_or|intros ?]
  | |- good _ _ _ _ _ (and_then (await (clear_cancel_flag _)) _) => eapply good_and_then; [apply good_clear|intros ?]
  end.

(** The handlers run on the conversation named by the payload, which is the locked one. *)
Definition on_thread (payload : json) (thread : string) : Prop :=
  ∀ v, subscript payload "thread_id" = Ok v → py_str v = thread.

Lemma good_thread {A} token thread payload (f : json → L A) e1 e2 :
  on_thread payload thread →
  (∀ v, py_str v = thread → good cfg (thread_lock_key thread) token e1 e2 (f v)) → (e1 = true → e2 = true) →
  good cfg (thread_lock_key thread) token e1 e2 (and_then (item payload "thread_id") f).
Proof.
  intros Ht Hf He x released Hx Hr. unfold and_then, item, await. specialize (Ht).
  destruct (subscript payload "thread_id") as [v|exn] eqn:E; cbn [of_result bind catch safe].
  - apply Hf; [by apply Ht|done|done].
  - exists (Err exn), released. split_and!; [done|done|]. intros H. left. by apply He, Hr.
Qed.

Lemma handlers_good kind h payload token thread rid :
  handler_of runs kind = Some h → on_thread payload thread →
  good cfg (thread_lock_key thread) token false true (h rid payload (release_lock thread token)).
Proof.
  intros Hh Ht. destruct kind as [| | | |k| |]; try done. simpl in Hh.
  repeat case_bool_decide; simplify_eq;
    (apply good_thread; [done| |done]; intros v <-; items; try (apply good_events, runs_sound)).
  eapply good_and_then.
  { apply (good_await cfg _ _ false). intros x released [_ Hp] Hr. destruct released; [by discriminate Hr|]. by apply safe_call. }
  intros cancelled.
  apply good_final. destruct cancelled; [by apply wf_error_event|apply wf_done].
Qed.

(** Before the lock is asked for, and after the job, nothing is held. *)
Lemma guarded_keeps rid kind payload token Q :
  (∀ x r, ¬ holds x → own_token x = Some token → Q x r) →
  keeps (LockState (Some token) Idle) (guarded cfg runs rid kind payload token) Q.
Proof.
  intros HQ. assert (Hidle : ∀ r, Q (LockState (Some token) Idle) r) by (intros r; apply HQ; [intros []|done]).
  unfold guarded. destruct (subscript payload "thread_id") as [v|exn] eqn:E; cbn [of_result bind safe]; [|apply Hidle].
  destruct (handler_of runs kind) as [h|] eqn:Eh; [|apply Hidle].
  apply safe_bind, safe_call; [done|]. intros [[]|exn]; cbn [next].
  - rewrite thread_key_is_lock. apply safe_bind. eapply safe_conseq.
    + apply (good_at_last _ _ token); [|done]. apply (handlers_good kind); [done|].
      intros v' Hv'. congruence.
    + intros x r (r' & -> & Ht & Hp). cbn iota beta. apply safe_of_result, HQ; [|done]. intros Hh. unfold holds in Hh. by rewrite Hp in Hh.
  - apply keeps_publish_result; [by apply wf_error_event|done|apply Hidle].
  - apply Hidle.
Qed.

Lemma unlocked_free : ¬ holds unlocked.
Proof. intros []. Qed.

Lemma process_request_keeps entry_id fs :
  keeps unlocked (process_request cfg runs entry_id fs) (λ x _, ¬ holds x).
Proof.
  unfold process_request. destruct (payload_text fs) as [t|]; [|exact unlocked_free]. cbn [of_result bind].
  destruct (loads_exc t) as [payload|]; [|exact unlocked_free]. cbn [of_result bind].
  destruct (subscript payload "request_id") as [rid|]; [|exact unlocked_free]. cbn [of_result bind].
  destruct (get_item payload "kind") as [kind|]; [|exact unlocked_free]. cbn [of_result bind].
  apply safe_bind, safe_call; [done|]. intros [token|exn]; cbn [next]; [|exact unlocked_free].
  apply safe_finally, safe_catch, guarded_keeps. intros x [[]|exn] Hh Ht; [by apply safe_call|]. destruct (base_exception exn).
  - by apply safe_call.
  - apply keeps_publish_result; [apply wf_internal|by intros ?|]. intros r. by apply safe_call.
Qed.
End jobs.

(** ** The other coroutines leave the lock alone *)

Definition quiet {R} (c : cmd R) : bool :=
  match c with
  | SetKey key _ _ _ => negb (is_lock key)
  | Delete key => negb (is_lock key)
  | XAdd stream _ _ => negb (is_lock stream)
  | XAck stream _ _ => negb (is_lock stream)
  | Expire key _ => negb (is_lock key)
  | XGroupCreate stream _ => negb (is_lock stream)
  | XReadGroup _ _ stream _ _ => negb (is_lock stream)
  | XAutoClaim stream _ _ _ _ _ => negb (is_lock stream)
  | EvalRelease _ _ => false
  | Touch _ | CancelRun _ _ => false
  | _ => true
  end.

Section others.
Context (cfg : settings).

Definition idle {A} (p : P A) : Prop := ∀ x, lock_phase x = Idle →
  safe (allowed cfg) next x p (λ x' _, lock_phase x' = Idle).

Lemma idle_ret {A} (a : A) : idle (Ret a).
Proof. by intros x Hx. Qed.
Lemma idle_throw {A} e : idle (A := A) (Throw e).
Proof. by intros x Hx. Qed.
Lemma idle_result {A} (r : result exc A) : idle (of_result r).
Proof. destruct r; [apply idle_ret|apply idle_throw]. Qed.
Lemma idle_bind {A B} (p : P A) (f : A → P B) : idle p → (∀ a, idle (f a)) → idle (bind p f).
Proof.
  intros Hp Hf x Hx. apply safe_bind. eapply safe_conseq; [by apply Hp|]. intros x' [a|e] Hx'; [by apply Hf|done].
Qed.
Lemma idle_catch {A} (p : P A) h : idle p → (∀ e, idle (h e)) → idle (catch p h).
Proof.
  intros Hp Hf x Hx. apply safe_catch. eapply safe_conseq; [by apply Hp|]. intros x' [a|e] Hx'; [done|by apply Hf].
Qed.
Lemma idle_catch_exception {A} (p : P A) h : idle p → (∀ e, idle (h e)) → idle (catch_exception p h).
Proof. intros Hp Hh. apply idle_catch; [done|]. intros e. destruct (base_exception e); [apply idle_throw|apply Hh]. Qed.
Lemma idle_call {R} (c : cmd R) : quiet c = true → idle (call c).
Proof.
  intros Hq x Hx. assert (Hh : ¬ holds x) by (unfold holds; rewrite Hx; intros []). apply safe_call.
  - destruct c; cbn [quiet] in Hq; cbn [allowed]; try apply negb_true_iff in Hq; try done.
    intros Hl. by rewrite Hl in Hq.
  - intros r. destruct c; cbn [quiet] in Hq; cbn [next]; try done.
    + apply negb_true_iff in Hq. rewrite Hq. by destruct r as [[]|].
    + by destruct r.
Qed.
Lemma idle_each {A} (xs : list A) f : (∀ a, idle (f a)) → idle (each xs f).
Proof. intros Hf. induction xs as [|a xs IH]; simpl; [apply idle_ret|]. by apply idle_bind; [|intros []]. Qed.

Ltac idle_step :=
  match goal with
  | |- idle (bind _ _) => apply idle_bind; [|intros ?]
  | |- idle (catch_exception _ _) => apply idle_catch_exception; [|intros ?]
  | |- idle (catch _ _) => apply idle_catch; [|intros ?]
  | |- idle (call _) => apply idle_call; solve [reflexivity]
  | |- idle (Ret _) => apply idle_ret
  | |- idle (Throw _) => apply idle_throw
  | |- idle (of_result _) => apply idle_result
  | |- idle (each _ _) => apply idle_each; intros ?
  | |- idle (match ?x with _ => _ end) => destruct x
  | |- idle (let '_ := ?x in _) => destruct x
  end.
Ltac idling := repeat idle_step.

Lemma idle_read_entries entries last_id : idle (read_entries entries last_id).
Proof. revert last_id. induction entries as [|[i fs] l IH]; intros last_id; cbn [read_entries]; idling; try apply IH. Qed.

Lemma idle_read_loop fuel rid block s dl last_id : idle (read_loop fuel rid block s dl last_id).
Proof.
  revert dl last_id. induction fuel as [|fuel IH]; intros dl last_id; cbn [read_loop]; idling; try apply IH.
  apply idle_read_entries.
Qed.

Lemma idle_events fuel rid : idle (_events cfg fuel rid).
Proof. unfold _events, read_results. idling. apply idle_read_loop. Qed.

Lemma idle_publish_result rid ev : idle (publish_result rid ev).
Proof. unfold publish_result. idling. Qed.

Lemma idle_stream_turn sha fuel text thread ctx domain require unattended dedup :
  idle (stream_turn cfg sha fuel text thread ctx domain require unattended dedup).
Proof.
  unfold stream_turn, claim_or_get_existing_submission, publish_request, release_submission_claim.
  idling; try apply idle_events.
Qed.

Lemma idle_stream_resume fuel thread approved ctx domain : idle (stream_resume cfg fuel thread approved ctx domain).
Proof. unfold stream_resume, publish_resume_request. idling. apply idle_events. Qed.

Lemma idle_cancel_turn thread ctx domain : idle (cancel_turn thread ctx domain).
Proof. unfold cancel_turn, set_cancel_flag, publish_cancel_request. idling. Qed.

Lemma idle_handle entry_id fs : idle (_handle_reclaimed_job cfg entry_id fs).
Proof.
  unfold _handle_reclaimed_job, _dead_letter_reclaimed, publish_dead_letter, republish_job, retry_decision,
    _classify_reclaimed_turn. idling; try apply idle_publish_result.
Qed.

Lemma idle_reclaim_pages fuel stream group consumer idle_ms count cursor claimed :
  is_lock stream = false → idle (reclaim_pages fuel stream group consumer idle_ms count cursor claimed).
Proof. intros Hs. revert cursor claimed. induction fuel as [|fuel IH]; intros; cbn [reclaim_pages]; idling; try apply IH.
  apply idle_call. cbn [quiet]. by rewrite Hs.
Qed.

Lemma idle_reclaim_loop fuel passes : idle (_reclaim_loop cfg fuel passes).
Proof.
  induction passes as [|passes IH]; cbn [_reclaim_loop]; unfold reclaim_pass, reclaim_stale_entries; idling; try done.
  - by apply idle_reclaim_pages.
  - apply idle_handle.
Qed.

Lemma idle_ensure domain : idle (ensure_consumer_group domain).
Proof. unfold ensure_consumer_group. idling. Qed.
End others.

(** Several coroutines over one Redis: the interleavings of the job queue's processes, and
    what they rely on Redis for. *)

Local Open Scope string_scope.
Local Open Scope list_scope.
Local Open Scope Z_scope.

(** The key or the stream a command may change. *)
Definition key_of {R} (c : cmd R) : option string :=
  match c with
  | SetKey key _ _ _ | Delete key | EvalRelease key _ | Expire key _ => Some key
  | XGroupCreate stream _ | XAdd stream _ _ | XReadGroup _ _ stream _ _ | XAck stream _ _ | XAutoClaim stream _ _ _ _ _ =>
      Some stream
  | _ => None
  end.

(** What the queue relies on Redis for.  Times are in microseconds; an answer can be an
    error although the command took effect, or without it. *)
Class Redis (S : Type) : Type := {
  lookup : S → Z → string → option string;             (* what GET answers at a time *)
  delete_key : Z → string → S → S;
  answers : Z → S → ∀ R, cmd R → result exc R → S → Prop;
  frame now s R (c : cmd R) r s' k t :
    answers now s R c r s' → key_of c ≠ Some k → now ≤ t → lookup s' t k = lookup s t k;
  nx_set now s k v ex s' t :
    answers now s bool (SetKey k v true ex) (Ok true) s' → now ≤ t < now + ex * 1000000 →
    lookup s now k = None ∧ lookup s' t k = Some v;
  nx_kept now s k v ex r s' t :
    answers now s bool (SetKey k v true ex) r s' → lookup s now k ≠ None → now ≤ t → lookup s' t k = lookup s t k;
  script_runs now s k token r s' :
    answers now s () (EvalRelease k token) r s' →
    s' = s ∨ s' = _RELEASE_LOCK_SCRIPT (λ k s, lookup s now k) (delete_key now) k token s;
}.

(** ** The processes *)

Section pool.
Context {S : Type} `{!Redis S} (cfg : settings) (runs : run_of → source) (sha256_hex : string → string).

(** What runs: a worker's jobs, its reclaim loop and its start, and the front doors'
    requests; every process with its own settings but the same request timeout. *)
Inductive coroutine : P () → Prop :=
| co_request cfg' entry_id fs :
    REQUEST_TIMEOUT_SECONDS cfg' = REQUEST_TIMEOUT_SECONDS cfg → coroutine (process_request cfg' runs entry_id fs)
| co_reclaim cfg' fuel passes :
    REQUEST_TIMEOUT_SECONDS cfg' = REQUEST_TIMEOUT_SECONDS cfg → coroutine (_reclaim_loop cfg' fuel passes)
| co_start domain : coroutine (ensure_consumer_group domain)
| co_turn cfg' fuel text thread ctx domain require unattended dedup :
    REQUEST_TIMEOUT_SECONDS cfg' = REQUEST_TIMEOUT_SECONDS cfg →
    coroutine (bind (stream_turn cfg' sha256_hex fuel text thread ctx domain require unattended dedup) (λ _, Ret ()))
| co_resume cfg' fuel thread approved ctx domain :
    REQUEST_TIMEOUT_SECONDS cfg' = REQUEST_TIMEOUT_SECONDS cfg →
    coroutine (bind (stream_resume cfg' fuel thread approved ctx domain) (λ _, Ret ()))
| co_cancel thread ctx domain : coroutine (cancel_turn thread ctx domain).

(** A running coroutine; the record keeps which lock it holds and since when. *)
Record process : Type := Process { pr_prog : P (); pr_lock : lock_state; pr_since : Z }.

(** The drawn [uuid4]s are kept to say that one is never drawn twice. *)
Record pool : Type := Pool { now : Z; store : S; processes : list process; drawn : list string }.

Definition fresh_answer (used : list string) {R} (c : cmd R) : result exc R → Prop :=
  match c in cmd R return result exc R → Prop with
  | Uuid4 => λ r, match r with Ok u => u ∉ used | Err _ => True end
  | _ => λ _, True
  end.
Definition draws {R} (c : cmd R) : result exc R → list string :=
  match c in cmd R return result exc R → list string with
  | Uuid4 => λ r, match r with Ok u => [u] | Err _ => [] end
  | _ => λ _, []
  end.

(** Since when the lock is held after a command: now, when it has just been taken. *)
Definition since_after (t : Z) (x x' : lock_state) (since : Z) : Z :=
  match lock_phase x, lock_phase x' with Idle, Held _ => t | _, _ => since end.

(** One step of the pool: a coroutine starts, time passes, a process dies, or a process has
    its next command answered. *)
Inductive pool_step : pool → pool → Prop :=
| step_spawn σ p :
    coroutine p → pool_step σ (Pool (now σ) (store σ) (processes σ ++ [Process p unlocked 0]) (drawn σ))
| step_time σ t :
    now σ ≤ t → pool_step σ (Pool t (store σ) (processes σ) (drawn σ))
| step_crash σ i :
    pool_step σ (Pool (now σ) (store σ) (<[i := Process (Ret ()) unlocked 0]> (processes σ)) (drawn σ))
| step_command σ i pr R (c : cmd R) k r s' :
    processes σ !! i = Some pr → pr_prog pr = Do c k →
    answers (now σ) (store σ) R c r s' → fresh_answer (drawn σ) c r →
    let x' := next (pr_lock pr) R c r in
    pool_step σ (Pool (now σ) s'
      (<[i := Process (k r) x' (since_after (now σ) (pr_lock pr) x' (pr_since pr))]> (processes σ))
      (draws c r ++ drawn σ)).

Inductive reachable_pool : pool → Prop :=
| reach_start t s : reachable_pool (Pool t s [] [])
| reach_pool σ σ' : reachable_pool σ → pool_step σ σ' → reachable_pool σ'.

(** ** The invariant *)

Definition ttl : Z := THREAD_LOCK_TTL_SECONDS cfg * 1000000.

Definition process_ok (σ : pool) (pr : process) : Prop :=
  safe (allowed cfg) next (pr_lock pr) (pr_prog pr) (λ _ _, True) ∧
  (∀ u, own_token (pr_lock pr) = Some u → u ∈ drawn σ) ∧
  (∀ key, lock_phase (pr_lock pr) = Held key →
     is_lock key = true ∧ pr_since pr ≤ now σ ∧ ∃ u, own_token (pr_lock pr) = Some u ∧
     ∀ t, now σ ≤ t < pr_since pr + ttl → lookup (store σ) t key = Some u).

Definition tokens_differ (ps : list process) : Prop := ∀ i j p q u,
  ps !! i = Some p → ps !! j = Some q → own_token (pr_lock p) = Some u → own_token (pr_lock q) = Some u → i = j.

Definition pool_ok (σ : pool) : Prop := Forall (process_ok σ) (processes σ) ∧ tokens_differ (processes σ).

Lemma allowed_timeout cfg' x R (c : cmd R) :
  REQUEST_TIMEOUT_SECONDS cfg' = REQUEST_TIMEOUT_SECONDS cfg → allowed cfg' x R c → allowed cfg x R c.
Proof. intros Ht. unfold allowed, THREAD_LOCK_TTL_SECONDS. by rewrite Ht. Qed.

Lemma safe_timeout {A} cfg' x (p : P A) Q :
  REQUEST_TIMEOUT_SECONDS cfg' = REQUEST_TIMEOUT_SECONDS cfg →
  safe (allowed cfg') next x p Q → safe (allowed cfg) next x p Q.
Proof.
  intros Ht. revert x. induction p as [a|e|R c k IH]; simpl; intros x Hs; [done..|].
  destruct Hs as [Ha Hs]. split; [by apply (allowed_timeout cfg')|]. intros r. by apply IH.
Qed.

Context (runs_sound : ∀ r, sound_run false (runs r)).

Lemma coroutine_safe p : coroutine p → safe (allowed cfg) next unlocked p (λ _ _, True).
Proof.
  assert (Hidle : ∀ cfg' A (q : P A), REQUEST_TIMEOUT_SECONDS cfg' = REQUEST_TIMEOUT_SECONDS cfg →
    idle cfg' q → safe (allowed cfg) next unlocked q (λ _ _, True)).
  { intros cfg' A q Ht Hq. apply (safe_timeout cfg'); [done|]. by eapply safe_conseq; [by apply Hq|]. }
  destruct 1 as [cfg' entry_id fs Ht|cfg' fuel passes Ht|domain|cfg' fuel text thread ctx domain req un dedup Ht
    |cfg' fuel thread approved ctx domain Ht|thread ctx domain].
  - apply (safe_timeout cfg'); [done|]. by eapply safe_conseq; [by apply process_request_keeps|].
  - eapply Hidle; [done|]. apply idle_reclaim_loop.
  - eapply Hidle; [done|]. apply idle_ensure.
  - eapply Hidle; [done|]. apply idle_bind; [apply idle_stream_turn|intros []; apply idle_ret].
  - eapply Hidle; [done|]. apply idle_bind; [apply idle_stream_resume|intros []; apply idle_ret].
  - eapply Hidle; [done|]. apply idle_cancel_turn.
Qed.

(** ** Every step keeps it *)

(** A lock that is held and alive survives the command of a process with another token. *)
Lemma others_keep_lock (t0 : Z) (s : S) R (c : cmd R) r s' x key u t :
  allowed cfg x R c → answers t0 s R c r s' → is_lock key = true → own_token x ≠ Some u →
  lookup s t0 key = Some u → t0 ≤ t → lookup s' t key = lookup s t key.
Proof.
  intros Ha Hans Hl Ht Hu Hle. destruct (decide (key_of c = Some key)) as [Hk|Hk]; [|by eapply frame].
  destruct c; simplify_eq/=; try (destruct Ha; congruence); try congruence.
  - destruct (Ha Hl) as (-> & _). eapply nx_kept; [done| |done]. by rewrite Hu.
  - destruct (script_runs _ _ _ _ _ _ Hans) as [->| ->]; [done|]. unfold _RELEASE_LOCK_SCRIPT.
    rewrite bool_decide_eq_false_2; [done|]. destruct Ha as [Hown _]. congruence.
Qed.

(** A process that holds its lock after a command has held it before and left it alone, or
    has just taken it. *)
Lemma own_command (t0 : Z) (s : S) x R (c : cmd R) r s' key :
  allowed cfg x R c → answers t0 s R c r s' → lock_phase (next x R c r) = Held key →
  (lock_phase x = Held key → is_lock key = true) →
  own_token (next x R c r) = own_token x ∧
  ((lock_phase x = Held key ∧ ∀ t, t0 ≤ t → lookup s' t key = lookup s t key) ∨
   (lock_phase x = Idle ∧ is_lock key = true ∧ ∃ u, own_token x = Some u ∧
      ∀ t, t0 ≤ t < t0 + ttl → lookup s' t key = Some u)).
Proof.
  intros Ha Hans Hn Hl.
  assert (Hframe : key_of c ≠ Some key → ∀ t, t0 ≤ t → lookup s' t key = lookup s t key).
  { intros Hk t Ht. by eapply frame. }
  destruct c; cbn [allowed next key_of] in Ha, Hn, Hframe |- *;
    try (split; [done|left; split; [done|apply Hframe; specialize (Hl Hn); (destruct Ha; congruence) || congruence]]).
  - assert (Hheld : lock_phase x = Held key → is_lock key0 = false).
    { intros Hp. destruct (is_lock key0); [|done]. destruct (Ha eq_refl) as (_ & _ & _ & Hp'). congruence. }
    assert (Hold : lock_phase x = Held key → own_token x = own_token x ∧
      (lock_phase x = Held key ∧ (∀ t, t0 ≤ t → lookup s' t key = lookup s t key) ∨
       lock_phase x = Idle ∧ is_lock key = true ∧ ∃ u, own_token x = Some u ∧ ∀ t, t0 ≤ t < t0 + ttl → lookup s' t key = Some u)).
    { intros Hp. split; [done|]. left. split; [done|]. apply Hframe. specialize (Hheld Hp). specialize (Hl Hp). congruence. }
    destruct r as [[]|]; try by apply Hold. destruct (is_lock key0) eqn:El; [|by apply Hold].
    destruct (Ha eq_refl) as (-> & Ho & -> & Hp). simplify_eq/=. split; [done|]. right. split; [done|]. split; [done|].
    exists value. split; [done|]. intros t Ht. by eapply (proj2 (nx_set _ _ _ _ _ _ _ Hans Ht)).
  - simplify_eq/=.
  - destruct r; simplify_eq/=; congruence.
Qed.

Lemma process_ok_fresh σ p : coroutine p → process_ok σ (Process p unlocked 0).
Proof. intros Hp. split_and!; [by apply coroutine_safe|done|done]. Qed.

Lemma dead_ok σ : process_ok σ (Process (Ret ()) unlocked 0).
Proof. by split_and!. Qed.

Lemma tokens_insert ps i p' :
  tokens_differ ps →
  (∀ u j q, own_token (pr_lock p') = Some u → ps !! j = Some q → own_token (pr_lock q) = Some u → j = i) →
  tokens_differ (<[i := p']> ps).
Proof.
  intros Hd Hn a b p q u Ha Hb Hp Hq.
  apply list_lookup_insert_Some in Ha as [(<- & <- & ?)|[Hia Ha]];
    apply list_lookup_insert_Some in Hb as [(<- & <- & ?)|[Hib Hb]]; [done| | |by eapply Hd].
  - symmetry. by eapply Hn.
  - by eapply Hn.
Qed.

Lemma insert_ok σ i p' :
  Forall (process_ok σ) (processes σ) → process_ok σ p' → Forall (process_ok σ) (<[i := p']> (processes σ)).
Proof. intros. by apply Forall_insert. Qed.

(** The answer of another process's command keeps a process as it is. *)
Lemma other_ok σ (x : lock_state) R (c : cmd R) r s' used ps pr :
  allowed cfg x R c → answers (now σ) (store σ) R c r s' → drawn σ ⊆ used →
  (∀ u, own_token x = Some u → own_token (pr_lock pr) ≠ Some u) →
  process_ok σ pr → process_ok (Pool (now σ) s' ps used) pr.
Proof.
  intros Ha Hans Hu Hne (Hs & Ht & Hh). split_and!; [done|by intros u ?; apply Hu, Ht|].
  intros key Hk. destruct (Hh key Hk) as (Hl & Hle & u & Ho & Hv). split_and!; [done|done|].
  exists u. split; [done|]. intros t Hb. cbn [now store] in Hb |- *. rewrite (others_keep_lock (now σ) (store σ) R c r s' x key u t).
  - by apply Hv.
  - done.
  - done.
  - done.
  - intros Hx. by apply (Hne u).
  - apply Hv. lia.
  - lia.
Qed.

(** The process itself, with the rest of its program. *)
Lemma own_ok σ pr R (c : cmd R) k r s' ps :
  process_ok σ pr → pr_prog pr = Do c k → answers (now σ) (store σ) R c r s' →
  let x' := next (pr_lock pr) R c r in
  process_ok (Pool (now σ) s' ps (draws c r ++ drawn σ))
    (Process (k r) x' (since_after (now σ) (pr_lock pr) x' (pr_since pr))).
Proof.
  intros (Hs & Ht & Hh) Hp Hans x'. rewrite Hp in Hs. destruct Hs as [Ha Hs]. split_and!; [apply Hs| |].
  - intros u Hu. simpl in Hu. apply elem_of_app.
    destruct c; unfold x' in Hu; cbn [next draws] in Hu |- *; try (right; by apply Ht).
    + destruct r as [[]|]; [destruct (is_lock key)|..]; right; by apply Ht.
    + destruct r as [v|]; [|right; by apply Ht]. simpl in Hu. simplify_eq. left. left.
  - intros key Hk. simpl in Hk.
    destruct (own_command (now σ) (store σ) _ _ _ _ _ key Ha Hans Hk) as [Ho Hcase]; [intros Hp'; by apply Hh|].
    unfold since_after. fold x' in Hk. rewrite Hk.
    destruct Hcase as [[Hp' Hkeep]|(Hp' & Hl & u & Hu & Hnew)]; rewrite Hp'; simpl.
    + destruct (Hh key Hp') as (Hl & Hle & u & Hou & Hv). split_and!; [done|done|]. exists u.
      split; [unfold x'; by rewrite Ho|]. intros t Hb. rewrite Hkeep by lia. by apply Hv.
    + split_and!; [done|lia|]. exists u. split; [unfold x'; by rewrite Ho|done].
Qed.

Lemma next_token x R (c : cmd R) r u :
  own_token (next x R c r) = Some u → own_token x = Some u ∨ u ∈ draws c r.
Proof.
  destruct c; cbn [next draws]; auto.
  - destruct r as [[]|]; [destruct (is_lock key)|..]; auto.
  - destruct r; simpl; [intros [= ->]; right; left|auto].
Qed.

Lemma fresh_draws used R (c : cmd R) r u : fresh_answer used c r → u ∈ draws c r → u ∉ used.
Proof.
  destruct c; cbn [fresh_answer draws]; try (intros _ H; by apply not_elem_of_nil in H).
  destruct r; [|intros _ H; by apply not_elem_of_nil in H]. intros Hf Hu. apply list_elem_of_singleton in Hu. by subst.
Qed.

Lemma pool_ok_step σ σ' : pool_ok σ → pool_step σ σ' → pool_ok σ'.
Proof.
  intros [Hall Hd] Hstep. destruct Hstep as [σ p Hp|σ t Ht|σ i|σ i pr R c k r s' Hi Hp Hans Hfresh x'].
  - split.
    + apply Forall_app. split; [exact Hall|]. constructor; [by apply process_ok_fresh|constructor].
    + intros a b pa pb u Ha Hb Hoa Hob.
      apply lookup_app_Some in Ha as [Ha|[_ Ha]]; [|by apply list_lookup_singleton_Some in Ha as [_ <-]].
      apply lookup_app_Some in Hb as [Hb|[_ Hb]]; [|by apply list_lookup_singleton_Some in Hb as [_ <-]].
      by eapply Hd.
  - split; [|exact Hd]. eapply Forall_impl; [exact Hall|]. intros pr (Hs & Hu & Hh). split_and!; [done|done|].
    intros key Hk. destruct (Hh key Hk) as (Hl & Hle & u & Ho & Hv). split_and!; [done|simpl; lia|].
    exists u. split; [done|]. intros t' Hb. apply Hv. simpl in Hb. lia.
  - split; [apply (insert_ok σ); [exact Hall|apply dead_ok]|]. apply tokens_insert; [exact Hd|]. by intros u j q [=].
  - assert (Hpr : process_ok σ pr) by by eapply (Forall_lookup_1 _ _ i).
    split.
    + apply Forall_lookup_2. intros j q Hj. apply list_lookup_insert_Some in Hj as [(<- & <- & _)|[Hij Hj]].
      * by eapply own_ok.
      * apply (other_ok σ (pr_lock pr) R c r s'); [by destruct Hpr as [Hs _]; rewrite Hp in Hs; destruct Hs|done| | |].
        -- intros u Hu. apply elem_of_app. by right.
        -- intros u Hu Hq. apply Hij. by eapply (Hd i j).
        -- by eapply (Forall_lookup_1 _ _ j).
    + apply tokens_insert; [exact Hd|]. intros u j q Hu Hj Hq. simpl in Hu.
      destruct (next_token _ _ _ _ _ Hu) as [Hu'|Hu']; [by eapply Hd|].
      exfalso. apply (fresh_draws _ _ _ _ _ Hfresh Hu').
      assert (process_ok σ q) as (_ & Ht & _) by by eapply (Forall_lookup_1 _ _ j). by apply Ht.
Qed.

Lemma reachable_pool_ok σ : reachable_pool σ → pool_ok σ.
Proof. induction 1 as [t s|σ σ' Hr IH Hs]; [by split|]. by eapply pool_ok_step. Qed.

(** Two processes that hold the lock of one conversation: the lock of one of them has
    expired. *)
Lemma lock_excludes σ i j p q key :
  pool_ok σ → processes σ !! i = Some p → processes σ !! j = Some q →
  lock_phase (pr_lock p) = Held key → lock_phase (pr_lock q) = Held key →
  now σ < pr_since p + ttl → now σ < pr_since q + ttl → i = j.
Proof.
  intros [Hall Hd] Hi Hj Hp Hq Htp Htq.
  assert (process_ok σ p) as (_ & _ & Hhp) by by eapply (Forall_lookup_1 _ _ i).
  assert (process_ok σ q) as (_ & _ & Hhq) by by eapply (Forall_lookup_1 _ _ j).
  destruct (Hhp key Hp) as (_ & _ & u & Hu & Hvu). destruct (Hhq key Hq) as (_ & _ & v & Hv & Hvv).
  specialize (Hvu (now σ)). specialize (Hvv (now σ)). rewrite Hvu in Hvv by lia.
  assert (u = v) as <- by (injection Hvv; [done|lia]). by eapply Hd.
Qed.

(** A process is about to work on a conversation: by a step of the graph, which writes its
    checkpoint, or by the cancellation of a paused run, which writes it too. *)
Definition works_on (p : process) (thread : json) : Prop :=
  (∃ k, pr_prog p = Do (Touch thread) k) ∨ (∃ ctx k, pr_prog p = Do (CancelRun thread ctx) k).

(** It holds the lock of the conversation then. *)
Lemma works_locked σ i p thread :
  pool_ok σ → processes σ !! i = Some p → works_on p thread →
  lock_phase (pr_lock p) = Held (thread_lock_key (py_str thread)).
Proof.
  intros [Hall _] Hi Hp. assert (process_ok σ p) as (Hs & _) by by eapply (Forall_lookup_1 _ _ i).
  destruct Hp as [[k Hp]|(ctx & k & Hp)]; rewrite Hp in Hs; by destruct Hs.
Qed.
End pool.

(** Every job is answered and acknowledged, an abandoned one is never lost, and a reader
    gets the events of its job: facts about every path of the queue's coroutines. *)

Local Open Scope string_scope.
Local Open Scope list_scope.
Local Open Scope Z_scope.

(** ** Answers *)

Definition any_command {X : Type} (x : X) (R : Type) (c : cmd R) : Prop := True.

(** Whether a terminal event has reached a results stream, and whether publishing failed. *)
Record progress : Type := Progress { answered : bool; publish_failed : bool }.
Definition settled (y : progress) : Prop := answered y = true ∨ publish_failed y = true.

Section answers.
Context (rid : string).

Definition note (y : progress) (R : Type) (c : cmd R) : result exc R → progress :=
  match c in cmd R return result exc R → progress with
  | XAdd stream fs _ => λ r,
      match r with
      | Ok _ => Progress (answered y || (bool_decide (stream = results_stream_key rid) && terminal_fields fs)) (publish_failed y)
      | Err _ => Progress (answered y) true
      end
  | Expire _ _ => λ r, match r with Ok _ => y | Err _ => Progress (answered y) true end
  | _ => λ _, y
  end.

Abbreviation notes := (safe any_command note).

Lemma note_settled y R (c : cmd R) r : settled y → settled (note y R c r).
Proof.
  intros [H|H]; destruct c; cbn [note]; try (by left); try (by right); destruct r; unfold settled; simpl; rewrite ?H;
    (by left) || (by right) || auto.
Qed.

(** Nothing takes an answer back. *)
Lemma notes_settled {A} y (p : P A) : settled y → notes y p (λ y' _, settled y').
Proof.
  revert y. induction p as [a|e|R c k IH]; simpl; intros y Hy; [done..|].
  split; [done|]. intros r. by apply IH, note_settled.
Qed.

Lemma notes_any {A} y (p : P A) : notes y p (λ _ _, True).
Proof. revert y. induction p as [a|e|R c k IH]; simpl; intros y; [done..|]. split; [done|]. intros r. apply IH. Qed.

(** Publishing an event settles the job when the event is terminal, or fails. *)
Lemma notes_publish y ev :
  wf_json (JObj ev) → notes y (publish_result rid ev) (λ y' r,
    (is_terminal ev = true → settled y') ∧ (settled y → settled y')).
Proof.
  intros Hw. apply safe_and; [|destruct (decide (answered y = true ∨ publish_failed y = true)) as [Hs|Hs];
    [by eapply safe_conseq; [by apply notes_settled|]|by eapply safe_conseq; [by apply notes_any|]]].
  unfold publish_result. apply safe_bind, safe_call; [done|]. intros [v|exn]; cbn iota.
  - apply safe_call; [done|]. intros r Ht. apply note_settled. left. cbn [note answered].
    rewrite terminal_fields_dumps, Ht, bool_decide_eq_true_2 by done. by rewrite andb_true_r, orb_true_r.
  - intros _. by right.
Qed.

(** From a state settled if [e], the program [m] raises, or settles if [e']. *)
Definition settles {A} (e e' : bool) (m : L A) : Prop := ∀ y released, (e = true → settled y) →
  notes y (m released) (λ y' r, ∃ r' released', r = Ok (r', released') ∧ ∀ a, r' = Ok a → e' = true → settled y').

Lemma settles_and_then {A B} e1 e2 e3 (m : L A) (f : A → L B) :
  settles e1 e2 m → (∀ a, settles e2 e3 (f a)) → settles e1 e3 (and_then m f).
Proof.
  intros Hm Hf y released Hy. unfold and_then. apply safe_bind.
  eapply safe_conseq; [by apply Hm|]. intros y' r (r' & released' & -> & Hr). cbn iota beta.
  destruct r' as [a|exn]; [apply Hf; by eapply Hr|]. simpl. by exists (Err exn), released'.
Qed.

Lemma settles_await {A} e e' (p : P A) :
  (∀ y, (e = true → settled y) → notes y p (λ y' r, ∀ a, r = Ok a → e' = true → settled y')) → settles e e' (await p).
Proof.
  intros Hp y released Hy. unfold await. apply safe_catch, safe_bind. eapply safe_conseq; [by apply Hp|].
  intros y' [a|exn] Hr; simpl; [exists (Ok a), released|exists (Err exn), released]; by split.
Qed.

Lemma settles_quiet {A} e (p : P A) : settles e e (await p).
Proof.
  apply settles_await. intros y Hy. destruct e.
  - eapply safe_conseq; [apply notes_settled; by apply Hy|]. intros y' r Hs a _ _. exact Hs.
  - eapply safe_conseq; [apply notes_any|]. by intros y' r _ a _.
Qed.

Lemma settles_pass e : settles e e (pass ()).
Proof. intros y released Hy. exists (Ok ()), released. by split; [|intros a _]. Qed.

Lemma settles_release e thread token : settles e e (release_lock thread token).
Proof.
  intros y released Hy. unfold release_lock. destruct released; [exists (Ok ()), true; by split; [|intros a _]|].
  apply safe_catch, safe_bind, safe_call; [done|]. intros [[]|exn]; [exists (Ok ()), true|exists (Err exn), true];
    (split; [done|]); [by intros a _|done].
Qed.

Lemma settles_publish e ev : wf_json (JObj ev) → settles e (e || is_terminal ev) (await (publish_result rid ev)).
Proof.
  intros Hw. apply settles_await. intros y Hy. eapply safe_conseq; [by apply notes_publish|].
  intros y' r [Ht Hs] a _ He. apply orb_true_iff in He as [He|He]; [by apply Hs, Hy|by apply Ht].
Qed.

Lemma settles_terminal ev : wf_json (JObj ev) → is_terminal ev = true → settles false true (await (publish_result rid ev)).
Proof. intros Hw Ht. pose proof (settles_publish false ev Hw) as H. by rewrite Ht in H. Qed.

Lemma settles_event e thread token ev :
  wf_json (JObj ev) → settles e (e || is_terminal ev) (publish_event rid (release_lock thread token) ev).
Proof.
  intros Hw. unfold publish_event. eapply settles_and_then; [|intros []; by apply settles_publish].
  destruct (is_terminal ev); [apply settles_release|apply settles_pass].
Qed.
End answers.

(** A run ends after a terminal event, or raises. *)
Fixpoint finishes (ended : bool) (s : source) : Prop :=
  match s with
  | Done => ended = true
  | Fail _ => True
  | Work k => finishes ended k
  | Poll k => ∀ r, finishes ended (k r)
  | Yield ev k => finishes (ended || is_terminal ev) k
  end.

Lemma settles_events thread token rid check s e :
  sound_run e s → finishes e s → settles rid e true (_publish_events thread check rid (release_lock (py_str thread) token) s).
Proof.
  revert e. induction s as [|exn|ev k IH|k IH|k IH]; intros e Hs Hf; cbn [sound_run finishes] in Hs, Hf; cbn [_publish_events].
  - subst. apply settles_pass.
  - intros y released Hy. by exists (Err exn), released.
  - destruct Hs as [Hw Hs]. eapply settles_and_then; [by apply settles_event|]. intros []. by apply IH.
  - intros y released Hy. cbv beta. apply safe_bind.
    assert (Hn : safe any_command (note rid) y (catch (b ← check; Ret (Ok b))%prog (λ exn, Ret (Err exn)))
      (λ y' r, (e = true → settled y') ∧ ∃ b, r = Ok b)).
    { apply safe_and; [destruct e|].
      - eapply safe_conseq; [apply notes_settled; by apply Hy|done].
      - by eapply safe_conseq; [apply notes_any|].
      - apply safe_catch, safe_bind. eapply safe_conseq; [apply notes_any|]. intros y' [b|exn] _; by eexists. }
    eapply safe_conseq; [exact Hn|]. intros y' r [Hy' [b ->]]. by apply (IH b e).
  - destruct Hs as [-> Hs]. eapply settles_and_then; [apply settles_quiet|]. intros []. by apply IH.
Qed.

Section jobs.
Context (cfg : settings) (runs : run_of → source).
Hypothesis runs_sound : ∀ r, sound_run false (runs r).
Hypothesis runs_finish : ∀ r, finishes false (runs r).

Lemma handlers_settle kind h payload token thread rid :
  handler_of runs kind = Some h → on_thread payload thread →
  settles rid false true (h rid payload (release_lock thread token)).
Proof.
  intros Hh Ht. destruct kind as [| | | |k| |]; try done. simpl in Hh.
  assert (Hitem : ∀ k, settles rid false false (item payload k)) by (intros; apply settles_quiet).
  assert (Hitem_or : ∀ k d, settles rid false false (item_or payload k d)) by (intros; apply settles_quiet).
  assert (Hthread : ∀ (f : json → L ()), (∀ v, py_str v = thread → settles rid false true (f v)) →
    settles rid false true (and_then (item payload "thread_id") f)).
  { intros f Hf y released Hy. unfold and_then, item, await. destruct (subscript payload "thread_id") as [v|exn] eqn:E;
      cbn [of_result bind catch safe]; [by apply Hf; [apply Ht|]|]. by exists (Err exn), released. }
  repeat case_bool_decide; simplify_eq; apply Hthread; intros v <-;
    repeat (eapply settles_and_then; [solve [apply Hitem|apply Hitem_or|apply settles_quiet|apply settles_release]|intros ?]);
    try (apply settles_events; [apply runs_sound|apply runs_finish]).
  match goal with |- settles _ _ _ (await (publish_result _ ?ev)) =>
    assert (Hev : wf_json (JObj ev) ∧ is_terminal ev = true) by
      (match goal with b : bool |- _ => destruct b end; split; [by apply wf_error_event|done|apply wf_done|done]) end.
  destruct Hev as [Hw Hterm]. by apply settles_terminal.
Qed.

(** The guarded part raises, or settles. *)
Lemma guarded_settles y rid kind payload token :
  safe any_command (note (py_str rid)) y (guarded cfg runs rid kind payload token)
    (λ y' r, ∀ a, r = Ok a → settled y').
Proof.
  unfold guarded. destruct (subscript payload "thread_id") as [v|exn] eqn:E; cbn [of_result bind safe]; [|done].
  destruct (handler_of runs kind) as [h|] eqn:Eh; [|done].
  apply safe_bind, safe_call; [done|]. intros [[]|exn]; [| |done].
  - apply safe_bind. unfold at_last. apply safe_bind.
    eapply safe_conseq; [apply (handlers_settle kind h payload token (py_str v)); [done|intros v' Hv'; congruence|done]|].
    intros y' r (r' & released' & -> & Hr). cbn iota beta. apply safe_bind.
    eapply safe_conseq.
    + apply (settles_release (py_str rid) (match r' with Ok _ => true | Err _ => false end)).
      destruct r' as [b|exn]; [intros _; by apply (Hr b)|done].
    + intros y1 r (rq & released1 & -> & Hq). cbn iota beta. cbn [safe].
      destruct rq as [[]|exn]; [|done]. destruct r' as [[]|exn]; [|done].
      intros b _. by apply (Hq ()).
  - eapply safe_conseq; [by apply notes_publish, wf_error_event|]. intros y' r [Ht _] b _. by apply Ht.
Qed.

(** Every path of a job whose payload can be read: the acknowledgement is its last
    command, and by then the job is answered or publishing has failed, or the job was cut
    short by an exception that is no [Exception]. *)
Lemma process_request_path entry_id fs text payload rid tr out :
  payload_text fs = Ok text → loads_exc text = Ok payload → subscript payload "request_id" = Ok rid →
  path (process_request cfg runs entry_id fs) tr out →
  (∃ e, tr = [Step Uuid4 (Err e)]) ∨
  ∃ token tr' r, tr = Step Uuid4 (Ok token) :: tr' ++ [Step (XAck (REQUESTS_STREAM cfg) CONSUMER_GROUP entry_id) r] ∧
    (settled (after (note (py_str rid)) (Progress false false) tr') ∨
     ∃ e, base_exception e = true ∧ out = match r with Ok _ => Err e | Err e' => Err e' end).
Proof.
  intros Ht Hl Hr. unfold process_request. rewrite Ht. cbn [of_result bind]. rewrite Hl. cbn [of_result bind].
  rewrite Hr. cbn [of_result bind]. assert (∃ kind, get_item payload "kind" = Ok kind) as [kind Hk].
  { destruct payload; try done. simpl. eauto. }
  rewrite Hk. cbn [of_result bind]. intros Hp. apply path_bind in Hp as [(token & tr1 & tr2 & Hu & Hp & ->)|(e & Hu & ->)];
    apply path_call in Hu; subst; [|left; eauto].
  right. apply path_finally in Hp as (out1 & tr3 & tr4 & outq & Hp & Hq & -> & ->). apply path_call in Hq. subst.
  exists token, tr3, outq. split; [done|].
  assert (Hs : safe any_command (note (py_str rid)) (Progress false false)
    (catch_exception (guarded cfg runs rid (default (JStr "turn") kind) payload token)
       (λ e, publish_result (py_str rid) (error_event (internal_error_envelope e))))
    (λ y r, settled y ∨ ∃ e, base_exception e = true ∧ r = Err e)).
  { apply safe_catch. eapply safe_conseq; [apply guarded_settles|]. intros y [a|e] Hy; [left; by eapply Hy|].
    destruct (base_exception e) eqn:Eb; [right; by exists e|].
    eapply safe_conseq; [apply notes_publish, wf_internal|]. intros y' r [H _]. left. by apply H. }
  destruct (safe_path _ _ _ _ _ _ _ Hs Hp) as [_ [H|(e & Hb & ->)]]; [by left|]. right. exists e. split; [done|]. by destruct outq.
Qed.
End jobs.

(** ** Reclaim *)

Section reclaim.
Context (cfg : settings) (entry_id : string).

(** What a reclaimed job is resubmitted with: one attempt more, below the limit; the rest as
    it was, but that an unfinished turn is started again or continued, as the checkpoint
    says. *)
Record resubmitted (state : option (option snapshot)) (payload payload' : list (string * json)) (attempts : Z) : Prop :=
  Resubmitted {
    re_attempts : attempts_of payload = Ok attempts ∧ attempts < MAX_AUTO_RECLAIM_RETRIES cfg ∧
      attempts_of payload' = Ok (attempts + 1);
    re_fields k : k ≠ "kind" → k ≠ RECLAIM_ATTEMPTS_FIELD → dict_get k payload' = dict_get k payload;
    re_kind :
      (dict_get "kind" payload ∈ [Some (JStr "cancel"); Some (JStr "resume")] ∧
       dict_get "kind" payload' = dict_get "kind" payload) ∨
      ∃ st action, state = Some st ∧ classify st = (action, false) ∧ action ≠ dead_letter ∧
        dict_get "kind" payload' = Some (JStr (if bool_decide (action = retry_fresh) then "turn" else "turn_continue"));
  }.

(** The checkpoint that was read, the last entry that was added to a stream, and whether
    the abandoned one is acknowledged. *)
Record reclaiming : Type := Reclaiming {
  read_state : option (option snapshot);
  saved : option (string * list (string * string));
  acked : bool;
}.

Definition reclaim_next (x : reclaiming) (R : Type) (c : cmd R) : result exc R → reclaiming :=
  match c in cmd R return result exc R → reclaiming with
  | GetState _ => λ r, match r with Ok st => Reclaiming (Some st) (saved x) (acked x) | Err _ => x end
  | XAdd stream fs _ => λ r, match r with Ok _ => Reclaiming (read_state x) (Some (stream, fs)) (acked x) | Err _ => x end
  | XAck _ _ _ => λ r, match r with Ok _ => Reclaiming (read_state x) (saved x) true | Err _ => x end
  | _ => λ _, x
  end.

(** Saved: back on the requests stream, or on the dead-letter stream with its payload. *)
Definition kept_safe (payload : option (list (string * json))) (x : reclaiming) : Prop :=
  (∃ p p' a, payload = Some p ∧ resubmitted (read_state x) p p' a ∧
     saved x = Some (REQUESTS_STREAM cfg, [("payload", dumps (JObj p'))])) ∨
  (∃ p reason, saved x = Some (dead_letter_stream_key (REQUESTS_STREAM cfg),
     [("original_entry_id", entry_id); ("reason", reason); ("payload", dumps (JObj p))]) ∧
     match payload with
     | Some payload => ∀ k, k ≠ "kind" → dict_get k p = dict_get k payload
     | None => p = []
     end).

Definition reclaim_allowed (payload : option (list (string * json))) (x : reclaiming) (R : Type) (c : cmd R) : Prop :=
  match c with
  | XAck stream group i => stream = REQUESTS_STREAM cfg ∧ group = CONSUMER_GROUP ∧ i = entry_id ∧ kept_safe payload x
  | _ => True
  end.

Abbreviation keeps payload := (safe (reclaim_allowed payload) reclaim_next).

Lemma keeps_dead_letter payload p reason x (Q : reclaiming → result exc () → Prop) :
  match payload with Some payload => ∀ k, k ≠ "kind" → dict_get k p = dict_get k payload | None => p = [] end →
  (∀ x e, Q x (Err e)) → (∀ x, kept_safe payload x ∧ acked x = true → Q x (Ok ())) →
  keeps payload x (_dead_letter_reclaimed cfg entry_id (JObj p) reason) Q.
Proof.
  intros Hp Herr Hok. unfold _dead_letter_reclaimed, publish_dead_letter.
  apply safe_bind, safe_call; [done|]. intros [[]|e]; [|apply Herr]. cbn iota.
  apply safe_bind, safe_bind, safe_call; [done|]. intros [v|e]; [|apply Herr]. cbn [safe reclaim_next].
  assert (Hk : kept_safe payload (Reclaiming (read_state x) (Some (dead_letter_stream_key (REQUESTS_STREAM cfg),
     [("original_entry_id", entry_id); ("reason", reason); ("payload", dumps (JObj p))])) (acked x))).
  { right. by exists p, reason. }
  apply safe_call; [done|]. intros [[]|e]; [by apply Hok; split|apply Herr].
Qed.

Lemma attempts_republished p a : attempts_of (republished p a) = Ok (a + 1).
Proof. unfold attempts_of, republished. by rewrite dict_get_set, bool_decide_eq_true_2. Qed.

Lemma attempts_kind p v : attempts_of (dict_set "kind" v p) = attempts_of p.
Proof. unfold attempts_of. by rewrite dict_get_set, bool_decide_eq_false_2. Qed.

(** What the decision says of the payload it returns. *)
Definition decided (payload : list (string * json)) (x : reclaiming) (safe_to_retry : bool) (p : list (string * json)) : Prop :=
  attempts_of p = attempts_of payload ∧ (∀ k, k ≠ "kind" → dict_get k p = dict_get k payload) ∧
  (safe_to_retry = true →
     (dict_get "kind" payload ∈ [Some (JStr "cancel"); Some (JStr "resume")] ∧ dict_get "kind" p = dict_get "kind" payload) ∨
     ∃ st action, read_state x = Some st ∧ classify st = (action, false) ∧ action ≠ dead_letter ∧
       dict_get "kind" p = Some (JStr (if bool_decide (action = retry_fresh) then "turn" else "turn_continue"))).

Lemma classify_flag st action : classify st = (action, true) → action = dead_letter.
Proof.
  unfold classify. destruct st as [st|]; [|done]. destruct (after_last_question _) as [turn|]; [|done].
  destruct (_turn_already_completed turn); [by intros [=]|]. destruct (bool_decide _ && _); [by intros [=]|].
  destruct (bool_decide _); [by intros [= <-]|by intros [=]].
Qed.

Lemma keeps_decision payload x (Q : reclaiming → result exc (bool * list (string * json)) → Prop) :
  (∀ x b p, decided payload x b p → Q x (Ok (b, p))) → (∀ x e, Q x (Err e)) →
  keeps (Some payload) x (retry_decision payload) Q.
Proof.
  intros HQ Herr. unfold retry_decision. case_bool_decide as Hk.
  - apply HQ. split_and!; [done|done|]. intros _. left. split; [|done].
    apply elem_of_cons in Hk as [Hk|Hk]; [|apply list_elem_of_singleton in Hk];
      destruct (dict_get "kind" payload); simplify_eq/=; [left|right; left].
  - case_bool_decide as Ht; [|by apply HQ; split_and!]. apply safe_bind. unfold _classify_reclaimed_turn.
    apply safe_bind, safe_catch, safe_bind, safe_call; [done|]. intros [st|e]; cbn [safe reclaim_next].
    2:{ destruct (base_exception e); [by apply Herr|]. apply HQ. by split_and!. }
    destruct (classify st) as [action nothing] eqn:Ec. apply safe_bind.
    assert (Hend : keeps (Some payload) (Reclaiming (Some st) (saved x) (acked x)) (
      if bool_decide (action = dead_letter) then Ret (false, payload)
      else Ret (true, dict_set "kind" (JStr (if bool_decide (action = retry_fresh) then "turn" else "turn_continue")) payload)) Q).
    { case_bool_decide as Ha; [by apply HQ; split_and!|]. apply HQ. split_and!.
      - apply attempts_kind.
      - intros k Hne. by rewrite dict_get_set, bool_decide_eq_false_2.
      - intros _. right. exists st, action. split_and!; [done| |done|].
        + destruct nothing; [by apply classify_flag in Ec|done].
        + by rewrite dict_get_set, bool_decide_eq_true_2. }
    destruct nothing; [|exact Hend]. apply safe_call; [done|]. intros [[]|e]; [exact Hend|apply Herr].
Qed.

(** The payload a reclaimed entry carries. *)
Definition payload_of (fs : list (string * string)) : option (list (string * json)) :=
  match rbind (payload_text fs) loads_exc with Ok (JObj p) => Some p | _ => None end.

Lemma handle_keeps fs :
  keeps (payload_of fs) (Reclaiming None None false) (_handle_reclaimed_job cfg entry_id fs)
    (λ x r, r = Ok () → kept_safe (payload_of fs) x ∧ acked x = true).
Proof.
  unfold _handle_reclaimed_job, payload_of. destruct (rbind (payload_text fs) loads_exc) as [j|e]; [|by apply keeps_dead_letter].
  destruct j as [| | | | | |payload]; try (by simpl).
  apply safe_bind, keeps_decision; [|done]. intros x safe_to_retry p (Ha & Hf & Hk). cbn iota beta.
  assert (Hdead : keeps (Some payload) x (
    (if truthy (dict_get "request_id" p) then publish_result (py_str (default JNull (dict_get "request_id" p)))
       (error_event (Envelope WORKER_LOST WORKER_LOST_MESSAGE JNull)) else Ret ()) ;;
    _dead_letter_reclaimed cfg entry_id (JObj p) "worker_lost")%prog (λ x r, r = Ok () → kept_safe (Some payload) x ∧ acked x = true)).
  { apply safe_bind. destruct (truthy _); [|by apply keeps_dead_letter].
    unfold publish_result. apply safe_bind, safe_call; [done|]. intros [v|e]; [|done].
    apply safe_call; [done|]. intros [[]|e]; [by apply keeps_dead_letter|done]. }
  destruct safe_to_retry; [|exact Hdead]. apply safe_bind, safe_of_result.
  destruct (attempts_of p) as [a|e] eqn:Ep; [|done]. cbn [andb].
  destruct (a <? MAX_AUTO_RECLAIM_RETRIES cfg) eqn:El; [|exact Hdead]. apply Z.ltb_lt in El.
  apply safe_bind. unfold republish_job. rewrite Ep. cbn [of_result bind]. apply safe_call; [done|].
  intros [v|e]; [|done]. cbn [safe reclaim_next].
  assert (Hsafe : kept_safe (Some payload)
    (Reclaiming (read_state x) (Some (REQUESTS_STREAM cfg, [("payload", dumps (JObj (republished p a)))])) (acked x))).
  { left. exists payload, (republished p a), a. split; [done|]. split; [|done]. constructor.
    - rewrite <-Ha, attempts_republished. by split_and!.
    - intros k Hne Hra. unfold republished. rewrite dict_get_set, bool_decide_eq_false_2 by congruence. by apply Hf.
    - unfold republished. rewrite !dict_get_set. rewrite bool_decide_eq_false_2 by done. by apply Hk. }
  apply safe_bind, safe_call; [done|]. intros [[]|e]; [|done]. cbn [safe reclaim_next].
  apply safe_call; [done|]. by intros [[]|e].
Qed.
End reclaim.

(** ** Reading the results *)

(** What a trace gave the caller, and what the stream gave the trace. *)
Definition emitted_by (s : step cmd) : list event :=
  match s with
  | Step c r => match c in cmd R return result exc R → list event with
                | Emit ev => λ r, match r with Ok _ => [ev] | Err _ => [] end
                | _ => λ _, []
                end r
  end.
Definition received_by (s : step cmd) : list entry :=
  match s with
  | Step c r => match c in cmd R return result exc R → list entry with
                | XRead _ _ _ _ => λ r, match r with Ok es => es | Err _ => [] end
                | _ => λ _, []
                end r
  end.
(** What the monotonic clock said. *)
Definition clock_by (s : step cmd) : list Z :=
  match s with
  | Step c r => match c in cmd R return result exc R → list Z with
                | Monotonic => λ r, match r with Ok t => [t] | Err _ => [] end
                | _ => λ _, []
                end r
  end.
Definition clocks (tr : list (step cmd)) : list Z := tr ≫= clock_by.
Definition emitted (tr : list (step cmd)) : list event := tr ≫= emitted_by.
Definition received (tr : list (step cmd)) : list entry := tr ≫= received_by.

Definition entry_event (e : entry) : option event :=
  match rbind (payload_text (snd e)) loads_exc with Ok (JObj ev) => Some ev | _ => None end.

(** The events up to the first terminal one, and whether there is one. *)
Fixpoint up_to_terminal (es : list event) : list event * bool :=
  match es with
  | [] => ([], false)
  | ev :: es => if is_terminal ev then ([ev], true) else let '(l, b) := up_to_terminal es in (ev :: l, b)
  end.

Definition last_id_of (es : list entry) (d : string) : string := default d (fst <$> last es).

(** Every read goes on after the last entry received. *)
Fixpoint reads_on (rid last_id : string) (tr : list (step cmd)) : Prop :=
  match tr with
  | [] => True
  | Step c r :: tr =>
      match c in cmd R return result exc R → Prop with
      | XRead stream from _ _ => λ r, stream = results_stream_key rid ∧ from = last_id ∧
          match r with Ok es => reads_on rid (last_id_of es last_id) tr | Err _ => True end
      | _ => λ _, reads_on rid last_id tr
      end r
  end.

Lemma received_app tr1 tr2 : received (tr1 ++ tr2) = received tr1 ++ received tr2.
Proof. apply bind_app. Qed.
Lemma emitted_app tr1 tr2 : emitted (tr1 ++ tr2) = emitted tr1 ++ emitted tr2.
Proof. apply bind_app. Qed.

Lemma up_to_terminal_app l1 l2 :
  up_to_terminal (l1 ++ l2) =
    if snd (up_to_terminal l1) then up_to_terminal l1
    else (l1 ++ fst (up_to_terminal l2), snd (up_to_terminal l2)).
Proof.
  induction l1 as [|ev l1 IH]; simpl; [by destruct (up_to_terminal l2)|].
  destruct (is_terminal ev); [done|]. rewrite IH. destruct (up_to_terminal l1) as [l b]. by destruct b.
Qed.

Lemma up_to_terminal_all l : snd (up_to_terminal l) = false → fst (up_to_terminal l) = l.
Proof.
  induction l as [|ev l IH]; simpl; [done|]. destruct (is_terminal ev); [done|].
  destruct (up_to_terminal l) as [l' b]. simpl in *. intros Hb. by rewrite IH.
Qed.

Lemma read_entries_path es last_id tr last' fin :
  path (read_entries es last_id) tr (Ok (last', fin)) →
  received tr = [] ∧ clocks tr = [] ∧ (∀ rid l tr', reads_on rid l tr' → reads_on rid l (tr ++ tr')) ∧
  ∃ evs, Forall2 (λ e ev, entry_event e = Some ev) (take (length evs) es) evs ∧
    (fin = false → length evs = length es ∧ last' = last_id_of es last_id) ∧
    up_to_terminal evs = (evs, fin) ∧ emitted tr = evs.
Proof.
  revert last_id tr. induction es as [|[i fs] es IH]; intros last_id tr; cbn [read_entries].
  - intros [-> [= -> ->]]. split_and!; [done..|]. exists []. by split_and!.
  - destruct (payload_text fs) as [t|] eqn:Et; [|by intros [_ [=]]]. cbn [of_result bind].
    destruct (loads_exc t) as [j|] eqn:Ej; [|by intros [_ [=]]]. cbn [of_result bind].
    destruct j as [| | | | | |ev]; try by intros [_ [=]].
    assert (He : entry_event (i, fs) = Some ev) by (unfold entry_event; simpl; by rewrite Et; simpl; rewrite Ej).
    intros Hp. apply path_bind in Hp as [([] & tr1 & tr2 & H1 & Hp & ->)|(e & _ & [=])].
    apply path_call in H1. subst. cbn iota in Hp. destruct (is_terminal ev) eqn:Ht.
    + destruct Hp as [-> [= -> ->]]. split_and!; [done..|]. exists [ev]. split_and!.
      * simpl. rewrite take_0. by repeat constructor.
      * done.
      * simpl. by rewrite Ht.
      * done.
    + destruct (IH _ _ Hp) as (Hr & Hclk & Hreads & evs & H2 & Hlen & Hup & Hem). split_and!; [done..|].
      exists (ev :: evs). split_and!.
      * simpl. by constructor.
      * intros Hfin. destruct (Hlen Hfin) as [Hl ->]. split; [simpl; by rewrite Hl|]. unfold last_id_of. rewrite last_cons. by destruct (last es).
      * simpl. by rewrite Ht, Hup.
      * simpl. by rewrite Hem.
Qed.

(** *** The loop *)

Definition no_response (rid : string) (seconds : Z) : event :=
  [("type", JStr "error");
   ("content", JStr ("No response for " +:+ repr_str rid +:+ " after " +:+ dump_int seconds +:+
      "s — is an agent-worker running for this domain?"))].

(** Everything received decoded, up to the entry that ended the reading. *)
Definition relayed (es : list entry) (evs : list event) (fin : bool) : Prop :=
  Forall2 (λ e ev, entry_event e = Some ev) (take (length evs) es) evs ∧
  (fin = false → length evs = length es) ∧ up_to_terminal evs = (evs, fin).

Lemma relayed_app es1 evs1 es2 evs2 fin :
  relayed es1 evs1 false → relayed es2 evs2 fin → relayed (es1 ++ es2) (evs1 ++ evs2) fin.
Proof.
  intros (H1 & L1 & U1) (H2 & L2 & U2). specialize (L1 eq_refl). unfold relayed. split_and!.
  - rewrite length_app, L1, take_app_add'. 2:done. rewrite L1, take_ge in H1 by done. by apply Forall2_app.
  - intros Hf. rewrite !length_app, L1, (L2 Hf). done.
  - rewrite up_to_terminal_app, U1. simpl. by rewrite U2.
Qed.

(** What a finished or interrupted loop has done: it relayed what it received, or told that
    nobody answered. *)
Definition loop_result (rid : string) (seconds : Z) (deadline : option Z) (tr : list (step cmd)) (fin : bool) : Prop :=
  relayed (received tr) (emitted tr) fin ∨
  (∃ d now, deadline = Some d ∧ d ≤ now ∧ now ∈ clocks tr ∧ received tr = [] ∧
     emitted tr = [no_response rid seconds] ∧ fin = true).

Lemma clocks_app tr1 tr2 : clocks (tr1 ++ tr2) = clocks tr1 ++ clocks tr2.
Proof. apply bind_app. Qed.

Lemma expired_path deadline tr expired :
  path (match deadline with
        | None => Ret false
        | Some deadline => now ← call Monotonic; Ret (deadline <=? now)
        end)%prog tr (Ok expired) →
  received tr = [] ∧ emitted tr = [] ∧ (∀ rid l tr', reads_on rid l tr' → reads_on rid l (tr ++ tr')) ∧
  (expired = false → ∀ d now, deadline = Some d → now ∈ clocks tr → now < d) ∧
  (expired = true → ∃ d now, deadline = Some d ∧ d ≤ now ∧ now ∈ clocks tr).
Proof.
  destruct deadline as [d|]; intros H.
  - apply path_bind in H as [(t & tr3 & tr4 & H1 & [-> [= ->]] & ->)|(e & _ & [=])]. apply path_call in H1. subst.
    split_and!; [done|done|done| |].
    + intros Hd d' now [= <-] Hn. apply list_elem_of_singleton in Hn as ->. by apply Z.leb_gt.
    + intros Hd. exists d, t. split_and!; [done|by apply Z.leb_le|left].
  - destruct H as [-> [= ->]]. by split_and!.
Qed.

Lemma read_loop_path fuel rid block seconds deadline last_id tr fin :
  path (read_loop fuel rid block seconds deadline last_id) tr (Ok fin) →
  reads_on rid last_id tr ∧ loop_result rid seconds deadline tr fin ∧
  (fin = false → received tr = [] → ∀ d now, deadline = Some d → now ∈ clocks tr → now < d).
Proof.
  revert deadline last_id tr. induction fuel as [|fuel IH]; intros deadline last_id tr; cbn [read_loop].
  - intros [-> [= ->]]. split_and!; [done|left; by repeat split|]. intros _ _ d now _ H. by apply not_elem_of_nil in H.
  - intros Hp. apply path_bind in Hp as [(expired & tr1 & tr2 & H1 & Hp & ->)|(e & _ & [=])].
    apply expired_path in H1 as (Hr1 & He1 & Hreads1 & Hlive & Hexp). destruct expired.
    + destruct (Hexp eq_refl) as (d & now & -> & Hle & Hin).
      apply path_bind in Hp as [([] & tr3 & tr4 & H1 & Hp & ->)|(e & _ & [=])]. apply path_call in H1. subst.
      apply path_bind in Hp as [([] & tr5 & tr6 & H1 & [-> [= ->]] & ->)|(e & _ & [=])]. apply path_call in H1. subst.
      split_and!; [by apply Hreads1| |done]. right. exists d, now.
      rewrite received_app, emitted_app, clocks_app, Hr1, He1. split_and!; try done. apply elem_of_app. by left.
    + specialize (Hlive eq_refl). clear Hexp.
      apply path_bind in Hp as [(es & tr3 & tr4 & H1 & Hp & ->)|(e & _ & [=])]. apply path_call in H1. subst.
      destruct es as [|e es].
      * apply IH in Hp as (Hreads & Hres & Hend). split_and!.
        -- apply Hreads1. simpl. by split_and!.
        -- destruct Hres as [Hrel|(d & now & -> & Hle & Hin & Hr & Hem & ->)]; [left|right].
           ++ by rewrite received_app, emitted_app, Hr1, He1.
           ++ exists d, now. rewrite received_app, emitted_app, clocks_app, Hr1, He1. split_and!; try done.
              apply elem_of_app. by right.
        -- intros Hf Hr d now Hd Hin. rewrite received_app, Hr1 in Hr. rewrite clocks_app in Hin.
           apply elem_of_app in Hin as [Hin|Hin]; [by eapply Hlive|by eapply Hend].
      * apply path_bind in Hp as [([last' fin1] & tr5 & tr6 & H1 & Hp & ->)|(e' & _ & [=])]. cbn iota in Hp.
        apply read_entries_path in H1 as (Hr5 & Hc5 & Hreads5 & evs & H2 & Hlen & Hup & Hem5).
        assert (Hrel : relayed (e :: es) evs fin1) by (split_and!; [done|intros Hf; by apply Hlen|done]).
        set (st := Step (XRead (results_stream_key rid) last_id block 10) (Ok (e :: es))).
        assert (Hst : received [st] = e :: es ∧ emitted [st] = [] ∧ clocks [st] = []) by (split_and!; [apply app_nil_r|done|done]).
        destruct Hst as (Hrst & Hest & Hcst).
        rewrite !received_app, !clocks_app, Hr1, Hrst, Hr5. unfold loop_result.
        rewrite !received_app, !emitted_app, !clocks_app, Hr1, He1, Hrst, Hest, Hr5, Hem5, Hc5, Hcst. simpl.
        assert (Hon : ∀ trx, reads_on rid (last_id_of (e :: es) last_id) trx → reads_on rid last_id (tr1 ++ [st] ++ tr5 ++ trx)).
        { intros trx Ht. apply Hreads1. split_and!; [done|done|]. by apply Hreads5. }
        destruct fin1.
        -- destruct Hp as [-> [= ->]]. split_and!; [by apply Hon| |done]. left. by rewrite !app_nil_r.
        -- destruct (Hlen eq_refl) as [Hl ->]. apply IH in Hp as (Hreads & Hres & Hend).
           split_and!; [by apply Hon| |done].
           destruct Hres as [Hr|(d & now & [=] & _)]. left. by apply (relayed_app (e :: es)).
Qed.

(** [read_results]: what it relays is what the stream holds up to the first terminal event,
    or one error when nothing arrived by the deadline. *)
Lemma read_results_path fuel rid block first tr fin :
  path (read_results fuel rid block first) tr (Ok fin) →
  reads_on rid "0" tr ∧
  (relayed (received tr) (emitted tr) fin ∨
   ∃ s, first = Some s ∧ received tr = [] ∧ emitted tr = [no_response rid s] ∧ fin = true) ∧
  (∀ s start later, first = Some s → fin = false → received tr = [] →
     head (clocks tr) = Some start → later ∈ tail (clocks tr) → later < start + s * 1000000).
Proof.
  unfold read_results. intros Hp. apply path_bind in Hp as [(dl & tr1 & tr2 & H1 & Hp & ->)|(e & _ & [=])].
  apply read_loop_path in Hp as (Hreads & Hres & Hend). destruct first as [s|]; cbn [default] in *.
  - apply path_bind in H1 as [(t & tr3 & tr4 & H1 & [-> [= ->]] & ->)|(e & _ & [=])]. apply path_call in H1. subst.
    split_and!; [done| |].
    + destruct Hres as [?|(d & now & _ & _ & _ & Hr & He & ->)]; [by left|right]. by exists s.
    + intros s' start later [= <-] Hf Hr Hst Hin. simpl in Hst, Hin. injection Hst as <-. by eapply Hend.
  - destruct H1 as [-> [= ->]]. split_and!; [done| |done].
    destruct Hres as [?|(d & now & [=] & _)]. by left.
Qed.
