(* ===== verification/JobTheorems.v ===== *)
(** The properties of the job queue, each with a concrete instance. *)
From S2P Require Import Prelude Dict Json Text Messages Process Jobs JobAnswers.

Local Open Scope string_scope.
Local Open Scope list_scope.
Local Open Scope Z_scope.

(** ** A small Redis and a small deployment, for the witnesses *)

Module Queue.

(** The string keys of a Redis with their values and expiry times. *)
Abbreviation table := (list (string * (string * Z))).

Definition alive (s : table) (t : Z) (key : string) : option string :=
  match dict_get key s with Some (v, e) => if t <? e then Some v else None | None => None end.
Definition without (t : Z) (key : string) (s : table) : table := filter (λ p, p.1 ≠ key) s.

Definition reply (u : string) (t : Z) (s : table) {R} (c : cmd R) : result exc R * table :=
  match c in cmd R return result exc R * table with
  | Get key => (Ok (alive s t key), s)
  | SetKey key v nx ex =>
      if nx && bool_decide (alive s t key ≠ None) then (Ok false, s)
      else (Ok true, dict_set key (v, t + ex * 1000000) s)
  | Delete key => (Ok (), without t key s)
  | EvalRelease key token => (Ok (), _RELEASE_LOCK_SCRIPT (λ k s, alive s t k) (without t) key token s)
  | XGroupCreate _ _ => (Ok (), s)
  | XAdd _ _ _ => (Ok "1-0", s)
  | Expire _ _ => (Ok (), s)
  | XRead _ _ _ _ => (Ok [], s)
  | XReadGroup _ _ _ _ _ => (Ok [], s)
  | XAck _ _ _ => (Ok (), s)
  | XAutoClaim _ _ _ _ _ _ => (Ok ("0-0", []), s)
  | Uuid4 => (Ok u, s)
  | Monotonic => (Ok t, s)
  | Stopping _ => (Ok true, s)
  | Count _ _ => (Ok (), s)
  | GetState _ => (Ok None, s)
  | CancelRun _ _ => (Ok true, s)
  | Touch _ => (Ok (), s)
  | Emit _ => (Ok (), s)
  end.

Lemma alive_without s t t0 key k : k ≠ key → alive (without t0 key s) t k = alive s t k.
Proof.
  intros Hk. unfold alive, without. assert (dict_get k (filter (λ p, p.1 ≠ key) s) = dict_get k s) as ->; [|done].
  induction s as [|[k1 v1] s IH]; [done|]. rewrite filter_cons. simpl. case_decide; simpl; [by case_bool_decide|].
  rewrite bool_decide_eq_false_2 by congruence. done.
Qed.

Lemma alive_set s t key v e k : k ≠ key → alive (dict_set key (v, e) s) t k = alive s t k.
Proof. intros Hk. unfold alive. by rewrite dict_get_set, bool_decide_eq_false_2 by congruence. Qed.

#[export] Instance table_redis : Redis table.
Proof.
  refine (Build_Redis _ alive without (λ t s R c r s', ∃ u, (r, s') = reply u t s c) _ _ _ _).
  - intros t0 s R c r s' k t [u Hr] Hk Ht. destruct c; simpl in Hr, Hk; simplify_eq; try done.
    + destruct (nx && _); simplify_eq; [done|]. apply alive_set. congruence.
    + apply alive_without. congruence.
    + unfold _RELEASE_LOCK_SCRIPT. case_bool_decide; [|done]. apply alive_without. congruence.
  - intros t0 s k v ex s' t [u Hr] Ht. simpl in Hr. case_bool_decide as Ha; simplify_eq. split.
    + destruct (alive s t0 k); [|done]. by destruct Ha.
    + unfold alive. rewrite dict_get_set, bool_decide_eq_true_2 by done.
      destruct (t <? t0 + ex * 1000000) eqn:E; [done|]. apply Z.ltb_ge in E. lia.
  - intros t0 s k v ex r s' t [u Hr] Ha Ht. simpl in Hr. by rewrite bool_decide_eq_true_2 in Hr by done; simplify_eq.
  - intros t0 s k token r s' [u Hr]. simpl in Hr. simplify_eq. by right.
Defined.

Definition cfg : settings := Settings 60 1 240 60 30 "ecorp" "host-1".

(** Every run works on the conversation and answers. *)
Definition demo_run (r : run_of) : source :=
  Work (Yield [("type", JStr "token"); ("content", JStr "Hello")] (Poll (λ _, Yield [("type", JStr "done")] Done))).

Lemma demo_sound r : sound_run false (demo_run r).
Proof.
  split; [done|]. split; [|intros _; split; [|done]].
  - apply wf_obj. split; [|by repeat constructor]. apply NoDup_cons. split; [|apply NoDup_singleton].
    intros H. by apply list_elem_of_singleton in H.
  - apply wf_done.
Qed.
Lemma demo_finishes r : finishes false (demo_run r).
Proof. by intros _. Qed.

Definition ctx : json := JObj [("user_id", JStr "u1"); ("tenant", JStr "acme")].
Definition job (request_id : string) : list (string * string) :=
  [("payload", dumps (turn_payload request_id "hi" "t-1" ctx false None false))].

(** One command of the [i]th process, with [u] for the next [uuid4]. *)
Definition fire (i : nat) (u : string) (σ : pool (S := table)) : option (pool (S := table)) :=
  match processes σ !! i with
  | Some (Process (Do c k) x since) =>
      let '(r, s') := reply u (now σ) (store σ) c in
      if bool_decide (u ∈ drawn σ) then None else
      Some (Pool (now σ) s' (<[i := Process (k r) (next x _ c r) (since_after (now σ) x (next x _ c r) since)]> (processes σ))
             (draws c r ++ drawn σ))
  | _ => None
  end.

Definition sha (s : string) : string := s.

Lemma fire_step i u σ σ' : fire i u σ = Some σ' → pool_step cfg demo_run sha σ σ'.
Proof.
  unfold fire. destruct (processes σ !! i) as [[p x since]|] eqn:Hi; [|done]. destruct p as [a|e|R c k]; try done.
  destruct (reply u (now σ) (store σ) c) as [r s'] eqn:Hr. case_bool_decide as Hu; [done|]. intros [= <-].
  apply (step_command cfg demo_run sha σ i (Process (Do c k) x since) R c k r s'); [done|done|by exists u|].
  destruct c; try done. simpl in Hr. by simplify_eq.
Qed.

Definition spawn (fs : list (string * string)) (σ : pool (S := table)) : pool (S := table) :=
  Pool (now σ) (store σ) (processes σ ++ [Process (process_request cfg demo_run "1-0" fs) unlocked 0]) (drawn σ).
Definition wait (t : Z) (σ : pool (S := table)) : pool (S := table) := Pool t (store σ) (processes σ) (drawn σ).

Lemma reach_fire i u σ σ' : reachable_pool cfg demo_run sha σ → fire i u σ = Some σ' → reachable_pool cfg demo_run sha σ'.
Proof. intros. eapply reach_pool; [done|by eapply fire_step]. Qed.

(** Two jobs of one conversation; the second takes the lock three minutes after the first,
    which is still at work. *)
Definition several (l : list (nat * string)) (σ : option (pool (S := table))) : option (pool (S := table)) :=
  foldl (λ σ '(i, u), σ ≫= fire i u) σ l.

Definition start : pool (S := table) := spawn (job "r-1") (Pool 0 [] [] []).
Definition first_working : option pool := several [(0%nat, "a"); (0%nat, "b"); (0%nat, "c")] (Some start).
Definition both_working : option pool :=
  σ ← first_working;
  several [(1%nat, "d"); (1%nat, "e"); (1%nat, "f")] (Some (spawn (job "r-2") (wait 180000000 σ))).

Lemma fire_now i u σ σ' : fire i u σ = Some σ' → now σ' = now σ.
Proof.
  unfold fire. destruct (processes σ !! i) as [[p x since]|]; [|done]. destruct p; try done.
  destruct (reply u (now σ) (store σ) c). case_bool_decide; [done|]. by intros [= <-].
Qed.

Lemma several_None l : several l None = None.
Proof. induction l as [|[i u] l IH]; [done|]. exact IH. Qed.

Lemma several_now l σ σ' : several l (Some σ) = Some σ' → now σ' = now σ.
Proof.
  revert σ. induction l as [|[i u] l IH]; intros σ; [by intros [= ->]|].
  change (several ((i, u) :: l) (Some σ)) with (several l (fire i u σ)).
  destruct (fire i u σ) as [σ1|] eqn:E; [|by rewrite several_None].
  intros H. rewrite (IH σ1 H). by eapply fire_now.
Qed.

Lemma reach_several l σ σ' : several l σ = Some σ' → (∀ σ0, σ = Some σ0 → reachable_pool cfg demo_run sha σ0) →
  reachable_pool cfg demo_run sha σ'.
Proof.
  revert σ. induction l as [|[i u] l IH]; intros σ; simpl; [intros -> H; by apply H|]. intros Hs H.
  eapply IH; [exact Hs|]. intros σ0 E. destruct σ as [σ|]; [|done]. simpl in E. by eapply reach_fire; [by apply H|].
Qed.

Lemma reach_both σ : both_working = Some σ → reachable_pool cfg demo_run sha σ.
Proof.
  unfold both_working. destruct first_working as [σ1|] eqn:E; [|done]. intros H.
  apply (reach_several [(1%nat, "d"); (1%nat, "e"); (1%nat, "f")] _ _ H). intros σ0 [= <-].
  eapply reach_pool; [|apply step_spawn, co_request; reflexivity].
  eapply (reach_pool _ _ _ σ1); [|apply step_time].
  - unfold first_working in E. apply (reach_several [(0%nat, "a"); (0%nat, "b"); (0%nat, "c")] _ _ E). intros σ0 [= <-].
    eapply reach_pool; [apply reach_start|apply step_spawn, co_request; reflexivity].
  - rewrite (several_now [(0%nat, "a"); (0%nat, "b"); (0%nat, "c")] start σ1 E). discriminate.
Qed.

Definition works_now (thread : json) (p : process) : bool :=
  match pr_prog p with Do (Touch t) _ | Do (CancelRun t _) _ => bool_decide (t = thread) | _ => false end.
Lemma works_now_on thread p : works_now thread p = true → works_on p thread.
Proof.
  unfold works_now, works_on. destruct (pr_prog p) as [|?|R c k]; try done.
  destruct c; try done; intros ->%bool_decide_eq_true; [right; by exists ctx0, k|left; by exists k].
Qed.
Example both_work : (λ σ, (now σ, works_now (JStr "t-1") <$> processes σ, pr_since <$> processes σ)) <$> both_working =
  Some (180000000, [true; true], [0; 180000000]).
Proof. vm_compute. reflexivity. Qed.
End Queue.

(** ** One job per conversation *)

(** C33: a conversation has one job at a time. In every interleaving of jobs of every kind,
    reclaims, producers, deaths and lost answers over one Redis, two processes about to work on
    the same conversation, each by a step of a run or by the cancellation of a paused one, are
    two only if the lock of one of them has outlived [THREAD_LOCK_TTL_SECONDS]. *)
Theorem one_job_per_conversation {S} `{!Redis S} cfg runs sha σ i j p q thread thread' :
  (∀ r, sound_run false (runs r)) → reachable_pool cfg runs sha σ →
  processes σ !! i = Some p → processes σ !! j = Some q → i ≠ j →
  works_on p thread → works_on q thread' → py_str thread = py_str thread' →
  pr_since p + THREAD_LOCK_TTL_SECONDS cfg * 1000000 ≤ now σ ∨ pr_since q + THREAD_LOCK_TTL_SECONDS cfg * 1000000 ≤ now σ.
Proof.
  intros Hsound Hr Hi Hj Hij Hp Hq Ht. pose proof (reachable_pool_ok cfg runs sha Hsound σ Hr) as Hok.
  pose proof (works_locked _ _ _ _ _ Hok Hi Hp) as Hlp. pose proof (works_locked _ _ _ _ _ Hok Hj Hq) as Hlq.
  rewrite <-Ht in Hlq. destruct (decide (pr_since p + ttl cfg ≤ now σ)) as [?|Hsp]; [by left|].
  destruct (decide (pr_since q + ttl cfg ≤ now σ)) as [?|Hsq]; [by right|].
  destruct Hij. eapply (lock_excludes cfg σ i j p q); try done; lia.
Qed.

(** The second job of the conversation took the lock after the first one's had expired. *)
Lemma one_job_per_conversation_witness :
  ∃ σ p q, Queue.both_working = Some σ ∧ processes σ !! 0%nat = Some p ∧ processes σ !! 1%nat = Some q ∧
    (pr_since p + 120000000 ≤ now σ ∨ pr_since q + 120000000 ≤ now σ).
Proof.
  pose proof Queue.both_work as Hw. destruct Queue.both_working as [σ|] eqn:E; [|discriminate Hw].
  destruct (processes σ) as [|p [|q rest]] eqn:Eps.
  - exfalso. clear -Hw Eps. cbn [fmap option_fmap option_map] in Hw. rewrite Eps in Hw. discriminate Hw.
  - exfalso. clear -Hw Eps. cbn [fmap option_fmap option_map] in Hw. rewrite Eps in Hw. discriminate Hw.
  - exists σ, p, q. split; [done|]. split; [by rewrite Eps|]. split; [by rewrite Eps|].
    cbn [fmap option_fmap option_map] in Hw. rewrite Eps in Hw. injection Hw as _ Hp Hq _ _ _ _.
    refine (one_job_per_conversation Queue.cfg Queue.demo_run Queue.sha σ 0 1 p q (JStr "t-1") (JStr "t-1")
      Queue.demo_sound (Queue.reach_both σ E) _ _ _ _ _ eq_refl).
    + by rewrite Eps.
    + by rewrite Eps.
    + done.
    + by apply Queue.works_now_on.
    + by apply Queue.works_now_on.
Defined.

(** ** A job from its delivery to its acknowledgement *)

Lemma kept_at {X} (allowed : X → ∀ R, cmd R → Prop) next x pre R (c : cmd R) r post :
  kept allowed next x (pre ++ Step c r :: post) → allowed (after next x pre) R c.
Proof. intros H. apply kept_split in H as [_ H]. apply H. Qed.

(** The commands that work on a conversation *)
Definition works_in (thread : json) {R} (c : cmd R) : Prop :=
  match c with Touch t | CancelRun t _ => t = thread | _ => False end.

(** C34: every job is acknowledged, answered before that, and works under its lock.
    Whatever Redis, the graph and the checkpointer answer, a delivered job whose payload
    names its request draws its token and ends with the acknowledgement of its entry. By
    then a terminal event is on its results stream, unless publishing failed, or the job was
    cut short by an exception that is no [Exception], such as a cancellation, which is then
    what it ends with unless the acknowledgement fails too. The conversation is worked on, by
    steps of a run and by the cancellation of a paused one, only between taking its lock and
    releasing it; the terminal event comes after the release; and nothing is held at the end. *)
Theorem every_job_is_answered_and_acknowledged cfg runs entry_id fs text payload rid tr out :
  (∀ r, sound_run false (runs r)) → (∀ r, finishes false (runs r)) →
  payload_text fs = Ok text → loads text = Some payload → subscript payload "request_id" = Ok rid →
  path (process_request cfg runs entry_id fs) tr out → (∀ e, tr ≠ [Step Uuid4 (Err e)]) →
  (∃ token tr' r, tr = Step Uuid4 (Ok token) :: tr' ++ [Step (XAck (REQUESTS_STREAM cfg) CONSUMER_GROUP entry_id) r] ∧
     (settled (after (note (py_str rid)) (Progress false false) tr') ∨
      ∃ e, base_exception e = true ∧ out = match r with Ok _ => Err e | Err e' => Err e' end)) ∧
  (∀ pre thread R (c : cmd R) r post, tr = pre ++ Step c r :: post → works_in thread c →
     lock_phase (after next unlocked pre) = Held (thread_lock_key (py_str thread))) ∧
  (∀ pre stream event ml r post, tr = pre ++ Step (XAdd stream event ml) r :: post →
     terminal_fields event = true → ¬ holds (after next unlocked pre)) ∧
  ¬ holds (after next unlocked tr).
Proof.
  intros Hsound Hfin Ht Hl Hr Hp Huuid. assert (Hl' : loads_exc text = Ok payload) by (unfold loads_exc; by rewrite Hl).
  destruct (safe_path _ _ _ _ _ _ _ (process_request_keeps cfg runs Hsound entry_id fs) Hp) as [Hk Hend].
  split_and!.
  - destruct (process_request_path cfg runs Hsound Hfin _ _ _ _ _ _ _ Ht Hl' Hr Hp) as [[e E]|H]; [by destruct (Huuid e)|done].
  - intros pre thread R c r post E Hw. rewrite E in Hk. apply kept_at in Hk.
    destruct c; cbn [works_in] in Hw; try (by destruct Hw); cbn [allowed] in Hk; by subst.
  - intros pre stream event ml r post E Hterm Hh. rewrite E in Hk. apply kept_at in Hk as [_ Hk].
    rewrite (Hk Hh) in Hterm. discriminate Hterm.
  - exact Hend.
Qed.

(** A turn: its trace has eleven commands, and the last is the acknowledgement. *)
Definition turn_run := run (λ s R c, Queue.reply "tok" 0 s c) (process_request Queue.cfg Queue.demo_run "5-0" (Queue.job "r-1")) [].
Definition turn_trace : list (step cmd) := snd (fst turn_run).

Lemma every_job_is_answered_and_acknowledged_witness :
  length turn_trace = 11%nat ∧
  ∃ token tr' r, turn_trace = Step Uuid4 (Ok token) :: tr' ++ [Step (XAck "agent:requests:ecorp" "agent-workers" "5-0") r] ∧
    (settled (after (note "r-1") (Progress false false) tr') ∨
     ∃ e, base_exception e = true ∧ fst (fst turn_run) = match r with Ok _ => Err e | Err e' => Err e' end).
Proof.
  split; [vm_compute; reflexivity|].
  refine (proj1 (every_job_is_answered_and_acknowledged Queue.cfg Queue.demo_run "5-0" (Queue.job "r-1")
    (dumps (turn_payload "r-1" "hi" "t-1" Queue.ctx false None false)) (turn_payload "r-1" "hi" "t-1" Queue.ctx false None false)
    (JStr "r-1") turn_trace _ Queue.demo_sound Queue.demo_finishes _ _ _ (run_path _ _ _) _)).
  - reflexivity.
  - vm_compute. reflexivity.
  - reflexivity.
  - intros e H. assert (Hlen : length turn_trace = 1%nat) by by rewrite H. revert Hlen. vm_compute. discriminate.
Defined.

(** A job that is cancelled while its graph works: it releases its lock and acknowledges its
    entry, and its reader is told nothing. *)
Definition cancelled_reply (s : Queue.table) R (c : cmd R) : result exc R * Queue.table :=
  match c in cmd R return result exc R * Queue.table with
  | Touch _ => (Err (Exc "CancelledError" ""), s)
  | c => Queue.reply "tok" 0 s c
  end.
Definition acknowledges (s : step cmd) : bool := match st_cmd s with XAck _ _ _ => true | _ => false end.
Example cancelled_job_is_not_answered :
  let ran := run cancelled_reply (process_request Queue.cfg Queue.demo_run "5-0" (Queue.job "r-1")) [] in
  fst (fst ran) = Err (Exc "CancelledError" "") ∧
  after (note "r-1") (Progress false false) (snd (fst ran)) = Progress false false ∧
  existsb acknowledges (snd (fst ran)) = true ∧ lock_phase (after next unlocked (snd (fst ran))) = Released.
Proof. vm_compute. done. Qed.

(** ** Reclaim *)

(** An abandoned job is never lost, and never retried for ever. Whatever the
    commands answer, a reclaimed entry is acknowledged only after its job is saved: either
    back on the requests stream, with one attempt more, never above
    [MAX_AUTO_RECLAIM_RETRIES], and only if it is a cancel, a resume, or a turn whose
    checkpoint says that it is unfinished; or on the dead-letter stream with its payload.
    If the handler ends normally, the entry is acknowledged. *)
Theorem reclaimed_job_is_saved_before_its_ack cfg entry_id fs tr out :
  path (_handle_reclaimed_job cfg entry_id fs) tr out →
  (∀ pre stream group i r post, tr = pre ++ Step (XAck stream group i) r :: post →
     i = entry_id ∧ kept_safe cfg entry_id (payload_of fs) (after reclaim_next (Reclaiming None None false) pre)) ∧
  (out = Ok () → acked (after reclaim_next (Reclaiming None None false) tr) = true).
Proof.
  intros Hp. destruct (safe_path _ _ _ _ _ _ _ (handle_keeps cfg entry_id fs) Hp) as [Hk Hend]. split.
  - intros pre stream group i r post E. rewrite E in Hk. apply kept_at in Hk as (_ & _ & Hi & Hs). by split.
  - intros Ho. by apply Hend.
Qed.

(** A turn whose thread has no checkpoint yet is put back on the requests stream. *)
Definition reclaim_trace : list (step cmd) :=
  snd (fst (run (λ s R c, Queue.reply "tok" 0 s c) (_handle_reclaimed_job Queue.cfg "5-0" (Queue.job "r-1")) [])).
Lemma reclaimed_job_is_saved_before_its_ack_witness :
  acked (after reclaim_next (Reclaiming None None false) reclaim_trace) = true.
Proof.
  refine (proj2 (reclaimed_job_is_saved_before_its_ack Queue.cfg "5-0" (Queue.job "r-1") reclaim_trace _ (run_path _ _ _)) _).
  vm_compute. reflexivity.
Defined.

(** ** Results *)

(** a reader gets its job's events, each once and in order. Every read goes on after
    the last entry received; what is relayed is the decoded entries received, up to the
    first terminal event and with it; and the reading ends there. Only when a deadline was
    given, passed, and nothing was received, is the one event an error; and a reading that
    has not ended saw no clock at or past its deadline while nothing had arrived. *)
Theorem reader_relays_the_stream fuel rid block first tr fin :
  path (read_results fuel rid block first) tr (Ok fin) →
  reads_on rid "0" tr ∧
  (relayed (received tr) (emitted tr) fin ∨
   ∃ s, first = Some s ∧ received tr = [] ∧ emitted tr = [no_response rid s] ∧ fin = true) ∧
  (∀ s start later, first = Some s → fin = false → received tr = [] →
     head (clocks tr) = Some start → later ∈ tail (clocks tr) → later < start + s * 1000000).
Proof. apply read_results_path. Qed.

(** A stream that holds a token and then the end of the turn. *)
Definition token_event : event := [("type", JStr "token"); ("content", JStr "Hello")].
Definition done_event : event := [("type", JStr "done")].
Definition stream_reply (s : unit) R (c : cmd R) : result exc R * unit :=
  match c in cmd R return result exc R * unit with
  | XRead _ from _ _ => (Ok (if bool_decide (from = "0") then
      [("1-0", [("payload", dumps (JObj token_event))]); ("2-0", [("payload", dumps (JObj done_event))])] else []), s)
  | c => (fst (Queue.reply "tok" 0 [] c), s)
  end.
Definition reading_trace : list (step cmd) := snd (fst (run stream_reply (read_results 3 "r-1" 5000 (Some 30)) tt)).

Lemma reader_relays_the_stream_witness :
  relayed (received reading_trace) (emitted reading_trace) true ∧ emitted reading_trace = [token_event; done_event].
Proof.
  assert (Hp : path (read_results 3 "r-1" 5000 (Some 30)) reading_trace (Ok true)).
  { assert (fst (fst (run stream_reply (read_results 3 "r-1" 5000 (Some 30)) tt)) = Ok true) as <- by (vm_compute; reflexivity).
    apply run_path. }
  destruct (reader_relays_the_stream 3 "r-1" 5000 (Some 30) reading_trace true Hp) as (_ & [H|(s & _ & H & _)] & _).
  - split; [exact H|]. vm_compute. reflexivity.
  - exfalso. revert H. vm_compute. discriminate.
Defined.

(** ** What is published is read back *)

(** The published fields of a job. *)
Definition published (payload : json) : list (string * string) := [("payload", dumps payload)].

Lemma published_loads payload : wf_json payload → rbind (payload_text (published payload)) loads_exc = Ok payload.
Proof. intros Hw. simpl. unfold loads_exc. by rewrite loads_dumps. Qed.

Lemma wf_fields (l : list (string * json)) :
  bool_decide (NoDup l.*1) = true → Forall (λ p, wf_json p.2) l → wf_json (JObj l).
Proof. intros Hn Hw. apply wf_obj. split; [by apply bool_decide_eq_true in Hn|done]. Qed.

Lemma wf_strings l : Forall wf_json (JStr <$> l).
Proof. induction l; by constructor. Qed.

(** The worker reads back exactly what the producers published, and runs it with the
    handler of its kind. For every text, conversation and context, the entry of a turn, a
    resume or a cancel loads to the published payload, with its request and conversation;
    and a retried job loads to its payload with one attempt more. *)
Theorem published_job_is_read_back runs request_id text thread ctx require images unattended approved payload attempts :
  wf_json ctx → wf_json (JObj payload) →
  let turn := turn_payload request_id text thread ctx require images unattended in
  let resume := resume_payload request_id thread approved ctx in
  let cancel := cancel_payload request_id thread ctx in
  (∀ j, j ∈ [turn; resume; cancel; JObj (republished payload attempts)] →
     rbind (payload_text (published j)) loads_exc = Ok j) ∧
  (∀ j, j ∈ [turn; resume; cancel] →
     subscript j "request_id" = Ok (JStr request_id) ∧ subscript j "thread_id" = Ok (JStr thread)) ∧
  subscript turn "text" = Ok (JStr text) ∧ subscript resume "approved" = Ok (JBool approved) ∧
  ((λ j, get_item j "kind" ) <$> [turn; resume; cancel]) =
    (λ k, Ok (Some (JStr k))) <$> ["turn"; "resume"; "cancel"] ∧
  handler_of runs (JStr "turn") = Some (_process_turn runs) ∧ handler_of runs (JStr "resume") = Some (_process_resume runs) ∧
  handler_of runs (JStr "cancel") = Some _process_cancel.
Proof.
  intros Hctx Hpay turn resume cancel.
  assert (Hturn : wf_json turn).
  { apply wf_fields; [by vm_compute|]. repeat constructor; try done. apply wf_list, wf_strings. }
  assert (Hresume : wf_json resume) by (apply wf_fields; [by vm_compute|by repeat constructor]).
  assert (Hcancel : wf_json cancel) by (apply wf_fields; [by vm_compute|by repeat constructor]).
  assert (Hre : wf_json (JObj (republished payload attempts))).
  { apply wf_obj in Hpay as [Hn Hw]. apply wf_obj. split; [by apply dict_set_NoDup|].
    apply Forall_forall. intros p Hp. apply dict_set_elem in Hp as [->|Hp]; [done|]. rewrite Forall_forall in Hw. by apply Hw. }
  split_and!; try done.
  - intros j Hj. apply published_loads. repeat (apply elem_of_cons in Hj as [->|Hj]; [done|]). by apply not_elem_of_nil in Hj.
  - intros j Hj. repeat (apply elem_of_cons in Hj as [->|Hj]; [done|]). by apply not_elem_of_nil in Hj.
Qed.

Lemma published_job_is_read_back_witness :
  rbind (payload_text (published (turn_payload "r-1" "hi" "t-1" Queue.ctx false None false))) loads_exc =
    Ok (turn_payload "r-1" "hi" "t-1" Queue.ctx false None false).
Proof.
  refine (proj1 (published_job_is_read_back Queue.demo_run "r-1" "hi" "t-1" Queue.ctx false None false true [] 0 _ _) _ _).
  - apply wf_fields; [by vm_compute|by repeat constructor].
  - apply wf_fields; [by vm_compute|constructor].
  - left.
Defined.
