(* ===== verification/Regex.v ===== *)
(** Regular expressions as Python's [re] reads them: what the patterns of the agent graph
    match, as a relation and as an executable matcher, and their agreement.

    A character is below 256; [re.IGNORECASE] compares lowered characters. *)
From Stdlib Require Import Ascii.
From stdpp Require Import relations.
From S2P Require Import Prelude Json Text.

Local Open Scope string_scope.
Local Open Scope list_scope.

(** ** Patterns *)

Inductive regex : Type :=
| REps
| RChr (accepts : ascii → bool)
| RSeq (r1 r2 : regex)
| RAlt (r1 r2 : regex)
| RStar (r : regex)
| RBound                                  (* \b *)
| RLine                                   (* ^ under re.MULTILINE *)
| RNot (r : regex).                       (* negative lookahead *)

Definition RVoid : regex := RChr (λ _, false).

(** A character, and a text, in any case. *)
Definition chr (a : ascii) : regex := RChr (λ c, Ascii.eqb (lower_char c) (lower_char a)).
Fixpoint lit (s : string) : regex :=
  match s with EmptyString => REps | String a EmptyString => chr a | String a s => RSeq (chr a) (lit s) end.

(** The same, in this case only. *)
Definition exactly (a : ascii) : regex := RChr (λ c, Ascii.eqb c a).
Fixpoint exact (s : string) : regex :=
  match s with EmptyString => REps | String a EmptyString => exactly a | String a s => RSeq (exactly a) (exact s) end.

Fixpoint one_of (rs : list regex) : regex :=
  match rs with [] => RVoid | [r] => r | r :: rs => RAlt r (one_of rs) end.
Fixpoint in_order (rs : list regex) : regex :=
  match rs with [] => REps | [r] => r | r :: rs => RSeq r (in_order rs) end.

Definition opt (r : regex) : regex := RAlt r REps.
Definition plus (r : regex) : regex := RSeq r (RStar r).

(** [r{0,n}] *)
Fixpoint up_to (n : nat) (r : regex) : regex :=
  match n with O => REps | S n => RAlt (RSeq r (up_to n r)) REps end.

(** [\s], [\S], [\d], and [[^...]] *)
Definition blank : regex := RChr py_isspace.
Definition non_blank : regex := RChr (λ a, negb (py_isspace a)).
Definition digit : regex := RChr is_digit.
Definition none_of (cs : list ascii) : regex := RChr (λ a, negb (bool_decide (a ∈ cs))).

(** ** Meaning *)

(** A position of a text: the character before it and what follows. *)
Definition pos : Type := option ascii * string.

(** [\w]: a letter, a digit or an underscore. *)
Definition is_word (a : ascii) : bool :=
  let n := N_of_ascii a in
  ((48 <=? n) && (n <=? 57) || (65 <=? n) && (n <=? 90) || (97 <=? n) && (n <=? 122) || (n =? 95) ||
   (n =? 170) || (n =? 178) || (n =? 179) || (n =? 181) || (n =? 185) || (n =? 186) ||
   (188 <=? n) && (n <=? 190) || (192 <=? n) && negb ((n =? 215) || (n =? 247)))%N.

Definition word_at (a : option ascii) : bool := match a with Some a => is_word a | None => false end.
Definition next_char (p : pos) : option ascii := match p.2 with EmptyString => None | String a _ => Some a end.
Definition at_bound (p : pos) : bool := xorb (word_at p.1) (word_at (next_char p)).

Definition at_line (p : pos) : bool := match p.1 with Some a => Ascii.eqb a "010" | None => true end.

(** [r] matches from [p] up to [q]. *)
Fixpoint matches (r : regex) (p q : pos) : Prop :=
  match r with
  | REps => q = p
  | RChr accepts => ∃ a s, p.2 = String a s ∧ accepts a = true ∧ q = (Some a, s)
  | RSeq r1 r2 => ∃ x, matches r1 p x ∧ matches r2 x q
  | RAlt r1 r2 => matches r1 p q ∨ matches r2 p q
  | RStar r => rtc (matches r) p q
  | RBound => at_bound p = true ∧ q = p
  | RLine => at_line p = true ∧ q = p
  | RNot r => (∀ x, ¬ matches r p x) ∧ q = p
  end.

(** ** The matcher *)

Definition shorter (p q : pos) : bool := Nat.ltb (String.length q.2) (String.length p.2).

(** Every position some repetition of [step] from [p] ends at; [fuel] repetitions that move
    on are all there can be. *)
Fixpoint star_ends (step : pos → list pos) (fuel : nat) (p : pos) : list pos :=
  p :: match fuel with
       | O => []
       | S fuel => flat_map (star_ends step fuel) (filter (λ q, shorter p q = true) (step p))
       end.

Fixpoint ends (r : regex) (p : pos) : list pos :=
  match r with
  | REps => [p]
  | RChr accepts => match p.2 with String a s => if accepts a then [(Some a, s)] else [] | EmptyString => [] end
  | RSeq r1 r2 => flat_map (ends r2) (ends r1 p)
  | RAlt r1 r2 => ends r1 p ++ ends r2 p
  | RStar r => star_ends (ends r) (String.length p.2) p
  | RBound => if at_bound p then [p] else []
  | RLine => if at_line p then [p] else []
  | RNot r => match ends r p with [] => [p] | _ => [] end
  end.

(** [bool(r.match(s))] at a position, and [bool(r.search(s))] from it on. *)
Definition match_at (r : regex) (p : pos) : bool := negb (bool_decide (ends r p = [])).

Fixpoint search_from (r : regex) (before : option ascii) (s : string) : bool :=
  match_at r (before, s) || match s with EmptyString => false | String a s => search_from r (Some a) s end.

(** [len(r.findall(s))], for a pattern that does not match nothing and whose match at a place
    ends in one way. *)
Fixpoint count_from (r : regex) (fuel : nat) (p : pos) : nat :=
  match fuel with
  | O => O
  | S fuel =>
      match ends r p, p.2 with
      | q :: _, _ => S (count_from r fuel q)
      | [], EmptyString => O
      | [], String a s => count_from r fuel (Some a, s)
      end
  end.
Definition re_count (r : regex) (s : string) : nat := count_from r (S (String.length s)) (None, s).

Definition re_match (r : regex) (s : string) : bool := match_at r (None, s).
Definition re_search (r : regex) (s : string) : bool := search_from r None s.

(** ** Agreement *)

Lemma elem_flat_map {A B} (f : A → list B) l y : y ∈ flat_map f l ↔ ∃ x, x ∈ l ∧ y ∈ f x.
Proof.
  rewrite list_elem_of_In, in_flat_map. split; intros (x & Hx & Hy); exists x; by rewrite !list_elem_of_In in *.
Qed.

(** A match moves on or stays where it is. *)
Definition moves (p q : pos) : Prop := q = p ∨ shorter p q = true.

Lemma shorter_lt p q : shorter p q = true ↔ (String.length q.2 < String.length p.2)%nat.
Proof. apply Nat.ltb_lt. Qed.

Lemma moves_trans p q x : moves p q → moves q x → moves p x.
Proof.
  intros [->|H] [->|K]; [by left|by right|by right|right]. rewrite shorter_lt in *. lia.
Qed.

Lemma matches_moves r p q : matches r p q → moves p q.
Proof.
  revert p q. induction r as [|acc|r1 IH1 r2 IH2|r1 IH1 r2 IH2|r IH| | |r IH]; intros p q; cbn [matches].
  - intros ->. by left.
  - intros (a & s & E & _ & ->). right. apply shorter_lt. rewrite E. simpl. lia.
  - intros (x & H1 & H2). eapply moves_trans; eauto.
  - intros [H|H]; eauto.
  - induction 1; [by left|]. eapply moves_trans; eauto.
  - intros [_ ->]. by left.
  - intros [_ ->]. by left.
  - intros [_ ->]. by left.
Qed.

Section star.
Context (R : pos → pos → Prop) (step : pos → list pos).
Hypothesis step_spec : ∀ p q, q ∈ step p ↔ R p q.
Hypothesis R_moves : ∀ p q, R p q → moves p q.

Lemma star_ends_sound fuel p q : q ∈ star_ends step fuel p → rtc R p q.
Proof.
  revert p. induction fuel as [|fuel IH]; intros p; cbn [star_ends]; rewrite elem_of_cons.
  - intros [->|H]; [done|by apply not_elem_of_nil in H].
  - rewrite elem_flat_map. intros [->|(x & Hx & Hq)]; [done|].
    apply list_elem_of_filter in Hx as [_ Hx]. eapply rtc_l; [by apply step_spec|by apply IH].
Qed.

Lemma star_ends_complete p q : rtc R p q → ∀ fuel, (String.length p.2 ≤ fuel)%nat → q ∈ star_ends step fuel p.
Proof.
  induction 1 as [p|p x q Hpx _ IH]; intros fuel Hf; [destruct fuel; left|].
  destruct (R_moves _ _ Hpx) as [->|Hs]; [by apply IH|]. pose proof (proj1 (shorter_lt _ _) Hs) as Hlt.
  destruct fuel as [|fuel]; [lia|]. cbn [star_ends]. right. apply elem_flat_map. exists x. split; [|apply IH; lia].
  apply list_elem_of_filter. split; [done|by apply step_spec].
Qed.
End star.

(** The matcher finds exactly the matches. *)
Lemma ends_spec r p q : q ∈ ends r p ↔ matches r p q.
Proof.
  revert p q. induction r as [|acc|r1 IH1 r2 IH2|r1 IH1 r2 IH2|r IH| | |r IH]; intros p q; cbn [ends matches].
  - by rewrite list_elem_of_singleton.
  - destruct p as [b [|a s]]; simpl.
    + split; [by intros ?%not_elem_of_nil|by intros (? & ? & ? & _)].
    + destruct (acc a) eqn:E.
      * rewrite list_elem_of_singleton. split; [intros ->; eauto|intros (? & ? & ? & _ & ->); by simplify_eq].
      * split; [by intros ?%not_elem_of_nil|]. intros (? & ? & ? & ? & ->). congruence.
  - rewrite elem_flat_map. split; intros (x & H1 & H2); exists x; by rewrite ?IH1, ?IH2 in *.
  - by rewrite elem_of_app, IH1, IH2.
  - split; [by apply star_ends_sound|]. intros H. eapply star_ends_complete; eauto using matches_moves.
  - destruct (at_bound p); [rewrite list_elem_of_singleton; naive_solver|].
    split; [by intros ?%not_elem_of_nil|by intros [? _]].
  - destruct (at_line p); [rewrite list_elem_of_singleton; naive_solver|].
    split; [by intros ?%not_elem_of_nil|by intros [? _]].
  - destruct (ends r p) as [|x l] eqn:E.
    + rewrite list_elem_of_singleton. split; [intros ->; split; [|done]|by intros [_ ->]].
      intros x Hx%IH. rewrite E in Hx. by apply not_elem_of_nil in Hx.
    + split; [by intros ?%not_elem_of_nil|]. intros [H _]. destruct (H x). apply IH. rewrite E. left.
Qed.

Lemma match_at_spec r p : match_at r p = true ↔ ∃ q, matches r p q.
Proof.
  unfold match_at. rewrite negb_true_iff, bool_decide_eq_false. setoid_rewrite <-ends_spec.
  destruct (ends r p) as [|x l]; split; [done|intros [q Hq]; by apply not_elem_of_nil in Hq| |done].
  intros _. exists x. left.
Qed.

(** The positions of a text. *)
Fixpoint positions (before : option ascii) (s : string) : list pos :=
  (before, s) :: match s with EmptyString => [] | String a s => positions (Some a) s end.

Lemma re_search_spec r s : re_search r s = true ↔ ∃ p q, p ∈ positions None s ∧ matches r p q.
Proof.
  unfold re_search. generalize (@None ascii) as b. induction s as [|a s IH]; intros b; cbn [search_from positions].
  - rewrite orb_false_r, match_at_spec. split; [intros [q Hq]; exists (b, ""), q; split; [left|done]|].
    intros (p & q & [->|Hp]%elem_of_cons & Hq); [by exists q|by apply not_elem_of_nil in Hp].
  - rewrite orb_true_iff, match_at_spec, IH. split.
    + intros [[q Hq]|(p & q & Hp & Hq)]; [exists (b, String a s), q; split; [left|done]|exists p, q; split; [by right|done]].
    + intros (p & q & [->|Hp]%elem_of_cons & Hq); [left; by exists q|right; by exists p, q].
Qed.
