(* ===== verification/AgentState.v ===== *)
(** The state of one conversation graph and the numbers that bound a turn:
    [app/agent/graph/state.py], with the two places the graph library is used.

    Costs are binary64 numbers; a citation is the two fields the checks read; an amount of
    state a node does not return keeps its value. *)
From Stdlib Require Import SpecFloat.
From S2P Require Import Prelude Dict Json Text Messages.

Local Open Scope string_scope.
Local Open Scope list_scope.

(** ** The bounds of a turn *)

Definition MAX_ITERATIONS : Z := 10.
Definition MIN_ANSWER_LENGTH : nat := 10.
Definition MAX_TOOL_CALLS_PER_TURN : nat := 5.
Definition MAX_TOKENS_PER_TURN : Z := 16000.
Definition HISTORY_TOKEN_CEILING : Z := 24000.
Definition HISTORY_TOKEN_FLOOR : Z := 4000.
Definition MAX_HISTORY_SUMMARY_CHARS : nat := 4000.
Definition MAX_REPEATED_ACTIONS : nat := 3.
Definition MAX_CONSECUTIVE_SAME_RETRY_REASON : Z := 2.
Definition MAX_SUBAGENT_ITERATIONS : Z := 6.
Definition MAX_SUBAGENT_TOKENS_PER_RUN : Z := 4000.
Definition STATE_SCHEMA_VERSION : Z := 1.

(** ** Python's floats *)

Definition float : Type := spec_float.
Definition fadd (x y : float) : float := SFadd 53 1024 x y.
Definition fsub (x y : float) : float := SFsub 53 1024 x y.
Definition fmul (x y : float) : float := SFmul 53 1024 x y.
Definition fdiv (x y : float) : float := SFdiv 53 1024 x y.
Definition fge (x y : float) : bool := SFleb y x.
Definition fgt (x y : float) : bool := SFltb y x.
Definition flt (x y : float) : bool := SFltb x y.
(** [float(z)], infinite when it is too large *)
Definition float_of_int (z : Z) : float := binary_normalize 53 1024 z 0 false.
Definition fzero : float := S754_zero false.
Definition ffinite (x : float) : bool := match x with S754_zero _ | S754_finite _ _ _ => true | _ => false end.
Definition fnonzero (x : float) : bool := match x with S754_zero _ => false | _ => true end.

(** [sum(xs)] of floats adds with compensation: the running sum and what rounding lost. *)
Fixpoint fsum_go (total lost : float) (xs : list float) : float :=
  match xs with
  | [] => if fnonzero lost && ffinite lost then fadd total lost else total
  | x :: xs =>
      let t := fadd total x in
      let lost := fadd lost (if fge (SFabs total) (SFabs x) then fadd (fsub total t) x else fadd (fsub x t) total) in
      fsum_go t lost xs
  end.
Definition fsum (xs : list float) : float :=
  match xs with [] => fzero | x :: xs => fsum_go (fadd fzero x) fzero xs end.

(** ** The state *)

Record SecurityCtx : Type := SecCtx { sc_tenant : string; sc_principal : string }.

(** [valid_ctx] *)
Definition valid_ctx (ctx : option SecurityCtx) : bool :=
  match ctx with Some c => nonempty (sc_tenant c) && nonempty (sc_principal c) | None => false end.

(** A source offered to the model: its marker and its text. *)
Record citation : Type := Citation { c_marker : string; c_text : string }.
#[export] Instance citation_eq_dec : EqDecision citation.
Proof. solve_decision. Defined.

(** What an output check found: that it fired, a tool's name, or the citations. *)
Inductive detail : Type :=
| DTrue
| DName (name : string)
| DMarkers (cs : list citation).

Record State : Type := mkState {
  messages : list message;
  context : string;
  iterations : Z;
  total_tokens : Z;
  total_cost_usd : float;
  subagent_spend : list (Z * float);
  require_approval : bool;
  approved : bool;
  cancelled : bool;
  state_schema_version : option Z;
  ctx : option SecurityCtx;
  citations : list citation;
  used_citations : list citation;
  ungrounded_claims_count : Z;
  output_findings : list (string * detail);
  last_retry_reason : option string;
  retry_reason_repeat_count : Z;
  cache_hit : bool;
  moderation_blocked : bool;
  model_route : option string;
  followups : list string;
  history_summary : string;
  context_anchor_index : option Z;
}.

(** [concat_or_reset] *)
Definition concat_or_reset (current : list (Z * float)) (update : option (list (Z * float))) : list (Z * float) :=
  match update with None => [] | Some update => current ++ update end.

(** ** Updates *)

(** What a node writes under [messages]: a message, or the removal of one by its id. *)
Inductive msg_update : Type :=
| Put (m : message)
| Remove (id : string).

(** One entry of the dict a node returns. *)
Inductive put : Type :=
| Set_messages (v : list msg_update)
| Set_context (v : string)
| Set_iterations (v : Z)
| Set_total_tokens (v : Z)
| Set_total_cost_usd (v : float)
| Set_subagent_spend (v : option (list (Z * float)))
| Set_require_approval (v : bool)
| Set_approved (v : bool)
| Set_cancelled (v : bool)
| Set_state_schema_version (v : option Z)
| Set_ctx (v : option SecurityCtx)
| Set_citations (v : list citation)
| Set_used_citations (v : list citation)
| Set_ungrounded_claims_count (v : Z)
| Set_output_findings (v : list (string * detail))
| Set_last_retry_reason (v : option string)
| Set_retry_reason_repeat_count (v : Z)
| Set_cache_hit (v : bool)
| Set_moderation_blocked (v : bool)
| Set_model_route (v : option string)
| Set_followups (v : list string)
| Set_history_summary (v : string)
| Set_context_anchor_index (v : option Z).

Definition with_id (i : option string) (m : message) : message :=
  Message (m_type m) i (m_content m) (m_tool_calls m) (m_tool_call_id m) (m_name m) (m_status m) (m_kwargs m).

(** Two messages that differ at most in their id. *)
Definition same_message (a b : message) : Prop := with_id None a = with_id None b.

(** What the reducer does with one update: a message with an id of the thread replaces the
    last one that has it, any other is appended, a removal deletes. *)
Definition put_ref (l : list message) (u : msg_update) : list message :=
  match u with
  | Put m =>
      match last_index (λ x, bool_decide (m_id m ≠ None ∧ m_id x = m_id m)) l with
      | Some k => <[k := m]> l
      | None => l ++ [m]
      end
  | Remove id => filter (λ x, m_id x ≠ Some id) l
  end.

(** [x] is [m] as the thread keeps it: with an id, its own when it has one. *)
Definition kept_as (m x : message) : Prop := same_message m x ∧ (m_id m ≠ None → m_id x = m_id m).

(** The graph library: the reducer behind [messages] and the test for a tool call, as the
    nodes rely on them. *)
Class LangGraph : Type := {
  add_messages : list message → list msg_update → list message;
  tools_condition : list message → bool;
  add_messages_spec : ∀ l us, Forall2 kept_as (foldl put_ref l us) (add_messages l us);
  tools_condition_ai : ∀ l m, last l = Some m → is_type AIMessage m = true →
    tools_condition l = negb (bool_decide (m_tool_calls m = []));
}.

Section apply.
Context `{LangGraph}.

Definition apply_put (s : State) (p : put) : State :=
  match s with
  | mkState v0 v1 v2 v3 v4 v5 v6 v7 v8 v9 v10 v11 v12 v13 v14 v15 v16 v17 v18 v19 v20 v21 v22 =>
      match p with
      | Set_messages v => mkState (add_messages v0 v) v1 v2 v3 v4 v5 v6 v7 v8 v9 v10 v11 v12 v13 v14 v15 v16 v17 v18 v19 v20 v21 v22
      | Set_context v => mkState v0 v v2 v3 v4 v5 v6 v7 v8 v9 v10 v11 v12 v13 v14 v15 v16 v17 v18 v19 v20 v21 v22
      | Set_iterations v => mkState v0 v1 v v3 v4 v5 v6 v7 v8 v9 v10 v11 v12 v13 v14 v15 v16 v17 v18 v19 v20 v21 v22
      | Set_total_tokens v => mkState v0 v1 v2 v v4 v5 v6 v7 v8 v9 v10 v11 v12 v13 v14 v15 v16 v17 v18 v19 v20 v21 v22
      | Set_total_cost_usd v => mkState v0 v1 v2 v3 v v5 v6 v7 v8 v9 v10 v11 v12 v13 v14 v15 v16 v17 v18 v19 v20 v21 v22
      | Set_subagent_spend v => mkState v0 v1 v2 v3 v4 (concat_or_reset v5 v) v6 v7 v8 v9 v10 v11 v12 v13 v14 v15 v16 v17 v18 v19 v20 v21 v22
      | Set_require_approval v => mkState v0 v1 v2 v3 v4 v5 v v7 v8 v9 v10 v11 v12 v13 v14 v15 v16 v17 v18 v19 v20 v21 v22
      | Set_approved v => mkState v0 v1 v2 v3 v4 v5 v6 v v8 v9 v10 v11 v12 v13 v14 v15 v16 v17 v18 v19 v20 v21 v22
      | Set_cancelled v => mkState v0 v1 v2 v3 v4 v5 v6 v7 v v9 v10 v11 v12 v13 v14 v15 v16 v17 v18 v19 v20 v21 v22
      | Set_state_schema_version v => mkState v0 v1 v2 v3 v4 v5 v6 v7 v8 v v10 v11 v12 v13 v14 v15 v16 v17 v18 v19 v20 v21 v22
      | Set_ctx v => mkState v0 v1 v2 v3 v4 v5 v6 v7 v8 v9 v v11 v12 v13 v14 v15 v16 v17 v18 v19 v20 v21 v22
      | Set_citations v => mkState v0 v1 v2 v3 v4 v5 v6 v7 v8 v9 v10 v v12 v13 v14 v15 v16 v17 v18 v19 v20 v21 v22
      | Set_used_citations v => mkState v0 v1 v2 v3 v4 v5 v6 v7 v8 v9 v10 v11 v v13 v14 v15 v16 v17 v18 v19 v20 v21 v22
      | Set_ungrounded_claims_count v => mkState v0 v1 v2 v3 v4 v5 v6 v7 v8 v9 v10 v11 v12 v v14 v15 v16 v17 v18 v19 v20 v21 v22
      | Set_output_findings v => mkState v0 v1 v2 v3 v4 v5 v6 v7 v8 v9 v10 v11 v12 v13 v v15 v16 v17 v18 v19 v20 v21 v22
      | Set_last_retry_reason v => mkState v0 v1 v2 v3 v4 v5 v6 v7 v8 v9 v10 v11 v12 v13 v14 v v16 v17 v18 v19 v20 v21 v22
      | Set_retry_reason_repeat_count v => mkState v0 v1 v2 v3 v4 v5 v6 v7 v8 v9 v10 v11 v12 v13 v14 v15 v v17 v18 v19 v20 v21 v22
      | Set_cache_hit v => mkState v0 v1 v2 v3 v4 v5 v6 v7 v8 v9 v10 v11 v12 v13 v14 v15 v16 v v18 v19 v20 v21 v22
      | Set_moderation_blocked v => mkState v0 v1 v2 v3 v4 v5 v6 v7 v8 v9 v10 v11 v12 v13 v14 v15 v16 v17 v v19 v20 v21 v22
      | Set_model_route v => mkState v0 v1 v2 v3 v4 v5 v6 v7 v8 v9 v10 v11 v12 v13 v14 v15 v16 v17 v18 v v20 v21 v22
      | Set_followups v => mkState v0 v1 v2 v3 v4 v5 v6 v7 v8 v9 v10 v11 v12 v13 v14 v15 v16 v17 v18 v19 v v21 v22
      | Set_history_summary v => mkState v0 v1 v2 v3 v4 v5 v6 v7 v8 v9 v10 v11 v12 v13 v14 v15 v16 v17 v18 v19 v20 v v22
      | Set_context_anchor_index v => mkState v0 v1 v2 v3 v4 v5 v6 v7 v8 v9 v10 v11 v12 v13 v14 v15 v16 v17 v18 v19 v20 v21 v
      end
  end.

(** A node's dict applied to the state. *)
Definition apply (s : State) (ps : list put) : State := foldl apply_put s ps.
End apply.

(** A conversation nobody used yet. *)
Definition new_state : State := mkState [] "" 0%Z 0%Z fzero [] false false false None None [] [] 0%Z [] None 0%Z false false None [] "" None.

(** ** Facts *)

Lemma kept_as_refl m : kept_as m m.
Proof. by split. Qed.

(** What two messages that differ at most in their id have in common. *)
Lemma same_message_fields a b : same_message a b →
  m_type a = m_type b ∧ m_content a = m_content b ∧ m_tool_calls a = m_tool_calls b ∧
  m_tool_call_id a = m_tool_call_id b ∧ m_name a = m_name b ∧ m_kwargs a = m_kwargs b.
Proof. unfold same_message, with_id. intros [=]. done. Qed.

Section messages.
Context `{LangGraph}.

Lemma last_Forall2 {A B} (R : A → B → Prop) l k : Forall2 R l k →
  match last l, last k with Some x, Some y => R x y | None, None => True | _, _ => False end.
Proof.
  intros Hl. induction Hl as [|x y l k Hxy Hl IH]; [done|].
  destruct Hl as [|x' y' l k Hxy' Hl]; [done|]. by rewrite !last_cons_cons.
Qed.

Lemma add_last l us m : last (foldl put_ref l us) = Some m →
  ∃ x, last (add_messages l us) = Some x ∧ same_message m x.
Proof.
  intros Hm. pose proof (last_Forall2 _ _ _ (add_messages_spec l us)) as Hl. rewrite Hm in Hl.
  destruct (last (add_messages l us)) as [x|]; [|done]. exists x. by destruct Hl.
Qed.

(** A message without an id, or with one the thread does not have, ends up last. *)
Lemma put_new_last l m : m_id m = None ∨ m_id m ∉ m_id <$> l → last (put_ref l (Put m)) = Some m.
Proof.
  intros Hm. unfold put_ref. pose proof (last_index_spec (λ x, bool_decide (m_id m ≠ None ∧ m_id x = m_id m)) l) as Hi.
  destruct (last_index _ l) as [k|]; [|apply last_snoc].
  destruct Hi as [(x & Hx & [Hn E]%bool_decide_eq_true) _]. destruct Hm as [Hm|[]]; [done|].
  rewrite <-E. apply list_elem_of_fmap. exists x. split; [done|by eapply list_elem_of_lookup_2].
Qed.

Lemma add_new_last l us m : m_id m = None →
  ∃ x, last (add_messages l (us ++ [Put m])) = Some x ∧ same_message m x.
Proof. intros Hm. apply add_last. rewrite foldl_snoc. apply put_new_last. by left. Qed.

Lemma add_fresh_last l m : m_id m = None ∨ m_id m ∉ m_id <$> l →
  ∃ x, last (add_messages l [Put m]) = Some x ∧ same_message m x.
Proof. intros Hm. apply add_last. by apply put_new_last. Qed.

(** A copy of the last message takes its place. *)
Lemma add_copy_last l m x : last l = Some x → m_id m = m_id x →
  ∃ y, last (add_messages l [Put m]) = Some y ∧ same_message m y.
Proof.
  intros Hl Hm. apply add_last. simpl. destruct (m_id x) as [i|] eqn:Hx; [|apply put_new_last; by left].
  apply last_Some in Hl as [l' ->]. rewrite last_index_snoc; [|apply bool_decide_eq_true_2; by rewrite Hm].
  rewrite insert_app_r_alt, Nat.sub_diag by lia. simpl. apply last_snoc.
Qed.

Lemma apply_app s ps qs : apply s (ps ++ qs) = apply (apply s ps) qs.
Proof. apply foldl_app. Qed.
End messages.

(** The library with the reducer's reference behaviour, without generated ids. *)
Definition plain_langgraph : LangGraph.
Proof.
  refine (Build_LangGraph (foldl put_ref)
    (λ l, match last l with Some m => is_type AIMessage m && negb (bool_decide (m_tool_calls m = [])) | None => false end) _ _).
  - intros l us. induction (foldl put_ref l us) as [|m k IH]; constructor; [apply kept_as_refl|done].
  - intros l m -> ->. done.
Defined.
