(* ===== verification/Guards.v ===== *)
(** The guards on a batch of tool calls: [app/agent/graph/loop_guards.py],
    [tool_guards.py] and [skill_guards.py]. *)
From stdpp Require Import gmap.
From S2P Require Import Prelude Dict Json Text Messages AgentState.

Local Open Scope string_scope.
Local Open Scope list_scope.

(** ** Capabilities *)

(** A tool without an entry counts as [outward]. *)
Definition tool_capability (name : string) (tool_capabilities : gmap string string) : string :=
  default "outward" (tool_capabilities !! name).

Definition mandatory_gate_reason (tool_calls : list tool_call) (tool_capabilities : gmap string string) : option string :=
  let capabilities := (λ tc, tool_capability (tc_name tc) tool_capabilities) <$> tool_calls in
  if bool_decide ("outward" ∈ capabilities) then Some "outward" else
  if bool_decide ("mutating" ∈ capabilities) then Some "mutating" else None.

(** ** Repetition *)

(** The order of Python's tuples of two texts. *)
Definition pair_le (a b : string * string) : Prop :=
  if decide (a.1 = b.1) then str_le a.2 b.2 else str_le a.1 b.1.
#[export] Instance pair_le_dec a b : Decision (pair_le a b).
Proof. unfold pair_le. case_decide; apply _. Defined.

Definition call_key (tc : tool_call) : string * string := (tc_name tc, dumps_sorted (tc_args tc)).

(** [json.dumps] writes a tuple as a list. *)
Definition _tool_call_fingerprint (tool_calls : list tool_call) : string :=
  let normalized := merge_sort pair_le (call_key <$> tool_calls) in
  dumps (JList ((λ k, JList [JStr k.1; JStr k.2]) <$> normalized)).

Definition has_calls (m : message) : bool := is_type AIMessage m && negb (bool_decide (m_tool_calls m = [])).

(** Most recent first. *)
Definition _current_turn_tool_call_batches (messages : list message) : list (list tool_call) :=
  m_tool_calls <$> filter (λ m, has_calls m = true) (reverse (current_turn_messages messages)).

Fixpoint count_while {A} (P : A → bool) (l : list A) : nat :=
  match l with [] => O | x :: l => if P x then S (count_while P l) else O end.

Definition consecutive_repeat_count (messages : list message) : nat :=
  match _current_turn_tool_call_batches messages with
  | [] => O
  | (batch :: _) as batches =>
      let target := _tool_call_fingerprint batch in
      count_while (λ batch, bool_decide (_tool_call_fingerprint batch = target)) batches
  end.

Definition calls (name : string) (batch : list tool_call) : bool := existsb (λ tc, bool_decide (tc_name tc = name)) batch.

Definition use_skill_called_without_search (tool_calls : list tool_call) (messages : list message) : bool :=
  if negb (calls "use_skill" tool_calls) then false else
  negb (existsb (calls "skill_search") (_current_turn_tool_call_batches messages)).

(** ** A batch the model should not have made *)

Inductive BatchProblem : Type := too_many_tool_calls | invalid_tool_call | use_skill_without_search.
#[export] Instance BatchProblem_eq_dec : EqDecision BatchProblem.
Proof. solve_decision. Defined.

Definition invalid_tool_call_names (tool_calls : list tool_call) (valid_tool_names : gset string) : list string :=
  filter (λ n, n ∉ valid_tool_names) (tc_name <$> tool_calls).

Definition batch_problem (tool_calls : list tool_call) (messages : list message) (valid_tool_names : gset string) : option BatchProblem :=
  if Nat.ltb MAX_TOOL_CALLS_PER_TURN (length tool_calls) then Some too_many_tool_calls else
  if negb (bool_decide (invalid_tool_call_names tool_calls valid_tool_names = [])) then Some invalid_tool_call else
  if use_skill_called_without_search tool_calls messages then Some use_skill_without_search else None.

Definition _rejection_reason (problem : BatchProblem) (tool_calls : list tool_call) (valid_tool_names : gset string) : string :=
  match problem with
  | too_many_tool_calls =>
      "Too many tool calls requested at once (limit: 5). Please make fewer, more targeted tool calls."
  | invalid_tool_call =>
      let bad_names := merge_sort str_le (remove_dups (invalid_tool_call_names tool_calls valid_tool_names)) in
      let names_text := if bool_decide (bad_names = []) then "one of them" else join ", " (repr_str <$> bad_names) in
      "I tried to call a tool that doesn't exist (" +:+ names_text +:+
      "). Let me try again using only the tools actually available to me."
  | use_skill_without_search =>
      "You called use_skill without calling skill_search first this turn. Call skill_search now to find the exact name of a matching skill — if nothing matches well, don't guess a name; just answer directly using what you already have."
  end.

Definition pending_calls (messages : list message) : list tool_call :=
  match last messages with Some m => m_tool_calls m | None => [] end.

Definition tool_batch_guard (state : State) (valid_tool_names : gset string) : list put :=
  let tool_calls := pending_calls (messages state) in
  match batch_problem tool_calls (messages state) valid_tool_names with
  | None => []
  | Some problem =>
      [Set_messages (Put <$> reject_tool_calls tool_calls (_rejection_reason problem tool_calls valid_tool_names))]
  end.

(** ** Skills that name a tool *)

Definition SKILL_REQUIRED_TOOL_MARKERS : list string := ["run_python_in_sandbox"].

(** A result of the tool [name]. *)
Definition result_of (name : string) (m : message) : bool :=
  is_type ToolMessage m && bool_decide (m_name m = Some name).

Fixpoint pending_skill_required_tool (turn_messages : list message) (required_tools : list string) : option string :=
  match required_tools with
  | [] => None
  | name :: required_tools =>
      let skill_named_it :=
        existsb (λ m, result_of "use_skill" m && contains (content_str (m_content m)) name) turn_messages in
      let already_called := existsb (result_of name) turn_messages in
      if skill_named_it && negb already_called then Some name
      else pending_skill_required_tool turn_messages required_tools
  end.
