(* ===== verification/Citations.v ===== *)
(** Grounding an answer in the sources offered: [app/agent/graph/citations.py].

    A marker is [[n]], as [_citation_records] writes it.  Ratios are binary64 numbers. *)
From Stdlib Require Import Ascii SpecFloat.
From S2P Require Import Prelude Dict Json Text Messages AgentState.

Local Open Scope string_scope.
Local Open Scope list_scope.

(** ** Markers *)

Definition is_bracket (a : ascii) : bool := bool_decide (a = open_bracket ∨ a = close_bracket).

Fixpoint lstrip_brackets (s : string) : string :=
  match s with String a s' => if is_bracket a then lstrip_brackets s' else s | EmptyString => "" end.
Fixpoint rstrip_brackets (s : string) : string :=
  match s with
  | EmptyString => ""
  | String a s => let t := rstrip_brackets s in if is_bracket a && bool_decide (t = "") then "" else String a t
  end.

Fixpoint all_digits (s : string) : bool :=
  match s with EmptyString => true | String a s => is_digit a && all_digits s end.

(** [int(marker.strip("[]"))] where [isdigit()] holds. *)
Definition marker_number (marker : string) : option Z :=
  let s := rstrip_brackets (lstrip_brackets marker) in
  if nonempty s && all_digits s then Some (int_of_digits s 0) else None.

Definition referenced (content : string) : list Z := (λ n, int_of_digits n 0) <$> find_markers content.

Definition is_referenced (content marker : string) : bool :=
  match marker_number marker with Some n => bool_decide (n ∈ referenced content) | None => false end.

Definition find_used_citations (c : content) (citations : list citation) : list citation :=
  match c with
  | Parts _ => []
  | Plain s =>
      filter (λ c, is_referenced s (c_marker c) = true) citations
  end.

Definition count_ungrounded_claims (c : content) (citations : list citation) : Z :=
  match c with
  | Parts _ => 0
  | Plain s =>
      let real_markers := omap (λ c, marker_number (c_marker c)) citations in
      Z.of_nat (length (filter (λ n, n ∉ real_markers) (remove_dups (referenced s))))
  end.

(** ** Sentences that read like a source *)

Definition float_of_nat (n : nat) : float := binary_normalize 53 1024 (Z.of_nat n) 0 false.

(** [0.6] and [0.25] *)
Definition _UNCITED_OVERLAP_RATIO : float := S754_finite false 5404319552844595 (-53).
Definition _MISATTRIBUTED_OVERLAP_RATIO : float := S754_finite false 4503599627370496 (-54).
Definition _MIN_JUDGED_SENTENCE_WORDS : nat := 4.

(** [len(sentence_words & cite_words) / len(sentence_words)] *)
Definition overlap_ratio (sentence_words cite_words : list string) : float :=
  fdiv (float_of_nat (length (filter (λ w, w ∈ cite_words) sentence_words))) (float_of_nat (length sentence_words)).

(** The loop over the sentences: the best one so far and its ratio. *)
Fixpoint best_match (cite_words : list string) (sentences : list string) (best : option string) (best_ratio : float) : option string :=
  match sentences with
  | [] => best
  | sentence :: sentences =>
      let sentence_words := content_words sentence in
      if Nat.ltb (length sentence_words) _MIN_JUDGED_SENTENCE_WORDS then best_match cite_words sentences best best_ratio else
      let ratio := overlap_ratio sentence_words cite_words in
      if fge ratio _UNCITED_OVERLAP_RATIO && fgt ratio best_ratio
      then best_match cite_words sentences (Some sentence) ratio
      else best_match cite_words sentences best best_ratio
  end.

(** [split_sentences] of anything but a text is empty. *)
Definition sentences_of (c : content) : list string :=
  match c with Plain s => split_sentences s | Parts _ => [] end.

Definition _uncited_citation_matches (c : content) (citations used : list citation) : list (citation * string) :=
  if negb (has_content c) then [] else
  let used_markers := c_marker <$> used in
  omap (λ citation,
    if decide (c_marker citation ∈ used_markers) then None else
    let cite_words := content_words (c_text citation) in
    if decide (cite_words = []) then None else
    pair citation <$> best_match cite_words (sentences_of c) None fzero) citations.

Definition find_likely_uncited (c : content) (citations used : list citation) : list citation :=
  fst <$> _uncited_citation_matches c citations used.

(** ** Inserting a missing marker *)

(** [markers_by_sentence.setdefault(sentence, []).append(marker)], over the matches. *)
Definition markers_by_sentence (matches : list (citation * string)) : list (string * list string) :=
  foldl (λ d '(citation, sentence), dict_append sentence (c_marker citation) d) [] matches.

(** [sorted(xs, key=key)] keeps the order of equal keys. *)
Fixpoint insert_by {A} (key : A → Z) (x : A) (l : list A) : list A :=
  match l with
  | [] => [x]
  | y :: l' => if (key x <? key y)%Z then x :: l else y :: insert_by key x l'
  end.
Definition sorted_by {A} (key : A → Z) (l : list A) : list A := foldl (λ acc x, insert_by key x acc) [] l.

(** [content.find(x)], [-1] when it is nowhere *)
Definition py_find (content x : string) : Z := from_option Z.of_nat (-1)%Z (find_str content x).

Definition newline : ascii := "010"%char.

(** [re.search("[.!?]$", sentence)]: where the stop at the end is, before a last line break too. *)
Fixpoint end_stop (s : string) : option nat :=
  match s with
  | EmptyString => None
  | String a s' =>
      if is_stop a && (bool_decide (s' = "") || bool_decide (s' = String newline "")) then Some O
      else S <$> end_stop s'
  end.

Definition with_markers (sentence markers_text : string) : string :=
  match end_stop sentence with
  | Some at_ => take_str at_ sentence +:+ " " +:+ markers_text +:+ drop_str at_ sentence
  | None => sentence +:+ " " +:+ markers_text
  end.

(** The loop that rebuilds the content: what it appends, and the final tail. *)
Fixpoint insert_go (content : string) (cursor : nat) (by_sentence : list (string * list string)) : string :=
  match by_sentence with
  | [] => drop_str cursor content
  | (sentence, markers) :: by_sentence =>
      match find_from content sentence cursor with
      | None => insert_go content cursor by_sentence
      | Some idx =>
          slice content cursor idx +:+ with_markers sentence (join "" markers) +:+
          insert_go content (idx + String.length sentence) by_sentence
      end
  end.

Definition insert_missing_citation_markers (c : content) (citations used : list citation) : content * list citation :=
  match c, _uncited_citation_matches c citations used with
  | Plain s, (_ :: _) as matches =>
      (Plain (insert_go s O (sorted_by (λ p, py_find s p.1) (markers_by_sentence matches))), fst <$> matches)
  | _, _ => (c, [])
  end.

(** ** Markers on the wrong sentence *)

(** The loop over the citing sentences: whether one was judged, and whether one supports. *)
Fixpoint judge (cite_words : list string) (citing : list string) (judged : bool) : bool * bool :=
  match citing with
  | [] => (judged, false)
  | sentence :: citing =>
      let sentence_words := content_words sentence in
      if Nat.ltb (length sentence_words) _MIN_JUDGED_SENTENCE_WORDS then judge cite_words citing judged else
      if fge (overlap_ratio sentence_words cite_words) _MISATTRIBUTED_OVERLAP_RATIO then (true, true)
      else judge cite_words citing true
  end.

Definition find_likely_misattributed (c : content) (citations used : list citation) : list citation :=
  if negb (has_content c) then [] else
  filter (λ citation,
    let cite_words := content_words (c_text citation) in
    cite_words ≠ [] ∧
    judge cite_words (filter (λ s, contains s (c_marker citation) = true) (sentences_of c)) false = (true, false)) used.
