(* ===== verification/Guardrails.v ===== *)
(** What an answer must not do: [app/agent/graph/output_guardrails.py] and [links.py]. *)
From Stdlib Require Import Ascii.
From S2P Require Import Prelude Json Text Regex Messages AgentState Guards.

Local Open Scope string_scope.
Local Open Scope list_scope.

(** ** Deferral *)

Definition its : regex := one_of [lit "that"; lit "this"; lit "it"].
Definition blanks : regex := plus blank.
Definition not_stop : regex := none_of ["."; "!"; "?"; "010"]%char.

Definition _TOOL_INTENT_RE : regex := in_order [
  RBound;
  one_of [RSeq (lit "i ") (one_of [lit "will"; lit "can"; lit "could"; lit "would"]); lit "i'll";
          RSeq (lit "let") (one_of [lit "'s"; lit " us"]); lit "let me"];
  RBound;
  RNot (RAlt (RSeq (lit "'t") RBound) (in_order [blanks; lit "not"; RBound]));
  up_to 60 not_stop;
  RBound;
  one_of [
    in_order [lit "use"; blanks; one_of [in_order [lit "the"; blanks; plus non_blank]; lit "this"; lit "that"]; blanks;
              one_of [lit "tool"; lit "skill"]];
    in_order [lit "look"; blanks; its; blanks; lit "up"];
    in_order [lit "look"; blanks; lit "up"; blanks; its];
    in_order [lit "check"; blanks; opt (RSeq (lit "on") blanks); lit "that"];
    in_order [lit "search"; blanks; lit "for"; blanks; lit "that"];
    in_order [lit "proceed"; blanks; lit "with"; blanks; lit "that"];
    in_order [lit "count"; blanks; lit "the"];
    in_order [lit "calculate"; blanks; its];
    in_order [lit "compute"; blanks; its];
    in_order [lit "run"; blanks; RAlt its (in_order [lit "the"; blanks; plus non_blank])];
    lit "manually"];
  RBound].

Definition _PERMISSION_SEEKING_RE : regex := in_order [
  RBound;
  one_of [lit "would you like"; lit "do you want"; lit "shall i"; lit "want me to"; lit "should i"];
  RBound;
  RStar not_stop;
  chr "?"].

Definition defers_instead_of_acting (c : content) : bool :=
  match c with
  | Plain s => nonempty s && (re_search _TOOL_INTENT_RE s || re_search _PERMISSION_SEEKING_RE s)
  | Parts _ => false
  end.

(** ** A closing offer *)

Definition _OFFER_FOLLOW_ON_RE : regex := RSeq
  (one_of [lit "if so"; lit "if yes";
           in_order [lit "if you"; opt (one_of [RSeq (RAlt (chr "'") (lit "’")) (chr "d"); lit " would"]); lit " ";
                     one_of [lit "like"; lit "want"]];
           lit "let me know"])
  RBound.
Definition _MAX_OFFER_FOLLOW_ON_CHARS : nat := 160.
Definition _MIN_BODY_CONTENT_WORDS : nat := 4.

(** [s.endswith(a)] for one character *)
Fixpoint ends_with (s : string) (a : ascii) : bool :=
  match s with
  | EmptyString => false
  | String b EmptyString => Ascii.eqb b a
  | String _ s => ends_with s a
  end.

Definition _is_offer (sentence : string) : bool := ends_with (rstrip sentence) "?" && re_search _PERMISSION_SEEKING_RE sentence.
Definition _is_offer_follow_on (sentence : string) : bool :=
  Nat.leb (String.length sentence) _MAX_OFFER_FOLLOW_ON_CHARS && re_match _OFFER_FOLLOW_ON_RE sentence.

(** The loop from the last sentence backwards: where the first offer of the end starts. *)
Fixpoint first_offer (text : string) (spans : list (nat * nat)) (found : option nat) : option nat :=
  match spans with
  | [] => found
  | (start, stop) :: spans =>
      let sentence := slice text start stop in
      if _is_offer sentence then first_offer text spans (Some start) else
      if _is_offer_follow_on sentence then first_offer text spans found else found
  end.

(** [s.count(p)]: occurrences that do not overlap. *)
Fixpoint count_go (fuel : nat) (s p : string) : nat :=
  match fuel with
  | O => O
  | S fuel => match find_str s p with Some i => S (count_go fuel (drop_str (i + String.length p) s) p) | None => O end
  end.
Definition count_str (s p : string) : nat := count_go (String.length s) s p.

Definition fence : string := "```".

Definition strip_text_offer (s : string) : string :=
  match first_offer s (reverse (sentence_spans s)) None with
  | None => s
  | Some start =>
      let body := rstrip (take_str start s) in
      if falsy body || ends_with body "?" || ends_with body ":" || Nat.odd (count_str body fence) ||
         Nat.ltb (length (content_words body)) _MIN_BODY_CONTENT_WORDS || re_search _TOOL_INTENT_RE body
      then s else body
  end.

(** A function of the text, on a content that is one and is not empty. *)
Definition on_text (f : string → string) (c : content) : content :=
  match c with Plain s => Plain (if nonempty s then f s else s) | Parts _ => c end.

Definition strip_closing_offer : content → content := on_text strip_text_offer.

(** ** Fabricated output *)

Definition _FABRICATED_OUTPUT_FENCE_THRESHOLD : nat := 4.

(** [_FENCE_RE.sub("", s)]: the shortest fenced blocks removed, from the left. *)
Fixpoint without_fences (fuel : nat) (s : string) : string :=
  match fuel with
  | O => s
  | S fuel =>
      match find_str s fence with
      | None => s
      | Some i =>
          match find_from s fence (i + 3) with
          | None => s
          | Some j => take_str i s +:+ without_fences fuel (drop_str (j + 3) s)
          end
      end
  end.

Definition _CLAIMS_EXECUTION_RE : regex := RAlt
  (in_order [RBound; one_of [lit "running"; lit "executing"]; RBound])
  (in_order [RBound; one_of [lit "output"; lit "result"]; opt (lit "s"); RStar blank;
             RAlt (chr ":") (in_order [blanks; one_of [lit "is"; lit "was"; lit "are"; lit "were"]; RBound])]).

Definition fabricates_tool_output (c : content) : bool :=
  match c with
  | Plain s =>
      if falsy s || Nat.ltb (count_str s fence) _FABRICATED_OUTPUT_FENCE_THRESHOLD then false
      else re_search _CLAIMS_EXECUTION_RE (without_fences (String.length s) s)
  | Parts _ => false
  end.

(** ** A made-up list of references *)

(** [s.splitlines()]: a carriage return and a line feed are one break; no empty last line. *)
Definition is_break (a : ascii) : bool :=
  let n := N_of_ascii a in ((10 <=? n) && (n <=? 13) || (28 <=? n) && (n <=? 30) || (n =? 133))%N.

Fixpoint lines_go (s : string) (line : string) : list string :=
  match s with
  | EmptyString => if falsy line then [] else [line]
  | String a s' =>
      if is_break a
      then line :: match a, s' with
                   | "013"%char, String "010"%char s'' => lines_go s'' ""
                   | _, _ => lines_go s' ""
                   end
      else lines_go s' (line +:+ String a "")
  end.
Definition splitlines (s : string) : list string := lines_go s "".

Definition _REFERENCE_FOOTER_LINE_RE : regex := in_order [chr "["; plus digit; chr "]"; chr ":"; blank].

(** The lines without the unbroken run of reference lines at the end, given in reverse. *)
Fixpoint drop_footer (reversed : list string) : list string :=
  match reversed with
  | line :: rest => if re_match _REFERENCE_FOOTER_LINE_RE line then drop_footer rest else reversed
  | [] => []
  end.

Definition strip_text_footer (s : string) : string :=
  let lines := splitlines (rstrip s) in
  let kept := reverse (drop_footer (reverse lines)) in
  if Nat.eqb (length kept) (length lines) then s else rstrip (join (String "010"%char "") kept).

Definition strip_fabricated_reference_footer : content → content := on_text strip_text_footer.

(** ** A tool a skill asked for *)

Definition _DOLLAR_FIGURE_RE : regex := in_order [
  chr "$"; plus (RAlt digit (chr ",")); opt (in_order [chr "."; digit; opt digit])].

Definition skipped_required_sandbox_after_skill (messages : list message) (required_tools : list string) : option string :=
  let turn_messages := current_turn_messages messages in
  match pending_skill_required_tool turn_messages required_tools with
  | None => None
  | Some pending_tool =>
      match m_content <$> last turn_messages with
      | Some (Plain s) => if re_search _DOLLAR_FIGURE_RE s then Some pending_tool else None
      | _ => None
      end
  end.

(** ** The system prompt *)

Definition _SYSTEM_PROMPT_LEAK_MIN_CHARS : nat := 60.
Definition _SYSTEM_PROMPT_LEAK_STEP : nat := 30.
Definition _SYSTEM_PROMPT_OPENING_MIN_CHARS : nat := 20.

(** [" ".join(s.split()).lower()] *)
Definition normalized (s : string) : string := lower (join " " (split s)).

(** [range(0, stop, step)] *)
Definition range_by (stop step : nat) : list nat :=
  filter (λ i, (i < stop)%nat) ((λ k, (k * step)%nat) <$> seq 0 stop).

Definition reveals_system_prompt (c : content) (system_prompt : string) : bool :=
  match c with
  | Parts _ => false
  | Plain s =>
      if falsy s || falsy system_prompt then false else
      let normalized_content := normalized s in
      let normalized_prompt := normalized system_prompt in
      let opening := take_str _SYSTEM_PROMPT_OPENING_MIN_CHARS normalized_prompt in
      if Nat.leb _SYSTEM_PROMPT_OPENING_MIN_CHARS (String.length opening) && contains normalized_content opening then true else
      let window := _SYSTEM_PROMPT_LEAK_MIN_CHARS in
      if Nat.ltb (String.length normalized_prompt) window then false else
      existsb (λ i, contains normalized_content (slice normalized_prompt i (i + window)))
        (range_by (String.length normalized_prompt - window + 1) _SYSTEM_PROMPT_LEAK_STEP)
  end.

(** ** Links *)

Definition LINK_TOOL_NAMES : list string := ["fetch_external_reference"; "check_vendor_status_page"; "enrich_lead_from_website"].
Definition LINK_REMINDER : string :=
  "Reminder: you cannot open links. If the person gave you one, say you cannot open it; do not describe what is on the page or guess what it is.".

Definition _LINK_RE : regex := in_order [
  RBound; one_of [in_order [lit "http"; opt (lit "s"); lit "://"]; lit "www."]; plus non_blank].

Definition mentions_link (text : string) : bool := re_search _LINK_RE text.
Definition cannot_open_links (tool_names : gset string) : bool := forallb (λ n, bool_decide (n ∉ tool_names)) LINK_TOOL_NAMES.
