(* ===== verification/Routing.v ===== *)
(** Which model tier answers a turn: the policy of [app/core/routing_policy.py] and the
    decision of [app/agent/graph/model_route.py]. *)
From Stdlib Require Import Ascii.
From S2P Require Import Prelude Dict Json Text Regex Messages AgentState Guardrails.

Local Open Scope string_scope.
Local Open Scope list_scope.

(** ** Tiers *)

Inductive Tier : Type := local | medium | strong.
#[export] Instance Tier_eq_dec : EqDecision Tier.
Proof. solve_decision. Defined.

Definition tier_name (t : Tier) : string := match t with local => "local" | medium => "medium" | strong => "strong" end.
Definition TIERS : list Tier := [local; medium; strong].
Definition RANK (t : Tier) : nat := match t with local => 0 | medium => 1 | strong => 2 end.

(** [max(a, b, key=RANK)] and [min(a, b, key=RANK)]: the first of two equals. *)
Definition max_tier (a b : Tier) : Tier := if Nat.ltb (RANK a) (RANK b) then b else a.
Definition min_tier (a b : Tier) : Tier := if Nat.ltb (RANK b) (RANK a) then b else a.

(** [reversed(TIERS[:rank + 1])], looked through for a configured one *)
Definition highest_at_or_below (tier : Tier) (configured : list Tier) : Tier :=
  default local (List.find (λ t, bool_decide (t ∈ configured)) (reverse (take (S (RANK tier)) TIERS))).

Definition step_down (tier : Tier) (configured : list Tier) : Tier :=
  match tier with
  | local => local
  | medium => highest_at_or_below local configured
  | strong => highest_at_or_below medium configured
  end.

(** ** The two signals *)

Definition DEFAULT_LONG_PROMPT_CHARS : nat := N.to_nat 1500.
Definition MAX_SCAN_CHARS : nat := N.to_nat 20000.

Definition LABEL_TIERS : list (string * Tier) := [
  ("smalltalk", local); ("lookup", local); ("action", local); ("drafting", local);
  ("analysis", medium); ("code", medium); ("reasoning", strong); ("high_stakes", strong)].

Definition word (s : string) : regex := in_order [RBound; lit s; RBound].

Definition _REASONING : list regex := [
  in_order [RBound; lit "step"; one_of [chr "-"; chr " "]; lit "by"; one_of [chr "-"; chr " "]; lit "step"; RBound];
  one_of [word "prove"; word "proof"];
  one_of [word "derive"; word "derivation"];
  in_order [RBound; lit "trade"; opt (chr "-"); lit "off"; opt (chr "s"); RBound];
  word "root cause";
  in_order [RBound; lit "optimi"; one_of [chr "s"; chr "z"]; one_of [lit "e"; lit "ation"]; RBound];
  in_order [RBound; one_of [lit "think"; lit "reason"; lit "work"]; opt (one_of [lit " it"; lit " this"; lit " that"]);
            lit " through"; RBound];
  word "pros and cons";
  word "first principles";
  word "justify";
  in_order [RBound; lit "edge case"; opt (chr "s"); RBound];
  word "compare and contrast"].

Definition _TRACEBACK : regex := RSeq RLine (exact "Traceback (most recent call last)").
Definition _INDENTED_CODE : regex := in_order [RLine; one_of [exact "    "; exactly "009"]; non_blank].
Definition _ENUMERATED : regex := in_order [
  RLine; RStar blank;
  one_of [in_order [digit; opt digit; one_of [exactly "."; exactly ")"]]; exactly "-"; exactly "*"; exact "•"];
  blanks; non_blank].

Record Rules : Type := mkRules { rules_tier : Tier; rules_fired : list string }.

(** The rules that fire, in order, each with the tier it asks for. *)
Definition asked_by (text : string) (long_prompt_chars : nat) : list (string * Tier) :=
  let scanned := take_str MAX_SCAN_CHARS text in
  let lowered := lower scanned in
  let markers := length (filter (λ pattern, re_search pattern lowered = true) _REASONING) in
  (if Nat.leb long_prompt_chars (String.length text) then [("long_prompt", medium)] else []) ++
  (if contains scanned fence || re_search _TRACEBACK scanned || Nat.leb 3 (re_count _INDENTED_CODE scanned)
   then [("code", medium)] else []) ++
  (if Nat.leb 3 (count_str scanned "?") || Nat.leb 3 (re_count _ENUMERATED scanned) then [("multi_part", medium)] else []) ++
  (if Nat.leb 2 markers then [("reasoning_markers", if Nat.leb 3 markers then strong else medium)] else []).

Definition evaluate_rules (text : string) (long_prompt_chars : nat) : Rules :=
  let asked := asked_by text long_prompt_chars in
  mkRules (match asked.*2 with [] => local | t :: ts => foldl max_tier t ts end) asked.*1.

(** ** The decision *)

Inductive DecidedBy : Type := by_none | by_rules | by_label | by_both.
Inductive LimitedBy : Type := by_ceiling | unconfigured | unpriced.

Record Decision : Type := mkDecision {
  d_tier : Tier;
  d_asked : Tier;
  d_rule_tier : Tier;
  d_label_tier : Tier;
  d_rules : list string;
  d_label : option string;
  d_decided_by : DecidedBy;
  d_limited_by : option LimitedBy;
}.

(** The label, when the table knows it. *)
Definition known_label (label : option string) : option string :=
  match label with
  | Some l => if bool_decide (dict_get l LABEL_TIERS = None) then None else Some l
  | None => None
  end.

Definition decide_tier (text : string) (label : option string) (ceiling : Tier) (configured : list Tier) (long_prompt_chars : nat) : Decision :=
  let rules := evaluate_rules text long_prompt_chars in
  let known := known_label label in
  let label_tier := default local (known ≫= λ l, dict_get l LABEL_TIERS) in
  let asked := max_tier (rules_tier rules) label_tier in
  let capped := min_tier asked ceiling in
  let tier := highest_at_or_below capped configured in
  let decided_by :=
    if Nat.eqb (RANK asked) 0 then by_none else
    if Nat.eqb (RANK (rules_tier rules)) (RANK label_tier) then by_both else
    if Nat.ltb (RANK label_tier) (RANK (rules_tier rules)) then by_rules else by_label in
  let limited_by :=
    if Nat.ltb (RANK tier) (RANK capped) then Some unconfigured else
    if Nat.ltb (RANK capped) (RANK asked) then Some by_ceiling else None in
  mkDecision tier asked (rules_tier rules) label_tier (rules_fired rules) known decided_by limited_by.

(** ** The node *)

Inductive router_mode : Type := router_off | router_shadow | router_on.

Record router_settings : Type := mkRouter {
  MEDIUM_CHAT_MODEL : string;
  STRONG_CHAT_MODEL : string;
  ROUTER_MODE : router_mode;
  ROUTER_LABELS : bool;
  ROUTER_MAX_TIER : Tier;
  ROUTER_LONG_PROMPT_CHARS : nat;
}.

Section router.
Context (r : router_settings).

Definition configured_tiers : list Tier :=
  [local] ++ (if nonempty (MEDIUM_CHAT_MODEL r) then [medium] else []) ++ (if nonempty (STRONG_CHAT_MODEL r) then [strong] else []).

(** The alias a turn calls instead of the default one: that of a tier other than [local] which
    has one. *)
Definition tier_alias (route : option string) : option string :=
  let alias := match route with
    | Some route => if String.eqb route "medium" then MEDIUM_CHAT_MODEL r else if String.eqb route "strong" then STRONG_CHAT_MODEL r else ""
    | None => ""
    end in
  if nonempty alias then Some alias else None.

(** [while tier != "local" and refused: tier = step_down(tier)], when the prices can be read;
    three tiers are passed in two steps. *)
Fixpoint priced_tier (refuse_unpriced : string → option bool) (fuel : nat) (tier : Tier) : option Tier :=
  match fuel with
  | O => Some tier
  | S fuel =>
      if bool_decide (tier = local) then Some tier else
      refused ← refuse_unpriced (default "" (tier_alias (Some (tier_name tier))));
      if (refused : bool) then priced_tier refuse_unpriced fuel (step_down tier configured_tiers) else Some tier
  end.

(** What a decision ends with: no text to decide on, a decision, or a failure of the prices.
    [classify] is what the label service answers: a label, or nothing; it does not raise. *)
Inductive route_result : Type :=
| No_text
| Routed (d : Decision)
| Route_error.

Definition _decide (classify : string → option string) (refuse_unpriced : string → option bool) (messages : list message) : route_result :=
  let text := human_text (last_human_message messages) in
  if negb (nonempty (strip text)) then No_text else
  let label := if ROUTER_LABELS r then classify text else None in
  let d := decide_tier text label (ROUTER_MAX_TIER r) configured_tiers (ROUTER_LONG_PROMPT_CHARS r) in
  match priced_tier refuse_unpriced 2 (d_tier d) with
  | Some tier => Routed (
      if bool_decide (tier = d_tier d) then d else
      mkDecision tier (d_asked d) (d_rule_tier d) (d_label_tier d) (d_rules d) (d_label d) (d_decided_by d) (Some unpriced))
  | None => Route_error
  end.

(** In [shadow] mode the decision is made, and only logged. *)
Definition route_model (classify : string → option string) (refuse_unpriced : string → option bool) (messages : list message) : Tier :=
  match ROUTER_MODE r with
  | router_off => local
  | router_shadow => local
  | router_on => match _decide classify refuse_unpriced messages with Routed d => d_tier d | No_text | Route_error => local end
  end.
End router.

(** ** Facts *)

Lemma highest_spec tier configured :
  let t := highest_at_or_below tier configured in
  (RANK t ≤ RANK tier)%nat ∧ (t = local ∨ t ∈ configured) ∧
  ∀ u, u ∈ configured → (RANK u ≤ RANK tier)%nat → (RANK u ≤ RANK t)%nat.
Proof.
  unfold highest_at_or_below. destruct tier; cbn [RANK TIERS take]; unfold reverse; cbn [rev_append List.find];
  repeat case_bool_decide; cbn; (split; [lia|]); (split; [tauto|]); intros [] Hu; cbn; try lia; done.
Qed.

Lemma rank_inj t u : RANK t = RANK u → t = u.
Proof. by destruct t, u. Qed.

(** The tier is the highest configured one under both the ceiling and what was asked. *)
Lemma decide_tier_spec text label ceiling configured chars :
  let d := decide_tier text label ceiling configured chars in
  (RANK (d_tier d) ≤ RANK ceiling)%nat ∧ (RANK (d_tier d) ≤ RANK (d_asked d))%nat ∧
  (d_tier d = local ∨ d_tier d ∈ configured) ∧
  (∀ u, u ∈ configured → (RANK u ≤ RANK ceiling)%nat → (RANK u ≤ RANK (d_asked d))%nat → (RANK u ≤ RANK (d_tier d))%nat) ∧
  (d_limited_by d = None ↔ d_tier d = d_asked d).
Proof.
  cbv zeta. unfold decide_tier. cbn [d_tier d_asked d_limited_by].
  generalize (max_tier (rules_tier (evaluate_rules text chars)) (default local (known_label label ≫= λ l, dict_get l LABEL_TIERS))) as asked.
  intros asked. pose proof (highest_spec (min_tier asked ceiling) configured) as (H1 & H2 & H3).
  assert (Hmin : (RANK (min_tier asked ceiling) ≤ RANK asked)%nat ∧ (RANK (min_tier asked ceiling) ≤ RANK ceiling)%nat ∧
    ∀ u, (RANK u ≤ RANK asked)%nat → (RANK u ≤ RANK ceiling)%nat → (RANK u ≤ RANK (min_tier asked ceiling))%nat).
  { unfold min_tier. destruct (Nat.ltb_spec (RANK ceiling) (RANK asked)); repeat split; try lia; auto. }
  destruct Hmin as (Ha & Hc & Hu). split; [lia|]. split; [lia|]. split; [done|]. split; [intros u Hcu H4 H5; apply H3; auto|].
  destruct (Nat.ltb_spec (RANK (highest_at_or_below (min_tier asked ceiling) configured)) (RANK (min_tier asked ceiling))) as [Hlt|Hge];
  [|destruct (Nat.ltb_spec (RANK (min_tier asked ceiling)) (RANK asked)) as [Hlt|Hge']].
  - split; [done|]. intros E. rewrite E in Hlt. lia.
  - split; [done|]. intros E. rewrite E in H1. lia.
  - split; [intros _|done]. apply rank_inj. lia.
Qed.

(** The alias of a tier, as the prices are asked for it. *)
Definition alias_of (r : router_settings) (t : Tier) : string := default "" (tier_alias r (Some (tier_name t))).

(** The higher of the two signals on a text. *)
Definition asked_tier (text : string) (label : option string) (chars : nat) : Tier :=
  max_tier (rules_tier (evaluate_rules text chars)) (default local (known_label label ≫= λ l, dict_get l LABEL_TIERS)).

Lemma decide_tier_asked text label ceiling configured chars :
  d_asked (decide_tier text label ceiling configured chars) = asked_tier text label chars.
Proof. done. Qed.

Lemma configured_alias r t : t ∈ configured_tiers r → t ≠ local → tier_alias r (Some (tier_name t)) = Some (alias_of r t).
Proof.
  unfold configured_tiers, alias_of, tier_alias. destruct t; cbn; [done|..]; intros Ht _;
  destruct (nonempty (MEDIUM_CHAT_MODEL r)), (nonempty (STRONG_CHAT_MODEL r)); cbn in *; set_solver.
Qed.

Lemma priced_tier_0 r refuse t : priced_tier r refuse 0 t = Some t.
Proof. done. Qed.

(** One look at the price of a tier. *)
Lemma priced_tier_S r refuse fuel t :
  priced_tier r refuse (S fuel) t =
    if bool_decide (t = local) then Some t else
    match refuse (alias_of r t) with
    | Some true => priced_tier r refuse fuel (step_down t (configured_tiers r))
    | Some false => Some t
    | None => None
    end.
Proof. cbn. case_bool_decide; [done|]. unfold alias_of. by destruct (refuse _) as [[]|]. Qed.

(** The prices can be read: a tier is found. *)
Lemma priced_tier_some r refuse fuel t : (∀ alias, refuse alias ≠ None) → priced_tier r refuse fuel t ≠ None.
Proof.
  intros Hr. revert t. induction fuel as [|fuel IH]; intros t; [done|]. rewrite priced_tier_S.
  case_bool_decide; [done|]. pose proof (Hr (alias_of r t)). destruct (refuse _) as [[]|]; done || apply IH.
Qed.

(** The tier of a decision once its price was looked at. *)
Lemma priced_decision d t :
  d_tier (if bool_decide (t = d_tier d) then d else
    mkDecision t (d_asked d) (d_rule_tier d) (d_label_tier d) (d_rules d) (d_label d) (d_decided_by d) (Some unpriced)) = t.
Proof. by case_bool_decide. Qed.

(** The tier called is the highest of the configured ones up to the decision that has a price. *)
Lemma priced_tier_spec r refuse d t :
  d = local ∨ d ∈ configured_tiers r → priced_tier r refuse 2 d = Some t →
  (RANK t ≤ RANK d)%nat ∧ (t = local ∨ t ∈ configured_tiers r ∧ refuse (alias_of r t) = Some false) ∧
  ∀ u, u ∈ configured_tiers r → (RANK t < RANK u)%nat → (RANK u ≤ RANK d)%nat → refuse (alias_of r u) = Some true.
Proof.
  rewrite !priced_tier_S, priced_tier_0. unfold configured_tiers, step_down, highest_at_or_below. intros Hd.
  generalize (alias_of r) as alias. intros alias.
  destruct d, (nonempty (MEDIUM_CHAT_MODEL r)), (nonempty (STRONG_CHAT_MODEL r)); cbn in Hd |- *;
  try (exfalso; set_solver);
  repeat (rewrite ?bool_decide_eq_true_2, ?bool_decide_eq_false_2 by set_solver; cbn);
  repeat case_match; intros [= <-]; (split; [cbn; lia|]); (split; [set_solver|]);
  intros u Hu; repeat (apply elem_of_cons in Hu as [->|Hu]); cbn; try lia; try done; set_solver.
Qed.
