(* ===== verification/Compaction.v ===== *)
(** Trimming and summarising a long history: [app/agent/graph/compaction.py].

    The tokenizer is an argument: the number of tokens of a text. *)
From Stdlib Require Import Ascii.
From S2P Require Import Prelude Dict Json Text Messages AgentState.

Local Open Scope string_scope.
Local Open Scope list_scope.

(** ** Which messages fall outside the kept window *)

Definition is_system (m : message) : bool := is_type SystemMessage m.
Definition non_system (messages : list message) : list message := filter (λ m, is_system m = false) messages.

Definition _message_text (m : message) : string := content_str (content_or_empty m).

(** The positions of the messages a person sent, from [i] on. *)
Fixpoint turn_starts_from (i : nat) (messages : list message) : list nat :=
  match messages with
  | [] => []
  | m :: rest => (if is_user_message m then [i] else []) ++ turn_starts_from (S i) rest
  end.
Definition turn_starts (messages : list message) : list nat := turn_starts_from 0 messages.

Section tokens.
Context (tokens : string → Z).

Definition _estimate_tokens (messages : list message) : Z :=
  sumZ (λ m, tokens (_message_text m)) (filter (λ m, is_retry_artifact m = false) messages).

(** The loop over the later turns: the first one from which the rest fits, else [worst]. *)
Fixpoint cutoff (messages : list message) (floor : Z) (starts : list nat) (worst : nat) : nat :=
  match starts with
  | [] => worst
  | idx :: starts =>
      if (_estimate_tokens (non_system (drop idx messages)) <=? floor)%Z then idx
      else cutoff messages floor starts worst
  end.

Definition removable (m : message) : bool := negb (is_system m) && bool_decide (m_id m ≠ None).

Definition _messages_to_trim (messages : list message) (ceiling floor : Z) : list message :=
  match turn_starts messages with
  | [] | [_] => []
  | _ :: later =>
      if (_estimate_tokens (non_system messages) <=? ceiling)%Z then [] else
      let cut := cutoff messages floor later (default O (last later)) in
      filter (λ m, removable m = true) (take cut messages)
  end.

(** [RemoveMessage(id=m.id)] *)
Definition removal (m : message) : msg_update := Remove (default "" (m_id m)).

Definition _trim_history (messages : list message) (ceiling floor : Z) : list msg_update :=
  removal <$> _messages_to_trim messages ceiling floor.

(** ** The summary *)

Definition role_name (t : message_type) : string :=
  match t with HumanMessage => "User" | AIMessage => "Assistant" | ToolMessage => "Tool" | SystemMessage => "system" end.

Definition summary_line (m : message) : option string :=
  if is_retry_artifact m then None else
  let c := if is_type HumanMessage m then Plain (human_text (Some m)) else content_or_empty m in
  if has_content c then Some (role_name (m_type m) +:+ ": " +:+ content_str c) else None.

Definition line_feed : string := String "010"%char "".

Definition _format_turns_for_summary (messages : list message) : string := join line_feed (omap summary_line messages).

(** [_HISTORY_SUMMARY_PROMPT.format(...)] *)
Definition summary_prompt (prior_summary turns_text : string) : string :=
  "Summarize the following earlier conversation turns concisely, in a few sentences. Preserve any facts, decisions, names, or commitments that might matter for later turns; drop small talk and anything already resolved." +:+
  blank_line +:+
  (if nonempty prior_summary
   then "Existing summary so far (extend it, don't discard it):" +:+ line_feed +:+ prior_summary +:+ blank_line else "") +:+
  "Turns to summarize:" +:+ line_feed +:+ turns_text +:+ blank_line +:+ "Summary:".

Definition _compaction_marker_message (turns_dropped : nat) (summarized : bool) : message :=
  let turn_word := if Nat.eqb turns_dropped 1 then "turn" else "turns" in
  let verb := if summarized then "summarized" else "dropped (summarization unavailable)" in
  said SystemMessage
    ("[" +:+ dump_int (Z.of_nat turns_dropped) +:+ " earlier " +:+ turn_word +:+ " " +:+ verb +:+
     " to keep this conversation within budget.]")
    [(COMPACTION_MARKER_KEY, JBool true)].

(** The node.  [summarize] is the model: what it answers to a prompt, nothing when the call
    fails. *)
Definition compact_history (summarize : string → option string) (ceiling floor : Z) (state : State) : list put :=
  match _messages_to_trim (messages state) ceiling floor with
  | [] => []
  | to_summarize =>
      let removals := removal <$> to_summarize in
      let turns_dropped := length (filter (λ m, is_user_message m = true) to_summarize) in
      match summarize (summary_prompt (history_summary state) (_format_turns_for_summary to_summarize)) with
      | None => [Set_messages (removals ++ [Put (_compaction_marker_message turns_dropped false)])]
      | Some response =>
          let new_summary := strip response in
          if falsy new_summary then [Set_messages (removals ++ [Put (_compaction_marker_message turns_dropped false)])]
          else [Set_messages (removals ++ [Put (_compaction_marker_message turns_dropped true)]); Set_history_summary new_summary]
      end
  end.

(** ** Facts *)

Lemma turn_starts_from_elem i messages j :
  j ∈ turn_starts_from i messages ↔ ∃ k m, j = (i + k)%nat ∧ messages !! k = Some m ∧ is_user_message m = true.
Proof.
  revert i. induction messages as [|m rest IH]; intros i; simpl.
  - split; [by intros ?%not_elem_of_nil|by intros (k & m & _ & H & _)].
  - rewrite elem_of_app, IH. split.
    + intros [H|(k & m' & -> & Hk & Hm)]; [|exists (S k), m'; split; [lia|done]].
      destruct (is_user_message m) eqn:E; [|by apply not_elem_of_nil in H].
      apply list_elem_of_singleton in H as ->. exists O, m. split; [lia|done].
    + intros ([|k] & m' & -> & Hk & Hm).
      * simplify_eq/=. left. rewrite Hm. apply list_elem_of_singleton. lia.
      * right. exists k, m'. split; [lia|done].
Qed.

Lemma turn_starts_elem messages j :
  j ∈ turn_starts messages ↔ ∃ m, messages !! j = Some m ∧ is_user_message m = true.
Proof. unfold turn_starts. rewrite turn_starts_from_elem. simpl. naive_solver. Qed.

Lemma turn_starts_sorted i messages : StronglySorted lt (turn_starts_from i messages).
Proof.
  revert i. induction messages as [|m rest IH]; intros i; simpl; [constructor|].
  destruct (is_user_message m); simpl; [|apply IH]. constructor; [apply IH|].
  apply Forall_forall. intros j (k & m' & -> & _)%turn_starts_from_elem. lia.
Qed.

(** The loop stops at the first of the turns it looks at from which the rest fits. *)
Lemma cutoff_spec messages floor starts worst :
  (∃ before after, starts = before ++ cutoff messages floor starts worst :: after ∧
    (_estimate_tokens (non_system (drop (cutoff messages floor starts worst) messages)) ≤ floor)%Z ∧
    ∀ j, j ∈ before → (floor < _estimate_tokens (non_system (drop j messages)))%Z) ∨
  (cutoff messages floor starts worst = worst ∧
    ∀ j, j ∈ starts → (floor < _estimate_tokens (non_system (drop j messages)))%Z).
Proof.
  induction starts as [|idx starts IH]; simpl; [right; split; [done|by intros j ?%not_elem_of_nil]|].
  destruct (_ <=? _)%Z eqn:E; dec.
  - left. exists [], starts. do 2 (split; [done|]). by intros j ?%not_elem_of_nil.
  - destruct IH as [(before & after & Hk & Hf & Hb)|[Hk Hf]]; [left|right].
    + exists (idx :: before), after. split; [by rewrite Hk at 1|]. split; [done|]. intros j [->|Hj]%elem_of_cons; auto.
    + split; [done|]. intros j [->|Hj]%elem_of_cons; auto.
Qed.

Lemma sorted_below (l : list nat) before k after j :
  StronglySorted lt l → l = before ++ k :: after → j ∈ l → (j < k)%nat → j ∈ before.
Proof.
  intros Hs -> Hj Hlt. apply elem_of_app in Hj as [Hj|[->|Hj]%elem_of_cons]; [done|lia|].
  apply StronglySorted_app in Hs as (_ & _ & Hs). apply StronglySorted_inv in Hs as [_ Hs].
  rewrite Forall_forall in Hs. apply Hs in Hj. lia.
Qed.

Lemma sorted_last (l : list nat) w j : StronglySorted lt l → last l = Some w → j ∈ l → (j ≤ w)%nat.
Proof.
  intros Hs [l' ->]%last_Some [Hj|Hj]%elem_of_app; [|apply list_elem_of_singleton in Hj as ->; lia].
  apply StronglySorted_app in Hs as (Hs & _ & _). apply Nat.lt_le_incl, Hs; [done|by apply list_elem_of_singleton].
Qed.

Lemma trim_fits messages ceiling floor :
  (_estimate_tokens (non_system (drop 0 messages)) ≤ ceiling)%Z → _messages_to_trim messages ceiling floor = [].
Proof.
  rewrite drop_0. intros Hc%Z.leb_le. unfold _messages_to_trim. destruct (turn_starts messages) as [|first [|second later]]; [done..|]. by rewrite Hc.
Qed.

Lemma trim_one_turn messages ceiling floor :
  (∀ i j, i ∈ turn_starts messages → j ∈ turn_starts messages → i = j) → _messages_to_trim messages ceiling floor = [].
Proof.
  intros Hone. unfold _messages_to_trim. pose proof (turn_starts_sorted 0 messages) as Hs. fold (turn_starts messages) in Hs.
  destruct (turn_starts messages) as [|first [|second later]]; [done..|]. exfalso.
  apply StronglySorted_inv in Hs as [_ Hs]. apply Forall_cons in Hs as [Hs _]. specialize (Hone first second ltac:(left) ltac:(right; left)). lia.
Qed.

(** What is trimmed of a history of several turns over the ceiling is the removable part of some
    number of whole turns: those before the first turn from which the history fits the floor, or
    before the last one. *)
Lemma trim_cuts messages ceiling floor first later :
  (ceiling < _estimate_tokens (non_system messages))%Z → first ∈ turn_starts messages →
  (∀ j, j ∈ turn_starts messages → (first ≤ j)%nat) → later ∈ turn_starts messages → (first < later)%nat →
  ∃ cut m, messages !! cut = Some m ∧ is_user_message m = true ∧ (first < cut)%nat ∧
    _messages_to_trim messages ceiling floor = filter (λ m, removable m = true) (take cut messages) ∧
    (∀ j, j ∈ turn_starts messages → (first < j < cut)%nat → (floor < _estimate_tokens (non_system (drop j messages)))%Z) ∧
    ((_estimate_tokens (non_system (drop cut messages)) ≤ floor)%Z ∨ ∀ j, j ∈ turn_starts messages → (j ≤ cut)%nat).
Proof.
  intros Hc Hfirst Hmin Hlater Hlt. unfold _messages_to_trim. pose proof (turn_starts_sorted 0 messages) as Hs. fold (turn_starts messages) in Hs.
  destruct (turn_starts messages) as [|first' rest] eqn:Et; [by apply not_elem_of_nil in Hfirst|].
  apply StronglySorted_inv in Hs as [Hs2 Hs1]. rewrite Forall_forall in Hs1.
  assert (first' = first) as ->.
  { apply elem_of_cons in Hfirst as [?|Hfirst]; [done|]. specialize (Hs1 _ Hfirst). specialize (Hmin first' ltac:(left)). lia. }
  destruct rest as [|second rest]; [apply list_elem_of_singleton in Hlater; lia|]. apply Z.leb_gt in Hc as ->.
  set (l := second :: rest) in *. set (worst := default 0 (last l)). set (cut := cutoff messages floor l worst).
  destruct (last l) as [w|] eqn:Hw; [|by apply last_None in Hw].
  pose proof (cutoff_spec messages floor l worst) as Hcut. fold cut in Hcut.
  assert (Hcin : cut ∈ l).
  { destruct Hcut as [(before & after & El & _)|[Ek _]].
    - rewrite El. apply elem_of_app. right. left.
    - rewrite Ek. by apply last_Some_elem_of. }
  assert (Hct : cut ∈ turn_starts messages) by (rewrite Et; by right).
  apply turn_starts_elem in Hct as (m & Hm & Hu). pose proof (Hs1 _ Hcin) as Hpos.
  exists cut, m. do 4 (split; [done|]).
  destruct Hcut as [(before & after & El & Hf & Hb)|[Hk Hf]]; split.
  - intros j [->|Hj]%elem_of_cons [H1 H2]; [lia|]. apply Hb. by eapply sorted_below.
  - by left.
  - intros j [->|Hj]%elem_of_cons [H1 H2]; [lia|]. by apply Hf.
  - right. intros j [->|Hj]%elem_of_cons; [lia|]. rewrite Hk. by eapply sorted_last.
Qed.
End tokens.

(** Cutting before the last turn, or at it, leaves the current turn as it was. *)
Lemma current_turn_drop (messages : list message) cut m :
  messages !! cut = Some m → is_user_message m = true →
  current_turn_messages (drop cut messages) = current_turn_messages messages.
Proof.
  revert cut. induction messages as [|x rest IH]; intros [|cut] Hc Hu; try done. simpl in *.
  assert (He : existsb is_user_message rest = true) by (apply existsb_elem; exists m; split; [by eapply list_elem_of_lookup_2|done]).
  rewrite He. by apply IH.
Qed.

(** A cut at the start of a turn does not part two messages of one turn. *)
Lemma cut_between (messages : list message) cut m i j :
  messages !! cut = Some m → is_user_message m = true → (i < j)%nat →
  (∀ k x, (i < k ≤ j)%nat → messages !! k = Some x → is_user_message x = false) →
  (i < cut)%nat ↔ (j < cut)%nat.
Proof.
  intros Hc Hu Hij Hk. split; [|lia]. intros Hi. destruct (decide (j < cut)%nat) as [|Hj]; [done|].
  rewrite (Hk cut m) in Hu; [done|lia|done].
Qed.
