(* ===== verification/Turn.v ===== *)
(** The nodes of a turn and the routes between them: [app/agent/graph/core.py],
    [routing.py], [hitl.py], [retry.py] and [cache.py].

    A node gives the updates it returns; nothing when it raises.  The counters are left out. *)
From Stdlib Require Import Ascii.
From stdpp Require Import gmap.
From S2P Require Import Prelude Dict Json Text Messages AgentState Guards Citations Guardrails OutputChecks.

Local Open Scope string_scope.
Local Open Scope list_scope.

Definition answer (text : string) : list put := [Set_messages [Put (said AIMessage text [])]].

(** ** The start of a turn *)

Definition validate_input (ctx : option SecurityCtx) (state : State) : list put :=
  let healed := heal_legacy_retry_artifacts (messages state) in
  [Set_iterations 0; Set_total_tokens 0; Set_total_cost_usd fzero; Set_subagent_spend None;
   Set_cancelled false; Set_approved false; Set_state_schema_version (Some STATE_SCHEMA_VERSION);
   Set_ctx ctx; Set_citations []; Set_context ""; Set_context_anchor_index None;
   Set_used_citations []; Set_ungrounded_claims_count 0; Set_output_findings []; Set_last_retry_reason None;
   Set_retry_reason_repeat_count 0; Set_cache_hit false; Set_moderation_blocked false;
   Set_model_route None; Set_followups []] ++
  (if bool_decide (healed = []) then [] else [Set_messages (Put <$> healed)]).

Inductive validation : Type := to_moderate_input | to_reject_input | to_reject_context.

Definition route_after_validation (state : State) : validation :=
  if negb (valid_ctx (ctx state)) then to_reject_context else
  if negb (human_has_content (last_human_message (messages state))) then to_reject_input else to_moderate_input.

(** [screen] tells whether a text is allowed. *)
Definition moderate_input (screen : string → bool) (state : State) : list put :=
  match last_human_message (messages state) with
  | None => [Set_moderation_blocked false]
  | Some m => [Set_moderation_blocked (negb (screen (human_text (Some m))))]
  end.

(** Whether the turn is rejected. *)
Definition route_after_moderation (state : State) : bool := moderation_blocked state.

Definition reject_moderation : list put := answer CANNOT_HELP_MESSAGE.
Definition reject_input : list put := answer "I didn't receive a question — please try again.".
Definition reject_context : list put :=
  answer "I couldn't verify who's asking, so I can't help with this request. Please try again.".

(** Whether the summary has outgrown its budget. *)
Definition route_after_compaction (state : State) : bool :=
  Nat.ltb MAX_HISTORY_SUMMARY_CHARS (String.length (history_summary state)).

Definition context_window_exceeded : list put :=
  answer "This conversation has grown too long to continue safely in this thread, even after compacting earlier turns — please start a new conversation.".

(** ** The cache *)

Definition check_semantic_cache (cache_get : option SecurityCtx → string → option (string * list citation)) (state : State) : list put :=
  match last_human_message (messages state) with
  | None => []
  | Some m =>
      match cache_get (ctx state) (human_text (Some m)) with
      | None => []
      | Some (text, citations) => answer text ++ [Set_citations citations; Set_cache_hit true]
      end
  end.

(** Whether the answer came from the cache. *)
Definition route_after_cache (state : State) : bool := cache_hit state.

Definition _turn_acted (state : State) (tool_capabilities : gmap string string) : bool :=
  existsb (λ m, existsb (λ call, negb (bool_decide (tool_capability (tc_name call) tool_capabilities = "read_only"))) (m_tool_calls m))
    (current_turn_messages (messages state)).

(** What is stored: the question, the answer and its citations. *)
Definition write_semantic_cache (tool_capabilities : gmap string string) (state : State) : option (string * content * list citation) :=
  if cache_hit state then None else
  if _turn_acted state tool_capabilities then None else
  match last_human_message (messages state), last (messages state) with
  | Some question, Some m =>
      if has_content (content_or_empty m)
      then Some (human_text (Some question), content_or_empty m, used_citations state) else None
  | _, _ => None
  end.

(** ** Follow-up questions *)

(** [text.split("\n")] *)
Fixpoint split_on_newline (s : string) (line : string) : list string :=
  match s with
  | EmptyString => [line]
  | String a s =>
      if bool_decide (a = newline) then line :: split_on_newline s "" else split_on_newline s (line +:+ String a "")
  end.

(** [line.strip("-•* ")]; no text of the model has the bullet, which is above U+00FF. *)
Definition is_list_mark (a : ascii) : bool := bool_decide (a ∈ ["-"; "*"; " "]%char).
Fixpoint lstrip_marks (s : string) : string :=
  match s with String a s' => if is_list_mark a then lstrip_marks s' else s | EmptyString => "" end.
Fixpoint rstrip_marks (s : string) : string :=
  match s with
  | EmptyString => ""
  | String a s => let t := rstrip_marks s in if is_list_mark a && bool_decide (t = "") then "" else String a t
  end.

Definition _FOLLOWUP_PROMPT (answer : string) : string :=
  "Based on the answer below, suggest 2-3 short, natural follow-up questions a user might ask next. Respond with ONLY the questions, one per line, no numbering, no extra commentary." +:+
  blank_line +:+ "Answer:" +:+ String newline "" +:+ answer.

(** [model] answers a prompt, or fails. *)
Definition suggest_followups (model : string → option string) (state : State) : list put :=
  let none := [Set_followups []] in
  if cache_hit state then none else
  if bool_decide (used_citations state = []) then none else
  let content := match last (messages state) with Some m => content_or_empty m | None => Plain "" end in
  if negb (has_content content) then none else
  match model (_FOLLOWUP_PROMPT (content_str content)) with
  | None => none
  | Some response =>
      let lines := filter (λ line, nonempty (strip line) = true) (split_on_newline response "") in
      [Set_followups (take 3 ((λ line, strip (rstrip_marks (lstrip_marks line))) <$> lines))]
  end.

(** ** After the model *)

Inductive route : Type := to_tools | to_human_approval | to_tool_batch_guard | to_check_output | to_no_answer.
#[export] Instance route_eq_dec : EqDecision route.
Proof. solve_decision. Defined.

Record turn_limits : Type := mkLimits { max_iterations : Z; max_tokens : Z; max_cost_usd : float }.

Definition refused_by_gateway (messages : list message) : bool :=
  match last messages with
  | Some m => is_type AIMessage m && truthy (dict_get GATEWAY_REFUSAL_KEY (m_kwargs m))
  | None => false
  end.

Definition effective_tokens (state : State) : Z := (total_tokens state + sumZ fst (subagent_spend state))%Z.
Definition effective_cost_usd (state : State) : float := fadd (total_cost_usd state) (fsum (snd <$> subagent_spend state)).

Section routing.
Context `{LangGraph}.

Definition should_continue (tool_capabilities : gmap string string) (valid_tool_names : gset string)
    (limits : turn_limits) (state : State) : route :=
  if refused_by_gateway (messages state) then to_no_answer else
  if (max_iterations limits <=? iterations state)%Z then to_no_answer else
  if (max_tokens limits <=? effective_tokens state)%Z then to_no_answer else
  if fge (effective_cost_usd state) (max_cost_usd limits) then to_no_answer else
  if negb (tools_condition (messages state)) then to_check_output else
  let tool_calls := pending_calls (messages state) in
  match batch_problem tool_calls (messages state) valid_tool_names with
  | Some _ => to_tool_batch_guard
  | None =>
      if Nat.leb MAX_REPEATED_ACTIONS (consecutive_repeat_count (messages state)) then to_no_answer else
      let mandatory_reason := mandatory_gate_reason tool_calls tool_capabilities in
      if require_approval state || bool_decide (mandatory_reason ≠ None) then to_human_approval else to_tools
  end.
End routing.

(** ** Judging the answer *)

(** What [check_output] finds; its message replaces the last one. *)
Record checked : Type := mkChecked {
  ch_message : option message;
  ch_used_citations : list citation;
  ch_ungrounded : Z;
  ch_findings : list (string * detail);
  ch_reason : option string;
  ch_repeat_count : Z;
}.

Record output_config : Type := mkOutput {
  out_system_prompt : string;
  out_enforce_citations : bool;
  out_skill_required_tools : list string;
}.

(** [last.model_copy(update={"content": c})] when [c] is not what was there. *)
Definition corrected (last : message) (old new : content) (before : option message) : option message :=
  if bool_decide (new = old) then before else Some (with_content new last).

Definition check_answer (cfg : output_config) (state : State) (last : message) : checked :=
  let written := content_or_empty last in
  let cites := citations state in
  let content := strip_fabricated_reference_footer written in
  let body := strip_closing_offer content in
  let update := corrected last content body (corrected last written content None) in
  let used := find_used_citations body cites in
  let '(shown, shown_used, update) :=
    if out_enforce_citations cfg && negb (bool_decide (find_likely_uncited body cites used = [])) then
      let '(corrected_content, fixed) := insert_missing_citation_markers body cites used in
      if bool_decide (fixed = []) then (body, used, update)
      else (corrected_content, find_used_citations corrected_content cites, Some (with_content corrected_content last))
    else (body, used, update) in
  let findings := run_checks
    (mkContext content body (messages state) cites used shown shown_used
      (out_system_prompt cfg) (out_enforce_citations cfg) (out_skill_required_tools cfg)) in
  let reason := fst <$> head findings in
  let repeat_count :=
    match reason with
    | None => 0%Z
    | Some _ => if bool_decide (reason = last_retry_reason state) then (retry_reason_repeat_count state + 1)%Z else 1%Z
    end in
  mkChecked update shown_used (count_ungrounded_claims shown cites) findings reason repeat_count.

Definition checked_message (c : checked) : list put :=
  match ch_message c with Some m => [Set_messages [Put m]] | None => [] end.

(** Nothing without a message: [state["messages"][-1]] raises. *)
Definition check_output (cfg : output_config) (state : State) : option (list put) :=
  c ← check_answer cfg state <$> last (messages state);
  Some (checked_message c ++
    [Set_used_citations (ch_used_citations c); Set_ungrounded_claims_count (ch_ungrounded c);
     Set_output_findings (ch_findings c); Set_last_retry_reason (ch_reason c);
     Set_retry_reason_repeat_count (ch_repeat_count c)]).

Inductive after_check : Type := to_retry_output | to_retry_exhausted | to_finish.

Definition route_after_check (state : State) : after_check :=
  match last_retry_reason state with
  | None => to_finish
  | Some _ =>
      if (MAX_CONSECUTIVE_SAME_RETRY_REASON <=? retry_reason_repeat_count state)%Z then to_retry_exhausted else to_retry_output
  end.

(** ** Trying again, and giving up *)

Definition _as_retry_artifact (m : option message) : list message :=
  match m with
  | Some m =>
      if negb (is_type AIMessage m) || negb (bool_decide (m_tool_calls m = [])) || bool_decide (m_id m = None) then []
      else [with_kwargs (dict_set RETRY_ARTIFACT_KEY (JBool true) (m_kwargs m)) m]
  | None => []
  end.

(** Nothing when no check has the reason. *)
Definition retry_output (state : State) : option (list put) :=
  reason ← last_retry_reason state;
  check ← check_for reason;
  let feedback := oc_feedback check (dict_get reason (output_findings state)) in
  Some [Set_messages (Put <$> _as_retry_artifact (last (messages state)) ++
          [said HumanMessage feedback [(RETRY_ARTIFACT_KEY, JBool true)]])].

(** [isinstance(content, str) and content.strip()] *)
Definition readable (c : content) : bool := match c with Plain s => nonempty (strip s) | Parts _ => false end.

Definition last_content (messages : list message) : content :=
  match last messages with Some m => content_or_empty m | None => Plain "" end.

Definition retry_exhausted (emit_message : bool) (state : State) : option (list put) :=
  trusted ← trusts_content (last_retry_reason state);
  if trusted && readable (last_content (messages state)) then Some [] else
  text ← (if emit_message then fallback_message (last_retry_reason state) else Some "");
  Some [Set_messages (Put <$> _as_retry_artifact (last (messages state)) ++ [said AIMessage text []]);
        Set_used_citations []; Set_ungrounded_claims_count 0].

Definition NOT_RUN : string := "Not run: this turn reached a safety limit before this call could run.".

Definition no_answer_fallback (emit_message : bool) (cfg : output_config) (state : State) : option (list put) :=
  last ← last (messages state);
  let pending_calls := if is_type AIMessage last then m_tool_calls last else [] in
  let rejections := reject_tool_calls pending_calls NOT_RUN in
  if negb emit_message then
    Some (if bool_decide (rejections = []) then [] else [Set_messages (Put <$> rejections)])
  else
    let fresh := check_answer cfg state last in
    trusts ← trusts_content (ch_reason fresh);
    let trustworthy := bool_decide (pending_calls = []) && trusts && readable (content_or_empty last) in
    text ← fallback_message (ch_reason fresh);
    Some ([Set_used_citations (ch_used_citations fresh); Set_ungrounded_claims_count (ch_ungrounded fresh)] ++
      (if trustworthy then checked_message fresh
       else [Set_messages (Put <$> rejections ++ _as_retry_artifact (Some last) ++ [said AIMessage text []])])).

(** ** The person's approval *)

Definition CANCEL_SENTINEL : string := "cancelled".

(** What the person is shown. *)
Definition approval_request (tool_calls : list tool_call) : list (string * json) :=
  (λ tc, (tc_name tc, tc_args tc)) <$> tool_calls.

Definition human_approval (interrupt : list (string * json) → json) (state : State) : list put :=
  let tool_calls := pending_calls (messages state) in
  let decision := interrupt (approval_request tool_calls) in
  if bool_decide (decision = JStr CANCEL_SENTINEL) then
    [Set_messages (Put <$> reject_tool_calls tool_calls "Cancelled by request — this action will not run.");
     Set_approved false; Set_cancelled true]
  else if truthy (Some decision) then [Set_approved true]
  else [Set_messages (Put <$> reject_tool_calls tool_calls "Rejected by human reviewer."); Set_approved false].

Inductive after_approval : Type := approved_tools | rejected_agent | cancelled_end.

Definition route_after_approval (state : State) : after_approval :=
  if cancelled state then cancelled_end else if approved state then approved_tools else rejected_agent.

(** A saved run: the nodes it goes on with, the interrupts of its tasks, its schema version.
    An interrupt holds the calls it shows. *)
Record snapshot : Type := mkSnapshot {
  sn_next : list string;
  sn_tasks : list (list (list (string * json)));
  sn_schema : option json;
}.

Definition paused (sn : snapshot) : bool :=
  negb (bool_decide (sn_next sn = [])) && existsb (λ interrupts, negb (bool_decide (interrupts = []))) (sn_tasks sn).

Inductive resumability : Type := checkpoint_lost | checkpoint_incompatible (paused_schema : option json).

Definition _resumability_error_from_state (sn : snapshot) : option resumability :=
  if negb (paused sn) then Some checkpoint_lost else
  if bool_decide (sn_schema sn = Some (JInt STATE_SCHEMA_VERSION)) then None
  else Some (checkpoint_incompatible (sn_schema sn)).

(** The calls of the first task that shows some. *)
Fixpoint paused_calls (tasks : list (list (list (string * json)))) : list (string * json) :=
  match tasks with
  | [] => []
  | interrupts :: tasks =>
      match head interrupts with
      | Some ((_ :: _) as calls) => calls
      | _ => paused_calls tasks
      end
  end.

Definition paused_approval (sn : snapshot) : option (list (string * json) * bool) :=
  if negb (paused sn) then None else
  Some (paused_calls (sn_tasks sn), match _resumability_error_from_state sn with None => true | Some _ => false end).
