(* ===== verification/Graph.v ===== *)
(** The conversation graph of [app/agent/graph/build.py]: its nodes, their edges, and a turn as
    a sequence of steps.

    What a step needs from outside (the model, the search, the cache, moderation, the tools,
    the person asked for approval) is a [world], a new one for every step. *)
From stdpp Require Import gmap relations.
From S2P Require Import Prelude Dict Json Text Messages AgentState Guards Citations Guardrails OutputChecks Compaction Routing AgentNode Turn.

Local Open Scope string_scope.
Local Open Scope list_scope.

(** LangGraph's own cap on the steps of a run ([app/agent/runtime/core.py]). *)
Definition RECURSION_LIMIT : Z := MAX_ITERATIONS * 2 + 15.

(** ** A graph *)

Record GraphProfile : Type := mkProfile {
  include_cache : bool;
  include_followups : bool;
  include_compaction : bool;
  enforce_citations : bool;
  include_router : bool;
}.
Definition FULL_PROFILE : GraphProfile := mkProfile true true true true true.
Definition SUBAGENT_PROFILE : GraphProfile := mkProfile false false false false false.

(** What [build_graph] is given: the domain's tools and their capabilities, the prompt, the
    bounds, the stages, and the settings of the router. *)
Record graph_config : Type := mkGraph {
  g_tool_capabilities : gmap string string;
  g_valid_tool_names : gset string;
  g_system_prompt : string;
  g_limits : turn_limits;
  g_emit_no_answer_message : bool;
  g_ceiling : Z;
  g_floor : Z;
  g_profile : GraphProfile;
  g_router : router_settings;
}.

Section config.
Context (g : graph_config).

Definition skill_required_tools : list string :=
  filter (λ m, m ∈ g_valid_tool_names g) SKILL_REQUIRED_TOOL_MARKERS.

Definition domain_output : output_config :=
  mkOutput (g_system_prompt g) (enforce_citations (g_profile g)) skill_required_tools.

Definition domain_agent : agent_config :=
  mkAgent (enforce_citations (g_profile g)) skill_required_tools (cannot_open_links (g_valid_tool_names g)) (g_system_prompt g).
End config.

(** ** The nodes *)

Inductive node : Type :=
| N_validate_input | N_reject_input | N_reject_context
| N_moderate_input | N_reject_moderation
| N_check_semantic_cache | N_compact_history | N_context_window_exceeded
| N_route_model | N_retrieve_context
| N_agent | N_tools | N_human_approval | N_tool_batch_guard
| N_check_output | N_retry_output | N_retry_exhausted | N_no_answer
| N_finish                                (* the steps after an answer that stands, in parallel *)
| N_end.
#[export] Instance node_eq_dec : EqDecision node.
Proof. solve_decision. Defined.

(** Where each stage hands off when the optional ones after it are absent. *)
Definition before_retrieval (p : GraphProfile) : node := if include_router p then N_route_model else N_retrieve_context.
Definition after_cache_miss (p : GraphProfile) : node := if include_compaction p then N_compact_history else before_retrieval p.
Definition after_moderation (p : GraphProfile) : node := if include_cache p then N_check_semantic_cache else after_cache_miss p.
Definition after_finish (p : GraphProfile) : node := if include_followups p || include_cache p then N_finish else N_end.

(** ** The world *)

Record world : Type := mkWorld {
  w_ctx : option SecurityCtx;                                   (* of the request's config *)
  w_screen : string → bool;
  w_cache_get : option SecurityCtx → string → option (string * list citation);
  w_tokens : string → Z;
  w_summarize : string → option string;
  w_classify : string → option string;
  w_refuse_unpriced : string → option bool;
  w_search : string → option SecurityCtx → option (string * list citation);
  w_model : option string → list message → reply;                (* under the alias a turn is routed to *)
  w_tools : State → option (list message * list (Z * float));   (* the results, and what subagents spent *)
  w_interrupt : list (string * json) → json;
  w_suggest : string → option string;
}.

Section step.
Context `{LangGraph} (g : graph_config).

(** What a node returns in a world; nothing when it raises. *)
Definition node_update (w : world) (n : node) (s : State) : option (list put) :=
  match n with
  | N_validate_input => Some (validate_input (w_ctx w) s)
  | N_reject_input => Some reject_input
  | N_reject_context => Some reject_context
  | N_moderate_input => Some (moderate_input (w_screen w) s)
  | N_reject_moderation => Some reject_moderation
  | N_check_semantic_cache => Some (check_semantic_cache (w_cache_get w) s)
  | N_compact_history => Some (compact_history (w_tokens w) (w_summarize w) (g_ceiling g) (g_floor g) s)
  | N_context_window_exceeded => Some context_window_exceeded
  | N_route_model => Some [Set_model_route (Some (tier_name (route_model (g_router g) (w_classify w) (w_refuse_unpriced w) (messages s))))]
  | N_retrieve_context => Some (retrieve_context (w_search w) s)
  | N_agent => agent (g_router g) (domain_agent g) (w_model w) s
  | N_tools => '(results, spend) ← w_tools w s; Some [Set_messages (Put <$> results); Set_subagent_spend (Some spend)]
  | N_human_approval => Some (human_approval (w_interrupt w) s)
  | N_tool_batch_guard => Some (tool_batch_guard s (g_valid_tool_names g))
  | N_check_output => check_output (domain_output g) s
  | N_retry_output => retry_output s
  | N_retry_exhausted => retry_exhausted (g_emit_no_answer_message g) s
  | N_no_answer => no_answer_fallback (g_emit_no_answer_message g) (domain_output g) s
  | N_finish => Some (if include_followups (g_profile g) then suggest_followups (w_suggest w) s else [])
  | N_end => None
  end.

(** The edges: where a node hands off, in the state it leaves. *)
Definition next_node (n : node) (s : State) : node :=
  let p := g_profile g in
  match n with
  | N_validate_input =>
      match route_after_validation s with
      | to_moderate_input => N_moderate_input
      | to_reject_input => N_reject_input
      | to_reject_context => N_reject_context
      end
  | N_moderate_input => if route_after_moderation s then N_reject_moderation else after_moderation p
  | N_check_semantic_cache => if route_after_cache s then N_check_output else after_cache_miss p
  | N_compact_history => if route_after_compaction s then N_context_window_exceeded else before_retrieval p
  | N_route_model => N_retrieve_context
  | N_retrieve_context => N_agent
  | N_agent =>
      match should_continue (g_tool_capabilities g) (g_valid_tool_names g) (g_limits g) s with
      | to_tools => N_tools
      | to_human_approval => N_human_approval
      | to_tool_batch_guard => N_tool_batch_guard
      | to_check_output => N_check_output
      | to_no_answer => N_no_answer
      end
  | N_human_approval =>
      match route_after_approval s with
      | approved_tools => N_tools
      | rejected_agent => N_agent
      | cancelled_end => N_end
      end
  | N_tools | N_tool_batch_guard | N_retry_output => N_agent
  | N_check_output =>
      match route_after_check s with
      | to_retry_output => N_retry_output
      | to_retry_exhausted => N_retry_exhausted
      | to_finish => after_finish p
      end
  | N_reject_input | N_reject_context | N_reject_moderation | N_context_window_exceeded
  | N_retry_exhausted | N_no_answer | N_finish | N_end => N_end
  end.

(** One step: the node to run and the state, to the next node and the state it finds. *)
Definition run_node (w : world) (c : node * State) : option (node * State) :=
  ps ← node_update w c.1 c.2;
  let s := apply c.2 ps in
  Some (next_node c.1 s, s).

(** A run: the worlds of its steps, one each. *)
Fixpoint run_turn (ws : list world) (c : node * State) : option (node * State) :=
  match ws with
  | [] => Some c
  | w :: ws => c' ← run_node w c; run_turn ws c'
  end.

(** What the write-through of an answer that stands stores. *)
Definition cache_written (s : State) : option (string * content * list citation) :=
  if include_cache (g_profile g) then write_semantic_cache (g_tool_capabilities g) s else None.

(** The graph library and the model's client, in a state: the answer is an [AIMessage] under
    an id of its own, and a tool's results are [ToolMessage]s. *)
Definition well_behaved (w : world) (s : State) : Prop :=
  (∀ alias p m t c, w_model w alias p = Answered m t c →
     is_type AIMessage m = true ∧ (m_id m = None ∨ m_id m ∉ m_id <$> messages s)) ∧
  (∀ rs spend, w_tools w s = Some (rs, spend) → Forall (λ r, is_type ToolMessage r = true) rs).

(** The configurations a turn that starts in [s] can be in. *)
Definition step (c c' : node * State) : Prop := ∃ w, well_behaved w c.2 ∧ run_node w c = Some c'.
Definition reachable (s : State) (c : node * State) : Prop := rtc step (N_validate_input, s) c.

(** ** Facts *)

Lemma run_turn_app ws ws' c :
  run_turn (ws ++ ws') c = (c' ← run_turn ws c; run_turn ws' c').
Proof.
  revert c. induction ws as [|w ws IH]; intros c; simpl; [done|].
  destruct (run_node w c) as [c'|]; simpl; [apply IH|done].
Qed.

(** A step, by its update. *)
Lemma step_inv n s n' s' :
  step (n, s) (n', s') →
  ∃ w ps, well_behaved w s ∧ node_update w n s = Some ps ∧ s' = apply s ps ∧ n' = next_node n s'.
Proof.
  intros (w & Hw & E). unfold run_node in E. simpl in E.
  destruct (node_update w n s) as [ps|] eqn:Eu; simpl in E; [|done]. simplify_eq. by exists w, ps.
Qed.
End step.
