(* ===== verification/Breaker.v ===== *)
(** The circuit breaker and its retries: [app/core/resilience.py].

    The clock is a whole number of ticks.  Every transition is made under the breaker's lock,
    so the calls of many tasks are one sequence of arrivals, failures and successes. *)
From Stdlib Require Import SpecFloat.
From S2P Require Import Prelude AgentState Citations.

Local Open Scope list_scope.

(** ** The breaker *)

Inductive CircuitState : Type := CLOSED | OPEN | HALF_OPEN.
#[export] Instance CircuitState_eq_dec : EqDecision CircuitState.
Proof. solve_decision. Defined.

Record CircuitBreaker : Type := mkBreaker {
  _consecutive_failures : nat;
  _opened_at : option Z;
  _state : CircuitState;
}.
Definition new_breaker : CircuitBreaker := mkBreaker 0 None CLOSED.

Record breaker_settings : Type := mkSettings { failure_threshold : nat; cooldown_seconds : Z }.

(** Why a call is refused. *)
Inductive CircuitOpenError : Type := recovery_check_in_flight | looks_down (remaining : Z).

Section breaker.
Context (cfg : breaker_settings).

(** The breaker after an arrival at [now], and the error it raises, if any. *)
Definition _before_call (now : Z) (b : CircuitBreaker) : CircuitBreaker * option CircuitOpenError :=
  match _state b with
  | CLOSED => (b, None)
  | HALF_OPEN => (b, Some recovery_check_in_flight)
  | OPEN =>
      let elapsed := match _opened_at b with Some opened_at => (now - opened_at)%Z | None => cooldown_seconds cfg end in
      let remaining := (cooldown_seconds cfg - elapsed)%Z in
      if (0 <? remaining)%Z then (b, Some (looks_down remaining))
      else (mkBreaker (_consecutive_failures b) (_opened_at b) HALF_OPEN, None)
  end.

Definition _record_success (b : CircuitBreaker) : CircuitBreaker := mkBreaker 0 None CLOSED.

Definition _record_failure (now : Z) (b : CircuitBreaker) : CircuitBreaker :=
  let was_half_open := bool_decide (_state b = HALF_OPEN) in
  let failures := S (_consecutive_failures b) in
  if was_half_open || Nat.leb (failure_threshold cfg) failures
  then mkBreaker failures (Some now) OPEN
  else mkBreaker failures (_opened_at b) (_state b).

(** ** A call *)

(** How one try ends: a result, an exception of [retry_on], or another one. *)
Inductive tried : Type := Returned | Refusing | Raised.

(** The result of [_retry], and the tries it made; [more] tries may follow this one. *)
Fixpoint retry_from (fn : nat → tried) (attempt more : nat) : tried * nat :=
  match fn attempt with
  | Refusing => match more with O => (Refusing, attempt) | S more => retry_from fn (S attempt) more end
  | other => (other, attempt)
  end.

(** Nothing when it raises [ValueError]. *)
Definition _retry (fn : nat → tried) (attempts : nat) : option (tried * nat) :=
  match attempts with O => None | S more => Some (retry_from fn 1 more) end.

(** The wait after a refused try, [jitter] being [random.uniform(0, 0.25)]. *)
Definition fone : float := float_of_nat 1.
Definition retry_delay (base_delay max_delay : float) (attempt : nat) (jitter : float) : float :=
  let delay := fmul base_delay (float_of_nat (2 ^ (attempt - 1))) in
  let delay := if fgt delay max_delay then max_delay else delay in
  fmul delay (fadd fone jitter).

(** What a whole call ends with. *)
Inductive called : Type := Rejected (e : CircuitOpenError) | Done (r : tried) | BadAttempts.

(** A call that starts at [now] and whose tries end at [later]. *)
Definition call (fn : nat → tried) (attempts : nat) (now later : Z) (b : CircuitBreaker) : CircuitBreaker * called :=
  match _before_call now b with
  | (b, Some e) => (b, Rejected e)
  | (b, None) =>
      match _retry fn attempts with
      | None => (b, BadAttempts)
      | Some (Refusing, _) => (_record_failure later b, Done Refusing)
      | Some (Returned, _) => (_record_success b, Done Returned)
      | Some (Raised, _) => (b, Done Raised)
      end
  end.

(** ** What was promised, from the history alone *)

(** What happened, most recent first: an arrival and whether it was let through, a call that
    used up its tries, a call that came back. *)
Inductive event : Type :=
| Arrived (now : Z) (let_through : bool)
| Failed (now : Z)
| Succeeded.

(** The failures since the last success. *)
Fixpoint recent_failures (log : list event) : nat :=
  match log with
  | [] | Succeeded :: _ => O
  | Failed _ :: log => S (recent_failures log)
  | Arrived _ _ :: log => recent_failures log
  end.

(** The time of the last failure, and whether a call was let through after it. *)
Fixpoint since_failure (log : list event) : option Z * bool :=
  match log with
  | [] | Succeeded :: _ => (None, false)
  | Failed now :: _ => (Some now, false)
  | Arrived _ let_through :: log => let '(failed_at, trial) := since_failure log in (failed_at, trial || let_through)
  end.

(** The breaker is closed below the threshold of failures in a row. *)
Definition is_closed (log : list event) : bool :=
  Nat.eqb (recent_failures log) 0 || Nat.ltb (recent_failures log) (failure_threshold cfg).

(** A call is let through while the dependency is not known to be down; then only one is, and
    not before the cooldown after the last failure. *)
Definition lets_through (log : list event) (now : Z) : bool :=
  is_closed log ||
  match since_failure log with
  | (Some failed_at, trial) => (cooldown_seconds cfg <=? now - failed_at)%Z && negb trial
  | (None, _) => false
  end.

(** What happens to the breaker, with the decision the code takes. *)
Inductive stimulus : Type := Arrive (now : Z) | Fail_at (now : Z) | Succeed.

Definition react (b : CircuitBreaker) (x : stimulus) : CircuitBreaker * event :=
  match x with
  | Arrive now => let '(b, e) := _before_call now b in (b, Arrived now (bool_decide (e = None)))
  | Fail_at now => (_record_failure now b, Failed now)
  | Succeed => (_record_success b, Succeeded)
  end.

Fixpoint history (b : CircuitBreaker) (log : list event) (xs : list stimulus) : CircuitBreaker * list event :=
  match xs with
  | [] => (b, log)
  | x :: xs => let '(b, e) := react b x in history b (e :: log) xs
  end.

(** ** The breaker keeps the promise *)

(** The state the history calls for. *)
Definition agrees (b : CircuitBreaker) (log : list event) : Prop :=
  _consecutive_failures b = recent_failures log ∧
  if is_closed log then _state b = CLOSED
  else ∃ failed_at trial, since_failure log = (Some failed_at, trial) ∧ _opened_at b = Some failed_at ∧
         _state b = if trial then HALF_OPEN else OPEN.

Lemma failed_once log : (0 < recent_failures log)%nat → ∃ failed_at trial, since_failure log = (Some failed_at, trial).
Proof.
  induction log as [|[now t|now|] log IH]; simpl; [lia| |eauto|lia].
  intros (failed_at & trial & ->)%IH. eauto.
Qed.

Lemma is_closed_arrived now t log : is_closed (Arrived now t :: log) = is_closed log.
Proof. done. Qed.

Lemma arrive_agrees b log now :
  agrees b log → let '(b', e) := _before_call now b in
  agrees b' (Arrived now (bool_decide (e = None)) :: log) ∧ bool_decide (e = None) = lets_through log now.
Proof.
  intros [Hf Hs]. destruct (_before_call now b) as [b' e] eqn:E. unfold lets_through, agrees.
  rewrite is_closed_arrived. cbn [recent_failures since_failure]. unfold _before_call in E.
  destruct (is_closed log); [rewrite Hs in E; by injection E as <- <-|].
  destruct Hs as (failed_at & trial & Hl & Ho & Hs). rewrite Hl. rewrite Hs in E. destruct trial; cbn [negb orb].
  - injection E as <- <-. rewrite andb_false_r. split; [|done]. split; [done|]. by exists failed_at, true.
  - rewrite Ho in E. rewrite andb_true_r. destruct (0 <? _)%Z eqn:Er; dec; injection E as <- <-.
    + split; [|symmetry; apply Z.leb_gt; lia]. split; [done|]. by exists failed_at, false.
    + split; [|symmetry; apply Z.leb_le; lia]. split; [done|]. by exists failed_at, true.
Qed.

Lemma failure_agrees b log now : agrees b log → agrees (_record_failure now b) (Failed now :: log).
Proof.
  intros [Hf Hs]. unfold agrees, _record_failure. rewrite Hf. cbn [recent_failures since_failure].
  assert (E : is_closed (Failed now :: log) = Nat.ltb (S (recent_failures log)) (failure_threshold cfg)) by done.
  rewrite E. destruct (Nat.leb_spec (failure_threshold cfg) (S (recent_failures log))) as [Hle|Hlt].
  - rewrite orb_true_r, (proj2 (Nat.ltb_ge _ _) Hle). split; [done|]. by exists now, false.
  - rewrite orb_false_r, (proj2 (Nat.ltb_lt _ _) Hlt).
    assert (Hc : is_closed log = true) by (unfold is_closed; apply orb_true_iff; right; apply Nat.ltb_lt; lia).
    rewrite Hc in Hs. by rewrite Hs.
Qed.

Lemma react_agrees b log x :
  agrees b log → let '(b', e) := react b x in
  agrees b' (e :: log) ∧ ∀ now, x = Arrive now → e = Arrived now (lets_through log now).
Proof.
  intros Hb. destruct x as [now|now|]; cbn [react]; [|split; [by apply failure_agrees|done]|by split].
  pose proof (arrive_agrees b log now Hb) as Ha. destruct (_before_call now b) as [b' e]. destruct Ha as [Ha Hl].
  split; [done|]. intros ? [= <-]. by rewrite Hl.
Qed.

(** Every arrival of a history was decided as promised. *)
Fixpoint as_promised (log : list event) : Prop :=
  match log with
  | [] => True
  | Arrived now let_through :: log => let_through = lets_through log now ∧ as_promised log
  | _ :: log => as_promised log
  end.

Lemma history_agrees xs b log b' log' :
  agrees b log → as_promised log → history b log xs = (b', log') → agrees b' log' ∧ as_promised log'.
Proof.
  revert b log. induction xs as [|x xs IH]; intros b log Hb Hp; cbn [history]; [by intros [= <- <-]|].
  pose proof (react_agrees b log x Hb) as Hr. destruct (react b x) as [b1 e] eqn:Ex. destruct Hr as [Hr Hd].
  apply IH; [done|]. destruct x as [now|now|]; [rewrite (Hd _ eq_refl); by split| |]; by simplify_eq/=.
Qed.
End breaker.
