(* ===== verification/GraphFacts.v ===== *)
(** When two batches of tool calls have one fingerprint, and what the citation repair adds. *)
From Stdlib Require Import Ascii.
From stdpp Require Import gmap sorting relations.
From S2P Require Import Prelude Dict Json Text Messages AgentState Guards Citations Guardrails OutputChecks Compaction Routing AgentNode Turn Graph.

Local Open Scope list_scope.

(** ** One JSON value, in any order of keys *)

Definition is_leaf (j : json) : bool := match j with JList _ | JObj _ => false | _ => true end.

Inductive same_json : json → json → Prop :=
| Same_leaf j : is_leaf j = true → same_json j j
| Same_list l k : Forall2 same_json l k → same_json (JList l) (JList k)
| Same_obj l l' k : l ≡ₚ l' → Forall2 (λ p q, p.1 = q.1 ∧ same_json p.2 q.2) l' k → same_json (JObj l) (JObj k).

Definition sorted_item (p : string * json) : string * json := (p.1, sort_keys p.2).

Lemma sort_keys_obj l : sort_keys (JObj l) = JObj (merge_sort key_le (sorted_item <$> l)).
Proof. done. Qed.

#[export] Instance str_le_antisym : AntiSymm (=) str_le.
Proof.
  intros a. induction a as [|x a IH]; intros [|y b]; try done. rewrite !str_le_cons.
  intros [H1|[-> H1]] [H2|[H2 H3]]; [lia|subst; lia|lia|]. f_equal. by apply IH.
Qed.

#[export] Instance key_le_trans {A} : Transitive (@key_le A).
Proof. intros a b c. unfold key_le. apply str_le_trans. Qed.
#[export] Instance key_le_total {A} : Total (@key_le A).
Proof. intros a b. unfold key_le. apply str_le_total. Qed.

(** A key stands for one item only, so sorting by key has one outcome. *)
Lemma key_unique {A} (l : list (string * A)) p q : NoDup l.*1 → p ∈ l → q ∈ l → p.1 = q.1 → p = q.
Proof.
  induction l as [|x l IH]; [by intros _ ?%not_elem_of_nil|]. rewrite fmap_cons, NoDup_cons. intros [Hx Hl].
  rewrite !elem_of_cons. intros [->|Hp] [->|Hq] E; [done| | |by apply IH]; destruct Hx.
  - rewrite E. by apply list_elem_of_fmap_2.
  - rewrite <-E. by apply list_elem_of_fmap_2.
Qed.

Lemma merge_sort_keys {A} (l k : list (string * A)) :
  NoDup l.*1 → l ≡ₚ k → merge_sort key_le l = merge_sort key_le k.
Proof.
  intros Hl Hlk. eapply (StronglySorted_unique_strong key_le).
  - intros x1 x2 H1 H2 Hle Hge. rewrite merge_sort_Permutation in H1, H2. rewrite <-Hlk in H2.
    eapply key_unique; [done..|]. by apply (anti_symm str_le).
  - by apply StronglySorted_merge_sort; apply _.
  - by apply StronglySorted_merge_sort; apply _.
  - by rewrite !merge_sort_Permutation.
Qed.

Lemma same_json_sorted j k : same_json j k → wf_json j → sort_keys j = sort_keys k.
Proof.
  revert k. induction j as [|b|z|r|s|l IH|l IH] using json_rect'; intros k Hs Hw; inversion Hs as [? Hj|l1 k1 Hf|l1 l' k1 Hp Hf]; subst; try done.
  - simpl. f_equal. apply wf_list in Hw. clear Hs. revert k1 Hf. induction l as [|x l IHl]; intros k1 Hf; inversion Hf; subst; [done|].
    rewrite !fmap_cons. inversion IH; inversion Hw; subst. f_equal; auto.
  - rewrite !sort_keys_obj. f_equal. apply wf_obj in Hw as [Hnd Hw].
    assert (E : sorted_item <$> l' = sorted_item <$> k1).
    { assert (IH' : Forall (λ p, ∀ k, same_json p.2 k → wf_json p.2 → sort_keys p.2 = sort_keys k) l') by by rewrite <-Hp.
      rewrite Hp in Hw. clear -Hf IH' Hw. revert k1 Hf. induction l' as [|[x jx] l' IHl]; intros k1 Hf; inversion Hf as [|? [y jy] ? ? [E1 E2]]; subst; [done|].
      rewrite !fmap_cons. inversion IH'; inversion Hw; subst. simpl in *. subst. f_equal; [|auto]. unfold sorted_item. simpl. f_equal. auto. }
    rewrite <-E. apply merge_sort_keys; [|by rewrite Hp].
    rewrite <-list_fmap_compose. by erewrite list_fmap_ext; [exact Hnd|].
Qed.

Lemma sorted_same_json j k : sort_keys j = sort_keys k → same_json j k.
Proof.
  revert k. induction j as [|b|z|r|s|l IH|l IH] using json_rect'; intros k Hs;
    destruct k as [|b'|z'|r'|s'|l'|l']; cbn [sort_keys] in Hs; try discriminate Hs; try (simplify_eq; by apply Same_leaf).
  - injection Hs as Hs. apply Same_list. revert l' Hs. induction l as [|x l IHl]; intros [|y l'] Hs; try done.
    rewrite !fmap_cons in Hs. simplify_eq. inversion IH; subst. constructor; auto.
  - fold sorted_item in Hs. injection Hs as Hs.
    assert (Hp : sorted_item <$> l' ≡ₚ map sorted_item l).
    { rewrite <-(merge_sort_Permutation key_le (sorted_item <$> l')), <-Hs. by rewrite merge_sort_Permutation. }
    apply Permutation_map_inv in Hp as (l3 & E & Hl). apply Same_obj with l3; [done|].
    rewrite Hl in IH. clear Hl Hs. revert l' E. induction l3 as [|[x jx] l3 IHl]; intros [|[y jy] l'] E; try done.
    rewrite fmap_cons in E. simpl in E. unfold sorted_item at 1 3 in E. simpl in E. simplify_eq. inversion IH; subst. constructor; [|auto].
    split; [done|]. auto.
Qed.

Lemma wf_sort_keys j : wf_json j → wf_json (sort_keys j).
Proof.
  induction j as [|b|z|r|s|l IH|l IH] using json_rect'; intros Hw; try done.
  - cbn [sort_keys]. apply wf_list. apply wf_list in Hw. apply Forall_fmap. eapply Forall_impl; [apply Forall_and; exact (conj IH Hw)|].
    intros x [H1 H2]. by apply H1.
  - rewrite sort_keys_obj. apply wf_obj. apply wf_obj in Hw as [Hnd Hw]. rewrite merge_sort_Permutation. split.
    + rewrite <-list_fmap_compose. by erewrite list_fmap_ext; [exact Hnd|].
    + apply Forall_fmap. eapply Forall_impl; [apply Forall_and; exact (conj IH Hw)|]. intros x [H1 H2]. by apply H1.
Qed.

(** ** Fingerprints *)

Lemma dumps_inj j k : wf_json j → wf_json k → dumps j = dumps k → j = k.
Proof. intros Hj Hk E. apply loads_dumps in Hj, Hk. congruence. Qed.

(** Two values are dumped to one text exactly when they are one value. *)
Lemma dumps_sorted_same j k : wf_json j → wf_json k → dumps_sorted j = dumps_sorted k ↔ same_json j k.
Proof.
  intros Hj Hk. unfold dumps_sorted. split.
  - intros E. by apply sorted_same_json, dumps_inj; [apply wf_sort_keys..|].
  - intros E. by rewrite (same_json_sorted j k).
Qed.

#[export] Instance pair_le_trans : Transitive pair_le.
Proof.
  intros [a1 a2] [b1 b2] [c1 c2]. unfold pair_le. simpl. intros H1 H2.
  repeat case_decide; subst; try done; try (by etrans).
  match goal with Hn : _ ≠ _ |- _ => by destruct Hn; apply (anti_symm str_le) end.
Qed.
#[export] Instance pair_le_total : Total pair_le.
Proof.
  intros [a1 a2] [b1 b2]. unfold pair_le. simpl. repeat case_decide; subst; try done; [apply str_le_total|apply str_le_total].
Qed.
#[export] Instance pair_le_antisym : AntiSymm (=) pair_le.
Proof.
  intros [a1 a2] [b1 b2]. unfold pair_le. simpl. repeat case_decide; subst; try done; intros H1 H2.
  - f_equal. by apply (anti_symm str_le).
  - match goal with Hn : _ ≠ _ |- _ => by destruct Hn; apply (anti_symm str_le) end.
Qed.

Lemma fingerprint_keys a b :
  _tool_call_fingerprint a = _tool_call_fingerprint b ↔ call_key <$> a ≡ₚ call_key <$> b.
Proof.
  unfold _tool_call_fingerprint. split.
  - intros E. apply dumps_inj in E.
    + injection E as E. rewrite <-(merge_sort_Permutation pair_le (call_key <$> a)), <-(merge_sort_Permutation pair_le (call_key <$> b)).
      apply (list_fmap_eq_inj _) in E; [by rewrite E|]. intros [] []. simpl. congruence.
    + apply wf_list, Forall_fmap, Forall_true. intros x. apply wf_list. repeat constructor.
    + apply wf_list, Forall_fmap, Forall_true. intros x. apply wf_list. repeat constructor.
  - intros E. do 3 f_equal. apply (Sorted_unique pair_le).
    + apply Sorted_merge_sort; apply _.
    + apply Sorted_merge_sort; apply _.
    + by rewrite !merge_sort_Permutation.
Qed.

(** ** The batches of a turn *)

Lemma count_while_le {A} (P : A → bool) l : (count_while P l ≤ length l)%nat.
Proof. induction l as [|x l IH]; simpl; [done|]. destruct (P x); simpl; lia. Qed.

(** The first [n] satisfy [P] exactly when the count reaches [n]. *)
Lemma count_while_spec {A} (P : A → bool) n l :
  (n ≤ count_while P l)%nat ↔ (n ≤ length l)%nat ∧ Forall (λ x, P x = true) (take n l).
Proof.
  revert n. induction l as [|x l IH]; intros [|n]; simpl; try (split; [intros _; split; [lia|constructor]|lia]).
  - split; [lia|intros [? _]; lia].
  - destruct (P x) eqn:E.
    + rewrite <-Nat.succ_le_mono, IH. split; intros [H1 H2]; (split; [lia|]); [by constructor|by inversion H2].
    + split; [lia|]. intros [_ H]. inversion H. congruence.
Qed.

(** ** What the guards let through *)

Lemma batch_ok tool_calls messages valid :
  batch_problem tool_calls messages valid = None →
  (length tool_calls ≤ MAX_TOOL_CALLS_PER_TURN)%nat ∧ (∀ tc, tc ∈ tool_calls → tc_name tc ∈ valid) ∧
  (calls "use_skill"%string tool_calls = true → existsb (calls "skill_search"%string) (_current_turn_tool_call_batches messages) = true).
Proof.
  unfold batch_problem. destruct (Nat.ltb_spec MAX_TOOL_CALLS_PER_TURN (length tool_calls)) as [|Hlen]; [done|].
  destruct (negb _) eqn:Ei; [done|]. destruct (use_skill_called_without_search _ _) eqn:Es; [done|]. intros _. dec.
  split; [done|]. split.
  - intros tc Htc. destruct (decide (tc_name tc ∈ valid)) as [|Hn]; [done|]. exfalso.
    eapply not_elem_of_nil. rewrite <-Ei. unfold invalid_tool_call_names. apply list_elem_of_filter. split; [done|].
    by apply list_elem_of_fmap_2.
  - unfold use_skill_called_without_search in Es. destruct (negb (calls _ tool_calls)) eqn:Ec; [by apply negb_true_iff in Ec; rewrite Ec|].
    by apply negb_false_iff in Es.
Qed.

Lemma gate_passes tool_calls capabilities :
  mandatory_gate_reason tool_calls capabilities = None →
  ∀ tc, tc ∈ tool_calls → ∃ c, capabilities !! tc_name tc = Some c ∧ c ≠ "outward"%string ∧ c ≠ "mutating"%string.
Proof.
  unfold mandatory_gate_reason. case_bool_decide as H1; [done|]. case_bool_decide as H2; [done|]. intros _ tc Htc.
  apply (list_elem_of_fmap_2 (λ tc, tool_capability (tc_name tc) capabilities)) in Htc. unfold tool_capability in *.
  destruct (capabilities !! tc_name tc) as [c|]; simpl in *; [|done]. exists c. split; [done|]. split; intros ->; done.
Qed.

(** ** The same calls *)

(** One tool and one value of the arguments. *)
Definition same_call (a b : tool_call) : Prop := tc_name a = tc_name b ∧ same_json (tc_args a) (tc_args b).
(** The same calls, in any order. *)
Definition same_calls (a b : list tool_call) : Prop := ∃ b', b ≡ₚ b' ∧ Forall2 same_call a b'.

Definition wf_calls (batch : list tool_call) : Prop := Forall (λ tc, wf_json (tc_args tc)) batch.

Lemma same_call_key a b : wf_json (tc_args a) → wf_json (tc_args b) → call_key a = call_key b ↔ same_call a b.
Proof.
  intros Ha Hb. unfold call_key, same_call. rewrite <-(dumps_sorted_same _ _ Ha Hb). split; [intros [= -> ->]; done|by intros [-> ->]].
Qed.

Lemma cons_eq {A} (x y : A) l k : x :: l = y :: k ↔ x = y ∧ l = k.
Proof. split; [by intros [=]|by intros [-> ->]]. Qed.

Lemma fingerprint_same a b :
  wf_calls a → wf_calls b → _tool_call_fingerprint a = _tool_call_fingerprint b ↔ same_calls a b.
Proof.
  intros Ha Hb. rewrite fingerprint_keys. unfold same_calls, wf_calls in *.
  assert (Hkeys : ∀ l k, Forall (λ tc, wf_json (tc_args tc)) l → Forall (λ tc, wf_json (tc_args tc)) k →
    call_key <$> l = call_key <$> k ↔ Forall2 same_call l k).
  { intros l. induction l as [|x l IH]; intros [|y k] Hl Hk.
    - split; [constructor|done].
    - split; [done|by intros ?%Forall2_nil_inv_l].
    - split; [done|by intros ?%Forall2_nil_inv_r].
    - rewrite !fmap_cons, Forall2_cons. inversion Hl; inversion Hk; subst.
      by rewrite cons_eq, IH, same_call_key. }
  split.
  - intros (b' & E & Hp)%Permutation_map_inv. exists b'. split; [done|]. apply Hkeys; [done|by rewrite <-Hp|done].
  - intros (b' & Hp & Hf). rewrite Hp. apply Hkeys in Hf; [by rewrite Hf|done|by rewrite <-Hp].
Qed.

Lemma repeats_spec messages n :
  (0 < n)%nat → Forall wf_calls (_current_turn_tool_call_batches messages) →
  (n ≤ consecutive_repeat_count messages)%nat ↔
  ∃ latest earlier older, _current_turn_tool_call_batches messages = latest :: earlier ++ older ∧
    S (length earlier) = n ∧ Forall (same_calls latest) earlier.
Proof.
  intros Hn Hw. unfold consecutive_repeat_count.
  destruct (_current_turn_tool_call_batches messages) as [|latest rest]; [split; [lia|by intros (? & ? & ? & [=] & _)]|].
  destruct n as [|n]; [lia|]. cbv zeta. cbn [count_while]. rewrite bool_decide_eq_true_2 by done.
  rewrite <-Nat.succ_le_mono, count_while_spec. inversion Hw as [|? ? Hw1 Hw2]; subst. split.
  - intros [Hl Hf]. exists latest, (take n rest), (drop n rest). rewrite take_drop, length_take. split; [done|]. split; [f_equal; lia|].
    eapply Forall_impl; [apply Forall_and; split; [exact Hf|by apply Forall_take]|].
    intros batch [Hb%bool_decide_eq_true Hwb]. by apply fingerprint_same.
  - intros (l & earlier & older & [= <- ->] & [= <-] & Hs). split; [rewrite length_app; lia|]. rewrite take_app_length.
    apply Forall_app in Hw2 as [Hw2 _]. eapply Forall_impl; [apply Forall_and; split; [exact Hs|exact Hw2]|].
    intros batch [Hb Hwb]. apply bool_decide_eq_true. symmetry. by apply fingerprint_same.
Qed.

(** What the mechanical repair of an answer does to its text. *)

Local Open Scope string_scope.

(** ** Finding and cutting *)

Lemma prefix_drop p s : startswith s p = true → s = p +:+ drop_str (String.length p) s.
Proof.
  unfold startswith. revert s. induction p as [|a p IH]; intros [|b s]; try done. cbn [String.prefix].
  destruct (ascii_dec a b) as [->|]; [|done]. intros Hp. cbn [String.length drop_str]. change (String b s = String b (p +:+ drop_str (String.length p) s)).
  by rewrite <-IH.
Qed.

Lemma find_str_split s p i : find_str s p = Some i → s = take_str i s +:+ p +:+ drop_str (i + String.length p) s.
Proof.
  revert i. induction s as [|a s IH]; intros i; cbn [find_str].
  - destruct (startswith "" p) eqn:E; [intros [= <-]|done]. simpl. by apply prefix_drop.
  - destruct (startswith (String a s) p) eqn:E; [intros [= <-]; by apply prefix_drop|].
    destruct (find_str s p) as [k|]; [|done]. intros [= <-]. simpl.
    change (String a s = String a (take_str k s +:+ p +:+ drop_str (k + String.length p) s)). by rewrite <-IH.
Qed.

Lemma find_from_split s p n i :
  find_from s p n = Some i → drop_str n s = slice s n i +:+ p +:+ drop_str (i + String.length p) s.
Proof.
  unfold find_from, slice. destruct (find_str (drop_str n s) p) as [k|] eqn:E; [|done]. intros [= <-].
  apply find_str_split in E. rewrite E at 1. rewrite drop_drop_str. replace (n + k - n)%nat with k by lia.
  by rewrite Nat.add_assoc.
Qed.

(** ** Texts with markers added *)

(** [s'] is [s] with groups of markers of [ms] added, each after a blank. *)
Inductive inserted (ms : list string) : string → string → Prop :=
| no_insertion s : inserted ms s s
| insertion a b b' group : Forall (λ m, m ∈ ms) group → inserted ms b b' →
    inserted ms (a +:+ b) (a +:+ " " +:+ join "" group +:+ b').

Lemma inserted_prefix ms a s s' : inserted ms s s' → inserted ms (a +:+ s) (a +:+ s').
Proof.
  intros [|x b b' group Hg Hb]; [constructor|]. rewrite <-!str_app_assoc. rewrite !(str_app_assoc (a +:+ x)). by constructor.
Qed.

Lemma insert_go_inserted ms content by_sentence cursor :
  Forall (λ p, Forall (λ m, m ∈ ms) p.2) by_sentence →
  inserted ms (drop_str cursor content) (insert_go content cursor by_sentence).
Proof.
  revert cursor. induction by_sentence as [|[sentence group] bs IH]; intros cursor Hb; cbn [insert_go]; [constructor|].
  inversion Hb as [|? ? Hg Hbs]; subst. destruct (find_from content sentence cursor) as [i|] eqn:E; [|by apply IH].
  rewrite (find_from_split _ _ _ _ E). apply inserted_prefix. specialize (IH (i + String.length sentence)%nat Hbs).
  unfold with_markers. destruct (end_stop sentence) as [at_|].
  - rewrite <-(take_drop_str at_ sentence) at 1. rewrite !str_app_assoc. constructor; [done|]. by apply inserted_prefix.
  - rewrite !str_app_assoc. by constructor.
Qed.

Lemma insert_by_elem {A} (key : A → Z) x y l : y ∈ insert_by key x l → y = x ∨ y ∈ l.
Proof.
  induction l as [|z l IH]; simpl; [set_solver|]. destruct (_ <? _)%Z; rewrite !elem_of_cons; naive_solver.
Qed.

Lemma sorted_by_elem {A} (key : A → Z) l y : y ∈ sorted_by key l → y ∈ l.
Proof.
  unfold sorted_by. assert (H : ∀ acc, y ∈ foldl (λ acc x, insert_by key x acc) acc l → y ∈ acc ∨ y ∈ l).
  { induction l as [|x l IH]; intros acc; simpl; [auto|]. intros [Hy%insert_by_elem|Hy]%IH; rewrite elem_of_cons; naive_solver. }
  intros [Hy|Hy]%H; [by apply not_elem_of_nil in Hy|done].
Qed.

Lemma markers_by_sentence_elem matches :
  Forall (λ p, Forall (λ m, m ∈ c_marker <$> (fst <$> matches)) p.2) (markers_by_sentence matches).
Proof.
  set (ms := c_marker <$> (fst <$> matches)). unfold markers_by_sentence.
  assert (H : ∀ (l : list (citation * string)) d, (∀ p, p ∈ l → c_marker p.1 ∈ ms) → Forall (λ p, Forall (λ m, m ∈ ms) p.2) d →
    Forall (λ p, Forall (λ m, m ∈ ms) p.2) (foldl (λ d '(citation, sentence), dict_append sentence (c_marker citation) d) d l)).
  { induction l as [|[c s] l IH]; intros d Hl Hd; simpl; [done|]. apply IH; [intros p Hp; apply Hl; by right|].
    apply Forall_forall. intros p [->|Hp]%dict_set_elem; [|by eapply Forall_forall in Hd].
    simpl. apply Forall_app. split; [|constructor; [apply (Hl (c, s)); left|constructor]].
    destruct (dict_get s d) as [v|] eqn:E; [|constructor]. apply dict_get_elem in E. by eapply Forall_forall in Hd; [|exact E]. }
  apply H; [|constructor]. intros p Hp. subst ms. apply list_elem_of_fmap. exists p.1. split; [done|]. by apply list_elem_of_fmap_2.
Qed.

(** Facts on the steps of the conversation graph: what each node leaves alone, the bound on the
    length of a turn, and what holds at each node. *)

Local Open Scope string_scope.
Local Open Scope list_scope.

(** [state] shows a node's update applied: the fields of the state it leaves. *)
Ltac state s := unfold apply; destruct s; cbn.

Section facts.
Context `{LangGraph} (g : graph_config).

(** ** The length of a turn *)

Definition rounds_left (s : State) : nat := Z.to_nat (max_iterations (g_limits g) - iterations s).

(** The steps left from the model on. *)
Definition agent_left (s : State) : nat := 2 + 3 * (rounds_left s - 1).

(** The most steps a turn has left at a node. *)
Definition steps_left (n : node) (s : State) : nat :=
  match n with
  | N_validate_input => 3 * (Z.to_nat (max_iterations (g_limits g)) - 1) + 8
  | N_moderate_input => 5 + agent_left s
  | N_check_semantic_cache => 4 + agent_left s
  | N_compact_history => 3 + agent_left s
  | N_route_model | N_check_output | N_human_approval => 2 + agent_left s
  | N_retrieve_context | N_tools | N_tool_batch_guard | N_retry_output => 1 + agent_left s
  | N_agent => agent_left s
  | N_reject_input | N_reject_context | N_reject_moderation | N_context_window_exceeded
  | N_retry_exhausted | N_no_answer | N_finish => 1
  | N_end => 0
  end.

(** [n] is none of the updates [ps]. *)
Ltac not_in := let Hz := fresh in intros Hz;
  repeat (apply elem_of_cons in Hz as [Hz|Hz] || apply elem_of_app in Hz as [Hz|Hz]);
  first [discriminate Hz | by apply not_elem_of_nil in Hz].

(** Only the start of a turn and the model change the number of rounds. *)
Lemma iterations_apply ps s : (∀ z, Set_iterations z ∉ ps) → iterations (apply s ps) = iterations s.
Proof.
  induction ps as [|p ps IH] using rev_ind; intros Hp; [done|]. rewrite apply_app.
  assert (Hl : ∀ z, Set_iterations z ∉ ps) by (intros z Hz; apply (Hp z), elem_of_app; by left).
  rewrite <-(IH Hl). assert (Hz : ∀ z, p ≠ Set_iterations z) by (intros z ->; apply (Hp z), elem_of_app; right; left).
  destruct p; destruct (apply s ps); try done. by destruct (Hz v).
Qed.

Lemma iterations_kept w n s ps :
  node_update g w n s = Some ps → n ≠ N_validate_input → n ≠ N_agent → iterations (apply s ps) = iterations s.
Proof.
  intros E Hv Ha. apply iterations_apply. intros z. destruct n; try done; cbn in E; simplify_eq;
  unfold reject_input, reject_context, reject_moderation, context_window_exceeded, answer, moderate_input, check_semantic_cache,
    compact_history, retrieve_context, suggest_followups, human_approval, tool_batch_guard, check_output, checked_message, retry_output,
    retry_exhausted, no_answer_fallback, mbind, option_bind in *; repeat (case_match; simplify_eq/=);
  unfold checked_message in *; repeat case_match; not_in.
Qed.
(** What the model leaves: one round more, whatever it answered. *)
Lemma iterations_agent w s ps :
  node_update g w N_agent s = Some ps → iterations (apply s ps) = (iterations s + 1)%Z.
Proof.
  cbn. unfold agent. destruct (call_model _ _ _) as [m t c|b| |]; [| |done..]; intros [= <-].
  - by destruct s.
  - unfold _refusal_update. by destruct s.
Qed.

(** A turn goes on after the model only below the bound. *)
Lemma goes_on s : next_node g N_agent s ≠ N_no_answer → (iterations s < max_iterations (g_limits g))%Z.
Proof.
  cbn. unfold should_continue. destruct (refused_by_gateway _); [done|]. destruct (_ <=? _)%Z eqn:E; [done|]. by dec.
Qed.

Lemma validate_resets w s : iterations (apply s (validate_input (w_ctx w) s)) = 0%Z.
Proof.
  unfold validate_input. rewrite apply_app. case_bool_decide; by destruct s.
Qed.

(** Every step brings the end of the turn nearer. *)
Lemma step_decreases n s n' s' :
  step g (n, s) (n', s') → (steps_left n' s' < steps_left n s)%nat.
Proof.
  intros (w & ps & _ & Eu & -> & ->)%step_inv. pose proof (iterations_kept w n s ps Eu) as Hk.
  destruct (decide (n = N_validate_input)) as [->|Hv].
  { injection Eu as <-. pose proof (validate_resets w s) as Hr. cbn [next_node steps_left].
    destruct (route_after_validation _); unfold steps_left, agent_left, rounds_left; rewrite ?Hr, ?Z.sub_0_r; lia. }
  destruct (decide (n = N_agent)) as [->|Ha].
  { pose proof (iterations_agent w s ps Eu) as Hi. pose proof (goes_on (apply s ps)) as Hg.
    assert (Hs : next_node g N_agent (apply s ps) ∈ [N_tools; N_human_approval; N_tool_batch_guard; N_check_output; N_no_answer]).
    { cbn. destruct (should_continue _ _ _ _); set_solver. }
    revert Hs Hg. generalize (next_node g N_agent (apply s ps)) as n'. intros n' Hs Hg.
    assert (Hr : n' = N_no_answer ∨ (iterations (apply s ps) < max_iterations (g_limits g))%Z)
      by (destruct (decide (n' = N_no_answer)); auto).
    destruct Hr as [->|Hr]; [unfold steps_left, agent_left; lia|]. rewrite Hi in Hr.
    unfold steps_left, agent_left, rounds_left. rewrite Hi.
    repeat (apply elem_of_cons in Hs as [->|Hs]); [lia..|by apply not_elem_of_nil in Hs]. }
  specialize (Hk Hv Ha). unfold next_node, before_retrieval, after_moderation, after_cache_miss, after_finish, before_retrieval.
  destruct n; try done; repeat case_match; unfold steps_left, agent_left, rounds_left; rewrite ?Hk; lia.
Qed.

(** The steps taken and the steps left are never more than a turn has. *)
Lemma run_length n c c' : nsteps (step g) n c c' → (n + steps_left c'.1 c'.2 ≤ steps_left c.1 c.2)%nat.
Proof.
  induction 1 as [|n [n1 s1] [n2 s2] c3 Hs _ IH]; [done|]. apply step_decreases in Hs. simpl in *. lia.
Qed.
End facts.

(** What holds at each node of the conversation graph, in every turn: which batches reach the
    tools, which answers end a turn, and that no node is stuck. *)

(** ** The answer a judgement leaves *)

(** The message shown: the corrected one, or the one judged. *)
Definition shown_message (c : checked) (m : message) : message := default m (ch_message c).

Lemma check_answer_copy cfg s m m' : ch_message (check_answer cfg s m) = Some m' → ∃ new, m' = with_content new m.
Proof.
  unfold check_answer, corrected. intros E.
  repeat (case_match; simplify_eq/=; eauto).
Qed.

(** The reason of a judgement is one of the registry's. *)
Lemma check_answer_reason cfg s m code :
  ch_reason (check_answer cfg s m) = Some code → ∃ check, check ∈ CHECKS ∧ oc_code check = code.
Proof.
  unfold check_answer. intros E. destruct (if out_enforce_citations cfg && _ then _ else _) as [[shown used] update].
  cbn [ch_reason] in E. destruct (head (run_checks _)) as [[code' d]|] eqn:Eh; simplify_eq/=.
  apply head_Some_elem_of in Eh. by apply run_checks_known in Eh as (check & ? & ? & _); exists check.
Qed.

Lemma known_reason code : (∃ check, check ∈ CHECKS ∧ oc_code check = code) →
  ∃ check, check_for code = Some check.
Proof. intros (check & Hc & <-). exists check. by apply check_for_registry. Qed.

(** ** Texts that are not empty *)

Lemma nonempty_cons a s : nonempty (String a s) = true.
Proof. done. Qed.

Lemma nonempty_app_r a b : nonempty b = true → nonempty (a +:+ b) = true.
Proof. destruct a; [done|]. intros _. apply nonempty_cons. Qed.
Lemma nonempty_app_l a b : nonempty a = true → nonempty (a +:+ b) = true.
Proof. by destruct a. Qed.

Lemma with_markers_nonempty sentence markers : nonempty (with_markers sentence markers) = true.
Proof.
  unfold with_markers. destruct (end_stop sentence); apply nonempty_app_r, nonempty_app_l, nonempty_cons.
Qed.

Lemma insert_go_nonempty content by_sentence : nonempty content = true → nonempty (insert_go content 0 by_sentence) = true.
Proof.
  intros Hc. induction by_sentence as [|[sentence markers] bs IH]; cbn [insert_go]; [done|].
  destruct (find_from content sentence 0); [|done]. apply nonempty_app_r, nonempty_app_l, with_markers_nonempty.
Qed.

Lemma insert_keeps_content c citations used :
  has_content c = true → has_content (insert_missing_citation_markers c citations used).1 = true.
Proof.
  unfold insert_missing_citation_markers. destruct c as [s|ps]; [|done]. intros Hs.
  destruct (_uncited_citation_matches _ _ _); [done|]. by apply insert_go_nonempty.
Qed.

Lemma strip_offer_keeps_content c : has_content c = true → has_content (strip_closing_offer c) = true.
Proof.
  unfold strip_closing_offer, on_text. destruct c as [s|ps]; [|done]. cbn. intros Hs. rewrite Hs. unfold strip_text_offer.
  destruct (first_offer _ _ _); [|done]. destruct (falsy _) eqn:E; [done|]. case_match; [done|]. unfold nonempty. by rewrite E.
Qed.

Lemma content_or_empty_content m : has_content (content_or_empty m) = true → has_content (m_content m) = true.
Proof. unfold content_or_empty. by destruct (m_content m) as [s|[|p ps]]. Qed.

(** The answer shown has something in it, unless all there was is a list of references. *)
Lemma shown_has_content cfg s m :
  has_content (content_or_empty m) = true →
  strip_fabricated_reference_footer (content_or_empty m) ≠ Plain "" →
  has_content (m_content (shown_message (check_answer cfg s m) m)) = true.
Proof.
  intros Hm Hf.
  set (content := strip_fabricated_reference_footer (content_or_empty m)) in *.
  assert (Hc : has_content content = true).
  { subst content. revert Hm Hf. unfold strip_fabricated_reference_footer, on_text. destruct (content_or_empty m) as [t|ps]; [|done].
    cbn. intros Ht. rewrite Ht. unfold nonempty, falsy. intros Hn. apply negb_true_iff, bool_decide_eq_false. congruence. }
  assert (Hb : has_content (strip_closing_offer content) = true) by by apply strip_offer_keeps_content.
  pose proof (insert_keeps_content (strip_closing_offer content) (citations s)
    (find_used_citations (strip_closing_offer content) (citations s)) Hb) as Hi.
  unfold shown_message, check_answer, corrected. fold content.
  assert (Hw : ∀ new, has_content new = true → has_content (m_content (with_content new m)) = true) by done.
  assert (Hm' : has_content (m_content m) = true) by by apply content_or_empty_content.
  repeat (case_match; simplify_eq/=; auto).
Qed.

Lemma corrected_has_content m content body :
  has_content body = true →
  has_content (m_content (default m (corrected m content body (corrected m (content_or_empty m) content None)))) = true.
Proof.
  intros Hb. unfold corrected. repeat case_bool_decide; subst; cbn; try done. by apply content_or_empty_content.
Qed.

(** An answer that passes is not short. *)
Lemma passed_has_content cfg s m :
  ch_reason (check_answer cfg s m) = None → has_content (m_content (shown_message (check_answer cfg s m) m)) = true.
Proof.
  unfold shown_message, check_answer.
  set (written := content_or_empty m). set (content := strip_fabricated_reference_footer written). set (body := strip_closing_offer content).
  assert (Hlast : ∀ ctx, fst <$> head (run_checks ctx) = None → has_content (cc_shown ctx) = true ∨ ∃ ps, cc_shown ctx = Parts ps).
  { intros ctx. destruct (head (run_checks ctx)) as [p|] eqn:Eh; [done|]. intros _. apply head_None in Eh.
    assert (Hs : _too_short ctx = None).
    { destruct (_too_short ctx) as [d|] eqn:Ed; [|done]. exfalso. eapply not_elem_of_nil. rewrite <-Eh.
      unfold run_checks. apply list_elem_of_omap. exists (mkCheck "too_short" _too_short _too_short_feedback true None).
      split; [unfold CHECKS; set_solver|]. cbn. by rewrite Ed. }
    unfold _too_short in Hs. destruct (cc_shown ctx) as [t|ps]; [left|right; eauto].
    destruct t; [done|done]. }
  assert (Hparts : ∀ ps, written = Parts ps → has_content (Parts ps) = true).
  { subst written. unfold content_or_empty. intros ps. by destruct (m_content m) as [|[|]]; intros [= <-]. }
  assert (Hw : ∀ ps, body = Parts ps → written = Parts ps).
  { subst body content. unfold strip_closing_offer, strip_fabricated_reference_footer, on_text. by destruct written. }
  assert (Hi : ∀ ps cites used, (insert_missing_citation_markers body cites used).1 = Parts ps → body = Parts ps).
  { intros ps cites used. unfold insert_missing_citation_markers. destruct body; [|done]. by destruct (_uncited_citation_matches _ _ _). }
  destruct (out_enforce_citations cfg && _).
  - destruct (insert_missing_citation_markers body (citations s) _) as [corrected_content fixed] eqn:Ei. case_bool_decide as Hfix.
    + cbn [ch_reason ch_message]. intros Hr%Hlast. cbn [cc_shown] in Hr.
      apply corrected_has_content. destruct Hr as [Hr|[ps Hr]]; [done|]. rewrite Hr. by apply Hparts, Hw.
    + cbn [ch_reason ch_message default]. intros Hr%Hlast. cbn [cc_shown] in Hr. cbn [m_content with_content].
      destruct Hr as [Hr|[ps Hr]]; [done|]. rewrite Hr. apply Hparts, Hw. eapply Hi. by rewrite Ei.
  - cbn [ch_reason ch_message]. intros Hr%Hlast. cbn [cc_shown] in Hr.
    apply corrected_has_content. destruct Hr as [Hr|[ps Hr]]; [done|]. rewrite Hr. by apply Hparts, Hw.
Qed.

(** The message shown is the one judged, with another text at most. *)
Lemma shown_message_fields cfg s m :
  let x := shown_message (check_answer cfg s m) m in
  m_type x = m_type m ∧ m_tool_calls x = m_tool_calls m ∧ m_id x = m_id m.
Proof.
  unfold shown_message. destruct (ch_message _) as [m'|] eqn:E; [|done]. by apply check_answer_copy in E as [new ->].
Qed.

(** ** What an answer that may be shown is free of *)

(** The text of an answer that was judged, and what is left of it to judge *)
Definition written_text (m : message) : content := strip_fabricated_reference_footer (content_or_empty m).
Definition judged_text (m : message) : content := strip_closing_offer (written_text m).

(** [shown] may stand for the answer [m] that the model gave in [s].  It is what is left of the
    answer, at most with markers of citations put in.  The answer does not reveal the prompt; and
    if [shown] is not too short, it invents no result of a tool, skips no tool that a skill asked
    for, does not put the work off while no tool has failed, and cites nothing wrongly, unless
    something in it is not cited at all. *)
Definition fit (cfg : output_config) (s : State) (m : message) (shown : content) : Prop :=
  let used := find_used_citations (judged_text m) (citations s) in
  shown ∈ [judged_text m; fst (insert_missing_citation_markers (judged_text m) (citations s) used)] ∧
  reveals_system_prompt (written_text m) (out_system_prompt cfg) = false ∧
  ((∃ text, shown = Plain text ∧ (String.length text < MIN_ANSWER_LENGTH)%nat) ∨
   fabricates_tool_output (written_text m) = false ∧
   skipped_required_sandbox_after_skill (messages s) (out_skill_required_tools cfg) = None ∧
   (_tool_failed_this_turn (messages s) = true ∨ defers_instead_of_acting (judged_text m) = false) ∧
   (out_enforce_citations cfg = false ∨ find_likely_misattributed (judged_text m) (citations s) used = [] ∨
    find_likely_uncited shown (citations s) (find_used_citations shown (citations s)) ≠ [])).

(** A reason that leaves the answer to be shown: which checks it says did not fire. *)
Lemma trusted_findings ctx : trusts_content (fst <$> head (run_checks ctx)) = Some true →
  _leaks_prompt ctx = None ∧
  (_too_short ctx ≠ None ∨ _fabricated ctx = None ∧ _skipped_tool ctx = None ∧ _deferred ctx = None ∧
   (_uncited ctx ≠ None ∨ _misattributed ctx = None)).
Proof.
  unfold run_checks, CHECKS. cbn [omap list_omap oc_code oc_detect]. destruct (_leaks_prompt ctx); [done|]. intros H. split; [done|]. revert H. cbn.
  destruct (_too_short ctx); [by left|]. destruct (_fabricated ctx); [done|]. destruct (_skipped_tool ctx); [done|].
  destruct (_deferred ctx); [done|]. right. split_and!; [done..|]. destruct (_uncited ctx); [by left|]. destruct (_misattributed ctx); [done|by right].
Qed.

Lemma content_or_empty_with c m : c ≠ Parts [] → content_or_empty (with_content c m) = c.
Proof. unfold content_or_empty. cbn. by destruct c as [|[]]. Qed.

Lemma written_not_empty_list m : content_or_empty m ≠ Parts [].
Proof. unfold content_or_empty. by destruct (m_content m) as [|[]]. Qed.
Lemma judged_not_empty_list m : judged_text m ≠ Parts [].
Proof.
  pose proof (written_not_empty_list m) as H. unfold judged_text, written_text, strip_closing_offer, strip_fabricated_reference_footer, on_text.
  by destruct (content_or_empty m).
Qed.
Lemma insert_not_empty_list c cites used : c ≠ Parts [] → (insert_missing_citation_markers c cites used).1 ≠ Parts [].
Proof. unfold insert_missing_citation_markers. destruct c; [|done]. by destruct (_uncited_citation_matches _ _ _). Qed.

Lemma corrected_text m : content_or_empty
  (default m (corrected m (written_text m) (judged_text m) (corrected m (content_or_empty m) (written_text m) None))) = judged_text m.
Proof.
  pose proof (judged_not_empty_list m) as Hn. unfold corrected.
  case_bool_decide as E1; [case_bool_decide as E2|]; cbn [default from_option Datatypes.id]; rewrite ?content_or_empty_with; congruence.
Qed.

(** What the checks see of an answer *)
Lemma check_answer_context cfg s m : ∃ ctx, let c := check_answer cfg s m in
  let used := find_used_citations (judged_text m) (citations s) in
  ch_reason c = fst <$> head (run_checks ctx) ∧ cc_content ctx = written_text m ∧ cc_body ctx = judged_text m ∧
  cc_messages ctx = messages s ∧ cc_citations ctx = citations s ∧ cc_used ctx = used ∧
  cc_shown ctx = content_or_empty (shown_message c m) ∧ cc_shown_used ctx = find_used_citations (cc_shown ctx) (citations s) ∧
  cc_system_prompt ctx = out_system_prompt cfg ∧ cc_enforce_citations ctx = out_enforce_citations cfg ∧
  cc_skill_required_tools ctx = out_skill_required_tools cfg ∧
  cc_shown ctx ∈ [judged_text m; fst (insert_missing_citation_markers (judged_text m) (citations s) used)].
Proof.
  unfold shown_message, check_answer. fold (written_text m). fold (judged_text m).
  pose proof (insert_not_empty_list (judged_text m) (citations s) (find_used_citations (judged_text m) (citations s)) (judged_not_empty_list m)) as Hi.
  destruct (out_enforce_citations cfg && _).
  - destruct (insert_missing_citation_markers _ _ _) as [c fixed] eqn:Ei. cbn [fst] in Hi. case_bool_decide; eexists; cbn [ch_reason ch_message];
      (split; [reflexivity|]); cbn; rewrite ?corrected_text, ?content_or_empty_with by done; split_and!; try done; [left|right; left].
  - eexists. cbn [ch_reason ch_message]. split; [reflexivity|]. cbn. rewrite corrected_text. split_and!; try done. left.
Qed.

Lemma trusted_is_fit cfg s m : trusts_content (ch_reason (check_answer cfg s m)) = Some true →
  fit cfg s m (content_or_empty (shown_message (check_answer cfg s m) m)).
Proof.
  destruct (check_answer_context cfg s m) as (ctx & Hr & H1 & H2 & H3 & H4 & H5 & H6 & H7 & H8 & H9 & H10 & Hin). rewrite Hr.
  intros [Hleak H]%trusted_findings. rewrite <-H6.
  unfold _leaks_prompt, _too_short, _fabricated, _skipped_tool, _deferred, _uncited, _misattributed, fires, found in *.
  rewrite ?H1, ?H2, ?H3, ?H4, ?H5, ?H7, ?H8, ?H9, ?H10 in *. unfold fit. split; [exact Hin|]. split; [by destruct (reveals_system_prompt _ _)|].
  destruct H as [H|(Hf & Hs & Hd & H)]; [left|right].
  - destruct (cc_shown ctx) as [t|]; [|done]. exists t. split; [done|]. apply Nat.ltb_lt. by destruct (_ <? _)%nat.
  - split_and!; [by destruct (fabricates_tool_output _)|by destruct (skipped_required_sandbox_after_skill _ _)| |].
    + destruct (_tool_failed_this_turn _); [by left|right]. by destruct (defers_instead_of_acting _).
    + destruct (out_enforce_citations cfg); [right|by left]. cbn [negb] in H. destruct H as [H|H]; [right|left].
      * by destruct (find_likely_uncited _ _ _).
      * by destruct (find_likely_misattributed _ _ _).
Qed.

Section invariant.
Context `{LangGraph} (g : graph_config).

(** ** Messages after an update *)

Definition messages_after (ps : list put) (l : list message) : list message :=
  foldl (λ l p, match p with Set_messages us => add_messages l us | _ => l end) l ps.

Lemma messages_apply ps s : messages (apply s ps) = messages_after ps (messages s).
Proof.
  unfold apply, messages_after. revert s. induction ps as [|p ps IH]; intros s; simpl; [done|]. rewrite IH. f_equal. by destruct s, p.
Qed.

(** [m] is an answer: the model's, and it asks for no tool. *)
Definition is_answer (m : message) : Prop := is_type AIMessage m = true ∧ m_tool_calls m = [].

Lemma same_answer a b : same_message a b → is_answer a → is_answer b.
Proof.
  intros (E1 & _ & E2 & _)%same_message_fields [H1 H2]. unfold is_answer, is_type. rewrite <-E1, <-E2. done.
Qed.

(** A node's last message, when it says something of its own. *)
Lemma answer_last us text kw l :
  ∃ x, last (add_messages l (us ++ [Put (said AIMessage text kw)])) = Some x ∧ is_answer x ∧ m_content x = Plain text.
Proof.
  destruct (add_new_last l us (said AIMessage text kw)) as (x & Hx & Hs); [done|]. exists x. split; [done|].
  split; [by eapply same_answer|]. by apply same_message_fields in Hs as (_ & <- & _).
Qed.

Lemma checked_last cfg s m l :
  last l = Some m →
  ∃ x, last (messages_after (checked_message (check_answer cfg s m)) l) = Some x ∧
    same_message (shown_message (check_answer cfg s m) m) x.
Proof.
  intros Hl. unfold checked_message, shown_message. destruct (ch_message _) as [m'|] eqn:E; [|by exists m].
  apply check_answer_copy in E as [new ->]. cbn. by apply (add_copy_last l _ m).
Qed.

(** ** The answers that end a turn *)

(** The texts the graph says on its own. *)
Definition canned (text : string) : Prop :=
  answer text ∈ [reject_moderation; reject_input; reject_context; context_window_exceeded] ∨
  ∃ reason, fallback_message reason = Some text.

Lemma canned_nonempty text : canned text → nonempty text = true.
Proof.
  intros [Ht|[reason Hr]]; [|by eapply fallback_nonempty].
  repeat (apply elem_of_cons in Ht as [Ht|Ht]); [..|by apply not_elem_of_nil in Ht];
  by injection Ht as ->.
Qed.

Section turn.
Context (s0 : State).

(** [m] passed the checks, or the first that it failed, by their priority, is one that leaves it
    to be shown, with the citations of a state of this turn. *)
Definition vetted (m : message) : Prop :=
  ∃ n s m0, reachable g s0 (n, s) ∧ (n = N_check_output ∨ n = N_no_answer) ∧ last (messages s) = Some m0 ∧
    trusts_content (ch_reason (check_answer (domain_output g) s m0)) = Some true ∧
    m_content m = m_content (shown_message (check_answer (domain_output g) s m0) m0).

(** All the model wrote was a list of references, and a bound of the turn was reached. *)
Definition only_references : Prop :=
  ∃ s m0, reachable g s0 (N_no_answer, s) ∧ last (messages s) = Some m0 ∧
    strip_fabricated_reference_footer (content_or_empty m0) = Plain "".

(** [m] stands for an answer of this turn that is fit to be shown. *)
Definition presentable (m : message) : Prop :=
  ∃ n s m0, reachable g s0 (n, s) ∧ (n = N_check_output ∨ n = N_no_answer) ∧ last (messages s) = Some m0 ∧
    fit (domain_output g) s m0 (content_or_empty m).

Lemma vetted_presentable m : vetted m → presentable m.
Proof.
  intros (n & s & m0 & Hr & Hn & Hl & Ht & Hc). exists n, s, m0. split_and!; [done..|]. unfold content_or_empty at 1. rewrite Hc. by apply trusted_is_fit.
Qed.

Definition final (m : message) : Prop :=
  is_answer m ∧ (vetted m ∨ ∃ text, canned text ∧ m_content m = Plain text) ∧
  (has_content (m_content m) = true ∨ only_references).

(** A batch that may run, as far as the code decides alone. *)
Definition cleared (s : State) : Prop :=
  let batch := pending_calls (messages s) in
  batch ≠ [] ∧ batch_problem batch (messages s) (g_valid_tool_names g) = None ∧
  (consecutive_repeat_count (messages s) < MAX_REPEATED_ACTIONS)%nat ∧
  (iterations s < max_iterations (g_limits g))%Z ∧
  (effective_tokens s < max_tokens (g_limits g))%Z ∧
  fge (effective_cost_usd s) (max_cost_usd (g_limits g)) = false.

Definition rejected (s : State) : Prop :=
  ∃ code, last_retry_reason s = Some code ∧ (∃ check, check ∈ CHECKS ∧ oc_code check = code) ∧
    (∃ m, last (messages s) = Some m ∧ is_answer m ∧ (trusts_content (Some code) = Some true → vetted m)).

Definition holds_at (n : node) (s : State) : Prop :=
  match n with
  | N_moderate_input | N_check_semantic_cache => cache_hit s = false
  | N_tools | N_human_approval => cleared s
  | N_check_output => ∃ m, last (messages s) = Some m ∧ is_answer m
  | N_no_answer => ∃ m, last (messages s) = Some m ∧ is_type AIMessage m = true
  | N_retry_output | N_retry_exhausted => rejected s
  | N_finish => ∃ m, last (messages s) = Some m ∧ final m
  | N_end => g_emit_no_answer_message g = true → cancelled s = true ∨ ∃ m, last (messages s) = Some m ∧ final m
  | _ => True
  end.

(** *** Node by node *)

Lemma canned_final s text :
  canned text → ∃ m, last (messages (apply s (answer text))) = Some m ∧ final m.
Proof.
  intros Ht. rewrite messages_apply. cbn. destruct (answer_last [] text [] (messages s)) as (x & Hx & Ha & Hc).
  exists x. split; [done|]. split; [done|]. split; [right; eauto|left]. rewrite Hc. by apply canned_nonempty.
Qed.

Lemma after_validate w s : cache_hit (apply s (validate_input (w_ctx w) s)) = false.
Proof. unfold validate_input. rewrite apply_app. case_bool_decide; by destruct s. Qed.

Lemma after_moderation_node w s :
  cache_hit s = false → cache_hit (apply s (moderate_input (w_screen w) s)) = false.
Proof. unfold moderate_input. destruct (last_human_message _); by destruct s. Qed.

Lemma after_cache w s :
  cache_hit s = false → cache_hit (apply s (check_semantic_cache (w_cache_get w) s)) = true →
  ∃ m, last (messages (apply s (check_semantic_cache (w_cache_get w) s))) = Some m ∧ is_answer m.
Proof.
  intros Hs. unfold check_semantic_cache. destruct (last_human_message _) as [q|]; [|cbn; congruence].
  destruct (w_cache_get w _ _) as [[text cites]|]; [|cbn; congruence]. intros _. rewrite messages_apply. cbn.
  destruct (answer_last [] text [] (messages s)) as (x & Hx & Ha & _). by exists x.
Qed.

(** The model's answer, or the refusal, is an [AIMessage]. *)
Lemma after_agent w s ps :
  well_behaved w s → node_update g w N_agent s = Some ps →
  ∃ m, last (messages (apply s ps)) = Some m ∧ is_type AIMessage m = true.
Proof.
  intros [Hw _]. cbn. unfold agent. destruct (call_model _ _ _) as [m t c|b| |] eqn:E; [| |done..]; intros [= <-]; rewrite messages_apply; cbn.
  - destruct (call_model_from (w_model w) (tier_alias (g_router g) (model_route s)) (agent_prompt (domain_agent g) s)) as [alias Ea].
    rewrite E in Ea. symmetry in Ea. destruct (Hw _ _ _ _ _ Ea) as [Ha Hm]. destruct (add_fresh_last (messages s) m Hm) as (x & Hx & Hs). exists x. split; [done|].
    apply same_message_fields in Hs as (E1 & _). unfold is_type in *. by rewrite <-E1.
  - rewrite fmap_app. cbn. by destruct (answer_last (Put <$>
      match (if b then last_human_message (messages s) else None) with
      | Some asked => match m_id asked with Some _ => [Message HumanMessage (m_id asked) (Plain WITHHELD_MESSAGE) [] "" None "" (m_kwargs asked)] | None => [] end
      | None => [] end) CANNOT_HELP_MESSAGE [(GATEWAY_REFUSAL_KEY, JBool true)] (messages s)) as (x & Hx & [Ha _] & _); exists x.
Qed.

Lemma agent_routes s m :
  last (messages s) = Some m → is_type AIMessage m = true →
  match should_continue (g_tool_capabilities g) (g_valid_tool_names g) (g_limits g) s with
  | to_tools | to_human_approval => cleared s
  | to_check_output => is_answer m
  | _ => True
  end.
Proof.
  intros Hm Ha. unfold should_continue, cleared. rewrite (tools_condition_ai _ m Hm Ha), negb_involutive.
  destruct (refused_by_gateway _); [done|]. destruct (max_iterations _ <=? _)%Z eqn:E1; [done|].
  destruct (max_tokens _ <=? _)%Z eqn:E2; [done|]. destruct (fge _ _) eqn:E3; [done|].
  case_bool_decide as Hc; [done|]. destruct (batch_problem _ _ _) eqn:E4; [done|].
  destruct (Nat.leb _ _) eqn:E5; [done|]. apply Nat.leb_gt in E5. dec.
  assert (pending_calls (messages s) ≠ []) by (unfold pending_calls; by rewrite Hm).
  destruct (require_approval s || _); done.
Qed.

Lemma after_check w s ps m :
  reachable g s0 (N_check_output, s) → last (messages s) = Some m → is_answer m →
  node_update g w N_check_output s = Some ps →
  match route_after_check (apply s ps) with
  | to_finish => ∃ m, last (messages (apply s ps)) = Some m ∧ final m
  | _ => rejected (apply s ps)
  end.
Proof.
  intros Hr Hm Ha. cbn. unfold check_output. rewrite Hm. cbn. intros [= <-].
  set (c := check_answer (domain_output g) s m).
  destruct (checked_last (domain_output g) s m _ Hm) as (x & Hx & Hs). fold c in Hx, Hs.
  assert (Hans : is_answer x).
  { eapply same_answer; [done|]. destruct (shown_message_fields (domain_output g) s m) as (E1 & E2 & _). fold c in E1, E2.
    unfold is_answer, is_type. by rewrite E1, E2. }
  assert (Hcont : m_content x = m_content (shown_message c m)) by (by apply same_message_fields in Hs as (_ & <- & _)).
  assert (Hv : trusts_content (ch_reason c) = Some true → vetted x) by (intros Ht; exists N_check_output, s, m; eauto 10).
  assert (Hreason : last_retry_reason (apply s (checked_message c ++
    [Set_used_citations (ch_used_citations c); Set_ungrounded_claims_count (ch_ungrounded c); Set_output_findings (ch_findings c);
     Set_last_retry_reason (ch_reason c); Set_retry_reason_repeat_count (ch_repeat_count c)])) = ch_reason c)
    by (rewrite apply_app; by destruct (apply s (checked_message c))).
  unfold route_after_check, rejected. rewrite Hreason, messages_apply. unfold messages_after in *. rewrite foldl_app. cbn.
  destruct (ch_reason c) as [code|] eqn:Ec.
  - assert (Hk : ∃ check, check ∈ CHECKS ∧ oc_code check = code) by (by eapply check_answer_reason).
    destruct (_ <=? _)%Z; exists code; split; [done| |done|]; split; try done; exists x; done.
  - exists x. split; [done|]. split; [done|]. split; [left; by apply Hv|left]. rewrite Hcont. by apply passed_has_content.
Qed.
Lemma readable_has_content m : readable (content_or_empty m) = true → has_content (m_content m) = true.
Proof.
  intros Hr. apply content_or_empty_content. revert Hr. unfold readable. destruct (content_or_empty m) as [t|]; [|done]. by destruct t.
Qed.

Lemma fallback_last us text reason l :
  fallback_message reason = Some text →
  ∃ m, last (add_messages l (us ++ [Put (said AIMessage text [])])) = Some m ∧ final m.
Proof.
  intros Ht. destruct (answer_last us text [] l) as (x & Hx & Ha & Hc). exists x. split; [done|]. split; [done|].
  assert (Hcan : canned text) by (right; eauto). split; [right; eauto|left]. rewrite Hc. by apply canned_nonempty.
Qed.

Lemma after_exhausted w s ps :
  rejected s → g_emit_no_answer_message g = true → node_update g w N_retry_exhausted s = Some ps →
  ∃ m, last (messages (apply s ps)) = Some m ∧ final m.
Proof.
  intros (code & Hcode & _ & m & Hm & Ha & Hv) He. cbn [node_update]. unfold retry_exhausted, last_content. rewrite Hcode, He, Hm.
  destruct (trusts_content (Some code)) as [trusts|] eqn:Et; [|done]. cbn [mbind option_bind].
  destruct (trusts && readable (content_or_empty m)) eqn:Er.
  - apply andb_true_iff in Er as [-> Er]. intros [= <-]. exists m. split; [done|]. split; [done|].
    split; [left; by apply Hv|left]. by apply readable_has_content.
  - destruct (fallback_message (Some code)) as [text|] eqn:Ef; [|done]. cbn [mbind option_bind]. intros [= <-].
    rewrite messages_apply. cbn [messages_after foldl]. rewrite fmap_app. by eapply fallback_last.
Qed.

Lemma after_no_answer w s ps m :
  reachable g s0 (N_no_answer, s) → last (messages s) = Some m → is_type AIMessage m = true →
  g_emit_no_answer_message g = true → node_update g w N_no_answer s = Some ps →
  ∃ m, last (messages (apply s ps)) = Some m ∧ final m.
Proof.
  intros Hr Hm Ha He. cbn [node_update]. unfold no_answer_fallback. rewrite Hm. cbn [mbind option_bind]. rewrite Ha, He. cbn [negb].
  set (c := check_answer (domain_output g) s m).
  destruct (trusts_content (ch_reason c)) as [trusts|] eqn:Et; [|done]. cbn [mbind option_bind].
  destruct (fallback_message (ch_reason c)) as [text|] eqn:Ef; [|done]. cbn [mbind option_bind]. intros [= <-].
  rewrite messages_apply. unfold messages_after. cbn [app foldl].
  destruct (bool_decide (m_tool_calls m = []) && trusts && readable (content_or_empty m)) eqn:Ew; cbn [foldl].
  - apply andb_true_iff in Ew as [Ew Er]. apply andb_true_iff in Ew as [Hc Ew]. apply bool_decide_eq_true in Hc. subst trusts.
    destruct (checked_last (domain_output g) s m _ Hm) as (x & Hx & Hs). fold c in Hx, Hs. exists x. split; [done|].
    destruct (shown_message_fields (domain_output g) s m) as (E1 & E2 & _). fold c in E1, E2.
    assert (Hans : is_answer x) by (eapply same_answer; [done|]; unfold is_answer, is_type; by rewrite E1, E2).
    assert (Hcont : m_content x = m_content (shown_message c m)) by (by apply same_message_fields in Hs as (_ & <- & _)).
    split; [done|]. split; [left; exists N_no_answer, s, m; eauto 10|].
    destruct (decide (strip_fabricated_reference_footer (content_or_empty m) = Plain "")) as [Hf|Hf]; [right; exists s, m; eauto|left].
    rewrite Hcont. apply shown_has_content; [|done].
    revert Er. unfold readable. destruct (content_or_empty m) as [t|]; [|done]. by destruct t.
  - rewrite !fmap_app. rewrite app_assoc. by eapply fallback_last.
Qed.

(** Every step keeps what holds at the nodes. *)
Lemma holds_step n s n' s' :
  reachable g s0 (n, s) → holds_at n s → step g (n, s) (n', s') → holds_at n' s'.
Proof.
  intros Hr Hn (w & ps & Hw & Eu & -> & ->)%step_inv.
  destruct n; cbn [next_node]; try done;
  try (injection Eu as <-; intros _; right; apply canned_final; left; set_solver).
  - injection Eu as <-. destruct (route_after_validation _); try done. apply after_validate.
  - injection Eu as <-. destruct (route_after_moderation _); [done|].
    pose proof (after_moderation_node w s Hn). unfold after_moderation, after_cache_miss, before_retrieval. by repeat case_match.
  - injection Eu as <-. destruct (route_after_cache _) eqn:E; [by apply after_cache|].
    unfold after_cache_miss, before_retrieval. by repeat case_match.
  - destruct (route_after_compaction _); [done|]. unfold before_retrieval. by case_match.
  - destruct (after_agent w s ps Hw Eu) as (m & Hm & Ha). pose proof (agent_routes _ m Hm Ha) as Hroute.
    destruct (should_continue _ _ _ _); try done; cbn; eauto.
  - injection Eu as <-. unfold human_approval, route_after_approval. case_bool_decide; [|destruct (truthy _)].
    + set (s' := apply _ _). assert (Hc : cancelled s' = true) by (subst s'; by destruct s). rewrite Hc. intros _. by left.
    + set (s' := apply _ _). assert (Hc : approved s' = true) by (subst s'; by destruct s). rewrite Hc.
      destruct (cancelled s') eqn:E; [intros _; by left|]. subst s'. by destruct s.
    + set (s' := apply _ _). assert (Hc : approved s' = false) by (subst s'; by destruct s). rewrite Hc.
      destruct (cancelled s') eqn:E; [|done]. intros _. by left.
  - destruct Hn as (m & Hm & Ha). pose proof (after_check w s ps m Hr Hm Ha Eu) as Hc.
    destruct (route_after_check _); [done..|]. unfold after_finish. case_match; [done|]. intros _. by right.
  - intros He. right. by eapply after_exhausted.
  - destruct Hn as (m & Hm & Ha). intros He. right. by eapply after_no_answer.
  - destruct Hn as (m & Hm & Hf). injection Eu as <-. intros _. right. exists m. split; [|done].
    rewrite messages_apply. destruct (include_followups _); [|done]. unfold suggest_followups. repeat case_match; cbn; congruence.
Qed.

Lemma reachable_holds n s : reachable g s0 (n, s) → holds_at n s.
Proof.
  intros Hr. apply (rtc_ind_r (λ c, holds_at c.1 c.2) (N_validate_input, s0)) in Hr; [done..|].
  intros [n1 s1] [n2 s2] Hr1 Hs IH. by eapply holds_step.
Qed.

(** *** No node is stuck *)

(** The model answers or is refused, the graph's own can be reached, and the tools come back. *)
Definition answers (w : world) (s : State) : Prop :=
  (∀ alias p, w_model w alias p ≠ Unanswered) ∧ (∀ p, w_model w None p ≠ Unreachable) ∧ w_tools w s ≠ None.

Lemma known_fallback code : (∃ check, check ∈ CHECKS ∧ oc_code check = code) →
  (∃ text, fallback_message (Some code) = Some text) ∧ ∃ b, trusts_content (Some code) = Some b.
Proof.
  intros (check & Hc & <-). apply check_for_registry in Hc. unfold fallback_message, trusts_content. rewrite Hc. split; by eexists.
Qed.

Lemma never_stuck w n s :
  reachable g s0 (n, s) → n ≠ N_end → answers w s → ∃ ps, node_update g w n s = Some ps.
Proof.
  intros Hr%reachable_holds Hn (Hm & Hown & Ht). destruct n; try done; cbn [node_update]; eauto.
  - unfold agent. destruct (call_model_answers (w_model w) (tier_alias (g_router g) (model_route s)) (agent_prompt (domain_agent g) s) Hm Hown).
    destruct (call_model _ _ _); eauto; done.
  - destruct (w_tools w s) as [[rs spend]|]; [cbn; eauto|done].
  - destruct Hr as (m & Hl & _). unfold check_output. rewrite Hl. cbn. eauto.
  - destruct Hr as (code & Hcode & (check & Hc & <-) & _). unfold retry_output. rewrite Hcode. cbn [mbind option_bind].
    rewrite (check_for_registry _ Hc). cbn [mbind option_bind]. eauto.
  - destruct Hr as (code & Hcode & [[text Hf] [b Hb]]%known_fallback & _). unfold retry_exhausted. rewrite Hcode, Hb.
    cbn [mbind option_bind]. destruct (b && _); [eauto|]. destruct (g_emit_no_answer_message g); [|cbn; eauto].
    rewrite Hf. cbn [mbind option_bind]. eauto.
  - destruct Hr as (m & Hl & _). unfold no_answer_fallback. rewrite Hl. cbn [mbind option_bind].
    destruct (negb _); [eauto|]. set (c := check_answer _ s m).
    destruct (ch_reason c) as [code|] eqn:Ec; [|cbn [trusts_content fallback_message mbind option_bind]; eauto].
    apply check_answer_reason, known_fallback in Ec as [[text ->] [b ->]]. cbn [mbind option_bind]. eauto.
Qed.
End turn.

(** ** The way to the tools *)

(** Only the model, for a batch that needs no approval, and the person's approval lead there. *)
Lemma to_tools_from n s s' :
  step g (n, s) (N_tools, s') →
  (n = N_agent ∧ require_approval s' = false ∧ mandatory_gate_reason (pending_calls (messages s')) (g_tool_capabilities g) = None) ∨
  (n = N_human_approval ∧ ∃ w, run_node g w (n, s) = Some (N_tools, s') ∧
    truthy (Some (w_interrupt w (approval_request (pending_calls (messages s'))))) = true ∧
    w_interrupt w (approval_request (pending_calls (messages s'))) ≠ JStr CANCEL_SENTINEL).
Proof.
  intros (w & Hw & E). pose proof E as Erun. unfold run_node in E. cbn [fst snd] in E.
  destruct (node_update g w n s) as [ps|] eqn:Eu; [|done]. cbn [mbind option_bind] in E.
  injection E as En <-. destruct n; cbn [next_node] in En; unfold after_moderation, after_cache_miss, after_finish, before_retrieval in En;
    try discriminate En; try (repeat case_match; discriminate En).
  - left. split; [done|]. unfold should_continue in En.
    repeat (match type of En with context [if ?b then _ else _] => destruct b eqn:? | context [match ?x with _ => _ end] => destruct x eqn:? end;
      try discriminate En).
    match goal with Hq : require_approval _ || _ = false |- _ => apply orb_false_iff in Hq as [Hq1 Hq2] end.
    apply bool_decide_eq_false in Hq2. split; [done|]. by apply dec_stable.
  - right. split; [done|]. injection Eu as <-. unfold human_approval, route_after_approval in *.
    case_bool_decide as Hd; [|destruct (truthy _) eqn:Ht].
    + exfalso. destruct s; discriminate En.
    + exists w. split; [done|]. assert (Hm : messages (apply s [Set_approved true]) = messages s) by by destruct s.
      by rewrite Hm.
    + assert (Hc : approved (apply s [Set_messages (Put <$> reject_tool_calls (pending_calls (messages s)) "Rejected by human reviewer."); Set_approved false]) = false) by (by destruct s).
      rewrite Hc in En. by destruct (cancelled _).
Qed.
End invariant.
