(* ===== verification/GraphTheorems.v ===== *)
(** The properties of a turn of the conversation graph, and what modelling it showed.

    [Demo] is a small domain under the plain reducer: a read-only search, an e-mail tool and
    a model that says what a world tells it to. *)
From Stdlib Require Import SpecFloat Ascii.
From stdpp Require Import gmap relations sorting.
From S2P Require Import Prelude Dict Json Text Messages AgentState Guards GraphFacts Citations Guardrails OutputChecks Compaction Routing AgentNode Turn Graph Breaker.

Local Open Scope string_scope.
Local Open Scope list_scope.

Module Demo.

Definition capabilities : gmap string string :=
  <["search_docs" := "read_only"]> (<["send_email" := "outward"]> ∅).

Definition half_dollar : float := S754_finite false 4503599627370496 (-53).

(** A router with one paid tier, which the operator lets turns use. *)
Definition router : router_settings := mkRouter "medium-chat" "" router_on true strong DEFAULT_LONG_PROMPT_CHARS.

Definition domain : graph_config :=
  mkGraph capabilities {["search_docs"; "send_email"]} "You answer questions about the company."
    (mkLimits MAX_ITERATIONS MAX_TOKENS_PER_TURN half_dollar) true HISTORY_TOKEN_CEILING HISTORY_TOKEN_FLOOR FULL_PROFILE router.

(** A world whose model says [m] and whose person decides [decision]. *)
Definition says (m : message) (decision : json) : world :=
  mkWorld (Some (SecCtx "acme" "ann")) (λ _, true) (λ _ _, None) (λ s, Z.of_nat (String.length s)) (λ _, None)
    (λ _, None) (λ _, Some false) (λ _ _, Some ("", [])) (λ _ _, Answered m 10 fzero)
    (λ s, Some (reject_tool_calls (pending_calls (messages s)) "found", [])) (λ _, decision) (λ _, None).

Definition text (t : string) : world := says (said AIMessage t []) JNull.

(** The model asks for a tool. *)
Definition asks (tool : string) (decision : json) : world :=
  says (Message AIMessage None (Plain "") [ToolCall tool (JObj []) "c1"] "" None "" []) decision.

Definition start : State :=
  apply (H := plain_langgraph) new_state [Set_messages [Put (said HumanMessage "Where is the office?" [])]].

Definition run (ws : list world) : option (node * State) :=
  run_turn (H := plain_langgraph) domain ws (N_validate_input, start).

Definition polite (w : world) : Prop := ∀ s, well_behaved w s.

Lemma says_polite m decision : is_type AIMessage m = true → m_id m = None → polite (says m decision).
Proof.
  intros Ha Hi s. split.
  - intros alias p m' t c [= <- _ _]. auto.
  - intros rs spend [= <- _]. apply Forall_forall. intros r Hr. unfold reject_tool_calls in Hr.
    by apply list_elem_of_fmap in Hr as (tc & -> & _).
Qed.

Lemma text_polite t : polite (text t).
Proof. by apply says_polite. Qed.
Lemma asks_polite tool decision : polite (asks tool decision).
Proof. by apply says_polite. Qed.

Lemma run_steps ws c c' :
  Forall polite ws → run_turn (H := plain_langgraph) domain ws c = Some c' → nsteps (step (H := plain_langgraph) domain) (length ws) c c'.
Proof.
  intros Hp. revert c. induction Hp as [|w ws Hw _ IH]; intros c; cbn [run_turn]; [intros [= ->]; constructor|].
  destruct (run_node (H := plain_langgraph) domain w c) as [c1|] eqn:E; [|done]. cbn [mbind option_bind]. intros Hr.
  econstructor; [exists w; split; [apply Hw|exact E]|by apply IH].
Qed.

Lemma run_reachable ws c : Forall polite ws → run ws = Some c → reachable (H := plain_langgraph) domain start c.
Proof. intros Hp Hr. unfold reachable. eapply rtc_nsteps_2, run_steps; [done|exact Hr]. Qed.

(** The six steps before the model. *)
Definition opening : list world := replicate 6 (text "").

(** A model that is too short three times in a row, then defers: no reason comes twice in
    succession, so every bound but the number of rounds is missed. *)
Fixpoint stubborn (n : nat) : list world :=
  match n with
  | O => []
  | S n => replicate 3 (text "hi") ++ replicate 3 (text "I will use the search tool to find it.") ++ stubborn n
  end.
Definition longest : list world := take 35 (opening ++ stubborn 5).

Lemma opening_polite : Forall polite opening.
Proof. apply Forall_replicate, text_polite. Qed.

Lemma stubborn_polite n : Forall polite (stubborn n).
Proof.
  induction n as [|n IH]; cbn [stubborn]; [constructor|].
  repeat (apply Forall_app; split); [apply Forall_replicate, text_polite..|done].
Qed.

Lemma longest_polite : Forall polite longest.
Proof. apply Forall_take, Forall_app. split; [apply opening_polite|apply stubborn_polite]. Qed.

End Demo.

(** ** Which tool calls run *)


(** The state a run of the demo domain is left in. *)
Definition demo_state (ws : list world) : State := from_option snd new_state (Demo.run ws).


(** ** The end of a turn *)

(** C15: a turn never takes more than three steps a round and five more, whatever the model, the
    tools and the people around it do; with the configured bound that is LangGraph's own limit on the
    steps of a run.  And no step is ever stuck: while the graph's own model answers or refuses, a
    routed one answers, refuses or cannot be reached, and the tools come back, a turn that is not
    over has a next step. *)
Theorem turn_ends `{LangGraph} (g : graph_config) s0 :
  (1 ≤ max_iterations (g_limits g))%Z →
  (∀ k c, nsteps (step g) k (N_validate_input, s0) c → (Z.of_nat k ≤ 3 * max_iterations (g_limits g) + 5)%Z) ∧
  (max_iterations (g_limits g) = MAX_ITERATIONS → (3 * max_iterations (g_limits g) + 5)%Z = RECURSION_LIMIT) ∧
  (∀ n s w, reachable g s0 (n, s) → n ≠ N_end → well_behaved w s → answers w s →
     ∃ c, run_node g w (n, s) = Some c ∧ step g (n, s) c).
Proof.
  intros Hm. split; [|split].
  - intros k c Hk. apply run_length in Hk. cbn [fst snd] in Hk. unfold steps_left in Hk at 2. cbn in Hk. lia.
  - by intros ->.
  - intros n s w Hr Hn Hw Ha. destruct (never_stuck g s0 w n s Hr Hn Ha) as [ps E].
    assert (Erun : run_node g w (n, s) = Some (next_node g n (apply s ps), apply s ps)).
    { unfold run_node. cbn [fst snd]. by rewrite E. }
    eexists. split; [exact Erun|]. exists w. by split.
Qed.

(** A turn of the demo domain takes exactly that many. *)
Lemma longest_turn : nsteps (step (H := plain_langgraph) Demo.domain) 35 (N_validate_input, Demo.start) (N_end, demo_state Demo.longest).
Proof.
  change 35%nat with (length Demo.longest). apply Demo.run_steps; [apply Demo.longest_polite|]. vm_compute. reflexivity.
Qed.

Lemma turn_ends_witness :
  (1 ≤ max_iterations (g_limits Demo.domain))%Z ∧ (Z.of_nat 35 ≤ 3 * max_iterations (g_limits Demo.domain) + 5)%Z ∧
  (3 * max_iterations (g_limits Demo.domain) + 5)%Z = RECURSION_LIMIT.
Proof.
  assert (Hm : (1 ≤ max_iterations (g_limits Demo.domain))%Z) by (vm_compute; discriminate).
  destruct (turn_ends (H := plain_langgraph) Demo.domain Demo.start Hm) as (Hl & He & _).
  split; [exact Hm|]. split; [exact (Hl _ _ longest_turn)|]. apply He. reflexivity.
Defined.

(** The limit on the steps of a run leaves no room: a turn whose answers are rejected for changing
    reasons takes three steps a round, and all the steps there are. *)
Lemma recursion_limit_has_no_margin :
  ∃ c, nsteps (step (H := plain_langgraph) Demo.domain) (Z.to_nat RECURSION_LIMIT) (N_validate_input, Demo.start) c ∧ c.1 = N_end.
Proof. eexists. split; [exact longest_turn|done]. Qed.

(** ** The answer a turn ends with *)



(** ** What modelling it showed *)

(** The exception is real: at a bound of the turn, an answer that is one line of references is
    shown as an empty message. *)
Definition references_at_the_limit : list world :=
  take 33 Demo.longest ++ [Demo.text "[1]: https://example.org"; Demo.text ""].

Lemma references_are_shown_as_nothing :
  reachable (H := plain_langgraph) Demo.domain Demo.start (N_end, demo_state references_at_the_limit) ∧
  m_content <$> last (messages (demo_state references_at_the_limit)) = Some (Plain "").
Proof.
  split; [|vm_compute; reflexivity]. apply (Demo.run_reachable references_at_the_limit).
  - unfold references_at_the_limit. apply Forall_app. split; [apply Forall_take, Demo.longest_polite|].
    apply Forall_cons_2, Forall_singleton; apply Demo.text_polite.
  - vm_compute. reflexivity.
Qed.

(** The first check that fails decides alone: an answer of a few characters that skips the tool a
    skill asked for has both findings, its reason is that it is short, and once that came up three
    times it is shown as it is. *)
Definition priced_by_hand : list message := [
  said HumanMessage "What does it cost?" [];
  Message ToolMessage None (Plain "Use run_python_in_sandbox for every price.") [] "c1" (Some "use_skill") "" [];
  said AIMessage "$12.50" []].
Definition hand_priced : State := apply (H := plain_langgraph) new_state
  [Set_messages (Put <$> priced_by_hand); Set_last_retry_reason (Some "too_short"); Set_retry_reason_repeat_count 2].
Lemma short_answer_hides_a_skipped_tool :
  let cfg := mkOutput "You answer questions about the company." true ["run_python_in_sandbox"] in
  let s := from_option (apply (H := plain_langgraph) hand_priced) hand_priced (check_output cfg hand_priced) in
  (output_findings s).*1 = ["too_short"; "skipped_tool"] ∧ route_after_check s = to_retry_exhausted ∧
  retry_exhausted true s = Some [] ∧ m_content <$> last (messages s) = Some (Plain "$12.50").
Proof. vm_compute. done. Qed.

(** A skill search in the same batch counts as one made before it. *)
Lemma search_beside_the_skill_is_enough :
  let batch := [ToolCall "skill_search" (JObj []) "c1"; ToolCall "use_skill" (JObj []) "c2"] in
  let thread := [said HumanMessage "Build an agent." []; Message AIMessage None (Plain "") batch "" None "" []] in
  use_skill_called_without_search batch thread = false.
Proof. vm_compute. reflexivity. Qed.

(** The properties of the parts of a turn: the history that is trimmed, the repetition that is
    noticed, the citations that are repaired, the model it is routed to; and of the circuit breaker around the services. *)

Local Open Scope string_scope.
Local Open Scope list_scope.

(** ** Trimming *)

(** A person's message stands at [i], and no feedback of a check. *)
Definition spoke (messages : list message) (i : nat) : Prop :=
  ∃ m, messages !! i = Some m ∧ m_type m = HumanMessage ∧ truthy (dict_get RETRY_ARTIFACT_KEY (m_kwargs m)) = false.

Lemma spoke_start messages i : spoke messages i ↔ i ∈ turn_starts messages.
Proof.
  rewrite turn_starts_elem. unfold spoke, is_user_message, is_type, is_retry_artifact. split; intros (m & Hm & H); exists m; (split; [done|]).
  - destruct H as [-> ->]. done.
  - apply andb_true_iff in H as [H1%bool_decide_eq_true H2%negb_true_iff]. done.
Qed.

(** What the messages from [i] on weigh: those of the system and the rejected answers with their feedback do not count. *)
Definition weight (tokens : string → Z) (messages : list message) (i : nat) : Z :=
  sumZ (λ m, if decide (m_type m = SystemMessage) then 0%Z else if truthy (dict_get RETRY_ARTIFACT_KEY (m_kwargs m)) then 0%Z
             else tokens (content_str (content_or_empty m))) (drop i messages).

Lemma weight_estimate tokens messages i : _estimate_tokens tokens (non_system (drop i messages)) = weight tokens messages i.
Proof.
  unfold _estimate_tokens, non_system, weight, is_system, is_type, is_retry_artifact. rewrite !sumZ_filter. apply sumZ_ext. intros m _.
  destruct (decide (m_type m = SystemMessage)) as [Hm|Hm].
  - by rewrite decide_False by (by rewrite bool_decide_eq_true_2).
  - rewrite decide_True by (by rewrite bool_decide_eq_false_2). by destruct (truthy _).
Qed.

(** What can be removed by its id *)
Definition goes (m : message) : Prop := m_type m ≠ SystemMessage ∧ m_id m ≠ None.
#[local] Instance goes_decision m : base.Decision (goes m) := ltac:(unfold goes; apply _).
Lemma removable_goes (l : list message) : filter (λ m, removable m = true) l = filter goes l.
Proof.
  apply list_filter_iff. intros m. unfold removable, goes, is_system, is_type. rewrite andb_true_iff, negb_true_iff, bool_decide_eq_false, bool_decide_eq_true. done.
Qed.

(** C28: trimming never touches a history at or under the ceiling, nor one with a single turn.
    Any other history is cut at a message a person sent after their first: at the earliest from which
    what is left fits the floor, or at the last where none does.  What goes is what stands before the cut and can be removed
    by id, and nothing else; so the current turn stays as it is, and two messages of one turn, such
    as a tool call and its result, are on the same side of the cut. *)
Theorem whole_turns_are_trimmed (tokens : string → Z) messages ceiling floor :
  let trimmed := _messages_to_trim tokens messages ceiling floor in
  let fits limit i := (weight tokens messages i ≤ limit)%Z in
  (fits ceiling 0%nat → trimmed = []) ∧
  ((∀ i j, spoke messages i → spoke messages j → i = j) → trimmed = []) ∧
  (∀ first later, ¬ fits ceiling 0%nat → spoke messages first → (∀ i, spoke messages i → (first ≤ i)%nat) →
    spoke messages later → (first < later)%nat →
    ∃ cut, spoke messages cut ∧ (first < cut)%nat ∧
      trimmed = filter goes (take cut messages) ∧
      (∀ j, spoke messages j → (first < j < cut)%nat → ¬ fits floor j) ∧
      (fits floor cut ∨ ∀ j, spoke messages j → (j ≤ cut)%nat) ∧
      current_turn_messages (drop cut messages) = current_turn_messages messages ∧
      (∀ i j, (i < j)%nat → (∀ k, (i < k ≤ j)%nat → ¬ spoke messages k) → (i < cut)%nat ↔ (j < cut)%nat)).
Proof.
  intros trimmed fits. pose proof (spoke_start messages) as Hsp. pose proof (weight_estimate tokens messages) as Hw.
  split; [intros Hc; apply trim_fits; by rewrite Hw|]. split.
  - intros Hone. apply trim_one_turn. intros i j Hi Hj. apply Hone; by apply Hsp.
  - intros first later Hc Hf Hmin Hl Hlt.
    destruct (trim_cuts tokens messages ceiling floor first later) as (cut & m & Hm & Hu & Hfc & E & Hb & Hk); [..|].
    + unfold fits in Hc. rewrite <-Hw, drop_0 in Hc. lia.
    + by apply Hsp.
    + intros j Hj. by apply Hmin, Hsp.
    + by apply Hsp.
    + done.
    + exists cut. unfold fits. rewrite <-Hw. split; [apply Hsp, turn_starts_elem; by exists m|]. split; [done|]. split; [by rewrite <-removable_goes|].
      split; [intros j Hj%Hsp Hj2; specialize (Hb j Hj Hj2); rewrite <-Hw; lia|].
      split; [destruct Hk as [Hk|Hk]; [by left|right; intros j Hj%Hsp; by apply Hk]|]. split; [by eapply current_turn_drop|].
      intros i j Hij Hx. eapply cut_between; [done..|]. intros k x Hk' Hx'. destruct (is_user_message x) eqn:Ex; [|done].
      exfalso. apply (Hx k Hk'), Hsp, turn_starts_elem. by exists x.
Qed.

(** What a ceiling and a floor take of three turns, whose five messages weigh two each *)
Definition three_turns : list message :=
  (λ '(t, id, text), Message t (Some id) (Plain text) [] "" None "" []) <$>
  [(SystemMessage, "0", "be brief"); (HumanMessage, "1", "hi"); (AIMessage, "2", "ho"); (HumanMessage, "3", "hm");
   (AIMessage, "4", "so"); (HumanMessage, "5", "on")].
Example turns_are_trimmed :
  (λ '(ceiling, floor), m_id <$> _messages_to_trim (λ s, Z.of_nat (String.length s)) three_turns ceiling floor) <$> [(10, 0); (9, 6); (9, 5); (9, 0)]%Z =
  [[]; [Some "1"; Some "2"]; [Some "1"; Some "2"; Some "3"; Some "4"]; [Some "1"; Some "2"; Some "3"; Some "4"]].
Proof. vm_compute. reflexivity. Qed.

(** ** Repetition *)

(** Two batches of tool calls have one fingerprint exactly when they are the same calls in some
    order, the arguments being one JSON value in any order of keys; so a turn is stopped for lack of
    progress exactly when its last three batches are the same calls. *)
Theorem repetition_is_the_same_calls messages a b :
  wf_calls a → wf_calls b → Forall wf_calls (_current_turn_tool_call_batches messages) →
  (_tool_call_fingerprint a = _tool_call_fingerprint b ↔ same_calls a b) ∧
  ((MAX_REPEATED_ACTIONS ≤ consecutive_repeat_count messages)%nat ↔
   ∃ latest second third older,
     _current_turn_tool_call_batches messages = latest :: second :: third :: older ∧
     same_calls latest second ∧ same_calls latest third).
Proof.
  intros Ha Hb Hm. split; [by apply fingerprint_same|].
  rewrite (repeats_spec messages MAX_REPEATED_ACTIONS) by (done || unfold MAX_REPEATED_ACTIONS; lia). split.
  - intros (latest & [|second [|third [|]]] & older & E & Hl & Hf); try discriminate Hl.
    inversion Hf as [|? ? H1 Hf']; inversion Hf' as [|? ? H2 _]; subst. by exists latest, second, third, older.
  - intros (latest & second & third & older & E & H1 & H2). exists latest, [second; third], older.
    split; [done|]. split; [done|]. by repeat constructor.
Qed.

(** A search with its arguments in another order. *)
Definition search_ab : list tool_call := [ToolCall "search" (JObj [("a", JInt 1); ("b", JInt 2)]) "c1"].
Definition search_ba : list tool_call := [ToolCall "search" (JObj [("b", JInt 2); ("a", JInt 1)]) "c2"].

Lemma repetition_is_the_same_calls_witness :
  wf_calls search_ab ∧ wf_calls search_ba ∧ same_calls search_ab search_ba.
Proof.
  assert (Ha : wf_calls search_ab) by (constructor; [apply wf_obj; split; [vm_compute; repeat constructor; set_solver|repeat constructor]|constructor]).
  assert (Hb : wf_calls search_ba) by (constructor; [apply wf_obj; split; [vm_compute; repeat constructor; set_solver|repeat constructor]|constructor]).
  split; [exact Ha|]. split; [exact Hb|].
  apply (proj1 (proj1 (repetition_is_the_same_calls [] search_ab search_ba Ha Hb (List.Forall_nil _)))). vm_compute. reflexivity.
Defined.

(** ** The circuit breaker *)

(** C12: whatever calls arrive, fail and succeed, in whatever order and at whatever times, the
    breaker lets a call through exactly when the history says it should: while fewer failures than
    the threshold have come in a row, or as the one call after the cooldown since the last failure.
    It keeps three fields for that, and they always agree with the history. *)
Theorem breaker_keeps_its_promise (cfg : breaker_settings) xs b log :
  history cfg new_breaker [] xs = (b, log) →
  agrees cfg b log ∧ as_promised cfg log ∧
  ∀ now, bool_decide ((_before_call cfg now b).2 = None) = lets_through cfg log now.
Proof.
  intros Hh. destruct (history_agrees cfg xs new_breaker [] b log) as [Ha Hp]; [by split|done|done|].
  split; [done|]. split; [done|]. intros now. pose proof (arrive_agrees cfg b log now Ha) as Hn.
  destruct (_before_call cfg now b) as [b' e]. apply Hn.
Qed.

(** Two failures open it; a call at 5 is refused, the one at 20 is let through, the next is not. *)
Definition outage : list stimulus := [Arrive 0; Arrive 0; Fail_at 1; Fail_at 2; Arrive 5; Arrive 20; Arrive 21].

Lemma breaker_keeps_its_promise_witness :
  let cfg := mkSettings 2 10 in
  let '(b, log) := history cfg new_breaker [] outage in
  log = [Arrived 21 false; Arrived 20 true; Arrived 5 false; Failed 2; Failed 1; Arrived 0 true; Arrived 0 true] ∧
  as_promised cfg log.
Proof.
  intros cfg. destruct (history cfg new_breaker [] outage) as [b log] eqn:E. split.
  - vm_compute in E. injection E as _ <-. reflexivity.
  - exact (proj1 (proj2 (breaker_keeps_its_promise cfg outage b log E))).
Defined.

(** A trial that ends with an exception the caller did not name leaves the breaker half open, and
    then no arrival is ever let through again: neither time nor any number of calls opens it. *)
Lemma breaker_can_stay_half_open (cfg : breaker_settings) fn attempts now later b nows :
  (_before_call cfg now b).2 = None → _state b = OPEN → (0 < attempts)%nat → fn 1%nat = Raised →
  let b' := (call cfg fn attempts now later b).1 in
  _state b' = HALF_OPEN ∧
  Forall (λ e, ∃ t, e = Arrived t false) (history cfg b' [] (Arrive <$> nows)).2.
Proof.
  intros He Ho Ha Hf. unfold call, _before_call in *. rewrite Ho in *. destruct (0 <? _)%Z; [done|]. cbn [snd] in He.
  destruct attempts as [|n]; [lia|]. cbn [_retry]. assert (Hr : retry_from fn 1 n = (Raised, 1%nat)) by (destruct n; cbn; by rewrite Hf).
  rewrite Hr. split; [done|].
  assert (Hl : ∀ log, Forall (λ e, ∃ t, e = Arrived t false) log →
    Forall (λ e, ∃ t, e = Arrived t false) (history cfg (mkBreaker (_consecutive_failures b) (_opened_at b) HALF_OPEN) log (Arrive <$> nows)).2).
  { clear. induction nows as [|t nows IH]; intros log Hl; [done|]. cbn. apply IH. constructor; [by exists t|done]. }
  apply Hl. constructor.
Qed.

(** ** The repair of citations *)

(** The repair of an answer only adds markers: its result is the answer with groups of the
    markers of the citations it reports put in, each after a blank, and nothing taken away or changed;
    it reports exactly the citations found likely uncited, and none means the answer is as it was. *)
Theorem repair_only_adds_markers c citations used :
  let '(c', fixed) := insert_missing_citation_markers c citations used in
  match c with
  | Plain s => fixed = find_likely_uncited c citations used ∧ (fixed = [] → c' = c) ∧
      ∃ s', c' = Plain s' ∧ inserted (c_marker <$> fixed) s s'
  | Parts _ => c' = c ∧ fixed = []
  end.
Proof.
  unfold insert_missing_citation_markers, find_likely_uncited. destruct c as [s|ps]; [|done].
  destruct (_uncited_citation_matches (Plain s) citations used) as [|p matches] eqn:E.
  - split; [done|]. split; [done|]. exists s. split; [done|constructor].
  - split; [done|]. split; [done|]. eexists. split; [done|].
    apply (insert_go_inserted _ s _ 0). apply Forall_forall. intros q Hq%sorted_by_elem.
    pose proof (markers_by_sentence_elem (p :: matches)) as Hm. by eapply Forall_forall in Hm.
Qed.

(** ** The model a turn is routed to *)

(** A turn is routed to a tier above the local model only with the router switched on, never
    above the operator's ceiling, never above what the text and its label ask for, and only to a
    tier with an alias whose price is known or need not be.  When the prices can be read it is the
    highest such tier: a configured tier between it and both bounds was refused for its price. *)
Theorem routing_stays_within_bounds r classify refuse messages :
  let t := route_model r classify refuse messages in
  let text := human_text (last_human_message messages) in
  let asked := asked_tier text (if ROUTER_LABELS r then classify text else None) (ROUTER_LONG_PROMPT_CHARS r) in
  (RANK t ≤ RANK (ROUTER_MAX_TIER r))%nat ∧ (RANK t ≤ RANK asked)%nat ∧
  (t ≠ local → ROUTER_MODE r = router_on ∧
    ∃ alias, tier_alias r (Some (tier_name t)) = Some alias ∧ refuse alias = Some false) ∧
  (ROUTER_MODE r = router_on → nonempty (strip text) = true → (∀ alias, refuse alias ≠ None) →
    ∀ u, u ∈ configured_tiers r → (RANK t < RANK u)%nat → (RANK u ≤ RANK (ROUTER_MAX_TIER r))%nat → (RANK u ≤ RANK asked)%nat →
    refuse (alias_of r u) = Some true).
Proof.
  cbv zeta. unfold route_model, _decide. set (text := human_text _).
  set (label := if ROUTER_LABELS r then classify text else None).
  pose proof (decide_tier_spec text label (ROUTER_MAX_TIER r) (configured_tiers r) (ROUTER_LONG_PROMPT_CHARS r)) as (Hc & Ha & Hd & Hm & _).
  rewrite decide_tier_asked in Ha, Hm.
  destruct (ROUTER_MODE r); [split; [cbn; lia|]; split; [cbn; lia|]; done..|].
  destruct (nonempty (strip text)); cbn [negb]; [|split; [cbn; lia|]; split; [cbn; lia|]; done].
  destruct (priced_tier r refuse 2 _) as [t|] eqn:E.
  - destruct (priced_tier_spec _ _ _ _ Hd E) as (Hl & Ht & Hu).
    rewrite priced_decision. split; [lia|]. split; [lia|]. split.
    + intros Hn. split; [done|]. destruct Ht as [?|[Ht Hr]]; [done|]. exists (alias_of r t). split; [by apply configured_alias|done].
    + intros _ _ _ u Hcu Htu Huc Hua. apply Hu; auto.
  - split; [cbn; lia|]. split; [cbn; lia|]. split; [done|]. intros _ _ Hr. exfalso. by apply (priced_tier_some _ _ _ _ Hr) in E.
Qed.

(** A question whose kind of work asks for the strongest tier, with only the middle one there. *)
Lemma routing_stays_within_bounds_witness :
  let r := mkRouter "medium-chat" "" router_on true strong DEFAULT_LONG_PROMPT_CHARS in
  let asked := [said HumanMessage "May I dismiss her for this?" []] in
  let classify := λ _ : string, Some "high_stakes" in
  let refuse := λ _ : string, Some false in
  route_model r classify refuse asked = medium ∧
  ∃ alias, tier_alias r (Some "medium") = Some alias ∧ refuse alias = Some false.
Proof.
  intros r asked classify refuse.
  assert (E : route_model r classify refuse asked = medium) by (vm_compute; reflexivity).
  split; [exact E|]. pose proof (proj1 (proj2 (proj2 (routing_stays_within_bounds r classify refuse asked)))) as H.
  rewrite E in H. exact (proj2 (H ltac:(discriminate))).
Defined.
