(* ===== verification/ToolCalls.v ===== *)
(** The at-most-once guard on acting tools: [app/core/tool_idempotency.py], the ledger of
    [app/adapters/postgres/tool_idempotency.py], and what the model is told of a failed tool
    ([app/agent/graph/utils.py]).

    A statement that the ledger answers with an error may have taken effect or not; a tool's
    run is a command whose answer is whatever it did. *)
From stdpp Require Import gmap relations.
From S2P Require Import Prelude Process.

Local Open Scope string_scope.
Local Open Scope list_scope.

(** ** The table *)

(** A row of [tool_call_dedup], under its primary key. *)
Record dedup_row : Type := mkRow {
  dr_tenant : string;
  dr_thread_id : option string;
  dr_tool_name : string;
  dr_result : option string;
  dr_created_at : Z;                                  (* microseconds *)
}.
Abbreviation tool_call_dedup := (gmap string dedup_row).

(** ** The commands *)

Inductive cmd : Type → Type :=
| Insert_claim (tool_call_id tenant : string) (thread_id : option string) (tool_name : string) : cmd bool   (* a row was returned *)
| Select_result (tool_call_id : string) : cmd (option (option string))
| Update_result (tool_call_id result : string) : cmd ()
| Delete_older (hours : Z) : cmd Z
| Run_fn : cmd string.                                (* [await fn()] *)
Abbreviation P := (prog cmd).

(** The columns a new row of the table starts with. *)
Definition claim_row (now : Z) (tenant : string) (thread_id : option string) (tool_name : string) : dedup_row :=
  mkRow tenant thread_id tool_name None now.
Definition with_result (result : string) (r : dedup_row) : dedup_row :=
  mkRow (dr_tenant r) (dr_thread_id r) (dr_tool_name r) (Some result) (dr_created_at r).

Definition older (now hours : Z) (r : dedup_row) : Prop := (dr_created_at r < now - hours * 3600000000)%Z.
#[export] Instance older_dec now hours r : Decision (older now hours r) := decide (_ < _)%Z.

(** What a command does to the table, and what it answers when it does not fail.  A tool's run
    is not the table's to answer. *)
Definition after_cmd {R} (now : Z) (t : tool_call_dedup) (c : cmd R) : tool_call_dedup :=
  match c with
  | Insert_claim id tenant thread_id tool_name =>
      match t !! id with Some _ => t | None => <[id := claim_row now tenant thread_id tool_name]> t end
  | Update_result id result => alter (with_result result) id t
  | Delete_older hours => filter (λ '(_, r), ¬ older now hours r) t
  | Select_result _ | Run_fn => t
  end.

Definition answer_of {R} (now : Z) (t : tool_call_dedup) (c : cmd R) (r : R) : Prop :=
  match c in cmd R return R → Prop with
  | Insert_claim id _ _ _ => λ claimed, claimed = bool_decide (t !! id = None)
  | Select_result id => λ row, row = dr_result <$> t !! id
  | Update_result _ _ => λ _, True
  | Delete_older hours => λ n, n = Z.of_nat (size (filter (λ '(_, r), older now hours r) t))
  | Run_fn => λ _, True
  end r.

(** A statement succeeds, or fails before or after its commit. *)
Definition answered {R} (now : Z) (t : tool_call_dedup) (c : cmd R) (r : result exc R) (t' : tool_call_dedup) : Prop :=
  match r with
  | Ok v => answer_of now t c v ∧ t' = after_cmd now t c
  | Err _ => t' = t ∨ t' = after_cmd now t c
  end.

(** ** The ledger *)

Definition claim_or_cached (tool_call_id tenant : string) (thread_id : option string) (tool_name : string) : P (option string) :=
  (claimed ← call (Insert_claim tool_call_id tenant thread_id tool_name);
   if claimed : bool then Ret None else
   row ← call (Select_result tool_call_id);
   Ret (match row with Some result => result | None => None end))%prog.

Definition store_result (tool_call_id result : string) : P () := call (Update_result tool_call_id result).

Definition sweep (older_than_hours : Z) : P Z := call (Delete_older older_than_hours).

(** ** The guard *)

Definition MUTATING_TOOL_TIMED_OUT : string := "MutatingToolTimedOut".

(** The exception raised for a tool that ran into its timeout carries the tool's name. *)
Definition MutatingToolTimedOut (tool_name : string) : exc := Exc MUTATING_TOOL_TIMED_OUT tool_name.

Definition is_timeout (e : exc) : bool := bool_decide (exc_class e = "TimeoutError").

(** [ctx["tenant"]] and the thread of the request's config are arguments. *)
Definition idempotent (tool_call_id tenant : string) (thread_id : option string) (tool_name : string) : P string :=
  (cached ← catch_exception (cached ← claim_or_cached tool_call_id tenant thread_id tool_name; Ret (Some cached)) (λ _, Ret None);
   match cached with
   | None => call Run_fn
   | Some (Some cached) => Ret cached
   | Some None =>
       result ← catch (call Run_fn) (λ e, Throw (if is_timeout e then MutatingToolTimedOut tool_name else e));
       catch_exception (store_result tool_call_id result) (λ _, Ret ());;
       Ret result
   end)%prog.

Definition sweep_stale_rows (older_than_hours : Z) : P Z := sweep older_than_hours.

(** What a tool's exception is turned into for the model; [is_store_error] is the test for the
    database drivers' classes. *)
Definition friendly_tool_error (is_store_error : exc → bool) (error : exc) : string :=
  if bool_decide (exc_class error = MUTATING_TOOL_TIMED_OUT) then
    exc_text error +:+
    " timed out, but its effect may already have been applied on the far side of that timeout before this failure was reported. Do NOT blindly call it again with the same arguments — a retry would run under a brand new call id, invisible to this app's own duplicate-call detection. First check whether it already happened, using a read-only tool for this domain (e.g. a status/list tool), and only retry if it clearly did not."
  else if is_store_error error then
    "Tool failed (" +:+ exc_class error +:+
    "): the data store rejected a valid request, so this is a fault on the service's side and not in your arguments. Do not retry it or try another query. Tell the person plainly that this lookup is unavailable right now."
  else "Tool failed (" +:+ exc_class error +:+ ": " +:+ exc_text error +:+ "). Try a different approach.".

(** ** Attempts *)

(** What a coroutine did until it ended or was lost: its commands so far, and what it ended
    with, if it did. *)
Fixpoint begun {A} (p : P A) (tr : list (step cmd)) : Prop :=
  match tr with
  | [] => True
  | s :: tr =>
      match p with
      | Do c k => ∃ r, s = Step c r ∧ begun (k r) tr
      | Ret _ | Throw _ => False
      end
  end.

Definition part {A} (p : P A) (tr : list (step cmd)) (out : option (result exc A)) : Prop :=
  match out with Some out => path p tr out | None => begun p tr end.

(** The commands of one attempt over the table, with what other calls do to it in between:
    anything that leaves the row of [tool_call_id] as it is. *)
Inductive replay (tool_call_id : string) : tool_call_dedup → list (step cmd) → tool_call_dedup → Prop :=
| replay_nil t : replay tool_call_id t [] t
| replay_others t t1 tr t' :
    t1 !! tool_call_id = t !! tool_call_id → replay tool_call_id t1 tr t' → replay tool_call_id t tr t'
| replay_command t now R (c : cmd R) r t1 tr t' :
    answered now t c r t1 → replay tool_call_id t1 tr t' → replay tool_call_id t (Step c r :: tr) t'.

(** One attempt at a tool call. *)
Record attempt : Type := mkAttempt {
  at_tenant : string;
  at_thread_id : option string;
  at_tool_name : string;
  at_trace : list (step cmd);
  at_out : option (result exc string);
}.

(** Attempts at one tool call, each after the one before: the lock of the conversation keeps
    them apart. *)
Inductive history (tool_call_id : string) : tool_call_dedup → list attempt → tool_call_dedup → Prop :=
| history_nil t : history tool_call_id t [] t
| history_cons t a t1 h t' :
    part (idempotent tool_call_id (at_tenant a) (at_thread_id a) (at_tool_name a)) (at_trace a) (at_out a) →
    replay tool_call_id t (at_trace a) t1 → history tool_call_id t1 h t' → history tool_call_id t (a :: h) t'.

Definition is_fn {R} (c : cmd R) : bool := match c with Run_fn => true | _ => false end.
Definition is_err {R} (r : result exc R) : bool := match r with Err _ => true | Ok _ => false end.

(** The tool ran; a statement of the ledger failed. *)
Definition ran_fn (s : step cmd) : bool := is_fn (st_cmd s).
Definition ledger_failed (s : step cmd) : bool := negb (is_fn (st_cmd s)) && is_err (st_answer s).

(** The results an attempt asked the ledger to keep. *)
Definition kept_result (s : step cmd) : option string := match st_cmd s with Update_result _ v => Some v | _ => None end.
Definition kept_results (a : attempt) : list string := omap kept_result (at_trace a).

(** An attempt whose result [v] the ledger said it keeps. *)
Definition result_stored (tr : list (step cmd)) (v : string) : Prop :=
  Exists (λ s, kept_result s = Some v ∧ is_err (st_answer s) = false) tr.

(** ** Facts *)

Lemma part_do {A} R (c : cmd R) (k : result exc R → P A) tr out :
  part (Do c k) tr out → (tr = [] ∧ out = None) ∨ ∃ r tr', tr = Step c r :: tr' ∧ part (k r) tr' out.
Proof.
  destruct out as [out|], tr as [|s tr]; cbn; try done; [|by left|]; intros (r & -> & Hp); right; by exists r, tr.
Qed.

Lemma part_end {A} (p : P A) tr out :
  match p with Do _ _ => False | _ => True end → part p tr out →
  tr = [] ∧ (out = None ∨ out = Some (match p with Ret a => Ok a | Throw e => Err e | Do _ _ => Err (Exc "" "") end)).
Proof.
  destruct p; try done; intros _; destruct out as [out|], tr; cbn; naive_solver.
Qed.

(** The row of the call has a result, one of [W]. *)
Definition has_result (id : string) (W : list string) (t : tool_call_dedup) : Prop :=
  ∃ r w, t !! id = Some r ∧ dr_result r = Some w ∧ w ∈ W.

(** The commands of the guard. *)
Definition guards (id : string) (s : step cmd) : Prop :=
  match st_cmd s with
  | Insert_claim i _ _ _ | Select_result i | Update_result i _ => i = id
  | Delete_older _ => False
  | Run_fn => True
  end.

Lemma answered_row {R} id now t (c : cmd R) r t' :
  guards id (Step c r) → answered now t c r t' →
  match c with
  | Update_result _ v => t' !! id = t !! id ∨ t' !! id = with_result v <$> t !! id
  | Insert_claim _ _ _ _ => ∀ row, t !! id = Some row → t' !! id = Some row
  | _ => t' !! id = t !! id
  end.
Proof.
  intros Hg Ha. assert (Ht : t' = t ∨ t' = after_cmd now t c) by (destruct r; [destruct Ha; by right|done]).
  clear Ha. destruct c; cbn in Hg, Ht |- *; subst; try done; destruct Ht as [->| ->]; auto.
  - intros row E. by rewrite E.
  - right. apply lookup_alter_eq.
Qed.

Lemma replay_result id W t tr t' :
  Forall (guards id) tr → has_result id W t → replay id t tr t' → has_result id (W ++ omap kept_result tr) t'.
Proof.
  intros Hg Hr Ht. revert W Hr. induction Ht as [t|t t1 tr t' E Ht IH|t now R c r t1 tr t' Ha Ht IH]; intros W (row & w & Hl & Hd & Hw).
  - exists row, w. by rewrite app_nil_r.
  - apply IH; [done|]. exists row, w. by rewrite E.
  - inversion_clear Hg as [|? ? Hg1 Hg2]. pose proof (answered_row _ _ _ _ _ _ Hg1 Ha) as Hrow.
    assert (Hn : has_result id (W ++ option_list (kept_result (Step c r))) t1).
    { destruct c; cbn [kept_result st_cmd option_list] in Hrow |- *; rewrite ?app_nil_r;
      try (exists row, w; by rewrite ?Hrow; auto).
      destruct Hrow as [E|E].
      - exists row, w. rewrite E. split; [done|]. split; [done|]. apply elem_of_app. by left.
      - exists (with_result result row), result. rewrite E, Hl. split; [done|]. split; [done|]. set_solver. }
    specialize (IH Hg2 _ Hn). rewrite <-app_assoc in IH. cbn [omap list_omap]. by destruct (kept_result (Step c r)).
Qed.

(** The commands of an attempt, one after the other, with their answers. *)
Ltac unfold_attempt Hp :=
  unfold idempotent, claim_or_cached, store_result, call in Hp; cbn in Hp;
  repeat match type of Hp with
  | part (Do _ _) _ _ =>
      let r := fresh "r" in let tr := fresh "tr" in
      apply part_do in Hp as [[-> ->]|(r & tr & -> & Hp)]; [|destruct r as [?|?]; cbn in Hp]
  | part (Ret _) _ _ => apply part_end in Hp as [-> Hp]; [|done]; cbn in Hp
  | part (Throw _) _ _ => apply part_end in Hp as [-> Hp]; [|done]; cbn in Hp
  | part (Process.bind (match ?x with _ => _ end) _) _ _ => destruct x eqn:?; cbn in Hp
  | part (match ?x with _ => _ end) _ _ => destruct x eqn:?; cbn in Hp
  | context [match ?x with _ => _ end] => destruct x eqn:?; cbn in Hp
  end.

Lemma idempotent_guards id tenant thread tool tr out : part (idempotent id tenant thread tool) tr out → Forall (guards id) tr.
Proof.
  intros Hp. unfold_attempt Hp; repeat (apply Forall_cons; split; [done|]); try apply Forall_nil_2.
Qed.

Lemma replay_cons id t s tr t' :
  replay id t (s :: tr) t' →
  ∃ t0 now t1, t0 !! id = t !! id ∧ answered now t0 (st_cmd s) (st_answer s) t1 ∧ replay id t1 tr t'.
Proof.
  remember (s :: tr) as str eqn:E. intros Ht. induction Ht as [|t t1 tr1 t' El Ht IH|t now R c r t1 tr1 t' Ha Ht _]; [done| |].
  - destruct (IH E) as (t0 & now & t2 & E0 & Ha & Hr). exists t0, now, t2. by rewrite E0, El.
  - injection E as <- <-. by exists t, now, t1.
Qed.

Lemma answered_keeps_row {R} id now t (c : cmd R) r t' :
  guards id (Step c r) → answered now t c r t' → is_Some (t !! id) → is_Some (t' !! id).
Proof.
  intros Hg Ha Hs. pose proof (answered_row _ _ _ _ _ _ Hg Ha) as Hr. destruct c; cbn in Hr; rewrite ?Hr; try done.
  - destruct Hs as [row E]. exists row. by apply Hr.
  - destruct Hr as [-> | ->]; [done|]. by apply fmap_is_Some.
Qed.

(** A claim that was answered leaves the call a row. *)
Lemma claimed_row id now t tenant thread tool b t' :
  answered now t (Insert_claim id tenant thread tool) (Ok b) t' → is_Some (t' !! id).
Proof. intros [_ ->]. cbn. destruct (t !! id) eqn:E; [by rewrite E|]. by rewrite lookup_insert_eq. Qed.

Lemma stored_shape id tenant thread tool tr out v :
  part (idempotent id tenant thread tool) tr out → result_stored tr v →
  ∃ b mid, tr = Step (Insert_claim id tenant thread tool) (Ok b) :: mid ++ [Step (Update_result id v) (Ok ())].
Proof.
  intros Hp Hs. unfold result_stored in Hs. unfold_attempt Hp;
  repeat (apply Exists_cons in Hs as [[Hk He]|Hs]; cbn in *; simplify_eq/=); try (by apply Exists_nil in Hs).
  all: repeat match goal with a : () |- _ => destruct a end.
  - eexists true, [_]. reflexivity.
  - eexists false, [_; _]. reflexivity.
Qed.

(** A stored result is in the row of the call afterwards. *)
Lemma stored_has_result id tenant thread tool tr out v t t' :
  part (idempotent id tenant thread tool) tr out → result_stored tr v → replay id t tr t' → has_result id [v] t'.
Proof.
  intros Hp Hs Hr. pose proof (idempotent_guards _ _ _ _ _ _ Hp) as Hg.
  destruct (stored_shape _ _ _ _ _ _ _ Hp Hs) as (b & mid & ->). clear Hp Hs.
  apply replay_cons in Hr as (t0 & now & t1 & _ & Ha & Hr). apply claimed_row in Ha. clear t t0 now.
  apply Forall_cons in Hg as [_ Hg]. revert t1 Ha Hr. induction mid as [|s mid IH]; intros t1 Ha Hr.
  - apply replay_cons in Hr as (t0 & now & t2 & E & [_ ->] & Hr). destruct Ha as [row Ha]. rewrite <-E in Ha.
    assert (Hh : has_result id [v] (alter (with_result v) id t0)).
    { exists (with_result v row), v. rewrite lookup_alter_eq, Ha. set_solver. }
    by apply (replay_result id [v] _ [] t' (Forall_nil_2 _)) in Hh.
  - cbn in Hg, Hr. apply Forall_cons in Hg as [Hs Hg]. apply replay_cons in Hr as (t0 & now & t2 & E & Ha' & Hr).
    apply (IH Hg t2); [|done]. apply (answered_keeps_row _ _ _ _ _ _ Hs Ha'). by rewrite E.
Qed.

(** Over a row with a result, an attempt the ledger serves does not run the tool. *)
Lemma served_attempt id tenant thread tool tr out W t t' :
  part (idempotent id tenant thread tool) tr out → replay id t tr t' → has_result id W t →
  Forall (λ s, ledger_failed s = false) tr →
  Forall (λ s, ran_fn s = false) tr ∧ ∀ o, out = Some o → ∃ w, w ∈ W ∧ o = Ok w.
Proof.
  intros Hp Hr (row & w & El & Ed & Hw) Hf. unfold idempotent, claim_or_cached, call in Hp. cbn in Hp.
  apply part_do in Hp as [[-> ->]|(r & tr1 & -> & Hp)]; [done|].
  apply replay_cons in Hr as (t0 & now & t1 & E & Ha & Hr). apply Forall_cons in Hf as [Hf1 Hf]. destruct r as [b|e]; [|done].
  destruct Ha as [-> ->]. cbn in Hp, Hr. rewrite E, El in Hr. rewrite bool_decide_eq_false_2 in Hp by by rewrite E, El.
  apply part_do in Hp as [[-> ->]|(r & tr2 & -> & Hp)]; [split; [by repeat constructor|done]|].
  apply replay_cons in Hr as (t2 & now' & t3 & E' & Ha & Hr). apply Forall_cons in Hf as [Hf2 Hf]. destruct r as [v|e]; [|done].
  destruct Ha as [-> _]. cbn in Hp. rewrite E', E, El in Hp. cbn in Hp. rewrite Ed in Hp.
  apply part_end in Hp as [-> Ho]; [|done]. split; [by repeat constructor|]. intros o ->. destruct Ho as [|[= ->]]; [done|by exists w].
Qed.

Lemma history_app id t h h' t' : history id t (h ++ h') t' ↔ ∃ t1, history id t h t1 ∧ history id t1 h' t'.
Proof.
  revert t. induction h as [|a h IH]; intros t; cbn.
  - split; [intros Hh; exists t; split; [constructor|done]|]. intros (t1 & Hh & Hh'). by inversion Hh.
  - split.
    + inversion_clear 1 as [|? ? t1 ? ? Hp Hr Hh]. apply IH in Hh as (t2 & H1 & H2). exists t2. split; [by econstructor|done].
    + intros (t2 & Hh & Hh'). inversion_clear Hh as [|? ? t1 ? ? Hp Hr Hh1]. econstructor; [done..|]. apply IH. by exists t2.
Qed.

Lemma history_result id W t h t' :
  has_result id W t → history id t h t' → has_result id (W ++ (h ≫= kept_results)) t'.
Proof.
  intros Hr Hh. revert W Hr. induction Hh as [t|t a t1 h t' Hp Ha _ IH]; intros W Hr; cbn; [by rewrite app_nil_r|].
  rewrite app_assoc. apply IH. eapply replay_result; [by eapply idempotent_guards|done..].
Qed.
