(* ===== verification/ToolTheorems.v ===== *)
(** The properties of the at-most-once guard on acting tools, and what modelling it showed. *)
From stdpp Require Import gmap relations.
From S2P Require Import Prelude Process ToolCalls.

Local Open Scope string_scope.
Local Open Scope list_scope.

(** C21: once an attempt at a tool call was told that its result is kept, no later attempt at the
    same call runs the tool again, as long as the ledger answers it: it ends, if it is not lost,
    with the result that was kept.  This holds however the attempts before, between and after end
    or are lost, whichever statements fail for them, and whatever other calls do to the table. *)
Theorem acting_tool_runs_once id t h a h' b h'' v t' :
  history id t (h ++ a :: h' ++ b :: h'') t' → result_stored (at_trace a) v →
  Forall (λ s, ledger_failed s = false) (at_trace b) →
  Forall (λ s, ran_fn s = false) (at_trace b) ∧
  ∀ o, at_out b = Some o → ∃ w, o = Ok w ∧ w ∈ v :: (h' ≫= kept_results).
Proof.
  intros (t1 & _ & H1)%history_app Hs Hf. inversion_clear H1 as [|? ? t2 ? ? Hp Hr H2].
  apply history_app in H2 as (t3 & H3 & H4). inversion_clear H4 as [|? ? t4 ? ? Hpb Hrb _].
  pose proof (stored_has_result _ _ _ _ _ _ _ _ _ Hp Hs Hr) as Hv. pose proof (history_result _ _ _ _ _ Hv H3) as Hw.
  destruct (served_attempt _ _ _ _ _ _ _ _ _ Hpb Hrb Hw Hf) as [Hn Ho]. split; [done|].
  intros o E. destruct (Ho o E) as (w & Hin & ->). by exists w.
Qed.

(** An e-mail that is sent, and the call delivered again. *)
Definition sent_once : attempt := mkAttempt "acme" (Some "t1") "send_email"
  [Step (Insert_claim "c1" "acme" (Some "t1") "send_email") (Ok true); Step Run_fn (Ok "Sent."); Step (Update_result "c1" "Sent.") (Ok ())]
  (Some (Ok "Sent.")).
Definition delivered_again : attempt := mkAttempt "acme" (Some "t1") "send_email"
  [Step (Insert_claim "c1" "acme" (Some "t1") "send_email") (Ok false); Step (Select_result "c1") (Ok (Some (Some "Sent.")))]
  (Some (Ok "Sent.")).

(** A path is a replay of itself over the table when every answer is the table's own. *)
Ltac replays := repeat (eapply replay_command with (now := 0%Z); [split; [vm_compute; reflexivity|reflexivity]|]); apply replay_nil.

Lemma acting_tool_runs_once_witness :
  ∃ t', history "c1" ∅ ([] ++ sent_once :: [] ++ delivered_again :: []) t' ∧ result_stored (at_trace sent_once) "Sent." ∧
  Forall (λ s, ran_fn s = false) (at_trace delivered_again).
Proof.
  set (t1 := <["c1" := mkRow "acme" (Some "t1") "send_email" (Some "Sent.") 0%Z]> (∅ : tool_call_dedup)).
  assert (Hh : history "c1" ∅ ([] ++ sent_once :: [] ++ delivered_again :: []) t1).
  { cbn [app]. apply (history_cons _ _ _ t1).
    - cbn. repeat (eexists; split; [reflexivity|]). by split.
    - unfold sent_once; cbn [at_trace]. replays.
    - apply (history_cons _ _ _ t1).
      + cbn. repeat (eexists; split; [reflexivity|]). by split.
      + unfold delivered_again; cbn [at_trace]. replays.
      + apply history_nil. }
  assert (Hs : result_stored (at_trace sent_once) "Sent.") by (unfold result_stored; cbn; apply Exists_cons_tl, Exists_cons_tl, Exists_cons_hd; done).
  exists t1. split; [exact Hh|]. split; [exact Hs|].
  exact (proj1 (acting_tool_runs_once "c1" ∅ [] sent_once [] delivered_again [] "Sent." t1 Hh Hs ltac:(repeat constructor))).
Defined.

Ltac in_trace := first [apply list_elem_of_here | apply list_elem_of_further; in_trace].

(** The guard never runs a tool twice in one attempt, and never fails by itself: what it ends with is
    the tool's answer, the answer the ledger kept, or the tool's own exception, by the name of a
    timeout whose effect is unknown when it was one; or it was cancelled while it waited for the ledger. *)
Lemma guard_adds_no_failure id tenant thread tool tr out :
  path (idempotent id tenant thread tool) tr out →
  (length (filter (λ s, ran_fn s = true) tr) ≤ 1)%nat ∧
  match out with
  | Ok v => Step Run_fn (Ok v) ∈ tr ∨ Step (Select_result id) (Ok (Some (Some v))) ∈ tr
  | Err e => (∃ e', Step Run_fn (Err e') ∈ tr ∧ (e = e' ∨ is_timeout e' = true ∧ e = MutatingToolTimedOut tool)) ∨
      base_exception e = true ∧ Exists (λ s, ledger_failed s = true) tr
  end.
Proof.
  intros Hp. assert (∃ o, o = Some out ∧ part (idempotent id tenant thread tool) tr o) as (o & Ho & Hq) by by exists (Some out).
  clear Hp. unfold_attempt Hq; try done; destruct Hq as [-> | ->]; try done; injection Ho as <-; (split; [vm_compute; lia|]).
  all: repeat case_match; simplify_eq.
  all: first [left; in_trace | right; in_trace | left; eexists; split; [in_trace|tauto]
    | right; split; [assumption|repeat first [apply Exists_cons_hd; reflexivity|apply Exists_cons_tl]]].
Qed.

(** ** What modelling it showed *)

(** A worker that is lost after the tool did its work and before the result was kept: the call
    delivered again runs the tool again, although the ledger answered everything. *)
Lemma lost_after_the_effect_runs_twice :
  let lost := mkAttempt "acme" (Some "t1") "send_email"
    [Step (Insert_claim "c1" "acme" (Some "t1") "send_email") (Ok true); Step Run_fn (Ok "Sent.")] None in
  let again := mkAttempt "acme" (Some "t1") "send_email"
    [Step (Insert_claim "c1" "acme" (Some "t1") "send_email") (Ok false); Step (Select_result "c1") (Ok (Some None));
     Step Run_fn (Ok "Sent."); Step (Update_result "c1" "Sent.") (Ok ())] (Some (Ok "Sent.")) in
  ∃ t', history "c1" ∅ [lost; again] t' ∧ Forall (λ a, Forall (λ s, ledger_failed s = false) (at_trace a)) [lost; again].
Proof.
  intros lost again. eexists. split; [|repeat constructor].
  apply (history_cons _ _ _ (<["c1" := mkRow "acme" (Some "t1") "send_email" None 0%Z]> ∅)).
  - cbn. repeat (eexists; split; [reflexivity|]). done.
  - unfold lost; cbn [at_trace]. replays.
  - eapply history_cons; [| |apply history_nil].
    + cbn. repeat (eexists; split; [reflexivity|]). by split.
    + unfold again; cbn [at_trace]. replays.
Qed.

(** While the ledger is down, a tool that ran into its timeout is reported as any other failure:
    the model is told to try again, not to look whether the effect is there. *)
Lemma degraded_timeout_invites_a_retry id tenant thread tool e text :
  let timeout := Exc "TimeoutError" text in
  (base_exception e = false →
   path (idempotent id tenant thread tool) [Step (Insert_claim id tenant thread tool) (Err e); Step Run_fn (Err timeout)] (Err timeout)) ∧
  friendly_tool_error (λ _, false) timeout = "Tool failed (TimeoutError: " +:+ text +:+ "). Try a different approach." ∧
  path (idempotent id tenant thread tool)
    [Step (Insert_claim id tenant thread tool) (Ok true); Step Run_fn (Err timeout)] (Err (MutatingToolTimedOut tool)).
Proof.
  intros timeout. split_and!; [|done|].
  - intros Hb. unfold idempotent, catch_exception. cbn -[base_exception]. eexists. split; [reflexivity|]. cbn -[base_exception]. rewrite Hb.
    cbn. repeat (eexists; split; [reflexivity|]). by split.
  - cbn. repeat (eexists; split; [reflexivity|]). by split.
Qed.
