(* ===== verification/Budgets.v ===== *)
(** The spend allowance: may this caller start another turn?  [app/agent/cost/budgets.py], with
    [budget_holds.py], [budget_policies.py], [spend.py] and the questions
    [app/agent/runtime/core.py] asks of them before a turn.

    The stores, the credit gate (whose decision is [Usage.admit_tenant]) and the clock are
    commands; a store that cannot be reached answers with an exception.  Dollars are binary64
    numbers, times microseconds.  What is only counted or logged (thresholds, failures) is left
    out. *)
From Stdlib Require Import SpecFloat.
From stdpp Require Import gmap.
From S2P Require Import Prelude Dict Json Calendar Decimals Usage Text Messages Process Jobs AgentState.

Local Open Scope string_scope.
Local Open Scope list_scope.

(** Python's [-1.0]. *)
Definition minus_one : float := S754_finite true 4503599627370496 (-52).

(** ** Limits *)

Inductive Scope : Type := S_tenant | S_principal.
Inductive Window : Type := W_day | W_month.
#[export] Instance Scope_eq_dec : EqDecision Scope.
Proof. solve_decision. Defined.
#[export] Instance Window_eq_dec : EqDecision Window.
Proof. solve_decision. Defined.

Definition scope_name (s : Scope) : string := match s with S_tenant => "tenant" | S_principal => "principal" end.
Definition window_name (w : Window) : string := match w with W_day => "day" | W_month => "month" end.
Definition _WINDOW_WORD (w : Window) : string := match w with W_day => "daily" | W_month => "monthly" end.

Definition DAILY_WINDOW : Z := hours 24.
Definition TENANT_SUBJECT : string := "".
Definition ALL_PRINCIPALS : string := "*".
Definition PERIODS : list string := ["day"; "month"].

Record BudgetLimit : Type := mkLimit { bl_scope : Scope; bl_window : Window; bl_limit_usd : float }.

Record Override : Type := mkOverride { ov_subject : string; ov_period : string; ov_limit_usd : option float }.

(** [now] in UTC. *)
Definition window_start (w : Window) (now : Z) : Z :=
  match w with
  | W_day => now - DAILY_WINDOW
  | W_month => let d := date_of now in days_from_civil (Date (year d) (month d) 1) * us_per_day
  end.

Definition window_resets_at (w : Window) (now : Z) : option Z :=
  match w with
  | W_day => None
  | W_month =>
      let first := date_of (window_start W_month now) in
      let next := if Z.eqb (month first) 12 then Date (year first + 1) 1 1 else Date (year first) (month first + 1) 1 in
      Some (days_from_civil next * us_per_day)%Z
  end.

Record Defaults : Type := mkDefaults {
  tenant_day : float;
  tenant_month : float;
  principal_day : float;
  principal_month : float;
}.

(** [by_key.get((subject, period))] of the rows: the last row of a key counts. *)
Definition by_key (overrides : list Override) (subject : string) (period : string) : option Override :=
  List.find (λ o, String.eqb (ov_subject o) subject && String.eqb (ov_period o) period) (reverse overrides).

(** The value of one limit: by the first subject that has a row, else the default. *)
Fixpoint limit_value (overrides : list Override) (w : Window) (subjects : list string) (default : option float) : option float :=
  match subjects with
  | [] => default
  | subject :: subjects =>
      match by_key overrides subject (window_name w) with
      | Some row => ov_limit_usd row
      | None => limit_value overrides w subjects default
      end
  end.

Definition resolve_one (overrides : list Override) (scope : Scope) (w : Window) (subjects : list string) (default : float) (always : bool) : list BudgetLimit :=
  match limit_value overrides w subjects (if always || fgt default fzero then Some default else None) with
  | Some value => [mkLimit scope w value]
  | None => []
  end.

Definition resolve_limits (defaults : Defaults) (overrides : list Override) (principal : string) : list BudgetLimit :=
  resolve_one overrides S_tenant W_day [TENANT_SUBJECT] (tenant_day defaults) true ++
  resolve_one overrides S_tenant W_month [TENANT_SUBJECT] (tenant_month defaults) false ++
  resolve_one overrides S_principal W_day [principal; ALL_PRINCIPALS] (principal_day defaults) false ++
  resolve_one overrides S_principal W_month [principal; ALL_PRINCIPALS] (principal_month defaults) false.

Definition configured_limits (defaults : Defaults) : list BudgetLimit := resolve_limits defaults [] "".

(** ** The commands *)

Inductive cmd : Type → Type :=
| For_person (tenant principal : string) : cmd (list Override)
| For_tenant (tenant : string) : cmd (list Override)
| Upsert_policy (tenant subject period : string) (limit_usd : option float) (updated_by : string) : cmd ()
| Delete_policy (tenant subject period : string) : cmd bool
| Monotonic : cmd Z
| Cache_get (tenant principal : string) : cmd (option (Z * list Override))         (* this process's [_cache] *)
| Cache_put (tenant principal : string) (at_time : Z) (rows : list Override) : cmd ()   (* cleared first when full *)
| Cache_clear : cmd ()
| Totals (tenant : string) (principal : option string) (since : Z) : cmd float     (* dollars of the usage events *)
| Uuid4 : cmd string
| Reserve (tenant hold_id : string) (amount_usd : float) (stale_after_minutes : Z) : cmd ()
| Release (tenant hold_id : string) : cmd ()
| In_flight (tenant : string) (stale_after_minutes : Z) : cmd float
| Admit (tenant : string) : cmd (option admission)                                 (* nothing: the gate asks for the holds *)
| Admit_with (tenant : string) (reserved_usd : float) : cmd admission
| Refuse_unpriced : cmd bool.                                                      (* of the chat model *)
Abbreviation P := (prog cmd).

(** ** Holds *)

Definition RESERVATION_STALE_AFTER_MINUTES : Z := 5.

Definition reserve_budget (ctx : option SecurityCtx) (amount_usd : float) : P (option string) :=
  match ctx with
  | Some c =>
      if negb (valid_ctx ctx) || fge fzero amount_usd then Ret None else
      (hold_id ← call Uuid4;
       catch_exception (call (Reserve (sc_tenant c) hold_id amount_usd RESERVATION_STALE_AFTER_MINUTES);; Ret (Some hold_id)) (λ _, Ret None))%prog
  | None => Ret None
  end.

Definition release_budget_reservation (ctx : option SecurityCtx) (hold_id : option string) : P () :=
  match ctx, hold_id with
  | Some c, Some hold_id =>
      if negb (valid_ctx ctx) || negb (nonempty hold_id) then Ret () else
      catch_exception (call (Release (sc_tenant c) hold_id)) (λ _, Ret ())
  | _, _ => Ret ()
  end.

Definition in_flight_reservation (tenant : string) : P float :=
  catch_exception (call (In_flight tenant RESERVATION_STALE_AFTER_MINUTES)) (λ _, Ret fzero).

(** ** Overrides *)

(** The rows of the cache, when they are not too old. *)
Definition fresh_rows (refresh_seconds now : Z) (cached : option (Z * list Override)) : option (list Override) :=
  match cached with
  | Some (at_time, rows) => if (now - at_time <? refresh_seconds * us_per_second)%Z then Some rows else None
  | None => None
  end.

Definition overrides_for (BUDGET_POLICY_REFRESH_SECONDS : Z) (tenant principal : string) : P (list Override) :=
  (now ← call Monotonic;
   cached ← call (Cache_get tenant principal);
   match fresh_rows BUDGET_POLICY_REFRESH_SECONDS now cached with
   | Some rows => Ret rows
   | None =>
       read ← catch (rows ← call (For_person tenant principal); Ret (Some rows))
         (λ e, if bool_decide (exc_class e = "PolicyTableMissing") then Ret None else Throw e);
       match read with
       | None => Ret []
       | Some rows => call (Cache_put tenant principal now rows);; Ret rows
       end
   end)%prog.

Definition list_overrides (tenant : string) : P (list Override) := call (For_tenant tenant).

Definition ValueError (text : string) : exc := Exc "ValueError" text.

Definition set_override (tenant subject period : string) (limit_usd : option float) (updated_by : string) : P () :=
  if negb (bool_decide (period ∈ PERIODS)) then Throw (ValueError "period") else
  if match limit_usd with Some v => fgt fzero v | None => false end then Throw (ValueError "limit_usd must be >= 0, or None for no cap") else
  if negb (nonempty tenant) || negb (nonempty updated_by) then Throw (ValueError "tenant and updated_by are required") else
  (call (Upsert_policy tenant subject period limit_usd updated_by);; call Cache_clear)%prog.

Definition clear_override (tenant subject period : string) : P bool :=
  (deleted ← call (Delete_policy tenant subject period); call Cache_clear;; Ret deleted)%prog.

(** ** The allowance *)

Inductive allowance_status : Type := A_ok | A_exceeded | A_unavailable | A_insufficient_credits.
#[export] Instance allowance_status_eq_dec : EqDecision allowance_status.
Proof. solve_decision. Defined.

Record Allowance : Type := mkAllowance {
  al_status : allowance_status;
  al_scope : Scope;
  al_window : Window;
  al_spent_usd : float;
  al_reserved_usd : float;
  al_limit_usd : float;
  al_resets_at : option Z;
  al_degraded : bool;
  al_available_credits : option Z;
  al_reserved_credits : option Z;
}.

(** [Allowance(status)] *)
Definition plain (status : allowance_status) : Allowance := mkAllowance status S_tenant W_day fzero fzero fzero None false None None.
(** [replace(allowance, degraded=True)] *)
Definition degrade (a : Allowance) : Allowance :=
  mkAllowance (al_status a) (al_scope a) (al_window a) (al_spent_usd a) (al_reserved_usd a) (al_limit_usd a) (al_resets_at a) true
    (al_available_credits a) (al_reserved_credits a).
Definition al_refused (a : Allowance) : bool := negb (bool_decide (al_status a = A_ok)).

(** The figures of one limit. *)
Definition figures (status : allowance_status) (now : Z) (limit : BudgetLimit) (spent reserved : float) : Allowance :=
  mkAllowance status (bl_scope limit) (bl_window limit) spent reserved (bl_limit_usd limit) (window_resets_at (bl_window limit) now) false None None.

Definition usage_summary (tenant : string) (principal : option string) (since : Z) : P float := call (Totals tenant principal since).

Definition _spend (limit : BudgetLimit) (c : SecurityCtx) (now : Z) : P (float * float) :=
  (spent ← usage_summary (sc_tenant c) (if bool_decide (bl_scope limit = S_principal) then Some (sc_principal c) else None)
     (window_start (bl_window limit) now);
   reserved ← (if bool_decide (bl_scope limit = S_tenant) then in_flight_reservation (sc_tenant c) else Ret fzero);
   Ret (spent, reserved))%prog.

Fixpoint read_spends (limits : list BudgetLimit) (c : SecurityCtx) (now : Z) : P (list (BudgetLimit * (float * float))) :=
  match limits with
  | [] => Ret []
  | limit :: limits =>
      (spend ← _spend limit c now; spends ← read_spends limits c now; Ret ((limit, spend) :: spends))%prog
  end.

Definition over (x : BudgetLimit * (float * float)) : bool := fge (fadd x.2.1 x.2.2) (bl_limit_usd x.1).

(** A refusal, and whether the wallet could not be read and the turn is served anyway. *)
Definition _credit_check (c : SecurityCtx) : P (option Allowance * bool) :=
  (answer ← call (Admit (sc_tenant c));
   admission ← match answer with
     | Some admission => Ret admission
     | None => reserved ← in_flight_reservation (sc_tenant c); call (Admit_with (sc_tenant c) reserved)
     end;
   Ret (match ad_status admission with
     | Exhausted => (Some (mkAllowance A_insufficient_credits S_tenant W_day fzero fzero fzero None false (ad_available admission) (ad_reserved admission)), false)
     | Unavailable => (Some (plain A_unavailable), false)
     | Degraded => (None, true)
     | Allowed => (None, false)
     end))%prog.

(** The limit closest to its cap, the first of two as close. *)
Fixpoint closest_go (now : Z) (best : option Allowance) (best_fraction : float) (spends : list (BudgetLimit * (float * float))) : option Allowance :=
  match spends with
  | [] => best
  | (limit, (spent, reserved)) :: spends =>
      let fraction := if fgt (bl_limit_usd limit) fzero then fdiv (fadd spent reserved) (bl_limit_usd limit) else fzero in
      if fgt fraction best_fraction then closest_go now (Some (figures A_ok now limit spent reserved)) fraction spends
      else closest_go now best best_fraction spends
  end.

(** What the readings and the credit gate decide. *)
Definition judge (c : SecurityCtx) (now : Z) (spends : list (BudgetLimit * (float * float))) : P Allowance :=
  match List.find over spends with
  | Some (limit, (spent, reserved)) => Ret (figures A_exceeded now limit spent reserved)
  | None =>
      ('(credit_refusal, credit_degraded) ← _credit_check c;
       match credit_refusal with
       | Some refusal => Ret refusal
       | None =>
           let allowance := default (plain A_ok) (closest_go now None minus_one spends) in
           Ret (if credit_degraded : bool then degrade allowance else allowance)
       end)%prog
  end.

Definition check_allowance (ctx : option SecurityCtx) (limits : list BudgetLimit) (fail_policy : string) (now : Z) : P Allowance :=
  match ctx with
  | Some c =>
      if negb (valid_ctx ctx) then Ret (plain A_ok) else
      (spends ← catch_exception (spends ← read_spends limits c now; Ret (Some spends)) (λ _, Ret None);
       match spends with
       | None => Ret (if String.eqb fail_policy "closed" then plain A_unavailable else degrade (plain A_ok))
       | Some spends => judge c now spends
       end)%prog
  | None => Ret (plain A_ok)
  end.

Section settings.
Context (BUDGET_POLICY_REFRESH_SECONDS : Z).

Definition check (ctx : option SecurityCtx) (defaults : Defaults) (fail_policy : string) (now : Z) : P Allowance :=
  match ctx with
  | Some c =>
      if negb (valid_ctx ctx) then Ret (plain A_ok) else
      (overrides ← catch_exception (rows ← overrides_for BUDGET_POLICY_REFRESH_SECONDS (sc_tenant c) (sc_principal c); Ret (Some rows)) (λ _, Ret None);
       if bool_decide (overrides = None) && String.eqb fail_policy "closed" then Ret (plain A_unavailable) else
       allowance ← check_allowance ctx (resolve_limits defaults (default [] overrides) (sc_principal c)) fail_policy now;
       Ret (if bool_decide (overrides = None) && negb (al_refused allowance) then degrade allowance else allowance))%prog
  | None => Ret (plain A_ok)
  end.

(** ** What a caller sees *)

Record LimitStatus : Type := mkStatus {
  ls_scope : Scope;
  ls_window : Window;
  ls_limit_usd : float;
  ls_spent_usd : float;
  ls_reserved_usd : float;
  ls_resets_at : option Z;
}.

(** [max(x, 0.0)] *)
Definition remaining_usd (s : LimitStatus) : float :=
  let left := fsub (fsub (ls_limit_usd s) (ls_spent_usd s)) (ls_reserved_usd s) in
  if fgt fzero left then fzero else left.

Definition usage_status (c : SecurityCtx) (defaults : Defaults) (now : Z) : P (list LimitStatus) :=
  (overrides ← overrides_for BUDGET_POLICY_REFRESH_SECONDS (sc_tenant c) (sc_principal c);
   spends ← read_spends (resolve_limits defaults overrides (sc_principal c)) c now;
   Ret ((λ '(limit, (spent, reserved)),
     mkStatus (bl_scope limit) (bl_window limit) (bl_limit_usd limit) spent reserved (window_resets_at (bl_window limit) now)) <$> spends))%prog.

Definition refusal_envelope (a : Allowance) : ErrorEnvelope :=
  match al_status a with
  | A_unavailable => Envelope BUDGET_CHECK_UNAVAILABLE
      "Usage could not be verified right now, so this request was not started. Please try again shortly." JNull
  | A_insufficient_credits => Envelope INSUFFICIENT_CREDITS
      "This organisation has no credits left, so this request was not started. Credits need to be added before it can continue."
      (JObj [("scope", JStr "tenant")])
  | A_exceeded | A_ok =>
      let word := _WINDOW_WORD (al_window a) in
      let details := [("scope", JStr (scope_name (al_scope a))); ("window", JStr (window_name (al_window a)))] ++
        match al_resets_at a with Some at_time => [("resets_at", JStr (isoformat_auto (DateTime at_time true)))] | None => [] end in
      match al_scope a with
      | S_principal => Envelope PERSONAL_BUDGET_EXCEEDED
          ("You have reached your personal " +:+ word +:+ " usage budget. Please try again later.") (JObj details)
      | S_tenant => Envelope TENANT_BUDGET_EXCEEDED
          ("This tenant's " +:+ word +:+ " usage budget has been reached. Please try again later.") (JObj details)
      end
  end.

(** ** Before a turn *)

Context (limits : Defaults) (BUDGET_CHECK_FAILURE_POLICY : string) (MAX_COST_USD_PER_TURN : float).

Definition allowance_refusal (ctx : option SecurityCtx) (now : Z) : P (option ErrorEnvelope) :=
  (allowance ← check ctx limits BUDGET_CHECK_FAILURE_POLICY now;
   Ret (if al_refused allowance then Some (refusal_envelope allowance) else None))%prog.

Definition model_unpriced_envelope : ErrorEnvelope :=
  Envelope MODEL_UNPRICED
    "This deployment cannot meter the configured model's cost, so it is not serving requests. This is a configuration problem on our side." JNull.

Definition reserve_turn_budget (ctx : option SecurityCtx) : P (option string) := reserve_budget ctx MAX_COST_USD_PER_TURN.
Definition release_turn_budget (ctx : option SecurityCtx) (hold_id : option string) : P () := release_budget_reservation ctx hold_id.

(** The start of a turn: the refusal it ends with, or the hold it runs under. *)
Definition start_turn (ctx : option SecurityCtx) (now : Z) : P (ErrorEnvelope + option string) :=
  (unpriced ← call Refuse_unpriced;
   if unpriced : bool then Ret (inl model_unpriced_envelope) else
   refusal ← allowance_refusal ctx now;
   match refusal with
   | Some refusal => Ret (inl refusal)
   | None => hold ← reserve_turn_budget ctx; Ret (inr hold)
   end)%prog.
End settings.
