(* ===== verification/BudgetTheorems.v ===== *)
(** What an allowance check reads and what its answer says of what it read; the property of a
    turn that starts, with a concrete instance. *)
From Stdlib Require Import SpecFloat.
From stdpp Require Import gmap.
From S2P Require Import Prelude Dict Json Calendar Decimals Usage Text Messages Process Jobs AgentState Budgets.

Local Open Scope string_scope.
Local Open Scope list_scope.

(** ** Traces *)

(** The spend of a limit, as the stores answered it: the events of its window, and the holds of
    the tenant, none when they could not be read. *)
Definition spend_read (c : SecurityCtx) (now : Z) (tr : list (step cmd)) (x : BudgetLimit * (float * float)) : Prop :=
  let '(limit, (spent, reserved)) := x in
  Step (Totals (sc_tenant c) (if bool_decide (bl_scope limit = S_principal) then Some (sc_principal c) else None) (window_start (bl_window limit) now))
    (Ok spent) ∈ tr ∧
  match bl_scope limit with
  | S_principal => reserved = fzero
  | S_tenant =>
      let c := In_flight (sc_tenant c) RESERVATION_STALE_AFTER_MINUTES in
      Step c (Ok reserved) ∈ tr ∨ (reserved = fzero ∧ ∃ e, Step c (Err e) ∈ tr)
  end.

(** The rows in force: fresh ones of the cache, those of the store, or none without a table. *)
Definition overrides_read (c : SecurityCtx) (refresh : Z) (tr : list (step cmd)) (rows : list Override) : Prop :=
  (∃ now cached, Step Monotonic (Ok now) ∈ tr ∧ Step (Cache_get (sc_tenant c) (sc_principal c)) (Ok cached) ∈ tr ∧
    fresh_rows refresh now cached = Some rows) ∨
  Step (For_person (sc_tenant c) (sc_principal c)) (Ok rows) ∈ tr ∨
  (rows = [] ∧ ∃ e, exc_class e = "PolicyTableMissing" ∧ Step (For_person (sc_tenant c) (sc_principal c)) (Err e) ∈ tr).

Lemma spend_read_mono c now tr tr' x : tr ⊆ tr' → spend_read c now tr x → spend_read c now tr' x.
Proof.
  intros Hs. destruct x as [limit [spent reserved]]. intros [H1 H2]. split; [by apply Hs|].
  destruct (bl_scope limit); [|done]. destruct H2 as [H2|[? (e & He)]]; [left; by apply Hs|right]. split; [done|]. exists e. by apply Hs.
Qed.

Ltac trace := set_solver.

(** A command was answered with an exception that is no [Exception], such as a cancellation. *)
Definition interrupted (tr : list (step cmd)) (e : exc) : Prop := base_exception e = true ∧ ∃ R (c : cmd R), Step c (Err e) ∈ tr.

Lemma interrupted_mono tr tr' e : tr ⊆ tr' → interrupted tr e → interrupted tr' e.
Proof. intros Hs (Hb & R & c & Hc). split; [done|]. exists R, c. by apply Hs. Qed.

(** What a program raises, one of its commands raised, or it is no interruption. *)
Definition raises {A} (p : P A) : Prop := ∀ tr e, path p tr (Err e) → base_exception e = true → interrupted tr e.

Lemma raises_ret {A} (a : A) : raises (Ret a).
Proof. by intros tr e [_ [=]]. Qed.
Lemma raises_call {R} (c : cmd R) : raises (call c).
Proof. intros tr e ->%path_call Hb. split; [done|]. exists R, c. left. Qed.
Lemma raises_bind {A B} (p : P A) (f : A → P B) : raises p → (∀ a, raises (f a)) → raises (bind p f).
Proof.
  intros Hp Hf tr e [(a & tr1 & tr2 & H1 & H2 & ->)|(e' & H & [= <-])]%path_bind Hb; [|by apply Hp].
  eapply interrupted_mono; [|by eapply Hf]. set_solver.
Qed.
Lemma raises_catch {A} (p : P A) h : raises p → (∀ e, base_exception e = false → raises (h e)) → raises (catch_exception p h).
Proof.
  intros Hp Hh tr e [(a & _ & [=])|(e' & tr1 & tr2 & H1 & H2 & ->)]%path_catch Hb. destruct (base_exception e') eqn:E.
  - destruct H2 as [-> [= ->]]. eapply interrupted_mono; [|by eapply Hp]. set_solver.
  - eapply interrupted_mono; [|by eapply Hh]. set_solver.
Qed.
Lemma raises_typed {A} (p : P A) (h : exc → P A) : raises p → (∀ e, raises (h e) ∨ h e = Throw e) → raises (catch p h).
Proof.
  intros Hp Hh tr e [(a & _ & [=])|(e' & tr1 & tr2 & H1 & H2 & ->)]%path_catch Hb. destruct (Hh e') as [Hr|E].
  - eapply interrupted_mono; [|by eapply Hr]. set_solver.
  - rewrite E in H2. destruct H2 as [-> [= ->]]. eapply interrupted_mono; [|by eapply Hp]. set_solver.
Qed.
#[local] Hint Resolve raises_ret raises_call raises_bind raises_catch : core.

Lemma in_flight_path tenant tr out :
  path (in_flight_reservation tenant) tr out →
  (∃ held, out = Ok held ∧
    let c := In_flight tenant RESERVATION_STALE_AFTER_MINUTES in
    tr = [Step c (Ok held)] ∨ held = fzero ∧ ∃ e, tr = [Step c (Err e)]) ∨
  ∃ e, out = Err e ∧ interrupted tr e.
Proof.
  unfold in_flight_reservation, catch_exception. rewrite path_catch.
  intros [(v & Hp & ->)|(e & tr1 & tr2 & Hp & Hh & ->)]; apply path_call in Hp as ->; [eauto 10|].
  destruct (base_exception e) eqn:Eb; destruct Hh as [-> ->]; [|eauto 10]. right. exists e. split; [done|]. split; [done|]. eexists _, _. left.
Qed.

Lemma spend_path limit c now tr spend :
  path (_spend limit c now) tr (Ok spend) → spend_read c now tr (limit, spend).
Proof.
  unfold _spend, usage_summary. rewrite path_bind. intros [(spent & tr1 & tr2 & ->%path_call & Hp & ->)|(e & _ & [=])].
  apply path_bind in Hp as [(held & tr3 & tr4 & Hh & [-> [= ->]] & ->)|(e & _ & [=])].
  rewrite app_nil_r. split; [set_solver|]. destruct (bl_scope limit).
  - rewrite bool_decide_eq_true_2 in Hh by done. apply in_flight_path in Hh as [(h & [= <-] & [-> |[-> (e & ->)]])|(? & [=] & _)].
    + left. set_solver.
    + right. split; [done|]. exists e. set_solver.
  - rewrite bool_decide_eq_false_2 in Hh by done. by destruct Hh as [_ [= ->]].
Qed.

Lemma read_spends_path limits c now tr spends :
  path (read_spends limits c now) tr (Ok spends) → spends.*1 = limits ∧ Forall (spend_read c now tr) spends.
Proof.
  revert tr spends. induction limits as [|limit limits IH]; intros tr spends; cbn [read_spends].
  - by intros [_ [= ->]].
  - rewrite path_bind. intros [(spend & tr1 & tr2 & Hs%spend_path & Hp & ->)|(e & _ & [=])].
    apply path_bind in Hp as [(rest & tr3 & tr4 & Hr & [-> [= ->]] & ->)|(e & _ & [=])].
    apply IH in Hr as [<- Hr]. rewrite app_nil_r. split; [done|]. constructor.
    + eapply spend_read_mono; [|exact Hs]. set_solver.
    + eapply Forall_impl; [exact Hr|]. intros x. apply spend_read_mono. set_solver.
Qed.

Lemma overrides_path refresh c tr rows :
  path (overrides_for refresh (sc_tenant c) (sc_principal c)) tr (Ok rows) → overrides_read c refresh tr rows.
Proof.
  unfold overrides_for. rewrite path_bind. intros [(now & tr1 & tr2 & ->%path_call & Hp & ->)|(e & _ & [=])].
  apply path_bind in Hp as [(cached & tr3 & tr4 & ->%path_call & Hp & ->)|(e & _ & [=])].
  destruct (fresh_rows refresh now cached) as [rows'|] eqn:Ef.
  - destruct Hp as [-> [= ->]]. left. exists now, cached. split; [set_solver|]. split; [set_solver|done].
  - apply path_bind in Hp as [(read & tr5 & tr6 & Hr & Hp & ->)|(e & _ & [=])].
    apply path_catch in Hr as [(v & Hr & [= <-])|(e & tr7 & tr8 & Hr & Hh & ->)].
    + apply path_bind in Hr as [(rows' & tr7 & tr8 & ->%path_call & [-> [= ->]] & ->)|(e & _ & [=])].
      apply path_bind in Hp as [([] & tr9 & tr10 & ->%path_call & [-> [= ->]] & ->)|(e & _ & [=])].
      right; left. set_solver.
    + apply path_bind in Hr as [(rows' & tr9 & tr10 & _ & [_ [=]] & _)|(e' & ->%path_call & [= <-])].
      destruct (bool_decide _) eqn:Ec; [|by destruct Hh as [_ [=]]]. apply bool_decide_eq_true in Ec.
      destruct Hh as [-> [= ->]]. destruct Hp as [-> [= ->]]. right; right. split; [done|]. exists e. set_solver.
Qed.

Lemma raises_read_spends limits c now : raises (read_spends limits c now).
Proof.
  induction limits as [|limit limits IH]; cbn [read_spends]; [auto|]. apply raises_bind; [|auto]. unfold _spend, usage_summary.
  apply raises_bind; [auto|]. intros spent. apply raises_bind; [|auto]. unfold in_flight_reservation. destruct (bool_decide _); auto.
Qed.
Lemma raises_overrides refresh tenant principal : raises (overrides_for refresh tenant principal).
Proof.
  unfold overrides_for. apply raises_bind; [auto|]. intros t. apply raises_bind; [auto|]. intros cached. destruct (fresh_rows refresh t cached); [auto|].
  apply raises_bind; [|intros [rows|]; auto]. apply raises_typed; [auto|]. intros e. destruct (bool_decide _); auto.
Qed.

(** ** The decision *)

(** What the credit gate answered, asked once or once more with the holds; that it raised. *)
Definition gate_answer (c : SecurityCtx) (tr : list (step cmd)) (adm : admission) : Prop :=
  Step (Admit (sc_tenant c)) (Ok (Some adm)) ∈ tr ∨ ∃ held, Step (Admit_with (sc_tenant c) held) (Ok adm) ∈ tr.
Definition gate_raised (c : SecurityCtx) (tr : list (step cmd)) (e : exc) : Prop :=
  Step (Admit (sc_tenant c)) (Err e) ∈ tr ∨ ∃ held, Step (Admit_with (sc_tenant c) held) (Err e) ∈ tr.

Lemma gate_answer_mono c tr tr' adm : tr ⊆ tr' → gate_answer c tr adm → gate_answer c tr' adm.
Proof. intros Hs [?|[held ?]]; [left|right; exists held]; by apply Hs. Qed.
Lemma gate_raised_mono c tr tr' e : tr ⊆ tr' → gate_raised c tr e → gate_raised c tr' e.
Proof. intros Hs [?|[held ?]]; [left|right; exists held]; by apply Hs. Qed.

(** What a gate's answer makes of the turn. *)
Definition gated (adm : admission) (a : Allowance) : Prop :=
  match ad_status adm with
  | Exhausted => al_status a = A_insufficient_credits ∧ al_available_credits a = ad_available adm ∧ al_reserved_credits a = ad_reserved adm
  | Unavailable => a = plain A_unavailable
  | Degraded => al_status a = A_ok ∧ al_degraded a = true
  | Allowed => al_status a = A_ok ∧ al_degraded a = false
  end.

Lemma closest_served now best fraction spends a :
  (∀ b, best = Some b → al_status b = A_ok ∧ al_degraded b = false) →
  closest_go now best fraction spends = Some a → al_status a = A_ok ∧ al_degraded a = false.
Proof.
  revert best fraction. induction spends as [|[limit [spent reserved]] spends IH]; intros best fraction Hb; cbn [closest_go]; [apply Hb|].
  destruct (fgt _ fraction); [|by apply IH]. apply IH. by intros b [= <-].
Qed.

Lemma closest_default now spends :
  let a := default (plain A_ok) (closest_go now None minus_one spends) in al_status a = A_ok ∧ al_degraded a = false.
Proof.
  destruct (closest_go now None minus_one spends) as [a|] eqn:E; [|done]. by apply closest_served in E.
Qed.

Lemma credit_path c tr out :
  path (_credit_check c) tr out →
  match out with
  | Err e => gate_raised c tr e ∨ interrupted tr e
  | Ok (refusal, degraded) => ∃ adm, gate_answer c tr adm ∧
      ∀ a, al_status a = A_ok → al_degraded a = false →
        gated adm (match refusal with Some r => r | None => if degraded then degrade a else a end)
  end.
Proof.
  unfold _credit_check. rewrite path_bind. intros [(answer & tr1 & tr2 & ->%path_call & Hp & ->)|(e & ->%path_call & ->)];
  [|left; left; set_solver].
  apply path_bind in Hp as [(adm & tr3 & tr4 & Ha & Hp & ->)|(e & Ha & ->)].
  - destruct Hp as [-> ->]. rewrite app_nil_r.
    assert (Hg : gate_answer c ([Step (Admit (sc_tenant c)) (Ok answer)] ++ tr3) adm).
    { destruct answer as [adm'|]; [destruct Ha as [-> [= ->]]; left; set_solver|].
      apply path_bind in Ha as [(held & tr5 & tr6 & _ & ->%path_call & ->)|(e & _ & [=])]. right. exists held. set_solver. }
    revert Hg. generalize ([Step (Admit (sc_tenant c)) (Ok answer)] ++ tr3). intros tr Hg.
    unfold gated. destruct (ad_status adm) eqn:Es; exists adm; (split; [done|]); rewrite Es; intros a Hs Hd; done.
  - destruct answer as [adm'|]; [by destruct Ha|].
    apply path_bind in Ha as [(held & tr5 & tr6 & _ & ->%path_call & ->)|(e' & Hh & [= <-])].
    + left; right. exists held. set_solver.
    + apply in_flight_path in Hh as [(? & [=] & _)|(? & [= <-] & Hi)]. right. eapply interrupted_mono; [|exact Hi]. set_solver.
Qed.

Lemma judge_path c now spends tr out :
  path (judge c now spends) tr out →
  match List.find over spends, out with
  | Some x, _ => out = Ok (figures A_exceeded now x.1 x.2.1 x.2.2)
  | None, Err e => gate_raised c tr e ∨ interrupted tr e
  | None, Ok a => ∃ adm, gate_answer c tr adm ∧ gated adm a
  end.
Proof.
  unfold judge. destruct (List.find over spends) as [[limit [spent reserved]]|]; [by intros [_ ->]|].
  rewrite path_bind. intros [([refusal degraded] & tr1 & tr2 & Hc & Hp & ->)|(e & Hc & ->)]; apply credit_path in Hc; [|done].
  destruct Hc as (adm & Hg & Ha). destruct (closest_default now spends) as [Hs Hd]. specialize (Ha _ Hs Hd).
  destruct refusal as [r|]; destruct Hp as [-> ->]; exists adm; by rewrite app_nil_r.
Qed.

Lemma find_split {A} (f : A → bool) l x :
  List.find f l = Some x → ∃ pre post, l = pre ++ x :: post ∧ f x = true ∧ Forall (λ y, f y = false) pre.
Proof.
  induction l as [|y l IH]; cbn; [done|]. destruct (f y) eqn:E.
  - intros [= ->]. by exists [], l.
  - intros (pre & post & -> & Hx & Hp)%IH. exists (y :: pre), post. split; [done|]. split; [done|]. by constructor.
Qed.

(** ** The limits that apply *)

(** The limit in force for a person: its own row's, else the row's of every person, else the
    default; a row without a number is no limit, and so is a default of zero but the first. *)
Definition in_force (defaults : Defaults) (overrides : list Override) (principal : string) (s : Scope) (w : Window) : option float :=
  let usual default := if fgt default fzero then Some default else None in
  match s, w with
  | S_tenant, W_day => limit_value overrides W_day [TENANT_SUBJECT] (Some (tenant_day defaults))
  | S_tenant, W_month => limit_value overrides W_month [TENANT_SUBJECT] (usual (tenant_month defaults))
  | S_principal, W_day => limit_value overrides W_day [principal; ALL_PRINCIPALS] (usual (principal_day defaults))
  | S_principal, W_month => limit_value overrides W_month [principal; ALL_PRINCIPALS] (usual (principal_month defaults))
  end.

Lemma resolve_limits_spec defaults overrides principal s w v :
  mkLimit s w v ∈ resolve_limits defaults overrides principal ↔ in_force defaults overrides principal s w = Some v.
Proof.
  unfold resolve_limits, resolve_one, in_force. cbn [orb].
  destruct s, w; repeat (case_match; cbn [app]); set_solver.
Qed.

(** ** The whole check *)

(** A read whose failure is only noted. *)
Lemma noted_path {A} (p : P A) tr out :
  raises p → path (catch_exception (x ← p; Ret (Some x))%prog (λ _, Ret None)) tr out →
  out = Ok None ∨ (∃ x, out = Ok (Some x) ∧ path p tr (Ok x)) ∨ ∃ e, out = Err e ∧ interrupted tr e.
Proof.
  intros Hr. unfold catch_exception. rewrite path_catch. intros [(v & Hp & ->)|(e & tr1 & tr2 & Hp & Hh & ->)].
  2: { destruct (base_exception e) eqn:Eb; destruct Hh as [-> ->]; [right; right|by left]. exists e. split; [done|]. rewrite app_nil_r.
    apply path_bind in Hp as [(x & ? & ? & _ & [_ [=]] & _)|(e' & Hp & [= <-])]. by apply Hr. }
  right; left. apply path_bind in Hp as [(x & tr1 & tr2 & Hp & [-> [= ->]] & ->)|(e & _ & [=])]. exists x. by rewrite app_nil_r.
Qed.

(** What a check says of its readings. *)
Definition judged (c : SecurityCtx) (now : Z) (tr : list (step cmd)) (limits : list BudgetLimit) (a : Allowance) : Prop :=
  ∃ spends, spends.*1 = limits ∧ Forall (spend_read c now tr) spends ∧
    match List.find over spends with
    | Some x => a = figures A_exceeded now x.1 x.2.1 x.2.2
    | None => ∃ adm, gate_answer c tr adm ∧ gated adm a
    end.

Lemma judged_mono c now tr tr' limits a : tr ⊆ tr' → judged c now tr limits a → judged c now tr' limits a.
Proof.
  intros Hs (spends & H1 & H2 & H3). exists spends. split; [done|]. split.
  - eapply Forall_impl; [exact H2|]. intros x. by apply spend_read_mono.
  - destruct (List.find over spends); [done|]. destruct H3 as (adm & Hg & Ha). exists adm. split; [by eapply gate_answer_mono|done].
Qed.

Lemma check_allowance_path c limits fail_policy now tr out :
  valid_ctx (Some c) = true → path (check_allowance (Some c) limits fail_policy now) tr out →
  match out with
  | Err e => gate_raised c tr e ∨ interrupted tr e
  | Ok a => (a = if String.eqb fail_policy "closed" then plain A_unavailable else degrade (plain A_ok)) ∨ judged c now tr limits a
  end.
Proof.
  intros Hv Hp. unfold check_allowance in Hp. rewrite Hv in Hp. cbn [negb] in Hp.
  apply path_bind in Hp as [(spends & tr1 & tr2 & Hs & Hp & ->)|(e & Hs & ->)];
  apply (noted_path _ _ _ (raises_read_spends _ _ _)) in Hs; [|destruct Hs as [[=]|[(? & [=] & _)|(? & [= <-] & Hs)]]; by right].
  destruct Hs as [[= ->]|[(x & [= ->] & Hs)|(? & [=] & _)]]; [destruct Hp as [-> ->]; by left|].
  apply read_spends_path in Hs as [H1 H2]. apply judge_path in Hp.
  assert (Hr : Forall (spend_read c now (tr1 ++ tr2)) x).
  { eapply Forall_impl; [exact H2|]. intros y. apply spend_read_mono. set_solver. }
  destruct (List.find over x) as [y|] eqn:E.
  - subst out. right. exists x. rewrite E. done.
  - destruct out as [a|e]; [right|destruct Hp as [Hp|Hp]; [left; eapply gate_raised_mono|right; eapply interrupted_mono]; [|exact Hp| |exact Hp]; set_solver]. exists x. rewrite E.
    split; [done|]. split; [done|]. destruct Hp as (adm & Hg & Ha). exists adm. split; [|done].
    eapply gate_answer_mono; [|exact Hg]. set_solver.
Qed.

Lemma overrides_read_mono c refresh tr tr' rows : tr ⊆ tr' → overrides_read c refresh tr rows → overrides_read c refresh tr' rows.
Proof.
  intros Hs [(now & cached & H1 & H2 & H3)|[H1|(-> & e & He & H1)]].
  - left. exists now, cached. split; [by apply Hs|]. split; [by apply Hs|done].
  - right; left. by apply Hs.
  - right; right. split; [done|]. exists e. split; [done|by apply Hs].
Qed.

(** A check ends refused as unavailable, or served without one of its reads, or judged. *)
Lemma check_path refresh c defaults fail_policy now tr out :
  valid_ctx (Some c) = true → path (check refresh (Some c) defaults fail_policy now) tr out →
  match out with
  | Err e => gate_raised c tr e ∨ interrupted tr e
  | Ok a =>
      a = plain A_unavailable ∨
      (fail_policy ≠ "closed" ∧ al_status a = A_ok ∧ al_degraded a = true) ∨
      ∃ rows, (overrides_read c refresh tr rows ∨ (rows = [] ∧ fail_policy ≠ "closed" ∧ al_status a ≠ A_ok)) ∧
        judged c now tr (resolve_limits defaults rows (sc_principal c)) a
  end.
Proof.
  intros Hv Hp. unfold check in Hp. rewrite Hv in Hp. cbn [negb] in Hp.
  apply path_bind in Hp as [(overrides & tr1 & tr2 & Ho & Hp & ->)|(e & Ho & ->)];
  apply (noted_path _ _ _ (raises_overrides _ _ _)) in Ho; [|destruct Ho as [[=]|[(? & [=] & _)|(? & [= <-] & Ho)]]; by right].
  destruct (bool_decide (overrides = None) && (fail_policy =? "closed")) eqn:Ec; [destruct Hp as [_ ->]; by left|].
  apply path_bind in Hp as [(a & tr3 & tr4 & Ha & [-> ->] & ->)|(e & Ha & ->)];
  apply check_allowance_path in Ha; [|done| |done]; [|destruct Ha as [Ha|Ha]; [left; eapply gate_raised_mono|right; eapply interrupted_mono]; [|exact Ha| |exact Ha]; set_solver].
  rewrite app_nil_r. destruct Ho as [[= ->]|[(rows & [= ->] & Ho)|(? & [=] & _)]].
  - rewrite bool_decide_eq_true_2 in Ec |- * by done. cbn [andb] in Ec |- *. apply String.eqb_neq in Ec.
    destruct Ha as [-> |Ha]; [rewrite (proj2 (String.eqb_neq _ _) Ec); cbn; auto|]. unfold al_refused. case_bool_decide as Hok; cbn [negb].
    + right; left. done.
    + right; right. exists []. split; [by right|]. eapply judged_mono; [|exact Ha]. set_solver.
  - rewrite bool_decide_eq_false_2 by done. cbn [andb]. destruct Ha as [-> |Ha].
    + destruct (String.eqb_spec fail_policy "closed"); [by left|]. right; left. done.
    + right; right. exists rows. split.
      * left. apply overrides_path in Ho. eapply overrides_read_mono; [|exact Ho]. set_solver.
      * eapply judged_mono; [|exact Ha]. set_solver.
Qed.

(** The property of the spend allowance, and what modelling it showed. *)

(** ** Who may start a turn *)

(** C14: a turn that the allowance lets start, with its check complete or the policy closed, is
    below every limit in force for its person, by the overrides and the spend that were read, and
    the credit gate had no objection.  A turn refused for a limit is at or past it, and below every
    limit before it; one refused for credits was refused by the gate.  The check itself raises only
    what the credit gate raises, or the interruption of a read, which is no [Exception]. *)
Theorem turn_starts_within_its_limits refresh c defaults fail_policy now tr out :
  valid_ctx (Some c) = true → path (check refresh (Some c) defaults fail_policy now) tr out →
  let limits rows := resolve_limits defaults rows (sc_principal c) in
  match out with
  | Err e => gate_raised c tr e ∨ interrupted tr e
  | Ok a =>
      (al_status a = A_ok → al_degraded a = false ∨ fail_policy = "closed" →
        ∃ rows spends, overrides_read c refresh tr rows ∧ spends.*1 = limits rows ∧ Forall (spend_read c now tr) spends ∧
          Forall (λ x, over x = false) spends ∧ ∃ adm, gate_answer c tr adm ∧ refused adm = false) ∧
      (al_status a = A_exceeded →
        ∃ rows pre limit spent reserved post, (overrides_read c refresh tr rows ∨ rows = [] ∧ fail_policy ≠ "closed") ∧
          (pre ++ (limit, (spent, reserved)) :: post).*1 = limits rows ∧
          Forall (spend_read c now tr) (pre ++ (limit, (spent, reserved)) :: post) ∧
          Forall (λ x, over x = false) pre ∧ fge (fadd spent reserved) (bl_limit_usd limit) = true ∧
          a = figures A_exceeded now limit spent reserved) ∧
      (al_status a = A_insufficient_credits → ∃ adm, gate_answer c tr adm ∧ ad_status adm = Exhausted)
  end.
Proof.
  intros Hv Hp%check_path; [|done]. cbv zeta. destruct out as [a|e]; [|done].
  destruct Hp as [-> |[(Hc & Hs & Hd)|(rows & Hr & spends & H1 & H2 & H3)]]; [by split_and!| |].
  { split_and!; [|congruence..]. intros _ [?|?]; congruence. }
  destruct (List.find over spends) as [[limit [spent reserved]]|] eqn:E.
  - apply find_split in E as (pre & post & -> & Hx & Hpre). subst a. split_and!; [done| |done]. intros _.
    exists rows, pre, limit, spent, reserved, post. split_and!; [|done..]. destruct Hr as [Hr|(-> & Hr & _)]; [by left|by right].
  - destruct H3 as (adm & Hg & Ha). unfold gated in Ha. split_and!.
    + intros Hs _. destruct Hr as [Hr|(_ & _ & Hn)]; [|done]. exists rows, spends. split_and!; [done..| |].
      * apply Forall_forall. intros x Hx. apply list_elem_of_In in Hx. by apply (List.find_none over spends).
      * exists adm. split; [done|]. unfold refused. by destruct (ad_status adm); [|destruct Ha; congruence|subst a|].
    + intros Hs. destruct (ad_status adm); [destruct Ha; congruence..|subst a; done|destruct Ha; congruence].
    + intros Hs. exists adm. split; [done|]. destruct (ad_status adm); try done; [destruct Ha; congruence|subst a; done|destruct Ha; congruence].
Qed.

(** A person below the one limit there is, with the gate open. *)
Definition one : float := S754_finite false 4503599627370496 (-52).
Definition half : float := S754_finite false 4503599627370496 (-53).
Definition ann : SecurityCtx := SecCtx "acme" "ann".
Definition one_dollar_a_day : Defaults := mkDefaults one fzero fzero fzero.

(** The reads of a check for [ann] at the time 0, with the holds of her tenant. *)
Definition reads (held : float) : list (step cmd) := [
  Step Monotonic (Ok 0%Z); Step (Cache_get "acme" "ann") (Ok None); Step (For_person "acme" "ann") (Ok []);
  Step (Cache_put "acme" "ann" 0 []) (Ok ()); Step (Totals "acme" None (window_start W_day 0)) (Ok half);
  Step (In_flight "acme" RESERVATION_STALE_AFTER_MINUTES) (Ok held)].

Definition admitted : step cmd := Step (Admit "acme") (Ok (Some (Admission Allowed None None))).

Ltac follows := cbn; repeat (eexists; split; [reflexivity|]); vm_compute; by split.

Lemma turn_starts_within_its_limits_witness :
  let tr := reads fzero ++ [admitted] in
  ∃ a, path (check 30 (Some ann) one_dollar_a_day "closed" 0) tr (Ok a) ∧ al_status a = A_ok ∧
  ∃ rows spends, overrides_read ann 30 tr rows ∧ spends.*1 = resolve_limits one_dollar_a_day rows "ann" ∧
    Forall (λ x, over x = false) spends.
Proof.
  intros tr.
  set (a := figures A_ok 0 (mkLimit S_tenant W_day one) half fzero).
  assert (Hp : path (check 30 (Some ann) one_dollar_a_day "closed" 0) tr (Ok a)) by follows.
  exists a. split; [exact Hp|]. split; [reflexivity|].
  destruct (proj1 (turn_starts_within_its_limits 30 ann one_dollar_a_day "closed" 0 tr (Ok a) eq_refl Hp) eq_refl (or_introl eq_refl))
    as (rows & spends & H1 & H2 & _ & H3 & _).
  exists rows, spends. split; [exact H1|]. split; [exact H2|exact H3].
Defined.

(** ** What modelling it showed *)

(** The start of one of [ann]'s turns: its reads, and the hold it takes last. *)
Definition opening_reads (held : float) : list (step cmd) := Step Refuse_unpriced (Ok false) :: reads held ++ [admitted].
Definition hold (id : string) : list (step cmd) :=
  [Step Uuid4 (Ok id); Step (Reserve "acme" id half RESERVATION_STALE_AFTER_MINUTES) (Ok ())].

Definition start (tr : list (step cmd)) (out : ErrorEnvelope + option string) : Prop :=
  path (start_turn 30 one_dollar_a_day "closed" half (Some ann) 0) tr (Ok out).

(** The holds do not keep two turns that start together from passing the same check: with half of
    the day's dollar spent and half a dollar held for every turn, a turn that starts after another
    is refused, for the hold it sees; when both read before either has its hold, both start. *)
Lemma a_burst_passes :
  (∃ refusal, start (Step Refuse_unpriced (Ok false) :: reads half) (inl refusal)) ∧
  start (opening_reads fzero ++ hold "a") (inr (Some "a")) ∧ start (opening_reads fzero ++ hold "b") (inr (Some "b")).
Proof. unfold start. split_and!; [|follows..]. eexists. follows. Qed.

(** A limit of zero for a person stands whatever else is configured. *)
Lemma suspension_stands defaults overrides principal :
  by_key overrides principal "day" = Some (mkOverride principal "day" (Some fzero)) →
  mkLimit S_principal W_day fzero ∈ resolve_limits defaults overrides principal.
Proof. intros E. apply resolve_limits_spec. cbn. by rewrite E. Qed.
