(* ===== verification/Stream.v ===== *)
(** The events of a turn: [app/agent/runtime/stream.py], with [cancelled_turn.py] and the saved
    run of [app/agent/graph/hitl.py].

    An async generator is a program whose yields are commands ([Emit]); one that is closed or
    cancelled has a yield or a wait answered with [GeneratorExit] or [CancelledError].  What a run
    of the graph would yield is an argument: its events, one wait for each, and the exception it
    ends with, if any.  Traces and logs are left out, and of the metrics all but the count of
    turns. *)
From Stdlib Require Import SpecFloat.
From S2P Require Import Prelude Dict Json Text Messages Process Calendar Decimals Usage Jobs AgentState Compaction Turn Budgets.

Local Open Scope string_scope.
Local Open Scope list_scope.
Local Open Scope Z_scope.

(** ** What the graph yields *)

(** An event of [graph.astream_events]: the fields the code reads.  A missing name of a subagent
    is the empty one, a missing output has no messages. *)
Record graph_event : Type := mkEvent {
  ge_event : string;
  ge_name : string;
  ge_node : option string;              (* metadata["langgraph_node"] *)
  ge_subagent : string;                 (* metadata["subagent_name"] *)
  ge_chunk : content;                   (* data["chunk"].content *)
  ge_input : option json;               (* data["input"] *)
  ge_messages : list message;           (* data["output"]["messages"] *)
}.

Record graph_run : Type := mkRun { gr_events : list graph_event; gr_end : option exc }.

(** A saved checkpoint: what is pending, and its values when it has some. *)
Record saved : Type := mkSaved { sv_snapshot : Turn.snapshot; sv_values : option State }.

(** What the graph is given: a message of the person, an answer to its pause, or nothing. *)
Inductive graph_input : Type :=
| Question (c : content) (require_approval : bool)
| Resume (v : json)
| Nothing_new.

(** ** The commands *)

Inductive cmd : Type → Type :=
| Monotonic : cmd Z                                     (* microseconds *)
| Cancel_check : cmd bool
| Anext (remaining : Z) : cmd ()                        (* the next event of the run, in time *)
| Aget_state : cmd saved
| Aupdate_state (us : list msg_update) : cmd ()         (* as the start node *)
| Ainvoke (i : graph_input) : cmd ()
| Init_graph : cmd ()
| Upsert_session (title : string) : cmd ()
| Release_later (hold : option string) : cmd ()         (* a task of its own *)
| Count_turn (outcome : string) : cmd ()
| Emit (ev : event) : cmd ()                            (* [yield ev] *)
| Budget {R} (c : Budgets.cmd R) : cmd R.
Abbreviation P := (prog cmd).

Fixpoint ask {A} (p : prog Budgets.cmd A) : P A :=
  match p with
  | Ret a => Ret a
  | Throw e => Throw e
  | Do c k => Do (Budget c) (λ r, ask (k r))
  end.

(** [state.values.get("messages")], or an empty list *)
Definition stored_messages (s : saved) : list message := match sv_values s with Some v => messages v | None => [] end.

(** ** Texts *)

(** A part of a list content as text; [str.join] raises on a text that is none. *)
Definition text_of_part (p : part) : result exc string :=
  match p with
  | PStr s | PText s => Ok s
  | PImage _ => Ok ""
  | POther (JObj d) => match dict_get "text" d with Some (JStr s) => Ok s | None => Ok "" | Some _ => Err (Exc "TypeError" "") end
  | POther j => Ok (py_str j)
  end.

Fixpoint joined (ps : list part) : result exc string :=
  match ps with
  | [] => Ok ""
  | p :: ps => rbind (text_of_part p) (λ s, rbind (joined ps) (λ t, Ok (s +:+ t)))
  end.

Definition _text_content (c : content) : result exc string :=
  match c with Plain s => Ok s | Parts ps => joined ps end.

Definition _build_human_content (text : string) (images : list string) : content :=
  match images with [] => Plain text | _ => Parts (PText text :: (PImage <$> images)) end.

Definition _turn_outcome (state : State) : string :=
  if cache_hit state then "success" else if (iterations state =? 0)%Z then "rejected" else "success".

(** ** Events *)

Definition token (text : string) : event := [("type", JStr "token"); ("content", JStr text)].
Definition plain_event (type : string) : event := [("type", JStr type)].

(** The calls an approval shows. *)
Definition calls_json (calls : list (string * json)) : json :=
  JList ((λ c, JObj [("name", JStr c.1); ("args", c.2)]) <$> calls).
Definition approval_event (calls : list (string * json)) : event :=
  [("type", JStr "approval_required"); ("tool_calls", calls_json calls)].

(** ** A stopped turn *)

Definition STOPPED_TURN_MESSAGE : string := "[The person stopped this request before it finished.]".

(** What is written to the thread of a turn that was stopped, and what that is called. *)
Definition discard_update (messages : list message) : string * list msg_update :=
  let turn := current_turn_messages messages in
  if negb (from_option is_user_message false (head turn)) then ("nothing", []) else
  if existsb (is_type ToolMessage) turn then ("closed", [Put (said AIMessage STOPPED_TURN_MESSAGE [])]) else
  ("dropped", omap (λ m, match m_id m with Some id => if nonempty id then Some (Remove id) else None | None => None end) turn).

Definition discard_cancelled_turn : P string :=
  catch_exception
    (snapshot ← call Aget_state;
     let '(outcome, update) := discard_update (stored_messages snapshot) in
     (if bool_decide (update = []) then Ret () else call (Aupdate_state update)) ;;
     Ret outcome)%prog
    (λ _, Ret "failed").

(** ** One run of the graph *)

Section stream.
Context (REQUEST_TIMEOUT_SECONDS : Z).
Context (citation_dict : citation → list (string * json)).     (* the whole of a citation *)
Context (is_budget_exceeded : exc → bool).                     (* the model client's test *)
Context (has_cancel_check : bool).

(** The wait for one event. *)
Definition next_event (deadline : Z) : P () :=
  (now ← call Monotonic;
   if deadline - now <=? 0 then Throw (Exc "TimeoutError" "") else
   cancelled ← (if has_cancel_check then call Cancel_check else Ret false);
   if cancelled : bool then Throw (Exc "TurnCancelled" "") else
   call (Anext (deadline - now)))%prog.

(** A message that replaces what was streamed, and the answer it leaves. *)
Definition replace_answer (messages : list message) (answer : list string) : P (list string) :=
  match last messages with
  | None => Ret answer
  | Some m =>
      (call (Emit (plain_event "retry")) ;;
       match m_content m with
       | Plain text => if nonempty text then call (Emit (token text)) ;; Ret [text] else Ret []
       | Parts _ => Ret []
       end)%prog
  end.

(** The events an event of the graph becomes, and the answer streamed so far. *)
Definition translate (ev : graph_event) (answer : list string) : P (list string) :=
  let top_level := negb (nonempty (ge_subagent ev)) in
  let subagent := if top_level then [] else [("subagent", JStr (ge_subagent ev))] in
  if String.eqb (ge_event ev) "on_chat_model_stream" && bool_decide (ge_node ev = Some "agent") && top_level then
    (content ← of_result (_text_content (ge_chunk ev));
     if nonempty content then call (Emit (token content)) ;; Ret (answer ++ [content]) else Ret answer)%prog
  else if String.eqb (ge_event ev) "on_tool_start" then
    (call (Emit ([("type", JStr "tool_start"); ("tool", JStr (ge_name ev)); ("args", default (JObj []) (ge_input ev))] ++ subagent)) ;;
     Ret answer)%prog
  else if String.eqb (ge_event ev) "on_tool_end" then
    (call (Emit ([("type", JStr "tool_end"); ("tool", JStr (ge_name ev))] ++ subagent)) ;; Ret answer)%prog
  else if String.eqb (ge_event ev) "on_chain_end" && negb top_level then Ret answer
  else if String.eqb (ge_event ev) "on_chain_end" && String.eqb (ge_name ev) "retry_output" then
    (call (Emit (plain_event "retry")) ;; Ret [])%prog
  else if String.eqb (ge_event ev) "on_chain_end" && (String.eqb (ge_name ev) "check_output" || String.eqb (ge_name ev) "retry_exhausted") then
    replace_answer (ge_messages ev) answer
  else if String.eqb (ge_event ev) "on_chain_end" && String.eqb (ge_name ev) "compact_history" then
    (if bool_decide (ge_messages ev = []) then Ret answer else (call (Emit (plain_event "compacted")) ;; Ret answer)%prog)
  else Ret answer.

(** [async for event in _iterate_with_timeout(...)]: the answer streamed at its end. *)
Fixpoint follow (deadline : Z) (evs : list graph_event) (ending : option exc) (answer : list string) : P (list string) :=
  (next_event deadline ;;
   match evs with
   | [] => match ending with None => Ret answer | Some e => Throw e end
   | ev :: evs => answer ← translate ev answer; follow deadline evs ending answer
   end)%prog.

(** The count of a turn that did not finish; its checkpoint is read for its tokens. *)
Definition _record_unfinished_turn (outcome : string) : P () :=
  (catch_exception (call Aget_state ;; Ret ()) (λ _, Ret ()) ;;
   catch_exception (call (Count_turn outcome)) (λ _, Ret ()))%prog.

(** What a run is reported with, before its terminal event: the citations, how many claims are
    ungrounded, the follow-ups. *)
Record summary : Type := mkSummary { su_citations : list citation; su_ungrounded : Z; su_followups : list string }.
Definition no_summary : summary := mkSummary [] 0 [].

Definition timeout_message : string :=
  "Request exceeded " +:+ py_str (JInt REQUEST_TIMEOUT_SECONDS) +:+ "s timeout".

Definition CANCELLED_ENVELOPE : ErrorEnvelope := Envelope CANCELLED "Cancelled by user." JNull.
Definition budget_envelope : ErrorEnvelope :=
  Envelope PROVIDER_BUDGET_EXCEEDED
    "This service has reached its spending limit with its AI provider and cannot take new requests until the limit is raised or resets. This is on our side, not yours." JNull.

(** The run raised. *)
Definition ended_by (e : exc) : P (event * summary) :=
  if String.eqb (exc_class e) "TurnCancelled" then
    (_record_unfinished_turn "cancelled" ;;
     discard_cancelled_turn ;;
     Ret (error_event CANCELLED_ENVELOPE, no_summary))%prog
  else if String.eqb (exc_class e) "CancelledError" then (_record_unfinished_turn "cancelled" ;; Throw e)%prog
  else if String.eqb (exc_class e) "GeneratorExit" then (_record_unfinished_turn "abandoned" ;; Throw e)%prog
  else
    let timeout := String.eqb (exc_class e) "TimeoutError" in
    (_record_unfinished_turn (if timeout then "timeout" else "error") ;;
     Ret (error_event
       (if timeout then Envelope TIMEOUT timeout_message JNull
        else if is_budget_exceeded e then budget_envelope else internal_error_envelope e), no_summary))%prog.

Definition BUSY_ENVELOPE : ErrorEnvelope := Envelope THREAD_BUSY THREAD_BUSY_MESSAGE JNull.
Definition NOTHING_LEFT_ENVELOPE : ErrorEnvelope :=
  Envelope CHECKPOINT_INCOMPATIBLE "This conversation's saved progress can no longer be continued. Please send your message again." JNull.

(** The text of a last message that was never streamed. *)
Definition skipped_text (messages : list message) : string :=
  match last messages with Some m => match m_content m with Plain s => s | Parts _ => "" end | None => "" end.

(** The run ended by itself: it is paused, busy, empty or finished. *)
Definition ended (answer : list string) : P (event * summary) :=
  (s ← call Aget_state;
   let sn := sv_snapshot s in
   let pending := negb (bool_decide (sn_next sn = [])) in
   match (if pending then head (concat (sn_tasks sn)) else None) with
   | Some calls => Ret (approval_event calls, no_summary)
   | None =>
       if pending then call (Count_turn "error") ;; Ret (error_event BUSY_ENVELOPE, no_summary) else
       if bool_decide (answer = []) && negb (from_option (is_type AIMessage) false (last (stored_messages s))) then
         call (Count_turn "error") ;; Ret (error_event NOTHING_LEFT_ENVELOPE, no_summary)
       else
         let text := if bool_decide (answer = []) then skipped_text (stored_messages s) else "" in
         call (Count_turn (from_option _turn_outcome "rejected" (sv_values s))) ;;
         (if nonempty text then call (Emit (token text)) else Ret ()) ;;
         Ret (plain_event "done",
              from_option (λ v, mkSummary (used_citations v) (ungrounded_claims_count v) (followups v)) no_summary (sv_values s))
   end)%prog.

Definition citations_event (su : summary) : event :=
  [("type", JStr "citations"); ("items", JList ((λ c, JObj (citation_dict c)) <$> su_citations su));
   ("ungrounded_claims_count", JInt (su_ungrounded su))].
Definition followups_event (su : summary) : event :=
  [("type", JStr "followups"); ("items", JList (JStr <$> su_followups su))].

Definition _run_graph_stream (run : graph_run) : P () :=
  (now ← call Monotonic;
   streamed ← catch (answer ← follow (now + REQUEST_TIMEOUT_SECONDS * 1000000) (gr_events run) (gr_end run) []; Ret (Ok answer)) (λ e, Ret (Err e));
   '(terminal, su) ← match streamed with Ok answer => ended answer | Err e => ended_by e end;
   (if negb (bool_decide (su_citations su = [])) || negb (su_ungrounded su =? 0) then call (Emit (citations_event su)) else Ret ()) ;;
   (if bool_decide (su_followups su = []) then Ret () else call (Emit (followups_event su))) ;;
   call (Emit terminal))%prog.

(** ** The entry points *)

(** What the runs of a request yield, by their number and what the graph is given. *)
Context (graph : nat → graph_input → graph_run).
Context (BUDGET_POLICY_REFRESH_SECONDS : Z) (limits : Defaults) (BUDGET_CHECK_FAILURE_POLICY : string) (MAX_COST_USD_PER_TURN : float).

Definition emit_error (e : ErrorEnvelope) : P () := call (Emit (error_event e)).

(** [_resumability_error_from_state] as the text a caller sees. *)
Definition resumability_text (r : resumability) : string :=
  match r with
  | checkpoint_lost =>
      "checkpoint_lost: no paused run found for this thread — it may have completed, never existed, its checkpoint was lost, or it's still actively running (not yet paused at an approval gate)."
  | checkpoint_incompatible paused_schema =>
      "checkpoint_incompatible: paused under state_schema_version " +:+ py_repr (default JNull paused_schema) +:+
      ", this build is " +:+ py_repr (JInt STATE_SCHEMA_VERSION) +:+ " — refusing to resume into a possibly different topology."
  end.

Definition resumability_error_async : P (option string) :=
  (s ← call Aget_state; Ret (resumability_text <$> _resumability_error_from_state (sv_snapshot s)))%prog.

Definition paused_approval_async : P (option (list (string * json) * bool)) :=
  (s ← call Aget_state; Ret (paused_approval (sv_snapshot s)))%prog.

Definition PENDING_APPROVAL_MESSAGE : string :=
  "This conversation has a pending approval — approve, reject, or cancel it before sending a new message.".
Definition NOTE_MESSAGE : string :=
  "A previous pending approval on this conversation could not be resumed after an app update; starting a new request.".
Definition PAUSED_BEFORE_CRASH_MESSAGE : string :=
  "This turn paused for approval right before a worker crash — resume or cancel it instead of retrying.".

(** The part of a turn under its hold; [n] numbers its run. *)
Definition turn_body (n : nat) (text : string) (images : list string) (require_approval : bool) : P () :=
  (call Init_graph ;;
   pending ← paused_approval_async;
   match pending with
   | Some (calls, true) => emit_error (Envelope PENDING_APPROVAL PENDING_APPROVAL_MESSAGE (JObj [("tool_calls", calls_json calls)]))
   | _ =>
       (match pending with
        | Some _ => call (Emit [("type", JStr "system_note"); ("content", JStr NOTE_MESSAGE)])
        | None => Ret ()
        end) ;;
       call (Upsert_session text) ;;
       _run_graph_stream (graph n (Question (_build_human_content text images) require_approval))
   end)%prog.

Definition astream_events_turn (n : nat) (text : string) (ctx : option SecurityCtx) (now : Z) (require_approval : bool) (images : list string) : P () :=
  (started ← ask (start_turn BUDGET_POLICY_REFRESH_SECONDS limits BUDGET_CHECK_FAILURE_POLICY MAX_COST_USD_PER_TURN ctx now);
   match started with
   | inl refusal => call (Count_turn "rejected") ;; emit_error refusal
   | inr hold => finally (turn_body n text images require_approval) (call (Release_later hold))
   end)%prog.

Definition resume_body (n : nat) (approved : json) : P () :=
  (call Init_graph ;;
   error ← resumability_error_async;
   match error with
   | Some error => call (Emit [("type", JStr "error"); ("content", JStr error)]) ;; call (Emit (plain_event "done"))
   | None => _run_graph_stream (graph n (Resume approved))
   end)%prog.

Definition astream_events_resume (n : nat) (approved : json) (ctx : option SecurityCtx) (now : Z) (admitted : bool) : P () :=
  (refusal ← (if admitted then Ret None else ask (allowance_refusal BUDGET_POLICY_REFRESH_SECONDS limits BUDGET_CHECK_FAILURE_POLICY ctx now));
   match refusal with
   | Some refusal => call (Count_turn "rejected") ;; emit_error refusal
   | None =>
       hold ← ask (reserve_turn_budget MAX_COST_USD_PER_TURN ctx);
       finally (resume_body n approved) (call (Release_later hold))
   end)%prog.

Definition _continue_turn_events (n : nat) : P () :=
  (call Init_graph ;;
   s ← call Aget_state;
   if paused (sv_snapshot s) then emit_error (Envelope PENDING_APPROVAL PAUSED_BEFORE_CRASH_MESSAGE JNull)
   else _run_graph_stream (graph n Nothing_new))%prog.

Definition astream_events_continue_turn (n : nat) (ctx : option SecurityCtx) : P () :=
  (hold ← ask (reserve_turn_budget MAX_COST_USD_PER_TURN ctx);
   finally (_continue_turn_events n) (call (Release_later hold)))%prog.

(** A paused run is ended by the answer that cancels it. *)
Definition cancel_run : P bool :=
  (call Init_graph ;;
   error ← resumability_error_async;
   match error with
   | Some _ => Ret false
   | None => call (Ainvoke (Resume (JStr CANCEL_SENTINEL))) ;; Ret true
   end)%prog.

(** *** Without a person *)

Definition is_approval (ev : event) : bool := bool_decide (dict_get "type" ev = Some (JStr "approval_required")).

(** The tools an approval names. *)
Definition pending_names (ev : event) : list string :=
  match dict_get "tool_calls" ev with
  | Some (JList calls) =>
      (λ c, match c with JObj d => match dict_get "name" d with Some (JStr s) => s | _ => "?" end | _ => "?" end) <$> calls
  | _ => []
  end.

(** A yield that is held back, and what the generator goes on with. *)
Definition held_back {R} (c : cmd R) : option (R * list string) :=
  match c in cmd R return option (R * list string) with
  | Emit ev => if is_approval ev then Some ((), pending_names ev) else None
  | _ => None
  end.

(** [_drain]: the events of [p] but its pause, and the tools of the pause if there was one. *)
Fixpoint drain (p : P ()) (paused : option (list string)) : P (option (list string)) :=
  match p with
  | Ret _ => Ret paused
  | Throw e => Throw e
  | Do c k =>
      match held_back c with
      | Some (v, names) => drain (k (Ok v)) (Some (default [] paused ++ names))
      | None => Do c (λ r, drain (k r) paused)
      end
  end.

Definition str_ins (s : string) (l : list string) : list string :=
  (fix go l := match l with
    | [] => [s]
    | x :: l' => if String.eqb s x then l else if String.ltb s x then s :: l else x :: go l'
    end) l.

(** [", ".join(sorted(set(names)))] *)
Definition listed (names : list string) : string := join ", " (foldr str_ins [] names).

Definition not_done_message (names : list string) : string :=
  "That needs a person's approval (" +:+ (if nonempty (listed names) then listed names else "an action") +:+
  "), which this channel can't provide — so it wasn't done.".

(** The loop; [n] numbers the next run, [rounds] the pauses that may still be declined. *)
Fixpoint decline (rounds : nat) (n : nat) (ctx : option SecurityCtx) (now : Z) (paused : option (list string)) : P () :=
  match paused with
  | None => Ret ()
  | Some names =>
      match rounds with
      | O => (cancel_run ;; call (Emit (token (not_done_message names))) ;; call (Emit (plain_event "done")))%prog
      | S rounds =>
          (paused ← drain (astream_events_resume n (JBool false) ctx now true) None;
           decline rounds (S n) ctx now paused)%prog
      end
  end.

Definition _decline_every_pause (UNATTENDED_MAX_DECLINE_ROUNDS : nat) (first_run : P ()) (ctx : option SecurityCtx) (now : Z) : P () :=
  (paused ← drain first_run None; decline UNATTENDED_MAX_DECLINE_ROUNDS 1 ctx now paused)%prog.

Definition astream_events_turn_unattended (rounds : nat) (text : string) (ctx : option SecurityCtx) (now : Z) (require_approval : bool) (images : list string) : P () :=
  _decline_every_pause rounds (astream_events_turn 0 text ctx now require_approval images) ctx now.

Definition astream_events_continue_turn_unattended (rounds : nat) (ctx : option SecurityCtx) (now : Z) : P () :=
  _decline_every_pause rounds (astream_events_continue_turn 0 ctx) ctx now.
End stream.

(** ** The transcript *)

Inductive role : Type := user | assistant | system.

(** Whose words a stored message is; nothing for what the person neither said nor saw. *)
Definition role_of (m : message) : option role :=
  match m_type m with
  | HumanMessage => Some user
  | AIMessage => Some assistant
  | SystemMessage => if is_compaction_marker m then Some system else None
  | ToolMessage => None
  end.

Fixpoint replayed (legacy : list string) (stored : list message) : result exc (list (role * string)) :=
  match stored with
  | [] => Ok []
  | m :: stored =>
      if is_retry_artifact m || bool_decide (m_id m ∈ (Some <$> legacy)) then replayed legacy stored else
      match role_of m with
      | None => replayed legacy stored
      | Some r =>
          rbind (_text_content (m_content m)) (λ text,
          rbind (replayed legacy stored) (λ rest, Ok (if nonempty text then (r, text) :: rest else rest)))
      end
  end.

Definition transcript (stored : list message) : result exc (list (role * string)) :=
  replayed (legacy_retry_artifact_ids stored) stored.

Definition get_session_messages : P (list (role * string)) :=
  (call Init_graph ;; s ← call Aget_state; of_result (transcript (stored_messages s)))%prog.

Definition get_pending_approval : P (option (list (string * json) * bool)) :=
  (call Init_graph ;; paused_approval_async)%prog.
