(* ===== verification/StreamFacts.v ===== *)
(** The protocol of the event generators: what they yield, when they work on the conversation,
    and how they end. *)
From Stdlib Require Import SpecFloat.
From S2P Require Import Prelude Dict Json Text Messages Process Calendar Decimals Usage Jobs JobAnswers AgentState Compaction Turn Budgets Stream.

Local Open Scope string_scope.
Local Open Scope list_scope.

(** ** The protocol *)

(** Where a generator is with its caller: nothing final was said, a terminal event was, or the
    terminal event of a pause. *)
Inductive said_state : Type := Going | Over | Paused.

(** [sane] collects what was good of the answers so far. *)
Record stream_state : Type := mkStream { sane : Prop; said : said_state }.
Definition going : stream_state := mkStream True Going.

(** The calls a checkpoint shows are JSON. *)
Definition wf_saved (s : saved) : Prop := Forall (Forall (Forall (λ c : string * json, wf_json c.2))) (sn_tasks (sv_snapshot s)).

Definition good_answer {R} (c : Stream.cmd R) : result exc R → Prop :=
  match c in Stream.cmd R return result exc R → Prop with
  | Aget_state => λ r, match r with Ok s => wf_saved s | Err _ => True end
  | _ => λ _, True
  end.

(** Every event is a JSON object; the conversation is worked on only before a terminal event;
    after one there is at most a plain [done], and nothing after a pause, which only a person is
    told of. *)
Definition speaks (person : bool) (x : stream_state) (R : Type) (c : Stream.cmd R) : Prop :=
  match c with
  | Emit ev => (sane x → wf_json (JObj ev)) ∧ said x ≠ Paused ∧ (said x = Over → ev = plain_event "done") ∧
      (person = false → is_approval ev = false)
  | Anext _ | Aget_state | Aupdate_state _ | Ainvoke _ => said x = Going
  | _ => True
  end.

Definition said_after (b : said_state) (ev : event) : said_state :=
  if is_approval ev then Paused else if is_terminal ev then Over else b.

Definition heard (x : stream_state) (R : Type) (c : Stream.cmd R) : result exc R → stream_state :=
  match c in Stream.cmd R return result exc R → stream_state with
  | Emit ev => λ r, match r with Ok _ => mkStream (sane x) (said_after (said x) ev) | Err _ => x end
  | Aget_state => λ r, mkStream (sane x ∧ good_answer Aget_state r) (said x)
  | _ => λ _, x
  end.

Abbreviation speaking person := (safe (speaks person) heard).

(** [p] keeps to the protocol, leaves the caller waiting, and [Q] holds of what it returns. *)
Definition says {A} (p : Stream.P A) (Q : Prop → A → Prop) : Prop :=
  ∀ x, said x = Going → speaking false x p (λ x' r,
    said x' = Going ∧ (sane x' → sane x) ∧ match r with Ok a => Q (sane x') a | Err _ => True end).
Definition quiet {A} (p : Stream.P A) : Prop := says p (λ _ _, True).

(** [p] keeps to the protocol and has said its last word when it returns. *)
Definition final (person : bool) (p : Stream.P ()) : Prop :=
  ∀ x, said x = Going → speaking person x p (λ x' r, match r with Ok _ => said x' ≠ Going | Err _ => True end).

Lemma speaking_weaken {A} person x (p : Stream.P A) Q : speaking false x p Q → speaking person x p Q.
Proof.
  revert x. induction p as [a|e|R c k IH]; intros x; cbn [safe]; [done..|]. intros [Hc Hk]. split; [|intros r; by apply IH].
  destruct c; cbn [speaks] in *; try done. destruct Hc as (H1 & H2 & H3 & H4). split_and!; [done..|]. intros _. by apply H4.
Qed.

(** *** Quiet programs *)

Lemma says_ret {A} (a : A) (Q : Prop → A → Prop) : (∀ P, Q P a) → says (Ret a) Q.
Proof. by intros HQ x Hx. Qed.
Lemma says_throw {A} e (Q : Prop → A → Prop) : says (Throw e) Q.
Proof. by intros x Hx. Qed.
Lemma quiet_ret {A} (a : A) : quiet (Ret a).
Proof. by apply says_ret. Qed.
Lemma quiet_throw {A} e : quiet (Throw e : Stream.P A).
Proof. apply says_throw. Qed.

Lemma says_bind {A B} (p : Stream.P A) (f : A → Stream.P B) Q Q' :
  says p Q → (∀ a x, said x = Going → Q (sane x) a → speaking false x (f a) (λ x' r,
    said x' = Going ∧ (sane x' → sane x) ∧ match r with Ok b => Q' (sane x') b | Err _ => True end)) → says (bind p f) Q'.
Proof.
  intros Hp Hf x Hx. apply safe_bind. eapply safe_conseq; [by apply Hp|]. intros x' [a|e] (H1 & H2 & HQ); [|done].
  eapply safe_conseq; [by apply Hf|]. intros x'' r (H3 & H4 & H5). split_and!; [done|tauto|done].
Qed.

Lemma says_then {A B} (p : Stream.P A) (f : A → Stream.P B) Q : quiet p → (∀ a, says (f a) Q) → says (bind p f) Q.
Proof. intros Hp Hf. eapply says_bind; [exact Hp|]. intros a x Hx _. by apply Hf. Qed.

Lemma quiet_bind {A B} (p : Stream.P A) (f : A → Stream.P B) : quiet p → (∀ a, quiet (f a)) → quiet (bind p f).
Proof. apply says_then. Qed.

Lemma says_catch {A} (p : Stream.P A) (h : exc → Stream.P A) Q : says p Q → (∀ e, says (h e) Q) → says (catch p h) Q.
Proof.
  intros Hp Hh x Hx. apply safe_catch. eapply safe_conseq; [by apply Hp|]. intros x' [a|e] (H1 & H2 & HQ); [done|].
  eapply safe_conseq; [by apply Hh|]. intros x'' r (H3 & H4 & H5). split_and!; [done|tauto|done].
Qed.

Lemma quiet_catch {A} (p : Stream.P A) (h : exc → Stream.P A) : quiet p → (∀ e, quiet (h e)) → quiet (catch p h).
Proof. apply says_catch. Qed.
Lemma quiet_catch_exception {A} (p : Stream.P A) (h : exc → Stream.P A) : quiet p → (∀ e, quiet (h e)) → quiet (catch_exception p h).
Proof. intros Hp Hh. apply says_catch; [done|]. intros e. destruct (base_exception e); [apply says_throw|apply Hh]. Qed.

Definition speechless {R} (c : Stream.cmd R) : bool := match c with Emit _ => false | _ => true end.
Lemma quiet_call {R} (c : Stream.cmd R) : speechless c = true → quiet (call c).
Proof.
  intros Hc x Hx. apply safe_call; [by destruct c|]. intros r. destruct c; simpl; try done; (split_and!; [done|try tauto|by destruct r]).
Qed.

Definition plain_speech (ev : event) : Prop := wf_json (JObj ev) ∧ is_terminal ev = false.
Lemma approval_terminal ev : is_approval ev = true → is_terminal ev = true.
Proof. unfold is_approval, is_terminal. intros ->%bool_decide_eq_true. vm_compute. done. Qed.
Lemma plain_no_approval ev : is_terminal ev = false → is_approval ev = false.
Proof. intros H. destruct (is_approval ev) eqn:E; [|done]. apply approval_terminal in E. congruence. Qed.

Lemma quiet_emit ev : plain_speech ev → quiet (call (Emit ev)).
Proof.
  intros [Hw Ht] x Hx. pose proof (plain_no_approval _ Ht) as Ha. apply safe_call.
  - cbn. rewrite Hx. by split_and!.
  - intros [r|e]; simpl; [|done]. unfold said_after. by rewrite Ha, Ht.
Qed.

Lemma quiet_of_result {A} (r : result exc A) : quiet (of_result r).
Proof. destruct r; [apply quiet_ret|apply quiet_throw]. Qed.

Lemma quiet_if {A} (b : bool) (p q : Stream.P A) : quiet p → quiet q → quiet (if b then p else q).
Proof. by destruct b. Qed.

Lemma quiet_ask {A} (p : prog Budgets.cmd A) : quiet (ask p).
Proof. induction p as [a|e|R c k IH]; intros x Hx; cbn [ask safe]; [done..|]. split; [done|]. intros r. cbn [heard]. by apply IH. Qed.

(** What a program of the allowance returns. *)
Definition returns {cmd A} (p : prog cmd A) (Q : A → Prop) : Prop := safe (λ (_ : ()) _ _, True) (λ x _ _ _, x) () p (λ _ r, match r with Ok a => Q a | Err _ => True end).
Lemma returns_true {cmd A} (p : prog cmd A) : returns p (λ _, True).
Proof. unfold returns. induction p as [a|e|R c k IH]; cbn [safe]; [done..|]. split; [done|]. intros r. apply IH. Qed.
Lemma returns_bind {cmd A B} (p : prog cmd A) (f : A → prog cmd B) Q : (∀ a, returns (f a) Q) → returns (bind p f) Q.
Proof. intros Hf. apply safe_bind. eapply safe_conseq; [apply returns_true|]. intros [] [a|e] _; [apply Hf|done]. Qed.
Lemma says_ask {A} (p : prog Budgets.cmd A) Q : returns p Q → says (ask p) (λ _, Q).
Proof.
  unfold returns. induction p as [a|e|R c k IH]; intros Hp x Hx; cbn [ask safe] in Hp |- *; [done..|]. split; [done|]. intros r.
  cbn [heard]. apply IH; [apply Hp|done].
Qed.

(** *** Final programs *)

Lemma final_throw person e : final person (Throw e).
Proof. by intros x Hx. Qed.

Lemma final_bind {A} person (p : Stream.P A) (f : A → Stream.P ()) Q :
  says p Q → (∀ a x, said x = Going → Q (sane x) a → speaking person x (f a) (λ x' r, match r with Ok _ => said x' ≠ Going | Err _ => True end)) →
  final person (bind p f).
Proof.
  intros Hp Hf x Hx. apply safe_bind. eapply safe_conseq; [apply speaking_weaken; by apply Hp|]. intros x' [a|e] (H1 & H2 & HQ); [|done].
  by apply Hf.
Qed.

Lemma final_then {A} person (p : Stream.P A) (f : A → Stream.P ()) : quiet p → (∀ a, final person (f a)) → final person (bind p f).
Proof. intros Hp Hf. eapply final_bind; [exact Hp|]. intros a x Hx _. by apply Hf. Qed.

Lemma final_finally person (p : Stream.P ()) hold : final person p → final person (finally p (call (Release_later hold))).
Proof.
  intros Hp x Hx. apply safe_finally. eapply safe_conseq; [by apply Hp|]. intros x' r Hr. apply safe_call; [done|]. by intros [[]|e].
Qed.

Lemma speaking_terminal person x ev : said x = Going → (sane x → wf_json (JObj ev)) → is_terminal ev = true →
  (person = false → is_approval ev = false) →
  speaking person x (call (Emit ev)) (λ x' r, match r with Ok _ => said x' ≠ Going | Err _ => True end).
Proof.
  intros Hx Hw Ht Ha. apply safe_call.
  - cbn. rewrite Hx. by split_and!.
  - intros [[]|e]; [|done]. cbn. unfold said_after. destruct (is_approval ev); [done|]. by rewrite Ht.
Qed.

Lemma final_terminal person ev : wf_json (JObj ev) → is_terminal ev = true → is_approval ev = false → final person (call (Emit ev)).
Proof. intros Hw Ht Ha x Hx. by apply speaking_terminal. Qed.

Create HintDb speech discriminated.
#[export] Hint Resolve quiet_ret quiet_throw quiet_bind quiet_catch_exception quiet_call quiet_of_result quiet_if quiet_ask quiet_emit
  final_throw final_then final_finally final_terminal : speech.
#[export] Hint Extern 1 (speechless _ = true) => reflexivity : speech.
#[export] Hint Extern 3 => progress intros : speech.

(** *** Events *)

(** The keys are decided, the values are left. *)
Ltac wf_object := apply wf_obj; split; [apply (bool_decide_unpack _); vm_compute; exact I|repeat apply Forall_cons_2; try apply Forall_nil_2; try exact I].

Lemma plain_token s : plain_speech (token s).
Proof. split; [wf_object|done]. Qed.
Lemma plain_plain s : bool_decide (s ∈ TERMINAL_EVENT_TYPES) = false → plain_speech (plain_event s).
Proof. intros H. split; [wf_object|]. done. Qed.
#[export] Hint Resolve plain_token : speech.
#[export] Hint Extern 1 (plain_speech (plain_event _)) => apply plain_plain; reflexivity : speech.

Lemma error_is_terminal env : is_terminal (error_event env) = true ∧ is_approval (error_event env) = false.
Proof. done. Qed.
Lemma done_is_terminal : is_terminal (plain_event "done") = true ∧ is_approval (plain_event "done") = false.
Proof. done. Qed.

Lemma final_error person env : wf_json (env_details env) → final person (emit_error env).
Proof. intros Hw. apply final_terminal; [by apply wf_error_event|done..]. Qed.
Lemma final_done person : final person (call (Emit (plain_event "done"))).
Proof. apply final_terminal; [apply wf_done|done..]. Qed.
#[export] Hint Resolve final_error final_done : speech.

Lemma wf_calls_json calls : Forall (λ c : string * json, wf_json c.2) calls → wf_json (calls_json calls).
Proof.
  intros Hc. apply wf_list, Forall_fmap. eapply Forall_impl; [exact Hc|]. intros c Hw. unfold compose. wf_object. done.
Qed.

Lemma wf_approval calls : Forall (λ c : string * json, wf_json c.2) calls → wf_json (JObj (approval_event calls)).
Proof. intros Hc. wf_object. by apply wf_calls_json. Qed.

Lemma wf_refusal a : wf_json (env_details (refusal_envelope a)).
Proof.
  unfold refusal_envelope. destruct (al_status a); [| |done|by wf_object]; destruct (al_scope a), (al_resets_at a); wf_object.
Qed.

(** ** The parts of a run *)

Section run.
Context (REQUEST_TIMEOUT_SECONDS : Z) (citation_dict : citation → list (string * json)) (is_budget_exceeded : exc → bool) (has_cancel_check : bool).
Hypothesis wf_citation : ∀ c, wf_json (JObj (citation_dict c)).

(** The inputs of the tools that start are JSON. *)
Definition wf_run (run : graph_run) : Prop := Forall (λ ev, from_option wf_json True (ge_input ev)) (gr_events run).

Lemma quiet_next_event deadline : quiet (next_event has_cancel_check deadline).
Proof.
  unfold next_event. apply quiet_bind; [by auto with speech|]. intros now. apply quiet_if; [by auto with speech|].
  apply quiet_bind; [by auto with speech|]. intros []; auto with speech.
Qed.

Lemma quiet_replace_answer ms answer : quiet (replace_answer ms answer).
Proof.
  unfold replace_answer. destruct (last ms) as [m|]; [|by auto with speech]. apply quiet_bind; [by auto with speech|]. intros _.
  destruct (m_content m); auto with speech.
Qed.

Lemma plain_tool_start ev subagent : from_option wf_json True (ge_input ev) →
  plain_speech ([("type", JStr "tool_start"); ("tool", JStr (ge_name ev)); ("args", default (JObj []) (ge_input ev))] ++
    (if (subagent : bool) then [] else [("subagent", JStr (ge_subagent ev))])).
Proof.
  intros Hw. assert (wf_json (default (JObj []) (ge_input ev))) by (destruct (ge_input ev); [done|by apply wf_obj; split; [constructor|]]).
  destruct subagent; (split; [by wf_object|done]).
Qed.
Lemma plain_tool_end ev subagent :
  plain_speech ([("type", JStr "tool_end"); ("tool", JStr (ge_name ev))] ++ (if (subagent : bool) then [] else [("subagent", JStr (ge_subagent ev))])).
Proof. destruct subagent; (split; [by wf_object|done]). Qed.
Hint Resolve plain_tool_start plain_tool_end : speech.

Lemma quiet_translate ev answer : from_option wf_json True (ge_input ev) → quiet (translate ev answer).
Proof.
  intros Hw. unfold translate. repeat (apply quiet_if); try (by auto with speech). apply quiet_replace_answer.
Qed.

Lemma quiet_follow deadline evs ending answer : Forall (λ ev, from_option wf_json True (ge_input ev)) evs →
  quiet (follow has_cancel_check deadline evs ending answer).
Proof.
  intros Hw. revert answer. induction Hw as [|ev evs Hev Hw IH]; intros answer; cbn [follow]; (apply quiet_bind; [apply quiet_next_event|]); intros _.
  - destruct ending; auto with speech.
  - apply quiet_bind; [by apply quiet_translate|]. auto.
Qed.

Lemma quiet_record outcome : quiet (_record_unfinished_turn outcome).
Proof. unfold _record_unfinished_turn. auto 8 with speech. Qed.

Lemma quiet_discard : quiet discard_cancelled_turn.
Proof.
  unfold discard_cancelled_turn. apply quiet_catch_exception; [|auto with speech]. apply quiet_bind; [auto with speech|]. intros s.
  destruct (discard_update _) as [outcome update]. auto with speech.
Qed.

(** What a run is reported with. *)
Definition reported (P : Prop) (r : event * summary) : Prop := (P → wf_json (JObj r.1)) ∧ is_terminal r.1 = true.

Lemma reported_error P env su : wf_json (env_details env) → reported P (error_event env, su).
Proof. intros Hw. split; [|done]. intros _. by apply wf_error_event. Qed.

Lemma says_ended_by e : says (ended_by REQUEST_TIMEOUT_SECONDS is_budget_exceeded e) reported.
Proof.
  unfold ended_by. repeat case_match; (apply says_then; [by apply quiet_record|]); intros _;
    try (apply says_then; [by apply quiet_discard|]; intros _); try apply says_throw;
    apply says_ret; intros P; apply reported_error; try done. by wf_object.
Qed.

Lemma says_saved : says (call Aget_state) (λ P s, P → wf_saved s).
Proof. intros x Hx. apply safe_call; [done|]. intros [s|e]; cbn; (split_and!; [done|tauto|]); tauto. Qed.

Lemma saved_calls s calls : wf_saved s → head (concat (sn_tasks (sv_snapshot s))) = Some calls → Forall (λ c : string * json, wf_json c.2) calls.
Proof. intros Hs Hc. apply head_Some_elem_of in Hc. apply Forall_concat in Hs. by eapply Forall_forall in Hs. Qed.

Lemma reported_weaken (P P' : Prop) r : reported P r → (P' → P) → reported P' r.
Proof. intros [H1 H2] HP. split; [tauto|done]. Qed.

Lemma says_mono {A} (p : Stream.P A) (Q : Prop → A → Prop) x : says p Q → said x = Going → speaking false x p (λ x' r,
  said x' = Going ∧ (sane x' → sane x) ∧ match r with Ok b => Q (sane x') b | Err _ => True end).
Proof. auto. Qed.

Lemma says_ended answer : says (ended answer) reported.
Proof.
  unfold ended. eapply says_bind; [exact says_saved|]. intros s x Hx Hs. cbv zeta.
  case_match eqn:Ec.
  - split_and!; [done|tauto|]. split; [|done]. intros HP. apply wf_approval. destruct (negb _); [|done]. by eapply saved_calls; [apply Hs|].
  - apply says_mono; [|done]. case_match.
    + apply says_then; [auto with speech|]. intros _. apply says_ret. intros P. by apply reported_error.
    + case_match; (apply says_then; [auto with speech|]); intros _.
      * apply says_ret. intros P. by apply reported_error.
      * apply says_then; [case_match; auto with speech|]. intros _. apply says_ret. intros P. split; [|done]. intros _. apply wf_done.
Qed.

Lemma plain_citations su : plain_speech (citations_event citation_dict su).
Proof. split; [|done]. wf_object; apply wf_list, Forall_fmap, Forall_true; intros c; apply wf_citation. Qed.
Lemma plain_followups su : plain_speech (followups_event su).
Proof. split; [|done]. wf_object; apply wf_list, Forall_fmap, Forall_true; intros c; exact I. Qed.
Hint Resolve plain_citations plain_followups : speech.

Abbreviation stream := (_run_graph_stream REQUEST_TIMEOUT_SECONDS citation_dict is_budget_exceeded has_cancel_check).

Lemma final_stream run : wf_run run → final true (stream run).
Proof.
  intros Hw. unfold _run_graph_stream. apply final_then; [auto with speech|]. intros now.
  apply final_then.
  { apply quiet_catch; [|auto with speech]. apply quiet_bind; [by apply quiet_follow|auto with speech]. }
  intros streamed. eapply final_bind.
  { assert (says match streamed with Ok answer => ended answer | Err e => ended_by REQUEST_TIMEOUT_SECONDS is_budget_exceeded e end reported)
      by (destruct streamed; [apply says_ended|apply says_ended_by]). exact H. }
  intros [terminal su] x Hx [Hwt Ht]. apply safe_bind. eapply safe_conseq.
  { apply speaking_weaken, says_mono with (Q := λ _ _, True); [|done]. apply quiet_if; auto with speech. }
  intros x1 [[]|e] (Hx1 & Hs1 & _); [|done]. apply safe_bind. eapply safe_conseq.
  { apply speaking_weaken, says_mono with (Q := λ _ _, True); [|done]. apply quiet_if; auto with speech. }
  intros x2 [[]|e] (Hx2 & Hs2 & _); [|done]. apply speaking_terminal; [done| |done|done]. intros HP. apply Hwt. tauto.
Qed.

(** ** The entry points *)

Context (graph : nat → graph_input → graph_run).
Context (BUDGET_POLICY_REFRESH_SECONDS : Z) (limits : Defaults) (BUDGET_CHECK_FAILURE_POLICY : string) (MAX_COST_USD_PER_TURN : float).
Hypothesis wf_graph : ∀ n i, wf_run (graph n i).

Abbreviation of_turn := (astream_events_turn REQUEST_TIMEOUT_SECONDS citation_dict is_budget_exceeded has_cancel_check graph
  BUDGET_POLICY_REFRESH_SECONDS limits BUDGET_CHECK_FAILURE_POLICY MAX_COST_USD_PER_TURN).
Abbreviation of_resume := (astream_events_resume REQUEST_TIMEOUT_SECONDS citation_dict is_budget_exceeded has_cancel_check graph
  BUDGET_POLICY_REFRESH_SECONDS limits BUDGET_CHECK_FAILURE_POLICY MAX_COST_USD_PER_TURN).
Abbreviation of_continue := (astream_events_continue_turn REQUEST_TIMEOUT_SECONDS citation_dict is_budget_exceeded has_cancel_check graph
  MAX_COST_USD_PER_TURN).

Lemma returns_refusal ctx now : returns (allowance_refusal BUDGET_POLICY_REFRESH_SECONDS limits BUDGET_CHECK_FAILURE_POLICY ctx now)
  (from_option (λ e, wf_json (env_details e)) True).
Proof. apply returns_bind. intros a. cbn [returns safe]. unfold returns, safe. case_match; [apply wf_refusal|done]. Qed.

Lemma returns_start ctx now : returns (start_turn BUDGET_POLICY_REFRESH_SECONDS limits BUDGET_CHECK_FAILURE_POLICY MAX_COST_USD_PER_TURN ctx now)
  (λ r, match r with inl e => wf_json (env_details e) | inr _ => True end).
Proof.
  apply returns_bind. intros [|]; [done|]. apply safe_bind. eapply safe_conseq; [apply returns_refusal|].
  intros [] [[e|]|e] He; [done| |done]. by apply returns_bind.
Qed.

(** What a saved run asks for approval of. *)
Lemma wf_paused_calls tasks : Forall (Forall (Forall (λ c : string * json, wf_json c.2))) tasks → Forall (λ c : string * json, wf_json c.2) (paused_calls tasks).
Proof.
  induction 1 as [|interrupts tasks Hi Ht IH]; cbn [paused_calls]; [done|]. destruct interrupts as [|[|c calls] l]; cbn [head]; [done..|].
  by apply Forall_cons in Hi as [Hi _].
Qed.

Definition wf_pending (P : Prop) (r : option (list (string * json) * bool)) : Prop :=
  P → from_option (λ p, Forall (λ c : string * json, wf_json c.2) p.1) True r.

Lemma says_pending : says paused_approval_async wf_pending.
Proof.
  eapply says_bind; [exact says_saved|]. intros s x Hx Hs. split_and!; [done|tauto|]. intros HP. unfold paused_approval.
  case_match; [done|]. by apply wf_paused_calls, Hs.
Qed.

Lemma final_turn_body n text images ra :
  final true (turn_body REQUEST_TIMEOUT_SECONDS citation_dict is_budget_exceeded has_cancel_check graph n text images ra).
Proof.
  unfold turn_body. apply final_then; [auto with speech|]. intros _. eapply final_bind; [exact says_pending|].
  intros pending x Hx Hp.
  assert (Hrun : ∀ p : Stream.P (), quiet p → final true (p ;; call (Upsert_session text) ;;
    stream (graph n (Question (_build_human_content text images) ra)))%prog).
  { intros p Hq. apply final_then; [done|]. intros _. apply final_then; [auto with speech|]. intros _. apply final_stream, wf_graph. }
  destruct pending as [[calls []]|].
  - apply speaking_terminal; [done| |done|done]. intros HP. apply wf_error_event. wf_object. apply wf_calls_json, (Hp HP).
  - apply Hrun; [|done]. apply quiet_emit. split; [wf_object|done].
  - by apply Hrun; [apply quiet_ret|].
Qed.

Lemma final_turn n text ctx now ra images : final true (of_turn n text ctx now ra images).
Proof.
  unfold astream_events_turn. eapply final_bind; [apply says_ask, returns_start|]. intros [e|hold] x Hx He.
  - apply (final_then true (call (Count_turn "rejected")) (λ _, emit_error e)); [auto with speech| |done]. intros _. by apply final_error.
  - apply final_finally; [|done]. apply final_turn_body.
Qed.

Lemma final_resume_body n approved :
  final true (resume_body REQUEST_TIMEOUT_SECONDS citation_dict is_budget_exceeded has_cancel_check graph n approved).
Proof.
  unfold resume_body. apply final_then; [auto with speech|]. intros _. apply final_then; [unfold resumability_error_async; auto with speech|].
  intros [error|]; [|apply final_stream, wf_graph]. intros x Hx.
  assert (Hw : wf_json (JObj [("type", JStr "error"); ("content", JStr error)])) by by wf_object.
  apply safe_bind. apply safe_call.
  - cbn [speaks]. rewrite Hx. by split_and!.
  - intros [[]|e]; [|done]. apply safe_call; [|by intros [[]|e]]. cbn [speaks heard sane said].
    split_and!; [intros _; apply wf_done|done..].
Qed.

Lemma final_resume n approved ctx now admitted : final true (of_resume n approved ctx now admitted).
Proof.
  assert (Hrest : final true (hold ← ask (reserve_turn_budget MAX_COST_USD_PER_TURN ctx);
    finally (resume_body REQUEST_TIMEOUT_SECONDS citation_dict is_budget_exceeded has_cancel_check graph n approved) (call (Release_later hold)))%prog).
  { apply final_then; [auto with speech|]. intros hold. apply final_finally, final_resume_body. }
  unfold astream_events_resume. eapply (final_bind _ _ _ (λ _, from_option (λ e, wf_json (env_details e)) True)).
  { destruct admitted; [by apply says_ret|]. apply says_ask, returns_refusal. }
  intros [e|] x Hx He; [|by apply Hrest].
  apply (final_then true (call (Count_turn "rejected")) (λ _, emit_error e)); [auto with speech| |done]. intros _. by apply final_error.
Qed.

Lemma final_continue n ctx : final true (of_continue n ctx).
Proof.
  unfold astream_events_continue_turn. apply final_then; [auto with speech|]. intros hold. apply final_finally.
  unfold _continue_turn_events. apply final_then; [auto with speech|]. intros _. apply final_then; [auto with speech|]. intros s.
  destruct (paused _); [by apply final_error|apply final_stream, wf_graph].
Qed.

Lemma quiet_cancel_run : quiet cancel_run.
Proof.
  unfold cancel_run. apply quiet_bind; [auto with speech|]. intros _.
  apply quiet_bind; [unfold resumability_error_async; auto with speech|]. intros [|]; auto with speech.
Qed.

(** *** Without a person *)

(** Where a held-back generator and the one that holds it back are. *)
Definition holding (x y : stream_state) (paused : option (list string)) : Prop :=
  (sane y → sane x) ∧ match paused with None => said x = said y ∧ said x ≠ Paused | Some _ => said x = Paused ∧ said y = Going end.

Lemma drained p x y paused Q :
  speaking true x p Q → holding x y paused →
  speaking false y (drain p paused) (λ y' r, match r with
    | Ok paused' => ∃ x', holding x' y' paused' ∧ Q x' (Ok ())
    | Err e => True
    end).
Proof.
  revert x y paused. induction p as [[]|e|R c k IH]; intros x y paused; cbn [safe drain]; [eauto|done|]. intros [Hc Hk] [Hs Hh].
  assert (Hgo : held_back c = None → (∀ r, holding (heard x R c r) (heard y R c r) paused) → speaks false y R c →
    speaking false y (Do c (λ r, drain (k r) paused)) (λ y' r, match r with
      | Ok paused' => ∃ x', holding x' y' paused' ∧ Q x' (Ok ()) | Err e => True end)).
  { intros _ Hn Ha. split; [done|]. intros r. by eapply IH. }
  assert (Hsame : held_back c = None → heard x R c = (λ _, x) → heard y R c = (λ _, y) → speaks false y R c →
    speaking false y (Do c (λ r, drain (k r) paused)) (λ y' r, match r with
      | Ok paused' => ∃ x', holding x' y' paused' ∧ Q x' (Ok ()) | Err e => True end)).
  { intros Hb Hx Hy Ha. apply Hgo; [done| |done]. intros r. rewrite Hx, Hy. by split. }
  assert (Hw : said x = Going → said y = Going) by (intros Hx; destruct paused; destruct Hh; congruence).
  destruct c; cbn [held_back]; try (apply Hsame; [done..|]; cbn [speaks] in Hc |- *; by auto).
  - apply Hgo; [done| |by apply Hw]. intros r. split; [cbn; tauto|done].
  - cbn [speaks] in Hc. destruct Hc as (Hwf & Hnp & Hover & _). destruct paused as [names|]; [by destruct Hh|]. destruct Hh as [Hxy _].
    destruct (is_approval ev) eqn:Ea; [|apply Hgo; [by cbn; rewrite Ea| |]].
    + apply (IH (Ok ())) with (x := heard x () (Emit ev) (Ok ())); [apply Hk|]. split; [done|]. cbn. unfold said_after. rewrite Ea. split; [done|].
      destruct (said x) eqn:E; [done| |done]. specialize (Hover eq_refl). subst ev. done.
    + intros [[]|e]; (split; [done|]); cbn; [|done]. unfold said_after. rewrite Ea, Hxy. split; [done|]. rewrite <-Hxy. by destruct (is_terminal ev).
    + cbn [speaks]. rewrite <-Hxy. split_and!; auto.
Qed.

Lemma speaks_drain p : final true p → ∀ x, said x = Going →
  speaking false x (drain p None) (λ y r, match r with
    | Ok (Some _) => said y = Going | Ok None => said y = Over | Err _ => True end).
Proof.
  intros Hp x Hx. eapply safe_conseq; [eapply drained; [by apply Hp|]|].
  - split; [done|]. by rewrite Hx.
  - intros y [[names|]|e]; [| |done]; intros (x' & [_ Hh] & Hf); [tauto|]. destruct Hh as [<- Hn]. by destruct (said x').
Qed.

Abbreviation declining := (decline REQUEST_TIMEOUT_SECONDS citation_dict is_budget_exceeded has_cancel_check graph
  BUDGET_POLICY_REFRESH_SECONDS limits BUDGET_CHECK_FAILURE_POLICY MAX_COST_USD_PER_TURN).

Lemma speaks_decline rounds n ctx now (paused : option (list string)) x : said x = (if paused is Some _ then Going else Over) →
  speaking false x (declining rounds n ctx now paused) (λ x' r, match r with Ok _ => said x' ≠ Going | Err _ => True end).
Proof.
  revert n paused x. induction rounds as [|rounds IH]; intros n [names|] x Hx; cbn [decline]; try (cbn [safe]; by rewrite Hx).
  - revert x Hx. change (final false (cancel_run ;; call (Emit (token (not_done_message names))) ;; call (Emit (plain_event "done")))%prog).
    apply final_then; [apply quiet_cancel_run|]. auto with speech.
  - apply safe_bind. eapply safe_conseq; [apply speaks_drain; [apply final_resume|done]|].
    intros y [[names'|]|e] Hy; [by apply IH..|done].
Qed.

Lemma final_unattended rounds first_run ctx now : final true first_run →
  final false (_decline_every_pause REQUEST_TIMEOUT_SECONDS citation_dict is_budget_exceeded has_cancel_check graph
    BUDGET_POLICY_REFRESH_SECONDS limits BUDGET_CHECK_FAILURE_POLICY MAX_COST_USD_PER_TURN rounds first_run ctx now).
Proof.
  intros Hp x Hx. unfold _decline_every_pause. apply safe_bind. eapply safe_conseq; [by apply speaks_drain|].
  intros y [[names|]|e] Hy; [by apply speaks_decline..|done].
Qed.
End run.

(** What a reader of the events has on the screen: drafts that are put together, cleared and
    replaced, and the answer they come to. *)

(** ** The events of a run *)

Definition yielded {R} (c : Stream.cmd R) : option (R * event) :=
  match c in Stream.cmd R return option (R * event) with Emit ev => Some ((), ev) | _ => None end.
Definition yield_of (s : step Stream.cmd) : option event :=
  match yielded (st_cmd s), st_answer s with Some (_, ev), Ok _ => Some ev | _, _ => None end.
Definition yields (tr : list (step Stream.cmd)) : list event := omap yield_of tr.

Lemma yields_app tr1 tr2 : yields (tr1 ++ tr2) = yields tr1 ++ yields tr2.
Proof. apply omap_app. Qed.

(** A reader adds a token to its draft and drops the draft on a retry. *)
Definition show (shown : string) (ev : event) : string :=
  match dict_get "type" ev with
  | Some (JStr t) =>
      if String.eqb t "token" then match dict_get "content" ev with Some (JStr s) => shown +:+ s | _ => shown end
      else if String.eqb t "retry" then "" else shown
  | _ => shown
  end.
Definition screen (shown : string) (evs : list event) : string := foldl show shown evs.

Lemma screen_app s evs1 evs2 : screen s (evs1 ++ evs2) = screen (screen s evs1) evs2.
Proof. apply foldl_app. Qed.

(** The answer the graph's events come to: the text of the agent's model, forgotten when it is
    rejected, and the text that replaces it when a check rewrote it. *)
Definition text_of (c : content) : string := match _text_content c with Ok s => s | Err _ => "" end.
Definition answer_step (shown : string) (ev : graph_event) : string :=
  if nonempty (ge_subagent ev) then shown else
  if String.eqb (ge_event ev) "on_chat_model_stream" then
    if bool_decide (ge_node ev = Some "agent") then shown +:+ text_of (ge_chunk ev) else shown
  else if String.eqb (ge_event ev) "on_chain_end" then
    if String.eqb (ge_name ev) "retry_output" then ""
    else if bool_decide (ge_name ev ∈ ["check_output"; "retry_exhausted"]) then
      match last (ge_messages ev) with Some m => match m_content m with Plain s => s | Parts _ => "" end | None => shown end
    else shown
  else shown.
Definition graph_answer (run : graph_run) : string := foldl answer_step "" (gr_events run).

(** ** Programs that yield nothing *)

Definition mute {A} (p : Stream.P A) : Prop := safe (λ (_ : ()) _ c, speechless c = true) (λ x _ _ _, x) () p (λ _ _, True).

Lemma mute_yields {A} (p : Stream.P A) tr out : mute p → path p tr out → yields tr = [].
Proof.
  unfold mute. revert tr. induction p as [a|e|R c k IH]; intros tr; cbn [safe path]; [by intros _ [-> _]..|].
  intros [Hc Hk]. destruct tr as [|s tr]; [done|]. intros (r & -> & Hp). unfold yields. cbn [omap list_omap].
  assert (yield_of (Step c r) = None) as -> by by destruct c. by apply (IH r).
Qed.

Lemma mute_bind {A B} (p : Stream.P A) (f : A → Stream.P B) : mute p → (∀ a, mute (f a)) → mute (bind p f).
Proof. intros Hp Hf. apply safe_bind. eapply safe_conseq; [exact Hp|]. intros [] [a|e] _; [apply Hf|done]. Qed.
Lemma mute_call {R} (c : Stream.cmd R) : speechless c = true → mute (call c).
Proof. intros Hc. by apply safe_call. Qed.

Lemma mute_next b deadline : mute (next_event b deadline).
Proof.
  apply mute_bind; [by apply mute_call|]. intros now. case_match; [exact I|].
  apply mute_bind; [destruct b; [by apply mute_call|exact I]|]. intros [|]; [exact I|]. by apply mute_call.
Qed.

(** ** The answer while it streams *)

(** The pieces of an answer are not empty. *)
Definition pieces (answer : list string) : Prop := Forall (λ s, nonempty s = true) answer.

Lemma join_snoc answer s : join "" (answer ++ [s]) = join "" answer +:+ s.
Proof.
  induction answer as [|a [|b answer] IH]; [done..|].
  change (a +:+ ("" +:+ join "" ((b :: answer) ++ [s])) = (a +:+ ("" +:+ join "" (b :: answer))) +:+ s). rewrite IH.
  by rewrite str_app_assoc.
Qed.

Lemma join_pieces answer : pieces answer → (join "" answer = "" ↔ answer = []).
Proof.
  intros Hp. split; [|by intros ->]. destruct Hp as [|s answer Hs Hp]; [done|]. destruct s; [done|]. by destruct answer.
Qed.

Lemma path_emit {A} ev (p : Stream.P A) tr out : path (bind (call (Emit ev)) (λ _, p)) tr out →
  (∃ tr', tr = Step (Emit ev) (Ok ()) :: tr' ∧ path p tr' out ∧ yields tr = ev :: yields tr') ∨ (∃ e, out = Err e).
Proof.
  intros [([] & tr1 & tr2 & H1 & H2 & ->)|(e & _ & ->)]%path_bind; [|right; by exists e].
  apply path_call in H1 as ->. left. by exists tr2.
Qed.

Lemma shows_replacement ms answer tr answer' : path (replace_answer ms answer) tr (Ok answer') → pieces answer →
  pieces answer' ∧ join "" answer' = screen (join "" answer) (yields tr) ∧
  join "" answer' = match last ms with Some m => match m_content m with Plain s => s | Parts _ => "" end | None => join "" answer end.
Proof.
  intros Hp Ha. unfold replace_answer in Hp. destruct (last ms) as [m|]; [|destruct Hp as [-> [= ->]]; done].
  apply path_emit in Hp as [(tr' & -> & Hp & ->)|[e He]]; [|done]. destruct (m_content m) as [s|ps].
  - destruct (nonempty s) eqn:Es.
    + apply path_emit in Hp as [(tr'' & -> & [-> [= ->]] & ->)|[e He]]; [|done].
      split; [by repeat constructor|]. done.
    + destruct Hp as [-> [= ->]]. split; [constructor|]. by destruct s.
  - destruct Hp as [-> [= ->]]. split; [constructor|done].
Qed.

(** *** One event of the graph *)

Lemma show_token shown s : show shown (token s) = shown +:+ s.
Proof. done. Qed.

Lemma shows_translate ev answer tr answer' : path (translate ev answer) tr (Ok answer') → pieces answer →
  pieces answer' ∧ join "" answer' = screen (join "" answer) (yields tr) ∧ join "" answer' = answer_step (join "" answer) ev.
Proof.
  intros Hp Ha. unfold translate, answer_step in *. cbv zeta in Hp.
  assert (Hsame : path (Ret answer : Stream.P _) tr (Ok answer') →
    pieces answer' ∧ join "" answer' = screen (join "" answer) (yields tr) ∧ join "" answer' = join "" answer).
  { by intros [-> [= ->]]. }
  assert (Htool : ∀ evt, is_terminal evt = false → dict_get "type" evt ≠ Some (JStr "token") → dict_get "type" evt ≠ Some (JStr "retry") →
    path (call (Emit evt) ;; Ret answer : Stream.P _)%prog tr (Ok answer') →
    pieces answer' ∧ join "" answer' = screen (join "" answer) (yields tr) ∧ join "" answer' = join "" answer).
  { intros evt _ H1 H2 [(tr' & -> & [-> [= ->]] & ->)|[e He]]%path_emit; [|done]. split_and!; [done| |done].
    unfold screen, yields. cbn [omap list_omap foldl]. unfold show. repeat case_match; try done.
    all: exfalso; rewrite String.eqb_eq in *; congruence. }
  set (top := nonempty (ge_subagent ev)) in *.
  destruct (String.eqb (ge_event ev) "on_chat_model_stream") eqn:E1.
  { apply String.eqb_eq in E1. rewrite E1 in Hp. destruct top; cbn [negb String.eqb Ascii.eqb Bool.eqb andb orb] in Hp |- *;
      rewrite ?andb_false_r, ?andb_true_r in Hp; [by apply Hsame|].
    case_bool_decide; [|by apply Hsame]. apply path_bind in Hp as [(s & tr1 & tr2 & H1 & Hp & ->)|(e & _ & [=])].
    unfold text_of. destruct (_text_content (ge_chunk ev)) as [t|e]; [|by destruct H1]. destruct H1 as [-> [= ->]]. cbn [app].
    destruct (nonempty t) eqn:Et.
    - apply path_emit in Hp as [(tr' & -> & [-> [= ->]] & ->)|[e He]]; [|done]. rewrite join_snoc. split_and!; [|done..].
      apply Forall_app_2; [done|by repeat constructor].
    - destruct Hp as [-> [= ->]]. destruct t; [|done]. by rewrite str_app_nil. }
  cbn [andb] in Hp. destruct (String.eqb (ge_event ev) "on_tool_start") eqn:E2.
  { apply String.eqb_eq in E2. rewrite E2 in *. cbn [String.eqb Ascii.eqb Bool.eqb]. destruct top; by refine (Htool _ _ _ _ Hp). }
  destruct (String.eqb (ge_event ev) "on_tool_end") eqn:E3.
  { apply String.eqb_eq in E3. rewrite E3 in *. cbn [String.eqb Ascii.eqb Bool.eqb]. destruct top; by refine (Htool _ _ _ _ Hp). }
  destruct (String.eqb (ge_event ev) "on_chain_end"); cbn [andb negb] in Hp; [|destruct top; by apply Hsame].
  destruct top; cbn [negb] in Hp; [by apply Hsame|].
  destruct (String.eqb (ge_name ev) "retry_output") eqn:E4.
  { apply path_emit in Hp as [(tr' & -> & [-> [= ->]] & ->)|[e He]]; [|done]. by split; [constructor|]. }
  destruct (String.eqb (ge_name ev) "check_output" || String.eqb (ge_name ev) "retry_exhausted") eqn:E5.
  { rewrite bool_decide_eq_true_2; [by eapply shows_replacement|].
    apply orb_true_iff in E5 as [->%String.eqb_eq| ->%String.eqb_eq]; clear; set_solver. }
  rewrite bool_decide_eq_false_2.
  - destruct (String.eqb (ge_name ev) "compact_history"); [|by apply Hsame]. case_bool_decide; [by apply Hsame|]. by refine (Htool _ _ _ _ Hp).
  - intros Hin. apply orb_false_iff in E5 as [H1%String.eqb_neq H2%String.eqb_neq]. apply elem_of_cons in Hin as [?|Hin%list_elem_of_singleton]; done.
Qed.

Lemma shows_follow b deadline evs ending answer tr answer' : path (follow b deadline evs ending answer) tr (Ok answer') → pieces answer →
  pieces answer' ∧ join "" answer' = screen (join "" answer) (yields tr) ∧ join "" answer' = foldl answer_step (join "" answer) evs.
Proof.
  revert answer tr. induction evs as [|ev evs IH]; intros answer tr Hp Ha; cbn [follow] in Hp;
    (apply path_bind in Hp as [([] & tr1 & tr2 & H1 & Hp & ->)|(e & _ & [=])]); rewrite yields_app, (mute_yields _ _ _ (mute_next _ _) H1);
    cbn [app].
  - destruct ending; [by destruct Hp|]. by destruct Hp as [-> [= ->]].
  - apply path_bind in Hp as [(answer1 & tr3 & tr4 & H2 & Hp & ->)|(e & _ & [=])].
    apply shows_translate in H2 as (Ha1 & Hs1 & Hf1); [|done]. apply IH in Hp as (Ha2 & Hs2 & Hf2); [|done].
    split; [done|]. rewrite yields_app, screen_app, <-Hs1. split; [done|]. cbn [foldl]. by rewrite <-Hf1.
Qed.

(** ** The end of a run *)

Definition is_done (ev : event) : bool := bool_decide (dict_get "type" ev = Some (JStr "done")).

Lemma shows_ended answer tr terminal su : path (ended answer) tr (Ok (terminal, su)) → is_done terminal = true →
  ∃ s, Step Aget_state (Ok s) ∈ tr ∧ ∀ shown,
    screen shown (yields tr) = if bool_decide (answer = []) then shown +:+ skipped_text (stored_messages s) else shown.
Proof.
  intros Hp Hd. unfold ended in Hp. apply path_bind in Hp as [(s & tr1 & tr2 & H1 & Hp & ->)|(e & _ & [=])].
  apply path_call in H1 as ->. exists s. split; [by left|]. intros shown. cbv zeta in Hp. cbn [app].
  change (yields (Step Aget_state (Ok s) :: tr2)) with (yields tr2).
  case_match; [by destruct Hp as [_ [= -> _]]|].
  assert (Hcount : ∀ o (p : Stream.P (event * summary)), path (call (Count_turn o) ;; p)%prog tr2 (Ok (terminal, su)) →
    ∃ tr', yields tr2 = yields tr' ∧ path p tr' (Ok (terminal, su))).
  { intros o p [([] & tr1 & tr' & H1 & H2 & ->)|(e & _ & [=])]%path_bind. apply path_call in H1 as ->. by exists tr'. }
  case_match; [apply Hcount in Hp as (tr' & _ & [_ [= -> _]]); discriminate Hd|].
  case_match; [apply Hcount in Hp as (tr' & _ & [_ [= -> _]]); discriminate Hd|].
  apply Hcount in Hp as (tr' & -> & Hp). clear Hcount. set (text := if bool_decide (answer = []) then _ else _) in Hp.
  apply path_bind in Hp as [([] & tr3 & tr4 & H2 & [-> [= -> _]] & ->)|(e & _ & [=])]. rewrite app_nil_r.
  transitivity (shown +:+ text); [|by unfold text; case_bool_decide; rewrite ?str_app_nil].
  destruct text as [|c text]; cbn [nonempty falsy negb] in H2.
  - destruct H2 as [-> _]. by rewrite str_app_nil.
  - by apply path_call in H2 as ->.
Qed.

Lemma ended_by_not_done timeout ibe e tr terminal su :
  path (ended_by timeout ibe e) tr (Ok (terminal, su)) → is_done terminal = false.
Proof.
  unfold ended_by. intros Hp. repeat case_match;
    repeat match goal with
    | H : path (bind _ _) _ _ |- _ => apply path_bind in H as [(? & ? & ? & _ & H & _)|(? & _ & [=])]
    | H : path (Throw _) _ _ |- _ => by destruct H
    | H : path (Ret _) _ _ |- _ => destruct H as [_ [= -> _]]
    end; reflexivity.
Qed.

Lemma screen_optional (b : bool) ev tr : path (if b then call (Emit ev) else Ret ()) tr (Ok ()) → (∀ s, show s ev = s) →
  ∀ s, screen s (yields tr) = s.
Proof. intros Hp He s. destruct b; [apply path_call in Hp as ->; apply He|by destruct Hp as [-> _]]. Qed.

Section shown.
Context (REQUEST_TIMEOUT_SECONDS : Z) (citation_dict : citation → list (string * json)) (is_budget_exceeded : exc → bool) (has_cancel_check : bool).

(** What was said of a program that leaves its caller waiting is nothing final. *)
Lemma plain_yields x tr : said (after heard x tr) = Going → said x = Going ∧ Forall (λ ev, is_terminal ev = false) (yields tr).
Proof.
  revert x. induction tr as [|[R c r] tr IH]; intros x; cbn [after]; [by split|]. intros Ha.
  apply IH in Ha as [Hx Hf]. destruct c; try (by split). destruct r as [[]|e]; [|by split].
  cbn [heard said] in Hx. unfold said_after in Hx. destruct (is_approval ev); [done|]. destruct (is_terminal ev) eqn:E; [done|].
  split; [done|]. by apply Forall_cons.
Qed.

Lemma says_plain {A} (p : Stream.P A) Q tr out : says p Q → path p tr out → Forall (λ ev, is_terminal ev = false) (yields tr).
Proof. intros Hp Hpath. destruct (safe_path _ _ going _ _ _ _ (Hp going eq_refl) Hpath) as (_ & H & _). by apply plain_yields in H as [_ ?]. Qed.

(** What a reader has on its screen when a run ends by itself. *)
Lemma shows_run run tr : path (_run_graph_stream REQUEST_TIMEOUT_SECONDS citation_dict is_budget_exceeded has_cancel_check run) tr (Ok ()) →
  (∀ c, wf_json (JObj (citation_dict c))) → wf_run run →
  ∃ terminal evs, yields tr = evs ++ [terminal] ∧ is_terminal terminal = true ∧ Forall (λ ev, is_terminal ev = false) evs ∧
  (is_done terminal = true → ∃ s, Step Aget_state (Ok s) ∈ tr ∧
    screen "" (yields tr) = if nonempty (graph_answer run) then graph_answer run else skipped_text (stored_messages s)).
Proof.
  intros Hp Hwc Hwr. unfold _run_graph_stream in Hp. apply path_bind in Hp as [(now & tr1 & tr2 & H1 & Hp & ->)|(e & _ & [=])].
  apply path_call in H1 as ->. apply path_bind in Hp as [(streamed & tr3 & tr4 & H2 & Hp & ->)|(e & _ & [=])].
  apply path_bind in Hp as [([terminal su] & tr5 & tr6 & H3 & Hp & ->)|(e & _ & [=])].
  apply path_bind in Hp as [([] & tr7 & tr8 & H4 & Hp & ->)|(e & _ & [=])].
  apply path_bind in Hp as [([] & tr9 & tr10 & H5 & H6 & ->)|(e & _ & [=])].
  apply path_call in H6 as ->.
  assert (Hy : yields ([Step Monotonic (Ok now)] ++ tr3 ++ tr5 ++ tr7 ++ tr9 ++ [Step (Emit terminal) (Ok ())]) =
    (yields tr3 ++ yields tr5 ++ yields tr7 ++ yields tr9) ++ [terminal]).
  { rewrite !yields_app, !app_assoc. done. }
  assert (Hm7 : ∀ s, screen s (yields tr7) = s).
  { by eapply screen_optional; [exact H4|]. }
  assert (Hm9 : ∀ s, screen s (yields tr9) = s).
  { apply (screen_optional (negb (bool_decide (su_followups su = []))) (followups_event su)); [|done]. revert H5. destruct (bool_decide (su_followups su = [])); exact id. }
  exists terminal, (yields tr3 ++ yields tr5 ++ yields tr7 ++ yields tr9). 
  assert (Hends : is_terminal terminal = true ∧ Forall (λ ev, is_terminal ev = false) (yields tr3 ++ yields tr5 ++ yields tr7 ++ yields tr9)).
  { assert (Hrep : says match streamed with Ok answer => ended answer | Err e => ended_by REQUEST_TIMEOUT_SECONDS is_budget_exceeded e end reported)
      by (destruct streamed; [by eapply says_ended|by eapply says_ended_by]).
    destruct (safe_path _ _ going _ _ _ _ (Hrep going eq_refl) H3) as (_ & _ & _ & _ & Ht). split; [exact Ht|].
    apply Forall_app_2; [|apply Forall_app_2; [by eapply says_plain|apply Forall_app_2]].
    - eapply says_plain; [|exact H2]. apply quiet_catch; [|auto with speech]. apply quiet_bind; [by apply quiet_follow|auto with speech].
    - eapply says_plain; [|exact H4]. apply quiet_if; [by apply quiet_emit, plain_citations|apply quiet_ret].
    - eapply says_plain; [|exact H5]. apply quiet_if; [apply quiet_ret|by apply quiet_emit, plain_followups]. }
  destruct Hends as [Ht Hplain]. split_and!; [exact Hy|exact Ht|exact Hplain|]. intros Hd.
  destruct streamed as [answer|e]; [|by rewrite (ended_by_not_done _ _ _ _ _ _ H3) in Hd].
  apply shows_ended in H3 as (s & Hs & H3); [|done]. exists s. split; [set_solver|].
  apply path_catch in H2 as [(a & H2 & [= <-])|(e & tr1 & tr2 & _ & [_ [=]] & _)].
  apply path_bind in H2 as [(answer' & tr1 & tr2 & H2 & [-> [= <-]] & ->)|(e & _ & [=])].
  apply shows_follow in H2 as (Ha & Hs2 & Hf); [|constructor]. cbn [join] in Hs2, Hf.
  rewrite Hy, !screen_app, app_nil_r, <-Hs2, H3, Hm7, Hm9. unfold graph_answer. rewrite <-Hf.
  assert (Hshow : ∀ t, screen t [terminal] = t).
  { intros t. unfold screen. cbn [foldl]. unfold show. unfold is_done in Hd. apply bool_decide_eq_true in Hd. by rewrite Hd. }
  rewrite Hshow. pose proof (join_pieces answer Ha) as Hj. destruct (decide (answer = [])) as [Hb|Hb]; [rewrite bool_decide_eq_true_2 by done|rewrite bool_decide_eq_false_2 by done].
  - by rewrite Hb.
  - destruct (nonempty (join "" answer)) eqn:En; [done|]. exfalso. apply Hb, Hj. by destruct (join "" answer).
Qed.
End shown.
