(* ===== verification/StreamTheorems.v ===== *)
(** What callers get of a turn: the run the job queue publishes, and what a reader of the events
    ends up with on the screen. *)
From Stdlib Require Import SpecFloat.
From S2P Require Import Prelude Dict Json Text Messages Process Calendar Decimals Usage Jobs JobAnswers AgentState Compaction Turn Budgets Stream StreamFacts.

Local Open Scope string_scope.
Local Open Scope list_scope.

(** ** A generator as the job queue sees it *)

Definition polled {R} (c : Stream.cmd R) : option (result exc bool → result exc R) :=
  match c in Stream.cmd R return option (result exc bool → result exc R) with Cancel_check => Some id | _ => None end.
Definition works {R} (c : Stream.cmd R) : bool :=
  match c with Anext _ | Aget_state | Aupdate_state _ | Ainvoke _ => true | _ => false end.

(** The run of a generator whose commands are answered from a state. *)
Section source.
Context {S : Type} (answer : S → ∀ R, Stream.cmd R → result exc R * S).

Fixpoint source_of {A} (p : Stream.P A) (s : S) : source :=
  match p with
  | Ret _ => Done
  | Throw e => Fail e
  | Do c k =>
      match yielded c, polled c with
      | Some (v, ev), _ => Yield ev (source_of (k (Ok v)) s)
      | None, Some from => Poll (λ b, source_of (k (from b)) s)
      | None, None =>
          let '(r, s) := answer s _ c in
          if works c then Work (source_of (k r) s) else source_of (k r) s
      end
  end.

Definition tells_truth : Prop := ∀ s R c, good_answer c (fst (answer s R c)).

Definition is_over (b : said_state) : bool := match b with Going => false | _ => true end.

(** No event of a source asks for an approval. *)
Fixpoint never_asks (s : source) : Prop :=
  match s with
  | Done | Fail _ => True
  | Work k => never_asks k
  | Poll k => ∀ r, never_asks (k r)
  | Yield ev k => is_approval ev = false ∧ never_asks k
  end.

Lemma said_after_over b ev : is_over (said_after b ev) = is_over b || is_terminal ev.
Proof.
  unfold said_after. destruct (is_approval ev) eqn:E; [|destruct (is_terminal ev); by destruct b].
  apply approval_terminal in E. rewrite E. by destruct b.
Qed.

Lemma source_protocol {A} person (p : Stream.P A) x s : tells_truth → sane x →
  speaking person x p (λ x' r, match r with Ok _ => said x' ≠ Going | Err _ => True end) →
  sound_run (is_over (said x)) (source_of p s) ∧ finishes (is_over (said x)) (source_of p s) ∧
  (person = false → never_asks (source_of p s)).
Proof.
  intros Ht. revert x s. induction p as [a|e|R c k IH]; intros x s Hx; cbn [safe source_of].
  - intros Hs. split_and!; [done| |done]. cbn. by destruct (said x).
  - done.
  - intros [Hc Hk].
    assert (Hgo : ∀ r s', good_answer c r → sane (heard x R c r) → said (heard x R c r) = said x →
      sound_run (is_over (said x)) (source_of (k r) s') ∧ finishes (is_over (said x)) (source_of (k r) s') ∧
      (person = false → never_asks (source_of (k r) s'))).
    { intros r s' _ Hsx Hsd. rewrite <-Hsd. apply IH; [done|apply Hk]. }
    pose proof (Ht s R c) as Hgood.
    destruct c; cbn [yielded polled works]; cbn [speaks] in Hc; try (destruct (answer s _ _) as [r s'] eqn:Ea; cbn [fst] in Hgood);
      try (by apply Hgo); try (rewrite Hc in *; cbn [is_over] in *;
        destruct (Hgo r s' Hgood) as (H1 & H2 & H3); [by cbn|by cbn|by split_and!]).
    + split_and!; intros b; try intros b'; apply (Hgo _ s); done.
    + destruct Hc as (Hw & _ & _ & Ha). specialize (Hk (Ok ())). apply (IH (Ok ()) _ s) in Hk; [|done].
      cbn [heard said] in Hk. rewrite said_after_over in Hk. destruct Hk as (H1 & H2 & H3). split; [|split].
      * split; auto.
      * exact H2.
      * intros Hp. split; auto.
Qed.
End source.

Section entries.
Context (REQUEST_TIMEOUT_SECONDS : Z) (citation_dict : citation → list (string * json)) (is_budget_exceeded : exc → bool).
Context (graph : nat → graph_input → graph_run).
Context (BUDGET_POLICY_REFRESH_SECONDS : Z) (limits : Defaults) (BUDGET_CHECK_FAILURE_POLICY : string) (MAX_COST_USD_PER_TURN : float).
Context (UNATTENDED_MAX_DECLINE_ROUNDS : nat).

(** What the job queue runs for a job, by its kind; nobody can stop an unattended one. *)
Inductive job_entry : Type :=
| Turn_job (text : string) (ctx : option SecurityCtx) (now : Z) (require_approval : bool) (images : list string) (unattended : bool)
| Continue_job (ctx : option SecurityCtx) (now : Z) (unattended : bool)
| Resume_job (approved : json) (ctx : option SecurityCtx) (now : Z).

Definition attended (e : job_entry) : bool :=
  match e with Turn_job _ _ _ _ _ u | Continue_job _ _ u => negb u | Resume_job _ _ _ => true end.

Definition events_of (e : job_entry) : Stream.P () :=
  match e with
  | Turn_job text ctx now ra images u =>
      if u then astream_events_turn_unattended REQUEST_TIMEOUT_SECONDS citation_dict is_budget_exceeded false graph
        BUDGET_POLICY_REFRESH_SECONDS limits BUDGET_CHECK_FAILURE_POLICY MAX_COST_USD_PER_TURN UNATTENDED_MAX_DECLINE_ROUNDS text ctx now ra images
      else astream_events_turn REQUEST_TIMEOUT_SECONDS citation_dict is_budget_exceeded true graph
        BUDGET_POLICY_REFRESH_SECONDS limits BUDGET_CHECK_FAILURE_POLICY MAX_COST_USD_PER_TURN 0 text ctx now ra images
  | Continue_job ctx now u =>
      if u then astream_events_continue_turn_unattended REQUEST_TIMEOUT_SECONDS citation_dict is_budget_exceeded false graph
        BUDGET_POLICY_REFRESH_SECONDS limits BUDGET_CHECK_FAILURE_POLICY MAX_COST_USD_PER_TURN UNATTENDED_MAX_DECLINE_ROUNDS ctx now
      else astream_events_continue_turn REQUEST_TIMEOUT_SECONDS citation_dict is_budget_exceeded true graph MAX_COST_USD_PER_TURN 0 ctx
  | Resume_job approved ctx now =>
      astream_events_resume REQUEST_TIMEOUT_SECONDS citation_dict is_budget_exceeded true graph
        BUDGET_POLICY_REFRESH_SECONDS limits BUDGET_CHECK_FAILURE_POLICY MAX_COST_USD_PER_TURN 0 approved ctx now false
  end.

Lemma final_events e : (∀ c, wf_json (JObj (citation_dict c))) → (∀ n i, wf_run (graph n i)) → final (attended e) (events_of e).
Proof.
  intros Hc Hg. destruct e as [text ctx now ra images []|ctx now []|approved ctx now]; cbn [events_of attended negb].
  - by apply final_unattended, final_turn.
  - by apply final_turn.
  - by apply final_unattended, final_continue.
  - by apply final_continue.
  - by apply final_resume.
Qed.
End entries.

(** ** A small conversation *)

Module Talk.
(** The agent's first draft is rejected. *)
Definition drafted (t : string) : graph_event := mkEvent "on_chat_model_stream" "model" (Some "agent") "" (Plain t) None [].
Definition chain_end (name : string) (ms : list message) : graph_event := mkEvent "on_chain_end" name None "" (Plain "") None ms.
Definition answered : graph_run :=
  mkRun [drafted "The offi"; drafted "ce"; chain_end "retry_output" []; drafted "Main "; drafted "street [1]"; chain_end "check_output" []] None.
(** The graph pauses at a tool, and answers when it is declined. *)
Definition asked : graph_run := mkRun [mkEvent "on_tool_start" "search_docs" None "" (Plain "") (Some (JObj [])) []] None.
Definition declined : graph_run := mkRun [drafted "I could not send it."] None.
Definition graph (n : nat) (i : graph_input) : graph_run := match n with O => asked | S _ => declined end.

Definition cite (c : citation) : list (string * json) := [].
Lemma wf_cite c : wf_json (JObj (cite c)).
Proof. wf_object. Qed.
Lemma wf_graph n i : wf_run (graph n i).
Proof. destruct n; [apply Forall_cons_2; [by wf_object|constructor]|by repeat apply Forall_cons_2]. Qed.
Lemma wf_answered : wf_run answered.
Proof. by repeat apply Forall_cons_2. Qed.

Definition calls : list (string * json) := [("send_email", JObj [])].
Definition finished : saved :=
  mkSaved (mkSnapshot [] [] (Some (JInt STATE_SCHEMA_VERSION))) (Some (apply (H := plain_langgraph) new_state [Set_messages [Put (Messages.said AIMessage "Main street [1]" [])]])).
Definition paused_run : saved := mkSaved (mkSnapshot ["human_approval"] [[calls]] (Some (JInt STATE_SCHEMA_VERSION))) None.

(** The second and the third reading of the checkpoint show the pause. *)
Definition reply (n : nat) (R : Type) (c : Stream.cmd R) : result exc R * nat :=
  match c in Stream.cmd R return result exc R * nat with
  | Monotonic => (Ok 0%Z, n)
  | Cancel_check => (Ok false, n)
  | Aget_state => (Ok (if bool_decide (n ∈ [1; 2]%nat) then paused_run else finished), S n)
  | @Budget R c => (match c in Budgets.cmd R return result exc R with Refuse_unpriced => Ok false | _ => Err (Exc "RuntimeError" "") end, n)
  | Anext _ | Aupdate_state _ | Ainvoke _ | Init_graph | Upsert_session _ | Release_later _ | Count_turn _ | Emit _ => (Ok (), n)
  end.
Lemma reply_true : tells_truth reply.
Proof.
  intros n R c. destruct c; try exact I. cbn [reply fst good_answer]. case_bool_decide; [|constructor].
  apply Forall_cons_2; [apply Forall_cons_2; [apply Forall_cons_2; [by wf_object|constructor]|constructor]|constructor].
Qed.

Definition unattended_turn : job_entry := Turn_job "Mail it" None 0 false [] true.
Definition limits : Defaults := mkDefaults fzero fzero fzero fzero.
Definition program : Stream.P () := events_of 120 cite (λ _, false) graph 60 limits "open" fzero 3 unattended_turn.

(** The pause is declined, and the person told what the second run said. *)
Example said_to_the_channel : yields (snd (fst (Process.run reply program 0))) =
  [[("type", JStr "tool_start"); ("tool", JStr "search_docs"); ("args", JObj [])]; token "I could not send it."; plain_event "done"].
Proof. vm_compute. reflexivity. Qed.

Definition answer_trace : list (step Stream.cmd) := snd (fst (Process.run reply (_run_graph_stream 120 cite (λ _, false) true answered) 0)).
Lemma answer_path : path (_run_graph_stream 120 cite (λ _, false) true answered) answer_trace (Ok ()).
Proof. exact (run_path reply (_run_graph_stream 120 cite (λ _, false) true answered) 0). Qed.
End Talk.

(** ** The protocol of the events *)

(** C6: the events of every job are what the queue publishes of it counts on. Whatever the
    graph yields and however it ends, and whatever the checkpointer and the budget answer, the
    generator of a turn, a continued turn or an answered pause yields JSON objects only, works on
    the conversation only before its terminal event and returns only after one, or raises; the
    unattended ones never ask anybody for an approval. *)
Theorem every_generator_keeps_the_protocol {S} (answer : S → ∀ R, Stream.cmd R → result exc R * S)
    timeout citation_dict is_budget_exceeded graph refresh limits policy max_cost rounds (e : job_entry) (s : S) :
  (∀ c, wf_json (JObj (citation_dict c))) → (∀ n i, wf_run (graph n i)) → tells_truth answer →
  let run := source_of answer (events_of timeout citation_dict is_budget_exceeded graph refresh limits policy max_cost rounds e) s in
  sound_run false run ∧ finishes false run ∧ (attended e = false → never_asks run).
Proof. intros Hc Hg Ht run. apply (source_protocol answer (attended e) _ going s Ht I), final_events; done. Qed.

(** The unattended turn that paused. *)
Lemma every_generator_keeps_the_protocol_witness :
  source_of Talk.reply Talk.program 0 ≠ Done ∧ never_asks (source_of Talk.reply Talk.program 0).
Proof.
  split; [by vm_compute|].
  refine (proj2 (proj2 (every_generator_keeps_the_protocol Talk.reply 120 Talk.cite (λ _, false) Talk.graph 60 Talk.limits "open" fzero 3
    Talk.unattended_turn 0 Talk.wf_cite Talk.wf_graph Talk.reply_true)) eq_refl).
Defined.

(** C9: a finished run has told one end, and told it last, and its reader has the answer. A run
    of the graph that comes to its end yields exactly one terminal event, after all others. When
    that is [done], a reader that adds up tokens and drops its draft on a retry is left with the
    answer the graph's events come to - the agent's own text since the last rejection, or the
    text a check put in its place, and nothing of a subagent - or, when that is empty, with the
    text of the last message of the conversation. *)
Theorem finished_run_leaves_the_answer timeout citation_dict is_budget_exceeded has_cancel_check run tr :
  (∀ c, wf_json (JObj (citation_dict c))) → wf_run run →
  path (_run_graph_stream timeout citation_dict is_budget_exceeded has_cancel_check run) tr (Ok ()) →
  ∃ terminal evs, yields tr = evs ++ [terminal] ∧ is_terminal terminal = true ∧ Forall (λ ev, is_terminal ev = false) evs ∧
    (is_done terminal = true → ∃ s, Step Aget_state (Ok s) ∈ tr ∧
      screen "" (yields tr) = if nonempty (graph_answer run) then graph_answer run else skipped_text (stored_messages s)).
Proof. intros Hc Hr Hp. by apply (shows_run _ _ _ _ _ _ Hp). Qed.

Lemma finished_run_leaves_the_answer_witness :
  graph_answer Talk.answered = "Main street [1]" ∧
  ∃ terminal evs, yields Talk.answer_trace = evs ++ [terminal] ∧ is_terminal terminal = true ∧ Forall (λ ev, is_terminal ev = false) evs ∧
    (is_done terminal = true → ∃ s, Step Aget_state (Ok s) ∈ Talk.answer_trace ∧ screen "" (yields Talk.answer_trace) = "Main street [1]").
Proof.
  split; [reflexivity|].
  exact (finished_run_leaves_the_answer 120 Talk.cite (λ _, false) true Talk.answered Talk.answer_trace Talk.wf_cite Talk.wf_answered Talk.answer_path).
Defined.
