(* ===== verification/Telegram.v ===== *)
(** The Telegram channel: [app/channels/telegram.py].

    The events of a turn are an argument: what [producer.stream_turn] yields, and the exception
    it ends with, if any.  Logs and metrics are left out. *)
From Stdlib Require Import Ascii.
From S2P Require Import Prelude Dict Json Text Messages Process Jobs AgentState Stream.

Local Open Scope string_scope.
Local Open Scope list_scope.
Local Open Scope Z_scope.

(** A message of an update: its chat, its sender and its text. *)
Record tg_message : Type := TgMessage { tg_chat : Z; tg_from : option Z; tg_text : option string }.
Record update : Type := Update { update_id : Z; up_message : option tg_message }.

Inductive cmd : Type → Type :=
| Get_offset (key : string) : cmd (option Z)
| Set_offset (key : string) (v : string) : cmd ()
| Get_updates (offset : Z) : cmd (list update)
| Typing (chat_id : Z) : cmd ()
| Post_message (chat_id : Z) (text : string) : cmd ()
| Stream_turn (text thread_id : string) (c : SecurityCtx) (dedup_key : option string) : cmd (list event * option exc)
| Cancel_turn (thread_id : string) (c : SecurityCtx) : cmd ()
| Pause_seconds (n : Z) : cmd ()
| Stopping : cmd bool.
Abbreviation P := (prog cmd).

Definition TELEGRAM_THREAD_PREFIX : string := "telegram:".
Definition _MESSAGE_CHAR_LIMIT : nat := 4000.

Section telegram.
Context (AGENT_DOMAIN DEFAULT_TENANT : string).

Definition _offset_key (domain : string) : string := "telegram:offset:" +:+ domain.

Definition _load_offset (domain : string) : P Z :=
  (raw ← call (Get_offset (_offset_key domain)); Ret (default 0 raw))%prog.
Definition _save_offset (domain : string) (offset : Z) : P () :=
  call (Set_offset (_offset_key domain) (py_str (JInt offset))).

Definition _thread_id_for_chat (chat_id : Z) : string := TELEGRAM_THREAD_PREFIX +:+ py_str (JInt chat_id).
Definition _ctx_for_user (user_id : Z) : SecurityCtx := SecCtx DEFAULT_TENANT ("telegram:" +:+ py_str (JInt user_id)).
Definition _dedup_key (update_id : Z) : string :=
  "telegram:" +:+ AGENT_DOMAIN +:+ ":update:" +:+ py_str (JInt update_id).

Definition _NO_REPLY_FALLBACK : string := "I wasn't able to put together a reply to that just now — could you try again?".

(** A citation as the reply shows it, and what it is called when it has no title. *)
Record source_line : Type := Source { so_marker : string; so_title : string; so_doc_id : option string }.
Definition title_of (c : source_line) : string := if nonempty (so_title c) then so_title c else default "?" (so_doc_id c).

Definition newline : string := String "010"%char "".
Definition _format_reply (text : string) (citations : list source_line) : string :=
  match citations with
  | [] => text
  | _ => text +:+ blank_line +:+ "Sources:" +:+ newline +:+
      join newline ((λ c, so_marker c +:+ " " +:+ title_of c) <$> citations)
  end.

(** [text[i : i + n] for i in range(0, len(text), n)] *)
Fixpoint chunks (fuel : nat) (n : nat) (text : string) : list string :=
  match fuel with
  | O => []
  | S fuel => if nonempty text then take_str n text :: chunks fuel n (drop_str n text) else []
  end.

Definition _send_message (chat_id : Z) (text : string) : P () :=
  each (chunks (String.length text) _MESSAGE_CHAR_LIMIT text)
    (λ chunk, catch_exception (call (Post_message chat_id chunk)) (λ _, Ret ())).

(** [event["type"]] *)
Definition kind_of (ev : event) : string := match dict_get "type" ev with Some (JStr t) => t | _ => "" end.
Definition text_at (k : string) (ev : event) : string := match dict_get k ev with Some (JStr t) => t | _ => "" end.

Definition _decline_pause (thread_id : string) (c : SecurityCtx) (ev : event) : P string :=
  (catch_exception (call (Cancel_turn thread_id c)) (λ _, Ret ()) ;; Ret (not_done_message (pending_names ev)))%prog.

(** The reply the events of a turn come to, and its citations. *)
Context (items_of : event → list source_line).
Fixpoint collect (thread_id : string) (c : SecurityCtx) (events : list event) (ending : option exc)
    (parts : list string) (citations : list source_line) : P (string * list source_line) :=
  match events with
  | [] => match ending with Some e => Throw e | None => Ret (join "" parts, citations) end
  | ev :: events =>
      let kind := kind_of ev in
      if String.eqb kind "token" then collect thread_id c events ending (parts ++ [text_at "content" ev]) citations
      else if String.eqb kind "citations" then collect thread_id c events ending parts (items_of ev)
      else if String.eqb kind "error" then Ret (text_at "content" ev, [])
      else if String.eqb kind "approval_required" then (reply ← _decline_pause thread_id c ev; Ret (reply, []))%prog
      else collect thread_id c events ending parts citations
  end.

Definition _run_turn (text thread_id : string) (c : SecurityCtx) (dedup_key : option string) : P (string * list source_line) :=
  ('(events, ending) ← call (Stream_turn text thread_id c dedup_key); collect thread_id c events ending [] [])%prog.

Definition handle_message (message : tg_message) (update_id : option Z) : P () :=
  match tg_text message with
  | Some text =>
      if negb (nonempty text) then Ret () else
      let thread_id := _thread_id_for_chat (tg_chat message) in
      let c := _ctx_for_user (default (tg_chat message) (tg_from message)) in
      (catch_exception (call (Typing (tg_chat message))) (λ _, Ret ()) ;;
       '(reply_text, citations) ← _run_turn text thread_id c (_dedup_key <$> update_id);
       let reply_text := if nonempty (strip reply_text) then reply_text else _NO_REPLY_FALLBACK in
       _send_message (tg_chat message) (_format_reply reply_text citations))%prog
  | None => Ret ()
  end.

(** The updates of one poll: each is handled, and then the offset past it is saved. *)
Fixpoint handle_updates (updates : list update) (offset : Z) : P Z :=
  match updates with
  | [] => Ret offset
  | u :: updates =>
      (match up_message u with Some m => handle_message m (Some (update_id u)) | None => Ret () end ;;
       _save_offset AGENT_DOMAIN (update_id u + 1) ;;
       handle_updates updates (update_id u + 1))%prog
  end.

(** One round of the poll loop. *)
Definition poll_round (offset : Z) : P Z :=
  (updates ← catch_exception (us ← call (Get_updates offset); Ret (Some us)) (λ _, Ret None);
   match updates with
   | None => call (Pause_seconds 5) ;; Ret offset
   | Some updates => handle_updates updates offset
   end)%prog.

(** At most [fuel] rounds; [None] when the loop would go on. *)
Fixpoint poll_loop (fuel : nat) (offset : Z) : P (option Z) :=
  match fuel with
  | O => Ret None
  | S fuel =>
      (stop ← call Stopping;
       if stop : bool then Ret (Some offset) else
       offset ← poll_round offset; poll_loop fuel offset)%prog
  end.

Definition run (fuel : nat) : P (option Z) := (offset ← _load_offset AGENT_DOMAIN; poll_loop fuel offset)%prog.
End telegram.
