(* ===== verification/TelegramTheorems.v ===== *)
(** What a person on Telegram gets: one turn for every message, and what its events come to sent
    before the offset is passed, in pieces that fit, and with it every draft that was rejected.  A
    piece that Telegram refuses is passed too. *)
From Stdlib Require Import Ascii.
From S2P Require Import Prelude Dict Json Text Messages Process Jobs AgentState Stream StreamFacts Telegram.

Local Open Scope string_scope.
Local Open Scope list_scope.

(** ** Pieces of a text *)

Lemma chunks_join fuel n text : (0 < n)%nat → (String.length text <= fuel)%nat → join "" (chunks fuel n text) = text.
Proof.
  intros Hn. revert text. induction fuel as [|fuel IH]; intros [|a text] Hf; cbn [String.length] in Hf; [done|lia|done|].
  change (chunks (S fuel) n (String a text)) with (take_str n (String a text) :: chunks fuel n (drop_str n (String a text))).
  rewrite join_cons, IH; [apply take_drop_str|]. rewrite length_drop_str. cbn [String.length]. lia.
Qed.

Lemma chunks_fit fuel n text : (0 < n)%nat → Forall (λ c, nonempty c = true ∧ (String.length c <= n)%nat) (chunks fuel n text).
Proof.
  intros Hn. revert text. induction fuel as [|fuel IH]; intros text; cbn [chunks]; [constructor|].
  destruct text as [|a text]; [constructor|]. change (nonempty (String a text)) with true. cbv iota. constructor; [|apply IH]. split; [by destruct n; [lia|]|rewrite length_take_str; lia].
Qed.

(** ** Messages *)

(** What was posted to a chat, whether or not it arrived. *)
Definition post_of (s : step Telegram.cmd) : option (Z * string) :=
  match st_cmd s with Post_message chat text => Some (chat, text) | _ => None end.
Definition posts (tr : list (step Telegram.cmd)) : list (Z * string) := omap post_of tr.

Lemma posts_app tr1 tr2 : posts (tr1 ++ tr2) = posts tr1 ++ posts tr2.
Proof. apply omap_app. Qed.

(** The turns that were asked for, with what became of them, and the turns that were cancelled. *)
Definition turn_of (s : step Telegram.cmd) : option (string * string * SecurityCtx * option string * result exc (list event * option exc)) :=
  match s with
  | Step c r => match c in Telegram.cmd R return result exc R → option _ with
                | Stream_turn text thread c key => λ r, Some (text, thread, c, key, r)
                | _ => λ _, None
                end r
  end.
Definition turns (tr : list (step Telegram.cmd)) := omap turn_of tr.
Definition cancel_of (s : step Telegram.cmd) : option (string * SecurityCtx) :=
  match st_cmd s with Cancel_turn thread c => Some (thread, c) | _ => None end.
Definition cancels (tr : list (step Telegram.cmd)) := omap cancel_of tr.

(** Programs that post nothing and ask for nothing, and that save no offset. *)
Definition silent (s : step Telegram.cmd) : Prop := post_of s = None ∧ turn_of s = None ∧ cancel_of s = None.
Definition saves (s : step Telegram.cmd) : bool := match st_cmd s with Set_offset _ _ => true | _ => false end.
Definition unsaved (s : step Telegram.cmd) : Prop := saves s = false.

Hint Extern 1 (silent _) => repeat split : steps.
Hint Extern 1 (unsaved _) => reflexivity : steps.

Lemma silent_path {A} (p : Telegram.P A) tr out : only silent p → path p tr out → posts tr = [] ∧ turns tr = [] ∧ cancels tr = [].
Proof. intros Hp H. specialize (Hp _ _ H). by split_and!; apply omap_none; (eapply Forall_impl; [exact Hp|intros s (? & ? & ?)]). Qed.

Lemma turns_app tr1 tr2 : turns (tr1 ++ tr2) = turns tr1 ++ turns tr2.
Proof. apply omap_app. Qed.
Lemma cancels_app tr1 tr2 : cancels (tr1 ++ tr2) = cancels tr1 ++ cancels tr2.
Proof. apply omap_app. Qed.

(** ** What the events of a turn come to *)

(** The drafts a list of events carries, and a list that comes to no other reply. *)
Definition drafts (events : list event) : string := join "" ((text_at "content") <$> filter (λ ev, kind_of ev = "token") events).
Definition uneventful (ev : event) : Prop := kind_of ev ≠ "error" ∧ kind_of ev ≠ "approval_required".
Definition well_typed (ev : event) : Prop := kind_of ev = "token" → ∃ s, dict_get "content" ev = Some (JStr s).

Lemma join_app l1 l2 : join "" (l1 ++ l2) = join "" l1 +:+ join "" l2.
Proof. induction l1 as [|s l1 IH]; [done|]. cbn [app]. by rewrite !join_cons, IH, str_app_assoc. Qed.

Lemma drafts_cons ev events : drafts (ev :: events) = (if bool_decide (kind_of ev = "token") then text_at "content" ev else "") +:+ drafts events.
Proof.
  unfold drafts. rewrite filter_cons. case_bool_decide as H; [rewrite decide_True by done|by rewrite decide_False by done].
  cbn [fmap list_fmap]. by rewrite join_cons.
Qed.

Lemma drafts_app before after : drafts (before ++ after) = drafts before +:+ drafts after.
Proof. unfold drafts. by rewrite filter_app, fmap_app, join_app. Qed.

(** What the events of a turn come to: the first error or pause decides; a turn without either,
    that did not end with an exception, comes to all that was drafted, with its last citations. *)
Section outcome.
Context (items_of : event → list source_line).

Definition last_citations (citations : list source_line) (events : list event) : list source_line :=
  default citations (last (items_of <$> filter (λ ev, kind_of ev = "citations") events)).

Inductive comes_to (events : list event) (ending : option exc) : string → list source_line → bool → Prop :=
| comes_to_error before ev after : events = before ++ ev :: after → Forall uneventful before → kind_of ev = "error" →
    comes_to events ending (text_at "content" ev) [] false
| comes_to_pause before ev after : events = before ++ ev :: after → Forall uneventful before → kind_of ev = "approval_required" →
    comes_to events ending (not_done_message (pending_names ev)) [] true
| comes_to_text : Forall uneventful events → ending = None → comes_to events ending (drafts events) (last_citations [] events) false.

(** A pause is cancelled, and nothing else is done. *)
Definition pause_only (thread : string) (c : SecurityCtx) (paused : bool) (tr : list (step Telegram.cmd)) : Prop :=
  if paused then ∃ r, tr = [Step (Cancel_turn thread c) r] else tr = [].

Lemma last_citations_cons citations ev events : last_citations citations (ev :: events) =
  last_citations (if bool_decide (kind_of ev = "citations") then items_of ev else citations) events.
Proof.
  unfold last_citations. rewrite filter_cons. case_bool_decide as H; [rewrite decide_True by done|by rewrite decide_False by done].
  cbn [fmap list_fmap]. rewrite last_cons. by destruct (last _).
Qed.

Lemma run_collected thread c events ending parts citations tr reply cites :
  path (collect items_of thread c events ending parts citations) tr (Ok (reply, cites)) →
  (∃ paused, comes_to events ending reply cites paused ∧ pause_only thread c paused tr ∧ ¬ Forall uneventful events) ∨
  (Forall uneventful events ∧ ending = None ∧ reply = join "" parts +:+ drafts events ∧ cites = last_citations citations events ∧ tr = []).
Proof.
  revert parts citations tr. induction events as [|ev events IH]; intros parts citations tr; cbn [collect].
  { destruct ending; [by intros [_ [=]]|]. intros [-> [= -> ->]]. right. by rewrite str_app_nil. }
  assert (Hon : ∀ parts' citations', uneventful ev →
    join "" parts' +:+ drafts events = join "" parts +:+ drafts (ev :: events) → last_citations citations' events = last_citations citations (ev :: events) →
    path (collect items_of thread c events ending parts' citations') tr (Ok (reply, cites)) →
    (∃ paused, comes_to (ev :: events) ending reply cites paused ∧ pause_only thread c paused tr ∧ ¬ Forall uneventful (ev :: events)) ∨
    (Forall uneventful (ev :: events) ∧ ending = None ∧ reply = join "" parts +:+ drafts (ev :: events) ∧ cites = last_citations citations (ev :: events) ∧ tr = [])).
  { intros parts' citations' Hev E1 E2 [(paused & Hc & Ht & Hn)|(Hf & -> & -> & -> & ->)]%IH; [left|right; by rewrite E1, E2; auto].
    exists paused. split_and!; [|done|by intros [_ ?]%Forall_cons].
    destruct Hc as [before ev' after -> Hb Hk|before ev' after -> Hb Hk|Hf _]; [..|done].
    - by apply (comes_to_error _ _ (ev :: before) ev' after); [|constructor|].
    - by apply (comes_to_pause _ _ (ev :: before) ev' after); [|constructor|]. }
  destruct (String.eqb_spec (kind_of ev) "token") as [Hk|Hk].
  { apply Hon; [by split; rewrite Hk| |].
    - by rewrite drafts_cons, bool_decide_eq_true_2, join_app, str_app_assoc by done.
    - by rewrite last_citations_cons, bool_decide_eq_false_2 by (by rewrite Hk). }
  assert (Ed : drafts (ev :: events) = drafts events) by (by rewrite drafts_cons, bool_decide_eq_false_2).
  destruct (String.eqb_spec (kind_of ev) "citations") as [Hk2|Hk2].
  { apply Hon; [by split; rewrite Hk2|by rewrite Ed|]. by rewrite last_citations_cons, bool_decide_eq_true_2. }
  destruct (String.eqb_spec (kind_of ev) "error") as [Hk3|Hk3].
  { intros [-> [= -> ->]]. left. exists false. split_and!; [|done|by intros [[Hn _] _]%Forall_cons]. by apply (comes_to_error _ _ [] ev events). }
  destruct (String.eqb_spec (kind_of ev) "approval_required") as [Hk4|Hk4].
  { intros H. left. exists true. unfold _decline_pause in H.
    apply path_bind in H as [(x & t1 & t2 & H1 & [-> [= -> ->]] & ->)|(e & _ & [=])]. rewrite app_nil_r.
    apply path_bind in H1 as [([] & t3 & t4 & H1 & [-> [= ->]] & ->)|(e & _ & [=])]. rewrite app_nil_r.
    split_and!; [by apply (comes_to_pause _ _ [] ev events)| |by intros [[_ Hn] _]%Forall_cons].
    apply path_catch in H1 as [(a & ->%path_call & _)|(e & t5 & t6 & ->%path_call & H2 & ->)]; [by eexists|].
    exists (Err e). cbn beta in H2. destruct (base_exception e); [by destruct H2|]. by destruct H2 as [-> _]. }
  apply Hon; [done|by rewrite Ed|]. by rewrite last_citations_cons, bool_decide_eq_false_2.
Qed.

Lemma collected thread c events ending tr reply cites :
  path (collect items_of thread c events ending [] []) tr (Ok (reply, cites)) →
  ∃ paused, comes_to events ending reply cites paused ∧ pause_only thread c paused tr.
Proof.
  intros [(paused & Hc & Ht & _)|(Hf & He & -> & -> & ->)]%run_collected; [by exists paused|]. exists false. by split; [apply comes_to_text|].
Qed.
End outcome.

Section channel.
Context (AGENT_DOMAIN DEFAULT_TENANT : string) (items_of : event → list source_line).

Lemma only_collect Q thread c events ending parts citations : (∀ r, Q (Step (Cancel_turn thread c) r)) →
  only Q (collect items_of thread c events ending parts citations).
Proof.
  intros HQ. revert parts citations. induction events as [|ev events IH]; intros parts citations; cbn [collect].
  - destruct ending; auto with steps.
  - repeat apply only_if; auto with steps. apply only_bind; [|auto with steps]. unfold _decline_pause. auto with steps.
Qed.

Lemma posts_send chat text tr : path (_send_message chat text) tr (Ok ()) → (join "" (snd <$> posts tr)) = text ∧
  Forall (λ p, p.1 = chat ∧ nonempty p.2 = true ∧ (String.length p.2 <= 4000)%nat) (posts tr).
Proof.
  unfold _send_message. intros Hp. pose proof (chunks_fit (String.length text) _MESSAGE_CHAR_LIMIT text) as Hfit.
  assert (∀ cs, path (each cs (λ chunk, catch_exception (call (Post_message chat chunk)) (λ _, Ret ()))) tr (Ok ()) → posts tr = (λ c, (chat, c)) <$> cs) as Hcs.
  { clear. intros cs. revert tr. induction cs as [|c cs IH]; intros tr; cbn [each]; [by intros [-> _]|].
    intros [([] & tr1 & tr2 & H1 & H2 & ->)|(e & _ & [=])]%path_bind. rewrite posts_app, (IH _ H2).
    apply path_catch in H1 as [(a & ->%path_call & _)|(e & tr3 & tr4 & ->%path_call & H1 & ->)]; [done|].
    cbn beta in H1. destruct (base_exception e); [by destruct H1|by destruct H1 as [-> _]]. }
  rewrite (Hcs _ Hp). split.
  - rewrite <-list_fmap_compose. unfold compose. cbn [snd]. rewrite list_fmap_id. apply chunks_join; unfold _MESSAGE_CHAR_LIMIT; lia.
  - apply Forall_fmap. eapply Forall_impl; [apply Hfit; unfold _MESSAGE_CHAR_LIMIT; lia|]. intros c [? ?]. done.
Qed.

Lemma send_asks_nothing chat text tr out : path (_send_message chat text) tr out → turns tr = [] ∧ cancels tr = [].
Proof.
  intros Hp. assert (Ho : only (λ s, turn_of s = None ∧ cancel_of s = None) (_send_message chat text)).
  { unfold _send_message. apply only_each. intros c. apply only_catch_exception; [by apply only_call|]. intros e. apply only_ret. }
  specialize (Ho _ _ Hp). by split; apply omap_none; (eapply Forall_impl; [exact Ho|intros s [? ?]]).
Qed.

(** The text that is sent for a reply and its citations *)
Definition line_of (c : source_line) : string :=
  so_marker c +:+ " " +:+ (if nonempty (so_title c) then so_title c else match so_doc_id c with Some id => id | None => "?" end).
Definition sources (citations : list source_line) : string :=
  if bool_decide (citations = []) then "" else blank_line +:+ "Sources:" +:+ newline +:+ join newline (line_of <$> citations).

Lemma format_reply_sources reply citations : _format_reply reply citations = reply +:+ sources citations.
Proof.
  unfold sources. destruct citations as [|c citations]; [by rewrite str_app_nil|]. rewrite bool_decide_eq_false_2 by done.
  unfold _format_reply. done.
Qed.

(** How a message with a text was dealt with: one turn was run for it, for its person and in its
    chat's conversation, and the text that the events of the turn come to was sent to that chat,
    each piece of it once. *)
Definition answered (m : tg_message) (id : Z) (text : string) (tr : list (step Telegram.cmd)) : Prop :=
  let thread := "telegram:" +:+ py_str (JInt (tg_chat m)) in
  let c := SecCtx DEFAULT_TENANT ("telegram:" +:+ py_str (JInt (default (tg_chat m) (tg_from m)))) in
  ∃ events ending reply citations paused,
    turns tr = [(text, thread, c, Some ("telegram:" +:+ AGENT_DOMAIN +:+ ":update:" +:+ py_str (JInt id)), Ok (events, ending))] ∧
    comes_to items_of events ending reply citations paused ∧
    cancels tr = (if paused then [(thread, c)] else []) ∧
    join "" (snd <$> posts tr) = (if nonempty (strip reply) then reply else _NO_REPLY_FALLBACK) +:+ sources citations ∧
    Forall (λ p, p.1 = tg_chat m ∧ nonempty p.2 = true ∧ (String.length p.2 <= 4000)%nat) (posts tr).

Abbreviation handling := (handle_message AGENT_DOMAIN DEFAULT_TENANT items_of).

Lemma pause_only_steps thread c paused tr : pause_only thread c paused tr →
  posts tr = [] ∧ turns tr = [] ∧ cancels tr = if paused then [(thread, c)] else [].
Proof. destruct paused; [intros [r ->]|intros ->]; done. Qed.

Lemma handled_answered m id tr text : tg_text m = Some text → nonempty text = true → path (handling m (Some id)) tr (Ok ()) → answered m id text tr.
Proof.
  intros Ht Hn Hp. unfold handle_message in Hp. rewrite Ht, Hn in Hp. cbn [negb] in Hp. cbv zeta in Hp.
  apply path_bind in Hp as [([] & tr1 & tr2 & H1 & Hp & ->)|(e & _ & [=])].
  apply path_bind in Hp as [([reply citations] & tr3 & tr4 & H2 & Hp & ->)|(e & _ & [=])].
  apply silent_path in H1 as (E1 & E2 & E3); [|auto with steps].
  apply path_bind in H2 as [([events ending] & tr5 & tr6 & ->%path_call & H2 & ->)|(e & _ & [=])].
  apply collected in H2 as (paused & Hc & (E4 & E5 & E6)%pause_only_steps).
  destruct (posts_send _ _ _ Hp) as [Hj Hf].
  apply send_asks_nothing in Hp as [E7 E8]. exists events, ending, reply, citations, paused.
  rewrite !posts_app, !turns_app, !cancels_app, E1, E2, E3, E4, E5, E6, E7, E8, !app_nil_r, <-format_reply_sources. split_and!; try done.
Qed.

(** A stretch of a poll that dealt with one update: its message, then its offset.  Nothing is done
    for an update without a message, or with a message without a text. *)
Definition dealt_with (u : update) (tr : list (step Telegram.cmd)) : Prop :=
  ∃ tr1, tr = tr1 ++ [Step (Set_offset ("telegram:offset:" +:+ AGENT_DOMAIN) (py_str (JInt (update_id u + 1)))) (Ok ())] ∧
    match up_message u with
    | Some m => match tg_text m with
                | Some text => if nonempty text then answered m (update_id u) text tr1 else tr1 = []
                | None => tr1 = []
                end
    | None => tr1 = []
    end.

Lemma handled_unsaved m id : only unsaved (handling m id).
Proof.
  unfold handle_message. destruct (tg_text m) as [text|]; [|auto with steps]. apply only_if; [auto with steps|].
  apply only_bind; [auto with steps|]. intros _. apply only_bind.
  - apply only_bind; [auto with steps|]. intros [events ending]. by apply only_collect.
  - intros [reply citations]. unfold _send_message. auto 8 with steps.
Qed.

(** An update without a message is passed over. *)
Definition message_part (u : update) : Telegram.P () :=
  match up_message u with Some m => handling m (Some (update_id u)) | None => Ret () end.
Lemma message_unsaved u : only unsaved (message_part u).
Proof. unfold message_part. destruct (up_message u); [apply handled_unsaved|apply only_ret]. Qed.

Lemma message_dealt u tr : path (message_part u) tr (Ok ()) →
  match up_message u with
  | Some m => match tg_text m with
              | Some text => if nonempty text then answered m (update_id u) text tr else tr = []
              | None => tr = []
              end
  | None => tr = []
  end.
Proof.
  unfold message_part. destruct (up_message u) as [m|]; [|by intros [-> _]]. destruct (tg_text m) as [text|] eqn:Et.
  - destruct (nonempty text) eqn:En; [by apply handled_answered|]. unfold handle_message. rewrite Et, En. by intros [-> _].
  - unfold handle_message. rewrite Et. by intros [-> _].
Qed.

(** [us] was dealt with up to a point, and no later offset was saved. *)
Definition progress (us : list update) (offset : Z) (tr : list (step Telegram.cmd)) (out : result exc Z) : Prop :=
  ∃ done rest stretches tail, us = done ++ rest ∧ tr = concat stretches ++ tail ∧ Forall2 dealt_with done stretches ∧
    Forall (λ s, saves s = true → ∃ e, st_answer s = Err e) tail ∧
    (∀ o, out = Ok o → rest = [] ∧ tail = [] ∧ o = default offset (last ((λ u, update_id u + 1)%Z <$> us))).

Lemma progress_stuck us offset tr e : Forall (λ s, saves s = true → ∃ e, st_answer s = Err e) tr → progress us offset tr (Err e).
Proof. intros Ht. exists [], us, [], tr. by split_and!. Qed.

Lemma progress_dealt u us offset tr1 tr2 out : dealt_with u tr1 → progress us (update_id u + 1) tr2 out → progress (u :: us) offset (tr1 ++ tr2) out.
Proof.
  intros Hu (done & rest & stretches & tail & -> & -> & Hd & Ht & Hf). exists (u :: done), rest, (tr1 :: stretches), tail.
  split_and!; [done|by cbn; rewrite app_assoc|by constructor|done|]. intros o Ho. destruct (Hf o Ho) as (-> & -> & ->).
  split_and!; [done..|]. cbn [fmap list_fmap app]. rewrite last_cons. by destruct (last _).
Qed.

Lemma unsaved_tail tr : Forall unsaved tr → Forall (λ s, saves s = true → ∃ e, st_answer s = Err e) tr.
Proof. intros H. eapply Forall_impl; [exact H|]. intros s Hs Hs'. unfold unsaved in Hs. congruence. Qed.

Lemma updates_progress us offset tr out : path (handle_updates AGENT_DOMAIN DEFAULT_TENANT items_of us offset) tr out →
  progress us offset tr out.
Proof.
  revert offset tr. induction us as [|u us IH]; intros offset tr; cbn [handle_updates].
  { intros [-> ->]. exists [], [], [], []. split_and!; [done..|]. by intros o [= ->]. }
  change (match up_message u with Some m => _ | None => _ end) with (message_part u).
  intros [([] & tr1 & tr2 & H1 & Hp & ->)|(e & H1 & ->)]%path_bind.
  - apply path_bind in Hp as [([] & tr3 & tr4 & ->%path_call & Hp & ->)|(e & ->%path_call & ->)].
    + rewrite app_assoc. apply progress_dealt; [|by eapply IH]. exists tr1. split; [done|]. by apply message_dealt.
    + apply progress_stuck. apply Forall_app_2; [by eapply unsaved_tail, message_unsaved|].
      apply Forall_cons_2; [|constructor]. by exists e.
  - apply progress_stuck. by eapply unsaved_tail, message_unsaved.
Qed.
End channel.

Lemma collect_drafts items_of thread c events parts citations : Forall uneventful events →
  ∃ citations', collect items_of thread c events None parts citations = Ret (join "" parts +:+ drafts events, citations').
Proof.
  intros Hev. revert parts citations. induction Hev as [|ev events [He Ha] Hev IH]; intros parts citations; cbn [collect].
  { exists citations. by rewrite str_app_nil. }
  rewrite drafts_cons. destruct (String.eqb_spec (kind_of ev) "token") as [Hk|Hk].
  - rewrite bool_decide_eq_true_2 by done. destruct (IH (parts ++ [text_at "content" ev]) citations) as [cs ->]. exists cs.
    by rewrite join_app, str_app_assoc.
  - rewrite bool_decide_eq_false_2 by done. cbn. destruct (String.eqb (kind_of ev) "citations"); [apply IH|].
    apply String.eqb_neq in He, Ha. rewrite He, Ha. apply IH.
Qed.

Lemma screen_drafts s events : Forall well_typed events → Forall (λ ev, kind_of ev ≠ "retry") events → screen s events = s +:+ drafts events.
Proof.
  intros Hw Hr. revert s. induction events as [|ev events IH]; intros s; [by rewrite str_app_nil|].
  apply Forall_cons in Hw as [Hwe Hw], Hr as [Hre Hr]. rewrite drafts_cons. change (screen s (ev :: events)) with (screen (show s ev) events).
  rewrite IH by done. rewrite <-str_app_assoc. f_equal. unfold show. unfold well_typed, text_at, kind_of in *.
  destruct (dict_get "type" ev) as [[| | | |t| |]|]; try by rewrite bool_decide_eq_false_2, str_app_nil.
  destruct (String.eqb_spec t "token") as [->|Ht].
  - rewrite bool_decide_eq_true_2 by done. by destruct Hwe as [u ->].
  - rewrite bool_decide_eq_false_2, str_app_nil by done. by apply String.eqb_neq in Hre as ->.
Qed.

(** ** A chat *)

Module Chat.
Definition hello : tg_message := TgMessage 7 (Some 70%Z) (Some "Hello").
Definition updates : list update := [Update 10 (Some hello); Update 11 None].

(** The worker's first draft was rejected. *)
Definition rejected : list event := [token "Call Ann on 555-0100."].
Definition accepted : list event := [token "Call the office."; plain_event "done"].

Definition reply (sent : nat) (R : Type) (c : Telegram.cmd R) : result exc R * nat :=
  match c in Telegram.cmd R return result exc R * nat with
  | Get_offset _ => (Ok None, sent)
  | Get_updates _ => (Ok updates, sent)
  | Stream_turn _ _ _ _ => (Ok (rejected ++ plain_event "retry" :: accepted, None), sent)
  | Typing _ => (Err (Exc "ConnectError" ""), sent)
  | Stopping => (Ok (bool_decide (sent ≠ O)), S sent)
  | Set_offset _ _ | Post_message _ _ | Cancel_turn _ _ | Pause_seconds _ => (Ok (), sent)
  end.
Definition program : Telegram.P Z := handle_updates "ecorp" "acme" (λ _, []) updates 0.
Definition trace : list (step Telegram.cmd) := snd (fst (Process.run reply program O)).
Lemma trace_path : path program trace (Ok 12%Z).
Proof. exact (run_path reply program O). Qed.

Example posted : posts trace = [(7%Z, "Call Ann on 555-0100.Call the office.")].
Proof. vm_compute. reflexivity. Qed.

(** A piece that Telegram refuses is not sent again, and the offset is saved all the same. *)
Definition refusing (sent : nat) (R : Type) (c : Telegram.cmd R) : result exc R * nat :=
  match c in Telegram.cmd R return result exc R * nat with
  | Post_message _ _ => (Err (Exc "HTTPStatusError" "403 Forbidden"), sent)
  | c => reply sent _ c
  end.
Example refused_reply_is_passed :
  let ran := Process.run refusing program O in
  fst (fst ran) = Ok 12%Z ∧ posts (snd (fst ran)) = [(7%Z, "Call Ann on 555-0100.Call the office.")] ∧ existsb saves (snd (fst ran)) = true.
Proof. vm_compute. done. Qed.
End Chat.

(** C23: a message is dealt with before its update is passed. Whatever Telegram, Redis and the
    worker answer, a poll deals with its updates one by one and in order, and saves the offset past
    an update only after it was dealt with: for a message with a text, exactly one turn was run, with
    that text, in its chat's conversation, for its person and under the update's key; and the reply
    the events of that turn come to — what was drafted, the error's text, or that the action was not
    done, the pause then being cancelled — was sent, with its sources, to that chat, every piece once
    and in order, each of a size that fits; a blank reply is replaced by a text that is not.  Sending
    is best effort: the offset also passes a piece that Telegram refused.  Nothing is done for an
    update without a text.  After the first failure no offset is saved, and when the poll returns
    all updates were dealt with and its offset is past the last. *)
Theorem every_message_is_answered domain tenant items_of us offset tr out :
  path (handle_updates domain tenant items_of us offset) tr out →
  ∃ done rest stretches tail, us = done ++ rest ∧ tr = concat stretches ++ tail ∧
    Forall2 (dealt_with domain tenant items_of) done stretches ∧
    Forall (λ s, saves s = true → ∃ e, st_answer s = Err e) tail ∧
    (∀ o, out = Ok o → rest = [] ∧ tail = [] ∧ o = default offset (last ((λ u, update_id u + 1)%Z <$> us))).
Proof. apply updates_progress. Qed.

Lemma every_message_is_answered_witness :
  turns Chat.trace = [("Hello", "telegram:7", SecCtx "acme" "telegram:70", Some "telegram:ecorp:update:10",
    Ok (Chat.rejected ++ plain_event "retry" :: Chat.accepted, None))] ∧
  ∃ done rest stretches tail, Chat.updates = done ++ rest ∧ Chat.trace = concat stretches ++ tail ∧
    Forall2 (dealt_with "ecorp" "acme" (λ _, [])) done stretches ∧ rest = [] ∧ tail = [].
Proof.
  split; [vm_compute; reflexivity|].
  destruct (every_message_is_answered "ecorp" "acme" (λ _, []) Chat.updates 0 Chat.trace (Ok 12%Z) Chat.trace_path)
    as (done & rest & stretches & tail & Hu & Ht & Hd & _ & Ho).
  destruct (Ho 12%Z eq_refl) as (Hr & Htl & _). exists done, rest, stretches, tail. split_and!; assumption.
Defined.

(** On Telegram a rejected draft is sent. The reply to a turn that was told to drop its
    draft is everything that was drafted before, followed by what a reader that does drop it
    has on its screen; so it is the answer only if nothing had been drafted. *)
Theorem rejected_drafts_are_sent items_of thread c before after :
  let events := before ++ plain_event "retry" :: after in
  Forall uneventful events → Forall well_typed after → Forall (λ ev, kind_of ev ≠ "retry") after →
  ∃ citations, collect items_of thread c events None [] [] = Ret (drafts before +:+ screen "" events, citations).
Proof.
  intros events Hev Hw Hr. destruct (collect_drafts items_of thread c events [] [] Hev) as [cs E]. exists cs. rewrite E.
  unfold events. rewrite screen_app. change (screen ?s (plain_event "retry" :: after)) with (screen "" after).
  rewrite screen_drafts by done. by rewrite drafts_app.
Qed.

Lemma rejected_drafts_are_sent_witness :
  screen "" (Chat.rejected ++ plain_event "retry" :: Chat.accepted) = "Call the office." ∧
  ∃ citations, collect (λ _, []) "telegram:7" (SecCtx "acme" "telegram:70") (Chat.rejected ++ plain_event "retry" :: Chat.accepted) None [] [] =
    Ret ("Call Ann on 555-0100." +:+ "Call the office.", citations).
Proof.
  split; [vm_compute; reflexivity|].
  refine (rejected_drafts_are_sent (λ _, []) "telegram:7" (SecCtx "acme" "telegram:70") Chat.rejected Chat.accepted _ _ _).
  - repeat (apply Forall_cons_2; [by split|]). constructor.
  - apply Forall_cons_2; [by eexists|]. apply Forall_cons_2; [done|constructor].
  - by repeat (apply Forall_cons_2; [done|]).
Defined.
