(* ===== verification/Sessions.v ===== *)
(** Who a conversation belongs to: [app/agent/runtime/sessions.py], the [chat_sessions] table of
    [app/adapters/postgres/sessions.py], and the endpoints of [app/api/routers/chat.py].

    A statement on the table is one command; what the endpoints ask of the job queue and of the
    checkpointer are the programs of [Jobs] and [Stream].  SHA-256 is an argument. *)
From Stdlib Require Import Ascii.
From S2P Require Import Prelude Dict Json Text Messages Process Jobs AgentState Turn Stream.

Local Open Scope string_scope.
Local Open Scope list_scope.

(** ** The table *)

Record session : Type := Session {
  se_tenant : string;
  se_principal : string;
  se_title : string;
  se_domain : string;
  se_created_at : Z;
  se_last_active_at : Z;
}.
Definition sessions : Type := list (string * session).

Definition owned_by (tenant principal domain : string) (s : session) : bool :=
  String.eqb (se_tenant s) tenant && String.eqb (se_principal s) principal && String.eqb (se_domain s) domain.

(** [INSERT ... ON CONFLICT (thread_id) DO NOTHING], and [DO UPDATE SET last_active_at = now()] *)
Definition insert_session (thread_id tenant principal title domain : string) (now : Z) (t : sessions) : sessions :=
  match dict_get thread_id t with
  | Some _ => t
  | None => dict_set thread_id (Session tenant principal title domain now now) t
  end.
Definition touch_session (thread_id tenant principal title domain : string) (now : Z) (t : sessions) : sessions :=
  match dict_get thread_id t with
  | Some s => dict_set thread_id (Session (se_tenant s) (se_principal s) (se_title s) (se_domain s) (se_created_at s) now) t
  | None => dict_set thread_id (Session tenant principal title domain now now) t
  end.
Definition owner_row (thread_id tenant principal domain : string) (t : sessions) : bool :=
  from_option (owned_by tenant principal domain) false (dict_get thread_id t).

(** [ORDER BY last_active_at DESC] *)
Fixpoint by_activity (r : string * session) (rs : list (string * session)) : list (string * session) :=
  match rs with
  | [] => [r]
  | r' :: rs' => if (se_last_active_at r'.2 <? se_last_active_at r.2)%Z then r :: rs else r' :: by_activity r rs'
  end.
Definition list_rows (tenant principal domain : string) (t : sessions) : list (string * session) :=
  foldr by_activity [] (filter (λ r, owned_by tenant principal domain r.2 = true) t).

(** ** The commands *)

Inductive cmd : Type → Type :=
| Insert_session (thread_id tenant principal title domain : string) : cmd ()
| Touch_session (thread_id tenant principal title domain : string) : cmd ()
| Select_owner (thread_id tenant principal domain : string) : cmd bool
| Select_sessions (tenant principal domain : string) : cmd (list (string * session))
| Queue {R} (c : Jobs.cmd R) : cmd R
| Checkpoint (thread_id : string) {R} (c : Stream.cmd R) : cmd R.
Abbreviation P := (prog cmd).

Fixpoint queue {A} (p : prog Jobs.cmd A) : P A :=
  match p with
  | Ret a => Ret a
  | Throw e => Throw e
  | Do c k => Do (Queue c) (λ r, queue (k r))
  end.
Fixpoint checkpoint (thread_id : string) {A} (p : prog Stream.cmd A) : P A :=
  match p with
  | Ret a => Ret a
  | Throw e => Throw e
  | Do c k => Do (Checkpoint thread_id c) (λ r, checkpoint thread_id (k r))
  end.

(** ** sessions.py *)

Definition TITLE_MAX_CHARS : nat := 60.
Definition NEW_TITLE : string := "New conversation".

Definition _display_title (title : option string) : string :=
  let given := match title with Some t => if nonempty t then t else NEW_TITLE | None => NEW_TITLE end in
  let stripped := strip given in
  let display_title := if nonempty stripped then stripped else NEW_TITLE in
  if (TITLE_MAX_CHARS <? String.length display_title)%nat then rstrip (take_str TITLE_MAX_CHARS display_title) +:+ "…" else display_title.

Definition upsert_session (ctx : SecurityCtx) (thread_id : string) (title : option string) (domain : string) : P () :=
  if negb (valid_ctx (Some ctx)) || negb (nonempty thread_id) then Ret () else
  catch_exception (call (Touch_session thread_id (sc_tenant ctx) (sc_principal ctx) (_display_title title) domain)) (λ _, Ret ()).

Definition claim_session (ctx : SecurityCtx) (thread_id : string) (title : option string) (domain : string) : P bool :=
  if negb (valid_ctx (Some ctx)) || negb (nonempty thread_id) then Ret false else
  (call (Insert_session thread_id (sc_tenant ctx) (sc_principal ctx) (_display_title title) domain) ;;
   call (Select_owner thread_id (sc_tenant ctx) (sc_principal ctx) domain))%prog.

Definition list_sessions (ctx : SecurityCtx) (domain : string) : P (list (string * session)) :=
  if negb (valid_ctx (Some ctx)) then Ret [] else call (Select_sessions (sc_tenant ctx) (sc_principal ctx) domain).

Definition session_belongs_to (ctx : SecurityCtx) (thread_id domain : string) : P bool :=
  if negb (valid_ctx (Some ctx)) || negb (nonempty thread_id) then Ret false else
  call (Select_owner thread_id (sc_tenant ctx) (sc_principal ctx) domain).

(** ** chat.py *)

Definition TELEGRAM_THREAD_PREFIX : string := "telegram:".
Definition not_found : exc := Exc "HTTPException" "session not found".

Definition _require_conversation_owner (ctx : SecurityCtx) (thread_id domain : string) (claim_with : option string) : P () :=
  (allowed ← (if bool_decide (claim_with ≠ None) && negb (startswith thread_id TELEGRAM_THREAD_PREFIX)
              then claim_session ctx thread_id claim_with domain
              else session_belongs_to ctx thread_id domain);
   if allowed : bool then Ret () else Throw not_found)%prog.

(** What the queue is told about the caller. *)
Definition ctx_json (ctx : SecurityCtx) : json :=
  JObj [("tenant", JStr (sc_tenant ctx)); ("principal", JStr (sc_principal ctx)); ("claims", JObj [])].

Section chat.
Context (sha256_hex : string → string) (CHAT_SUBMIT_DEDUP_TTL_SECONDS : Z) (CHAT_FIRST_RESPONSE_DEADLINE_SECONDS : Z).

(** [data: {json}\n\n] *)
Definition sse_frame (ev : event) : string := "data: " +:+ dumps (JObj ev) +:+ blank_line.

(** [_queued_sse_response]: the events of one job, as they arrive. *)
Definition _queued_sse_response (fuel : nat) (request_id : string) : P bool :=
  queue (read_results fuel request_id 5000 (Some CHAT_FIRST_RESPONSE_DEADLINE_SECONDS)).

Definition submission_digest (message : string) (images : list string) : string :=
  sha256_hex (dumps (JList [JStr message; JList (JStr <$> images)])).

Definition chat_stream_queued (fuel : nat) (message thread_id : string) (images : list string) (ctx : SecurityCtx) (domain : string) : P bool :=
  (_require_conversation_owner ctx thread_id domain (Some message) ;;
   let digest := submission_digest message images in
   candidate_request_id ← queue (call Uuid4);
   '(request_id, is_new) ← queue (claim_or_get_existing_submission thread_id digest candidate_request_id CHAT_SUBMIT_DEDUP_TTL_SECONDS);
   (if is_new : bool then
      catch (queue (publish_request request_id message thread_id (ctx_json ctx) domain false (match images with [] => None | _ => Some images end) false))
        (λ e, (if base_exception e then Ret () else queue (release_submission_claim thread_id digest)) ;; Throw e)
    else Ret ()) ;;
   _queued_sse_response fuel request_id)%prog.

Definition chat_resume (fuel : nat) (thread_id : string) (approved : bool) (ctx : SecurityCtx) (domain : string) : P bool :=
  (_require_conversation_owner ctx thread_id domain None ;;
   request_id ← queue (call Uuid4);
   queue (publish_resume_request request_id thread_id approved (ctx_json ctx) domain) ;;
   _queued_sse_response fuel request_id)%prog.

Definition chat_cancel (fuel : nat) (thread_id : string) (ctx : SecurityCtx) (domain : string) : P bool :=
  (_require_conversation_owner ctx thread_id domain None ;;
   queue (set_cancel_flag thread_id) ;;
   request_id ← queue (call Uuid4);
   queue (publish_cancel_request request_id thread_id (ctx_json ctx) domain) ;;
   _queued_sse_response fuel request_id)%prog.

Definition chat_sessions (ctx : SecurityCtx) (domain : string) : P (list (string * session)) := list_sessions ctx domain.

Definition chat_session_messages (thread_id : string) (ctx : SecurityCtx) (domain : string) : P (list (role * string)) :=
  (owner ← session_belongs_to ctx thread_id domain;
   if negb owner then Throw not_found else checkpoint thread_id get_session_messages)%prog.

Definition chat_session_pending_approval (thread_id : string) (ctx : SecurityCtx) (domain : string) : P (option (list (string * json) * bool)) :=
  (owner ← session_belongs_to ctx thread_id domain;
   if negb owner then Throw not_found else checkpoint thread_id get_pending_approval)%prog.
End chat.
