(* ===== verification/SessionTheorems.v ===== *)
(** A conversation has one owner: what the endpoints do to it, in every interleaving of requests
    and workers over one table. *)
From S2P Require Import Prelude Dict Json Text Messages Process Jobs AgentState Turn Stream Sessions.
From stdpp Require Import relations.

Local Open Scope string_scope.
Local Open Scope list_scope.

(** ** Requests and their interleavings *)

(** The requests of the chat API, by their endpoint. *)
Inductive endpoint : Type :=
| Send (message : string) (images : list string)
| Answer (approved : bool)
| Cancel
| Messages
| Pending_approval.

Record request : Type := Request { rq_ctx : SecurityCtx; rq_thread : string; rq_domain : string; rq_prog : Sessions.P () }.

Record world : Type := World { table : sessions; requests : list request }.

Section api.
Context (sha256_hex : string → string) (dedup_ttl first_response : Z) (fuel : nat).

Definition forget {A} (p : Sessions.P A) : Sessions.P () := (p ;; Ret ())%prog.

Definition request_of (e : endpoint) (ctx : SecurityCtx) (thread_id domain : string) : request :=
  Request ctx thread_id domain
    match e with
    | Send message images => forget (chat_stream_queued sha256_hex dedup_ttl first_response fuel message thread_id images ctx domain)
    | Answer approved => forget (chat_resume first_response fuel thread_id approved ctx domain)
    | Cancel => forget (chat_cancel first_response fuel thread_id ctx domain)
    | Messages => forget (chat_session_messages thread_id ctx domain)
    | Pending_approval => forget (chat_session_pending_approval thread_id ctx domain)
    end.

(** One statement on the table: it answers and applies, or fails, applied or not. *)
Definition answers {R} (c : Sessions.cmd R) (t : sessions) : result exc R → sessions → Prop :=
  match c in Sessions.cmd R return result exc R → sessions → Prop with
  | Insert_session th te pr ti d => λ r t', ∃ now,
      match r with Ok _ => t' = insert_session th te pr ti d now t | Err _ => t' = t ∨ t' = insert_session th te pr ti d now t end
  | Touch_session th te pr ti d => λ r t', ∃ now,
      match r with Ok _ => t' = touch_session th te pr ti d now t | Err _ => t' = t ∨ t' = touch_session th te pr ti d now t end
  | Select_owner th te pr d => λ r t', t' = t ∧ match r with Ok b => b = owner_row th te pr d t | Err _ => True end
  | Select_sessions te pr d => λ r t', t' = t ∧ match r with Ok rows => rows = list_rows te pr d t | Err _ => True end
  | _ => λ r t', t' = t
  end.

(** A request comes in; one takes a step; a worker notes the turn it starts. *)
Inductive world_step : world → world → Prop :=
| Arrive t rs e ctx thread_id domain : world_step (World t rs) (World t (rs ++ [request_of e ctx thread_id domain]))
| Fire t rs i rq R (c : Sessions.cmd R) k r t' :
    rs !! i = Some rq → rq_prog rq = Do c k → answers c t r t' →
    world_step (World t rs) (World t' (<[i := Request (rq_ctx rq) (rq_thread rq) (rq_domain rq) (k r)]> rs))
| Noted t rs ctx thread_id title domain now :
    world_step (World t rs) (World (touch_session thread_id (sc_tenant ctx) (sc_principal ctx) (_display_title title) domain now t) rs).

(** The request is about to do something to the conversation, or to read it. *)
Definition acts (rq : request) : Prop :=
  match rq_prog rq with Do (Queue _) _ | Do (Checkpoint _ _) _ => True | _ => False end.
Definition owns (rq : request) (t : sessions) : bool :=
  owner_row (rq_thread rq) (sc_tenant (rq_ctx rq)) (sc_principal (rq_ctx rq)) (rq_domain rq) t.

(** ** The table keeps its owners *)

Lemma insert_keeps_owner th te pr ti d now t th' te' pr' d' :
  owner_row th' te' pr' d' t = true → owner_row th' te' pr' d' (insert_session th te pr ti d now t) = true.
Proof.
  unfold owner_row, insert_session. destruct (dict_get th t) eqn:E; [done|]. rewrite dict_get_set.
  case_bool_decide; [|done]. subst. by rewrite E.
Qed.
Lemma touch_keeps_owner th te pr ti d now t th' te' pr' d' :
  owner_row th' te' pr' d' t = true → owner_row th' te' pr' d' (touch_session th te pr ti d now t) = true.
Proof.
  unfold owner_row, touch_session. destruct (dict_get th t) eqn:E; rewrite dict_get_set; (case_bool_decide; [|done]); subst; by rewrite E.
Qed.
Lemma answers_keep_owner {R} (c : Sessions.cmd R) t r t' th te pr d :
  answers c t r t' → owner_row th te pr d t = true → owner_row th te pr d t' = true.
Proof.
  destruct c; cbn [answers]; try (by intros ->); try (by intros [-> _]); intros [now H] Ho; destruct r; try destruct H as [H|H];
    rewrite H; auto using insert_keeps_owner, touch_keeps_owner.
Qed.

Lemma step_keeps_owner w w' th te pr d : world_step w w' → owner_row th te pr d (table w) = true → owner_row th te pr d (table w') = true.
Proof. destruct 1; cbn [table]; [done|by eapply answers_keep_owner|apply touch_keeps_owner]. Qed.

Lemma one_owner th te pr d te' pr' d' t : owner_row th te pr d t = true → owner_row th te' pr' d' t = true → (te, pr, d) = (te', pr', d').
Proof.
  unfold owner_row. destruct (dict_get th t) as [s|]; [|done]. cbn. unfold owned_by.
  rewrite !andb_true_iff, !String.eqb_eq. intros [[<- <-] <-] [[<- <-] <-]. done.
Qed.

(** ** The gate of the endpoints *)

(** What a request may do before it was told that it owns the conversation. *)
Definition gated (x : bool) (R : Type) (c : Sessions.cmd R) : Prop :=
  match c with
  | Insert_session th _ _ _ _ => startswith th TELEGRAM_THREAD_PREFIX = false
  | Touch_session _ _ _ _ _ => False
  | Queue _ | Checkpoint _ _ => x = true
  | _ => True
  end.
Definition cleared (me : SecurityCtx) (thread domain : string) (x : bool) (R : Type) (c : Sessions.cmd R) : result exc R → bool :=
  match c in Sessions.cmd R return result exc R → bool with
  | Select_owner th te pr d => λ r,
      if bool_decide ((th, te, pr, d) = (thread, sc_tenant me, sc_principal me, domain)) then
        match r with Ok b => b || x | Err _ => x end
      else x
  | _ => λ _, x
  end.

Section gate.
Context (me : SecurityCtx) (thread domain : string).
Abbreviation behaves := (safe gated (cleared me thread domain)).

(** Programs of the queue and the checkpointer, behind the gate. *)
Definition behind {A} (p : Sessions.P A) : Prop := behaves true p (λ x _, x = true).

Lemma behind_ret {A} (a : A) : behind (Ret a).
Proof. done. Qed.
Lemma behind_throw {A} e : behind (Throw e : Sessions.P A).
Proof. done. Qed.
Lemma behind_bind {A B} (p : Sessions.P A) (f : A → Sessions.P B) : behind p → (∀ a, behind (f a)) → behind (bind p f).
Proof. intros Hp Hf. apply safe_bind. eapply safe_conseq; [exact Hp|]. intros x [a|e] ->; [apply Hf|done]. Qed.
Lemma behind_catch {A} (p : Sessions.P A) h : behind p → (∀ e, behind (h e)) → behind (catch p h).
Proof. intros Hp Hh. apply safe_catch. eapply safe_conseq; [exact Hp|]. intros x [a|e] ->; [done|apply Hh]. Qed.
Lemma behind_if {A} (b : bool) (p q : Sessions.P A) : behind p → behind q → behind (if b then p else q).
Proof. by destruct b. Qed.
Lemma behind_queue {A} (p : prog Jobs.cmd A) : behind (queue p).
Proof. unfold behind. induction p as [a|e|R c k IH]; cbn [queue safe]; [done..|]. split; [done|]. intros r. apply IH. Qed.
Lemma behind_checkpoint th {A} (p : prog Stream.cmd A) : behind (checkpoint th p).
Proof. unfold behind. induction p as [a|e|R c k IH]; cbn [checkpoint safe]; [done..|]. split; [done|]. intros r. apply IH. Qed.
Hint Resolve behind_ret behind_throw behind_bind behind_catch behind_if behind_queue behind_checkpoint : core.

Lemma behaves_select : behaves false (call (Select_owner thread (sc_tenant me) (sc_principal me) domain))
  (λ x r, match r with Ok b => b = true → x = true | Err _ => True end).
Proof. apply safe_call; [done|]. intros [b|e]; [|done]. cbn [cleared]. rewrite bool_decide_eq_true_2 by done. by intros ->. Qed.

Lemma behaves_owner : behaves false (session_belongs_to me thread domain) (λ x r, match r with Ok b => b = true → x = true | Err _ => True end).
Proof. unfold session_belongs_to. destruct (_ || _); [done|apply behaves_select]. Qed.

Lemma behaves_require claim : behaves false (_require_conversation_owner me thread domain claim)
  (λ x r, match r with Ok _ => x = true | Err _ => True end).
Proof.
  unfold _require_conversation_owner. apply safe_bind.
  assert (Hrest : ∀ p, behaves false p (λ x r, match r with Ok b => b = true → x = true | Err _ => True end) →
    behaves false p (λ x r, match r with Ok b => behaves x (if b : bool then Ret () else Throw not_found)
      (λ x r, match r with Ok _ => x = true | Err _ => True end) | Err e => True end)).
  { intros p Hp. eapply safe_conseq; [exact Hp|]. intros x [[]|e] H; [|done..]. by apply H. }
  apply Hrest. destruct (bool_decide (claim ≠ None)); cbn [andb]; [|apply behaves_owner].
  destruct (startswith thread TELEGRAM_THREAD_PREFIX) eqn:E; cbn [negb]; [apply behaves_owner|].
  unfold claim_session. destruct (_ || _); [done|]. apply safe_bind, safe_call; [done|].
  intros [[]|e]; [|done]. apply behaves_select.
Qed.

Lemma bind_assoc {A B C} (p : Sessions.P A) (f : A → Sessions.P B) (g : B → Sessions.P C) Q x :
  behaves x (bind p (λ a, bind (f a) g)) Q → behaves x (bind (bind p f) g) Q.
Proof.
  revert x. induction p as [a|e|R c k IH]; intros x; cbn [bind safe]; [done..|]. intros [Hc Hk]. split; [done|]. intros r. by apply IH.
Qed.

Lemma behaves_required {A} claim (rest : Sessions.P A) :
  behind rest → behaves false (forget (_require_conversation_owner me thread domain claim ;; rest)%prog) (λ _ _, True).
Proof.
  intros Hr. apply bind_assoc, safe_bind. eapply safe_conseq; [apply behaves_require|]. intros x [[]|e]; [|done]. intros ->.
  eapply safe_conseq; [apply (behind_bind rest); [done|auto]|done].
Qed.

Lemma behaves_read {A} (rest : Sessions.P A) : behind rest →
  behaves false (forget (owner ← session_belongs_to me thread domain; if negb owner then Throw not_found else rest)%prog) (λ _ _, True).
Proof.
  intros Hr. apply bind_assoc, safe_bind. eapply safe_conseq; [apply behaves_owner|]. intros x [[]|e] Hx; [|done..].
  rewrite (Hx eq_refl). cbn [negb]. eapply safe_conseq; [apply (behind_bind rest); [done|auto]|done].
Qed.

Lemma behaves_request e : behaves false (rq_prog (request_of e me thread domain)) (λ _ _, True).
Proof.
  destruct e; [apply behaves_required|apply behaves_required|apply behaves_required|apply behaves_read|apply behaves_read];
    unfold _queued_sse_response; auto 10.
  all: try (apply behind_bind; [auto|]; intros; apply behind_bind; [auto|]; intros [rid []]; auto 10).
Qed.
End gate.

(** ** Every world *)

(** A request keeps to the gate, and one that was cleared owns its conversation. *)
Definition in_order (t : sessions) (rq : request) : Prop :=
  ∃ x, safe gated (cleared (rq_ctx rq) (rq_thread rq) (rq_domain rq)) x (rq_prog rq) (λ _ _, True) ∧ (x = true → owns rq t = true).

Definition reachable_world : world → Prop := rtc world_step (World [] []).

Lemma in_order_fire t t' rq R (c : Sessions.cmd R) k r :
  in_order t rq → rq_prog rq = Do c k → answers c t r t' →
  in_order t' (Request (rq_ctx rq) (rq_thread rq) (rq_domain rq) (k r)).
Proof.
  intros (x & Hs & Hx) Hp Ha. rewrite Hp in Hs. destruct Hs as [_ Hs].
  exists (cleared (rq_ctx rq) (rq_thread rq) (rq_domain rq) x R c r). split; [apply Hs|]. clear Hs Hp. unfold owns. cbn [rq_ctx rq_thread rq_domain].
  destruct c; cbn [cleared]; try (intros E; eapply answers_keep_owner; [exact Ha|by apply Hx]).
  case_bool_decide as E; [|intros ->; eapply answers_keep_owner; [exact Ha|by apply Hx]]. simplify_eq.
  destruct Ha as [-> Ha]. destruct r as [b|e]; [|by intros ->; apply Hx]. subst b. intros H. destruct (owner_row _ _ _ _ t) eqn:Eo; [done|].
  apply Hx in H. unfold owns in H. congruence.
Qed.

Lemma reachable_in_order w : reachable_world w → Forall (in_order (table w)) (requests w).
Proof.
  intros Hr. unfold reachable_world in Hr. remember (World [] []) as w0 eqn:E0.
  assert (Forall (in_order (table w0)) (requests w0)) as H0 by by subst. clear E0. induction Hr as [|w0 w1 w2 Hs Hr IH]; [done|].
  apply IH. clear IH Hr. destruct Hs as [t rs e ctx thread domain|t rs i rq R c k r t' Hi Hp Ha|t rs ctx thread title domain now]; cbn [table requests] in *.
  - apply Forall_app_2; [done|]. apply Forall_cons_2; [|constructor]. exists false. split; [|done].
    replace (rq_ctx _) with ctx by done. apply behaves_request.
  - apply Forall_insert.
    + eapply Forall_impl; [exact H0|]. intros rq' (x & Hs & Hx). exists x. split; [done|]. intros E. eapply answers_keep_owner; [exact Ha|by apply Hx].
    + eapply in_order_fire; [|exact Hp|exact Ha]. by eapply Forall_lookup_1 in H0.
  - eapply Forall_impl; [exact H0|]. intros rq' (x & Hs & Hx). exists x. split; [done|]. intros E. by apply touch_keeps_owner, Hx.
Qed.

Lemma acting_owns w rq : reachable_world w → rq ∈ requests w → acts rq → owns rq (table w) = true.
Proof.
  intros Hr Hin Hact. apply reachable_in_order in Hr. rewrite Forall_forall in Hr. destruct (Hr _ Hin) as (x & Hs & Hx). apply Hx.
  unfold acts in Hact. destruct (rq_prog rq) as [|?|R c k]; try done. destruct Hs as [Hg _]. by destruct c.
Qed.

(** *** Ids a request cannot take *)

Lemma unclaimed_step w w' th : world_step w w' → Forall (in_order (table w)) (requests w) →
  startswith th TELEGRAM_THREAD_PREFIX = true → dict_get th (table w) = None → dict_get th (table w') ≠ None →
  ∃ ctx title domain now, table w' = touch_session th (sc_tenant ctx) (sc_principal ctx) (_display_title title) domain now (table w).
Proof.
  intros Hs Hord Ht Hn Hsome. destruct Hs as [t rs e ctx thread domain|t rs i rq R c k r t' Hi Hp Ha|t rs ctx thread title domain now]; cbn [table requests] in *.
  - done.
  - exfalso. apply Hsome. eapply Forall_lookup_1 in Hord as (x & Hsafe & _); [|exact Hi]. rewrite Hp in Hsafe. destruct Hsafe as [Hg _].
    destruct c; cbn [answers gated] in *; try done; try (by rewrite Ha); try (by rewrite (proj1 Ha)).
    assert (Hins : ∀ now, dict_get th (insert_session thread_id tenant principal title domain now t) = None).
    { intros now. unfold insert_session. destruct (dict_get thread_id t); [done|]. rewrite dict_get_set. case_bool_decide; [|done]. congruence. }
    destruct Ha as [now Ha]. destruct r; [subst t'; apply Hins|]. by destruct Ha as [->| ->].
  - destruct (decide (thread = th)) as [->|Hne]; [by eexists _, _, _, _|]. exfalso. apply Hsome. unfold touch_session.
    destruct (dict_get thread t); rewrite dict_get_set, bool_decide_eq_false_2 by congruence; done.
Qed.
End api.

(** ** Two people and one id *)

Module Squat.
Definition ann : SecurityCtx := SecCtx "acme" "ann".
Definition bob : SecurityCtx := SecCtx "acme" "bob".
Definition send (c : SecurityCtx) : request := request_of (λ s, s) 600 30 5 (Send "Hello" []) c "t-1" "ecorp".

Definition reply {R} (c : Sessions.cmd R) (t : sessions) : result exc R * sessions :=
  match c in Sessions.cmd R return result exc R * sessions with
  | Insert_session th te pr ti d => (Ok (), insert_session th te pr ti d 0 t)
  | Touch_session th te pr ti d => (Ok (), touch_session th te pr ti d 0 t)
  | Select_owner th te pr d => (Ok (owner_row th te pr d t), t)
  | Select_sessions te pr d => (Ok (list_rows te pr d t), t)
  | Queue _ | Checkpoint _ _ => (Err (Exc "ConnectionError" ""), t)
  end.
Lemma reply_answers {R} (c : Sessions.cmd R) t : answers c t (fst (reply c t)) (snd (reply c t)).
Proof. destruct c; cbn; try done; by exists 0%Z. Qed.

(** The [i]th request takes a step. *)
Definition fire (i : nat) (w : world) : world :=
  match requests w !! i with
  | Some rq =>
      match rq_prog rq with
      | Do c k => let '(r, t) := reply c (table w) in World t (<[i := Request (rq_ctx rq) (rq_thread rq) (rq_domain rq) (k r)]> (requests w))
      | _ => w
      end
  | None => w
  end.
Abbreviation reachable := (reachable_world (λ s, s) 600 30 5).

Lemma fire_reachable i w : reachable w → reachable (fire i w).
Proof.
  intros Hr. unfold fire. destruct (requests w !! i) as [rq|] eqn:Ei; [|done]. destruct (rq_prog rq) as [| |R c k] eqn:Ep; [done..|].
  pose proof (reply_answers c (table w)) as Ha. destruct (reply c (table w)) as [r t]. cbn [fst snd] in Ha.
  eapply rtc_r; [exact Hr|]. destruct w as [t0 rs]. by eapply Fire.
Qed.

(** Ann's message and Bob's come in together, and Bob's claim comes second. *)
Definition both : world := fire 1 (fire 0 (fire 1 (fire 0 (World [] [send ann; send bob])))).
Lemma both_reachable : reachable both.
Proof.
  do 4 apply fire_reachable. eapply rtc_l; [apply (Arrive _ _ _ _ [] [] (Send "Hello" []) ann "t-1" "ecorp")|].
  apply rtc_once. apply (Arrive _ _ _ _ [] [send ann] (Send "Hello" []) bob "t-1" "ecorp").
Qed.

Example bob_is_refused : rq_prog <$> requests both !! 1%nat = Some (Throw not_found).
Proof. reflexivity. Qed.
End Squat.


