(* ===== verification/Pricing.v ===== *)
(** What a model call costs: [app/agent/cost/pricing.py] and [metering.py].

    The prices a process holds are passed along; the clock's readings and the answer of the
    gateway's price list are arguments.  A value of that list is kept by its type, as the code
    tells them apart.  Token counts are small enough to be floats.  Logs are left out. *)
From Stdlib Require Import SpecFloat.
From S2P Require Import Prelude Dict Text Process AgentState.

Local Open Scope string_scope.
Local Open Scope list_scope.


(** [max(xs)]: the first of the greatest. *)
Definition fmax (x y : float) : float := if flt x y then y else x.
Definition fmax_list (x : float) (xs : list float) : float := foldl fmax x xs.

(** ** Prices *)

Record ModelPrice : Type := mkPrice {
  input_per_token : float;
  output_per_token : float;
  cache_read_per_token : option float;
}.

(** A value of the price list. *)
Inductive value : Type := VBool (b : bool) | VInt (z : Z) | VFloat (f : float) | VOther.

(** What the price list says of one deployment: the alias it serves, its router when it has
    one, and its rates. *)
Record deployment : Type := mkDeployment {
  dp_model_name : option string;                (* when it is a text *)
  dp_params : option (option string * bool);    (* when they are a mapping: the model, a router's configuration *)
  dp_input : option value;
  dp_output : option value;
  dp_cache_read : option value;
}.

Definition GATEWAY_ROUTER_PREFIX : string := "auto_router/".

(** The largest integer that is a float, as a bound of what [math.isfinite] takes. *)
Definition too_large (z : Z) : bool := match float_of_int z with S754_infinity _ | S754_nan => true | _ => false end.

Definition _rate (v : option value) : result exc (option float) :=
  match v with
  | Some (VInt z) => if too_large z then Err (Exc "OverflowError" "") else Ok (if (0 <=? z)%Z then Some (float_of_int z) else None)
  | Some (VFloat f) => Ok (if ffinite f && fge f fzero then Some f else None)
  | _ => Ok None
  end.

Definition _is_gateway_router (d : deployment) : bool :=
  match dp_params d with
  | Some (model, router) => from_option (λ m, startswith m GATEWAY_ROUTER_PREFIX) false model || router
  | None => false
  end.

Definition _deployment_price (d : deployment) : result exc (option ModelPrice) :=
  if _is_gateway_router d then Ok None else
  rbind (_rate (dp_input d)) (λ input_rate,
  rbind (_rate (dp_output d)) (λ output_rate,
  match input_rate, output_rate with
  | Some i, Some o => rbind (_rate (dp_cache_read d)) (λ c, Ok (Some (mkPrice i o c)))
  | _, _ => Ok None
  end)).

Fixpoint rmap {A B} (f : A → result exc B) (xs : list A) : result exc (list B) :=
  match xs with
  | [] => Ok []
  | x :: xs => rbind (f x) (λ y, rbind (rmap f xs) (λ ys, Ok (y :: ys)))
  end.

(** All of them, or nothing when one is missing. *)
Fixpoint every {A} (xs : list (option A)) : option (list A) :=
  match xs with
  | [] => Some []
  | x :: xs => x ← x; xs ← every xs; Some (x :: xs)
  end.

Definition cache_rate (prices : list ModelPrice) : option float :=
  match every (cache_read_per_token <$> prices) with Some (c :: cs) => Some (fmax_list c cs) | _ => None end.

(** The price of an alias by those of its deployments: at least one. *)
Definition dearest (prices : list ModelPrice) : option ModelPrice :=
  match prices with
  | [] => None
  | p :: ps => Some (mkPrice (fmax_list (input_per_token p) (input_per_token <$> ps))
                             (fmax_list (output_per_token p) (output_per_token <$> ps))
                             (cache_rate (p :: ps)))
  end.

Definition _alias_price (entries : list deployment) : result exc (option ModelPrice) :=
  rbind (rmap _deployment_price entries) (λ prices, Ok (every prices ≫= dearest)).

(** [by_alias.setdefault(alias, []).append(entry)] *)
Fixpoint group (by_alias : list (string * list deployment)) (entries : list deployment) : list (string * list deployment) :=
  match entries with
  | [] => by_alias
  | d :: entries =>
      match dp_model_name d with
      | Some alias => group (dict_set alias (default [] (dict_get alias by_alias) ++ [d]) by_alias) entries
      | None => group by_alias entries
      end
  end.

Definition parse_model_info (entries : list deployment) : result exc (list (string * option ModelPrice)) :=
  rmap (λ g, rbind (_alias_price g.2) (λ p, Ok (g.1, p))) (group [] entries).

(** ** The prices a process holds *)

Record pricing : Type := mkPricing {
  _prices : list (string * option ModelPrice);
  _fetched_at : option Z;
  _failed_at : option Z;
  _warned_unpriced : list string;
}.
Definition reset_pricing_state : pricing := mkPricing [] None None [].

Section pricing.
Context (PRICING_REFRESH_SECONDS FAILED_LOOKUP_RETRY_SECONDS : Z).   (* microseconds *)

Definition price_due (s : pricing) (now : Z) : bool :=
  match _fetched_at s with None => true | Some t => PRICING_REFRESH_SECONDS <=? now - t end%Z &&
  negb (match _failed_at s with None => false | Some t => now - t <? FAILED_LOOKUP_RETRY_SECONDS end%Z).

(** [now] and [later] are the clock before and after the read, [fetched] what it answered. *)
Definition refresh (s : pricing) (now : Z) (fetched : result exc (list deployment)) (later : Z) : pricing :=
  if price_due s now then
    match rbind fetched parse_model_info with
    | Ok prices => mkPricing prices (Some later) None (_warned_unpriced s)
    | Err _ => mkPricing (_prices s) (_fetched_at s) (Some later) (_warned_unpriced s)
    end
  else s.

Definition get_price (s : pricing) (alias : string) (now : Z) (fetched : result exc (list deployment)) (later : Z) : option ModelPrice * pricing :=
  let s := refresh s now fetched later in (mjoin (dict_get alias (_prices s)), s).
End pricing.

(** ** The cost of a call *)

Definition cost_usd (price : ModelPrice) (input_tokens output_tokens cached_input_tokens : Z) : float :=
  let input_tokens := Z.max input_tokens 0 in
  let cached := Z.min (Z.max cached_input_tokens 0) input_tokens in
  let cache_rate := default (input_per_token price) (cache_read_per_token price) in
  fadd (fadd (fmul (float_of_int (input_tokens - cached)) (input_per_token price)) (fmul (float_of_int cached) cache_rate))
       (fmul (float_of_int (Z.max output_tokens 0)) (output_per_token price)).

Definition note_unpriced (alias : string) (s : pricing) : pricing :=
  mkPricing (_prices s) (_fetched_at s) (_failed_at s)
    (if bool_decide (alias ∈ _warned_unpriced s) then _warned_unpriced s else _warned_unpriced s ++ [alias]).

(** The usage a response reports. *)
Record usage : Type := mkUsage { us_input : option Z; us_output : option Z; us_total : option Z; us_cache_read : option Z }.

Record PricedCall : Type := mkPriced {
  pc_input_tokens : Z;
  pc_output_tokens : Z;
  pc_cached_input_tokens : Z;
  pc_total_tokens : Z;
  pc_cost_usd : option float;
  pc_price : option ModelPrice;
}.
Definition spent_tokens (p : PricedCall) : bool := (0 <? pc_total_tokens p)%Z.

(** [price] is what [get_price] answers; it is asked only when tokens were spent. *)
Definition price_call (price : option ModelPrice) (u : usage) : PricedCall :=
  let input_tokens := default 0%Z (us_input u) in
  let output_tokens := default 0%Z (us_output u) in
  let reported_total := default 0%Z (us_total u) in
  let cached := default 0%Z (us_cache_read u) in
  let total_tokens := Z.max (input_tokens + output_tokens) reported_total in
  if (total_tokens <=? 0)%Z then mkPriced 0 0 0 0 (Some fzero) None else
  match price with
  | None => mkPriced input_tokens output_tokens cached total_tokens None None
  | Some p =>
      let unexplained := Z.max (reported_total - input_tokens - output_tokens) 0 in
      let cost := fadd (cost_usd p input_tokens output_tokens cached)
                       (fmul (float_of_int unexplained) (fmax (input_per_token p) (output_per_token p))) in
      mkPriced input_tokens output_tokens cached total_tokens (Some cost) (Some p)
  end.

(** [x or 0.0] *)
Definition or_zero (x : option float) : float := match x with Some f => if fnonzero f then f else fzero | None => fzero end.
Definition price_usage (price : option ModelPrice) (u : usage) : float := or_zero (pc_cost_usd (price_call price u)).

Definition refuse_unpriced (UNPRICED_MODEL_POLICY : string) (price : option ModelPrice) : bool :=
  String.eqb UNPRICED_MODEL_POLICY "block" && bool_decide (price = None).
