(* ===== verification/Gateway.v ===== *)
(** Who a model call is made for, as the gateway is told: [app/core/gateway.py].

    A text is its UTF-8 bytes.  SHA-256 is an argument. *)
From Stdlib Require Import Ascii.
From S2P Require Import Prelude Dict Json Text AgentState.

Local Open Scope string_scope.
Local Open Scope list_scope.
Local Open Scope N_scope.

(** ** [urllib.parse.quote(s, safe="")] and [unquote] *)

(** Letters, digits and [_.-~] *)
Definition unreserved (a : ascii) : bool :=
  let n := N_of_ascii a in
  (65 <=? n) && (n <=? 90) || (97 <=? n) && (n <=? 122) || (48 <=? n) && (n <=? 57) ||
  (n =? 95) || (n =? 46) || (n =? 45) || (n =? 126).

Definition percent : ascii := "%"%char.
Definition upper_hex (n : N) : ascii := ascii_of_N (if n <? 10 then 48 + n else 55 + n).
Definition hex_value (a : ascii) : option N :=
  let n := N_of_ascii a in
  if (48 <=? n) && (n <=? 57) then Some (n - 48) else
  if (65 <=? n) && (n <=? 70) then Some (n - 55) else
  if (97 <=? n) && (n <=? 102) then Some (n - 87) else None.

Definition quote_char (a : ascii) : string :=
  if unreserved a then String a "" else
  let n := N_of_ascii a in String percent (String (upper_hex (n / 16)) (String (upper_hex (n mod 16)) "")).
Fixpoint quote (s : string) : string :=
  match s with EmptyString => "" | String a s => quote_char a +:+ quote s end.

(** The bytes a percent-encoded text stands for; a [%] without two digits stays. *)
Fixpoint unquote_bytes (s : string) : string :=
  match s with
  | String a (String h (String l s') as t) =>
      if Ascii.eqb a percent then
        match hex_value h, hex_value l with
        | Some x, Some y => String (ascii_of_N (16 * x + y)) (unquote_bytes s')
        | _, _ => String a (unquote_bytes t)
        end
      else String a (unquote_bytes t)
  | String a t => String a (unquote_bytes t)
  | EmptyString => ""
  end.

(** Bytes that are UTF-8: what is not is replaced when it is decoded. *)
Definition continuation (lo hi : N) (a : ascii) : bool := let n := N_of_ascii a in (lo <=? n) && (n <=? hi).
Fixpoint utf8 (s : string) : bool :=
  match s with
  | EmptyString => true
  | String a s =>
      let n := N_of_ascii a in
      if n <? 128 then utf8 s else
      if (194 <=? n) && (n <=? 223) then
        match s with String b s => continuation 128 191 b && utf8 s | _ => false end
      else if (224 <=? n) && (n <=? 239) then
        match s with
        | String b (String c s) => continuation (if n =? 224 then 160 else 128) (if n =? 237 then 159 else 191) b && continuation 128 191 c && utf8 s
        | _ => false
        end
      else if (240 <=? n) && (n <=? 244) then
        match s with
        | String b (String c (String d s)) =>
            continuation (if n =? 240 then 144 else 128) (if n =? 244 then 143 else 191) b && continuation 128 191 c && continuation 128 191 d && utf8 s
        | _ => false
        end
      else false
  end.

(** ** The end user of a call *)

Definition end_user_id (tenant principal : string) : string := "tenant:" +:+ quote tenant +:+ "/user:" +:+ quote principal.

(** [[A-Za-z0-9_.~%-]] *)
Definition id_char (a : ascii) : bool := unreserved a || Ascii.eqb a percent.

(** The longest start of such characters, and what follows it. *)
Fixpoint id_part (s : string) : string * string :=
  match s with
  | EmptyString => ("", "")
  | String a t => if id_char a then let '(p, rest) := id_part t in (String a p, rest) else ("", s)
  end.

(** [p] off the start of [s] *)
Fixpoint strip_prefix (p s : string) : option string :=
  match p, s with
  | EmptyString, _ => Some s
  | String a p, String b s => if Ascii.eqb a b then strip_prefix p s else None
  | String _ _, EmptyString => None
  end.

(** [_END_USER.fullmatch] *)
Definition match_end_user (end_user : string) : option (string * string) :=
  rest ← strip_prefix "tenant:" end_user;
  let '(t, rest) := id_part rest in
  rest ← strip_prefix "/user:" rest;
  let '(p, rest) := id_part rest in
  match rest with EmptyString => Some (t, p) | _ => None end.

(** Bytes that are not UTF-8 decode to a text that is encoded differently. *)
Definition parse_end_user_id (end_user : string) : option (string * string) :=
  '(t, p) ← match_end_user end_user;
  let tenant := unquote_bytes t in
  let principal := unquote_bytes p in
  if utf8 tenant && utf8 principal && String.eqb (end_user_id tenant principal) end_user then Some (tenant, principal) else None.

Section gateway.
Context (sha256_hex : string → string).

Definition legacy_end_user_id (tenant : string) : string := "tenant_" +:+ take_str 16 (sha256_hex tenant).

(** The keyword arguments of a call, as one object. *)
Definition call_identity (ctx : option SecurityCtx) (session_id : option string) : list (string * json) :=
  match ctx with
  | Some c =>
      if negb (valid_ctx ctx) then [] else
      let session := match session_id with Some s => if bool_decide (s = "") then [] else [s] | None => [] end in
      let metadata := [("tenant", JStr (sc_tenant c)); ("principal", JStr (sc_principal c)); ("tags", JList [JStr ("tenant:" +:+ sc_tenant c)])] ++
        ((λ s, ("session_id", JStr s)) <$> session) in
      [("user", JStr (end_user_id (sc_tenant c) (sc_principal c)));
       ("extra_body", JObj (("metadata", JObj metadata) :: ((λ s, ("litellm_session_id", JStr s)) <$> session)))]
  | None => []
  end.
End gateway.
