(* ===== verification/Meter.v ===== *)
(** One usage event per model call, its retention and its reconciliation with the gateway:
    [app/agent/cost/metering.py], [usage_events.py], [usage_events_retention.py] and
    [usage_reconcile.py], with the [usage_events] table of
    [app/adapters/postgres/usage_events.py].

    An amount of the reconciliation is a whole number of 10^-18 dollars, a percentage one of
    10^-6 percent; sums stay within the 28 digits of the decimal context.  UUIDs are an
    argument; metrics are counted by their path. *)
From Stdlib Require Import SpecFloat.
From S2P Require Import Prelude Dict Json Text Messages Process AgentState Pricing Gateway.

Local Open Scope string_scope.
Local Open Scope list_scope.
Local Open Scope Z_scope.

(** ** Events *)

Record event_row : Type := mkRow {
  ev_event_id : string;
  ev_tenant : string;
  ev_principal : string;
  ev_thread_id : string;
  ev_kind : string;
  ev_model_alias : string;
  ev_resolved_model : option string;
  ev_input_tokens : Z;
  ev_output_tokens : Z;
  ev_cached_input_tokens : Z;
  ev_total_tokens : Z;
  ev_cost_usd : option float;
  ev_price_input_per_token : option float;
  ev_price_output_per_token : option float;
}.

(** What the billing port is handed of a new event. *)
Record handed_usage : Type := mkHanded {
  hu_tenant : string; hu_event_id : string; hu_kind : string; hu_cost_usd : option float; hu_model : string; hu_tokens : Z }.

(** A stored event, and when it was inserted. *)
Definition usage_table : Type := list (event_row * Z).

Definition handed (row : event_row) : handed_usage :=
  mkHanded (ev_tenant row) (ev_event_id row) (ev_kind row) (ev_cost_usd row)
    (match ev_resolved_model row with Some m => if nonempty m then m else ev_model_alias row | None => ev_model_alias row end) (ev_total_tokens row).

(** [_insert]: the table, and what is handed to billing in the same transaction. *)
Definition _insert (now : Z) (row : event_row) (t : usage_table) : usage_table * option handed_usage :=
  if existsb (λ r, String.eqb (ev_event_id r.1) (ev_event_id row)) t then (t, None) else (t ++ [(row, now)], Some (handed row)).

Definition _BATCH_doomed (now days : Z) (n : nat) (t : usage_table) : list (event_row * Z) :=
  take n (filter (λ r, r.2 < now - days * 86400000000) t).

Inductive cmd : Type → Type :=
| Ainvoke (model : option string) (identity : list (string * json)) : cmd (usage * option string)  (* the usage and the id of the response *)
| Price (alias : string) : cmd (option ModelPrice)                       (* [get_price], which never raises *)
| Note_unpriced (alias : string) : cmd ()
| Resolve (alias : string) : cmd (option string)
| Uuid4 : cmd string
| Degraded (path : string) : cmd ()
| Insert (row : event_row) : cmd bool
| Delete_older (days : Z) (n : nat) : cmd nat.
Abbreviation P := (prog cmd).

Definition KINDS : list string := ["chat"; "followups"; "compaction"; "subagent"; "embedding"; "cron"].

Section meter.
Context (uuid5 : string → string).            (* [uuid5(_EVENT_NAMESPACE, name)] *)

Definition event_id_for (tenant message_id : string) : string := uuid5 (tenant +:+ "|" +:+ message_id).

Definition row_of (c : SecurityCtx) (thread_id message_id kind model_alias : string) (resolved : option string) (priced : PricedCall) : event_row :=
  mkRow (event_id_for (sc_tenant c) message_id) (sc_tenant c) (sc_principal c) thread_id kind model_alias resolved
    (pc_input_tokens priced) (pc_output_tokens priced) (pc_cached_input_tokens priced) (pc_total_tokens priced) (pc_cost_usd priced)
    (input_per_token <$> pc_price priced) (output_per_token <$> pc_price priced).

Definition UsageTableMissing : string := "UsageTableMissing".

Definition record_call (ctx : option SecurityCtx) (thread_id : string) (message_id : option string) (kind model_alias : string) (priced : PricedCall) : P () :=
  match ctx with
  | Some c =>
      if negb (valid_ctx ctx) then Ret () else
      if negb (bool_decide (kind ∈ KINDS)) then call (Degraded "usage_event_write") else
      if negb (spent_tokens priced) then call (Degraded "usage_missing") else
      (message_id ← match message_id with
         | Some id => if nonempty id then Ret id else (call (Degraded "usage_event_identity") ;; call Uuid4)
         | None => call (Degraded "usage_event_identity") ;; call Uuid4
         end;
       resolved ← call (Resolve model_alias);
       catch_exception (call (Insert (row_of c thread_id message_id kind model_alias resolved priced)) ;; Ret ())
         (λ e, if String.eqb (exc_class e) UsageTableMissing then call (Degraded "usage_event_table_missing") else call (Degraded "usage_event_write")))%prog
  | None => Ret ()
  end.

(** ** metering.py *)

Record MeteredCall : Type := mkMetered { mc_usage : usage; mc_cost_usd : float; mc_priced : PricedCall }.

Definition price_call_prog (alias : string) (u : usage) : P PricedCall :=
  if spent_tokens (price_call None u) then
    (price ← call (Price alias);
     match price with None => call (Note_unpriced alias) | Some _ => Ret () end ;;
     Ret (price_call price u))%prog
  else Ret (price_call None u).

Definition metered_invoke (ctx : option SecurityCtx) (thread_id : option string) (kind model_alias : string) (invoke_model : option string) : P MeteredCall :=
  ('(u, response_id) ← call (Ainvoke invoke_model (call_identity ctx thread_id));
   priced ← price_call_prog model_alias u;
   record_call ctx (match thread_id with Some t => if nonempty t then t else "unknown" | None => "unknown" end) response_id kind model_alias priced ;;
   Ret (mkMetered u (or_zero (pc_cost_usd priced)) priced))%prog.
End meter.

(** ** usage_events_retention.py *)

Section sweep.
Context (USAGE_EVENT_MIN_RETENTION_DAYS : Z).

(** [None]: the loop of batches ended at its ceiling. *)
Fixpoint batches (max_batches : nat) (days : Z) (batch_size : nat) (deleted : nat) : P (nat * bool) :=
  match max_batches with
  | O => Ret (deleted, false)
  | S max_batches =>
      (gone ← call (Delete_older days batch_size);
       if (gone <? batch_size)%nat then Ret ((deleted + gone)%nat, true) else batches max_batches days batch_size (deleted + gone)%nat)%prog
  end.

Definition sweep_old_events (older_than_days : Z) (batch_size max_batches : nat) : P (nat * bool) :=
  if older_than_days <? USAGE_EVENT_MIN_RETENTION_DAYS then Throw (Exc "ValueError" "older_than_days is below the floor")
  else batches max_batches older_than_days batch_size 0.
End sweep.

(** ** usage_reconcile.py *)

Definition amounts : Type := list ((string * Z) * Z).         (* by tenant and day *)
Definition amount (m : amounts) (k : string * Z) : Z := default 0 (dict_get k m).

(** The fixed part in 10^-18 dollars, the share in millionths of a percent. *)
Record Tolerance : Type := mkTolerance { tol_usd : Z; tol_pct : Z }.
Definition allows (tol : Tolerance) (a b : Z) : bool :=
  Z.abs (a - b) * 100000000 <=? Z.max (tol_usd tol * 100000000) (Z.max (Z.abs a) (Z.abs b) * tol_pct tol).

Record Finding : Type := mkFinding { fi_tenant : string; fi_day : Z; fi_expected : Z; fi_actual : Z; fi_note : string }.
Definition drift (f : Finding) : Z := fi_actual f - fi_expected f.

(** [sorted(..., key=lambda f: (-abs(f.drift), f.tenant, f.day))] *)
Definition finding_le (f g : Finding) : bool :=
  if Z.abs (drift f) =? Z.abs (drift g) then
    if String.eqb (fi_tenant f) (fi_tenant g) then fi_day f <=? fi_day g else String.ltb (fi_tenant f) (fi_tenant g)
  else Z.abs (drift g) <? Z.abs (drift f).
Fixpoint insert_finding (f : Finding) (fs : list Finding) : list Finding :=
  match fs with
  | [] => [f]
  | g :: fs' => if finding_le f g then f :: fs else g :: insert_finding f fs'
  end.
Definition sort_findings (fs : list Finding) : list Finding := foldr insert_finding [] fs.

(** [events.keys() | other.keys()] *)
Definition keys_union (events other : amounts) : list (string * Z) := events.*1 ++ filter (λ k, k ∉ events.*1) other.*1.

Definition compare (events other : amounts) (tol : Tolerance) (notes : list ((string * Z) * string)) : list Finding :=
  sort_findings ((λ k, mkFinding k.1 k.2 (amount events k) (amount other k) (default "" (dict_get k notes))) <$>
    filter (λ k, allows tol (amount events k) (amount other k) = false) (keys_union events other)).

Section reconcile.
Context (sha256_hex : string → string).

(** The tenant a spend of the gateway belongs to, or nobody's. *)
Definition tenant_of (tenants : list string) (end_user : string) : option string :=
  match parse_end_user_id end_user with
  | Some (tenant, _) => Some tenant
  | None =>
      match dict_get end_user (dict_of (legacy_end_user_id sha256_hex) id tenants []) with
      | Some tenant => Some tenant
      | None => if startswith end_user "tenant_" then Some (end_user +:+ " (no tenant in this database hashes to it)") else None
      end
  end.

Fixpoint attribute (tenants : list string) (raw : list ((string * Z) * Z)) (attributed : amounts) (unattributed : Z) : amounts * Z :=
  match raw with
  | [] => (attributed, unattributed)
  | ((end_user, day), amt) :: raw =>
      match tenant_of tenants end_user with
      | Some tenant => attribute tenants raw (dict_set (tenant, day) (amount attributed (tenant, day) + amt) attributed) unattributed
      | None => attribute tenants raw attributed (unattributed + amt)
      end
  end.
Definition attribute_gateway (raw : list ((string * Z) * Z)) (tenants : list string) : amounts * Z := attribute tenants raw [] 0.

(** The gateway's answer: its spend by end user and day, how many rows, and whether it is whole. *)
Record gateway_spend : Type := mkSpend { gs_spend : list ((string * Z) * Z); gs_rows : Z; gs_complete : bool; gs_reason : string }.
(** The meter's figures. *)
Record meter_figures : Type := mkFigures { mf_usd : amounts; mf_unpriced : list ((string * Z) * Z); mf_events : Z; mf_known : list string }.

Record Report : Type := mkReport {
  rp_findings : list Finding;
  rp_tenants : nat;
  rp_events : Z;
  rp_gateway_rows : option Z;
  rp_unattributed : Z;
  rp_skipped : list string;
  rp_incomplete : bool;
}.

Definition outcome (r : Report) : string :=
  if negb (bool_decide (length (rp_findings r) = O)) then "drift" else if rp_incomplete r then "incomplete" else "ok".

(** [max(..., default=ZERO)] *)
Definition max_drift (r : Report) : Z := foldr (λ f m, Z.max (Z.abs (drift f)) m) 0 (rp_findings r).

Definition unpriced_note (count : Z) : string := py_str (JInt count) +:+ " unpriced event(s) in the meter's figure".

(** One pass over a window that is not empty; nothing was asked of the gateway without [spend]. *)
Definition reconcile (empty_window : bool) (figures : meter_figures) (spend : option gateway_spend) (tol : Tolerance) : Report :=
  if empty_window then
    mkReport [] 0 0 None 0 ["window: it is empty (the settle period reaches back past the start of the day)"] false
  else
    let tenants := remove_dups ((fst <$> (mf_usd figures).*1) ++ mf_known figures) in
    match spend with
    | None => mkReport [] (length tenants) (mf_events figures) None 0 ["gateway: not compared (not requested)"] false
    | Some spend =>
        if negb (gs_complete spend) then
          mkReport [] (length tenants) (mf_events figures) (Some (gs_rows spend)) 0
            ["gateway: not compared, the read is incomplete (" +:+ gs_reason spend +:+ ")"] true
        else
          let '(attributed, unattributed) := attribute_gateway (gs_spend spend) tenants in
          let notes := (λ kv, (kv.1, unpriced_note kv.2)) <$> mf_unpriced figures in
          mkReport (sort_findings (compare (mf_usd figures) attributed tol notes)) (length tenants) (mf_events figures)
            (Some (gs_rows spend)) unattributed [] false
    end.
End reconcile.
