(* ===== verification/MeterTheorems.v ===== *)
(** The properties of the prices, of the gateway's identities and of the meter, each with a
    concrete instance. *)
From Stdlib Require Import Ascii SpecFloat.
From S2P Require Import Prelude Dict Text Process AgentState Pricing Json Gateway Messages Meter.

Local Open Scope string_scope.
Local Open Scope list_scope.

(** ** Floats that are rates *)

Definition rated (f : float) : Prop := ffinite f = true ∧ fge f fzero = true.

Lemma rated_cases f : rated f → (∃ s, f = S754_zero s) ∨ (∃ m e, f = S754_finite false m e).
Proof. intros [Hf Hg]. destruct f as [s|s| |[] m e]; try done; [by left; exists s|by right; exists m, e]. Qed.

Lemma fge_refl f : rated f → fge f f = true.
Proof.
  intros [[s ->]|(m & e & ->)]%rated_cases; [done|]. unfold fge, SFleb, SFcompare. rewrite Z.compare_refl, Pos.compare_cont_refl. done.
Qed.

(** The order of two positive floats: by exponent, then by mantissa. *)
Lemma fge_finite m e m' e' : fge (S754_finite false m e) (S754_finite false m' e') = true ↔ (e' < e)%Z ∨ e' = e ∧ (m' <= m)%positive.
Proof.
  unfold fge, SFleb, SFcompare. destruct (Z.compare_spec e' e) as [->|H|H].
  - change (Pos.compare_cont Eq m' m) with (Pos.compare m' m). destruct (Pos.compare_spec m' m); split; intros; try done; try lia.
  - split; [by left|done].
  - split; [done|lia].
Qed.

Lemma fge_trans f g h : rated f → rated g → rated h → fge f g = true → fge g h = true → fge f h = true.
Proof.
  intros [[s ->]|(m & e & ->)]%rated_cases [[s' ->]|(m' & e' & ->)]%rated_cases [[s'' ->]|(m'' & e'' & ->)]%rated_cases; try done.
  rewrite !fge_finite. lia.
Qed.

Lemma flt_fge f g : rated f → rated g → flt f g = false → fge f g = true.
Proof.
  intros Hf Hg H. destruct (rated_cases f Hf) as [[s ->]|(m & e & ->)], (rated_cases g Hg) as [[s' ->]|(m' & e' & ->)]; try done.
  apply fge_finite. unfold flt, SFltb, SFcompare in H. destruct (Z.compare_spec e e') as [->|?|?]; [|done|lia].
  change (Pos.compare_cont Eq m m') with (Pos.compare m m') in H. destruct (Pos.compare_spec m m'); [lia|done|lia].
Qed.
Lemma flt_ge f g : rated f → rated g → flt f g = true → fge g f = true.
Proof.
  intros Hf Hg H. destruct (rated_cases f Hf) as [[s ->]|(m & e & ->)], (rated_cases g Hg) as [[s' ->]|(m' & e' & ->)]; try done.
  apply fge_finite. unfold flt, SFltb, SFcompare in H. destruct (Z.compare_spec e e') as [->|?|?]; [|lia|done].
  change (Pos.compare_cont Eq m m') with (Pos.compare m m') in H. destruct (Pos.compare_spec m m'); [done|lia|done].
Qed.

Lemma fmax_bounds f g : rated f → rated g → rated (fmax f g) ∧ fge (fmax f g) f = true ∧ fge (fmax f g) g = true ∧ (fmax f g = f ∨ fmax f g = g).
Proof.
  intros Hf Hg. unfold fmax. destruct (flt f g) eqn:E.
  - split_and!; [done|by apply flt_ge|by apply fge_refl|by right].
  - split_and!; [done|by apply fge_refl|by apply flt_fge|by left].
Qed.

(** The greatest of some rates is one of them and bounds them all. *)
Lemma fmax_list_bounds x xs : rated x → Forall rated xs →
  rated (fmax_list x xs) ∧ fmax_list x xs ∈ x :: xs ∧ Forall (λ y, fge (fmax_list x xs) y = true) (x :: xs).
Proof.
  intros Hx Hxs. revert x Hx. induction Hxs as [|y ys Hy Hys IH]; intros x Hx.
  - split_and!; [done|by left|]. apply Forall_cons_2; [by apply fge_refl|constructor].
  - destruct (fmax_bounds x y Hx Hy) as (Hm & H1 & H2 & H3). change (fmax_list x (y :: ys)) with (fmax_list (fmax x y) ys).
    destruct (IH _ Hm) as (Hr & Hin & Hall). apply Forall_cons in Hall as [Hfirst Hall]. split_and!; [done| |].
    + apply elem_of_cons in Hin as [E|Hin]; [rewrite E; destruct H3 as [->| ->]; set_solver|set_solver].
    + apply Forall_cons_2; [|apply Forall_cons_2; [|done]]; by eapply fge_trans; [| | |exact Hfirst|].
Qed.

(** *** Rates of the price list *)

Lemma round_sign s m e l : match binary_round_aux 53 1024 s m e l with
  | S754_zero s' | S754_infinity s' | S754_finite s' _ _ => s' = s | S754_nan => True end.
Proof.
  unfold binary_round_aux. destruct (shr_fexp 53 1024 m e l) as [mrs e1].
  destruct (shr_fexp 53 1024 _ e1 loc_Exact) as [mrs' e2]. destruct (shr_m mrs'); [done| |done]. by destruct (e2 <=? 1024 - 53)%Z.
Qed.

Lemma int_rated z : (0 <= z)%Z → too_large z = false → rated (float_of_int z).
Proof.
  unfold too_large, float_of_int, binary_normalize. destruct z as [|z|z]; [done| |lia]. intros _. unfold binary_round.
  match goal with |- context [let '(_, _) := ?t in _] => destruct t as [m e] end. pose proof (round_sign false (Zpos m) e loc_Exact) as H.
  destruct (binary_round_aux 53 1024 false (Zpos m) e loc_Exact); try done; by subst.
Qed.

Lemma rate_rated v f : _rate v = Ok (Some f) → rated f.
Proof.
  unfold _rate. destruct v as [[b|z|g|]|]; try done.
  - destruct (too_large z) eqn:E; [done|]. destruct (0 <=? z)%Z eqn:Ez; [|done]. intros [= <-]. apply int_rated; [lia|done].
  - destruct (ffinite g) eqn:Ef; [|done]. destruct (fge g fzero) eqn:Eg; [|done]. intros [= <-]. done.
Qed.

Definition price_rated (p : ModelPrice) : Prop :=
  rated (input_per_token p) ∧ rated (output_per_token p) ∧ from_option rated True (cache_read_per_token p).

Lemma deployment_rated d p : _deployment_price d = Ok (Some p) → price_rated p.
Proof.
  unfold _deployment_price. destruct (_is_gateway_router d); [done|]. intros (i & Hi & Ho)%rbind_Ok. apply rbind_Ok in Ho as (o & Ho & Hc).
  destruct i as [i|]; [|done]. destruct o as [o|]; [|done]. apply rbind_Ok in Hc as (c & Hc & [= <-]).
  split_and!; [by eapply rate_rated|by eapply rate_rated|]. destruct c; [by eapply rate_rated|done].
Qed.

(** *** The price of an alias *)

Lemma rmap_Forall2 {A B} (f : A → result exc B) xs ys : rmap f xs = Ok ys → Forall2 (λ x y, f x = Ok y) xs ys.
Proof.
  revert ys. induction xs as [|x xs IH]; intros ys; cbn [rmap]; [by intros [= <-]|].
  intros (y & Hy & H)%rbind_Ok. apply rbind_Ok in H as (ys' & Hys & [= <-]). constructor; [done|by apply IH].
Qed.

Lemma every_Some {A} (xs : list (option A)) ys : every xs = Some ys → xs = Some <$> ys.
Proof.
  revert ys. induction xs as [|[x|] xs IH]; intros ys; cbn [every]; [by intros [= <-]| |done].
  cbn. destruct (every xs) as [ys'|]; [|done]. intros [= <-]. cbn. by rewrite (IH ys').
Qed.
Lemma every_None {A} (xs : list (option A)) : every xs = None → None ∈ xs.
Proof.
  induction xs as [|[x|] xs IH]; cbn [every]; [done| |by left]. cbn. destruct (every xs) as [ys'|]; [done|]. right. by apply IH.
Qed.

(** [p] is no cheaper than [q]. *)
Definition bounds (p q : ModelPrice) : Prop :=
  fge (input_per_token p) (input_per_token q) = true ∧ fge (output_per_token p) (output_per_token q) = true ∧
  (∀ c, cache_read_per_token p = Some c → ∃ c', cache_read_per_token q = Some c' ∧ fge c c' = true).

Lemma dearest_bounds ps p : Forall price_rated ps → dearest ps = Some p → Forall (bounds p) ps.
Proof.
  destruct ps as [|p0 ps]; [done|]. intros Hps [= <-]. apply Forall_cons in Hps as [(Hi & Ho & Hc) Hps].
  assert (Forall rated (input_per_token <$> ps) ∧ Forall rated (output_per_token <$> ps)) as [Hri Hro].
  { rewrite !Forall_fmap. split; (eapply Forall_impl; [exact Hps|]); by intros q (? & ? & ?). }
  destruct (fmax_list_bounds _ _ Hi Hri) as (_ & _ & Hi'). destruct (fmax_list_bounds _ _ Ho Hro) as (_ & _ & Ho').
  change (input_per_token p0 :: (input_per_token <$> ps)) with (input_per_token <$> (p0 :: ps)) in Hi'.
  change (output_per_token p0 :: (output_per_token <$> ps)) with (output_per_token <$> (p0 :: ps)) in Ho'.
  rewrite Forall_fmap in Hi', Ho'. rewrite Forall_forall in Hi', Ho' |- *. intros q Hq. split_and!; [by apply Hi'|by apply Ho'|].
  cbn [cache_read_per_token]. intros c. unfold cache_rate. destruct (every (cache_read_per_token <$> p0 :: ps)) as [[|c0 cs]|] eqn:Ee; [done| |done]. intros [= <-].
  apply every_Some in Ee. assert (Hrated : Forall rated (c0 :: cs)).
  { apply Forall_forall. intros x Hx. assert (Some x ∈ cache_read_per_token <$> (p0 :: ps)) as Hx' by (rewrite Ee; by apply list_elem_of_fmap_2).
    apply list_elem_of_fmap in Hx' as (q' & Hx' & Hq'). apply elem_of_cons in Hq' as [->|Hq']; [by rewrite <-Hx' in Hc|].
    rewrite Forall_forall in Hps. destruct (Hps _ Hq') as (_ & _ & H). by rewrite <-Hx' in H. }
  apply Forall_cons in Hrated as [H0 Hcs]. destruct (fmax_list_bounds c0 cs H0 Hcs) as (_ & _ & Hall).
  assert (cache_read_per_token q ∈ Some <$> (c0 :: cs)) as Hin by (rewrite <-Ee; by apply list_elem_of_fmap_2).
  apply list_elem_of_fmap in Hin as (c' & E & Hc'). exists c'. split; [done|]. by eapply Forall_forall in Hall.
Qed.

Lemma alias_price_bounds es r : es ≠ [] → _alias_price es = Ok r →
  match r with
  | None => ∃ d, d ∈ es ∧ _deployment_price d = Ok None
  | Some p => ∀ d, d ∈ es → ∃ q, _deployment_price d = Ok (Some q) ∧ bounds p q
  end.
Proof.
  intros Hne (prices & Hp & [= <-])%rbind_Ok. apply rmap_Forall2 in Hp. destruct (every prices) as [ps|] eqn:Ee.
  - apply every_Some in Ee. subst prices. cbn. assert (Hps : Forall price_rated ps).
    { apply Forall_forall. intros q Hq. apply (list_elem_of_fmap_2 Some) in Hq. apply list_elem_of_lookup in Hq as [i Hi].
      eapply Forall2_lookup_r in Hp as (d & _ & Hd); [|exact Hi]. by eapply deployment_rated. }
    destruct (dearest ps) as [p|] eqn:Ed.
    + pose proof (dearest_bounds _ _ Hps Ed) as Hb. intros d Hd. apply list_elem_of_lookup in Hd as [i Hi].
      eapply Forall2_lookup_l in Hp as (y & Hy & Hdy); [|exact Hi]. rewrite list_lookup_fmap in Hy. destruct (ps !! i) as [q|] eqn:Eq; [|done].
      injection Hy as <-. exists q. split; [done|]. by eapply Forall_lookup_1.
    + destruct ps; [|done]. inversion Hp. by subst.
  - cbn. apply every_None, list_elem_of_lookup in Ee as [i Hi]. eapply Forall2_lookup_r in Hp as (d & Hd & E); [|exact Hi].
    exists d. split; [by eapply list_elem_of_lookup_2|done].
Qed.

(** *** The price list *)

Definition serving (alias : string) (es : list deployment) : list deployment := filter (λ d, dp_model_name d = Some alias) es.

Lemma group_get alias acc es : default [] (dict_get alias (group acc es)) = default [] (dict_get alias acc) ++ serving alias es.
Proof.
  revert acc. unfold serving. induction es as [|d es IH]; intros acc; cbn [group]; [by rewrite app_nil_r|].
  rewrite filter_cons. destruct (dp_model_name d) as [a|] eqn:Ea; rewrite IH.
  - rewrite dict_get_set. destruct (decide (alias = a)) as [->|Hne].
    + rewrite bool_decide_eq_true_2, decide_True by congruence. cbn. by rewrite <-app_assoc.
    + by rewrite bool_decide_eq_false_2, decide_False by congruence.
  - by rewrite decide_False.
Qed.

Lemma group_nonempty acc es : Forall (λ g, g.2 ≠ []) acc → Forall (λ g, g.2 ≠ []) (group acc es).
Proof.
  revert acc. induction es as [|d es IH]; intros acc Hacc; cbn [group]; [done|]. destruct (dp_model_name d); [|by apply IH].
  apply IH, Forall_forall. intros g [->|Hg]%dict_set_elem; [cbn; by destruct (default [] _)|]. by eapply Forall_forall in Hacc.
Qed.

Lemma rmap_get {A B} (f : A → result exc B) (gs : list (string * A)) ps alias :
  rmap (λ g, rbind (f g.2) (λ p, Ok (g.1, p))) gs = Ok ps →
  match dict_get alias gs with Some a => ∃ b, dict_get alias ps = Some b ∧ f a = Ok b | None => dict_get alias ps = None end.
Proof.
  revert ps. induction gs as [|[k a] gs IH]; intros ps; cbn [rmap]; [by intros [= <-]|].
  intros (y & Hy & H)%rbind_Ok. apply rbind_Ok in H as (ps' & Hps & [= <-]). apply rbind_Ok in Hy as (b & Hb & [= <-]).
  cbn [dict_get fst snd]. case_bool_decide; [by exists b|]. by apply IH.
Qed.

Lemma listed_price entries prices alias : parse_model_info entries = Ok prices →
  match mjoin (dict_get alias prices) with
  | Some p => serving alias entries ≠ [] ∧ ∀ d, d ∈ serving alias entries → ∃ q, _deployment_price d = Ok (Some q) ∧ bounds p q
  | None => serving alias entries = [] ∨ ∃ d, d ∈ serving alias entries ∧ _deployment_price d = Ok None
  end.
Proof.
  intros Hp. apply (rmap_get _ _ _ alias) in Hp. pose proof (group_get alias [] entries) as Hg. cbn in Hg.
  pose proof (group_nonempty [] entries ltac:(constructor)) as Hne.
  destruct (dict_get alias (group [] entries)) as [es|] eqn:E; cbn in Hg.
  - destruct Hp as (r & -> & Hr). rewrite <-Hg. apply dict_get_elem in E. rewrite Forall_forall in Hne. specialize (Hne _ E).
    pose proof (alias_price_bounds es r Hne Hr). destruct r; cbn; [done|by right].
  - rewrite Hp. left. by rewrite <-Hg.
Qed.

(** ** Two deployments of one alias *)

Module Prices.
Definition cents (m : positive) : float := S754_finite false m (-53).
Definition priced_entry (alias : string) (i o : option value) : deployment := mkDeployment (Some alias) (Some (Some "openai/gpt", false)) i o None.
Definition price_list : list deployment := [
  priced_entry "chat" (Some (VFloat (cents 4503599627370496))) (Some (VFloat (cents 5000000000000000)));
  priced_entry "chat" (Some (VInt 0)) (Some (VFloat (cents 6000000000000000)));
  priced_entry "local" (Some (VInt 0)) (Some (VInt 0));
  mkDeployment (Some "auto") (Some (Some "auto_router/complexity_router", false)) (Some (VInt 0)) (Some (VInt 0)) None].
Definition prices : list (string * option ModelPrice) := [
  ("chat", Some (mkPrice (cents 4503599627370496) (cents 6000000000000000) None));
  ("local", Some (mkPrice fzero fzero None)); ("auto", None)].
Lemma parsed : parse_model_info price_list = Ok prices.
Proof. vm_compute. reflexivity. Qed.
End Prices.

(** An unknown price is never a free one. Whatever the gateway lists, an alias has a price
    only if every deployment that serves it has one - finite rates of its own, and no router of
    the gateway among them - and that price is no cheaper than any of them; and a call that
    spent tokens on an alias without a price has no cost at all, while every other call has
    one. *)
Theorem unknown_is_never_free entries prices alias u : parse_model_info entries = Ok prices →
  let price := mjoin (dict_get alias prices) in
  match price with
  | Some p => serving alias entries ≠ [] ∧ ∀ d, d ∈ serving alias entries → ∃ q, _deployment_price d = Ok (Some q) ∧ bounds p q
  | None => serving alias entries = [] ∨ ∃ d, d ∈ serving alias entries ∧ _deployment_price d = Ok None
  end ∧
  (pc_cost_usd (price_call price u) = None ↔ price = None ∧ spent_tokens (price_call price u) = true).
Proof.
  intros Hp price. split; [by apply listed_price|]. unfold price_call, spent_tokens. cbv zeta.
  set (total := Z.max _ _). destruct (Z.leb_spec total 0) as [Hle|Hlt]; cbn [pc_cost_usd pc_total_tokens].
  - split; [done|by intros [_ ?]].
  - destruct price; cbn [pc_cost_usd pc_total_tokens]; (split; [|by intros [? _]]); [done|]. intros _. split; [done|lia].
Qed.

Lemma unknown_is_never_free_witness :
  pc_cost_usd (price_call None (mkUsage (Some 10%Z) None None None)) = None ∧
  (∀ d, d ∈ serving "chat" Prices.price_list → ∃ q, _deployment_price d = Ok (Some q) ∧
     bounds (mkPrice (Prices.cents 4503599627370496) (Prices.cents 6000000000000000) None) q).
Proof.
  split.
  - apply (unknown_is_never_free Prices.price_list Prices.prices "auto" (mkUsage (Some 10%Z) None None None) Prices.parsed). by split.
  - apply (unknown_is_never_free Prices.price_list Prices.prices "chat" (mkUsage None None None None) Prices.parsed).
Defined.

(** The end user of a call names one person, and only the code's own ids are read back. *)

Local Open Scope N_scope.

(** ** Percent-encoding *)

Lemma hex_upper n : n < 16 → hex_value (upper_hex n) = Some n.
Proof.
  intros Hn. assert (Hall : Forall (λ n, hex_value (upper_hex n) = Some n) (N.of_nat <$> seq 0 16)) by (vm_compute; repeat constructor).
  rewrite Forall_forall in Hall. apply Hall. apply list_elem_of_fmap. exists (N.to_nat n). split; [lia|]. apply elem_of_seq. lia.
Qed.

Lemma byte_split a : ascii_of_N (16 * (N_of_ascii a / 16) + N_of_ascii a mod 16) = a.
Proof. rewrite <-N.div_mod by done. apply ascii_N_embedding. Qed.

Lemma unreserved_not_percent a : unreserved a = true → Ascii.eqb a percent = false.
Proof. intros H. destruct (Ascii.eqb_spec a percent) as [->|]; done. Qed.

Lemma unquote_unreserved a s : unreserved a = true → unquote_bytes (String a s) = String a (unquote_bytes s).
Proof. intros H%unreserved_not_percent. cbn [unquote_bytes]. rewrite H. by destruct s as [|h [|l s]]. Qed.

Lemma unquote_quote s : unquote_bytes (quote s) = s.
Proof.
  induction s as [|a s IH]; [done|]. cbn [quote]. unfold quote_char. destruct (unreserved a) eqn:E.
  - change (String a "" +:+ quote s) with (String a (quote s)). by rewrite unquote_unreserved, IH.
  - set (n := N_of_ascii a). change (unquote_bytes (String percent (String (upper_hex (n / 16)) (String (upper_hex (n mod 16)) (quote s)))) = String a s).
    cbn [unquote_bytes]. change (Ascii.eqb percent percent) with true. cbv iota.
    assert (n < 256) by apply N_ascii_bounded. rewrite !hex_upper.
    + unfold n. by rewrite byte_split, IH.
    + apply N.mod_lt. done.
    + apply N.Div0.div_lt_upper_bound. lia.
Qed.

Lemma upper_hex_id n : n < 16 → id_char (upper_hex n) = true.
Proof.
  intros Hn. assert (Hall : Forall (λ n, id_char (upper_hex n) = true) (N.of_nat <$> seq 0 16)) by (vm_compute; repeat constructor).
  rewrite Forall_forall in Hall. apply Hall. apply list_elem_of_fmap. exists (N.to_nat n). split; [lia|]. apply elem_of_seq. lia.
Qed.

Lemma id_part_char a s p rest : id_char a = true → id_part s = (p, rest) → id_part (String a s) = (String a p, rest).
Proof. intros Ha Hs. cbn [id_part]. by rewrite Ha, Hs. Qed.

(** What is quoted is matched up to the first other character. *)
Lemma id_part_quote s rest : match rest with EmptyString => True | String a _ => id_char a = false end → id_part (quote s +:+ rest) = (quote s, rest).
Proof.
  intros Hr. induction s as [|a s IH]; cbn [quote].
  - destruct rest as [|b rest]; [done|]. change ("" +:+ String b rest) with (String b rest). cbn [id_part]. by rewrite Hr.
  - unfold quote_char. destruct (unreserved a) eqn:E.
    + change ((String a "" +:+ quote s) +:+ rest) with (String a (quote s +:+ rest)). apply id_part_char; [|done]. unfold id_char. by rewrite E.
    + assert (N_of_ascii a < 256) by apply N_ascii_bounded. set (n := N_of_ascii a) in *.
      change (id_part (String percent (String (upper_hex (n / 16)) (String (upper_hex (n mod 16)) (quote s +:+ rest)))) =
        (String percent (String (upper_hex (n / 16)) (String (upper_hex (n mod 16)) (quote s))), rest)).
      apply id_part_char; [done|]. apply id_part_char; [apply upper_hex_id, N.Div0.div_lt_upper_bound; lia|].
      apply id_part_char; [by apply upper_hex_id, N.mod_lt|done].
Qed.

Lemma match_own tenant principal : match_end_user (end_user_id tenant principal) = Some (quote tenant, quote principal).
Proof.
  unfold match_end_user, end_user_id. change (strip_prefix "tenant:" ("tenant:" +:+ ?s)) with (Some s). cbn [mbind option_bind].
  rewrite id_part_quote by done. change (strip_prefix "/user:" ("/user:" +:+ ?s)) with (Some s). cbn [mbind option_bind].
  rewrite <-(str_app_nil (quote principal)) at 1. by rewrite id_part_quote.
Qed.

Lemma parse_own tenant principal : utf8 tenant = true → utf8 principal = true →
  parse_end_user_id (end_user_id tenant principal) = Some (tenant, principal).
Proof.
  intros Ht Hp. unfold parse_end_user_id. rewrite match_own. cbn [mbind option_bind]. rewrite !unquote_quote, Ht, Hp.
  by rewrite String.eqb_refl.
Qed.

(** The gateway's end user names exactly one person. The id of a tenant and a principal,
    whatever characters they hold, is read back as exactly these two; and what is read back from
    any text is a tenant and a principal whose id is that text, so no two people share an id and
    no foreign id is taken for one of the code's. *)
Theorem end_user_names_one_person :
  (∀ tenant principal, utf8 tenant = true → utf8 principal = true → parse_end_user_id (end_user_id tenant principal) = Some (tenant, principal)) ∧
  (∀ end_user tenant principal, parse_end_user_id end_user = Some (tenant, principal) → end_user = end_user_id tenant principal).
Proof.
  split.
  - apply parse_own.
  - intros end_user tenant principal. unfold parse_end_user_id. destruct (match_end_user end_user) as [[t p]|]; [|done]. cbn [mbind option_bind].
    destruct (utf8 _ && utf8 _ && _) eqn:E; [|done]. intros [= <- <-]. apply andb_true_iff in E as [_ E%String.eqb_eq]. done.
Qed.

Example telegram_person : end_user_id "acme/eu" "telegram:7" = "tenant:acme%2Feu/user:telegram%3A7".
Proof. reflexivity. Qed.

Lemma end_user_names_one_person_witness :
  parse_end_user_id "tenant:acme%2Feu/user:telegram%3A7" = Some ("acme/eu", "telegram:7").
Proof. exact (proj1 end_user_names_one_person "acme/eu" "telegram:7" eq_refl eq_refl). Defined.

(** Every model call is metered once, and spend the meter did not see is found. *)

Local Open Scope Z_scope.

(** ** One event per call *)

(** The events a path tried to write. *)
Definition insert_of (s : step Meter.cmd) : option event_row := match st_cmd s with Insert row => Some row | _ => None end.
Definition inserts (tr : list (step Meter.cmd)) : list event_row := omap insert_of tr.
Definition response_of (s : step Meter.cmd) : option (usage * option string) :=
  match st_cmd s in Meter.cmd R return result exc R → option (usage * option string) with
  | Ainvoke _ _ => λ r, match r with Ok x => Some x | Err _ => None end
  | _ => λ _, None
  end (st_answer s).
Definition no_insert (s : step Meter.cmd) : Prop := insert_of s = None.

Lemma inserts_app tr1 tr2 : inserts (tr1 ++ tr2) = inserts tr1 ++ inserts tr2.
Proof. apply omap_app. Qed.
Hint Extern 1 (no_insert _) => reflexivity : steps.

Lemma no_inserts {A} (p : Meter.P A) tr out : only no_insert p → path p tr out → inserts tr = [].
Proof. intros Hp H. apply omap_none. by eapply Hp. Qed.

Section meter.
Context (uuid5 : string → string).

(** The id of the event: the response's own when it has one. *)
Definition id_of (response_id : option string) (message_id : string) : Prop :=
  match response_id with Some id => nonempty id = true → message_id = id | None => True end.

Definition the_event (c : SecurityCtx) (thread_id : string) (response_id : option string) (kind alias : string) (priced : PricedCall) (rows : list event_row) : Prop :=
  ∃ message_id resolved, id_of response_id message_id ∧ rows = [row_of uuid5 c thread_id message_id kind alias resolved priced].

Lemma write_inserts row tr out :
  path (catch_exception (call (Insert row) ;; Ret ())%prog
    (λ e, if String.eqb (exc_class e) UsageTableMissing then call (Degraded "usage_event_table_missing") else call (Degraded "usage_event_write"))) tr out →
  inserts tr = [row].
Proof.
  intros [(a & H & _)|(e & tr1 & tr2 & H1 & H2 & ->)]%path_catch.
  - apply path_bind in H as [(b & tr1 & tr2 & ->%path_call & [-> _] & ->)|(e & _ & [=])]. done.
  - assert (inserts tr1 = [row]) as E1.
    { apply path_bind in H1 as [(b & tr3 & tr4 & ->%path_call & [-> _] & ->)|(e' & ->%path_call & _)]; done. }
    assert (inserts tr2 = []) as E2.
    { eapply no_inserts; [|exact H2]. cbn beta. destruct (base_exception e); auto with steps. }
    by rewrite inserts_app, E1, E2.
Qed.

Lemma record_inserts ctx thread_id response_id kind alias priced tr out :
  path (record_call uuid5 ctx thread_id response_id kind alias priced) tr out →
  (inserts tr = [] ∨ ∃ row, inserts tr = [row]) ∧
  (out = Ok () → valid_ctx ctx = true → kind ∈ KINDS → spent_tokens priced = true →
     ∃ c, ctx = Some c ∧ the_event c thread_id response_id kind alias priced (inserts tr)).
Proof.
  intros Hp. unfold record_call in Hp. destruct ctx as [c|]; [|destruct Hp as [-> _]; split; [by left|done]].
  assert (Hskip : ∀ (b : bool) p q, only no_insert p → path (if b then p else q) tr out → b = true → inserts tr = [] ∨ ∃ row, inserts tr = [row]).
  { intros b p q Ho H ->. left. by eapply no_inserts. }
  destruct (valid_ctx (Some c)); cbn [negb] in Hp; [|destruct Hp as [-> _]; split; [by left|done]].
  destruct (bool_decide (kind ∈ KINDS)) eqn:Ek; cbn [negb] in Hp.
  2: { apply path_call in Hp as ->. split; [by left|]. intros _ _ Hin. by apply bool_decide_eq_false in Ek. }
  destruct (spent_tokens priced); cbn [negb] in Hp; [|apply path_call in Hp as ->; split; [by left|done]].
  clear Hskip Ek. apply path_bind in Hp as [(mid & tr1 & tr2 & H1 & Hp & ->)|(e & H1 & ->)].
  - assert (inserts tr1 = [] ∧ id_of response_id mid) as [E1 Hid].
    { split; [eapply no_inserts; [|exact H1]; destruct response_id; auto with steps|].
      unfold id_of. destruct response_id as [id|]; [|done]. intros Hn. rewrite Hn in H1. by destruct H1 as [_ [= ->]]. }
    apply path_bind in Hp as [(resolved & tr3 & tr4 & ->%path_call & Hp & ->)|(e & ->%path_call & ->)].
    + apply write_inserts in Hp. rewrite inserts_app, E1. change (inserts ([] ++ _)) with (inserts tr4). cbn [app].
      change (inserts (Step (Resolve alias) (Ok resolved) :: tr4)) with (inserts tr4). rewrite Hp. split; [right; by eexists|].
      intros _ _ _ _. exists c. split; [done|]. by exists mid, resolved.
    + rewrite inserts_app, E1. split; [by left|done].
  - split; [left; eapply no_inserts; [|exact H1]; destruct response_id; auto with steps|done].
Qed.

Lemma price_no_insert alias u : only no_insert (price_call_prog alias u).
Proof. unfold price_call_prog. apply only_if; [|auto with steps]. apply only_bind; [auto with steps|]. intros [p|]; auto with steps. Qed.
End meter.

(** C17: a model call is metered once. Whatever the model, the price list and the table answer, a
    metered call tries to write at most one event; when it comes back from a call for a valid
    caller, of a kind the table takes and that spent tokens, it has tried to write exactly one:
    under the id of the response when it has one, with the tokens, the cost and the rates it
    priced the call with and returns. *)
Theorem call_is_metered_once uuid5 ctx thread_id kind alias model u response_id tr out :
  path (metered_invoke uuid5 ctx thread_id kind alias model) (Step (Ainvoke model (call_identity ctx thread_id)) (Ok (u, response_id)) :: tr) out →
  (inserts tr = [] ∨ ∃ row, inserts tr = [row]) ∧
  (∀ m, out = Ok m → valid_ctx ctx = true → kind ∈ KINDS → spent_tokens (mc_priced m) = true →
     ∃ c, ctx = Some c ∧
       the_event uuid5 c (match thread_id with Some t => if nonempty t then t else "unknown" | None => "unknown" end) response_id kind alias (mc_priced m) (inserts tr)).
Proof.
  intros Hp. unfold metered_invoke in Hp. apply path_bind in Hp as [([u' rid] & tr1 & tr2 & H1 & Hp & E)|(e & H1 & ->)].
  2: { apply path_call in H1. simplify_eq. }
  apply path_call in H1 as ->. cbn [app] in E.
  pose proof (f_equal (λ l, s ← head l; response_of s) E) as Er. injection Er as <- <-. apply (f_equal tail) in E. cbn [tail] in E. subst tr2.
  apply path_bind in Hp as [(priced & tr1 & tr2 & H2 & Hp & ->)|(e & H2 & ->)].
  2: { split; [left; by eapply no_inserts; [apply price_no_insert|]|done]. }
  assert (inserts tr1 = []) as E1 by by eapply no_inserts; [apply price_no_insert|].
  apply path_bind in Hp as [([] & tr3 & tr4 & H3 & [-> ->] & ->)|(e & H3 & ->)]; rewrite ?app_nil_r, inserts_app, E1;
    apply record_inserts in H3 as [H3 H4]; (split; [exact H3|]); [|done].
  intros m [= <-] Hv Hk Hs. by apply H4.
Qed.

(** The table is missing, and the call is metered all the same. *)
Module Call.
Definition ann : option SecurityCtx := Some (SecCtx "acme" "ann").
Definition spent : usage := mkUsage (Some 10) (Some 5) (Some 15) None.
Definition reply (s : nat) (R : Type) (c : Meter.cmd R) : result exc R * nat :=
  match c in Meter.cmd R return result exc R * nat with
  | Ainvoke _ _ => (Ok (spent, Some "run-1"), s)
  | Price _ => (Ok None, s)
  | Resolve _ => (Ok (Some "openai/gpt"), s)
  | Uuid4 => (Ok "u", s)
  | Insert _ => (Err (Exc UsageTableMissing ""), s)
  | Delete_older _ _ => (Ok O, s)
  | Note_unpriced _ | Degraded _ => (Ok (), s)
  end.
Definition program : Meter.P MeteredCall := metered_invoke (λ s, s) ann (Some "t-1") "chat" "chat" None.
Definition trace : list (step Meter.cmd) := tail (snd (fst (Process.run reply program O))).
End Call.

Lemma call_is_metered_once_witness :
  ∃ message_id resolved, message_id = "run-1" ∧
    inserts Call.trace = [row_of (λ s, s) (SecCtx "acme" "ann") "t-1" message_id "chat" "chat" resolved (mkPriced 10 5 0 15 None None)].
Proof.
  destruct (call_is_metered_once (λ s, s) Call.ann (Some "t-1") "chat" "chat" None Call.spent (Some "run-1") Call.trace
    (fst (fst (Process.run Call.reply Call.program O))) (run_path Call.reply Call.program O)) as [_ H].
  destruct (H _ eq_refl eq_refl ltac:(left) eq_refl) as (c & [= <-] & mid & resolved & Hid & Hrows). exists mid, resolved.
  split; [by apply Hid|exact Hrows].
Defined.

(** ** Reconciliation *)

Lemma tenant_of_own sha tenants tenant principal : utf8 tenant = true → utf8 principal = true →
  tenant_of sha tenants (end_user_id tenant principal) = Some tenant.
Proof. intros Ht Hp. unfold tenant_of. by rewrite parse_own. Qed.

(** What the gateway spent for a tenant on a day, and for nobody. *)
Definition spent_for (sha : string → string) (tenants : list string) (k : string * Z) (raw : list ((string * Z) * Z)) : Z :=
  foldr (λ e acc, (if bool_decide (tenant_of sha tenants e.1.1 = Some k.1 ∧ e.1.2 = k.2) then e.2 else 0) + acc) 0 raw.
Definition spent_for_nobody (sha : string → string) (tenants : list string) (raw : list ((string * Z) * Z)) : Z :=
  foldr (λ e acc, (if bool_decide (tenant_of sha tenants e.1.1 = None) then e.2 else 0) + acc) 0 raw.

Lemma spent_cons sha tenants k e raw : spent_for sha tenants k (e :: raw) =
  (if bool_decide (tenant_of sha tenants e.1.1 = Some k.1 ∧ e.1.2 = k.2) then e.2 else 0) + spent_for sha tenants k raw.
Proof. done. Qed.
Lemma nobody_cons sha tenants e raw : spent_for_nobody sha tenants (e :: raw) =
  (if bool_decide (tenant_of sha tenants e.1.1 = None) then e.2 else 0) + spent_for_nobody sha tenants raw.
Proof. done. Qed.

Lemma attribute_amount sha tenants raw acc un k :
  amount (fst (attribute sha tenants raw acc un)) k = amount acc k + spent_for sha tenants k raw ∧
  snd (attribute sha tenants raw acc un) = un + spent_for_nobody sha tenants raw.
Proof.
  revert acc un. induction raw as [|[[eu d] amt] raw IH]; intros acc un; [cbn [attribute fst snd]; unfold spent_for, spent_for_nobody; cbn [foldr]; lia|].
  rewrite spent_cons, nobody_cons. cbn [attribute fst snd].
  destruct (tenant_of sha tenants eu) as [t|] eqn:Et.
  - destruct (IH (dict_set (t, d) (amount acc (t, d) + amt) acc) un) as [H1 H2]. rewrite H1, H2. split; [|rewrite bool_decide_eq_false_2 by done; lia].
    unfold amount at 1. rewrite dict_get_set. destruct k as [kt kd]. cbn [fst snd]. case_bool_decide as Hk.
    + injection Hk as -> ->. rewrite bool_decide_eq_true_2 by done. cbn. lia.
    + rewrite bool_decide_eq_false_2 by naive_solver. unfold amount. lia.
  - destruct (IH acc (un + amt)) as [H1 H2]. rewrite H1, H2. rewrite bool_decide_eq_false_2 by naive_solver. rewrite bool_decide_eq_true_2 by done.
    lia.
Qed.

Lemma insert_finding_elem f fs g : g ∈ insert_finding f fs ↔ g = f ∨ g ∈ fs.
Proof. induction fs as [|h fs IH]; cbn [insert_finding]; [set_solver|]. destruct (finding_le f h); set_solver. Qed.
Lemma sort_findings_elem fs g : g ∈ sort_findings fs ↔ g ∈ fs.
Proof. induction fs as [|f fs IH]; [done|]. cbn [sort_findings foldr]. rewrite insert_finding_elem. unfold sort_findings in IH. set_solver. Qed.

Lemma amount_outside m k : k ∉ m.*1 → amount m k = 0.
Proof. intros H%dict_get_None. unfold amount. by rewrite H. Qed.
Lemma allows_nothing tol : allows tol 0 0 = true.
Proof. unfold allows. apply Z.leb_le. cbn. lia. Qed.

Lemma compare_elem events other tol notes f : f ∈ compare events other tol notes ↔
  fi_expected f = amount events (fi_tenant f, fi_day f) ∧ fi_actual f = amount other (fi_tenant f, fi_day f) ∧
  fi_note f = default "" (dict_get (fi_tenant f, fi_day f) notes) ∧ allows tol (fi_expected f) (fi_actual f) = false.
Proof.
  unfold compare. rewrite sort_findings_elem, list_elem_of_fmap. split.
  - intros ([t d] & -> & [Ha _]%list_elem_of_filter). done.
  - destruct f as [t d e a n]. cbn [fi_tenant fi_day fi_expected fi_actual fi_note]. intros (-> & -> & -> & Ha). exists (t, d).
    split; [done|]. apply list_elem_of_filter. split; [done|]. unfold keys_union. apply elem_of_app.
    destruct (decide ((t, d) ∈ events.*1)) as [|He]; [by left|right]. apply list_elem_of_filter. split; [done|].
    destruct (decide ((t, d) ∈ other.*1)) as [|Ho]; [done|]. by rewrite (amount_outside _ _ He), (amount_outside _ _ Ho), allows_nothing in Ha.
Qed.

Module Day.
Definition sha (s : string) : string := "0123456789abcdef0123".
Definition day : Z := 20000.
Definition day_figures : meter_figures := mkFigures [(("acme", day), 5000)] [] 2 ["acme"].
Definition spend : gateway_spend := mkSpend [((end_user_id "acme" "ann", day), 5000); ((end_user_id "acme" "bob", day), 7000); (("", day), 11)] 3 true "".
Definition tol : Tolerance := mkTolerance 100 0.
Definition report : Report := reconcile sha false day_figures (Some spend) tol.
Example found : (rp_findings report, rp_unattributed report, outcome report) = ([mkFinding "acme" day 5000 12000 ""], 11, "drift").
Proof. vm_compute. reflexivity. Qed.
End Day.

(** C11: spend the meter did not see is found. When the gateway's spend was read whole, the
    report's findings are exactly the tenants and days on which the meter's figure and what the
    gateway spent for that tenant's people differ by more than the tolerance, with these two
    figures; a person's spend is their tenant's, and what is nobody's is reported as such; the
    outcome is drift exactly when there is a finding. A spend that was not read whole is never
    compared. *)
Theorem unmetered_spend_is_found sha figures spend tol :
  let tenants := remove_dups ((fst <$> (mf_usd figures).*1) ++ mf_known figures) in
  let report := reconcile sha false figures (Some spend) tol in
  (gs_complete spend = true →
    (∀ tenant day, (∃ f, f ∈ rp_findings report ∧ fi_tenant f = tenant ∧ fi_day f = day) ↔
       allows tol (amount (mf_usd figures) (tenant, day)) (spent_for sha tenants (tenant, day) (gs_spend spend)) = false) ∧
    (∀ f, f ∈ rp_findings report → fi_expected f = amount (mf_usd figures) (fi_tenant f, fi_day f) ∧
       fi_actual f = spent_for sha tenants (fi_tenant f, fi_day f) (gs_spend spend)) ∧
    rp_unattributed report = spent_for_nobody sha tenants (gs_spend spend) ∧
    (outcome report = "drift" ↔ ∃ f, f ∈ rp_findings report) ∧ (outcome report = "ok" ↔ ¬ ∃ f, f ∈ rp_findings report)) ∧
  (gs_complete spend = false → rp_findings report = [] ∧ outcome report = "incomplete").
Proof.
  intros tenants report. unfold report, reconcile. cbv zeta. fold tenants. split; intros Hc; rewrite Hc; cbn [negb]; [|done].
  pose proof (attribute_amount sha tenants (gs_spend spend) [] 0) as Ha. unfold attribute_gateway.
  destruct (attribute sha tenants (gs_spend spend) [] 0) as [attributed un]. cbn [fst snd] in Ha. cbn [rp_findings rp_unattributed].
  assert (Hf : ∀ f, f ∈ sort_findings (compare (mf_usd figures) attributed tol ((λ kv, (kv.1, unpriced_note kv.2)) <$> mf_unpriced figures)) ↔
    fi_expected f = amount (mf_usd figures) (fi_tenant f, fi_day f) ∧ fi_actual f = spent_for sha tenants (fi_tenant f, fi_day f) (gs_spend spend) ∧
    fi_note f = default "" (dict_get (fi_tenant f, fi_day f) ((λ kv, (kv.1, unpriced_note kv.2)) <$> mf_unpriced figures)) ∧
    allows tol (fi_expected f) (fi_actual f) = false).
  { intros f. rewrite sort_findings_elem, compare_elem. by rewrite (proj1 (Ha (fi_tenant f, fi_day f))). }
  set (fs := sort_findings _) in *. split_and!.
  - intros tenant day. split.
    + intros (f & (H1 & H2 & _ & H4)%Hf & <- & <-). by rewrite <-H1, <-H2.
    + intros Hno. exists (mkFinding tenant day (amount (mf_usd figures) (tenant, day)) (spent_for sha tenants (tenant, day) (gs_spend spend))
        (default "" (dict_get (tenant, day) ((λ kv, (kv.1, unpriced_note kv.2)) <$> mf_unpriced figures)))). by rewrite Hf.
  - intros f (H1 & H2 & _)%Hf. done.
  - by rewrite (proj2 (Ha ("", 0))).
  - unfold outcome. cbn [rp_findings rp_incomplete]. destruct fs as [|f fs']; cbn [length bool_decide]; [|split; [exists f; by left|done]].
    split; [done|]. by intros (f & H%not_elem_of_nil).
  - unfold outcome. cbn [rp_findings rp_incomplete]. destruct fs as [|f fs']; cbn; [|split; [done|intros H; destruct H; exists f; by left]].
    split; [|done]. intros _ (f & H). by apply not_elem_of_nil in H.
Qed.

Lemma unmetered_spend_is_found_witness :
  outcome Day.report = "drift" ∧
  ∃ f, f ∈ rp_findings Day.report ∧ fi_tenant f = "acme" ∧ fi_day f = Day.day.
Proof.
  pose proof (unmetered_spend_is_found Day.sha Day.day_figures Day.spend Day.tol) as H. destruct H as [H _]. destruct (H eq_refl) as (Hiff & _ & _ & Hd & _).
  assert (Hf : ∃ f, f ∈ rp_findings Day.report ∧ fi_tenant f = "acme" ∧ fi_day f = Day.day) by (apply Hiff; vm_compute; reflexivity).
  split; [|exact Hf]. apply Hd. destruct Hf as (f & Hf & _). by exists f.
Defined.
