(* ===== verification/Sha256.v ===== *)
(** [hashlib.sha256] and [hmac.new(key, content, hashlib.sha256)] over byte strings, with
    words of 32 bits kept in [N] and every sum taken modulo 2^32. *)
From Stdlib Require Import Ascii.
From S2P Require Import Prelude Json.

Local Open Scope string_scope.
Local Open Scope list_scope.
Local Open Scope N_scope.

(** ** Words *)

Definition two32 : N := 4294967296.
Definition add32 (x y : N) : N := (x + y) mod two32.
Definition not32 (x : N) : N := N.lxor x (two32 - 1).
(** [x] turned right by [n] bits *)
Definition turn (n x : N) : N := N.lor (N.shiftr x n) (N.shiftl x (32 - n) mod two32).

Definition xor3 (a b c : N) : N := N.lxor a (N.lxor b c).
Definition pick (e f g : N) : N := N.lxor (N.land e f) (N.land (not32 e) g).
Definition most (a b c : N) : N := xor3 (N.land a b) (N.land a c) (N.land b c).
Definition mix_a (x : N) : N := xor3 (turn 2 x) (turn 13 x) (turn 22 x).
Definition mix_e (x : N) : N := xor3 (turn 6 x) (turn 11 x) (turn 25 x).
Definition spread_15 (x : N) : N := xor3 (turn 7 x) (turn 18 x) (N.shiftr x 3).
Definition spread_2 (x : N) : N := xor3 (turn 17 x) (turn 19 x) (N.shiftr x 10).

(** The fractions of the cube roots of the first 64 primes, and of the square roots of the
    first 8. *)
Definition round_words : list N :=
  [1116352408; 1899447441; 3049323471; 3921009573; 961987163; 1508970993; 2453635748; 2870763221;
   3624381080; 310598401; 607225278; 1426881987; 1925078388; 2162078206; 2614888103; 3248222580;
   3835390401; 4022224774; 264347078; 604807628; 770255983; 1249150122; 1555081692; 1996064986;
   2554220882; 2821834349; 2952996808; 3210313671; 3336571891; 3584528711; 113926993; 338241895;
   666307205; 773529912; 1294757372; 1396182291; 1695183700; 1986661051; 2177026350; 2456956037;
   2730485921; 2820302411; 3259730800; 3345764771; 3516065817; 3600352804; 4094571909; 275423344;
   430227734; 506948616; 659060556; 883997877; 958139571; 1322822218; 1537002063; 1747873779;
   1955562222; 2024104815; 2227730452; 2361852424; 2428436474; 2756734187; 3204031479; 3329325298].

Record digest : Type := Digest { dg_a : N; dg_b : N; dg_c : N; dg_d : N; dg_e : N; dg_f : N; dg_g : N; dg_h : N }.

Definition start : digest :=
  Digest 1779033703 3144134277 1013904242 2773480762
         1359893119 2600822924 528734635 1541459225.

(** ** One block *)

(** The next word of the schedule, from the sixteen before it. *)
Definition next_word (window : list N) : N :=
  match window with
  | w0 :: w1 :: _ :: _ :: _ :: _ :: _ :: _ :: _ :: w9 :: _ :: _ :: _ :: _ :: w14 :: _ =>
      add32 (add32 (spread_2 w14) w9) (add32 (spread_15 w1) w0)
  | _ => 0
  end.

Definition round (h : digest) (k w : N) : digest :=
  let t := add32 (add32 (add32 (dg_h h) (mix_e (dg_e h))) (add32 (pick (dg_e h) (dg_f h) (dg_g h)) k)) w in
  Digest (add32 t (add32 (mix_a (dg_a h)) (most (dg_a h) (dg_b h) (dg_c h)))) (dg_a h) (dg_b h) (dg_c h)
         (add32 (dg_d h) t) (dg_e h) (dg_f h) (dg_g h).

Fixpoint rounds (ks window : list N) (h : digest) : digest :=
  match ks, window with
  | k :: ks, w :: rest => rounds ks (rest ++ [next_word window]) (round h k w)
  | _, _ => h
  end.

Definition compress (h : digest) (block : list N) : digest :=
  let r := rounds round_words block h in
  Digest (add32 (dg_a h) (dg_a r)) (add32 (dg_b h) (dg_b r)) (add32 (dg_c h) (dg_c r)) (add32 (dg_d h) (dg_d r))
         (add32 (dg_e h) (dg_e r)) (add32 (dg_f h) (dg_f r)) (add32 (dg_g h) (dg_g r)) (add32 (dg_h h) (dg_h r)).

(** ** Bytes *)

(** [n] as [k] bytes, the most significant first *)
Fixpoint be_bytes (k : nat) (n : N) : string :=
  match k with O => "" | S k => be_bytes k (n / 256) +:+ String (ascii_of_N (n mod 256)) "" end.

(** The words of a text of a multiple of four bytes. *)
Fixpoint be_words (s : string) : list N :=
  match s with
  | String a (String b (String c (String d s))) =>
      (((N_of_ascii a * 256 + N_of_ascii b) * 256 + N_of_ascii c) * 256 + N_of_ascii d) :: be_words s
  | _ => []
  end.

Fixpoint zeros (n : nat) : string := match n with O => "" | S n => String zero (zeros n) end.

(** A one bit, as few zeros as fill the last block but for eight bytes, and the length in bits. *)
Definition padding (len : nat) : string :=
  let n := N.of_nat len in
  String (ascii_of_N 128) (zeros (N.to_nat ((119 - n mod 64) mod 64)) +:+ be_bytes 8 (8 * n)).

Fixpoint blocks (n : nat) (words : list N) (h : digest) : digest :=
  match n with O => h | S n => blocks n (drop 16 words) (compress h (take 16 words)) end.

Definition digest_bytes (h : digest) : string :=
  be_bytes 4 (dg_a h) +:+ be_bytes 4 (dg_b h) +:+ be_bytes 4 (dg_c h) +:+ be_bytes 4 (dg_d h) +:+
  be_bytes 4 (dg_e h) +:+ be_bytes 4 (dg_f h) +:+ be_bytes 4 (dg_g h) +:+ be_bytes 4 (dg_h h).

Definition sha256 (s : string) : string :=
  let words := be_words (s +:+ padding (String.length s)) in
  digest_bytes (blocks (length words / 16) words start).

(** [.hexdigest()] *)
Fixpoint hex (s : string) : string :=
  match s with
  | EmptyString => ""
  | String a s => let n := N_of_ascii a in String (hex_digit (n / 16)) (String (hex_digit (n mod 16)) (hex s))
  end.

(** ** [hmac] *)

Fixpoint xor_bytes (n : N) (s : string) : string :=
  match s with EmptyString => "" | String a s => String (ascii_of_N (N.lxor n (N_of_ascii a))) (xor_bytes n s) end.

(** A key of one block: a longer one is hashed, a shorter one is filled up. *)
Definition block_key (key : string) : string :=
  let key := if (64 <? String.length key)%nat then sha256 key else key in
  key +:+ zeros (64 - String.length key).

Definition hmac_sha256 (key content : string) : string :=
  let key := block_key key in
  sha256 (xor_bytes 92 key +:+ sha256 (xor_bytes 54 key +:+ content)).

(** ** Known answers *)

Example sha256_of_nothing : hex (sha256 "") = "e3b0c44298fc1c149afbf4c8996fb92427ae41e4649b934ca495991b7852b855".
Proof. vm_compute. reflexivity. Qed.

(** Two blocks *)
Example sha256_of_two_blocks :
  hex (sha256 "abcdbcdecdefdefgefghfghighijhijkijkljklmklmnlmnomnopnopq") = "248d6a61d20638b8e5c026930c3e6039a33ce45964ff2167f6ecedd419db06c1".
Proof. vm_compute. reflexivity. Qed.

(** RFC 4231, test case 2 *)
Example hmac_of_jefe :
  hex (hmac_sha256 "Jefe" "what do ya want for nothing?") = "5bdcc146bf60754e6a042426089575c75a003f089d2739839dec58b964ec3843".
Proof. vm_compute. reflexivity. Qed.

(** ** Lengths *)

Lemma length_be_bytes k n : String.length (be_bytes k n) = k.
Proof.
  revert n. induction k as [|k IH]; intros n; [done|]. cbn [be_bytes]. rewrite str_length_app, IH. cbn [String.length]. lia.
Qed.

Lemma length_sha256 s : String.length (sha256 s) = 32%nat.
Proof. unfold sha256, digest_bytes. by rewrite !str_length_app, !length_be_bytes. Qed.

Lemma length_hmac key content : String.length (hmac_sha256 key content) = 32%nat.
Proof. apply length_sha256. Qed.

Lemma length_hex s : String.length (hex s) = (2 * String.length s)%nat.
Proof. induction s as [|a s IH]; [done|]. cbn [hex String.length]. lia. Qed.
