(* ===== verification/Wire.v ===== *)
(** What Python's standard library reads from a header: [int(s)], [float(s)],
    [base64.b64decode(s, validate=True)], [s.encode()], [s.split(",")], [s.partition(sep)].

    A header is a text of characters below 256, as an HTTP server decodes it; bytes are a
    string of them. *)
From Stdlib Require Import Ascii SpecFloat.
From S2P Require Import Prelude Json Text Decimals AgentState.

Local Open Scope string_scope.
Local Open Scope list_scope.

(** ** Splitting *)

Definition comma : ascii := ","%char.

(** [s.split(sep)] for a separator of one character *)
Fixpoint split_on (sep : ascii) (s : string) : list string :=
  match s with
  | EmptyString => [""]
  | String a s =>
      if Ascii.eqb a sep then "" :: split_on sep s else
      match split_on sep s with part :: parts => String a part :: parts | [] => [String a ""] end
  end.

(** [s.partition(sep)]: what is before the separator, and what is after it when there is one *)
Fixpoint partition (sep : ascii) (s : string) : string * option string :=
  match s with
  | EmptyString => ("", None)
  | String a s => if Ascii.eqb a sep then ("", Some s) else let '(before, after) := partition sep s in (String a before, after)
  end.

(** [s.encode()] *)
Definition encode_char (a : ascii) : string :=
  let n := N_of_ascii a in
  if (n <? 128)%N then String a "" else String (ascii_of_N (192 + n / 64)) (String (ascii_of_N (128 + n mod 64)) "").
Fixpoint encode (s : string) : string :=
  match s with EmptyString => "" | String a s => encode_char a +:+ encode s end.

(** ** Numbers *)

(** The blanks around a number *)
Definition num_space (a : ascii) : bool :=
  let n := N_of_ascii a in ((9 <=? n) && (n <=? 13) || (n =? 32) || (n =? 133) || (n =? 160))%N.
Fixpoint num_lstrip (s : string) : string :=
  match s with String a s' => if num_space a then num_lstrip s' else s | EmptyString => "" end.
Fixpoint num_rstrip (s : string) : string :=
  match s with
  | EmptyString => ""
  | String a s => let t := num_rstrip s in if num_space a && bool_decide (t = "") then "" else String a t
  end.
Definition num_strip (s : string) : string := num_rstrip (num_lstrip s).

Definition sign_of (s : string) : bool * string :=
  match s with String "-"%char s => (true, s) | String "+"%char s => (false, s) | _ => (false, s) end.

(** Underscores are taken out, and only allowed between two digits. *)
Fixpoint unscore (after_digit : bool) (s : string) : option string :=
  match s with
  | EmptyString => Some ""
  | String "_"%char s =>
      if after_digit && match s with String b _ => is_digit b | EmptyString => false end then unscore false s else None
  | String a s => String a <$> unscore (is_digit a) s
  end.

Fixpoint all_digits (s : string) : bool := match s with EmptyString => true | String a s => is_digit a && all_digits s end.

(** The longest text of digits that is converted *)
Definition max_str_digits : nat := 4300.

(** [int(s)]: [None] is a ValueError *)
Definition py_int (s : string) : option Z :=
  let '(negative, s) := sign_of (num_strip s) in
  digits ← unscore false s;
  if bool_decide (digits ≠ "") && all_digits digits && (String.length digits <=? max_str_digits)%nat
  then let z := int_of_digits digits 0 in Some (if negative : bool then (- z)%Z else z)
  else None.

(** The float nearest to [m / 10 ^ k]: the quotient has more bits than a float keeps, and its
    last bit says whether something is left. *)
Definition float_ratio (m : Z) (k : Z) : float :=
  let ten := (10 ^ k)%Z in
  let shift := Z.max 0 (Z.log2 ten - Z.log2 m + 70) in
  let n := (m * 2 ^ shift)%Z in
  binary_normalize 53 1024 (2 * (n / ten) + (if n mod ten =? 0 then 0 else 1))%Z (- shift - 1) false.

(** The float nearest to [m * 10 ^ e] *)
Definition float_scaled (m e : Z) : float :=
  if (m =? 0)%Z then S754_zero false else
  let top := (ndigits (Z.to_N m) + e)%Z in
  if (310 <? top)%Z then S754_infinity false else
  if (top <? -330)%Z then S754_zero false else
  if (0 <=? e)%Z then binary_normalize 53 1024 (m * 10 ^ e) 0 false else float_ratio m (- e).

Definition exponent_of (s : string) : option Z :=
  match s with
  | EmptyString => Some 0%Z
  | String ("e"|"E")%char s =>
      let '(negative, s) := sign_of s in
      if bool_decide (s ≠ "") && all_digits s then let z := int_of_digits s 0 in Some (if negative : bool then (- z)%Z else z) else None
  | _ => None
  end.

(** [float(s)]: [None] is a ValueError *)
Definition py_float (s : string) : option float :=
  let '(negative, s) := sign_of (num_strip s) in
  v ← (if bool_decide (lower s ∈ ["inf"; "infinity"]) then Some (S754_infinity false) else
       if bool_decide (lower s = "nan") then Some S754_nan else
       s ← unscore false s;
       let '(whole, rest) := span is_digit s in
       let '(part, rest) := match rest with String "."%char rest => span is_digit rest | _ => ("", rest) end in
       if bool_decide (whole +:+ part = "") then None else
       e ← exponent_of rest;
       Some (float_scaled (int_of_digits (whole +:+ part) 0) (e - Z.of_nat (String.length part))));
  Some (if negative : bool then SFopp v else v).

(** [math.floor(x)], [int(x)] of a finite float *)
Definition floor (x : float) : Z :=
  match x with
  | S754_finite s m e => let z := if s : bool then Z.neg m else Z.pos m in if (0 <=? e)%Z then (z * 2 ^ e)%Z else (z / 2 ^ (- e))%Z
  | _ => 0
  end.
Definition trunc (x : float) : Z :=
  match x with
  | S754_finite s m e => let z := if (0 <=? e)%Z then (Z.pos m * 2 ^ e)%Z else (Z.pos m / 2 ^ (- e))%Z in if s : bool then (- z)%Z else z
  | _ => 0
  end.

(** [int(value)] of a decoded JSON value: the whole part of a float, the number a text is, and a
    truth value is a number; [None] when it raises. *)
Definition int_value (value : json) : option Z :=
  match value with
  | JInt z => Some z
  | JBool b => Some (if b then 1 else 0)%Z
  | JFloat r => x ← py_float r; if ffinite x then Some (trunc x) else None
  | JStr s => py_int s
  | _ => None
  end.

(** ** [base64.b64decode(s, validate=True)] *)

Definition b64_value (a : ascii) : option N :=
  let n := N_of_ascii a in
  (if (65 <=? n) && (n <=? 90) then Some (n - 65) else
   if (97 <=? n) && (n <=? 122) then Some (n - 71) else
   if (48 <=? n) && (n <=? 57) then Some (n + 4) else
   if n =? 43 then Some 62 else if n =? 47 then Some 63 else None)%N.

(** How many characters of a group were read, the bits that wait, and the padding seen. *)
Fixpoint b64_go (quad : nat) (left : N) (pads : nat) (padded : bool) (s : string) : option string :=
  match s with
  | EmptyString => if bool_decide (quad = O) then Some "" else None
  | String "="%char s =>
      if (2 <=? quad)%nat then
        if (4 <=? quad + S pads)%nat then (if bool_decide (s = "") then Some "" else None) else b64_go quad left (S pads) true s
      else b64_go quad left pads true s
  | String a s =>
      v ← b64_value a;
      if padded then None else
      let out n := String (ascii_of_N n) in
      match quad with
      | O => b64_go 1 v 0 false s
      | 1%nat => out (left * 4 + v / 16)%N <$> b64_go 2 (v mod 16) 0 false s
      | 2%nat => out (left * 16 + v / 4)%N <$> b64_go 3 (v mod 4) 0 false s
      | _ => out (left * 64 + v)%N <$> b64_go 0 0 0 false s
      end
  end.

(** [None] is a [binascii.Error] or, for a character that is not ASCII, a ValueError. *)
Definition b64decode (s : string) : option string :=
  match s with String "="%char _ => None | _ => b64_go 0 0 0 false s end.

(** ** Examples *)

Example ints : py_int <$> [" 1_0 "; "-5"; "+07"; "_1"; "1__0"; "1_"; ""; "- 5"; "5a"] =
  [Some 10%Z; Some (-5)%Z; Some 7%Z; None; None; None; None; None; None].
Proof. reflexivity. Qed.

Example floats :
  (λ s, floor <$> py_float s) <$> ["1760000000.75"; "1e5"; "-0.5"; ".5"; "1_0.5"; "1._5"; "1e"; "x"] =
  [Some 1760000000%Z; Some 100000%Z; Some (-1)%Z; Some 0%Z; Some 10%Z; None; None; None].
Proof. reflexivity. Qed.

(** A tenth, and the greatest and the least of floats *)
Example nearest :
  py_float <$> ["0.1"; "1.7976931348623157e308"; "1.8e308"; "5e-324"; "2e-324"; "-inf"] =
  [Some (S754_finite false 7205759403792794 (-56)); Some (S754_finite false 9007199254740991 971); Some (S754_infinity false);
   Some (S754_finite false 1 (-1074)); Some (S754_zero false); Some (S754_infinity true)].
Proof. vm_compute. reflexivity. Qed.

Example base64s :
  b64decode <$> ["YWJj"; "YWI="; "YQ=="; "YWJj="; "YW"; "YQ=="; "Y Q=="; "YQ==YQ=="; "="; "YW=I"; ""] =
  [Some "abc"; Some "ab"; Some "a"; Some "abc"; None; Some "a"; None; None; None; None; Some ""].
Proof. reflexivity. Qed.
