(* ===== verification/Providers.v ===== *)
(** What the adapters of the payment providers share: [billing/providers/base.py], and the
    HTTP calls they make.

    A text is a sequence of characters below 256 and bytes are a string of them; [json.loads]
    of a body, which finds out its encoding, is an argument of the adapters.  The HTTP client is
    a command: it answers with a response or raises. *)
From Stdlib Require Import Ascii SpecFloat.
From S2P Require Import Prelude Dict Json Text Messages AgentState Process Wire Calendar Webhooks.

Local Open Scope string_scope.
Local Open Scope list_scope.

(** ** The port ([base.py]) *)

Inductive Capability : Type := CHECKOUT | USAGE_EXPORT | BALANCE_READ.
#[export] Instance Capability_eq_dec : EqDecision Capability.
Proof. solve_decision. Defined.

(** What [parse_webhook] raises; [Raised] is an exception of another class. *)
Inductive parse_error : Type := InvalidSignature | InvalidPayload | Raised (cls : string).
#[export] Instance parse_error_eq_dec : EqDecision parse_error.
Proof. solve_decision. Defined.

Record BillingCustomer : Type := mkCustomer { bc_tenant : string; bc_provider : string; bc_customer_ref : string }.
Record CheckoutSession : Type := mkCheckout { session_ref : string; session_url : string }.

Record CheckoutError : Type := mkCheckoutError {
  ce_message : string;
  retryable : bool;
  ce_status : option Z;
  ce_code : option string;
}.

(** ** Reading a JSON object *)

(** [obj.get(key)] *)
Definition jget (key : string) (obj : list (string * json)) : json := default JNull (dict_get key obj).

(** [_text] and [_int] of the adapters *)
Definition text_of (value : json) : option string :=
  match value with JStr s => if nonempty s then Some s else None | _ => None end.
Definition int_of (value : json) : option Z := match value with JInt z => Some z | _ => None end.

(** [datetime.fromtimestamp(z, UTC)] *)
Definition fromtimestamp (z : Z) : option datetime :=
  if ((-62135596800 <=? z) && (z <=? 253402300799))%Z then Some (DateTime (z * us_per_second) true) else None.

(** [_when] *)
Definition when_of (value : json) : option datetime := z ← int_value value; fromtimestamp z.

(** [_TEXT.fullmatch(s)] for a text of 1 to [limit] characters of a class *)
Fixpoint all_chars (class : ascii → bool) (s : string) : bool :=
  match s with EmptyString => true | String a s => class a && all_chars class s end.
Definition full_of (class : ascii → bool) (limit : nat) (s : string) : bool :=
  nonempty s && (String.length s <=? limit)%nat && all_chars class s.

(** [[A-Za-z0-9_]] and [[A-Za-z0-9_.\[\]]] *)
Definition name_char (a : ascii) : bool :=
  let n := N_of_ascii a in
  ((65 <=? n) && (n <=? 90) || (97 <=? n) && (n <=? 122) || (48 <=? n) && (n <=? 57) || (n =? 95))%N.
Definition field_char (a : ascii) : bool := name_char a || bool_decide (a ∈ ["."; "["; "]"]%char).

(** [{k.lower(): v for k, v in headers.items()}] *)
Definition lowered (headers : list (string * string)) : list (string * string) := dict_of (λ h, lower h.1) snd headers [].

(** [clock - stamp] for a whole [stamp]: [None] is an OverflowError *)
Definition sub_int (x : float) (z : Z) : option float :=
  let f := float_of_int z in if ffinite f then Some (fsub x f) else None.

(** ** The HTTP client *)

Inductive http_body : Type := Form (fields : list (string * string)) | JsonBody (j : json).
Record http_response : Type := mkResponse { rs_status : Z; rs_json : option json }.   (* [.json()]: [None] is a ValueError *)

Inductive cmd : Type → Type :=
| Get (url : string) (params headers : list (string * string)) : cmd http_response
| Post (url : string) (body : http_body) (headers : list (string * string)) : cmd http_response.

Notation P := (prog cmd).

(** [except httpx.HTTPError]: of a client call, what it raises is a network error of checkout *)
Definition sent {R} (is_http_error : exc → bool) (who : string) (p : P R) : P (result CheckoutError R) :=
  catch (r ← p; Ret (Ok r))%prog
    (λ e, if is_http_error e
          then Ret (Err (mkCheckoutError ("could not reach " +:+ who +:+ " (" +:+ exc_class e +:+ ")") true None (Some "network")))
          else Throw e).

Definition key_allowed (key : string) : bool := nonempty key && (String.length key <=? 255)%nat.
Definition bad_key : CheckoutError := mkCheckoutError "an idempotency key is 1 to 255 characters" false None (Some "bad_idempotency_key").

(** [a if x else b] in a message *)
Definition shown (prefix : string) (x : option string) : string :=
  match x with Some s => if nonempty s then prefix +:+ s else "" | None => "" end.
