(* ===== verification/Fake.v ===== *)
(** The provider of development and tests: [billing/providers/fake.py].

    The time a call takes and the measured spans are left out. *)
From Stdlib Require Import Ascii SpecFloat.
From S2P Require Import Prelude Dict Json Text Messages AgentState Sha256 Wire Calendar Webhooks Providers.

Local Open Scope string_scope.
Local Open Scope list_scope.

Definition SIGNATURE_HEADER : string := "x-fake-signature".
Definition TOLERANCE_SECONDS : Z := 300.

Definition _KINDS : list (string * EventKind) := [
  ("purchase.completed", CREDITS_PURCHASED);
  ("subscription.period_started", SUBSCRIPTION_PERIOD_STARTED);
  ("payment.refunded", PAYMENT_REFUNDED);
  ("payment.partially_refunded", PAYMENT_PARTIALLY_REFUNDED);
  ("dispute.opened", DISPUTE_OPENED);
  ("dispute.closed", DISPUTE_CLOSED)].

Definition capabilities : list Capability := [USAGE_EXPORT].

(** [_mac]: the secret is its bytes *)
Definition _mac (secret : string) (stamp : Z) (body : string) : string :=
  hex (hmac_sha256 secret (dump_int stamp +:+ "." +:+ body)).

(** [compare_digest] of texts raises for a character that is not ASCII. *)
Definition is_ascii (s : string) : bool := all_chars (λ a, (N_of_ascii a <? 128)%N) s.

Definition parts_of (header : string) : list (string * string) :=
  dict_of fst snd (omap (λ part, let '(k, v) := partition "="%char part in (λ v, (k, v)) <$> v) (split_on comma header)) [].

Definition _verify (secret : string) (now : float) (headers : list (string * string)) (body : string) : result parse_error () :=
  match dict_get SIGNATURE_HEADER headers with
  | None => Err InvalidSignature
  | Some header =>
      if negb (nonempty header) then Err InvalidSignature else
      match dict_get "t" (parts_of header) ≫= py_int, dict_get "v1" (parts_of header) with
      | Some stamp, Some claimed =>
          if negb (is_ascii claimed) then Err (Raised "TypeError") else
          if negb (String.eqb claimed (_mac secret stamp body)) then Err InvalidSignature else
          match sub_int now stamp with
          | None => Err (Raised "OverflowError")
          | Some d => if fgt (SFabs d) (float_of_int TOLERANCE_SECONDS) then Err InvalidSignature else Ok ()
          end
      | _, _ => Err InvalidSignature
      end
  end.

Section fake.
Context (json_loads : string → option json) (secret : string).

(** [isinstance(value, int)] holds of a truth value. *)
Definition amount_of (value : json) : option Z :=
  match value with JInt z => Some z | JBool b => Some (if b then 1 else 0)%Z | _ => None end.

(** [str(value or "")] *)
Definition type_text (value : json) : string := if truthy (Some value) then py_str value else "".

Definition parse_webhook (now : float) (headers : list (string * string)) (body : string) : result parse_error (list BillingEvent) :=
  rbind (_verify secret now (lowered headers) body) (λ _,
  match json_loads body with
  | Some (JObj data) =>
      match jget "id" data with
      | JStr id =>
          if negb (nonempty id) then Err InvalidPayload else
          let raw_type := type_text (jget "type" data) in
          Ok [Build_BillingEvent "fake" id (default IGNORED (dict_get raw_type _KINDS))
                (text_of (jget "customer" data)) (text_of (jget "product" data)) (text_of (jget "payment" data))
                (amount_of (jget "amount_minor" data)) (text_of (jget "currency" data))
                (when_of (jget "created" data)) (take_str 100 raw_type)]
      | _ => Err InvalidPayload
      end
  | _ => Err InvalidPayload
  end).
End fake.

(** ** The provider's own ledger of usage *)

Record UsageEvent : Type := mkUsageEvent { uv_event_id : string; uv_credits : option Z }.
Record ExportFailure : Type := mkExportFailure { ef_event_id : string; ef_retryable : bool }.
Record ExportResult : Type := mkExportResult { accepted : list string; duplicate : list string; failed : list ExportFailure }.

Record FakeProvider : Type := mkFake {
  received : list (string * (string * UsageEvent));
  calls : list (list string);
  _script : list string;
}.

(** The [for] loop over the events of a call. *)
Fixpoint receive (customer_ref : string) (events : list UsageEvent) (got : list (string * (string * UsageEvent))) :
    list string * list string * list (string * (string * UsageEvent)) :=
  match events with
  | [] => ([], [], got)
  | ev :: events =>
      match dict_get (uv_event_id ev) got with
      | Some _ => let '(a, d, got) := receive customer_ref events got in (a, uv_event_id ev :: d, got)
      | None =>
          let '(a, d, got) := receive customer_ref events (dict_set (uv_event_id ev) (customer_ref, ev) got) in
          (uv_event_id ev :: a, d, got)
      end
  end.

(** [export_usage]: [Err] is the exception it raises. *)
Definition export_usage (customer : BillingCustomer) (events : list UsageEvent) (p : FakeProvider) :
    result string ExportResult * FakeProvider :=
  let p := mkFake (received p) (calls p ++ [uv_event_id <$> events]) (_script p) in
  let '(step, p) := match _script p with
                    | s :: rest => (s, mkFake (received p) (calls p) rest)
                    | [] => ("ok", p)
                    end in
  if String.eqb step "raise" then (Err "ConnectionError", p) else
  if String.eqb step "retryable" || String.eqb step "permanent" then
    (Ok (mkExportResult [] [] ((λ ev, mkExportFailure (uv_event_id ev) (String.eqb step "retryable")) <$> events)), p)
  else
    let '(a, d, got) := receive (bc_customer_ref customer) events (received p) in
    (Ok (mkExportResult a d []), mkFake got (calls p) (_script p)).
