(* ===== verification/Stripe.v ===== *)
(** The Stripe adapter: [billing/providers/stripe.py]. *)
From Stdlib Require Import Ascii SpecFloat.
From S2P Require Import Prelude Dict Json Text Messages AgentState Process Sha256 Wire Calendar Webhooks Providers.

Local Open Scope string_scope.
Local Open Scope list_scope.

Definition SIGNATURE_HEADER : string := "stripe-signature".
Definition TOLERANCE_SECONDS : Z := 300.
Definition _PAID : list string := ["checkout.session.completed"; "checkout.session.async_payment_succeeded"].
Definition capabilities : list Capability := [CHECKOUT].

Record StripeProvider : Type := mkStripe {
  _secret : string;      (* bytes *)
  _tolerance : Z;
  _api_key : string;
}.

(** [__init__]; [STRIPE_API_KEY] is what the settings have when no key is given. *)
Definition __init__ (STRIPE_API_KEY : option string) (secret : string) (api_key : option string) (tolerance_seconds : Z) :
    result string StripeProvider :=
  if negb (nonempty secret) then Err "a provider needs a webhook secret" else
  if (tolerance_seconds <=? 0)%Z then Err "a tolerance of 0 disables the replay check (Stripe's own docs warn against it)" else
  let api_key := match api_key with Some k => Some k | None => STRIPE_API_KEY end in
  Ok (mkStripe (encode secret) tolerance_seconds (default "" api_key)).

(** ** The webhook *)

Definition _mac (secret : string) (stamp : Z) (body : string) : string :=
  hex (hmac_sha256 secret (dump_int stamp +:+ "." +:+ body)).

(** The [for] loop over the parts of the header: the stamp and the candidates. *)
Fixpoint scan (parts : list string) (stamp : option Z) (candidates : list string) : result parse_error (option Z * list string) :=
  match parts with
  | [] => Ok (stamp, candidates)
  | part :: parts =>
      match partition "="%char (strip part) with
      | (_, None) => scan parts stamp candidates
      | (key, Some value) =>
          if String.eqb key "t" then
            match py_int value with Some z => scan parts (Some z) candidates | None => Err InvalidSignature end
          else if String.eqb key "v1" then scan parts stamp (candidates ++ [value])
          else scan parts stamp candidates
      end
  end.

Definition _verify (p : StripeProvider) (now : float) (headers : list (string * string)) (body : string) : result parse_error () :=
  match dict_get SIGNATURE_HEADER headers with
  | None => Err InvalidSignature
  | Some header =>
      if negb (nonempty header) then Err InvalidSignature else
      rbind (scan (split_on comma header) None []) (λ '(stamp, candidates),
      match stamp, candidates with
      | None, _ | _, [] => Err InvalidSignature
      | Some stamp, candidates =>
          let expected := _mac (_secret p) stamp body in
          let matched := foldl (λ matched candidate, matched || String.eqb (encode candidate) (encode expected)) false candidates in
          if negb matched then Err InvalidSignature else
          match sub_int now stamp with
          | None => Err (Raised "OverflowError")
          | Some d => if fgt d (float_of_int (_tolerance p)) then Err InvalidSignature else Ok ()
          end
      end)
  end.

(** [_id]: an id, or the id of an expanded object *)
Definition _id (value : json) : option string := text_of (match value with JObj l => jget "id" l | _ => value end).

Definition facts : Type := EventKind * option string * option string * option string * option Z * option string.
Definition ignored : facts := (IGNORED, None, None, None, None, None).

Definition _normalize (raw_type : string) (obj : list (string * json)) : facts :=
  let currency := text_of (jget "currency" obj) in
  if bool_decide (raw_type ∈ _PAID) then
    if bool_decide (jget "mode" obj ≠ JStr "payment") || bool_decide (jget "payment_status" obj ≠ JStr "paid") then ignored else
    let product := match jget "metadata" obj with JObj metadata => text_of (jget "product_ref" metadata) | _ => None end in
    (CREDITS_PURCHASED, _id (jget "customer" obj), product, _id (jget "payment_intent" obj), int_of (jget "amount_total" obj), currency)
  else if String.eqb raw_type "charge.refunded" then
    let kind := if bool_decide (jget "refunded" obj = JBool true) then PAYMENT_REFUNDED else PAYMENT_PARTIALLY_REFUNDED in
    (kind, _id (jget "customer" obj), None, _id (jget "payment_intent" obj), int_of (jget "amount_refunded" obj), currency)
  else if bool_decide (raw_type ∈ ["charge.dispute.created"; "charge.dispute.closed"]) then
    let kind := if String.eqb raw_type "charge.dispute.created" then DISPUTE_OPENED else DISPUTE_CLOSED in
    (kind, None, None, _id (jget "payment_intent" obj), int_of (jget "amount" obj), currency)
  else ignored.

Definition event_of (provider event_id raw_type : string) (f : facts) (occurred_at : option datetime) : BillingEvent :=
  let '(kind, customer, product, payment, amount, currency) := f in
  Build_BillingEvent provider event_id kind customer product payment amount currency occurred_at (take_str 100 raw_type).

(** [(data.get("data") or {}).get("object")]: a truthy value that is no object has no [get]. *)
Definition object_of (data : list (string * json)) : result parse_error json :=
  match jget "data" data with
  | JObj l => Ok (jget "object" l)
  | v => if truthy (Some v) then Err (Raised "AttributeError") else Ok JNull
  end.

Definition parse_webhook (json_loads : string → option json) (p : StripeProvider) (now : float)
    (headers : list (string * string)) (body : string) : result parse_error (list BillingEvent) :=
  rbind (_verify p now (lowered headers) body) (λ _,
  match json_loads body with
  | Some (JObj data) =>
      rbind (object_of data) (λ obj,
      match text_of (jget "id" data), text_of (jget "type" data), obj with
      | Some event_id, Some raw_type, JObj obj =>
          Ok [event_of "stripe" event_id raw_type (_normalize raw_type obj) (when_of (jget "created" data))]
      | _, _, _ => Err InvalidPayload
      end)
  | _ => Err InvalidPayload
  end).

(** ** Checkout *)

Definition _checkout_error (response : http_response) : CheckoutError :=
  let '(kind, code, param) :=
    match rs_json response with
    | Some (JObj body) =>
        match jget "error" body with
        | JObj error => (text_of (jget "type" error), text_of (jget "code" error), text_of (jget "param" error))
        | _ => (None, None, None)
        end
    | _ => (None, None, None)
    end in
  let param := match param with Some s => if full_of field_char 100 s then Some s else None | None => None end in
  let status := rs_status response in
  mkCheckoutError
    ("Stripe refused the checkout (HTTP " +:+ dump_int status +:+ shown ", " kind +:+ shown ", " code +:+ shown ", field " param +:+
     "); the reason is in the Stripe Dashboard's request logs")
    (bool_decide (status ∈ [409; 429]%Z) || (500 <=? status)%Z) (Some status) (match code with Some c => Some c | None => kind end).

Definition no_session : CheckoutError := mkCheckoutError "Stripe answered 200 with no session" false (Some 200%Z) (Some "bad_response").

Definition checkout_form (customer : BillingCustomer) (product : CreditProduct) (success_url cancel_url : string) : list (string * string) := [
  ("mode", "payment");
  ("line_items[0][price]", cp_product_ref product);
  ("line_items[0][quantity]", "1");
  ("customer", bc_customer_ref customer);
  ("success_url", success_url);
  ("cancel_url", cancel_url);
  ("metadata[product_ref]", cp_product_ref product)].

Definition create_checkout (is_http_error : exc → bool) (p : StripeProvider) (customer : BillingCustomer) (product : CreditProduct)
    (idempotency_key success_url cancel_url : string) : P (result CheckoutError CheckoutSession) :=
  if negb (nonempty (_api_key p)) then Ret (Err (mkCheckoutError "STRIPE_API_KEY is not set" false None (Some "no_api_key"))) else
  if negb (key_allowed idempotency_key) then Ret (Err bad_key) else
  let headers := [("Authorization", "Bearer " +:+ _api_key p); ("Idempotency-Key", idempotency_key)] in
  (answer ← sent is_http_error "Stripe" (call (Post "/v1/checkout/sessions" (Form (checkout_form customer product success_url cancel_url)) headers));
   match answer with
   | Err e => Ret (Err e)
   | Ok response =>
       if negb (rs_status response =? 200)%Z then Ret (Err (_checkout_error response)) else
       match rs_json response with
       | Some (JObj body) =>
           match jget "id" body, jget "url" body with
           | JStr ref, JStr url => if nonempty ref && nonempty url then Ret (Ok (mkCheckout ref url)) else Ret (Err no_session)
           | _, _ => Ret (Err no_session)
           end
       | _ => Ret (Err no_session)
       end
   end)%prog.

(** ** The answers Stripe's own library gives (the adapter's tests hold them) *)

Module Known.
Definition q : string := String quote "".
Definition pair_of (k v : string) : string := q +:+ k +:+ q +:+ ":" +:+ v.
Definition body : string :=
  "{" +:+ pair_of "created" "1760000000" +:+ "," +:+ pair_of "data" ("{" +:+ pair_of "object" ("{" +:+ pair_of "id" (q +:+ "ch_1" +:+ q) +:+ "}") +:+ "}") +:+ "," +:+
  pair_of "id" (q +:+ "evt_ka_1" +:+ q) +:+ "," +:+ pair_of "object" (q +:+ "event" +:+ q) +:+ "," +:+ pair_of "type" (q +:+ "charge.refunded" +:+ q) +:+ "}".
Definition right : string := "6ca238bc00e761dbe7dc3adfae8622f3ccb46b9b369e7b38544e9c233fd1ef02".
Definition header : string :=
  "t=1760000000,v1=603928041c2df8f5276d9543c8842171505b5914f092542c1b144926c08cc8e2,v1=" +:+ right +:+
  ",v0=6ffbb59b2300aae63f272406069a9788598b792a944a07aba816edb039989a39".
Definition provider : StripeProvider := mkStripe "whsec_known_answer_not_a_real_secret" TOLERANCE_SECONDS "".
Definition now : float := float_of_int 1760000010.
Definition headers (h : string) : list (string * string) := [("Stripe-Signature", h)].

(** While a secret is rolled; a signature without the right label; one that was moved in time *)
Example answers :
  (λ h, _verify provider now (lowered (headers h)) body) <$>
    [header; "t=1760000000,v0=" +:+ right; "t=1760000300,v1=" +:+ right; "t=1760000000,v1="; "v1=" +:+ right; "t=x,v1=" +:+ right] =
  [Ok (); Err InvalidSignature; Err InvalidSignature; Err InvalidSignature; Err InvalidSignature; Err InvalidSignature].
Proof. vm_compute. reflexivity. Qed.

(** Later than the tolerance *)
Example stale : _verify provider (float_of_int 1760000301) (lowered (headers header)) body = Err InvalidSignature.
Proof. vm_compute. reflexivity. Qed.
End Known.
