(* ===== verification/Polar.v ===== *)
(** The Polar adapter: [billing/providers/polar.py].

    [datetime.fromisoformat], whose answer is only kept, is an argument beside [json.loads]. *)
From Stdlib Require Import Ascii SpecFloat.
From S2P Require Import Prelude Dict Json Text Messages AgentState Process Sha256 Wire Calendar Webhooks Providers.

Local Open Scope string_scope.
Local Open Scope list_scope.

Definition TOLERANCE_SECONDS : Z := 300.
Definition API_BASES : list (string * string) :=
  [("sandbox", "https://sandbox-api.polar.sh/v1"); ("production", "https://api.polar.sh/v1")].
Definition ATTEMPT_KEY : string := "agent_core_attempt".
Definition LIST_LIMIT : Z := 100.
Definition MAX_EVENT_ID_CHARS : nat := 255.
Definition capabilities : list Capability := [CHECKOUT].

Record PolarProvider : Type := mkPolar {
  _keys : list string;   (* bytes *)
  _tolerance : Z;
  _api_base : string;
  _token : string;
}.

(** [s.removeprefix(p)] *)
Definition removeprefix (s p : string) : string := if startswith s p then drop_str (String.length p) s else s.

Fixpoint equals (n : nat) : string := match n with O => "" | S n => String "="%char (equals n) end.

(** Every key a secret can mean. *)
Definition _signing_keys (secret : string) : list string :=
  let first := encode secret in
  let remainder := removeprefix secret "whsec_" in
  match b64decode (remainder +:+ equals (Z.to_nat ((- Z.of_nat (String.length remainder)) mod 4))) with
  | None => [first]
  | Some decoded => if nonempty decoded && negb (String.eqb decoded first) then [first; decoded] else [first]
  end.

(** [__init__]; the settings have what is not given. *)
Definition __init__ (POLAR_ACCESS_TOKEN : option string) (POLAR_ENVIRONMENT : string) (secret : string)
    (access_token environment : option string) (tolerance_seconds : Z) (api_base : option string) : result string PolarProvider :=
  if negb (nonempty secret) then Err "a provider needs a webhook secret" else
  if (tolerance_seconds <=? 0)%Z then Err "a tolerance of 0 disables the replay check" else
  let access_token := match access_token with Some t => Some t | None => POLAR_ACCESS_TOKEN end in
  let environment := default POLAR_ENVIRONMENT environment in
  match dict_get environment API_BASES with
  | None => Err ("environment must be one of ['production', 'sandbox'], not " +:+ repr_str environment)
  | Some base =>
      let api_base := match api_base with Some b => if nonempty b then b else base | None => base end in
      Ok (mkPolar (_signing_keys secret) tolerance_seconds api_base (default "" access_token))
  end.

(** ** The webhook *)

(** What the [webhook-signature] header offers: the bytes of every readable [v1]. *)
Definition candidates_of (signatures : string) : list string :=
  omap (λ part,
    match partition comma part with
    | (version, Some value) => if String.eqb version "v1" then b64decode value else None
    | (_, None) => None
    end) (split signatures).

Definition signed_content (webhook_id : string) (stamp : float) (body : string) : string :=
  encode (webhook_id +:+ "." +:+ dump_int (floor stamp) +:+ ".") +:+ body.

Definition matches (keys candidates : list string) (content : string) : bool :=
  foldl (λ matched key,
    let expected := hmac_sha256 key content in
    foldl (λ matched candidate, matched || String.eqb expected candidate) matched candidates) false keys.

Definition given (header : option string) : option string := h ← header; if nonempty h then Some h else None.

Definition _verify (p : PolarProvider) (now : float) (headers : list (string * string)) (body : string) : result parse_error () :=
  match given (dict_get "webhook-id" headers), given (dict_get "webhook-timestamp" headers), given (dict_get "webhook-signature" headers) with
  | Some webhook_id, Some stamp_text, Some signatures =>
      match py_float stamp_text with
      | None => Err InvalidSignature
      | Some stamp =>
          if negb (ffinite stamp) then Err InvalidSignature else
          let candidates := candidates_of signatures in
          if bool_decide (candidates = []) then Err InvalidSignature else
          let matched := matches (_keys p) candidates (signed_content webhook_id stamp body) in
          let tolerance := float_of_int (_tolerance p) in
          if negb matched || flt stamp (fsub now tolerance) || fgt stamp (fadd now tolerance) then Err InvalidSignature else Ok ()
      end
  | _, _, _ => Err InvalidSignature
  end.

Definition _customer (obj : list (string * json)) : option string :=
  match text_of (jget "customer_id" obj) with
  | Some c => Some c
  | None => match jget "customer" obj with JObj nested => text_of (jget "id" nested) | _ => None end
  end.

Definition facts : Type := EventKind * option string * option string * option string * option Z * option string.
Definition ignored : facts := (IGNORED, None, None, None, None, None).

Definition _normalize (raw_type : string) (obj : list (string * json)) : facts :=
  let reason := jget "billing_reason" obj in
  if String.eqb raw_type "order.paid" then
    if bool_decide (reason ≠ JStr "purchase") || bool_decide (jget "status" obj ≠ JStr "paid") then ignored else
    (CREDITS_PURCHASED, _customer obj, text_of (jget "product_id" obj), text_of (jget "id" obj), int_of (jget "total_amount" obj), text_of (jget "currency" obj))
  else if String.eqb raw_type "order.refunded" then
    if match reason with JStr r => startswith r "subscription" | _ => false end then ignored else
    let kind := if bool_decide (jget "status" obj = JStr "refunded") then PAYMENT_REFUNDED else PAYMENT_PARTIALLY_REFUNDED in
    (kind, _customer obj, None, text_of (jget "id" obj), int_of (jget "refunded_amount" obj), text_of (jget "currency" obj))
  else ignored.

Section polar.
Context (json_loads : string → option json) (fromisoformat : string → option datetime).

(** A time without a zone is UTC. *)
Definition _when (value : json) : option datetime :=
  match value with JStr s => (λ t, DateTime (dt_us t) true) <$> fromisoformat s | _ => None end.

Definition parse_webhook (p : PolarProvider) (now : float) (headers : list (string * string)) (body : string) :
    result parse_error (list BillingEvent) :=
  rbind (_verify p now (lowered headers) body) (λ _,
  let event_id := default "" (dict_get "webhook-id" (lowered headers)) in
  match json_loads body with
  | Some (JObj data) =>
      match text_of (jget "type" data), jget "data" data with
      | Some raw_type, JObj obj =>
          if (MAX_EVENT_ID_CHARS <? String.length event_id)%nat then Err InvalidPayload else
          let '(kind, customer, product, payment, amount, currency) := _normalize raw_type obj in
          Ok [Build_BillingEvent "polar" event_id kind customer product payment amount currency (_when (jget "timestamp" data)) (take_str 100 raw_type)]
      | _, _ => Err InvalidPayload
      end
  | _ => Err InvalidPayload
  end).
End polar.

(** ** Checkout *)

Section checkout.
Context (is_http_error : exc → bool).

(** [_json] *)
Definition _json (response : http_response) : list (string * json) := match rs_json response with Some (JObj body) => body | _ => [] end.

Definition _session (item : json) : option CheckoutSession :=
  match item with
  | JObj l =>
      match jget "id" l, jget "url" l with
      | JStr ref, JStr url => if nonempty ref && nonempty url then Some (mkCheckout ref url) else None
      | _, _ => None
      end
  | _ => None
  end.

Definition refused_field (body : list (string * json)) : option string :=
  match jget "detail" body with
  | JList (JObj first :: _) =>
      match jget "loc" first with
      | JList loc =>
          let candidate := join "." (py_str <$> filter (λ p, p ≠ JStr "body") loc) in
          if full_of field_char 100 candidate then Some candidate else None
      | _ => None
      end
  | _ => None
  end.

Definition _api_error (response : http_response) : CheckoutError :=
  let body := _json response in
  let kind := match jget "error" body with JStr s => if full_of name_char 64 s then Some s else None | _ => None end in
  let status := rs_status response in
  mkCheckoutError
    ("Polar refused the checkout (HTTP " +:+ dump_int status +:+ shown ", " kind +:+ shown ", field " (refused_field body) +:+ ")")
    (bool_decide (status ∈ [408; 409; 429]%Z) || (500 <=? status)%Z) (Some status) kind.

(** The [for] loop over the listed sessions: the one of this attempt that is not dead. *)
Fixpoint find_attempt (key : string) (items : list json) : result CheckoutError (option CheckoutSession) :=
  match items with
  | [] => Ok None
  | item :: items =>
      match item with
      | JObj l =>
          match jget "metadata" l with
          | JObj metadata =>
              if bool_decide (jget ATTEMPT_KEY metadata ≠ JStr key) then find_attempt key items else
              if bool_decide (jget "status" l ∈ [JStr "expired"; JStr "failed"]) then find_attempt key items else
              match _session item with
              | Some session => Ok (Some session)
              | None => Err (mkCheckoutError "Polar listed this attempt with no usable session" false (Some 200%Z) (Some "bad_response"))
              end
          | _ => find_attempt key items
          end
      | _ => find_attempt key items
      end
  end.

Definition _send (p : P http_response) : P (result CheckoutError http_response) := sent is_http_error "Polar" p.

Definition _find_attempt (headers : list (string * string)) (customer : BillingCustomer) (product : CreditProduct) (key : string) :
    P (result CheckoutError (option CheckoutSession)) :=
  let params := [("customer_id", bc_customer_ref customer); ("product_id", cp_product_ref product);
                 ("limit", dump_int LIST_LIMIT); ("sorting", "-created_at")] in
  (answer ← _send (call (Get "/checkouts/" params headers));
   match answer with
   | Err e => Ret (Err e)
   | Ok response =>
       if negb (rs_status response =? 200)%Z then Ret (Err (_api_error response)) else
       match jget "items" (_json response) with
       | JList items => Ret (find_attempt key items)
       | _ => Ret (Err (mkCheckoutError "Polar answered the session search with no list" false (Some 200%Z) (Some "bad_response")))
       end
   end)%prog.

Definition create_checkout (p : PolarProvider) (customer : BillingCustomer) (product : CreditProduct)
    (idempotency_key success_url cancel_url : string) : P (result CheckoutError CheckoutSession) :=
  if negb (nonempty (_token p)) then Ret (Err (mkCheckoutError "POLAR_ACCESS_TOKEN is not set" false None (Some "no_access_token"))) else
  if negb (key_allowed idempotency_key) then Ret (Err bad_key) else
  let headers := [("Authorization", "Bearer " +:+ _token p)] in
  (existing ← _find_attempt headers customer product idempotency_key;
   match existing with
   | Err e => Ret (Err e)
   | Ok (Some session) => Ret (Ok session)
   | Ok None =>
       let body := JObj [("products", JList [JStr (cp_product_ref product)]); ("customer_id", JStr (bc_customer_ref customer));
                         ("success_url", JStr success_url); ("return_url", JStr cancel_url);
                         ("metadata", JObj [(ATTEMPT_KEY, JStr idempotency_key)])] in
       answer ← _send (call (Post "/checkouts/" (JsonBody body) headers));
       match answer with
       | Err e => Ret (Err e)
       | Ok response =>
           if bool_decide (rs_status response ∉ [200; 201]%Z) then Ret (Err (_api_error response)) else
           match _session (JObj (_json response)) with
           | Some session => Ret (Ok session)
           | None => Ret (Err (mkCheckoutError "Polar answered with no session" false (Some (rs_status response)) (Some "bad_response")))
           end
       end
   end)%prog.
End checkout.
