(* ===== verification/WebhookRoute.v ===== *)
(** The webhook endpoint and the registry of adapters: [billing/http.py],
    [billing/providers/__init__.py].

    The headers are the mapping the handler makes of them, with lower-case names.  Logs are
    left out; the adapters of the process, which are built once, are an argument. *)
From Stdlib Require Import Ascii SpecFloat.
From S2P Require Import Prelude Dict Calendar Db Webhooks Json Text Messages AgentState Wire Providers.
From S2P Require Fake Stripe Polar.

Local Open Scope string_scope.
Local Open Scope list_scope.
Local Open Scope py_scope.

(** ** The registry *)

Inductive Provider : Type :=
| FakeAdapter (secret : string)
| StripeAdapter (p : Stripe.StripeProvider)
| PolarAdapter (p : Polar.PolarProvider).

Definition names : list string := ["fake"; "stripe"; "polar"].

Definition capabilities_of (name : string) : list Capability :=
  if String.eqb name "fake" then Fake.capabilities else
  if String.eqb name "stripe" then Stripe.capabilities else
  if String.eqb name "polar" then Polar.capabilities else [].

(** What the settings hold of the adapters. *)
Record settings : Type := mkSettings {
  STRIPE_API_KEY : option string;
  POLAR_ACCESS_TOKEN : option string;
  POLAR_ENVIRONMENT : string;
}.

Section registry.
Context (s : settings).

(** [build]: [Err] is the text of the [ValueError] it raises, which [UnknownProvider] is. *)
Definition build (name secret : string) : result string Provider :=
  if String.eqb name "fake" then
    (if nonempty secret then Ok (FakeAdapter (encode secret)) else Err "a provider needs a webhook secret")
  else if String.eqb name "stripe" then
    rbind (Stripe.__init__ (STRIPE_API_KEY s) secret None Stripe.TOLERANCE_SECONDS) (λ p, Ok (StripeAdapter p))
  else if String.eqb name "polar" then
    rbind (Polar.__init__ (POLAR_ACCESS_TOKEN s) (POLAR_ENVIRONMENT s) secret None None Polar.TOLERANCE_SECONDS None) (λ p, Ok (PolarAdapter p))
  else Err ("no billing adapter is registered as " +:+ repr_str name +:+ "; registered: ['fake', 'polar', 'stripe']").

Fixpoint build_all (ns : list string) (secrets : list (string * string)) (built : list (string * Provider)) :
    result string (list (string * Provider)) :=
  match ns with
  | [] => Ok built
  | name :: ns =>
      let secret := default "" (dict_get name secrets) in
      if negb (nonempty secret)
      then Err ("billing provider " +:+ repr_str name +:+ " is enabled but BILLING_WEBHOOK_SECRETS has no secret for it")
      else rbind (build name secret) (λ p, build_all ns secrets (dict_set name p built))
  end.

Definition build_configured (ns : list string) (secrets : list (string * string)) : result string (list (string * Provider)) :=
  build_all ns secrets [].
End registry.

Definition usage_export_providers (ns : list string) : list string :=
  filter (λ name, name ∈ names ∧ USAGE_EXPORT ∈ capabilities_of name) ns.

(** ** The endpoint *)

Section route.
Context (json_loads : string → option json) (fromisoformat : string → option datetime).

Definition parse_webhook (a : Provider) (now : float) (headers : list (string * string)) (body : string) :
    result parse_error (list BillingEvent) :=
  match a with
  | FakeAdapter secret => Fake.parse_webhook json_loads secret now headers body
  | StripeAdapter p => Stripe.parse_webhook json_loads p now headers body
  | PolarAdapter p => Polar.parse_webhook json_loads fromisoformat p now headers body
  end.

Inductive read_error : Type := _TooLarge | ReadRaised (cls : string).

(** The [async for] over the chunks of the body; [Err] is what the stream raises. *)
Fixpoint read_chunks (cap size : nat) (chunks : list (result string string)) : result read_error string :=
  match chunks with
  | [] => Ok ""
  | Err cls :: _ => Err (ReadRaised cls)
  | Ok chunk :: chunks =>
      let size := (size + String.length chunk)%nat in
      if (cap <? size)%nat then Err _TooLarge else rbind (read_chunks cap size chunks) (λ rest, Ok (chunk +:+ rest))
  end.

(** [s.isdigit()] holds of the superscripts too, which [int] does not read. *)
Definition isdigit (s : string) : bool :=
  nonempty s && all_chars (λ a, is_digit a || bool_decide (N_of_ascii a ∈ [178; 179; 185]%N)) s.

Definition _read_capped (cap : nat) (headers : list (string * string)) (chunks : list (result string string)) : result read_error string :=
  let declared := default "" (dict_get "content-length" headers) in
  if isdigit declared then
    match py_int declared with
    | None => Err (ReadRaised "ValueError")
    | Some n => if (Z.of_nat cap <? n)%Z then Err _TooLarge else read_chunks cap 0 chunks
    end
  else read_chunks cap 0 chunks.

Record response : Type := mkJSON { status_code : Z; received : option nat }.
Definition refused (status : Z) : response := mkJSON status None.

Definition _count (provider outcome : string) : M () := count "agent_billing_webhook_total" (provider +:+ "," +:+ outcome).

Fixpoint process_events (hold max : Z) (events : list BillingEvent) : M (list Outcome) :=
  match events with
  | [] => mret []
  | ev :: events =>
      o ← process_event hold max ev;
      os ← process_events hold max events;
      mret (o :: os)
  end.

Definition receive_webhook (refund_hold_hours max_attempts : Z) (cap : nat) (configured : list (string * Provider)) (now : float)
    (provider : string) (headers : list (string * string)) (chunks : list (result string string)) : M response :=
  match dict_get provider configured with
  | None => _count "unknown" "unknown_provider" ;; mret (refused 404)
  | Some adapter =>
      match _read_capped cap headers chunks with
      | Err _TooLarge => _count provider "too_large" ;; mret (refused 413)
      | Err (ReadRaised cls) => raise (OtherException cls)
      | Ok body =>
          match parse_webhook adapter now headers body with
          | Err InvalidSignature => _count provider "invalid_signature" ;; mret (refused 400)
          | Err InvalidPayload => _count provider "invalid_payload" ;; mret (refused 400)
          | Err (Raised cls) => raise (OtherException cls)
          | Ok events =>
              outcomes ← process_events refund_hold_hours max_attempts events;
              mret (if bool_decide (Ofailed ∈ outcomes) then refused 500 else
                    if bool_decide (Oretry ∈ outcomes) then refused 503 else
                    mkJSON 200 (Some (length events)))
          end
      end
  end.
End route.
