(* ===== verification/ProviderTheorems.v ===== *)
(** What a verified delivery carries, and the properties of the provider adapters and of the
    endpoint, each with a concrete instance. *)
From Stdlib Require Import Ascii SpecFloat.
From S2P Require Import Prelude Dict Calendar Db Wallet Webhooks WalletSpec WalletFacts WalletLaws UsageFacts System BillingTheorems.
From S2P Require Import Json Text Messages AgentState Process Sha256 Wire Providers WebhookRoute.
From S2P Require Fake Stripe Polar.

Local Open Scope string_scope.
Local Open Scope list_scope.

(** ** UTF-8 tells texts apart *)

Lemma byte_inj n m : (n < 256)%N → (m < 256)%N → ascii_of_N n = ascii_of_N m → n = m.
Proof. intros Hn Hm H. by rewrite <-(N_ascii_embedding n), <-(N_ascii_embedding m), H. Qed.

(** Quotients and remainders by constants *)
Ltac divide := zify; Z.to_euclidean_division_equations; lia.

Lemma encode_char_inj a b s t : encode_char a +:+ s = encode_char b +:+ t → a = b ∧ s = t.
Proof.
  rewrite <-(ascii_N_embedding a), <-(ascii_N_embedding b). pose proof (N_ascii_bounded a) as Ha. pose proof (N_ascii_bounded b) as Hb.
  generalize dependent (N_of_ascii a). generalize dependent (N_of_ascii b). intros m Hm n Hn. unfold encode_char. rewrite !N_ascii_embedding by done.
  assert (n / 64 < 4)%N by (apply N.Div0.div_lt_upper_bound; lia). assert (m / 64 < 4)%N by (apply N.Div0.div_lt_upper_bound; lia).
  pose proof (N.mod_lt n 64 ltac:(done)). pose proof (N.mod_lt m 64 ltac:(done)).
  destruct (N.ltb_spec n 128), (N.ltb_spec m 128); cbn [String.append]; intros E.
  - pose proof E as E1. apply (f_equal (String.get 0)), (f_equal (default zero)), byte_inj in E1; [|divide..].
    apply (f_equal (drop_str 1)) in E. by rewrite E1.
  - apply (f_equal (String.get 0)), (f_equal (default zero)), byte_inj in E; divide.
  - apply (f_equal (String.get 0)), (f_equal (default zero)), byte_inj in E; divide.
  - pose proof E as E1. pose proof E as E2.
    apply (f_equal (String.get 0)), (f_equal (default zero)), byte_inj in E1; [|divide..].
    apply (f_equal (String.get 1)), (f_equal (default zero)), byte_inj in E2; [|divide..].
    apply (f_equal (drop_str 2)) in E. split; [|done]. f_equal.
    rewrite (N.div_mod n 64), (N.div_mod m 64) by done. divide.
Qed.

Lemma encode_inj s t : encode s = encode t → s = t.
Proof.
  revert t. induction s as [|a s IH]; intros [|b t]; cbn [encode]; [done| | |].
  - unfold encode_char. by destruct (_ <? _)%N.
  - unfold encode_char. by destruct (_ <? _)%N.
  - intros [-> H]%encode_char_inj. f_equal. by apply IH.
Qed.

(** ** Signed deliveries *)

(** The values of the parts [key=value] of a header, in order *)
Definition under (key header : string) : list string :=
  omap (λ part, match partition "="%char (strip part) with
                | (k, Some v) => if String.eqb k key then Some v else None
                | _ => None
                end) (split_on comma header).

(** The stamp of a Stripe header is that of its last [t], and every [t] is a number. *)
Definition stamped (header : string) (stamp : Z) : Prop :=
  Forall (λ v, py_int v ≠ None) (under "t" header) ∧ last (under "t" header) ≫= py_int = Some stamp.

Definition signed (a : Provider) (now : float) (headers : list (string * string)) (body : string) : Prop :=
  match a with
  | FakeAdapter secret =>
      ∃ header stamp d, dict_get Fake.SIGNATURE_HEADER headers = Some header ∧ dict_get "t" (Fake.parts_of header) ≫= py_int = Some stamp ∧
        dict_get "v1" (Fake.parts_of header) = Some (Fake._mac secret stamp body) ∧
        sub_int now stamp = Some d ∧ fgt (SFabs d) (float_of_int Fake.TOLERANCE_SECONDS) = false
  | StripeAdapter p =>
      ∃ header stamp d, dict_get Stripe.SIGNATURE_HEADER headers = Some header ∧ stamped header stamp ∧
        Stripe._mac (Stripe._secret p) stamp body ∈ under "v1" header ∧
        sub_int now stamp = Some d ∧ fgt d (float_of_int (Stripe._tolerance p)) = false
  | PolarAdapter p =>
      ∃ webhook_id stamp_text signatures stamp key,
        dict_get "webhook-id" headers = Some webhook_id ∧ dict_get "webhook-timestamp" headers = Some stamp_text ∧
        dict_get "webhook-signature" headers = Some signatures ∧ nonempty webhook_id = true ∧ nonempty stamp_text = true ∧
        nonempty signatures = true ∧ py_float stamp_text = Some stamp ∧ ffinite stamp = true ∧
        key ∈ Polar._keys p ∧ hmac_sha256 key (Polar.signed_content webhook_id stamp body) ∈ Polar.candidates_of signatures ∧
        flt stamp (fsub now (float_of_int (Polar._tolerance p))) = false ∧ fgt stamp (fadd now (float_of_int (Polar._tolerance p))) = false
  end.

(** A text of hexadecimal digits has no other characters. *)
Lemma hex_ascii s : Fake.is_ascii (hex s) = true.
Proof.
  unfold Fake.is_ascii. induction s as [|a s IH]; [done|]. cbn [hex all_chars]. rewrite IH, andb_true_r.
  assert (Hd : ∀ n, (n < 16)%N → (N_of_ascii (hex_digit n) <? 128)%N = true).
  { intros n Hn. unfold hex_digit. apply N.ltb_lt. destruct (N.ltb_spec n 10); rewrite N_ascii_embedding; lia. }
  pose proof (N_ascii_bounded a). rewrite !Hd; [done|divide..].
Qed.

Lemma fake_verify_spec secret now headers body :
  Fake._verify secret now headers body = Ok () ↔ signed (FakeAdapter secret) now headers body.
Proof.
  unfold Fake._verify. cbn [signed]. split.
  - destruct (dict_get _ headers) as [header|] eqn:Eh; [|done]. destruct (nonempty header); [|done]. cbn [negb].
    destruct (dict_get "t" _ ≫= py_int) as [stamp|] eqn:Et; [|done]. destruct (dict_get "v1" _) as [claimed|] eqn:Ec; [|done].
    destruct (Fake.is_ascii claimed); [|done]. cbn [negb]. destruct (String.eqb_spec claimed (Fake._mac secret stamp body)) as [->|]; [|done]. cbn [negb].
    destruct (sub_int now stamp) as [d|] eqn:Ed; [|done]. destruct (fgt _ _) eqn:Ef; [done|]. intros _. by exists header, stamp, d.
  - intros (header & stamp & d & -> & Et & Ec & Ed & Ef).
    assert (nonempty header = true) as -> by (destruct header; [|done]; by vm_compute in Et).
    rewrite Et, Ec. unfold Fake._mac at 1. rewrite hex_ascii, String.eqb_refl, Ed, Ef. done.
Qed.

(** The parts of a header, read from the left *)
Lemma scan_spec parts stamp candidates r :
  let read key := omap (λ part, match partition "="%char (strip part) with
                                | (k, Some v) => if String.eqb k key then Some v else None
                                | _ => None
                                end) parts in
  Stripe.scan parts stamp candidates = Ok r ↔
  Forall (λ v, py_int v ≠ None) (read "t") ∧ r = (match last (read "t") with Some v => py_int v | None => stamp end, candidates ++ read "v1").
Proof.
  cbv zeta. revert stamp candidates. induction parts as [|part parts IH]; intros stamp candidates; cbn [Stripe.scan omap list_omap].
  { rewrite app_nil_r. split; [by intros [= <-]|by intros [_ ->]]. }
  destruct (partition _ _) as [key [value|]]; [|apply IH].
  destruct (String.eqb_spec key "t") as [->|Hk].
  - cbn [String.eqb Ascii.eqb Bool.eqb]. rewrite Forall_cons. destruct (py_int value) as [z|] eqn:Ez; [|split; [done|by intros [[] _]]].
    rewrite IH. destruct (last (omap _ parts)) as [v|] eqn:El.
    + rewrite last_cons, El. split; [by intros [? ->]|by intros [[_ ?] ->]].
    + rewrite last_cons, El, Ez. split; [by intros [? ->]|by intros [[_ ?] ->]].
  - destruct (String.eqb_spec key "v1") as [->|]; rewrite IH; [|done]. by rewrite <-app_assoc.
Qed.

Lemma matched_spec {A} (f : A → bool) xs b : foldl (λ matched x, matched || f x) b xs = true ↔ b = true ∨ ∃ x, x ∈ xs ∧ f x = true.
Proof.
  revert b. induction xs as [|x xs IH]; intros b; cbn [foldl].
  - split; [by left|]. intros [?|(x & Hx & _)]; [done|by apply not_elem_of_nil in Hx].
  - rewrite IH, orb_true_iff. split.
    + intros [[?|Hx]|(y & Hy & Hf)]; [by left|right; exists x|right; exists y]; (split; [|done]); [left|by right].
    + intros [?|(y & Hy & Hf)]; [by left; left|]. apply elem_of_cons in Hy as [->|Hy]; [by left; right|right; by exists y].
Qed.

Lemma stripe_verify_spec p now headers body :
  Stripe._verify p now headers body = Ok () ↔ signed (StripeAdapter p) now headers body.
Proof.
  unfold Stripe._verify. cbn [signed].
  assert (Hscan : ∀ header r, Stripe.scan (split_on comma header) None [] = Ok r ↔
    Forall (λ v, py_int v ≠ None) (under "t" header) ∧ r = (last (under "t" header) ≫= py_int, under "v1" header)).
  { intros header r. rewrite scan_spec. fold (under "t" header). fold (under "v1" header). by destruct (last (under "t" header)). }
  split.
  - destruct (dict_get _ headers) as [header|] eqn:Eh; [|done]. destruct (nonempty header); [|done]. cbn [negb].
    destruct (Stripe.scan _ _ _) as [[st cs]|] eqn:Es; [|done]. cbn [rbind]. apply Hscan in Es as [Hall [= -> ->]].
    destruct (last (under "t" header) ≫= py_int) as [stamp|] eqn:El; [|done]. destruct (under "v1" header) as [|c cs] eqn:Ev; [done|].
    destruct (foldl _ _ _) eqn:Em; [|done]. apply matched_spec in Em as [?|(x & Hx & Ex)]; [done|].
    apply String.eqb_eq, encode_inj in Ex as ->. cbn [negb].
    destruct (sub_int now stamp) as [d|] eqn:Ed; [|done]. destruct (fgt _ _) eqn:Ef; [done|]. intros _.
    exists header, stamp, d. unfold stamped. rewrite El, Ev. done.
  - intros (header & stamp & d & -> & [Hall El] & Hin & Ed & Ef).
    assert (nonempty header = true) as -> by (destruct header; [|done]; by vm_compute in El). cbn [negb].
    assert (Stripe.scan (split_on comma header) None [] = Ok (Some stamp, under "v1" header)) as -> by (apply Hscan; by rewrite El).
    cbn [rbind]. destruct (under "v1" header) as [|c cs] eqn:Ev; [by apply not_elem_of_nil in Hin|].
    match goal with |- context [negb ?m] => assert (m = true) as -> end.
    { apply matched_spec. right. eexists. split; [exact Hin|]. apply String.eqb_refl. }
    by rewrite Ed, Ef.
Qed.

Lemma matches_spec keys candidates content :
  Polar.matches keys candidates content = true ↔ ∃ key, key ∈ keys ∧ hmac_sha256 key content ∈ candidates.
Proof.
  unfold Polar.matches.
  assert (H : ∀ b, foldl (λ matched key, let expected := hmac_sha256 key content in
      foldl (λ matched candidate, matched || String.eqb expected candidate) matched candidates) b keys = true ↔
    b = true ∨ ∃ key, key ∈ keys ∧ hmac_sha256 key content ∈ candidates).
  { induction keys as [|key keys IH]; intros b; cbn [foldl].
    - split; [by left|]. intros [?|(x & Hx & _)]; [done|by apply not_elem_of_nil in Hx].
    - rewrite IH, matched_spec. split.
      + intros [[?|(c & Hc & <-%String.eqb_eq)]|(k & Hk & Hin)]; [by left|right; exists key|right; exists k]; (split; [|done]); [left|by right].
      + intros [?|(k & Hk & Hin)]; [by left; left|]. apply elem_of_cons in Hk as [->|Hk]; [left; right|right; by exists k].
        exists (hmac_sha256 key content). split; [done|apply String.eqb_refl]. }
  rewrite H. split; [by intros [?|?]|by right].
Qed.

Lemma polar_verify_spec p now headers body :
  Polar._verify p now headers body = Ok () ↔ signed (PolarAdapter p) now headers body.
Proof.
  unfold Polar._verify. cbn [signed].
  assert (Hg : ∀ h v, Polar.given h = Some v ↔ h = Some v ∧ nonempty v = true).
  { intros [h|] v; cbn; [|by split; [|intros [? _]]]. destruct (nonempty h) eqn:E; split; [by intros [= <-]|by intros [[= <-] _]|done|].
    intros [[= <-] ?]. congruence. }
  split.
  - destruct (Polar.given (dict_get "webhook-id" _)) as [i|] eqn:Ei; [|done]. apply Hg in Ei as [-> Ni].
    destruct (Polar.given (dict_get "webhook-timestamp" _)) as [t|] eqn:Et; [|done]. apply Hg in Et as [-> Nt].
    destruct (Polar.given (dict_get "webhook-signature" _)) as [s|] eqn:Es; [|done]. apply Hg in Es as [-> Ns].
    destruct (py_float t) as [stamp|] eqn:Ep; [|done]. destruct (ffinite stamp) eqn:Ef; [|done]. cbn [negb].
    case_bool_decide; [done|]. destruct (negb _ || _ || _) eqn:E; [done|]. intros _.
    apply orb_false_iff in E as [[E1%negb_false_iff E2]%orb_false_iff E3]. apply matches_spec in E1 as (key & Hk & Hin).
    by exists i, t, s, stamp, key.
  - intros (i & t & s & stamp & key & Ei & Et & Es & Ni & Nt & Ns & Ep & Ef & Hk & Hin & E2 & E3).
    assert (Polar.given (dict_get "webhook-id" headers) = Some i) as -> by by apply Hg.
    assert (Polar.given (dict_get "webhook-timestamp" headers) = Some t) as -> by by apply Hg.
    assert (Polar.given (dict_get "webhook-signature" headers) = Some s) as -> by by apply Hg.
    rewrite Ep, Ef. cbn [negb]. rewrite bool_decide_false by (intros H; rewrite H in Hin; by apply not_elem_of_nil in Hin).
    assert (Polar.matches (Polar._keys p) (Polar.candidates_of s) (Polar.signed_content i stamp body) = true) as -> by (apply matches_spec; by exists key).
    by rewrite E2, E3.
Qed.

(** The properties of the payment providers' adapters and of the webhook endpoint, each with a
    concrete instance. *)

(** ** What a delivery has to say for money to move *)

(** A payment that was made or returned whole, in the words of each provider *)
Definition pays (a : Provider) (data : list (string * json)) : Prop :=
  match a with
  | FakeAdapter _ => Fake.type_text (jget "type" data) ∈ ["purchase.completed"; "subscription.period_started"; "payment.refunded"]
  | StripeAdapter _ => ∃ raw_type inner obj,
      jget "type" data = JStr raw_type ∧ jget "data" data = JObj inner ∧ jget "object" inner = JObj obj ∧
      (raw_type ∈ Stripe._PAID ∧ jget "mode" obj = JStr "payment" ∧ jget "payment_status" obj = JStr "paid" ∨
       raw_type = "charge.refunded" ∧ jget "refunded" obj = JBool true)
  | PolarAdapter _ => ∃ raw_type obj,
      jget "type" data = JStr raw_type ∧ jget "data" data = JObj obj ∧
      (raw_type = "order.paid" ∧ jget "billing_reason" obj = JStr "purchase" ∧ jget "status" obj = JStr "paid" ∨
       raw_type = "order.refunded" ∧ jget "status" obj = JStr "refunded")
  end.

Definition moves_money (k : EventKind) : Prop := k ∈ Webhooks._PAID ∨ k = PAYMENT_REFUNDED.

Lemma moves_cases k : moves_money k ↔ k ∈ [CREDITS_PURCHASED; SUBSCRIPTION_PERIOD_STARTED; PAYMENT_REFUNDED].
Proof. unfold moves_money, Webhooks._PAID. set_solver. Qed.

Lemma text_of_Some j s : text_of j = Some s → j = JStr s.
Proof. destruct j; cbn; try done. destruct (nonempty _); [by intros [= ->]|done]. Qed.

(** A decision of the goal or of a hypothesis about a kind that is known *)
Ltac no_money := let H := fresh in intros H; by apply moves_cases, (bool_decide_pack (_ ∈ _)) in H.

Lemma stripe_pays raw_type obj : moves_money (Stripe._normalize raw_type obj).1.1.1.1.1 →
  raw_type ∈ Stripe._PAID ∧ jget "mode" obj = JStr "payment" ∧ jget "payment_status" obj = JStr "paid" ∨
  raw_type = "charge.refunded" ∧ jget "refunded" obj = JBool true.
Proof.
  unfold Stripe._normalize. case_bool_decide as Hp.
  - destruct (bool_decide_reflect (jget "mode" obj ≠ JStr "payment")) as [|Hm]; [no_money|].
    destruct (bool_decide_reflect (jget "payment_status" obj ≠ JStr "paid")) as [|Hs]; [no_money|].
    intros _. left. split_and!; [done|by apply dec_stable..].
  - destruct (String.eqb_spec raw_type "charge.refunded") as [->|].
    + case_bool_decide; [by right|no_money].
    + case_bool_decide; [|no_money]. destruct (String.eqb _ _); no_money.
Qed.

Lemma polar_pays raw_type obj : moves_money (Polar._normalize raw_type obj).1.1.1.1.1 →
  raw_type = "order.paid" ∧ jget "billing_reason" obj = JStr "purchase" ∧ jget "status" obj = JStr "paid" ∨
  raw_type = "order.refunded" ∧ jget "status" obj = JStr "refunded".
Proof.
  unfold Polar._normalize. destruct (String.eqb_spec raw_type "order.paid") as [->|].
  - destruct (bool_decide_reflect (jget "billing_reason" obj ≠ JStr "purchase")) as [|Hm]; [no_money|].
    destruct (bool_decide_reflect (jget "status" obj ≠ JStr "paid")) as [|Hs]; [no_money|].
    intros _. left. split_and!; [done|by apply dec_stable..].
  - destruct (String.eqb_spec raw_type "order.refunded") as [->|]; [|no_money].
    match goal with |- context [if ?b then _ else _] => destruct b end; [no_money|].
    case_bool_decide; [by right|no_money].
Qed.

Section route.
Context (json_loads : string → option json) (fromisoformat : string → option datetime).

(** What an adapter makes of a delivery: it was signed, and it is one event. *)
Lemma parsed_delivery a now headers body evs :
  parse_webhook json_loads fromisoformat a now headers body = Ok evs →
  signed a now (lowered headers) body ∧
  ∃ ev data, evs = [ev] ∧ json_loads body = Some (JObj data) ∧ (moves_money (ev_kind ev) → pays a data).
Proof.
  destruct a as [secret|p|p]; cbn [parse_webhook].
  - unfold Fake.parse_webhook. destruct (Fake._verify _ _ _ _) as [[]|] eqn:Ev; [|done]. cbn [rbind].
    destruct (json_loads body) as [[]|] eqn:Ej; try done. destruct (jget "id" l) as [| | | |eid| |] eqn:Ei; try done.
    destruct (nonempty eid); [|done]. intros [= <-]. split; [by apply fake_verify_spec|]. eexists _, l. split_and!; [done..|].
    cbn [ev_kind pays]. unfold Fake._KINDS. cbn [dict_get].
    generalize (Fake.type_text (jget "type" l)); intros t.
    repeat match goal with |- context [bool_decide (?x = t)] => destruct (bool_decide_reflect (x = t)) as [<-|] end; first [no_money|intros _; set_solver].
  - unfold Stripe.parse_webhook. destruct (Stripe._verify _ _ _ _) as [[]|] eqn:Ev; [|done]. cbn [rbind].
    destruct (json_loads body) as [[]|] eqn:Ej; try done. unfold Stripe.object_of.
    destruct (jget "data" l) as [| | | | | |inner] eqn:Ed; try (destruct (truthy _); [done|cbn [rbind]; by repeat case_match]).
    cbn [rbind]. destruct (text_of (jget "id" l)) as [id|]; [|done]. destruct (text_of (jget "type" l)) as [raw|] eqn:Et; [|done].
    apply text_of_Some in Et. destruct (jget "object" inner) as [| | | | | |obj] eqn:Eo; try done. intros [= <-].
    split; [by apply stripe_verify_spec|]. eexists _, l. split_and!; [done..|].
    intros Hk. exists raw, inner, obj. split_and!; [done..|]. apply stripe_pays. revert Hk. unfold Stripe.event_of.
    by destruct (Stripe._normalize raw obj) as [[[[[]]]]].
  - unfold Polar.parse_webhook. destruct (Polar._verify _ _ _ _) as [[]|] eqn:Ev; [|done]. cbn [rbind].
    destruct (json_loads body) as [[]|] eqn:Ej; try done. destruct (text_of (jget "type" l)) as [raw|] eqn:Et; [|done].
    apply text_of_Some in Et. destruct (jget "data" l) as [| | | | | |obj] eqn:Eo; try done.
    destruct (_ <? _)%nat; [done|]. pose proof (polar_pays raw obj) as Hp.
    destruct (Polar._normalize raw obj) as [[[[[kind c] pr] pa] am] cu]. intros [= <-].
    split; [by apply polar_verify_spec|]. eexists _, l. split_and!; [done..|].
    intros Hk. exists raw, obj. split_and!; [done..|]. by apply Hp.
Qed.

(** What was read fits, and is what came. *)
Lemma read_chunks_ok cap size chunks body : read_chunks cap size chunks = Ok body →
  (size + String.length body ≤ cap ∨ chunks = [])%nat ∧ ∃ texts, chunks = Ok <$> texts ∧ body = join "" texts.
Proof.
  revert size body. induction chunks as [|[chunk|] chunks IH]; intros size body; cbn [read_chunks]; [|..|done].
  - intros [= <-]. split; [by right|]. by exists [].
  - destruct (Nat.ltb_spec cap (size + String.length chunk)); [done|].
    destruct (read_chunks _ _ chunks) as [rest|] eqn:E; [|done]. intros [= <-]. destruct (IH _ _ E) as [Hsize (texts & -> & ->)].
    split; [left; rewrite str_length_app; destruct Hsize as [?| ->%fmap_nil_inv]; [lia|cbn; lia]|].
    exists (chunk :: texts). split; [done|]. destruct texts; [by rewrite str_app_nil|done].
Qed.

Lemma read_capped_ok cap headers chunks body : _read_capped cap headers chunks = Ok body →
  (String.length body ≤ cap)%nat ∧ ∃ texts, chunks = Ok <$> texts ∧ body = join "" texts.
Proof.
  assert (H : read_chunks cap 0 chunks = Ok body → (String.length body ≤ cap)%nat ∧ ∃ texts, chunks = Ok <$> texts ∧ body = join "" texts).
  { intros [Hs (texts & -> & ->)]%read_chunks_ok. split; [|by exists texts]. destruct Hs as [?|H]; [lia|]. apply fmap_nil_inv in H as ->. cbn. lia. }
  unfold _read_capped. destruct (isdigit _); [|done]. destruct (py_int _); [|done]. by destruct (_ <? _)%Z.
Qed.

(** What the endpoint does: it refuses and changes nothing, or it passes on one event of a signed
    delivery and answers by its outcome. *)
Lemma received_cases hold max cap configured now provider headers chunks cfg t e w :
  reachable cfg t (w_db w) →
  let got := receive_webhook json_loads fromisoformat hold max cap configured now provider headers chunks e w in
  (w_db (snd got) = w_db w ∧ ∀ r, fst got = Ok r → status_code r ∈ [404; 413; 400]%Z) ∨
  ∃ a body ev data o, dict_get provider configured = Some a ∧ _read_capped cap headers chunks = Ok body ∧
    signed a now (lowered headers) body ∧ parse_webhook json_loads fromisoformat a now headers body = Ok [ev] ∧
    json_loads body = Some (JObj data) ∧ (moves_money (ev_kind ev) → pays a data) ∧
    process_event hold max ev e w = (Ok o, snd got) ∧
    fst got = Ok (if bool_decide (o = Ofailed) then refused 500 else if bool_decide (o = Oretry) then refused 503 else mkJSON 200 (Some 1%nat)).
Proof.
  intros Hr got. unfold got, receive_webhook. clear got.
  destruct (dict_get provider configured) as [a|] eqn:Ea; [|left; split; [done|intros r [= <-]; set_solver]].
  destruct (_read_capped cap headers chunks) as [body|[|cls]] eqn:Eb; [|left; split; [done|intros r [= <-]; set_solver]|by left].
  destruct (parse_webhook _ _ a now headers body) as [evs|[| |cls]] eqn:Ep; [|left; split; [done|intros r [= <-]; set_solver]..|by left].
  right. destruct (parsed_delivery a now headers body evs Ep) as [Hs (ev & data & -> & Ej & Hm)].
  destruct (deliver hold max cfg t ev e w Hr) as (o & Ho & _).
  exists a, body, ev, data, o. cbn [process_events]. unfold mbind, M_bind, mret, M_ret.
  destruct (process_event hold max ev e w) as [r w'] eqn:E. cbn [fst] in Ho. subst r. cbn [fst snd].
  split_and!; [done..|]. f_equal. rewrite (bool_decide_ext (Ofailed ∈ [o]) (o = Ofailed)) by set_solver.
  by rewrite (bool_decide_ext (Oretry ∈ [o]) (o = Oretry)) by set_solver.
Qed.

(** C31: the webhook endpoint moves money only for signed payments. Whatever anybody sends to it
    and whatever fails, the tables change only if the path names a configured provider, the body
    fits, and the delivery carries a signature of exactly that body by that provider's secret
    that is not too old; and the wallet changes only if that body then says that a one-time
    purchase was paid, or that a payment was returned whole. *)
Theorem money_moves_only_for_signed_payments hold max cap configured now provider headers chunks cfg t e w :
  reachable cfg t (w_db w) →
  let d := w_db w in
  let d' := w_db (snd (receive_webhook json_loads fromisoformat hold max cap configured now provider headers chunks e w)) in
  d' = d ∨ ∃ a body data, dict_get provider configured = Some a ∧ _read_capped cap headers chunks = Ok body ∧ (String.length body ≤ cap)%nat ∧
    signed a now (lowered headers) body ∧ json_loads body = Some (JObj data) ∧ (same_wallet d d' ∨ pays a data).
Proof.
  intros Hr d d'. destruct (received_cases hold max cap configured now provider headers chunks cfg t e w Hr) as
    [[H _]|(a & body & ev & data & o & Ea & Eb & Hs & Ep & Ej & Hm & Hev & _)]; [by left|].
  right. exists a, body, data. split_and!; [done..|by eapply read_capped_ok|done|done|]. unfold d, d'.
  destruct (deliver hold max cfg t ev e w Hr) as (o' & _ & Hd). rewrite Hev in Hd. cbn [snd] in Hd.
  destruct (delivered_wallet _ _ _ _ _ Hd) as [|(n & o2 & dm & He & Hsame & _)]; [by left|].
  destruct (process_effect_wallet _ _ _ _ _ He) as [Hs'|(_ & _ & tn & _ & d1 & d2 & _ & _ & Hk)]; [left; by etrans|].
  right. apply Hm. destruct Hk as [(? & ? & ? & ? & ? & ? & ? & _ & Hk & _)|(? & ? & ? & ? & ? & ? & Hk & _)]; [by left|by right].
Qed.

(** C10: a delivery that is answered for is settled. When the endpoint answers 200, the one event
    of the delivery has a row in the inbox that nobody has to come back to; when its application
    failed or has to wait, the answer is 500 or 503, so that the provider delivers again; every
    other answer leaves the tables as they were. *)
Theorem answered_deliveries_are_settled hold max cap configured now provider headers chunks cfg t e w r w' :
  reachable cfg t (w_db w) →
  receive_webhook json_loads fromisoformat hold max cap configured now provider headers chunks e w = (Ok r, w') →
  (status_code r = 200%Z ∧ ∃ a body ev, dict_get provider configured = Some a ∧
     parse_webhook json_loads fromisoformat a now headers body = Ok [ev] ∧ settled ev (w_db w')) ∨
  (status_code r ∈ [500; 503]%Z ∧ ∃ ev o, process_event hold max ev e w = (Ok o, w') ∧ o ∈ [Ofailed; Oretry]) ∨
  (status_code r ∈ [404; 413; 400]%Z ∧ w_db w' = w_db w).
Proof.
  intros Hr E. pose proof (received_cases hold max cap configured now provider headers chunks cfg t e w Hr) as Hc. rewrite E in Hc. cbn [fst snd] in Hc.
  destruct Hc as [[H H']|(a & body & ev & data & o & Ea & Eb & Hs & Ep & Ej & Hm & Hev & [= ->])]; [right; right; eauto|].
  destruct (reachable_sound _ _ _ Hr) as [[Hwf _] _]. pose proof (process_event_settles e (w_db w) hold max ev Hwf w eq_refl) as Hst. rewrite Hev in Hst.
  case_bool_decide as Hf; [right; left; split; [set_solver|exists ev, o; set_solver]|].
  case_bool_decide as Ht; [right; left; split; [set_solver|exists ev, o; set_solver]|].
  left. split; [done|]. exists a, body, ev. split_and!; [done..|]. destruct Hst as [Ho|]; [|done]. set_unfold in Ho. intuition.
Qed.
End route.

(** ** A paid checkout session, signed *)

Module Till.
Definition body : string := dumps (JObj [
  ("id", JStr "evt_1"); ("type", JStr "checkout.session.completed"); ("created", JInt 1000);
  ("data", JObj [("object", JObj [
     ("mode", JStr "payment"); ("payment_status", JStr "paid"); ("customer", JStr "cus_1"); ("payment_intent", JStr "pay_1");
     ("amount_total", JInt 500); ("currency", JStr "usd"); ("metadata", JObj [("product_ref", JStr "pack")])])])]).
Definition adapter : Provider := StripeAdapter (Stripe.mkStripe "whsec_1" 300 "").
Definition configured : list (string * Provider) := [("stripe", adapter)].
Definition now : float := float_of_int 1010.
Definition headers (mac : string) : list (string * string) := [("stripe-signature", "t=1000,v1=" +:+ mac)].
Definition right : string := Stripe._mac "whsec_1" 1000 body.
Definition handled (mac : string) : result exn response * world :=
  receive_webhook loads (λ _, None) 24 5 4096 configured now "stripe" (headers mac) [Ok body] Shop.env0 Shop.linked_world.

Example forged : fst (handled (Stripe._mac "whsec_2" 1000 body)) = Ok (refused 400).
Proof. vm_compute. reflexivity. Qed.
Example paid : balance_of "acme" 1000 (w_db (snd (handled right))) = (true, Balance 500000000 500000000 0).
Proof. vm_compute. reflexivity. Qed.

(** A signed body whose [data] is a text raises, and so does a fake signature with a character that is not ASCII. *)
Definition odd : string := dumps (JObj [("id", JStr "evt_2"); ("type", JStr "checkout.session.completed"); ("data", JStr "x")]).
Example odd_data_raises :
  parse_webhook loads (λ _, None) adapter now (headers (Stripe._mac "whsec_1" 1000 odd)) odd = Err (Raised "AttributeError").
Proof. vm_compute. reflexivity. Qed.
Example odd_signature_raises :
  parse_webhook loads (λ _, None) (FakeAdapter "s") now [("x-fake-signature", "t=1000,v1=" +:+ String (ascii_of_N 233) "")] body = Err (Raised "TypeError").
Proof. vm_compute. reflexivity. Qed.
End Till.

Lemma money_moves_only_for_signed_payments_witness :
  balance_of "acme" 1000 (w_db (snd (Till.handled Till.right))) = (true, Balance 500000000 500000000 0) ∧
  (w_db (snd (Till.handled Till.right)) = w_db Shop.linked_world ∨
   ∃ a body data, dict_get "stripe" Till.configured = Some a ∧ _read_capped 4096 (Till.headers Till.right) [Ok Till.body] = Ok body ∧
     (String.length body ≤ 4096)%nat ∧ signed a Till.now (lowered (Till.headers Till.right)) body ∧ loads body = Some (JObj data) ∧
     (same_wallet (w_db Shop.linked_world) (w_db (snd (Till.handled Till.right))) ∨ pays a data)).
Proof.
  split; [vm_compute; reflexivity|].
  exact (money_moves_only_for_signed_payments loads (λ _, None) 24 5 4096 Till.configured Till.now "stripe" (Till.headers Till.right) [Ok Till.body]
    Shop.cfg 1000 Shop.env0 Shop.linked_world Shop.reachable_linked).
Defined.

Lemma answered_deliveries_are_settled_witness :
  let r := mkJSON 200 (Some 1%nat) in
  (status_code r = 200%Z ∧ ∃ a body ev, dict_get "stripe" Till.configured = Some a ∧
     parse_webhook loads (λ _, None) a Till.now (Till.headers Till.right) body = Ok [ev] ∧ settled ev (w_db (snd (Till.handled Till.right)))) ∨
  (status_code r ∈ [500; 503]%Z ∧ ∃ ev o, process_event 24 5 ev Shop.env0 Shop.linked_world = (Ok o, snd (Till.handled Till.right)) ∧ o ∈ [Ofailed; Oretry]) ∨
  (status_code r ∈ [404; 413; 400]%Z ∧ w_db (snd (Till.handled Till.right)) = w_db Shop.linked_world).
Proof.
  refine (answered_deliveries_are_settled loads (λ _, None) 24 5 4096 Till.configured Till.now "stripe" (Till.headers Till.right) [Ok Till.body]
    Shop.cfg 1000 Shop.env0 Shop.linked_world (mkJSON 200 (Some 1%nat)) (snd (Till.handled Till.right)) Shop.reachable_linked _).
  vm_compute. reflexivity.
Defined.

(** ** What counts as signed *)

Definition _verify (a : Provider) (now : float) (headers : list (string * string)) (body : string) : result parse_error () :=
  match a with
  | FakeAdapter secret => Fake._verify secret now headers body
  | StripeAdapter p => Stripe._verify p now headers body
  | PolarAdapter p => Polar._verify p now headers body
  end.

(** C18: the checks of signatures are exact. Each adapter accepts a delivery if and only if one of
    the signatures offered under the provider's current scheme is the HMAC-SHA256, under one of
    its keys, of the stamp and exactly that body, and the stamp is within the provider's
    tolerance of the clock. *)
Theorem signature_checks_are_exact a now headers body : _verify a now headers body = Ok () ↔ signed a now headers body.
Proof. destruct a; [apply fake_verify_spec|apply stripe_verify_spec|apply polar_verify_spec]. Qed.

(** ** Checkout *)

Section checkout.
Context (is_http_error : exc → bool).

Lemma path_sent {R} who (c : Providers.cmd R) tr out : path (sent is_http_error who (call c)) tr out →
  ∃ r, tr = [Step c r] ∧ match r with
    | Ok v => out = Ok (Ok v)
    | Err e => if is_http_error e then ∃ x, out = Ok (Err x) else out = Err e
    end.
Proof.
  unfold sent. rewrite path_catch. intros [(a & H & ->)|(e & tr1 & tr2 & H & Hh & ->)].
  - apply path_bind in H as [(v & tr1 & tr2 & ->%path_call & [-> [= ->]] & ->)|(e & _ & [=])]. by exists (Ok v).
  - apply path_bind in H as [(v & ? & ? & _ & [_ [=]] & _)|(e' & ->%path_call & [= ->])].
    exists (Err e'). destruct (is_http_error e'); destruct Hh as [-> ->]; split; [done|eauto|done..].
Qed.

(** A listed session of this attempt that can still be paid, or was *)
Definition alive (key : string) (item : json) : bool :=
  match item with
  | JObj l =>
      match jget "metadata" l with
      | JObj metadata => bool_decide (jget Polar.ATTEMPT_KEY metadata = JStr key) && negb (bool_decide (jget "status" l ∈ [JStr "expired"; JStr "failed"]))
      | _ => false
      end
  | _ => false
  end.

Lemma find_attempt_spec key items :
  match Polar.find_attempt key items with
  | Ok None => Forall (λ i, alive key i = false) items
  | Ok (Some session) => ∃ item, item ∈ items ∧ alive key item = true ∧ Polar._session item = Some session
  | Err _ => ∃ item, item ∈ items ∧ alive key item = true
  end.
Proof.
  induction items as [|item items IH]; cbn [Polar.find_attempt]; [constructor|].
  assert (Hskip : alive key item = false →
    match Polar.find_attempt key items with
    | Ok None => Forall (λ i, alive key i = false) (item :: items)
    | Ok (Some session) => ∃ i, i ∈ item :: items ∧ alive key i = true ∧ Polar._session i = Some session
    | Err _ => ∃ i, i ∈ item :: items ∧ alive key i = true
    end).
  { intros Ha. destruct (Polar.find_attempt key items) as [[session|]|e]; [|by constructor|].
    - destruct IH as (i & Hi & H). exists i. split; [by right|done].
    - destruct IH as (i & Hi & H). exists i. split; [by right|done]. }
  destruct item as [| | | | | |l]; try by apply Hskip. cbn [alive] in Hskip.
  destruct (jget "metadata" l) as [| | | | | |metadata] eqn:Em; try by apply Hskip.
  rewrite bool_decide_not. destruct (bool_decide (jget Polar.ATTEMPT_KEY metadata = JStr key)) eqn:Ek; cbn [negb]; [|by apply Hskip].
  destruct (bool_decide (jget "status" l ∈ _)) eqn:Es; [by apply Hskip|].
  assert (Ha : alive key (JObj l) = true) by (cbn [alive]; by rewrite Em, Ek, Es).
  destruct (Polar._session (JObj l)) as [session|] eqn:El; exists (JObj l); split_and!; [left|done..|left|done].
Qed.

Lemma find_attempt_path headers customer product key tr out :
  path (Polar._find_attempt is_http_error headers customer product key) tr out →
  ∃ params r, tr = [Step (Get "/checkouts/" params headers) r] ∧
    (∀ found, out = Ok (Ok found) → ∃ v items, r = Ok v ∧ rs_status v = 200%Z ∧ jget "items" (Polar._json v) = JList items ∧
       Polar.find_attempt key items = Ok found).
Proof.
  unfold Polar._find_attempt, Polar._send. rewrite path_bind.
  intros [(a & tr1 & tr2 & (r & -> & Hr)%path_sent & H & ->)|(e & (r & -> & Hr)%path_sent & ->)]; eexists _, r.
  2: by split.
  destruct r as [v|e]; [|destruct (is_http_error e); [destruct Hr as [x [= ->]]|done]; by destruct H as [-> ->]].
  injection Hr as ->. cbv iota in H. destruct (Z.eqb_spec (rs_status v) 200) as [Es|]; cbn [negb] in H; [|by destruct H as [-> ->]].
  destruct (jget "items" (Polar._json v)) as [| | | | |items|] eqn:Ei; destruct H as [-> ->]; (split; [done|]); intros found; [done..| |done].
  intros [= Hf]. by exists v, items.
Qed.

Definition is_post (s : step Providers.cmd) : bool := match st_cmd s with Post _ _ _ => true | _ => false end.

(** One attempt at a purchase is sent once. The Stripe adapter makes at most one request, and
    under the attempt's own key, for which Stripe keeps its answer. The Polar adapter, whose
    provider has no such keys, creates a session only after it was shown a list of the customer's
    sessions for the product in which none of this attempt can still be paid; otherwise it gives
    back one of this attempt that can, or an error. *)
Theorem purchase_attempt_is_sent_once customer product key success cancel tr out :
  (∀ p, path (Stripe.create_checkout is_http_error p customer product key success cancel) tr out →
     tr = [] ∨ ∃ headers r, ("Idempotency-Key", key) ∈ headers ∧
       tr = [Step (Post "/v1/checkout/sessions" (Form (Stripe.checkout_form customer product success cancel)) headers) r]) ∧
  (∀ p, path (Polar.create_checkout is_http_error p customer product key success cancel) tr out →
     let shown items := ∃ url params headers v, Step (Get url params headers) (Ok v) ∈ tr ∧ rs_status v = 200%Z ∧ jget "items" (Polar._json v) = JList items in
     (filter (λ s, is_post s = true) tr = [] ∧
        ∀ session, out = Ok (Ok session) → ∃ items item, shown items ∧ item ∈ items ∧ alive key item = true ∧ Polar._session item = Some session) ∨
     (∃ s items, filter (λ s, is_post s = true) tr = [s] ∧ shown items ∧ Forall (λ i, alive key i = false) items)).
Proof.
  split; intros p.
  - unfold Stripe.create_checkout. destruct (negb _); [intros [-> _]; by left|]. destruct (negb _); [intros [-> _]; by left|].
    intros H. right. eexists. apply path_bind in H as [(a & tr1 & tr2 & (r & -> & Hr)%path_sent & H & ->)|(e & (r & -> & Hr)%path_sent & ->)].
    + exists r. split; [right; left|]. assert (tr2 = []) as ->; [|done]. revert H. repeat case_match; by intros [-> _].
    + exists r. split; [right; left|done].
  - unfold Polar.create_checkout. cbv zeta. intros H.
    destruct (nonempty (Polar._token p)); cbn [negb] in H; [|destruct H as [-> ->]; by left].
    destruct (key_allowed key); cbn [negb] in H; [|destruct H as [-> ->]; by left].
    apply path_bind in H as [(a & tr1 & tr2 & (params & r & -> & Hf)%find_attempt_path & H & ->)|(e & (params & r & -> & Hf)%find_attempt_path & ->)];
      [|by left].
    destruct a as [[session|]|x]; [| |destruct H as [-> ->]; by left].
    + destruct (Hf (Some session) eq_refl) as (v & items & -> & Es & Ei & E). destruct H as [-> ->]. left. split; [done|]. intros ? [= <-].
      pose proof (find_attempt_spec key items) as Hsp. rewrite E in Hsp. destruct Hsp as (item & Hin & Ha & Hs).
      exists items, item. split_and!; [|done..]. eexists _, _, _, v. split_and!; [left|done..].
    + destruct (Hf None eq_refl) as (v & items & -> & Es & Ei & E). right.
      pose proof (find_attempt_spec key items) as Hsp. rewrite E in Hsp. cbv iota in H.
      unfold Polar._send in H. apply path_bind in H as [(a & tr1 & tr3 & (r & -> & Hr)%path_sent & H & ->)|(e & (r & -> & Hr)%path_sent & ->)].
      * eexists _, items. split_and!; [|by eexists _, _, _, v; split_and!; [left|..]|done].
        assert (tr3 = []) as -> by (revert H; repeat case_match; by intros [-> _]). done.
      * eexists _, items. split_and!; [done|by eexists _, _, _, v; split_and!; [left|..]|done].
Qed.
End checkout.

(** ** A customer who comes back to a dead session *)

Module Desk.
Definition buyer : BillingCustomer := mkCustomer "acme" "polar" "cus_1".
Definition pack : CreditProduct := Build_CreditProduct "polar" "prod_1" (Decimals.Fin false 100 0) None true.
Definition polar : Polar.PolarProvider := Polar.mkPolar ["secret"] 300 "https://sandbox-api.polar.sh/v1" "token".
Definition listing : json := JObj [("items", JList [JObj [
  ("metadata", JObj [(Polar.ATTEMPT_KEY, JStr "buy-1")]); ("status", JStr "expired"); ("id", JStr "ch_1"); ("url", JStr "https://polar/1")]])].
Definition made : json := JObj [("id", JStr "ch_2"); ("url", JStr "https://polar/2")].
Definition reply (n : nat) R (c : Providers.cmd R) : result exc R * nat :=
  (match c in Providers.cmd R return result exc R with
   | Get _ _ _ => Ok (mkResponse 200 (Some listing))
   | Post _ _ _ => Ok (mkResponse 201 (Some made))
   end, S n).
Definition program : Providers.P (result CheckoutError CheckoutSession) :=
  Polar.create_checkout (λ _, true) polar buyer pack "buy-1" "https://ok" "https://no".
Definition trace : list (step Providers.cmd) := snd (fst (Process.run reply program O)).
Lemma desk_path : path program trace (Ok (Ok (mkCheckout "ch_2" "https://polar/2"))).
Proof. exact (run_path reply program O). Qed.
End Desk.

Lemma purchase_attempt_is_sent_once_witness :
  length (filter (λ s, is_post s = true) Desk.trace) = 1%nat ∧
  ((filter (λ s, is_post s = true) Desk.trace = [] ∧ ∀ session, Ok (E := exc) (Ok (E := CheckoutError) (mkCheckout "ch_2" "https://polar/2")) = Ok (Ok session) →
      ∃ items item, (∃ url params headers v, Step (Get url params headers) (Ok v) ∈ Desk.trace ∧ rs_status v = 200%Z ∧ jget "items" (Polar._json v) = JList items) ∧
        item ∈ items ∧ alive "buy-1" item = true ∧ Polar._session item = Some session) ∨
   ∃ s items, filter (λ s, is_post s = true) Desk.trace = [s] ∧
     (∃ url params headers v, Step (Get url params headers) (Ok v) ∈ Desk.trace ∧ rs_status v = 200%Z ∧ jget "items" (Polar._json v) = JList items) ∧
     Forall (λ i, alive "buy-1" i = false) items).
Proof.
  split; [vm_compute; reflexivity|].
  exact (proj2 (purchase_attempt_is_sent_once (λ _, true) Desk.buyer Desk.pack "buy-1" "https://ok" "https://no" Desk.trace
    (Ok (Ok (mkCheckout "ch_2" "https://polar/2")))) Desk.polar Desk.desk_path).
Defined.
