(* ===== verification/Keys.v ===== *)
(** The public keys a verifier trusts: [InternalKeys] of [app/core/internal_identity.py] and
    [JwksCache] of [app/mcp/gateway_auth.py], which are the same cache but for a grace period
    and for the errors they expect of a key set.

    The clock is a whole number of ticks.  The fields are only written under the cache's lock,
    and read in one step outside it, so the calls of many requests are one sequence of calls,
    each of which takes the fields and leaves new ones, also when it raises.  [jwt.PyJWK], the
    HTTP client and the classes of their exceptions are arguments.  Logs are left out. *)
From S2P Require Import Prelude Dict Json Process.

Local Open Scope string_scope.
Local Open Scope list_scope.

(** ** A monad of the cache: its fields, the commands, and exceptions as values *)

Section cache.
Context {key : Type}.

(** What [jwt.decode] is asked to hold a token to. *)
Record decode_options : Type := mkOptions {
  o_algorithms : list string;
  o_audience : string;
  o_issuer : string;
  o_leeway : Z;
  o_require : list string;
}.

Inductive cmd : Type → Type :=
| Clock : cmd Z                                                                       (* [time.monotonic] *)
| Fetch (url : string) : cmd json                                                     (* [get], [raise_for_status], [json] *)
| Jwt_decode (token : string) (k : key) (o : decode_options) : cmd (list (string * json))
| Count (counter label : string) : cmd ().

Record keys : Type := mkKeys {
  _keys : list (json * key);
  _fetched_at : option Z;
  _last_attempt : option Z;
}.

Definition no_keys : keys := mkKeys [] None None.

Definition K (A : Type) : Type := keys → prog cmd (result exc A * keys).

#[export] Instance K_ret : MRet K := λ A a s, Ret (Ok a, s).
#[export] Instance K_bind : MBind K := λ A B f m s,
  bind (m s) (λ '(r, s), match r with Ok a => f a s | Err e => Ret (Err e, s) end).
Definition kraise {A} (e : exc) : K A := λ s, Ret (Err e, s).
Definition klift {A} (r : result exc A) : K A := λ s, Ret (r, s).
Definition kcall {R} (c : cmd R) : K R := λ s, Do c (λ r, Ret (r, s)).
Definition kget : K keys := λ s, Ret (Ok s, s).
Definition kput (s : keys) : K () := λ _, Ret (Ok (), s).
(** [try: m], what it raised as a value *)
Definition ktry {A} (m : K A) : K (result exc A) := λ s, bind (m s) (λ '(r, s), Ret (Ok r, s)).

(** ** The cache *)

(** What differs between the two *)
Record variant : Type := mkVariant {
  url : string;
  ttl : Z;
  stale_grace : Z;
  min_refresh : Z;
  skips : list string;      (* the exceptions of one entry that leave the others *)
  catches : list string;    (* the exceptions of a fetch that leave the keys as they were *)
  needs_one : bool;         (* a set without a usable key is an error *)
  counts : bool;
}.

Context (isinstance : exc → list string → bool) (PyJWK : json → result exc key) (v : variant).

Definition _age (s : keys) (now : Z) : option Z := (λ t, now - t)%Z <$> _fetched_at s.
Definition _fresh (s : keys) (now : Z) : bool := match _age s now with Some age => (age <? ttl v)%Z | None => false end.
Definition _usable (s : keys) (now : Z) : bool := match _age s now with Some age => (age <? ttl v + stale_grace v)%Z | None => false end.

Definition KeyError : exc := Exc "KeyError" "".
Definition TypeError : exc := Exc "TypeError" "".
Definition KeysUnavailable : exc := Exc "KeysUnavailable" "".

(** [x["name"]] of a decoded JSON value *)
Definition subscript (name : string) (x : json) : result exc json :=
  match x with
  | JObj l => match dict_get name l with Some y => Ok y | None => Err KeyError end
  | _ => Err TypeError
  end.

(** [for x in value] of a decoded JSON value: a mapping gives its keys, a text its characters. *)
Definition iterate (value : json) : result exc (list json) :=
  match value with
  | JList l => Ok l
  | JObj l => Ok (JStr <$> l.*1)
  | JStr s => Ok ((λ a, JStr (String a "")) <$> String.list_ascii_of_string s)
  | _ => Err TypeError
  end.

(** A value that can be a key of a dict *)
Definition hashable (value : json) : result exc json :=
  match value with JList _ | JObj _ => Err TypeError | _ => Ok value end.

(** [keys[jwk["kid"]] = jwt.PyJWK(jwk)]: the right-hand side first *)
Definition entry (jwk : json) : result exc (json * key) :=
  rbind (PyJWK jwk) (λ k, rbind (subscript "kid" jwk) (λ kid, rbind (hashable kid) (λ kid, Ok (kid, k)))).

Fixpoint entries (jwks : list json) (acc : list (json * key)) : result exc (list (json * key)) :=
  match jwks with
  | [] => Ok acc
  | jwk :: jwks =>
      match entry jwk with
      | Ok (kid, k) => entries jwks (dict_set kid k acc)
      | Err e => if isinstance e (skips v) then entries jwks acc else Err e
      end
  end.

(** The keys of a fetched document *)
Definition read_keys (doc : json) : result exc (list (json * key)) :=
  rbind (subscript "keys" doc) (λ ks, rbind (iterate ks) (λ jwks, rbind (entries jwks []) (λ ks,
    if needs_one v && bool_decide (length ks = 0%nat) then Err (Exc "ValueError" "the key set has no usable key") else Ok ks))).

Definition count_refresh (outcome : string) : K () :=
  if counts v then kcall (Count "agent_api_identity_key_refresh_total" outcome) else mret ().

Definition _refresh (now : Z) : K () :=
  s ← kget;
  _ ← kput (mkKeys (_keys s) (_fetched_at s) (Some now));
  fetched ← ktry (doc ← kcall (Fetch (url v)); klift (read_keys doc));
  match fetched with
  | Err e => if isinstance e (catches v) then count_refresh "error" else kraise e
  | Ok ks =>
      t ← kcall Clock;
      s ← kget;
      _ ← kput (mkKeys ks (Some t) (_last_attempt s));
      count_refresh "ok"
  end.

(** The keys' own answer, when they are fresh *)
Definition held (s : keys) (now : Z) (kid : string) : option key := if _fresh s now then dict_get (JStr kid) (_keys s) else None.

Definition refresh_due (s : keys) (now : Z) : bool :=
  match _last_attempt s with None => true | Some t => (min_refresh v <=? now - t)%Z end.

Definition key_for (kid : string) : K (option key) :=
  now ← kcall Clock;
  s ← kget;
  match held s now kid with
  | Some k => mret (Some k)
  | None =>
      now ← kcall Clock;
      s ← kget;
      match held s now kid with
      | Some k => mret (Some k)
      | None =>
          _ ← (if refresh_due s now then _refresh now else mret ());
          now ← kcall Clock;
          s ← kget;
          if negb (_usable s now) then kraise KeysUnavailable else mret (dict_get (JStr kid) (_keys s))
      end
  end.
End cache.

Arguments cmd key : clear implicits.
Arguments keys key : clear implicits.
Arguments K key A : clear implicits.
