(* ===== verification/Identity.v ===== *)
(** Who is calling: [app/core/internal_identity.py], [app/api/identity.py], [app/api/deps.py] and
    the policy of [app/core/security.py].

    PyJWT ([get_unverified_header], [PyJWK], [decode]) is an argument or a command.  The checks of
    the settings at start and logs are left out. *)
From S2P Require Import Prelude Dict Json Text Messages AgentState Process Jobs Calendar Keys.

Local Open Scope string_scope.
Local Open Scope list_scope.

(** ** The verifier *)

Definition IDENTITY_TYP : string := "authlimit-identity+jwt".
Definition ISSUER : string := "urn:agent-core:authlimit".
Definition AUDIENCE : string := "agent-core-api".
Definition ALGORITHM : string := "EdDSA".
Definition MAX_TOKEN_CHARS : nat := 4096.

Definition OUTCOMES : list string := [
  "ok"; "missing"; "malformed"; "algorithm"; "type"; "unknown_kid"; "signature"; "expired"; "not_yet_valid";
  "issuer"; "audience"; "claims"; "unexpected"; "keys_unavailable"].

Definition _DECODE_OUTCOMES : list (string * string) := [
  ("ExpiredSignatureError", "expired");
  ("ImmatureSignatureError", "not_yet_valid");
  ("InvalidSignatureError", "signature");
  ("InvalidIssuerError", "issuer");
  ("InvalidAudienceError", "audience");
  ("MissingRequiredClaimError", "claims");
  ("InvalidSubjectError", "claims");
  ("InvalidIssuedAtError", "claims");
  ("InvalidJTIError", "claims");
  ("InvalidAlgorithmError", "algorithm")].

Record Identity : Type := mkIdentity { tenant : string; principal : string }.
Record Refusal : Type := mkRefusal { outcome : string; unavailable : bool }.

(** The key set of the front door *)
Definition internal_variant (url : string) (ttl grace min_refresh : Z) : variant :=
  mkVariant url ttl grace min_refresh ["PyJWTError"; "KeyError"; "TypeError"]
    ["HTTPError"; "JSONDecodeError"; "KeyError"; "TypeError"; "AttributeError"; "ValueError"] true true.

Section verifier.
Context {key : Type} (isinstance : exc → list string → bool) (PyJWK : json → result exc key).
Context (get_unverified_header : string → result exc (list (string * json))).
Context (v : variant) (leeway : Z).

Notation K := (Keys.K key).

Definition _refuse (outcome : string) (unavailable : bool) : K (Identity + Refusal) :=
  _ ← kcall (Count "agent_api_identity_total" outcome);
  mret (inr (mkRefusal outcome unavailable)).

Definition identity_options : decode_options :=
  mkOptions [ALGORITHM] AUDIENCE ISSUER leeway ["exp"; "nbf"; "iss"; "aud"; "sub"].

(** The outcome of the first class that fits *)
Definition decode_outcome (e : exc) : string :=
  match filter (λ p, isinstance e [p.1] = true) _DECODE_OUTCOMES with (_, o) :: _ => o | [] => "malformed" end.

(** A text that is not blank *)
Definition spoken (value : json) : option string := match value with JStr s => if is_blank s then None else Some s | _ => None end.

Definition claim (name : string) (claims : list (string * json)) : json := default JNull (dict_get name claims).

Definition _verify (token : option string) : K (Identity + Refusal) :=
  let token := default "" token in
  if negb (nonempty token) then _refuse "missing" false else
  if (MAX_TOKEN_CHARS <? String.length token)%nat then _refuse "malformed" false else
  match get_unverified_header token with
  | Err e => if isinstance e ["PyJWTError"] then _refuse "malformed" false else kraise e
  | Ok header =>
      if negb (bool_decide (claim "alg" header = JStr ALGORITHM)) then _refuse "algorithm" false else
      if negb (bool_decide (claim "typ" header = JStr IDENTITY_TYP)) then _refuse "type" false else
      match claim "kid" header with
      | JStr kid =>
          if negb (nonempty kid) then _refuse "unknown_kid" false else
          found ← ktry (key_for isinstance PyJWK v kid);
          match found with
          | Err e => if isinstance e ["KeysUnavailable"] then _refuse "keys_unavailable" true else kraise e
          | Ok None => _refuse "unknown_kid" false
          | Ok (Some k) =>
              decoded ← ktry (kcall (Jwt_decode token k identity_options));
              match decoded with
              | Err e => if isinstance e ["PyJWTError"] then _refuse (decode_outcome e) false else kraise e
              | Ok claims =>
                  match spoken (claim "tenant" claims), spoken (claim "sub" claims) with
                  | Some tenant, Some principal =>
                      _ ← kcall (Count "agent_api_identity_total" "ok");
                      mret (inl (mkIdentity tenant principal))
                  | _, _ => _refuse "claims" false
                  end
              end
          end
      | _ => _refuse "unknown_kid" false
      end
  end.

Definition verify (token : option string) : K (Identity + Refusal) :=
  verdict ← ktry (_verify token);
  match verdict with
  | Ok x => mret x
  | Err e => if base_exception e then kraise e else _refuse "unexpected" false
  end.

(** ** The answer of the API ([identity.py]) *)

Inductive AuthCode : Type := UNAUTHENTICATED | AUTH_UNAVAILABLE.

Definition refusal_for (r : Refusal) : AuthCode := if unavailable r then AUTH_UNAVAILABLE else UNAUTHENTICATED.

(** [AUTH_ERRORS], of the two codes the API answers with *)
Definition auth_status (c : AuthCode) : Z := match c with UNAUTHENTICATED => 401 | AUTH_UNAVAILABLE => 503 end.
Definition auth_headers (c : AuthCode) : list (string * string) :=
  if (auth_status c =? 401)%Z
  then [("WWW-Authenticate", "Bearer realm=" +:+ Json.dump_str "agent-core-api")] else [("Retry-After", "30")].

(** ** [deps.py] *)

(** What [get_ctx] gives or raises *)
Inductive caller : Type :=
| Known (ctx : SecurityCtx)
| MissingHeaders (absent : list string)
| Refused (code : AuthCode).

Definition get_ctx (auth_mode : string) (x_tenant_id x_principal_id x_internal_identity : option string) : K caller :=
  if String.eqb auth_mode "headers" then
    let absent := fst <$> filter (λ h, h.2 = None) [("x-tenant-id", x_tenant_id); ("x-principal-id", x_principal_id)] in
    mret (if negb (bool_decide (absent = [])) then MissingHeaders absent
          else Known (SecCtx (default "" x_tenant_id) (default "" x_principal_id)))
  else
    verdict ← verify x_internal_identity;
    match verdict with
    | inl i => mret (Known (SecCtx (tenant i) (principal i)))
    | inr r => mret (Refused (refusal_for r))
    end.
End verifier.

(** [app/domains/registry.py] *)
Definition DOMAINS : list string := ["ecorp"; "support"; "ops"; "sales"].

(** [get_domain]: [None] is the 422 it raises *)
Definition get_domain (x_domain : option string) : option string :=
  let x_domain := default "ecorp" x_domain in
  if bool_decide (x_domain ∈ DOMAINS) then Some x_domain else None.

(** ** What a caller may see ([security.py]) *)

Inductive scope_kind : Type := Sdocument | Smemory.
#[export] Instance scope_kind_eq_dec : EqDecision scope_kind.
Proof. solve_decision. Defined.

Record AccessScope : Type := mkScope {
  as_tenant : string;
  as_kind : scope_kind;
  as_owner : option string;
  as_created_after : option Z;
}.

Definition _KNOWN_ACTIONS : list string := ["search"; "write_note"; "recall_memory"; "write_memory"; "query_structured_data"].
Definition _TARGETS : list string := ["documents"; "memories"].

Definition permit (action : string) (ctx : option SecurityCtx) : bool :=
  if bool_decide (action ∉ _KNOWN_ACTIONS) then false else valid_ctx ctx.

(** [lower] at the time [now]: [None] is its [ValueError] *)
Definition lower (MEMORY_RETENTION_DAYS : Z) (ctx : SecurityCtx) (target : string) (now : Z) : option AccessScope :=
  if bool_decide (target ∉ _TARGETS) then None else
  if String.eqb target "documents" then Some (mkScope (sc_tenant ctx) Sdocument None None) else
  Some (mkScope (sc_tenant ctx) Smemory (Some (sc_principal ctx)) (Some (now - days MEMORY_RETENTION_DAYS)%Z)).
