(* ===== verification/McpAuth.v ===== *)
(** Who is calling the gateway of tools: [app/mcp/gateway_auth.py]. *)
From S2P Require Import Prelude Dict Json Text Messages AgentState Process Wire Keys Identity.

Local Open Scope string_scope.
Local Open Scope list_scope.

(** The key set of the authorization server: no grace, and a set may be empty. *)
Definition jwks_variant (url : string) (ttl min_refresh : Z) : variant :=
  mkVariant url ttl 0 min_refresh ["PyJWTError"; "KeyError"]
    ["HTTPError"; "JSONDecodeError"; "KeyError"; "TypeError"; "AttributeError"] false false.

Record AccessToken : Type := mkAccessToken {
  at_client_id : string;
  at_scopes : list string;
  at_expires_at : Z;
  at_resource : string;
  at_subject : string;
  at_claims : list (string * json);
}.

Section verifier.
Context {key : Type} (isinstance : exc → list string → bool) (PyJWK : json → result exc key).
Context (get_unverified_header : string → result exc (list (string * json))).
Context (v : variant) (server issuer audience : string) (algorithms : list string) (leeway : Z).

Notation K := (Keys.K key).

Definition _reject (outcome : string) : K (option AccessToken) :=
  _ ← kcall (Count "agent_mcp_gateway_requests_total" (server +:+ "," +:+ outcome));
  mret None.

(** [algorithm not in self._algorithms] *)
Definition allowed (algorithm : json) : option string :=
  match algorithm with JStr a => if bool_decide (a ∈ algorithms) then Some a else None | _ => None end.

(** The body of the [try]: the claims, or that the token was rejected. *)
Definition checked (token : string) : K (option (list (string * json))) :=
  match get_unverified_header token with
  | Err e => kraise e
  | Ok header =>
      match allowed (claim "alg" header), claim "kid" header with
      | Some algorithm, JStr kid =>
          if negb (nonempty kid) then _ ← _reject "invalid_token"; mret None else
          found ← key_for isinstance PyJWK v kid;
          match found with
          | None => _ ← _reject "invalid_token"; mret None
          | Some k =>
              claims ← kcall (Jwt_decode token k (mkOptions [algorithm] audience issuer leeway ["exp"; "iss"; "aud"; "sub"]));
              mret (Some claims)
          end
      | _, _ => _ ← _reject "invalid_token"; mret None
      end
  end.

Definition scopes_of (claims : list (string * json)) : list string :=
  match default (JStr "") (dict_get "scope" claims) with
  | JStr s => split s
  | JList l => omap (λ x, match x with JStr s => Some s | _ => None end) l
  | _ => []
  end.

(** [str(claims.get("azp") or claims.get("client_id") or "")] *)
Definition client_of (claims : list (string * json)) : string :=
  let azp := claim "azp" claims in
  let client := claim "client_id" claims in
  if truthy (Some azp) then py_str azp else if truthy (Some client) then py_str client else "".

(** [int(claims["exp"])], as [jwt.decode] has read it already *)
Definition expiry_of (claims : list (string * json)) : result exc Z :=
  match int_value (claim "exp" claims) with Some z => Ok z | None => Err (Exc "ValueError" "") end.

Definition verify_token (token : string) : K (option AccessToken) :=
  tried ← ktry (checked token);
  match tried with
  | Err e =>
      if isinstance e ["KeysUnavailable"] then _reject "jwks_unavailable" else
      if base_exception e then kraise e else _reject "invalid_token"
  | Ok None => mret None
  | Ok (Some claims) =>
      _ ← kcall (Count "agent_mcp_gateway_requests_total" (server +:+ "," +:+ "ok"));
      expires_at ← klift (expiry_of claims);
      mret (Some (mkAccessToken (client_of claims) (scopes_of claims) expires_at audience (py_str (claim "sub" claims)) claims))
  end.
End verifier.

(** ** Of the callers with a valid token, the tenants that may *)

(** [TenantGate]: whether the request goes on; a request that is no HTTP request or has no token does. *)
Definition gate (tenant_claim : string) (allowed_tenants : list string) (token : option AccessToken) : bool :=
  match token with
  | None => true
  | Some t => match claim tenant_claim (at_claims t) with JStr tenant => bool_decide (tenant ∈ allowed_tenants) | _ => false end
  end.
