(* ===== verification/IdentityTheorems.v ===== *)
(** What the cache of keys does call by call, and the properties of who the API and the gateway
    of tools take a caller for, each with a concrete instance. *)
From S2P Require Import Prelude Dict Json Process Keys Text Messages AgentState Wire Identity McpAuth.

Local Open Scope string_scope.
Local Open Scope list_scope.

(** ** Paths of its monad *)

Section paths.
Context {key : Type}.
Implicit Types (s : keys key) (tr : list (step (cmd key))).

Definition kpath {A} (m : K key A) s tr (r : result exc A) s' : Prop := path (m s) tr (Ok (r, s')).

Lemma kpath_ret {A} (a : A) s tr r s' : kpath (mret a) s tr r s' ↔ tr = [] ∧ r = Ok a ∧ s' = s.
Proof. unfold kpath. cbn. split; [by intros [-> [= -> ->]]|by intros (-> & -> & ->)]. Qed.
Lemma kpath_raise {A} e s tr (r : result exc A) s' : kpath (kraise e) s tr r s' ↔ tr = [] ∧ r = Err e ∧ s' = s.
Proof. unfold kpath. cbn. split; [by intros [-> [= -> ->]]|by intros (-> & -> & ->)]. Qed.
Lemma kpath_lift {A} (x : result exc A) s tr r s' : kpath (klift x) s tr r s' ↔ tr = [] ∧ r = x ∧ s' = s.
Proof. unfold kpath. cbn. split; [by intros [-> [= -> ->]]|by intros (-> & -> & ->)]. Qed.
Lemma kpath_get s tr r s' : kpath kget s tr r s' ↔ tr = [] ∧ r = Ok s ∧ s' = s.
Proof. unfold kpath. cbn. split; [by intros [-> [= -> ->]]|by intros (-> & -> & ->)]. Qed.
Lemma kpath_put t s tr r s' : kpath (kput t) s tr r s' ↔ tr = [] ∧ r = Ok () ∧ s' = t.
Proof. unfold kpath. cbn. split; [by intros [-> [= -> ->]]|by intros (-> & -> & ->)]. Qed.

Lemma kpath_call {R} (c : cmd key R) s tr r s' : kpath (kcall c) s tr r s' ↔ tr = [Step c r] ∧ s' = s.
Proof.
  unfold kpath, kcall. cbn. destruct tr as [|t tr]; [split; [done|by intros [? _]]|]. split.
  - by intros (x & -> & -> & [= -> ->]).
  - intros [[= -> ->] ->]. by exists r.
Qed.

Lemma kpath_bind {A B} (m : K key A) (f : A → K key B) s tr r s' :
  kpath (m ≫= f) s tr r s' ↔
  (∃ a tr1 tr2 s1, kpath m s tr1 (Ok a) s1 ∧ kpath (f a) s1 tr2 r s' ∧ tr = tr1 ++ tr2) ∨ (∃ e, kpath m s tr (Err e) s' ∧ r = Err e).
Proof.
  unfold kpath, mbind, K_bind. rewrite path_bind. split.
  - intros [([[a|e] s1] & tr1 & tr2 & H1 & H2 & ->)|(e & _ & [=])]; [left; by exists a, tr1, tr2, s1|].
    destruct H2 as [-> [= -> ->]]. right. exists e. by rewrite app_nil_r.
  - intros [(a & tr1 & tr2 & s1 & H1 & H2 & ->)|(e & H & ->)]; left; [by exists (Ok a, s1), tr1, tr2|].
    exists (Err e, s'), tr, []. by rewrite app_nil_r.
Qed.

Lemma kpath_try {A} (m : K key A) s tr r s' : kpath (ktry m) s tr r s' ↔ ∃ x, kpath m s tr x s' ∧ r = Ok x.
Proof.
  unfold kpath, ktry. rewrite path_bind. split.
  - intros [([x s1] & tr1 & tr2 & H1 & [-> [= -> ->]] & ->)|(e & _ & [=])]. exists x. by rewrite app_nil_r.
  - intros (x & H & ->). left. exists (x, s'), tr, []. by rewrite app_nil_r.
Qed.

Lemma kpath_if {A} (b : bool) (m n : K key A) s tr r s' : kpath (if b then m else n) s tr r s' ↔ if b then kpath m s tr r s' else kpath n s tr r s'.
Proof. by destruct b. Qed.
End paths.

(** Takes a path apart as far as its program is known. *)
Ltac kstep :=
  match goal with
  | H : kpath (mret _) _ _ (Err _) _ |- _ => by apply kpath_ret in H as (_ & [=] & _)
  | H : kpath (kraise _) _ _ (Ok _) _ |- _ => by apply kpath_raise in H as (_ & [=] & _)
  | H : kpath (mret _) _ _ (Ok _) _ |- _ => apply kpath_ret in H as (-> & [= ?] & ->); simplify_eq
  | H : kpath (kraise _) _ _ (Err _) _ |- _ => apply kpath_raise in H as (-> & [= ?] & ->); simplify_eq
  | H : kpath (mret _) _ _ _ _ |- _ => apply kpath_ret in H as (-> & -> & ->)
  | H : kpath (kraise _) _ _ _ _ |- _ => apply kpath_raise in H as (-> & -> & ->)
  | H : kpath (klift _) _ _ _ _ |- _ => apply kpath_lift in H as (-> & ? & ->)
  | H : kpath kget _ _ (Ok _) _ |- _ => apply kpath_get in H as (-> & [= ->] & ->)
  | H : kpath kget _ _ (Err _) _ |- _ => by apply kpath_get in H as (_ & [=] & _)
  | H : kpath (kput _) _ _ (Ok _) _ |- _ => apply kpath_put in H as (-> & _ & ->)
  | H : kpath (kput _) _ _ (Err _) _ |- _ => by apply kpath_put in H as (_ & [=] & _)
  | H : kpath (kcall _) _ _ _ _ |- _ => apply kpath_call in H as (-> & ->)
  | H : kpath (ktry _) _ _ _ _ |- _ => let E := fresh "E" in apply kpath_try in H as (? & H & E); simplify_eq
  | H : kpath (_ ≫= _) _ _ (Ok _) _ |- _ =>
      let H1 := fresh "H" in let H2 := fresh "H" in
      apply kpath_bind in H as [(? & ? & ? & ? & H1 & H2 & ->)|(? & _ & [=])]
  | H : kpath (_ ≫= _) _ _ (Err _) _ |- _ =>
      let H1 := fresh "H" in let H2 := fresh "H" in
      apply kpath_bind in H as [(? & ? & ? & ? & H1 & H2 & ->)|(? & H1 & [= ->])]
  | H : kpath (_ ≫= _) _ _ _ _ |- _ =>
      let H1 := fresh "H" in let H2 := fresh "H" in
      apply kpath_bind in H as [(? & ? & ? & ? & H1 & H2 & ->)|(? & H1 & ->)]
  end.

(** ** What a trace shows of the front door's documents *)

Section shown.
Context {key : Type}.
Implicit Types (s : step (cmd key)) (tr : list (step (cmd key))).

Definition doc_of s : option json :=
  match s with Step c r => match c in cmd _ R return result exc R → option json with
                           | Fetch _ => λ r, match r with Ok d => Some d | Err _ => None end
                           | _ => λ _, None
                           end r end.
Definition time_of s : option Z :=
  match s with Step c r => match c in cmd _ R return result exc R → option Z with
                           | Clock => λ r, match r with Ok t => Some t | Err _ => None end
                           | _ => λ _, None
                           end r end.
Definition is_fetch s : bool := match st_cmd s with Fetch _ => true | _ => false end.

(** The documents that came, each with the clock's next reading *)
Fixpoint fetched tr : list (json * Z) :=
  match tr with
  | s :: ((t :: _) as rest) => match doc_of s, time_of t with Some d, Some at_ => [(d, at_)] | _, _ => [] end ++ fetched rest
  | _ => []
  end.

(** The clock's readings right before a fetch *)
Fixpoint attempted tr : list Z :=
  match tr with
  | s :: ((t :: _) as rest) => match time_of s, is_fetch t with Some now, true => [now] | _, _ => [] end ++ attempted rest
  | _ => []
  end.
End shown.

(** ** One call *)

Section calls.
Context {key : Type} (isinstance : exc → list string → bool) (PyJWK : json → result exc key) (v : variant).
Implicit Types (s : keys key) (tr : list (step (cmd key))).

Notation key_for := (key_for isinstance PyJWK v).
Notation read_keys := (read_keys isinstance PyJWK v).

Lemma count_refresh_path o s tr r s' : kpath (count_refresh v o) s tr r s' → s' = s.
Proof. unfold count_refresh. destruct (counts v); intros H; by kstep. Qed.

(** A refresh is one fetch, and leaves the keys as they were or those of the document. *)
Lemma refresh_spec now s tr r s' : kpath (_refresh isinstance PyJWK v now) s tr r s' →
  ∃ f rest, tr = Step (Fetch (url v)) f :: rest ∧ _last_attempt s' = Some now ∧ Forall (λ t, is_fetch t = false) rest ∧
    ((_keys s' = _keys s ∧ _fetched_at s' = _fetched_at s) ∨
     ∃ doc at_ rest', f = Ok doc ∧ rest = Step Clock (Ok at_) :: rest' ∧ read_keys doc = Ok (_keys s') ∧ _fetched_at s' = Some at_).
Proof.
  assert (Hc : ∀ o s tr r s', kpath (count_refresh v o) s tr r s' → s' = s ∧ Forall (λ t, is_fetch t = false) tr).
  { intros o s0 tr0 r0 s0' H. split; [by eapply count_refresh_path|]. revert H. unfold count_refresh.
    destruct (counts v); intros H; kstep; by repeat constructor. }
  assert (Hf : ∀ e tr r s', kpath (if isinstance e (catches v) then count_refresh v "error" else kraise e) (mkKeys (_keys s) (_fetched_at s) (Some now)) tr r s' →
    s' = mkKeys (_keys s) (_fetched_at s) (Some now) ∧ Forall (λ t, is_fetch t = false) tr).
  { intros e tr0 r0 s0'. destruct (isinstance _ _); [apply Hc|]. intros H. by kstep. }
  unfold _refresh. intros H. repeat kstep; rewrite ?app_nil_l, ?app_nil_r in *.
  - destruct x2 as [ks|e].
    + repeat kstep; rewrite ?app_nil_l, ?app_nil_r in *.
      * match goal with H : kpath (count_refresh _ _) _ _ _ _ |- _ => apply Hc in H as [-> Hrest] end. eexists _, _. split_and!; [done|done|by constructor|]. right. by eexists _, _, _.
      * eexists _, _. split_and!; [done|done|by repeat constructor|by left].
    + match goal with H : kpath (if _ then _ else _) _ _ _ _ |- _ => apply Hf in H as [-> Hrest] end. eexists _, _. split_and!; [done..|by left].
  - match goal with H : kpath (if _ then _ else _) _ _ _ _ |- _ => apply Hf in H as [-> Hrest] end. eexists _, _. split_and!; [done..|by left].
Qed.

(** What a call leaves: the fields as they were, or those of one attempt that was due. *)
Definition moved s tr s' : Prop :=
  attempted tr = [] ∧ s' = s ∨
  ∃ now, attempted tr = [now] ∧ refresh_due v s now = true ∧ _last_attempt s' = Some now ∧
    (_keys s' = _keys s ∧ _fetched_at s' = _fetched_at s ∨
     ∃ doc at_, (doc, at_) ∈ fetched tr ∧ read_keys doc = Ok (_keys s') ∧ _fetched_at s' = Some at_).

Lemma no_fetch_attempted tr : Forall (λ t, is_fetch t = false) tr → attempted tr = [].
Proof.
  induction tr as [|t tr IH]; [done|]. intros [_ H]%Forall_cons. specialize (IH H). destruct tr as [|u tr]; [done|].
  apply Forall_cons in H as [Hu _]. cbn [attempted] in *. rewrite Hu. by destruct (time_of t).
Qed.

Lemma fetched_app tr1 tr2 p : p ∈ fetched tr1 → p ∈ fetched (tr1 ++ tr2).
Proof.
  induction tr1 as [|s tr1 IH]; [set_solver|]. destruct tr1 as [|t tr1]; [set_solver|].
  cbn [fetched app] in *. rewrite !elem_of_app. naive_solver.
Qed.

(** The end of a call: one more reading of the clock. *)
Lemma moved_refresh s tr now0 now r s' tr' :
  kpath (_refresh isinstance PyJWK v now) s tr r s' → refresh_due v s now = true → Forall (λ t, is_fetch t = false) tr' →
  moved s (Step Clock (Ok now0) :: Step Clock (Ok now) :: tr ++ tr') s'.
Proof.
  intros (f & rest & -> & Hl & Hrest & Hk)%refresh_spec Hdue Htr'. right. exists now.
  assert (Hno : attempted (Step (Fetch (url v)) f :: rest ++ tr') = []).
  { pose proof (Forall_app_2 _ _ _ Hrest Htr') as Hall. destruct (rest ++ tr') as [|u us]; [done|].
    change (attempted (u :: us) = []). by apply no_fetch_attempted. }
  split_and!; [|done|done|].
  - change ([now] ++ attempted (Step (Fetch (url v)) f :: rest ++ tr') = [now]). by rewrite Hno.
  - destruct Hk as [?|(doc & at_ & rest' & -> & -> & Hr & Hf)]; [by left|right]. exists doc, at_. split_and!; [|done..].
    cbn [fetched app doc_of time_of]. set_solver.
Qed.

Lemma held_spec s now kid k : held v s now kid = Some k → (0 ≤ stale_grace v)%Z → _usable v s now = true ∧ dict_get (JStr kid) (_keys s) = Some k.
Proof.
  unfold held, _fresh, _usable. destruct (_age s now) as [age|]; [|done]. destruct (Z.ltb_spec age (ttl v)); [|done]. intros H' Hg.
  split; [apply Z.ltb_lt; lia|done].
Qed.

Lemma last_reading kid now s tr r s' :
  kpath (if negb (_usable v s now) then kraise KeysUnavailable else mret (dict_get (JStr kid) (_keys s))) s tr r s' →
  tr = [] ∧ s' = s ∧ ∀ found, r = Ok found → _usable v s now = true ∧ dict_get (JStr kid) (_keys s) = found.
Proof. destruct (_usable v s now); intros H; cbn [negb] in H; kstep; (split_and!; [done..|]); [by intros found [= <-]|done]. Qed.

Lemma key_for_spec kid s tr r s' : (0 ≤ stale_grace v)%Z → kpath (key_for kid) s tr r s' →
  moved s tr s' ∧
  ∀ found, r = Ok found → ∃ now, Step Clock (Ok now) ∈ tr ∧ _usable v s' now = true ∧ dict_get (JStr kid) (_keys s') = found.
Proof.
  intros Hg H. unfold Keys.key_for in H. kstep; [|kstep; split; [by left|done]]. kstep. kstep; [|by kstep]. kstep.
  destruct (held v _ _ kid) as [k|] eqn:Eh.
  { kstep. split; [by left|]. intros ? [= <-]. apply held_spec in Eh as [? ?]; [|done]. eexists. split_and!; [left|done..]. }
  repeat kstep; [|by split; [left|]]. rewrite ?app_nil_l in *. rename x into now0, x0 into now.
  match goal with H : kpath match _ with _ => _ end _ _ _ _ |- _ => rename H into Hr end.
  destruct (held v s now kid) as [k|] eqn:Eh2.
  { kstep. split; [by left|]. intros ? [= <-]. apply held_spec in Eh2 as [? ?]; [|done]. exists now. split_and!; [right; left|done..]. }
  destruct (refresh_due v s now) eqn:Ed; repeat kstep; rewrite ?app_nil_l in *.
  all: try match goal with H : kpath (_refresh _ _ _ _) _ _ _ _ |- _ => rename H into Href end.
  all: try match goal with H : kpath (if negb _ then _ else _) _ _ _ _ |- _ => apply last_reading in H as (-> & -> & Hfound) end.
  - split; [by apply (moved_refresh _ _ now0 now _ _ [Step Clock (Ok x3)] Href Ed); constructor|].
    intros found E. destruct (Hfound found E). exists x3. split_and!; [|done..]. set_solver.
  - split; [|done]. by apply (moved_refresh _ _ now0 now _ _ [Step Clock _] Href Ed); constructor.
  - split; [|done]. pose proof (moved_refresh _ _ now0 now _ _ [] Href Ed) as Hm. rewrite app_nil_r in Hm. by apply Hm.
  - split; [by left|]. intros found E. destruct (Hfound found E). eexists. split_and!; [|done..]. set_solver.
  - split; [by left|done].
Qed.
End calls.

(** The properties of who the API and the gateway of tools take a caller for, each with a
    concrete instance. *)

Local Open Scope string_scope.
Local Open Scope list_scope.

Section keys.
Context {key : Type} (isinstance : exc → list string → bool) (PyJWK : json → result exc key) (v : variant).
Implicit Types (s : keys key) (tr : list (step (cmd key))).

(** The fields any sequence of calls leads to, with the documents that came, each with the
    clock's next reading, and the times of the attempts. *)
Inductive history : keys key → list (json * Z) → list Z → Prop :=
| history_new : history no_keys [] []
| history_call s docs attempts kid tr r s' :
    history s docs attempts → kpath (key_for isinstance PyJWK v kid) s tr r s' →
    history s' (docs ++ fetched tr) (attempts ++ attempted tr).

(** The keys held are those of one document that came, if any did. *)
Definition from_document (docs : list (json * Z)) s : Prop :=
  match _fetched_at s with
  | None => _keys s = []
  | Some at_ => ∃ doc, (doc, at_) ∈ docs ∧ read_keys isinstance PyJWK v doc = Ok (_keys s)
  end.

(** Two attempts in a row are as far apart as the limit asks. *)
Definition spaced (attempts : list Z) : Prop :=
  ∀ i a b, attempts !! i = Some a → attempts !! S i = Some b → (min_refresh v <= b - a)%Z.

Lemma from_document_moved docs s tr s' : from_document docs s → moved isinstance PyJWK v s tr s' → from_document (docs ++ fetched tr) s'.
Proof.
  unfold from_document. intros H [[_ ->]|(now & _ & _ & _ & Hk)].
  - destruct (_fetched_at s); [|done]. destruct H as (doc & Hin & Hr). exists doc. split; [set_solver|done].
  - destruct Hk as [[-> ->]|(doc & at_ & Hin & Hr & ->)]; [|exists doc; split; [set_solver|done]].
    destruct (_fetched_at s); [|done]. destruct H as (doc & Hin & Hr). exists doc. split; [set_solver|done].
Qed.

Lemma spaced_snoc attempts now : spaced attempts → (∀ a, last attempts = Some a → (min_refresh v <= now - a)%Z) → spaced (attempts ++ [now]).
Proof.
  intros Hs Hl i a b Ha Hb. pose proof (lookup_lt_Some _ _ _ Hb) as Hlt. rewrite length_app in Hlt. cbn in Hlt.
  rewrite lookup_app_l in Ha by lia. destruct (decide (S i < length attempts)) as [Hi|Hi].
  - rewrite lookup_app_l in Hb by done. by eapply Hs.
  - rewrite lookup_app_r in Hb by lia. replace (S i - length attempts) with 0%nat in Hb by lia. injection Hb as <-.
    apply Hl. rewrite last_lookup. replace (Init.Nat.pred (length attempts)) with i by lia. done.
Qed.

Lemma history_ok s docs attempts : (0 ≤ stale_grace v)%Z → history s docs attempts →
  from_document docs s ∧ spaced attempts ∧ last attempts = _last_attempt s.
Proof.
  intros Hg. induction 1 as [|s docs attempts kid tr r s' Hh (IHd & IHs & IHl) Hp]; [done|].
  apply key_for_spec in Hp as [Hm _]; [|done]. split; [by eapply from_document_moved|].
  destruct Hm as [[-> ->]|(now & -> & Hdue & Hl & _)]; [by rewrite app_nil_r|]. split; [|by rewrite last_snoc].
  apply spaced_snoc; [done|]. intros a Ha. rewrite IHl in Ha. unfold refresh_due in Hdue. rewrite Ha in Hdue. by apply Z.leb_le.
Qed.

End keys.

Section verify.
Context {key : Type} (isinstance : exc → list string → bool) (PyJWK : json → result exc key).
Context (get_unverified_header : string → result exc (list (string * json))) (v : variant) (leeway : Z).
Implicit Types (s : keys key) (tr : list (step (cmd key))).

(** What proves who a token's bearer is *)
Definition proven token s tr s' tenant principal : Prop :=
  ∃ header kid k claims tr', get_unverified_header token = Ok header ∧ claim "alg" header = JStr ALGORITHM ∧
    claim "typ" header = JStr IDENTITY_TYP ∧ claim "kid" header = JStr kid ∧
    kpath (key_for isinstance PyJWK v kid) s tr' (Ok (Some k)) s' ∧
    tr = tr' ++ [Step (Jwt_decode token k (identity_options leeway)) (Ok claims); Step (Count "agent_api_identity_total" "ok") (Ok ())] ∧
    spoken (claim "tenant" claims) = Some tenant ∧ spoken (claim "sub" claims) = Some principal.

Lemma refuse_path o b s tr r s' : kpath (_refuse (key := key) o b) s tr r s' →
  s' = s ∧ ((tr = [Step (Count "agent_api_identity_total" o) (Ok ())] ∧ r = Ok (inr (mkRefusal o b))) ∨
            ∃ e, tr = [Step (Count "agent_api_identity_total" o) (Err e)] ∧ r = Err e).
Proof. unfold _refuse. intros H. repeat kstep; (split; [done|]); [left; by destruct x|right; by eexists]. Qed.

Lemma no_refusal o b s tr i s' : ¬ kpath (_refuse (key := key) o b) s tr (Ok (inl i)) s'.
Proof. by intros [_ [[_ [=]]|(e & _ & [=])]]%refuse_path. Qed.

Ltac refusal := match goal with
  | H : kpath (if ?b then _ else _) _ _ (Ok (inl _)) _ |- _ => destruct b; refusal
  | H : kpath (_refuse _ _) _ _ (Ok (inl _)) _ |- _ => by destruct (no_refusal _ _ _ _ _ _ H)
  | H : kpath (kraise _) _ _ (Ok (inl _)) _ |- _ => by apply kpath_raise in H as (_ & [=] & _)
  end.

Lemma verify_inl token s tr i s' :
  kpath (_verify isinstance PyJWK get_unverified_header v leeway token) s tr (Ok (inl i)) s' →
  ∃ t, token = Some t ∧ proven t s tr s' (tenant i) (principal i).
Proof.
  unfold _verify. destruct token as [t|]; cbn [default from_option Datatypes.id]; [|change (nonempty "") with false; cbn [negb]; intros H; refusal].
  destruct (nonempty t); cbn [negb]; [|intros H; refusal]. destruct (_ <? _)%nat; [intros H; refusal|].
  destruct (get_unverified_header t) as [header|e] eqn:Eh; [|intros H; refusal].
  destruct (bool_decide_reflect (claim "alg" header = JStr ALGORITHM)) as [Ea|]; cbn [negb]; [|intros H; refusal].
  destruct (bool_decide_reflect (claim "typ" header = JStr IDENTITY_TYP)) as [Et|]; cbn [negb]; [|intros H; refusal].
  destruct (claim "kid" header) as [| | | |kid| |] eqn:Ek; try (intros H; refusal).
  destruct (nonempty kid); cbn [negb]; [|intros H; refusal]. intros H. repeat kstep.
  match goal with H : kpath match ?x with _ => _ end _ _ _ _ |- _ => destruct x as [[k|]|e]; [|refusal..] end. repeat kstep.
  match goal with H : kpath match ?x with _ => _ end _ _ _ _ |- _ => destruct x as [claims|e]; [|refusal] end.
  destruct (spoken (claim "tenant" claims)) as [tn|] eqn:E1; [|refusal]. destruct (spoken (claim "sub" claims)) as [p|] eqn:E2; [|refusal].
  repeat kstep. exists t. split; [done|]. destruct x. cbn [tenant principal].
  match goal with H : kpath (key_for _ _ _ _) _ _ _ _ |- _ => rename H into Hk end.
  eexists header, kid, k, claims, _. split_and!; [done..|exact Hk|by rewrite ?app_nil_l, ?app_nil_r, <-?app_assoc|done|done].
Qed.

(** Nothing but the machine's own exceptions, and a counter that fails, gets out of the verifier. *)
Lemma verify_raises token s tr e s' :
  kpath (verify isinstance PyJWK get_unverified_header v leeway token) s tr (Err e) s' →
  base_exception e = true ∨ ∃ counter label, Step (Count counter label) (Err e) ∈ tr.
Proof.
  unfold verify. intros H. repeat kstep. match goal with H : kpath match ?x with _ => _ end _ _ _ _ |- _ => destruct x as [x|e'] end; [by kstep|].
  destruct (base_exception e') eqn:Eb; [kstep; by left|].
  match goal with H : kpath (_refuse _ _) _ _ _ _ |- _ => apply refuse_path in H as [-> [[_ [=]]|(e2 & -> & [= ->])]] end.
  right. eexists _, _. apply elem_of_app. right. left.
Qed.

(** C36: in identity mode only a verified caller is served. A caller is given a tenant and a
    person only out of claims that the JWT library read from exactly the token that was sent,
    with a key its key set stands for under the token's own key id, one algorithm and one
    audience; the headers a client can set have no part in it; and nothing but the machine's own
    exceptions gets out, so every other caller is refused. *)
Theorem only_verified_callers_are_served auth_mode x_tenant_id x_principal_id token s tr r s' :
  auth_mode ≠ "headers" →
  kpath (get_ctx isinstance PyJWK get_unverified_header v leeway auth_mode x_tenant_id x_principal_id token) s tr r s' →
  (∀ ctx, r = Ok (Known ctx) → ∃ t, token = Some t ∧ proven t s tr s' (sc_tenant ctx) (sc_principal ctx) ∧ valid_ctx (Some ctx) = true) ∧
  (∀ e, r = Err e → base_exception e = true ∨ ∃ counter label, Step (Count counter label) (Err e) ∈ tr) ∧
  (∀ absent, r ≠ Ok (MissingHeaders absent)) ∧
  (∀ x_tenant' x_principal', get_ctx isinstance PyJWK get_unverified_header v leeway auth_mode x_tenant' x_principal' token =
     get_ctx isinstance PyJWK get_unverified_header v leeway auth_mode x_tenant_id x_principal_id token).
Proof.
  intros Hm. unfold get_ctx. rewrite (proj2 (String.eqb_neq _ _) Hm). intros H.
  assert (Hsp : ∀ j t, spoken j = Some t → nonempty t = true).
  { intros [] t; cbn; try done. destruct (is_blank s0) eqn:E; [done|]. intros [= <-]. by destruct s0. }
  repeat kstep.
  - match goal with H : kpath match ?x with _ => _ end _ _ _ _ |- _ => destruct x as [i|rf] end; kstep; (split_and!; [|done..]); [|done].
    intros ctx [= <-]. cbn [sc_tenant sc_principal]. rewrite app_nil_r. unfold verify in H0. repeat kstep.
    match goal with H : kpath match ?x with _ => _ end _ _ _ _ |- _ => destruct x as [y|e'] end.
    + kstep. rewrite app_nil_r. match goal with H : kpath (_verify _ _ _ _ _ _) _ _ _ _ |- _ => apply verify_inl in H as (t & -> & Hp) end.
      exists t. split_and!; [done..|]. destruct Hp as (? & ? & ? & ? & ? & _ & _ & _ & _ & _ & _ & H1 & H2).
      unfold valid_ctx. cbn [sc_tenant sc_principal]. by rewrite (Hsp _ _ H1), (Hsp _ _ H2).
    + destruct (base_exception e'); [kstep|by match goal with H : kpath (_refuse _ _) _ _ _ _ |- _ => apply no_refusal in H end].
  - split_and!; [done| |done..]. intros e [= <-]. by eapply verify_raises.
Qed.
End verify.

Section gateway.
Context {key : Type} (isinstance : exc → list string → bool) (PyJWK : json → result exc key).
Context (get_unverified_header : string → result exc (list (string * json))).
Context (v : variant) (server issuer audience : string) (algorithms : list string) (leeway : Z).
Implicit Types (s : keys key) (tr : list (step (cmd key))).

Lemma reject_path o s tr r s' : kpath (_reject (key := key) server o) s tr r s' → s' = s ∧ (r = Ok None ∨ ∃ e, r = Err e).
Proof. unfold _reject. intros H. repeat kstep; (split; [done|]); [by left|right; by eexists]. Qed.

Lemma checked_path token s tr claims s' :
  kpath (checked isinstance PyJWK get_unverified_header v server issuer audience algorithms leeway token) s tr (Ok (Some claims)) s' →
  ∃ header algorithm kid k tr', get_unverified_header token = Ok header ∧ algorithm ∈ algorithms ∧ claim "alg" header = JStr algorithm ∧
    claim "kid" header = JStr kid ∧ kpath (key_for isinstance PyJWK v kid) s tr' (Ok (Some k)) s' ∧
    tr = tr' ++ [Step (Jwt_decode token k (mkOptions [algorithm] audience issuer leeway ["exp"; "iss"; "aud"; "sub"])) (Ok claims)].
Proof.
  unfold checked. destruct (get_unverified_header token) as [header|e]; [|intros H; by kstep].
  unfold allowed. destruct (claim "alg" header) as [| | | |a| |] eqn:Ea; try (intros H; by repeat kstep).
  case_bool_decide as Hin; [|intros H; by repeat kstep].
  destruct (claim "kid" header) as [| | | |kid| |] eqn:Ek; try (intros H; by repeat kstep).
  destruct (nonempty kid); cbn [negb]; intros H; [|by repeat kstep]. kstep.
  match goal with H : kpath match ?x with _ => _ end _ _ _ _ |- _ => destruct x as [k|] end; [|by repeat kstep].
  match goal with H : kpath (key_for _ _ _ _) _ _ _ _ |- _ => rename H into Hk end. repeat kstep.
  exists header, a, kid, k. eexists. split_and!; [done..|exact Hk|by rewrite ?app_nil_r].
Qed.

(** The tools serve only the tenants they are for. A caller gets past the gate only with a token
    whose claims the JWT library read with a key the authorization server's set stands for,
    one of the allowed algorithms and this server as the audience, and only if the tenant those
    claims name is one of the allowed. *)
Theorem tools_serve_only_their_tenants tenant_claim allowed_tenants token s tr at_ s' :
  kpath (verify_token isinstance PyJWK get_unverified_header v server issuer audience algorithms leeway token) s tr (Ok (Some at_)) s' →
  gate tenant_claim allowed_tenants (Some at_) = true →
  ∃ algorithm k tenant, algorithm ∈ algorithms ∧
    Step (Jwt_decode token k (mkOptions [algorithm] audience issuer leeway ["exp"; "iss"; "aud"; "sub"])) (Ok (at_claims at_)) ∈ tr ∧
    claim tenant_claim (at_claims at_) = JStr tenant ∧ tenant ∈ allowed_tenants.
Proof.
  unfold verify_token. intros H Hg. repeat kstep.
  match goal with H : kpath match ?x with _ => _ end _ _ _ _ |- _ => destruct x as [[claims|]|e] end.
  - match goal with H : kpath (checked _ _ _ _ _ _ _ _ _ _) _ _ _ _ |- _ => apply checked_path in H as (header & a & kid & k & tr' & _ & Ha & _ & _ & _ & ->) end.
    repeat kstep. cbn [gate at_claims] in *. destruct (claim tenant_claim claims) as [| | | |tenant| |]; try done. apply bool_decide_eq_true in Hg.
    exists a, k, tenant. split_and!; [done| |done..]. set_solver.
  - kstep.
  - destruct (isinstance e _); [|destruct (base_exception e); [by kstep|]];
      match goal with H : kpath (_reject _ _) _ _ _ _ |- _ => by apply reject_path in H as [_ [[=]|(? & [=])]] end.
Qed.
End gateway.

(** ** A request with an identity, and one after the keys changed *)

Module Door.
Definition isinstance (e : exc) (classes : list string) : bool := bool_decide (exc_class e ∈ classes).
Definition jwk (j : json) : result exc string := match j with JObj l => match dict_get "x" l with Some (JStr x) => Ok x | _ => Err KeyError end | _ => Err TypeError end.
Definition header (token : string) : result exc (list (string * json)) :=
  Ok [("alg", JStr "EdDSA"); ("typ", JStr IDENTITY_TYP); ("kid", JStr "2024")].
Definition front : variant := internal_variant "http://authlimit/keys" 300 600 10.
Definition document : json := JObj [("keys", JList [JObj [("kid", JStr "2023"); ("x", JStr "old")]; JObj [("kid", JStr "2024"); ("x", JStr "new")]; JObj []])].
Definition reply (t : Z) R (c : Keys.cmd string R) : result exc R * Z :=
  (match c in Keys.cmd _ R return result exc R with
   | Clock => Ok t
   | Fetch _ => Ok document
   | Jwt_decode token k _ => if String.eqb k "new" then Ok [("tenant", JStr "acme"); ("sub", JStr "ann")] else Err (Exc "InvalidSignatureError" "")
   | Count _ _ => Ok ()
   end, t + 1)%Z.
Definition asking (token : option string) : Keys.K string caller := get_ctx isinstance jwk header front 5 "identity" (Some "evil") (Some "root") token.
Definition answer (token : option string) : result exc caller :=
  match fst (fst (Process.run reply (asking token no_keys) 100%Z)) with Ok (r, _) => r | Err e => Err e end.
Definition kept : keys string := Eval vm_compute in
  match fst (fst (Process.run reply (asking (Some "ey") no_keys) 100%Z)) with Ok (_, s) => s | Err _ => no_keys end.
Definition trace : list (step (Keys.cmd string)) := snd (fst (Process.run reply (asking (Some "ey") no_keys) 100%Z)).
Definition looked : list (step (Keys.cmd string)) := snd (fst (Process.run reply (key_for isinstance jwk front "2024" no_keys) 100%Z)).

Example headers_are_ignored : answer (Some "ey") = Ok (Known (SecCtx "acme" "ann")).
Proof. vm_compute. reflexivity. Qed.
Example nobody : answer None = Ok (Refused UNAUTHENTICATED).
Proof. vm_compute. reflexivity. Qed.

Lemma trace_of_request : kpath (asking (Some "ey")) no_keys trace (Ok (Known (SecCtx "acme" "ann"))) kept.
Proof. exact (run_path reply (asking (Some "ey") no_keys) 100%Z). Qed.
Lemma trace_of_lookup : kpath (key_for isinstance jwk front "2024") no_keys looked (Ok (Some "new")) kept.
Proof. exact (run_path reply (key_for isinstance jwk front "2024" no_keys) 100%Z). Qed.
End Door.


Lemma only_verified_callers_are_served_witness :
  ∃ t, Some "ey" = Some t ∧ proven Door.isinstance Door.jwk Door.header Door.front 5 t no_keys Door.trace Door.kept "acme" "ann" ∧
    valid_ctx (Some (SecCtx "acme" "ann")) = true.
Proof.
  exact (proj1 (only_verified_callers_are_served Door.isinstance Door.jwk Door.header Door.front 5 "identity" (Some "evil") (Some "root") (Some "ey")
    no_keys Door.trace (Ok (Known (SecCtx "acme" "ann"))) Door.kept ltac:(by intros [=]) Door.trace_of_request) (SecCtx "acme" "ann") eq_refl).
Defined.
