(* ===== verification/Retrieval.v ===== *)
(** The vector store and the cache of answers: [app/retrieval/embedding_identity.py],
    [embeddings.py], [qdrant_store.py], [memory.py] and [semantic_cache.py].

    The store, the embedding service, the reranker and Redis are answers to commands, and so are
    the process-wide variables ([_targets], [_embedding_dim], [_ready_indexes]), because between two awaits of
    one call any other call may read and write them.  Times are whole ticks.  A score of the
    reranker is a float and no NaN.  Logs are left out. *)
From Stdlib Require Import Ascii SpecFloat.
From S2P Require Import Prelude Dict Json Messages AgentState Process Sha256 Jobs Calendar Identity Text.

Local Open Scope string_scope.
Local Open Scope list_scope.

(** ** What is asked of the outside *)

Inductive alias_op : Type :=
| CreateAlias (collection_name alias_name : string)
| DeleteAlias (alias_name : string).

(** One condition of a filter, all of which a point has to meet *)
Inductive condition : Type :=
| Match (key value : string)
| Created_gte (t : Z)
| Created_lt (t : Z)
| Has_id (ids : list string).

Abbreviation payload := (list (string * json)).
Abbreviation sparse := (list Z * list float)%type.

Record point : Type := mkPoint {
  p_id : string;
  p_dense : list float;
  p_sparse : option sparse;
  p_payload : payload;
}.

(** A scored point, as the store answers with it *)
Record hit : Type := mkHit { h_id : json; h_score : float; h_payload : payload }.

(** One leg of a query, or the two whose ranks are fused *)
Inductive leg : Type := Dense (v : list float) | Sparse (v : sparse).
Record prefetch : Type := mkPrefetch { pf_leg : leg; pf_filter : option (list condition); pf_limit : nat }.
Inductive query : Type :=
| Fused (legs : list prefetch) (limit : nat)
| Plain (leg : prefetch).

Inductive cmd : Type → Type :=
| Monotonic : cmd Z
| Now : cmd Z                                                  (* [datetime.now(UTC)], in microseconds *)
| Get_target (logical : string) : cmd (option (Z * option string))
| Set_target (logical : string) (entry : Z * option string) : cmd ()
| Clear_targets : cmd ()
| Get_aliases : cmd (list (string * string))                   (* the names and the collections they stand for *)
| Collection_exists (name : string) : cmd bool
| Update_aliases (ops : list alias_op) : cmd ()
| Recreate_collection (name : string) (dim : nat) : cmd ()
| Upsert (name : string) (points : list point) : cmd ()
| Query_points (name : string) (q : query) : cmd (list hit)
| Delete_points (name : string) (must : list condition) : cmd ()
| Count_points (name : string) (must : list condition) : cmd Z
| Resolve_model (alias : string) : cmd (option string)
| Get_dim : cmd (option nat)
| Set_dim (dim : nat) : cmd ()
| Embed_query (text : string) : cmd (list float)
| Embed_documents (texts : list string) : cmd (list (list float))
| Embed_sparse (texts : list string) : cmd (list sparse)
| Post_rerank (text : string) (texts : list json) : cmd (list (Z * float))   (* the items' [index] and [score] *)
| Uuid4 : cmd string
| Index_ready (index : string) : cmd bool
| Set_ready (index : string) : cmd ()
| Create_index (index prefix : string) (dim : nat) : cmd ()
| Ft_search (index text : string) (vec : list float) : cmd (list (string * string * float))  (* [answer], [citations], [dist] *)
| Json_set (key : string) (value : list (string * json)) (vec : list float) : cmd ()
| Expire (key : string) (seconds : Z) : cmd ()
| Count (counter label : string) : cmd ().

Abbreviation P := (prog cmd).
Local Open Scope prog_scope.

(** The settings that are read *)
Record store_settings : Type := mkStore {
  COLLECTION : string;
  EMBED_IDENTITY_CACHE_SECONDS : Z;
  HYBRID_PREFETCH_LIMIT : nat;
  RERANK_TOP_K : nat;
  EMBED_MODEL : string;
  EMBED_MODEL_REVISION : string;
  EMBED_QUERY_PREFIX : string;
  EMBED_DOCUMENT_PREFIX : string;
  SEMANTIC_CACHE_SIMILARITY_THRESHOLD : float;
  SEMANTIC_CACHE_TTL_SECONDS : Z;
}.

Section store.
Context (cfg : store_settings).

(** ** [embeddings.py] *)

Definition embed_query (text : string) : P (list float) := call (Embed_query (EMBED_QUERY_PREFIX cfg +:+ text)).

Definition EMBED_BATCH_SIZE : nat := 200.

Definition embed_documents (texts : list string) : P (list (list float)) :=
  call (Embed_documents (String.append (EMBED_DOCUMENT_PREFIX cfg) <$> texts)).

Definition embed_document (text : string) : P (list float) :=
  vectors ← embed_documents [text];
  match vectors with v :: _ => Ret v | [] => Throw (Exc "IndexError" "list index out of range") end.

Definition embedding_dim : P nat :=
  known ← call Get_dim;
  match known with
  | Some dim => Ret dim
  | None =>
      v ← embed_document "dimension probe";
      call (Set_dim (length v)) ;;
      Ret (length v)
  end.

Definition embed_sparse_batch (texts : list string) : P (list sparse) := call (Embed_sparse texts).

Definition embed_sparse (text : string) : P sparse :=
  vectors ← embed_sparse_batch [text];
  match vectors with v :: _ => Ret v | [] => Throw (Exc "StopIteration" "") end.

(** [scores[index] = score], an index below zero counting from the end *)
Definition put_score (scores : list float) (item : Z * float) : result exc (list float) :=
  let n := Z.of_nat (length scores) in
  let i := if (item.1 <? 0)%Z then (item.1 + n)%Z else item.1 in
  if ((0 <=? i) && (i <? n))%Z then Ok (<[Z.to_nat i := item.2]> scores)
  else Err (Exc "IndexError" "list assignment index out of range").

Fixpoint put_scores (scores : list float) (items : list (Z * float)) : result exc (list float) :=
  match items with [] => Ok scores | item :: items => rbind (put_score scores item) (λ scores, put_scores scores items) end.

Definition rerank (text : string) (candidates : list json) : P (list float) :=
  items ← call (Post_rerank text candidates);
  of_result (put_scores (replicate (length candidates) fzero) items).

(** ** [embedding_identity.py] *)

Definition HASH_LENGTH : nat := 8.

Record EmbeddingIdentity : Type := mkIdentity {
  ei_alias : string;
  ei_resolved_model : option string;
  ei_dim : nat;
  ei_query_prefix : string;
  ei_document_prefix : string;
  ei_revision_label : string;
}.

Definition verified (i : EmbeddingIdentity) : bool := match ei_resolved_model i with Some _ => true | None => false end.

(** [json.dumps(j, separators=(",", ":"))] *)
Fixpoint dumps_compact (j : json) : string :=
  match j with
  | JList l => "[" +:+ join "," (dumps_compact <$> l) +:+ "]"
  | JObj l => "{" +:+ join "," ((λ p, dump_str p.1 +:+ ":" +:+ dumps_compact p.2) <$> l) +:+ "}"
  | _ => dumps j
  end.

Definition identity_body (i : EmbeddingIdentity) : json :=
  JObj [("model", JStr (match ei_resolved_model i with Some m => m | None => "alias:" +:+ ei_alias i end));
        ("dim", JInt (Z.of_nat (ei_dim i)));
        ("query_prefix", JStr (ei_query_prefix i));
        ("document_prefix", JStr (ei_document_prefix i));
        ("revision", JStr (ei_revision_label i))].

(** The dumped text has no character above 126, so it is its own encoding. *)
Definition hash8 (i : EmbeddingIdentity) : string := take_str HASH_LENGTH (hex (sha256 (dumps_compact (sort_keys (identity_body i))))).

Definition EmbeddingIdentityMismatch (collection expected found : string) : exc :=
  Exc "EmbeddingIdentityMismatch"
    ("collection " +:+ repr_str collection +:+ " holds vectors made under embedding identity " +:+ found +:+
     " but this process is configured for " +:+ expected +:+
     "; mixing them would return wrong-space results. Rebuild it under the configured identity with `make reembed COLLECTION_NAME=" +:+
     collection +:+ "` (or restore the previous embedding settings).").

Definition current_identity : P EmbeddingIdentity :=
  resolved ← call (Resolve_model (EMBED_MODEL cfg));
  dim ← embedding_dim;
  Ret (mkIdentity (EMBED_MODEL cfg) resolved dim (EMBED_QUERY_PREFIX cfg) (EMBED_DOCUMENT_PREFIX cfg) (EMBED_MODEL_REVISION cfg)).

(** ** [qdrant_store.py]: names and aliases *)

Definition LIVE_SUFFIX : string := "-live".

(** [collection or COLLECTION] *)
Definition logical_of (collection : option string) : string :=
  match collection with Some c => if nonempty c then c else COLLECTION cfg | None => COLLECTION cfg end.

Definition live_name (collection : option string) : string := logical_of collection +:+ LIVE_SUFFIX.
Definition physical_name (collection identity_hash : string) : string := collection +:+ "-" +:+ identity_hash.

(** [_HASH.match(s)]: the pattern's [$] also stands before a last line feed. *)
Definition is_hex_digit (a : ascii) : bool :=
  let n := N_of_ascii a in ((48 <=? n) && (n <=? 57) || (97 <=? n) && (n <=? 102))%N.
Fixpoint hash_like (n : nat) (s : string) : bool :=
  match n, s with
  | O, "" => true
  | O, String a "" => Ascii.eqb a "010"%char
  | S n, String a s => is_hex_digit a && hash_like n s
  | _, _ => false
  end.

Definition identity_hash_of (physical collection : string) : option string :=
  let prefix := collection +:+ "-" in
  let rest := drop_str (String.length prefix) physical in
  if startswith physical prefix && hash_like HASH_LENGTH rest then Some rest else None.

Definition reset_identity_cache : P () := call Clear_targets.

Definition alias_target (collection : option string) : P (option string) :=
  aliases ← call Get_aliases;
  Ret (snd <$> head (filter (λ a, a.1 = live_name collection) aliases)).

Definition ensure_live (collection : option string) : P (option string) :=
  let logical := logical_of collection in
  target ← alias_target (Some logical);
  match target with
  | Some t => Ret (Some t)
  | None =>
      exists_ ← call (Collection_exists logical);
      if negb exists_ then Ret None else
      catch_exception
        (call (Update_aliases [CreateAlias logical (live_name (Some logical))]) ;; Ret (Some logical))
        (λ e, target ← alias_target (Some logical);
              match target with None => Throw e | Some t => Ret (Some t) end)
  end.

(** What was kept and has not expired *)
Definition unexpired (now : Z) (cached : option (Z * option string)) : option (option string) :=
  match cached with Some (expires, target) => if (now <? expires)%Z then Some target else None | None => None end.

Definition _resolve_target (logical : string) : P (option string * bool) :=
  now ← call Monotonic;
  cached ← call (Get_target logical);
  match unexpired now cached with
  | Some target => Ret (target, false)
  | None =>
      target ← ensure_live (Some logical);
      call (Set_target logical (now + EMBED_IDENTITY_CACHE_SECONDS cfg, target)%Z) ;;
      Ret (target, true)
  end.

Definition count_identity (outcome logical : string) : P () := call (Count "agent_embedding_identity_total" (outcome +:+ "," +:+ logical)).

Definition check_identity (collection : option string) : P string :=
  let logical := logical_of collection in
  '(target, refreshed) ← _resolve_target logical;
  let alias := live_name (Some logical) in
  match target with
  | None => Ret alias
  | Some target =>
      match identity_hash_of target logical with
      | None => (if (refreshed : bool) then count_identity "adopted" logical else Ret ()) ;; Ret alias
      | Some found =>
          identity ← current_identity;
          let expected := hash8 identity in
          if negb (String.eqb expected found) then
            count_identity "mismatch" logical ;; Throw (EmbeddingIdentityMismatch logical expected found)
          else
            (if (refreshed : bool) then count_identity (if verified identity then "verified" else "unverified") logical else Ret ()) ;;
            Ret alias
      end
  end.

Record IdentityStatus : Type := mkStatus { state : string; st_expected : option string; st_found : option string }.

Definition identity_status (collection : option string) : P IdentityStatus :=
  let logical := logical_of collection in
  '(target, _) ← _resolve_target logical;
  match target with
  | None => Ret (mkStatus "absent" None None)
  | Some target =>
      match identity_hash_of target logical with
      | None => Ret (mkStatus "adopted" None None)
      | Some found =>
          identity ← current_identity;
          let expected := hash8 identity in
          Ret (mkStatus (if negb (String.eqb expected found) then "mismatch" else if verified identity then "verified" else "unverified")
                 (Some expected) (Some found))
      end
  end.

Definition _maintenance_alias (collection : option string) : P string :=
  let logical := logical_of collection in
  _resolve_target logical ;;
  Ret (live_name (Some logical)).

Definition create_physical (physical : string) (dim : nat) : P () := call (Recreate_collection physical dim).

Definition repoint_live (collection physical : string) : P () :=
  old ← alias_target (Some collection);
  let ops := match old with Some _ => [DeleteAlias (live_name (Some collection))] | None => [] end in
  call (Update_aliases (ops ++ [CreateAlias physical (live_name (Some collection))])) ;;
  reset_identity_cache.

Definition ensure_collection (dim : nat) (collection : option string) : P () :=
  let logical := logical_of collection in
  identity ← current_identity;
  let physical := physical_name logical (hash8 identity) in
  create_physical physical dim ;;
  repoint_live logical physical.

(** *** Points *)

Definition build_point (point_id : string) (dense_vector : list float) (payload : payload) (sparse_vector : option sparse) : point :=
  mkPoint point_id dense_vector sparse_vector payload.

Definition _MAX_POINTS_PER_UPSERT_BATCH : nat := 300.

(** [xs[i:i+n] for i in range(0, len(xs), n)] *)
Fixpoint batches_go {A} (fuel n : nat) (xs : list A) : list (list A) :=
  match fuel, xs with
  | S fuel, _ :: _ => take n xs :: batches_go fuel n (drop n xs)
  | _, _ => []
  end.
Definition batches {A} (n : nat) (xs : list A) : list (list A) := batches_go (length xs) n xs.

Definition upsert (points : list point) (collection : option string) : P () :=
  name ← check_identity collection;
  each (batches _MAX_POINTS_PER_UPSERT_BATCH points) (λ batch, call (Upsert name batch)).

Definition kind_text (k : scope_kind) : string := match k with Sdocument => "document" | Smemory => "memory" end.

Definition scope_filter (scope : AccessScope) : list condition :=
  [Match "tenant" (as_tenant scope); Match "kind" (kind_text (as_kind scope))] ++
  match as_owner scope with Some o => [Match "owner" o] | None => [] end ++
  match as_created_after scope with Some t => [Created_gte t] | None => [] end.

Definition _build_filter (topic : option string) (scope : option AccessScope) (doc_ids : option (list string)) : option (list condition) :=
  let must :=
    (if nonempty (default "" topic) then [Match "topic" (default "" topic)] else []) ++
    match scope with Some s => scope_filter s | None => [] end ++
    match doc_ids with Some ((_ :: _) as ids) => [Has_id ids] | _ => [] end in
  if bool_decide (must = []) then None else Some must.

(** [sorted(range(n), key=score, reverse=True)]: of two equal scores the earlier stays first. *)
Fixpoint insert_desc (score : nat → float) (i : nat) (order : list nat) : list nat :=
  match order with
  | [] => [i]
  | j :: order => if flt (score j) (score i) then i :: j :: order else j :: insert_desc score i order
  end.
Definition sort_desc (score : nat → float) (n : nat) : list nat := foldl (λ order i, insert_desc score i order) [] (seq 0 n).

Definition with_scores (points : list hit) (scores : list float) : list hit :=
  zip_with (λ p s, mkHit (h_id p) s (h_payload p)) points scores.

Definition text_of (p : hit) : json := default (JStr "") (dict_get "text" (h_payload p)).

(** What is left of the points, with the reranker's scores, best first *)
Definition ranked (points : list hit) (scores : list float) (min_score : option float) : list hit :=
  let score i := default fzero (scores !! i) in
  let order := sort_desc score (length points) in
  let order := match min_score with Some m => filter (λ i, fge (score i) m = true) order | None => order end in
  omap (λ i, with_scores points scores !! i) order.

Definition hybrid_search (query_text : string) (topic : option string) (k : option nat) (scope : option AccessScope)
    (rerank_results : bool) (doc_ids : option (list string)) (collection : option string) (min_score : option float) : P (list hit) :=
  let k := match k with Some (S _ as k) => k | _ => RERANK_TOP_K cfg end in
  coll ← check_identity collection;
  let query_filter := _build_filter topic scope doc_ids in
  dense_vector ← embed_query query_text;
  let dense := mkPrefetch (Dense dense_vector) query_filter (HYBRID_PREFETCH_LIMIT cfg) in
  points ← catch_exception
    (sparse_vector ← embed_sparse query_text;
     call (Query_points coll (Fused [dense; mkPrefetch (Sparse sparse_vector) query_filter (HYBRID_PREFETCH_LIMIT cfg)] (HYBRID_PREFETCH_LIMIT cfg))))
    (λ _, call (Count "agent_retrieval_degraded_total" "sparse") ;;
          call (Query_points coll (Plain dense)));
  if bool_decide (points = []) then Ret [] else
  if negb rerank_results then Ret (take k points) else
  catch_exception
    (scores ← rerank query_text (text_of <$> points);
     Ret (take k (ranked points scores min_score)))
    (λ _, call (Count "agent_retrieval_degraded_total" "rerank") ;; Ret (take k points)).

Definition delete_by_filter (must : list condition) : P () :=
  name ← _maintenance_alias None;
  call (Delete_points name must).

Definition count_by_filter (must : list condition) : P Z :=
  name ← _maintenance_alias None;
  call (Count_points name must).

(** [QdrantDocumentIndex] *)
Definition search (q : string) (scope : AccessScope) (topic : option string) (k : option nat) (rerank : bool)
    (doc_ids : option (list string)) (min_score : option float) : P (list hit) :=
  hybrid_search q topic k (Some scope) rerank doc_ids None min_score.

Definition search_catalog (q collection : string) (k : option nat) : P (list hit) :=
  hybrid_search q None k None true None (Some collection) None.

(** ** [memory.py] *)

Definition count_deletion (outcome : string) : P () := call (Count "agent_memory_deletion_total" outcome).

Definition delete_memories (ctx : option SecurityCtx) (memory_id : option string) (older_than_days : option Z) (target_principal : option string) : P Z :=
  match ctx, valid_ctx ctx with
  | Some c, true =>
      if Bool.eqb (bool_decide (memory_id = None)) (bool_decide (older_than_days = None)) then
        count_deletion "refused" ;; Throw (Exc "ValueError" "delete_memories requires EXACTLY ONE of memory_id or older_than_days")
      else
      let principal := if nonempty (default "" target_principal) then default "" target_principal else sc_principal c in
      let must := [Match "tenant" (sc_tenant c); Match "kind" "memory"; Match "owner" principal] in
      selector ← match memory_id with
                 | Some id => Ret (must ++ [Has_id [id]])
                 | None => now ← call Now; Ret (must ++ [Created_lt (now - days (default 0 older_than_days))%Z])
                 end;
      count ← count_by_filter selector;
      delete_by_filter selector ;;
      count_deletion "deleted" ;;
      Ret count
  | _, _ => count_deletion "refused" ;; Throw (Exc "ValueError" "a valid ctx is required to delete memories")
  end.

(** ** [semantic_cache.py] *)

Definition INDEX_PREFIX : string := "idx:semantic_cache:".
Definition KEY_PREFIX : string := "cache:".
Definition _MAX_DISTANCE : float := fsub (float_of_int 1) (SEMANTIC_CACHE_SIMILARITY_THRESHOLD cfg).

(** [_TAG_ESCAPE_RE]: every ASCII character but letters, digits and the underscore *)
Definition special (a : ascii) : bool :=
  let n := N_of_ascii a in
  ((n <=? 47) || (58 <=? n) && (n <=? 64) || (91 <=? n) && (n <=? 94) || (n =? 96) || (123 <=? n) && (n <=? 127))%N.

Fixpoint _escape_tag (value : string) : string :=
  match value with
  | EmptyString => ""
  | String a s => if special a then String "\"%char (String a (_escape_tag s)) else String a (_escape_tag s)
  end.

Record _Namespace : Type := mkNamespace { index : string; prefix : string }.

Definition _ensure_index : P _Namespace :=
  identity ← current_identity;
  let digest := hash8 identity in
  let ns := mkNamespace (INDEX_PREFIX +:+ digest) (KEY_PREFIX +:+ digest +:+ ":") in
  ready ← call (Index_ready (index ns));
  if (ready : bool) then Ret ns else
  catch (call (Create_index (index ns) (prefix ns) (ei_dim identity)))
    (λ e, if String.eqb (exc_class e) "ResponseError" && contains (Text.lower (exc_text e)) "already exists" then Ret () else Throw e) ;;
  call (Set_ready (index ns)) ;;
  Ret ns.

Definition query_text (tenant principal : string) : string :=
  "(@tenant:{" +:+ _escape_tag tenant +:+ "} @principal:{" +:+ _escape_tag principal +:+ "})=>[KNN 1 @embedding $vec AS dist]".

Definition count_cache (outcome : string) : P () := call (Count "agent_semantic_cache_total" outcome).

(** [json.loads(doc.citations)]: what is stored is a list of records. *)
Definition get (ctx : option SecurityCtx) (q : string) : P (option (string * json)) :=
  match ctx, valid_ctx ctx with
  | Some c, true =>
      catch_exception
        (ns ← _ensure_index;
         vector ← embed_query q;
         docs ← call (Ft_search (index ns) (query_text (sc_tenant c) (sc_principal c)) vector);
         match docs with
         | (answer, citations, dist) :: _ =>
             if fgt dist _MAX_DISTANCE then count_cache "miss" ;; Ret None else
             count_cache "hit" ;;
             citations ← of_result (loads_exc citations);
             Ret (Some (answer, citations))
         | [] => count_cache "miss" ;; Ret None
         end)
        (λ _, count_cache "error" ;; Ret None)
  | _, _ => Ret None
  end.

Definition set (ctx : option SecurityCtx) (q answer : string) (citations : json) : P () :=
  match ctx, valid_ctx ctx with
  | Some c, true =>
      catch_exception
        (ns ← _ensure_index;
         vector ← embed_query q;
         id ← call Uuid4;
         let key := prefix ns +:+ id in
         call (Json_set key [("tenant", JStr (sc_tenant c)); ("principal", JStr (sc_principal c)); ("query", JStr q);
                             ("answer", JStr answer); ("citations", JStr (dumps citations))] vector) ;;
         call (Expire key (SEMANTIC_CACHE_TTL_SECONDS cfg)))
        (λ _, count_cache "error")
  | _, _ => Ret ()
  end.
End store.
