(* ===== verification/RetrievalTheorems.v ===== *)
(** The properties of the vector store and of the cache of answers, each with a concrete instance:
    what was known of an alias, and since when, before a collection is accessed; what a search answers, as
    a description ([search_result]) that its clients use; and whom a cached answer was stored for. *)
From Stdlib Require Import Ascii SpecFloat.
From S2P Require Import Prelude Dict Json Messages AgentState Process Sha256 Jobs Calendar Identity Text Retrieval.

Local Open Scope string_scope.
Local Open Scope list_scope.

(** ** Every access is checked *)

Section access.
Context (cfg : store_settings).
Implicit Types (h tr : list (step cmd)) (logical name : string) (target : option string).

(** What an alias stands for *)
Definition stands_for (aliases : list (string * string)) logical : option string :=
  snd <$> head (filter (λ a, a.1 = live_name cfg (Some logical)) aliases).

(** The step shows that the alias of [logical] stood for [target]. *)
Definition shows (s : step cmd) logical target : Prop :=
  (∃ aliases, s = Step Get_aliases (Ok aliases) ∧ stands_for aliases logical = target ∧ target ≠ None) ∨
  (∃ r, s = Step (Update_aliases [CreateAlias logical (live_name cfg (Some logical))]) (Ok r) ∧ target = Some logical) ∨
  (s = Step (Collection_exists logical) (Ok false) ∧ target = None).

(** [h0] came first in [h], and the step after it. *)
Definition done_after h0 h (s : step cmd) : Prop := ∃ h1 h2, h = h0 ++ h1 ++ s :: h2.
(** The alias was looked at after the clock was read as [since]. *)
Definition looked h logical (since : Z) target : Prop := ∃ h0 s, Step Monotonic (Ok since) ∈ h0 ∧ done_after h0 h s ∧ shows s logical target.

(** What is kept of [logical] counts from before it was looked at. *)
Definition justified h logical (entry : Z * option string) : Prop :=
  ∃ since, entry.1 = (since + EMBED_IDENTITY_CACHE_SECONDS cfg)%Z ∧ looked h logical since entry.2.

(** The call knows the target: after it read the clock it read what was kept and had not expired, or looked itself. *)
Definition vouched h logical target : Prop :=
  ∃ now, (∃ expires h0, Step Monotonic (Ok now) ∈ h0 ∧ done_after h0 h (Step (Get_target logical) (Ok (Some (expires, target)))) ∧ (now < expires)%Z) ∨
    looked h logical now target.

(** The length of a vector, as it is kept or as the embedder just gave one *)
Definition measured h (dim : nat) : Prop :=
  Step Get_dim (Ok (Some dim)) ∈ h ∨
  ∃ v vs, Step (Embed_documents [EMBED_DOCUMENT_PREFIX cfg +:+ "dimension probe"]) (Ok (v :: vs)) ∈ h ∧ dim = length v.

(** A target that carries an identity carries the one this process is configured for. *)
Definition agrees h logical target : Prop :=
  ∀ physical found, target = Some physical → identity_hash_of physical logical = Some found →
    ∃ resolved dim, Step (Resolve_model (EMBED_MODEL cfg)) (Ok resolved) ∈ h ∧ measured h dim ∧
      found = hash8 (mkIdentity (EMBED_MODEL cfg) resolved dim (EMBED_QUERY_PREFIX cfg) (EMBED_DOCUMENT_PREFIX cfg) (EMBED_MODEL_REVISION cfg)).

Definition checked h name : Prop :=
  ∃ logical target, name = live_name cfg (Some logical) ∧ vouched h logical target ∧ agrees h logical target.

(** What a call may do after [h] *)
Definition may h R (c : cmd R) : Prop :=
  match c with
  | Upsert name _ | Query_points name _ => checked h name
  | Set_target logical entry => justified h logical entry
  | _ => True
  end.
Definition record h R (c : cmd R) (r : result exc R) : list (step cmd) := h ++ [Step c r].

Abbreviation minds := (safe may record).

(** *** Knowledge only grows *)

Lemma prefix_elem h h' s : h `prefix_of` h' → s ∈ h → s ∈ h'.
Proof. intros [k ->] Hs. apply elem_of_app. by left. Qed.
Lemma done_mono h0 h h' s : h `prefix_of` h' → done_after h0 h s → done_after h0 h' s.
Proof. intros [k ->] (h1 & h2 & ->). exists h1, (h2 ++ k). by rewrite <-!app_assoc. Qed.
Lemma done_earlier h0 h1 h s : h0 `prefix_of` h1 → done_after h1 h s → done_after h0 h s.
Proof. intros [k ->] (h2 & h3 & ->). exists (k ++ h2), h3. by rewrite <-!app_assoc. Qed.
Lemma done_elem h0 h s : done_after h0 h s → s ∈ h.
Proof. intros (h1 & h2 & ->). set_solver. Qed.
Lemma looked_mono h h' logical since target : h `prefix_of` h' → looked h logical since target → looked h' logical since target.
Proof. intros Hs (h0 & s & H1 & H2 & H3). exists h0, s. split_and!; [done|by eapply done_mono|done]. Qed.
Lemma vouched_mono h h' logical target : h `prefix_of` h' → vouched h logical target → vouched h' logical target.
Proof.
  intros Hs (now & [(e & h0 & H1 & H2 & H3)|H2]); exists now; [left|right; by eapply looked_mono].
  exists e, h0. split_and!; [done|by eapply done_mono|done].
Qed.
Lemma measured_mono h h' dim : h `prefix_of` h' → measured h dim → measured h' dim.
Proof. intros Hs [H|(v & vs & H & ->)]; [left; by eapply prefix_elem|]. right. exists v, vs. split; [by eapply prefix_elem|done]. Qed.
Lemma agrees_mono h h' logical target : h `prefix_of` h' → agrees h logical target → agrees h' logical target.
Proof.
  intros Hs Ha p f Ht Hf. destruct (Ha p f Ht Hf) as (m & d & H1 & H2 & E). exists m, d. split_and!; [by eapply prefix_elem|by eapply measured_mono|done].
Qed.
Lemma checked_mono h h' name : h `prefix_of` h' → checked h name → checked h' name.
Proof.
  intros Hs (l & t & -> & Hv & Ha). exists l, t. split_and!; [done|by eapply vouched_mono|by eapply agrees_mono].
Qed.

Lemma record_grows h R (c : cmd R) r : h `prefix_of` record h R c r.
Proof. by exists [Step c r]. Qed.
Lemma record_done h0 h R (c : cmd R) r : h0 `prefix_of` h → done_after h0 (record h R c r) (Step c r).
Proof. intros [k ->]. exists k, []. unfold record. by rewrite <-!app_assoc. Qed.

(** A program that minds the rules when at least [h0] is known, with [Q] of what is known when it
    returns *)
Definition mind {A} h0 (p : prog cmd A) (Q : list (step cmd) → A → Prop) : Prop :=
  ∀ h, h0 `prefix_of` h → minds h p (λ h' r, h `prefix_of` h' ∧ match r with Ok a => Q h' a | Err _ => True end).
Abbreviation anything := (λ _ _, True).

Lemma mind_call {R} h0 (c : cmd R) : (∀ h, h0 `prefix_of` h → may h R c) → mind h0 (call c) (λ h r, done_after h0 h (Step c (Ok r))).
Proof.
  intros Hc h Hh. split; [by apply Hc|]. intros [v|e]; cbn [safe]; (split; [apply record_grows|]); [by apply record_done|done].
Qed.

Lemma mind_ret {A} h0 (a : A) Q : (∀ h, h0 `prefix_of` h → Q h a) → mind h0 (Ret a) Q.
Proof. intros HQ h Hh. cbn [safe]. auto. Qed.
Lemma mind_throw {A} h0 e Q : mind h0 (Throw e : prog cmd A) Q.
Proof. intros h. cbn [safe]. done. Qed.
Lemma mind_of_result {A} h0 (r : result exc A) : mind h0 (of_result r) anything.
Proof. destruct r; [by apply mind_ret|apply mind_throw]. Qed.

Lemma mind_bind_at {A B} h0 (p : prog cmd A) (f : A → prog cmd B) Q1 Q :
  mind h0 p Q1 → (∀ h a, h0 `prefix_of` h → Q1 h a → mind h (f a) Q) → mind h0 (bind p f) Q.
Proof.
  intros Hp Hf h Hh. apply safe_bind. eapply safe_conseq; [by apply Hp|]. intros h' [a|e] [Hs H1]; [|done].
  eapply safe_conseq; [eapply Hf; [|exact H1|done]; by etrans|]. intros h'' r [Hs' Hr]. split; [by etrans|done].
Qed.

Lemma mind_conseq {A} h0 (p : prog cmd A) Q Q' : mind h0 p Q → (∀ h a, h0 `prefix_of` h → Q h a → Q' h a) → mind h0 p Q'.
Proof. intros Hp HQ h Hh. eapply safe_conseq; [by apply Hp|]. intros h' [a|e] [Hs H]; (split; [done|]); [|done]. apply HQ; [by etrans|done]. Qed.
Lemma mind_weaken {A} h0 h1 (p : prog cmd A) Q : mind h0 p Q → h0 `prefix_of` h1 → mind h1 p Q.
Proof. intros Hp Hs h Hh. apply Hp. by etrans. Qed.

Lemma mind_bind {A B} h0 (p : prog cmd A) (f : A → prog cmd B) Q : mind h0 p anything → (∀ a, mind h0 (f a) Q) → mind h0 (bind p f) Q.
Proof. intros Hp Hf. eapply mind_bind_at; [exact Hp|]. intros h a Hs _. by eapply mind_weaken. Qed.

Lemma mind_catch {A} h0 (p : prog cmd A) (g : exc → prog cmd A) Q : mind h0 p Q → (∀ e, mind h0 (g e) Q) → mind h0 (catch p g) Q.
Proof.
  intros Hp Hg h Hh. apply safe_catch. eapply safe_conseq; [by apply Hp|]. intros h' [a|e] [Hs H1]; [done|].
  eapply safe_conseq; [apply Hg; by etrans|]. intros h'' r [Hs' Hr]. split; [by etrans|done].
Qed.
Lemma mind_catch_exception {A} h0 (p : prog cmd A) (g : exc → prog cmd A) Q :
  mind h0 p Q → (∀ e, mind h0 (g e) Q) → mind h0 (catch_exception p g) Q.
Proof. intros Hp Hg. apply mind_catch; [done|]. intros e. destruct (base_exception e); [apply mind_throw|apply Hg]. Qed.

Lemma mind_if {A} h0 (b : bool) (p q : prog cmd A) Q : mind h0 p Q → mind h0 q Q → mind h0 (if b then p else q) Q.
Proof. by destruct b. Qed.
Lemma mind_each {A} h0 (xs : list A) f : (∀ x, mind h0 (f x) anything) → mind h0 (each xs f) anything.
Proof. intros Hf. induction xs as [|x xs IH]; cbn [each]; [by apply mind_ret|by apply mind_bind]. Qed.

Lemma mind_call_any {R} h0 (c : cmd R) : (∀ h, h0 `prefix_of` h → may h R c) → mind h0 (call c) anything.
Proof. intros Hc. eapply mind_conseq; [by apply mind_call|done]. Qed.
Lemma mind_ret_any {A} h0 (a : A) : mind h0 (Ret a) anything.
Proof. by apply mind_ret. Qed.
End access.

Create HintDb minding discriminated.
#[export] Hint Resolve mind_ret_any mind_throw mind_of_result mind_call_any mind_bind mind_catch mind_catch_exception mind_if mind_each : minding.
#[export] Hint Extern 3 => progress intros : minding.
#[export] Hint Extern 2 (may _ _ _ _) => exact I : minding.
#[export] Hint Extern 2 True => exact I : minding.

Section operations.
Context (cfg : store_settings).
Implicit Types (h tr : list (step cmd)) (logical name : string) (target : option string).

Abbreviation mind := (mind cfg []).
Abbreviation anything := (λ _ _, True).

Lemma logical_idem collection : logical_of cfg (Some (logical_of cfg collection)) = logical_of cfg collection.
Proof. unfold logical_of. destruct collection as [c|]; [destruct (nonempty c) eqn:E|]; rewrite ?E; [done| |]; by destruct (nonempty (COLLECTION cfg)). Qed.

Lemma alias_target_minds h0 logical :
  RetrievalTheorems.mind cfg h0 (alias_target cfg (Some logical))
    (λ h target, ∃ aliases, done_after h0 h (Step Get_aliases (Ok aliases)) ∧ stands_for cfg aliases logical = target).
Proof.
  eapply mind_bind_at; [by apply mind_call|]. intros h aliases _ Hin. apply mind_ret. intros h' Hs. exists aliases. split; [by eapply done_mono|done].
Qed.

Lemma ensure_live_minds h0 collection :
  RetrievalTheorems.mind cfg h0 (ensure_live cfg collection) (λ h target, ∃ s, done_after h0 h s ∧ shows cfg s (logical_of cfg collection) target).
Proof.
  set (logical := logical_of cfg collection). unfold ensure_live. fold logical.
  eapply mind_bind_at; [apply alias_target_minds|]. intros h1 [t|] Hs1 (al & Hin & Hst).
  { apply mind_ret. intros h' Hs. eexists. split; [by eapply done_mono|]. left. by exists al. }
  eapply mind_bind_at; [by apply mind_call|]. intros h2 [] Hs2 Hex; cbn [negb].
  2: { apply mind_ret. intros h' Hs. eexists. split; [eapply done_mono, done_earlier; [exact Hs|exact Hs1|done]|]. by right; right. }
  apply mind_catch_exception.
  - eapply mind_bind_at; [by apply mind_call|]. intros h3 r Hs3 Hu. apply mind_ret. intros h' Hs.
    eexists. split; [eapply done_mono, done_earlier; [exact Hs| |exact Hu]; by etrans|]. right. left. by exists r.
  - intros e. eapply mind_bind_at; [apply alias_target_minds|].
    intros h3 [t|] Hs3 (al' & Hin' & Hst'); [|apply mind_throw]. apply mind_ret. intros h' Hs.
    eexists. split; [eapply done_mono, done_earlier; [exact Hs| |exact Hin']; by etrans|]. left. by exists al'.
Qed.

Lemma resolve_minds logical : logical_of cfg (Some logical) = logical →
  mind (_resolve_target cfg logical) (λ h r, vouched cfg h logical r.1).
Proof.
  intros Hl. eapply mind_bind_at; [by apply mind_call|]. intros h1 now _ Hnow%done_elem.
  eapply mind_bind_at; [by apply mind_call|]. intros h2 cached Hs2 Hc.
  destruct (unexpired now cached) as [target|] eqn:Eu.
  - apply mind_ret. intros h' Hs. destruct cached as [[e t]|]; [|done]. cbn [unexpired] in Eu.
    destruct (Z.ltb_spec now e) as [He|]; [|done]. injection Eu as ->. exists now. left. exists e, h1. split_and!; [done|by eapply done_mono|done].
  - eapply mind_bind_at; [apply ensure_live_minds|]. rewrite Hl. intros h3 target Hs3 (s & Hdone & Hshow).
    assert (Hlook : looked cfg h3 logical now target) by (exists h1, s; split_and!; [done|by eapply done_earlier|done]).
    apply mind_bind.
    + apply mind_call_any. intros h4 Hs4. exists now. split; [done|]. by eapply looked_mono.
    + intros []. apply mind_ret. intros h' Hs. exists now. right. by eapply looked_mono.
Qed.

Lemma embedding_dim_minds h0 : RetrievalTheorems.mind cfg h0 (embedding_dim cfg) (λ h dim, measured cfg h dim).
Proof.
  unfold embedding_dim, embed_document, embed_documents. eapply mind_bind_at; [by apply mind_call|]. intros h1 [d|] _ Hd%done_elem.
  { apply mind_ret. intros h' Hs. left. by eapply prefix_elem. }
  eapply mind_bind_at; [eapply mind_bind_at; [by apply mind_call|]; intros h2 vs _ Hv%done_elem; instantiate (1 := λ h v, ∃ vs,
    Step (Embed_documents [EMBED_DOCUMENT_PREFIX cfg +:+ "dimension probe"]) (Ok (v :: vs)) ∈ h)|].
  - destruct vs as [|v vs]; [apply mind_throw|]. apply mind_ret. intros h' Hs. exists vs. by eapply prefix_elem.
  - intros h2 v _ [vs Hv]. apply mind_bind; [by apply mind_call_any|]. intros []. apply mind_ret. intros h' Hs. right. exists v, vs. split; [by eapply prefix_elem|done].
Qed.

Lemma current_identity_minds h0 :
  RetrievalTheorems.mind cfg h0 (current_identity cfg) (λ h i, ∃ resolved dim, Step (Resolve_model (EMBED_MODEL cfg)) (Ok resolved) ∈ h ∧ measured cfg h dim ∧
    i = mkIdentity (EMBED_MODEL cfg) resolved dim (EMBED_QUERY_PREFIX cfg) (EMBED_DOCUMENT_PREFIX cfg) (EMBED_MODEL_REVISION cfg)).
Proof.
  eapply mind_bind_at; [by apply mind_call|]. intros h1 resolved _ Hr%done_elem.
  eapply mind_bind_at; [apply embedding_dim_minds|]. intros h2 dim Hs2 Hd.
  apply mind_ret. intros h' Hs. exists resolved, dim. split_and!; [eapply prefix_elem, Hr; by etrans|by eapply measured_mono|done].
Qed.

Lemma check_identity_minds collection : mind (check_identity cfg collection) (λ h name, checked cfg h name).
Proof.
  unfold check_identity, count_identity. eapply mind_bind_at; [apply resolve_minds, logical_idem|]. intros h1 [target refreshed] _ Hv. cbn [fst] in Hv.
  set (logical := logical_of cfg collection) in *. destruct target as [t|].
  2: { apply mind_ret. intros h' Hs. exists logical, None. split_and!; [done|by eapply vouched_mono|]. intros p f [=]. }
  destruct (identity_hash_of t logical) as [found|] eqn:Ef.
  - eapply mind_bind_at; [apply current_identity_minds|]. intros h2 i Hs2 (resolved & dim & Hr & Hd & Ei).
    destruct (String.eqb_spec (hash8 i) found) as [E|]; cbn [negb]; [|by auto 12 with minding].
    apply mind_bind; [by auto 12 with minding|]. intros []. apply mind_ret. intros h' Hs. exists logical, (Some t). split_and!; [done|eapply vouched_mono, Hv; by etrans|].
    intros p f [= <-] Hf. rewrite Ef in Hf. injection Hf as <-. exists resolved, dim. split_and!; [by eapply prefix_elem|by eapply measured_mono|by rewrite <-Ei].
  - apply mind_bind; [by auto 12 with minding|]. intros []. apply mind_ret. intros h' Hs. exists logical, (Some t). split_and!; [done|by eapply vouched_mono|].
    intros p f [= <-] Hf. by rewrite Ef in Hf.
Qed.

Lemma upsert_minds points collection : mind (upsert cfg points collection) anything.
Proof.
  eapply mind_bind_at; [apply check_identity_minds|]. intros h name _ Hc. apply mind_each. intros b. apply mind_call_any.
  intros h' Hs. by eapply checked_mono.
Qed.

Lemma hybrid_search_minds q topic k scope rr ids collection min_score : mind (hybrid_search cfg q topic k scope rr ids collection min_score) anything.
Proof.
  eapply mind_bind_at; [apply check_identity_minds|]. intros h name _ Hc. cbv zeta.
  assert (Hq : ∀ x, RetrievalTheorems.mind cfg h (call (Query_points name x)) anything).
  { intros x. apply mind_call_any. intros h' Hs. by eapply checked_mono. }
  unfold embed_query, embed_sparse, embed_sparse_batch, rerank.
  apply mind_bind; [by auto 12 with minding|]. intros v. apply mind_bind.
  - apply mind_catch_exception; [|by auto 12 with minding]. apply mind_bind; [|done]. apply mind_bind; [by auto 12 with minding|].
    intros [|s l]; auto 12 with minding.
  - intros points. apply mind_if; [by auto 12 with minding|]. apply mind_if; auto 12 with minding.
Qed.

Lemma delete_by_filter_minds must : mind (delete_by_filter cfg must) anything.
Proof.
  unfold delete_by_filter, _maintenance_alias. apply mind_bind; [|by auto 12 with minding]. apply mind_bind; [|by auto 12 with minding].
  eapply mind_conseq; [apply resolve_minds, logical_idem|done].
Qed.
Lemma count_by_filter_minds must : mind (count_by_filter cfg must) anything.
Proof.
  unfold count_by_filter, _maintenance_alias. apply mind_bind; [|by auto 12 with minding]. apply mind_bind; [|by auto 12 with minding].
  eapply mind_conseq; [apply resolve_minds, logical_idem|done].
Qed.
Lemma ensure_collection_minds dim collection : mind (ensure_collection cfg dim collection) anything.
Proof.
  unfold ensure_collection, create_physical, repoint_live, alias_target, reset_identity_cache. apply mind_bind; [|by auto 12 with minding].
  eapply mind_conseq; [apply current_identity_minds|done].
Qed.
Lemma embed_query_minds q : mind (embed_query cfg q) anything.
Proof. unfold embed_query. by auto with minding. Qed.
Lemma ensure_index_minds : mind (_ensure_index cfg) anything.
Proof.
  unfold _ensure_index. apply mind_bind; [eapply mind_conseq; [apply current_identity_minds|done]|]. intros i.
  apply mind_bind; [by auto with minding|]. intros []; [by auto with minding|]. apply mind_bind; [|by auto 12 with minding].
  apply mind_catch; auto 12 with minding.
Qed.
#[local] Hint Resolve embed_query_minds ensure_index_minds delete_by_filter_minds count_by_filter_minds : minding.

Lemma get_minds ctx q : mind (get cfg ctx q) anything.
Proof.
  unfold get. destruct ctx as [c|]; [|by auto with minding]. destruct (valid_ctx _); [|by auto with minding].
  apply mind_catch_exception; [|by unfold count_cache; auto 12 with minding].
  apply mind_bind; [by auto with minding|]. intros ns. apply mind_bind; [by auto with minding|]. intros v.
  apply mind_bind; [by auto with minding|]. unfold count_cache. intros [|[[a ci] d] docs]; auto 12 with minding.
Qed.
Lemma set_minds ctx q answer citations : mind (set cfg ctx q answer citations) anything.
Proof.
  unfold set. destruct ctx as [c|]; [|by auto with minding]. destruct (valid_ctx _); [|by auto with minding].
  unfold count_cache. auto 20 with minding.
Qed.
Lemma delete_memories_minds ctx id older target : mind (delete_memories cfg ctx id older target) anything.
Proof.
  unfold delete_memories, count_deletion. destruct ctx as [c|]; [|by auto 12 with minding]. destruct (valid_ctx _); [|by auto 12 with minding].
  apply mind_if; [by auto 12 with minding|]. cbv zeta. apply mind_bind; [destruct id; by auto 12 with minding|]. auto 20 with minding.
Qed.

(** *** Many calls over one process *)

(** The calls of this component *)
Inductive operation : ∀ A, prog cmd A → Prop :=
| op_upsert points collection : operation () (upsert cfg points collection)
| op_search q topic k scope rr ids collection min_score : operation (list hit) (hybrid_search cfg q topic k scope rr ids collection min_score)
| op_delete ctx id older target : operation Z (delete_memories cfg ctx id older target)
| op_ensure dim collection : operation () (ensure_collection cfg dim collection)
| op_get ctx q : operation (option (string * json)) (get cfg ctx q)
| op_set ctx q answer citations : operation () (set cfg ctx q answer citations).

Lemma operation_minds A (p : prog cmd A) : operation A p → mind p anything.
Proof.
  destruct 1; [apply upsert_minds|apply hybrid_search_minds|apply delete_memories_minds|apply ensure_collection_minds|apply get_minds|apply set_minds].
Qed.

(** The steps of call [j] in what a process did *)
Definition of_call (j : nat) (log : list (nat * step cmd)) : list (step cmd) := snd <$> filter (λ x, x.1 = j) log.

(** What is kept of [logical] after some steps *)
Definition keep logical (kept : option (Z * option string)) (s : step cmd) : option (Z * option string) :=
  match s with
  | Step c _ =>
      match c with
      | Set_target l entry => if String.eqb l logical then Some entry else kept
      | Clear_targets => None
      | _ => kept
      end
  end.
Definition kept_target logical (steps : list (step cmd)) : option (Z * option string) := foldl (keep logical) None steps.

(** The target a step reads, and what it is given *)
Definition target_read (s : step cmd) : option (string * result exc (option (Z * option string))) :=
  match s with
  | Step c r => match c in cmd R return result exc R → option (string * result exc (option (Z * option string))) with
                | Get_target logical => λ r, Some (logical, r)
                | _ => λ _, None
                end r
  end.

(** What a process did: the steps of any number of calls, also unfinished ones, in any order, with one dict of targets. *)
Record execution (log : list (nat * step cmd)) : Prop := {
  exec_calls j : of_call j log ≠ [] → ∃ A (p : prog cmd A) rest out, operation A p ∧ path p (of_call j log ++ rest) out;
  exec_targets i j s logical a : log !! i = Some (j, s) → target_read s = Some (logical, a) → a = Ok (kept_target logical (snd <$> take i log));
}.

(** The collection a step reads or writes *)
Definition accesses (s : step cmd) : option string :=
  match s with Step c _ => match c with Upsert name _ | Query_points name _ => Some name | _ => None end end.

Lemma after_record tr h : after record h tr = h ++ tr.
Proof. revert h. induction tr as [|[R c r] tr IH]; intros h; cbn [after]; [by rewrite app_nil_r|]. rewrite IH. unfold record. by rewrite <-app_assoc. Qed.

Lemma of_call_app j log log' : of_call j (log ++ log') = of_call j log ++ of_call j log'.
Proof. unfold of_call. by rewrite filter_app, fmap_app. Qed.

(** Every step is one its call may make, after what its call has seen. *)
Lemma execution_may log i j R (c : cmd R) r : execution log → log !! i = Some (j, Step c r) → may cfg (of_call j (take i log)) R c.
Proof.
  intros He Hi. assert (E : of_call j log = of_call j (take i log) ++ Step c r :: of_call j (drop (S i) log)).
  { rewrite <-(take_drop_middle _ _ _ Hi) at 1. rewrite of_call_app. f_equal. unfold of_call at 1. by rewrite filter_cons_True. }
  destruct (exec_calls _ He j) as (A & p & rest & out & Ho & Hp); [rewrite E; by destruct (of_call j (take i log))|].
  destruct (safe_path _ _ _ _ _ _ _ (operation_minds _ _ Ho [] ltac:(done)) Hp) as [Hk _].
  rewrite E, <-app_assoc in Hk. apply kept_split in Hk as [_ Hk]. cbn [kept app] in Hk. destruct Hk as [Hm _].
  by rewrite after_record in Hm.
Qed.

(** What is kept was put. *)
Lemma kept_target_put logical (log : list (nat * step cmd)) entry : kept_target logical (snd <$> log) = Some entry →
  ∃ i j r, log !! i = Some (j, Step (Set_target logical entry) r).
Proof.
  unfold kept_target. induction log as [|[j s] log IH] using rev_ind; [done|]. rewrite fmap_app, foldl_app. cbn [foldl fmap list_fmap snd keep].
  destruct s as [R c r].
  assert (Hold : foldl (keep logical) None (snd <$> log) = Some entry → ∃ i j' r', (log ++ [(j, Step c r)]) !! i = Some (j', Step (Set_target logical entry) r')).
  { intros (i & j' & r' & Hi)%IH. exists i, j', r'. rewrite lookup_app_l; [done|by eapply lookup_lt_Some]. }
  destruct c; try exact Hold; [|done]. cbn [keep].
  destruct (String.eqb_spec logical0 logical) as [->|]; [|exact Hold]. intros [= ->]. exists (length log), j, r. by rewrite list_lookup_middle.
Qed.

(** What a call has done is somewhere in the log, after what it did before. *)
Lemma of_call_split j (log : list (nat * step cmd)) h1 s h2 : of_call j log = h1 ++ s :: h2 →
  ∃ i, log !! i = Some (j, s) ∧ of_call j (take i log) = h1.
Proof.
  revert h1. induction log as [|[j' x] log IH]; intros h1; [by destruct h1|]. unfold of_call at 1. rewrite filter_cons. cbn [fst]. fold (of_call j log).
  destruct (decide (j' = j)) as [->|Hj].
  - destruct h1 as [|y h1]; intros [= -> E]; [by exists 0%nat|]. apply IH in E as (i & Hi & E). exists (S i). split; [done|].
    cbn [take]. unfold of_call. rewrite filter_cons_True by done. rewrite fmap_cons. cbn [snd]. f_equal. exact E.
  - intros E. apply IH in E as (i & Hi & E). exists (S i). split; [done|]. cbn [take]. unfold of_call. by rewrite filter_cons_False.
Qed.

Lemma done_at j (log : list (nat * step cmd)) h0 s s0 i : s0 ∈ h0 → done_after h0 (of_call j (take i log)) s →
  ∃ i0 i1, (i0 < i1 < i)%nat ∧ log !! i0 = Some (j, s0) ∧ log !! i1 = Some (j, s).
Proof.
  intros Hs0 (h1 & h2 & E). rewrite app_assoc in E. apply of_call_split in E as (i1 & Hi1 & E).
  pose proof (lookup_lt_Some _ _ _ Hi1) as Hlt. rewrite length_take in Hlt. rewrite lookup_take_lt in Hi1 by lia. rewrite take_take, Nat.min_l in E by lia.
  apply list_elem_of_split in Hs0 as (k1 & k2 & ->). rewrite <-!app_assoc in E. cbn [app] in E. apply of_call_split in E as (i0 & Hi0 & _).
  pose proof (lookup_lt_Some _ _ _ Hi0) as Hlt0. rewrite length_take in Hlt0. rewrite lookup_take_lt in Hi0 by lia. exists i0, i1. split_and!; [lia..|done|done].
Qed.

(** At step [i1] a call looked at the alias, having read the clock as [since] at step [i0]. *)
Definition looked_at (log : list (nat * step cmd)) logical target (i0 i1 : nat) (since : Z) : Prop :=
  (i0 < i1)%nat ∧ ∃ j s, log !! i0 = Some (j, Step Monotonic (Ok since)) ∧ log !! i1 = Some (j, s) ∧ shows cfg s logical target.

End operations.

(** ** A search stays in its scope *)

Section meaning.
Context (cfg : store_settings) (same_id : string → json → bool) (when_at : json → option Z).
Implicit Types (tr : list (step cmd)) (h : hit) (points hits : list hit).

(** What the store documents of a condition: a value is matched by itself or as one of a list, and
    a point without a time meets no condition on it. *)
Definition meets h (c : condition) : bool :=
  match c with
  | Match key v =>
      match dict_get key (h_payload h) with
      | Some (JStr s) => String.eqb s v
      | Some (JList l) => bool_decide (JStr v ∈ l)
      | _ => false
      end
  | Created_gte t => match dict_get "created_at" (h_payload h) with Some j => match when_at j with Some u => (t <=? u)%Z | None => false end | None => false end
  | Created_lt t => match dict_get "created_at" (h_payload h) with Some j => match when_at j with Some u => (u <? t)%Z | None => false end | None => false end
  | Has_id ids => existsb (λ i, same_id i (h_id h)) ids
  end.

Definition meets_all h (must : option (list condition)) : bool := forallb (meets h) (default [] must).
Definition legs_of (q : query) : list prefetch := match q with Fused legs _ => legs | Plain leg => [leg] end.

(** The store answers a query with points that meet the filter of one of its legs. *)
Definition filters_step (s : step cmd) : bool :=
  match s with
  | Step c r => match c in cmd R return result exc R → bool with
                | Query_points _ q => λ r, match r with
                    | Ok hits => forallb (λ h, existsb (λ leg, meets_all h (pf_filter leg)) (legs_of q)) hits
                    | Err _ => true
                    end
                | _ => λ _, true
                end r
  end.
Definition filters tr : Prop := forallb filters_step tr = true.

Lemma filters_hit tr name q hits h : filters tr → Step (Query_points name q) (Ok hits) ∈ tr → h ∈ hits →
  ∃ leg, leg ∈ legs_of q ∧ meets_all h (pf_filter leg) = true.
Proof.
  unfold filters. rewrite forallb_forall. intros Hf Hs%list_elem_of_In Hh%list_elem_of_In. apply Hf in Hs. cbn in Hs.
  rewrite forallb_forall in Hs. apply Hs, existsb_exists in Hh as (leg & Hl%list_elem_of_In & Hm). by exists leg.
Qed.

(** A value that is matched, by itself or as one of a list *)
Definition has_value key v h : Prop := ∃ j, dict_get key (h_payload h) = Some j ∧ (j = JStr v ∨ ∃ l, j = JList l ∧ JStr v ∈ l).

(** What may be seen in a scope: its tenant's and of its kind, and where it says so its owner's and not older *)
Definition in_scope (scope : AccessScope) h : Prop :=
  has_value "tenant" (as_tenant scope) h ∧
  has_value "kind" (match as_kind scope with Sdocument => "document" | Smemory => "memory" end) h ∧
  (∀ o, as_owner scope = Some o → has_value "owner" o h) ∧
  (∀ t, as_created_after scope = Some t → ∃ j u, dict_get "created_at" (h_payload h) = Some j ∧ when_at j = Some u ∧ (t <= u)%Z).

(** And what was asked for in it *)
Definition wanted (scope : AccessScope) (topic : option string) (ids : option (list string)) h : Prop :=
  in_scope scope h ∧ (∀ t, topic = Some t → t ≠ "" → has_value "topic" t h) ∧
  (∀ l, ids = Some l → l ≠ [] → ∃ i, i ∈ l ∧ same_id i (h_id h) = true).

Lemma match_has_value key v h : meets h (Match key v) = true ↔ has_value key v h.
Proof.
  unfold meets, has_value. destruct (dict_get key _) as [j|]; [|split; [done|by intros (j & [=] & _)]]. split.
  - destruct j; try done.
    + intros ->%String.eqb_eq. eexists. split; [done|by left].
    + intros H%bool_decide_eq_true. eexists. split; [done|]. right. eauto.
  - intros (? & [= <-] & [->|(l & -> & Hl)]); [by apply String.eqb_eq|by apply bool_decide_eq_true].
Qed.

(** The filter of a search means what was asked for. *)
Lemma filter_wanted scope topic ids h : meets_all h (_build_filter topic (Some scope) ids) = true ↔ wanted scope topic ids h.
Proof.
  unfold meets_all, _build_filter. set (must := _ ++ _ ++ _).
  assert (E : default [] (if bool_decide (must = []) then None else Some must) = must) by (case_bool_decide as E; [by rewrite E|done]). rewrite E. clear E.
  unfold must, wanted, in_scope, scope_filter, kind_text. rewrite !forallb_app, !andb_true_iff. cbn [forallb]. rewrite !andb_true_iff, !match_has_value.
  assert (Howner : forallb (meets h) (match as_owner scope with Some o => [Match "owner" o] | None => [] end) = true ↔ ∀ o, as_owner scope = Some o → has_value "owner" o h).
  { destruct (as_owner scope) as [o|]; cbn [forallb]; [rewrite andb_true_r, match_has_value|]; naive_solver. }
  assert (Hafter : forallb (meets h) (match as_created_after scope with Some t => [Created_gte t] | None => [] end) = true ↔
    ∀ t, as_created_after scope = Some t → ∃ j u, dict_get "created_at" (h_payload h) = Some j ∧ when_at j = Some u ∧ (t <= u)%Z).
  { destruct (as_created_after scope) as [t|]; cbn [forallb]; [|naive_solver]. rewrite andb_true_r. unfold meets. destruct (dict_get _ _) as [j|]; [|naive_solver].
    destruct (when_at j) as [u|] eqn:Eu; [rewrite Z.leb_le|]; naive_solver. }
  assert (Htopic : forallb (meets h) (if nonempty (default "" topic) then [Match "topic" (default "" topic)] else []) = true ↔ ∀ t, topic = Some t → t ≠ "" → has_value "topic" t h).
  { destruct topic as [[|a t]|]; [naive_solver| |naive_solver]. change (meets h (Match "topic" (String a t)) && true = true ↔
      ∀ t', Some (String a t) = Some t' → t' ≠ "" → has_value "topic" t' h). rewrite andb_true_r, match_has_value. naive_solver. }
  assert (Hids : forallb (meets h) (match ids with Some ((_ :: _) as ids) => [Has_id ids] | _ => [] end) = true ↔ ∀ l, ids = Some l → l ≠ [] → ∃ i, i ∈ l ∧ same_id i (h_id h) = true).
  { destruct ids as [[|i l]|]; [naive_solver| |naive_solver]. cbn [forallb]. rewrite andb_true_r. cbn [meets]. rewrite existsb_exists. setoid_rewrite <-list_elem_of_In. naive_solver. }
  rewrite Howner, Hafter, Htopic, Hids. destruct (as_kind scope); intuition.
Qed.

(** Floats that are numbers are ordered by sign, exponent and mantissa. *)
Definition rank (x : float) : Z * Z * Z :=
  match x with
  | S754_infinity s => ((if s : bool then -2 else 2), 0, 0)
  | S754_finite s m e => if s : bool then (-1, - e, Z.neg m) else (1, e, Z.pos m)
  | _ => (0, 0, 0)
  end%Z.
Definition rank_lt (a b : Z * Z * Z) : Prop :=
  (a.1.1 < b.1.1 ∨ a.1.1 = b.1.1 ∧ (a.1.2 < b.1.2 ∨ a.1.2 = b.1.2 ∧ a.2 < b.2))%Z.

Lemma flt_rank x y : x ≠ S754_nan → y ≠ S754_nan → flt x y = true ↔ rank_lt (rank x) (rank y).
Proof.
  unfold flt, SFltb, rank_lt. destruct x as [[]|[]| |[] m e], y as [[]|[]| |[] m' e']; intros Hx Hy; try done; cbn [SFcompare rank fst snd];
    try (split; [done|lia]); try (split; [lia|done]).
  all: change (Pos.compare_cont Eq m m') with (m ?= m')%positive;
    destruct (Z.compare_spec e e'), (Pos.compare_spec m m'); cbn; subst; split; (done || lia).
Qed.

Definition nan_free (l : list float) : Prop := Forall (λ x, x ≠ S754_nan) l.

Section order.
Context (score : nat → float) (Hscore : ∀ i, score i ≠ S754_nan).

Lemma insert_desc_perm i order : insert_desc score i order ≡ₚ i :: order.
Proof. induction order as [|j order IH]; cbn; [done|]. destruct (flt _ _); [done|]. rewrite IH. apply Permutation_swap. Qed.

Lemma sort_desc_perm n : sort_desc score n ≡ₚ seq 0 n.
Proof.
  unfold sort_desc. enough (H : ∀ l o, foldl (λ order i, insert_desc score i order) o l ≡ₚ o ++ l) by apply H.
  induction l as [|i l IH]; intros o; cbn; [by rewrite app_nil_r|]. rewrite IH, insert_desc_perm. by rewrite <-Permutation_middle.
Qed.

(** The earlier place of two in the answer: the better score's, and of two as good the first *)
Definition ahead (i j : nat) : Prop := flt (score j) (score i) = true ∨ flt (score i) (score j) = false ∧ (i < j)%nat.

Lemma ahead_trans i j k : ahead i j → ahead j k → ahead i k.
Proof using Hscore. unfold ahead. rewrite <-!not_true_iff_false, !flt_rank by apply Hscore. unfold rank_lt. lia. Qed.

Lemma insert_desc_sorted i order : Forall (λ j, j < i)%nat order → StronglySorted ahead order → StronglySorted ahead (insert_desc score i order).
Proof using Hscore.
  intros Hi. induction 1 as [|j order Hs IH Hj]; cbn; [by repeat constructor|]. apply Forall_cons in Hi as [Hji Hi]. destruct (flt _ _) eqn:E.
  - assert (Hij : ahead i j) by by left. constructor; [by constructor|]. constructor; [done|].
    eapply Forall_impl; [exact Hj|]. intros k. by apply ahead_trans.
  - constructor; [by apply IH|]. rewrite insert_desc_perm. constructor; [by right|done].
Qed.

Lemma sort_desc_sorted n : StronglySorted ahead (sort_desc score n).
Proof using Hscore.
  unfold sort_desc. enough (H : ∀ l m o, l = seq m (length l) → Forall (λ j, j < m)%nat o → StronglySorted ahead o →
    StronglySorted ahead (foldl (λ order i, insert_desc score i order) o l)) by (apply (H _ 0%nat); [by rewrite length_seq|constructor..]).
  induction l as [|i l IH]; intros m o Hl Ho Hs; cbn; [done|]. cbn in Hl. injection Hl as -> Hl. apply (IH (S m)); [done| |by apply insert_desc_sorted].
  rewrite insert_desc_perm. constructor; [lia|]. eapply Forall_impl; [exact Ho|]. cbn. lia.
Qed.
End order.

Lemma StronglySorted_filter {A} (R : relation A) (P : A → Prop) `{!∀ x, Decision (P x)} l : StronglySorted R l → StronglySorted R (filter P l).
Proof.
  induction 1 as [|x l Hs IH Hx]; [constructor|]. rewrite filter_cons. case_decide; [|done]. constructor; [done|].
  rewrite Forall_forall in *. intros y [_ Hy]%list_elem_of_filter. by apply Hx.
Qed.

Lemma StronglySorted_take {A} (R : relation A) n l : StronglySorted R l → StronglySorted R (take n l).
Proof.
  intros Hs. revert n. induction Hs as [|x l Hs IH Hx]; intros [|n]; cbn; try constructor; [done|].
  rewrite Forall_forall in Hx. apply Forall_forall. intros y Hy. apply Hx. by eapply subseteq_take.
Qed.

Lemma Forall2_omap {A B} (R : A → B → Prop) (f : A → option B) l : (∀ x, x ∈ l → ∃ y, f x = Some y ∧ R x y) → Forall2 R l (omap f l).
Proof.
  induction l as [|x l IH]; intros H; cbn; [constructor|]. destruct (H x) as (y & -> & Hy); [left|]. constructor; [done|]. apply IH. intros z Hz. apply H. by right.
Qed.

(** *** The reranker's scores *)

(** The score that a place of [n] is given: the last one for it, and zero without one; an index below zero counts from the end. *)
Definition score_given (n : nat) (items : list (Z * float)) (i : nat) : float :=
  default fzero (last (snd <$> filter (λ x, x.1 = Z.of_nat i ∨ x.1 = Z.of_nat i - Z.of_nat n)%Z items)).
Definition misplaced (n : nat) (item : Z * float) : Prop := (item.1 < - Z.of_nat n ∨ Z.of_nat n <= item.1)%Z.

Lemma put_scores_spec items scores : match put_scores scores items with
  | Ok scores' => length scores' = length scores ∧ ∀ i x, scores !! i = Some x → scores' !! i = Some
      (default x (last (snd <$> filter (λ y, y.1 = Z.of_nat i ∨ y.1 = Z.of_nat i - Z.of_nat (length scores))%Z items)))
  | Err _ => Exists (misplaced (length scores)) items
  end.
Proof.
  revert scores. induction items as [|[z y] items IH]; intros scores; cbn [put_scores]; [done|].
  unfold put_score at 1. cbn [fst snd]. set (n := length scores). set (w := if (z <? 0)%Z then (z + Z.of_nat n)%Z else z).
  destruct ((0 <=? w)%Z && (w <? Z.of_nat n)%Z) eqn:Ew; cbn [rbind].
  2: { left. unfold misplaced. cbn [fst]. unfold w in Ew. destruct (Z.ltb_spec z 0); lia. }
  specialize (IH (<[Z.to_nat w:=y]> scores)). rewrite length_insert in IH. fold n in IH. destruct (put_scores _ _) as [scores'|e]; [|by right].
  destruct IH as [IHl IH]. split; [done|]. intros i x Hi. pose proof (lookup_lt_Some _ _ _ Hi) as Hlt. fold n in Hlt.
  assert (Ez : (z = Z.of_nat i ∨ z = Z.of_nat i - Z.of_nat n)%Z ↔ Z.to_nat w = i) by (unfold w in *; destruct (Z.ltb_spec z 0); lia).
  rewrite filter_cons. cbn [fst]. destruct (decide _) as [Hd|Hd].
  - rewrite fmap_cons, last_cons. apply Ez in Hd. rewrite (IH i y) by (rewrite Hd; by apply list_lookup_insert_eq). by destruct (last _).
  - apply IH. rewrite list_lookup_insert_ne; [done|tauto].
Qed.

Lemma StronglySorted_in {A} (R R' : relation A) l : (∀ x y, x ∈ l → y ∈ l → R x y → R' x y) → StronglySorted R l → StronglySorted R' l.
Proof.
  intros HR Hs. induction Hs as [|x l Hs IH Hx]; constructor.
  - apply IH. intros y z Hy Hz. apply HR; by right.
  - rewrite Forall_forall in *. intros y Hy. apply HR; [left|by right|by apply Hx].
Qed.

(** The answers of the reranker are numbers. *)
Definition is_nan (x : float) : bool := match x with S754_nan => true | _ => false end.
Definition numbers_step (s : step cmd) : bool :=
  match s with
  | Step c r => match c in cmd R return result exc R → bool with
                | Post_rerank _ _ => λ r, match r with Ok items => forallb (λ i, negb (is_nan i.2)) items | Err _ => true end
                | _ => λ _, true
                end r
  end.
Definition numbers tr : Prop := forallb numbers_step tr = true.

Lemma numbers_sub tr tr' : tr ⊆ tr' → numbers tr' → numbers tr.
Proof. unfold numbers. rewrite !forallb_forall. intros Hs Hn s Hin%list_elem_of_In. by apply Hn, list_elem_of_In, Hs. Qed.

Lemma numbers_items tr text texts items : numbers tr → Step (Post_rerank text texts) (Ok items) ∈ tr → nan_free items.*2.
Proof.
  unfold numbers. rewrite forallb_forall. intros Hn Hs%list_elem_of_In. apply Hn in Hs. cbn in Hs. rewrite forallb_forall in Hs.
  apply Forall_fmap, Forall_forall. intros [i x] Hi%list_elem_of_In. apply Hs in Hi. cbn in *. by destruct x.
Qed.

(** How many hits a search leaves at most *)
Definition at_most (k : option nat) : nat := match k with Some (S _ as k) => k | _ => RERANK_TOP_K cfg end.

Definition degraded tr (stage : string) : Prop := ∃ r, Step (Count "agent_retrieval_degraded_total" stage) r ∈ tr.

(** *** A search *)

(** A leg goes by the vector that the question was given, as the embedder of the leg gave it, and
    keeps out no point that is meant. *)
Definition leg_of tr q (meant : hit → Prop) (leg : prefetch) : Prop :=
  (∀ h, meant h → meets_all h (pf_filter leg) = true) ∧
  match pf_leg leg with
  | Dense v => Step (Embed_query (EMBED_QUERY_PREFIX cfg +:+ q)) (Ok v) ∈ tr
  | Sparse v => ∃ vs, Step (Embed_sparse [q]) (Ok (v :: vs)) ∈ tr
  end.
(** The live collection was asked for the question, and answered these points, which are all meant. *)
Definition found tr q collection (meant : hit → Prop) points : Prop :=
  ∃ query, Step (Query_points (live_name cfg collection) query) (Ok points) ∈ tr ∧ legs_of query ≠ [] ∧ Forall (leg_of tr q meant) (legs_of query) ∧
    Forall meant points.

(** The points as the reranker scored them: the first [n] of those above the floor, in the order of [ahead]. *)
Definition reranked tr q points (n : nat) (min_score : option float) hits : Prop :=
  ∃ items idx, Step (Post_rerank q (text_of <$> points)) (Ok items) ∈ tr ∧
    let score := score_given (length points) items in
    let fit i := (i < length points)%nat ∧ ∀ m, min_score = Some m → fge (score i) m = true in
    Forall2 (λ i h, ∃ p, points !! i = Some p ∧ h = mkHit (h_id p) (score i) (h_payload p)) idx hits ∧
    NoDup idx ∧ Forall fit idx ∧ StronglySorted (ahead score) idx ∧ (length idx ≤ n)%nat ∧
    ∀ j, fit j → j ∉ idx → length idx = n ∧ Forall (λ i, ahead score i j) idx.
(** The reranker failed, or answered for a text it was not given. *)
Definition unranked tr q points : Prop :=
  (∃ e, Step (Post_rerank q (text_of <$> points)) (Err e) ∈ tr) ∨
  ∃ items, Step (Post_rerank q (text_of <$> points)) (Ok items) ∈ tr ∧ Exists (misplaced (length points)) items.

(** What a search answers of the points it found *)
Definition answered_with tr q points rr (k : option nat) (min_score : option float) hits : Prop :=
  if negb rr || bool_decide (points = []) then hits = take (at_most k) points else
  reranked tr q points (at_most k) min_score hits ∨ unranked tr q points ∧ degraded tr "rerank" ∧ hits = take (at_most k) points.

Definition search_result tr q scope topic k rr ids min_score hits : Prop :=
  ∃ points, found tr q None (wanted scope topic ids) points ∧ answered_with tr q points rr k min_score hits.

Lemma score_given_number tr q texts items n i : numbers tr → Step (Post_rerank q texts) (Ok items) ∈ tr → score_given n items i ≠ S754_nan.
Proof.
  intros Hn Hin. pose proof (numbers_items _ _ _ _ Hn Hin) as Hf. unfold score_given. destruct (last _) as [x|] eqn:E; [|done].
  apply last_Some_elem_of, list_elem_of_fmap in E as (y & -> & [_ Hy]%list_elem_of_filter). unfold nan_free in Hf. rewrite Forall_fmap, Forall_forall in Hf. by apply (Hf y).
Qed.

Lemma ranked_spec tr q points items scores n min_score : numbers tr →
  Step (Post_rerank q (text_of <$> points)) (Ok items) ∈ tr → put_scores (replicate (length points) fzero) items = Ok scores →
  reranked tr q points n min_score (take n (ranked points scores min_score)).
Proof.
  intros Hn Hin Hs. pose proof (put_scores_spec items (replicate (length points) fzero)) as Hp. rewrite Hs, length_replicate in Hp. destruct Hp as [Hl Hp].
  set (score := score_given (length points) items). set (score' i := default fzero (scores !! i)).
  assert (Hsc : ∀ i, (i < length points)%nat → scores !! i = Some (score i)) by (intros i Hi; apply Hp; by apply lookup_replicate).
  assert (Hs' : ∀ i, (i < length points)%nat → score' i = score i) by (intros i Hi; unfold score'; by rewrite Hsc).
  assert (Hnan : ∀ i, score' i ≠ S754_nan).
  { intros i. destruct (decide (i < length points)%nat) as [Hi|Hi]; [rewrite Hs' by done; by eapply score_given_number|].
    unfold score'. by rewrite lookup_ge_None_2 by lia. }
  unfold ranked. fold score'. set (order := match min_score with Some m => _ | None => _ end).
  set (fit i := (i < length points)%nat ∧ ∀ m, min_score = Some m → fge (score i) m = true).
  assert (Ho : ∀ i, i ∈ order ↔ fit i).
  { intros i. unfold order, fit. assert (Hi : i ∈ sort_desc score' (length points) ↔ (i < length points)%nat) by (rewrite sort_desc_perm, elem_of_seq; lia).
    destruct min_score as [m|]; [rewrite list_elem_of_filter|]; rewrite Hi; [|naive_solver]. split; [|intros [Hl' Hf]; split; [|done]; change (fge (score' i) m = true); rewrite Hs' by done; by apply Hf].
    intros [Hf Hl']. split; [done|]. intros ? [= <-]. change (fge (score' i) m = true) in Hf. by rewrite <-Hs'. }
  assert (Hso : StronglySorted (ahead score) order).
  { eapply (StronglySorted_in (ahead score')).
    - intros i j [Hi _]%Ho [Hj _]%Ho. unfold ahead. by rewrite !Hs' by done.
    - unfold order. destruct min_score; [apply StronglySorted_filter|]; by apply sort_desc_sorted. }
  assert (Hnd : NoDup order).
  { unfold order. destruct min_score; [apply NoDup_filter|]; rewrite (sort_desc_perm score' (length points)); apply NoDup_seq. }
  exists items, (take n order). split; [done|]. cbn zeta. fold score fit. split; [|split; [|split; [|split; [|split]]]].
  - apply Forall2_take, Forall2_omap. intros i [Hi _]%Ho. destruct (lookup_lt_is_Some_2 points i Hi) as [p Hpi].
    exists (mkHit (h_id p) (score i) (h_payload p)). split; [|eauto]. unfold with_scores. by rewrite lookup_zip_with, Hpi, Hsc.
  - eapply sublist_NoDup; [done|]. apply sublist_take.
  - apply Forall_forall. intros i Hi%subseteq_take. by apply Ho.
  - by apply StronglySorted_take.
  - rewrite length_take. lia.
  - intros j Hj Hjn. apply Ho in Hj. rewrite <-(take_drop n order) in Hso, Hj. apply elem_of_app in Hj as [?|Hj]; [done|]. split.
    + assert (n < length order)%nat; [|rewrite length_take; lia]. apply list_elem_of_lookup in Hj as [x Hx]. rewrite lookup_drop in Hx. apply lookup_lt_Some in Hx. lia.
    + apply Forall_forall. intros i Hi. by eapply StronglySorted_app_1_elem_of.
Qed.

Lemma check_identity_name collection tr name : path (check_identity cfg collection) tr (Ok name) → name = live_name cfg (Some (logical_of cfg collection)).
Proof.
  unfold check_identity. intros [([target fresh] & t1 & t2 & _ & H & _)|(e & _ & [=])]%path_bind. destruct target as [t|]; [|by destruct H as [_ [= ->]]].
  destruct (identity_hash_of _ _); [|by apply path_bind in H as [([] & t3 & t4 & _ & [_ [= ->]] & _)|(e & _ & [=])]].
  apply path_bind in H as [(i & t3 & t4 & _ & H & _)|(e & _ & [=])]. destruct (negb _).
  - by apply path_bind in H as [([] & t5 & t6 & _ & [_ [=]] & _)|(e & _ & [=])].
  - by apply path_bind in H as [([] & t5 & t6 & _ & [_ [= ->]] & _)|(e & _ & [=])].
Qed.

(** What the two legs, or the one that is left, bring in *)
Lemma queried_path q name v f tr points :
  path (catch_exception
    (sparse_vector ← embed_sparse q;
     call (Query_points name (Fused [mkPrefetch (Dense v) f (HYBRID_PREFETCH_LIMIT cfg); mkPrefetch (Sparse sparse_vector) f (HYBRID_PREFETCH_LIMIT cfg)] (HYBRID_PREFETCH_LIMIT cfg))))
    (λ _, call (Count "agent_retrieval_degraded_total" "sparse") ;; call (Query_points name (Plain (mkPrefetch (Dense v) f (HYBRID_PREFETCH_LIMIT cfg))))))%prog tr (Ok points) →
  ∃ query, Step (Query_points name query) (Ok points) ∈ tr ∧ legs_of query ≠ [] ∧
    ∀ leg, leg ∈ legs_of query → pf_filter leg = f ∧ (pf_leg leg = Dense v ∨ ∃ w vs, pf_leg leg = Sparse w ∧ Step (Embed_sparse [q]) (Ok (w :: vs)) ∈ tr).
Proof.
  intros [(a & Hq & [= <-])|(e & t7 & t8 & _ & Hq & ->)]%path_catch.
  - apply path_bind in Hq as [(w & t7 & t8 & Hw & Hq & ->)|(e & _ & [=])]. apply path_call in Hq as ->.
    unfold embed_sparse, embed_sparse_batch in Hw. apply path_bind in Hw as [(vs & t9 & t10 & ->%path_call & Hw & ->)|(e & _ & [=])].
    destruct vs as [|w' vs]; [by destruct Hw|]. destruct Hw as [-> [= ->]].
    eexists. split_and!; [apply elem_of_app; right; left|done|]. cbn [legs_of]. intros leg. rewrite !elem_of_cons, elem_of_nil. intros [->|[->|[]]]; (split; [done|]); [by left|].
    right. exists w', vs. split; [done|]. set_solver.
  - destruct (base_exception e); [by destruct Hq|]. apply path_bind in Hq as [([] & t9 & t10 & _ & Hq & ->)|(e' & _ & [=])].
    apply path_call in Hq as ->. eexists. split_and!; [apply elem_of_app; right; apply elem_of_app; right; left|done|]. cbn [legs_of]. intros leg.
    rewrite elem_of_cons, elem_of_nil. intros [->|[]]. split; [done|by left].
Qed.

Lemma answered_with_mono tr tr' q points rr k min_score hits : tr ⊆ tr' → answered_with tr q points rr k min_score hits → answered_with tr' q points rr k min_score hits.
Proof.
  intros Hs. unfold answered_with. destruct (_ || _); [done|]. intros [(items & idx & H1 & H2)|([(e & H1)|(items & H1 & H2)] & (r & H3) & H4)].
  - left. exists items, idx. split; [by apply Hs|done].
  - right. split_and!; [left; exists e; by apply Hs|exists r; by apply Hs|done].
  - right. split_and!; [right; exists items; split; [by apply Hs|done]|exists r; by apply Hs|done].
Qed.

(** What is answered of the points *)
Lemma answering_path q points rr k min_score tr hits : numbers tr →
  path (if bool_decide (points = []) then Ret [] else
    if negb rr then Ret (take (at_most k) points) else
    catch_exception (scores ← rerank q (text_of <$> points); Ret (take (at_most k) (ranked points scores min_score)))
      (λ _, call (Count "agent_retrieval_degraded_total" "rerank") ;; Ret (take (at_most k) points)))%prog tr (Ok hits) →
  answered_with tr q points rr k min_score hits.
Proof.
  intros Hn H. unfold answered_with. destruct (bool_decide_reflect (points = [])) as [->|Hne].
  { destruct H as [-> [= ->]]. by rewrite orb_true_r, take_nil. }
  destruct rr; cbn [negb orb] in *; [|by destruct H as [-> [= ->]]].
  apply path_catch in H as [(a & H & [= <-])|(e & t7 & t8 & Hr & H & ->)].
  - left. apply path_bind in H as [(scores & t7 & t8 & Hr & [-> [= ->]] & ->)|(e & _ & [=])].
    unfold rerank in Hr. apply path_bind in Hr as [(items & t9 & t10 & ->%path_call & Hs & ->)|(e & _ & [=])]. rewrite length_fmap in Hs.
    destruct (put_scores _ _) as [sc|e] eqn:Es; [|by destruct Hs]. destruct Hs as [-> [= ->]]. eapply ranked_spec; [done|left|done].
  - right. destruct (base_exception e); [by destruct H|]. apply path_bind in H as [([] & t9 & t10 & ->%path_call & [-> [= ->]] & ->)|(e' & _ & [=])].
    split_and!; [|exists (Ok ()); set_solver|done]. apply path_bind in Hr as [(scores & t5 & t6 & _ & [_ [=]] & _)|(e' & Hr & _)].
    unfold rerank in Hr. apply path_bind in Hr as [(items & t9 & t10 & ->%path_call & Hs & ->)|(e2 & ->%path_call & _)]; [|left; exists e2; set_solver].
    right. exists items. split; [set_solver|]. pose proof (put_scores_spec items (replicate (length (text_of <$> points)) fzero)) as Hsp.
    destruct (put_scores _ _); [by destruct Hs|]. by rewrite length_replicate, length_fmap in Hsp.
Qed.

Lemma search_path q scope topic k rr ids min_score tr hits :
  path (search cfg q scope topic k rr ids min_score) tr (Ok hits) → filters tr → numbers tr →
  search_result tr q scope topic k rr ids min_score hits.
Proof.
  unfold search, hybrid_search. fold (at_most k). set (f := _build_filter topic (Some scope) ids). intros Hp Hf Hn.
  apply path_bind in Hp as [(name & t1 & t2 & ->%check_identity_name & H & ->)|(e & _ & [=])].
  apply path_bind in H as [(v & t3 & t4 & ->%path_call & H & ->)|(e & _ & [=])].
  apply path_bind in H as [(points & t5 & t6 & (query & Hin & Hne & Hlegs)%queried_path & H & ->)|(e & _ & [=])].
  exists points. split.
  - exists query. assert (E : live_name cfg (Some (logical_of cfg None)) = live_name cfg None) by (unfold live_name; by rewrite logical_idem).
    rewrite E in Hin.
    split; [set_solver|]. split; [done|]. split.
    2: { apply Forall_forall. intros h Hh. apply filter_wanted. rewrite <-E in Hin.
      destruct (filters_hit _ (live_name cfg (Some (logical_of cfg None))) query points h Hf) as (leg & Hleg & Hm); [|done|].
      - apply elem_of_app. right. apply elem_of_app. right. apply elem_of_app. by left.
      - destruct (Hlegs _ Hleg) as [Ef _]. by rewrite Ef in Hm. }
    apply Forall_forall. intros leg [Ef Hleg]%Hlegs. split; [intros h Hh; rewrite Ef; by apply filter_wanted|].
    destruct Hleg as [->|(w & vs & -> & Hw)]; [set_solver|]. exists vs. set_solver.
  - eapply answered_with_mono; [|eapply answering_path; [|exact H]]; [set_solver|]. eapply numbers_sub, Hn. set_solver.
Qed.

(** C25: a search shows nobody more than the scope, the topic and the ids it was given, and
    answers the question with what is nearest to it. The live collection is asked by the vectors that the
    question was embedded to, for no less than the points that are meant, and every point it answers is of the scope's tenant and kind, and of its owner and
    no older where it says so, of the topic and one of the ids. Without a reranking the hits are the first of these
    points, as many as asked for at most; after one they are the points with the scores that the reranker
    gave them, each at most once, none below the floor, best first and of two as good the earlier first, and nothing is left out
    but what is below the floor or behind all of as many hits as asked for; and only where the reranker
    failed, or answered for a text it was not given, do the first points stand in for them. *)
Theorem search_stays_in_scope q scope topic k rr ids min_score tr hits :
  path (search cfg q scope topic k rr ids min_score) tr (Ok hits) → filters tr → numbers tr →
  search_result tr q scope topic k rr ids min_score hits.
Proof. apply search_path. Qed.
End meaning.

(** ** The cache of answers *)

Section cache.
Context (cfg : store_settings).
Implicit Types (tr : list (step cmd)).

(** Every character of [s] that means something in a query is quoted. *)
Fixpoint quoted (s : string) : bool :=
  match s with
  | EmptyString => true
  | String a s =>
      if Ascii.eqb a "\"%char then match s with String b s => special b && quoted s | EmptyString => false end
      else negb (special a) && quoted s
  end.

Lemma escape_quoted value : quoted (_escape_tag value) = true.
Proof.
  induction value as [|a s IH]; [done|]. cbn [_escape_tag]. destruct (special a) eqn:E.
  - change (special a && quoted (_escape_tag s) = true). by rewrite E, IH.
  - cbn [quoted]. destruct (Ascii.eqb_spec a "\"%char) as [->|]; [done|]. by rewrite E, IH.
Qed.

(** A quoted value ends where it ends. *)
Lemma escape_end value value' rest rest' :
  _escape_tag value +:+ String "}" rest = _escape_tag value' +:+ String "}" rest' → value = value' ∧ rest = rest'.
Proof.
  revert value'. induction value as [|a s IH]; intros [|a' s']; cbn [_escape_tag].
  - by intros [= ->].
  - destruct (special a') eqn:E; [done|]. intros [= <- _]. done.
  - destruct (special a) eqn:E; [done|]. intros [= -> _]. done.
  - destruct (special a) eqn:E, (special a') eqn:E'.
    + by intros [= -> [-> ->]%IH].
    + intros [= <- _]. done.
    + intros [= -> _]. done.
    + by intros [= -> [-> ->]%IH].
Qed.

Lemma query_text_inj tenant principal tenant' principal' :
  query_text tenant principal = query_text tenant' principal' → tenant = tenant' ∧ principal = principal'.
Proof.
  unfold query_text. intros H. apply (inj (String.append "(@tenant:{")) in H.
  change ("} @principal:{" +:+ ?x) with (String "}" (" @principal:{" +:+ x)) in H. apply escape_end in H as [-> H].
  apply (inj (String.append " @principal:{")) in H.
  change ("})=>[KNN 1 @embedding $vec AS dist]") with (String "}" ")=>[KNN 1 @embedding $vec AS dist]") in H. by apply escape_end in H as [-> _].
Qed.

(** The caller an entry was stored for, and that the index answers a query with entries of a
    caller the query names *)
Context (stored_for : string * string * float → string * string).
Definition tags_step (s : step cmd) : bool :=
  match s with
  | Step c r => match c in cmd R return result exc R → bool with
                | Ft_search _ text _ => λ r, match r with
                    | Ok docs => forallb (λ d, String.eqb text (query_text (stored_for d).1 (stored_for d).2)) docs
                    | Err _ => true
                    end
                | _ => λ _, true
                end r
  end.
Definition answers_by_tags tr : Prop := forallb tags_step tr = true.

Lemma tags_doc tr ix text vec docs d : answers_by_tags tr → Step (Ft_search ix text vec) (Ok docs) ∈ tr → d ∈ docs →
  text = query_text (stored_for d).1 (stored_for d).2.
Proof.
  unfold answers_by_tags. rewrite forallb_forall. intros Hf Hs%list_elem_of_In Hd%list_elem_of_In. apply Hf in Hs. cbn in Hs.
  rewrite forallb_forall in Hs. by apply Hs, String.eqb_eq in Hd.
Qed.

(** The cache of answers never crosses callers and never fails a turn. A looked up answer was
    stored for exactly the tenant and the person who ask, and its question is near enough; a
    caller without both is told nothing; and only the machine's own exceptions, and a counter that
    fails, get out. *)
Theorem cache_never_crosses_callers ctx q tr out :
  path (get cfg ctx q) tr out → answers_by_tags tr →
  (∀ answer citations, out = Ok (Some (answer, citations)) → ∃ c text dist, ctx = Some c ∧ valid_ctx ctx = true ∧
     stored_for (answer, text, dist) = (sc_tenant c, sc_principal c) ∧ fgt dist (_MAX_DISTANCE cfg) = false ∧ loads text = Some citations) ∧
  (valid_ctx ctx = false → tr = [] ∧ out = Ok None) ∧
  (∀ e, out = Err e → base_exception e = true ∨ Step (Count "agent_semantic_cache_total" "error") (Err e) ∈ tr).
Proof.
  unfold get. destruct ctx as [c|]; [|by intros [-> ->] _]. destruct (valid_ctx (Some c)) eqn:Ev; [|by intros [-> ->] _].
  intros H Hi. apply path_catch in H as [(a & H & ->)|(e & t1 & t2 & _ & H & ->)].
  - split_and!; [|done..]. intros answer citations [= ->].
    apply path_bind in H as [(ns & t1 & t2 & _ & H & ->)|(e & _ & [=])]. apply path_bind in H as [(v & t3 & t4 & _ & H & ->)|(e & _ & [=])].
    apply path_bind in H as [(docs & t5 & t6 & Hs & H & ->)|(e & _ & [=])]. apply path_call in Hs as ->.
    destruct docs as [|[[a text] dist] docs]; [by apply path_bind in H as [([] & t7 & t8 & _ & [_ [=]] & _)|(e & _ & [=])]|].
    destruct (fgt dist _) eqn:Ed; [by apply path_bind in H as [([] & t7 & t8 & _ & [_ [=]] & _)|(e & _ & [=])]|].
    apply path_bind in H as [([] & t7 & t8 & _ & H & ->)|(e & _ & [=])]. unfold loads_exc in H.
    destruct (loads text) as [j|] eqn:El; [|by apply path_bind in H as [(x & t9 & t10 & [_ [=]] & _)|(e & _ & [=])]].
    apply path_bind in H as [(x & t9 & t10 & [-> [= ->]] & [-> [= -> ->]] & ->)|(e & _ & [=])].
    exists c, text, dist. split_and!; try done.
    assert (E : query_text (sc_tenant c) (sc_principal c) = query_text (stored_for (a, text, dist)).1 (stored_for (a, text, dist)).2).
    { apply (tags_doc _ (index ns) _ v ((a, text, dist) :: docs) _ Hi); [set_solver|left]. }
    apply query_text_inj in E as [E1 E2]. rewrite E1, E2. by destruct (stored_for _).
  - split_and!; [|done|].
    + intros answer citations ->. destruct (base_exception e); [by destruct H|].
      by apply path_bind in H as [([] & t7 & t8 & _ & [_ [=]] & _)|(e' & _ & [=])].
    + intros e' ->. destruct (base_exception e) eqn:Eb; [destruct H as [_ [= ->]]; by left|].
      apply path_bind in H as [([] & t7 & t8 & _ & [_ [=]] & _)|(e2 & Hc & [= ->])]. apply path_call in Hc as ->. right. set_solver.
Qed.
End cache.

(** ** What only looks *)

(** Every command but those that write points, remove them or fill the cache; to adopt a collection is to look. *)
Definition looks {R} (c : cmd R) : bool :=
  match c with
  | Upsert _ _ | Recreate_collection _ _ | Delete_points _ _ | Json_set _ _ _ | Expire _ _ | Create_index _ _ _ => false
  | _ => true
  end.
Definition looking (s : step cmd) : Prop := looks (st_cmd s) = true.
#[export] Hint Extern 1 (looking _) => reflexivity : steps.

Section looking.
Context (cfg : store_settings).

Lemma check_identity_looks collection : only looking (check_identity cfg collection).
Proof.
  assert (Hal : ∀ l, only looking (alias_target cfg l)).
  { intros l. unfold alias_target. auto with steps. }
  assert (He : ∀ l, only looking (ensure_live cfg l)).
  { intros l. unfold ensure_live. apply only_bind; [done|]. intros [t|]; [auto with steps|]. apply only_bind; [auto with steps|]. intros b.
    apply only_if; [auto with steps|]. apply only_catch_exception; [auto with steps|]. intros e. apply only_bind; [done|]. intros []; auto with steps. }
  unfold check_identity. apply only_bind.
  - unfold _resolve_target. apply only_bind; [auto with steps|]. intros now. apply only_bind; [auto with steps|]. intros k.
    destruct (unexpired now k); auto 10 with steps.
  - intros [[t|] f]; [|auto with steps]. destruct (identity_hash_of _ _); [|unfold count_identity; auto 10 with steps].
    apply only_bind; [|intros i; unfold count_identity; auto 10 with steps].
    unfold current_identity, embedding_dim, embed_document, embed_documents. apply only_bind; [auto with steps|]. intros r. apply only_bind; [|auto with steps].
    apply only_bind; [auto with steps|]. intros [d|]; [auto with steps|]. apply only_bind; [|auto 10 with steps].
    apply only_bind; [auto with steps|]. intros []; auto with steps.
Qed.

Lemma hybrid_search_looks q topic k scope rr ids collection min_score : only looking (hybrid_search cfg q topic k scope rr ids collection min_score).
Proof.
  unfold hybrid_search, embed_query, embed_sparse, embed_sparse_batch, rerank. apply only_bind; [apply check_identity_looks|]. intros name.
  apply only_bind; [auto with steps|]. intros v. apply only_bind.
  - apply only_catch_exception; [|auto with steps]. apply only_bind; [|auto with steps]. apply only_bind; [auto with steps|]. intros [|s l]; auto with steps.
  - intros points. apply only_if; [auto with steps|]. apply only_if; auto 12 with steps.
Qed.
End looking.

(** ** A process with a store *)

Module Shelf.
Definition cfg : store_settings :=
  mkStore "docs" 30 20 5 "embed" "" "" "" (S754_finite false 8286623314361713 (-53)) 3600.   (* the threshold is 0.92 *)
Definition identity : EmbeddingIdentity := mkIdentity "embed" (Some "nomic") 3 "" "" "".
Definition one : float := float_of_int 1.
Definition note (id tenant : string) : hit :=
  mkHit (JStr id) fzero [("tenant", JStr tenant); ("kind", JStr "document"); ("topic", JStr "company"); ("text", JStr "nine to five")].

(** The clock, the targets that are kept, and the aliases *)
Record world : Type := mkWorld { clock : Z; kept : list (string * (Z * option string)); aliases : list (string * string) }.
Definition start : world := mkWorld 100 [] [("docs-live", physical_name "docs" (hash8 identity))].
Definition apply_op (l : list (string * string)) (op : alias_op) : list (string * string) :=
  match op with CreateAlias c a => dict_set a c l | DeleteAlias a => filter (λ x, x.1 ≠ a) l end.

Definition reply (w : world) R (c : cmd R) : result exc R * world :=
  let same : world := mkWorld (clock w + 1) (kept w) (aliases w) in
  match c in cmd R return result exc R * world with
  | Monotonic => (Ok (clock w), same)
  | Now => (Ok (clock w), same)
  | Get_target l => (Ok (dict_get l (kept w)), same)
  | Set_target l entry => (Ok (), mkWorld (clock w + 1) (dict_set l entry (kept w)) (aliases w))
  | Clear_targets => (Ok (), mkWorld (clock w + 1) [] (aliases w))
  | Get_aliases => (Ok (aliases w), same)
  | Collection_exists _ => (Ok false, same)
  | Update_aliases ops => (Ok (), mkWorld (clock w + 1) (kept w) (foldl apply_op (aliases w) ops))
  | Recreate_collection _ _ => (Ok (), same)
  | Upsert _ _ => (Ok (), same)
  | Query_points _ _ => (Ok [note "a" "acme"; note "b" "acme"], same)
  | Delete_points _ _ => (Ok (), same)
  | Count_points _ _ => (Ok 1%Z, same)
  | Resolve_model _ => (Ok (Some "nomic"), same)
  | Get_dim => (Ok (Some 3%nat), same)
  | Set_dim _ => (Ok (), same)
  | Embed_query _ => (Ok [one], same)
  | Embed_documents texts => (Ok ((λ _, [one]) <$> texts), same)
  | Embed_sparse texts => (Ok ((λ _, ([1%Z], [one])) <$> texts), same)
  | Post_rerank _ _ => (Ok [(1%Z, one); (0%Z, fzero)], same)
  | Uuid4 => (Ok "f", same)
  | Index_ready _ => (Ok false, same)
  | Set_ready _ => (Ok (), same)
  | Create_index _ _ _ => (Ok (), same)
  | Ft_search _ _ _ => (Ok [("nine to five", "[]", fzero)], same)
  | Json_set _ _ _ => (Ok (), same)
  | Expire _ _ => (Ok (), same)
  | Count _ _ => (Ok (), same)
  end.

Definition result_of {A} (p : P A) (w : world) : result exc A := fst (fst (Process.run reply p w)).
Definition trace_of {A} (p : P A) (w : world) : list (step cmd) := snd (fst (Process.run reply p w)).
Definition world_after {A} (p : P A) (w : world) : world := snd (Process.run reply p w).

Definition scope : AccessScope := mkScope "acme" Sdocument None None.
Definition hours : P (list hit) := search cfg "when are you open?" scope (Some "company") None true None (Some fzero).
Definition write : P () := upsert cfg [mkPoint "p" [one] None []] None.

Example best_first : match result_of hours start with Ok hits => map h_id hits | Err _ => [] end = [JStr "b"; JStr "a"].
Proof. vm_compute. reflexivity. Qed.

(** An embedding that is not the collection's is refused. *)
Example refused : result_of (check_identity cfg None) (mkWorld 100 [] [("docs-live", "docs-0123abcd")]) =
  Err (EmbeddingIdentityMismatch "docs" (hash8 identity) "0123abcd").
Proof. vm_compute. reflexivity. Qed.

(** The check and the write are two steps: a collection that is repointed between them takes
    vectors of the embedding that was replaced.  The write names the alias, not what was checked. *)
Definition checked_then_repointed : world :=
  world_after (repoint_live cfg "docs" "docs-0123abcd") (world_after (check_identity cfg None) start).
Example written_to_another_embedding :
  result_of (check_identity cfg None) start = Ok "docs-live" ∧
  dict_get "docs-live" (aliases checked_then_repointed) = Some "docs-0123abcd" ∧ hash8 identity ≠ "0123abcd".
Proof. vm_compute. split_and!; [done..|]. by intros [=]. Qed.

(** A search finds what the other call kept. *)
Definition first_trace : list (step cmd) := Eval vm_compute in trace_of hours start.
Definition second_trace : list (step cmd) := Eval vm_compute in trace_of write (world_after hours start).
Definition log : list (nat * step cmd) := (pair 0%nat <$> first_trace) ++ (pair 1%nat <$> second_trace).

Definition written : step cmd := Step (Upsert "docs-live" [mkPoint "p" [one] None []]) (Ok ()).

Lemma log_execution : execution cfg log.
Proof.
  split.
  - intros [|[|j]] Hj; [| |exfalso; apply Hj; vm_compute; done].
    + exists (list hit), hours, [], (result_of hours start). split; [constructor|].
      assert (E : of_call 0 log = trace_of hours start) by (vm_compute; reflexivity). rewrite app_nil_r, E. exact (run_path reply hours start).
    + exists unit, write, [], (result_of write (world_after hours start)). split; [constructor|].
      assert (E : of_call 1 log = trace_of write (world_after hours start)) by (vm_compute; reflexivity).
      rewrite app_nil_r, E. exact (run_path reply write (world_after hours start)).
  - intros i j s l a Hi Ht. do 40 (destruct i as [|i]; [vm_compute in Hi; first [discriminate Hi|injection Hi as <- <-; vm_compute in Ht;
      first [discriminate Ht|injection Ht as <- <-; by vm_compute]]|]). vm_compute in Hi. discriminate Hi.
Qed.

Definition when_at (j : json) : option Z := match j with JInt t => Some t | _ => None end.
Definition same_id (i : string) (j : json) : bool := bool_decide (j = JStr i).
Definition found : list hit := [mkHit (JStr "b") one (h_payload (note "b" "acme")); note "a" "acme"].
Lemma hours_path : path hours first_trace (Ok found).
Proof.
  assert (E : first_trace = trace_of hours start ∧ Ok found = result_of hours start) by (vm_compute; done).
  destruct E as [-> ->]. exact (run_path reply hours start).
Qed.

(** Somebody whose name is a query on two *)
Definition asker : SecurityCtx := SecCtx "acme" "ann|bob".
Definition asks : P (option (string * json)) := get cfg (Some asker) "when are you open?".
Definition asks_trace : list (step cmd) := Eval vm_compute in trace_of asks start.
Lemma asks_path : path asks asks_trace (Ok (Some ("nine to five", JList []))).
Proof.
  assert (E : asks_trace = trace_of asks start ∧ Ok (Some ("nine to five", JList [])) = result_of asks start) by (vm_compute; done).
  destruct E as [-> ->]. exact (run_path reply asks start).
Qed.
End Shelf.


Lemma search_stays_in_scope_witness :
  Shelf.found = [mkHit (JStr "b") Shelf.one (h_payload (Shelf.note "b" "acme")); Shelf.note "a" "acme"] ∧
  search_result Shelf.cfg Shelf.same_id Shelf.when_at Shelf.first_trace "when are you open?" Shelf.scope (Some "company") None true None (Some fzero) Shelf.found.
Proof.
  split; [reflexivity|].
  exact (search_stays_in_scope Shelf.cfg Shelf.same_id Shelf.when_at "when are you open?" Shelf.scope (Some "company") None true None (Some fzero)
    Shelf.first_trace Shelf.found Shelf.hours_path ltac:(vm_compute; reflexivity) ltac:(vm_compute; reflexivity)).
Defined.

Lemma cache_never_crosses_callers_witness :
  ∃ c text dist, Some Shelf.asker = Some c ∧ valid_ctx (Some Shelf.asker) = true ∧ ("acme", "ann|bob") = (sc_tenant c, sc_principal c) ∧
    fgt dist (_MAX_DISTANCE Shelf.cfg) = false ∧ loads text = Some (JList []).
Proof.
  exact (proj1 (cache_never_crosses_callers Shelf.cfg (λ _, ("acme", "ann|bob")) (Some Shelf.asker) "when are you open?" Shelf.asks_trace _
    Shelf.asks_path ltac:(vm_compute; reflexivity)) "nine to five" (JList []) eq_refl).
Defined.
