(* ===== verification/Ingestion.v ===== *)
(** Documents in: [app/ingestion/] (chunking, the ingestor, its queue and worker, the extractors and the
    object store), [app/core/url_safety.py] and [app/api/routers/ingest.py].

    Redis is the commands of [Jobs], the vector store those of [Retrieval]; the object store, the
    libraries that read PDF and DOCX, the resolver and the web are answers to commands, and so is
    the flag [_bucket_ready].  What [ipaddress] says of an address is in Module [Ip], as the tables of the
    Python the service runs on.  The parser of URLs, of addresses and of HTML, the class hierarchy of
    exceptions and [uuid5] are arguments.  Numbers of characters are naturals.  Logs are left out. *)
From Stdlib Require Import Ascii.
From S2P Require Import Prelude Dict Json Messages AgentState Process Sha256 Wire Jobs Identity Retrieval Text.

Local Open Scope string_scope.
Local Open Scope list_scope.

(** ** [chunking.py] *)

Definition DEFAULT_PARENT_CHARS : nat := 1200.
Definition DEFAULT_CHILD_CHARS : nat := 600.
Definition DEFAULT_CHILD_OVERLAP : nat := 150.

Record ParentChunk : Type := mkParent { parent_id : string; text : string; children : list string }.

Definition newline : ascii := "010"%char.
Definition blank_line : string := String newline (String newline "").

(** [s.split("\n\n")] *)
Fixpoint split_blank_lines (s : string) : list string :=
  match s with
  | EmptyString => [""]
  | String a s' =>
      match s' with
      | String b rest =>
          if Ascii.eqb a newline && Ascii.eqb b newline then "" :: split_blank_lines rest else
          match split_blank_lines s' with p :: ps => String a p :: ps | [] => [String a ""] end
      | EmptyString => [String a ""]
      end
  end.

(** [s[i:i+n] for i in range(0, len(s), n)] *)
Fixpoint pieces_go (fuel n : nat) (s : string) : list string :=
  match fuel, s with
  | S fuel, String _ _ => take_str n s :: pieces_go fuel n (drop_str n s)
  | _, _ => []
  end.
Definition pieces (n : nat) (s : string) : list string := pieces_go (String.length s) n s.

(** The loop's [parents], [current] and [current_len] *)
Record packing : Type := mkPacking { parents : list string; current : list string; current_len : nat }.

Definition flushed (p : packing) : list string :=
  if bool_decide (current p = []) then parents p else parents p ++ [join blank_line (current p)].

Definition pack (parent_chars : nat) (p : packing) (para : string) : packing :=
  if (parent_chars <? String.length para)%nat then mkPacking (flushed p ++ pieces parent_chars para) [] 0 else
  let added_len := (String.length para + if bool_decide (current p = []) then 0 else 2)%nat in
  if negb (bool_decide (current p = [])) && (parent_chars <? current_len p + added_len)%nat then
    mkPacking (flushed p) [para] (String.length para)
  else mkPacking (parents p) (current p ++ [para]) (current_len p + added_len).

Definition paragraphs (text : string) : list string := filter (λ p, p ≠ "") (strip <$> split_blank_lines text).

(** A size of zero is an error of [range], as soon as there is a paragraph. *)
Definition _split_into_parents (text : string) (parent_chars : nat) : result exc (list string) :=
  let paragraphs := paragraphs text in
  if bool_decide (paragraphs = []) then Ok [] else
  if (parent_chars =? 0)%nat then Err (Exc "ValueError" "range() arg 3 must not be zero") else
  Ok (flushed (foldl (pack parent_chars) (mkPacking [] [] 0) paragraphs)).

(** The loop, at most [fuel] times round; [None] when it would go on *)
Fixpoint windows (fuel : nat) (text : string) (child_chars step start : nat) : option (list string) :=
  match fuel with
  | O => None
  | S fuel =>
      if (String.length text <=? start)%nat then Some [] else
      let window := slice text start (start + child_chars) in
      if (String.length text <=? start + child_chars)%nat then Some [window] else
      cons window <$> windows fuel text child_chars step (start + step)
  end.

Definition _sliding_window (text : string) (child_chars child_overlap : nat) : option (list string) :=
  if (String.length text <=? child_chars)%nat then Some [text] else
  windows (String.length text) text child_chars (child_chars - child_overlap) 0.

(** ** Addresses: what the guard reads of [ipaddress], with the tables of Python 3.13 *)

Module Ip.
Local Open Scope Z_scope.

Inductive ip : Type := IPv4 (n : Z) | IPv6 (n : Z).

Definition dotted (a b c d : Z) : Z := ((a * 256 + b) * 256 + c) * 256 + d.
(** The address of these groups of sixteen bits, and zeros after them *)
Definition groups (gs : list Z) : Z := foldl (λ n g, n * 65536 + g)%Z 0%Z (take 8 (gs ++ replicate 8 0%Z)).

(** A network: its address and the length of its prefix; [address in network] for addresses of [w] bits *)
Definition network : Type := Z * Z.
Definition within (w n : Z) (net : network) : bool := (Z.shiftr n (w - net.2) =? Z.shiftr net.1 (w - net.2))%Z.
Definition within_any (w n : Z) (nets : list network) : bool := existsb (within w n) nets.

Definition loopback4 : list network := [(dotted 127 0 0 0, 8)].
Definition linklocal4 : list network := [(dotted 169 254 0 0, 16)].
Definition multicast4 : list network := [(dotted 224 0 0 0, 4)].
Definition public4 : list network := [(dotted 100 64 0 0, 10)].
Definition reserved4 : list network := [(dotted 240 0 0 0, 4)].
Definition private4 : list network :=
  [(dotted 0 0 0 0, 8); (dotted 10 0 0 0, 8); (dotted 127 0 0 0, 8); (dotted 169 254 0 0, 16); (dotted 172 16 0 0, 12);
   (dotted 192 0 0 0, 24); (dotted 192 0 0 170, 31); (dotted 192 0 2 0, 24); (dotted 192 168 0 0, 16); (dotted 198 18 0 0, 15);
   (dotted 198 51 100 0, 24); (dotted 203 0 113 0, 24); (dotted 240 0 0 0, 4); (dotted 255 255 255 255, 32)].
Definition private_exceptions4 : list network := [(dotted 192 0 0 9, 32); (dotted 192 0 0 10, 32)].

Definition linklocal6 : list network := [(groups [0xfe80], 10)].
Definition multicast6 : list network := [(groups [0xff00], 8)].
Definition reserved6 : list network :=
  [(groups [], 8); (groups [0x100], 8); (groups [0x200], 7); (groups [0x400], 6); (groups [0x800], 5); (groups [0x1000], 4);
   (groups [0x4000], 3); (groups [0x6000], 3); (groups [0x8000], 3); (groups [0xa000], 3); (groups [0xc000], 3); (groups [0xe000], 4);
   (groups [0xf000], 5); (groups [0xf800], 6); (groups [0xfe00], 9)].
Definition private6 : list network :=
  [(groups [0; 0; 0; 0; 0; 0; 0; 1], 128); (groups [], 128); (groups [0; 0; 0; 0; 0; 0xffff], 96); (groups [0x64; 0xff9b; 1], 48);
   (groups [0x100], 64); (groups [0x2001], 23); (groups [0x2001; 0xdb8], 32); (groups [0x2002], 16); (groups [0x3fff], 20);
   (groups [0xfc00], 7); (groups [0xfe80], 10)].
Definition private_exceptions6 : list network :=
  [(groups [0x2001; 1; 0; 0; 0; 0; 0; 1], 128); (groups [0x2001; 1; 0; 0; 0; 0; 0; 2], 128); (groups [0x2001; 3], 32);
   (groups [0x2001; 4; 0x112], 48); (groups [0x2001; 0x20], 28); (groups [0x2001; 0x30], 28)].

Definition ipv4_mapped (n : Z) : option Z := if (Z.shiftr n 32 =? 0xffff)%Z then Some (Z.land n 0xffffffff) else None.

(** A property of addresses; an IPv6 address with an IPv4 address inside has that one's. *)
Definition by_version (v4 v6 : Z → bool) (a : ip) : bool :=
  match a with
  | IPv4 n => v4 n
  | IPv6 n => match ipv4_mapped n with Some m => v4 m | None => v6 n end
  end.
Definition private (w n : Z) (nets exceptions : list network) : bool := within_any w n nets && negb (within_any w n exceptions).

Definition is_private : ip → bool :=
  by_version (λ n, private 32 n private4 private_exceptions4) (λ n, private 128 n private6 private_exceptions6).
Definition is_global (a : ip) : bool :=
  by_version (λ n, negb (within_any 32 n public4) && negb (is_private a)) (λ _, negb (is_private a)) a.
Definition is_loopback : ip → bool := by_version (λ n, within_any 32 n loopback4) (λ n, n =? 1)%Z.
Definition is_link_local : ip → bool := by_version (λ n, within_any 32 n linklocal4) (λ n, within_any 128 n linklocal6).
Definition is_reserved : ip → bool := by_version (λ n, within_any 32 n reserved4) (λ n, within_any 128 n reserved6).
Definition is_multicast : ip → bool := by_version (λ n, within_any 32 n multicast4) (λ n, within_any 128 n multicast6).
Definition is_unspecified : ip → bool := by_version (λ n, n =? 0)%Z (λ n, n =? 0)%Z.
End Ip.

(** ** What is asked of the outside *)

Record response : Type := mkResponse { status_code : Z; content_length : Z; content_type : string; body : string }.

Section commands.
Context {address : Type}.

Inductive cmd : Type → Type :=
| Redis {R} (c : Jobs.cmd R) : cmd R
| Vectors {R} (c : Retrieval.cmd R) : cmd R
| Bucket_ready : cmd bool                         (* the flag of the process *)
| Set_bucket_ready : cmd ()
| Bucket_exists : cmd bool
| Make_bucket : cmd ()
| Put_object (key data content_type : string) : cmd ()
| Get_object (key : string) : cmd string
| Remove_object (key : string) : cmd ()
| Pdf_open (data : string) : cmd bool             (* [reader.is_encrypted] *)
| Pdf_pages (data : string) : cmd (list (option string))
| Docx_open (data : string) : cmd ()
| Docx_paragraphs (data : string) : cmd (list string)
| Getaddrinfo (hostname : string) : cmd (list address)
| Http_get (url : string) : cmd response          (* without following redirects *)
| Read_file (path : string) : cmd string.

Abbreviation P := (prog cmd).
Local Open Scope prog_scope.

Definition redis {A} (p : prog Jobs.cmd A) : P A := lift (cmd := Jobs.cmd) (@Redis) p.
Definition vectors {A} (p : prog Retrieval.cmd A) : P A := lift (cmd := Retrieval.cmd) (@Vectors) p.
Definition count (counter label : string) : P () := redis (call (Jobs.Count counter label)).

Fixpoint collect {A B} (xs : list A) (f : A → P B) : P (list B) :=
  match xs with
  | [] => Ret []
  | x :: xs => y ← f x; ys ← collect xs f; Ret (y :: ys)
  end.

Definition chunk_text (text : string) (parent_chars child_chars child_overlap : nat) : P (list ParentChunk) :=
  if (child_chars <=? child_overlap)%nat then Throw (Exc "ValueError" "child_overlap must be smaller than child_chars") else
  parents ← of_result (_split_into_parents text parent_chars);
  collect parents (λ parent_text,
    id ← redis (call Jobs.Uuid4);
    Ret (mkParent id parent_text (default [] (_sliding_window parent_text child_chars child_overlap)))).

(** ** [url_safety.py] *)

Context (isinstance : exc → list string → bool).
(** [urlparse(url)]: scheme and host name, or the [ValueError] of a URL it cannot read *)
Context (urlparse : string → result exc (string * option string)).
(** [ipaddress.ip_address] of the text of a record, and [str] of an address *)
Context (ip_address : address → result exc Ip.ip) (ip_text : Ip.ip → string).

Definition UnsafeURLError (text : string) : exc := Exc "UnsafeURLError" text.

Definition _hostname_or_refuse (url : string) : result exc string :=
  rbind (urlparse url) (λ '(scheme, hostname),
    if negb (String.eqb scheme "https") then Err (UnsafeURLError ("only https:// URLs are allowed, got " +:+ repr_str scheme)) else
    let hostname := default "" hostname in
    if nonempty hostname then Ok hostname else Err (UnsafeURLError "URL has no hostname")).

(** The address that [::ffff:a.b.c.d] stands for *)
Definition unwrapped (ip : Ip.ip) : Ip.ip :=
  match ip with
  | Ip.IPv6 n => match Ip.ipv4_mapped n with Some m => Ip.IPv4 m | None => ip end
  | Ip.IPv4 _ => ip
  end.

Fixpoint _check_resolved_addresses (addr_info : list address) : result exc () :=
  match addr_info with
  | [] => Ok ()
  | sockaddr :: addr_info =>
      rbind (ip_address sockaddr) (λ ip,
        let ip := unwrapped ip in
        if negb (Ip.is_global ip) || Ip.is_private ip || Ip.is_loopback ip || Ip.is_link_local ip || Ip.is_reserved ip ||
           Ip.is_multicast ip || Ip.is_unspecified ip
        then Err (UnsafeURLError ("URL resolves to a disallowed address (" +:+ ip_text ip +:+ ") — refused"))
        else _check_resolved_addresses addr_info)
  end.

Definition assert_safe_url_async (url : string) : P () :=
  hostname ← of_result (_hostname_or_refuse url);
  addr_info ← catch (call (Getaddrinfo hostname))
    (λ e, if isinstance e ["gaierror"] then Throw (UnsafeURLError ("could not resolve host " +:+ repr_str hostname +:+ ": " +:+ exc_text e)) else Throw e);
  of_result (_check_resolved_addresses addr_info).

(** ** [ingestor.py] *)

Context (cfg : store_settings).
Context (uuid5 : string → string).   (* [uuid.uuid5(_POINT_ID_NAMESPACE, name).hex] *)

Definition _MAX_URL_BYTES : Z := 2000000.

Definition IngestRefused (text : string) : exc := Exc "IngestRefused" text.
Definition refuse {A} (reason text : string) : P A := count "agent_ingest_refused_total" reason ;; Throw (IngestRefused text).

Definition point_name (tenant source : string) (index : nat) (text : string) : string :=
  tenant +:+ "|" +:+ source +:+ "|" +:+ dump_int (Z.of_nat index) +:+ "|" +:+ hex (sha256 (encode text)).
Definition _content_point_id (tenant source : string) (index : nat) (text : string) : string := uuid5 (point_name tenant source index text).

Definition _sparse_vectors_or_none (texts : list string) : P (option (list sparse)) :=
  catch_exception (v ← vectors (embed_sparse_batch texts); Ret (Some v)) (λ _, Ret None).

(** [dense_vectors], batch by batch *)
Fixpoint embed_all (on_progress : option (nat → nat → P ())) (total : nat) (todo : list (list string)) (dense_vectors : list (list float)) : P (list (list float)) :=
  match todo with
  | [] => Ret dense_vectors
  | texts :: todo =>
      new ← vectors (embed_documents cfg texts);
      let dense_vectors := dense_vectors ++ new in
      match on_progress with Some report => report (length dense_vectors) total | None => Ret () end ;;
      embed_all on_progress total todo dense_vectors
  end.

(** Every child with its parent, in order *)
Definition flattened (parents : list ParentChunk) : list (ParentChunk * string) :=
  concat ((λ p, pair p <$> children p) <$> parents).

Definition payload_of (c : SecurityCtx) (title source : string) (topic : option string) (parent : ParentChunk) (child_text : string) : payload :=
  [("text", JStr child_text); ("parent_id", JStr (parent_id parent)); ("parent_text", JStr (text parent)); ("title", JStr title);
   ("source", JStr source); ("ingested_by", JStr (sc_principal c)); ("kind", JStr "document"); ("tenant", JStr (sc_tenant c))] ++
  if nonempty (default "" topic) then [("topic", JStr (default "" topic))] else [].

Definition item {A} (xs : list A) (i : nat) : result exc A :=
  match xs !! i with Some x => Ok x | None => Err (Exc "IndexError" "list index out of range") end.

Fixpoint points_from (c : SecurityCtx) (title source : string) (topic : option string) (dense_vectors : list (list float))
    (sparse_vectors : option (list sparse)) (i : nat) (todo : list (ParentChunk * string)) : result exc (list point) :=
  match todo with
  | [] => Ok []
  | (parent, child_text) :: todo =>
      rbind (item dense_vectors i) (λ dense,
      rbind (match sparse_vectors with Some vs => rbind (item vs i) (λ v, Ok (Some v)) | None => Ok None end) (λ sparse,
      rbind (points_from c title source topic dense_vectors sparse_vectors (S i) todo) (λ points,
        Ok (build_point (_content_point_id (sc_tenant c) source i child_text) dense (payload_of c title source topic parent child_text) sparse :: points))))
  end.

Definition ingest_text (text title : string) (ctx : option SecurityCtx) (source : string) (topic : option string)
    (on_progress : option (nat → nat → P ())) : P nat :=
  match ctx, valid_ctx ctx with
  | Some c, true =>
      parents ← chunk_text text DEFAULT_PARENT_CHARS DEFAULT_CHILD_CHARS DEFAULT_CHILD_OVERLAP;
      if bool_decide (length parents = 0%nat) then Ret 0%nat else
      let child_texts := snd <$> flattened parents in
      let total := length child_texts in
      sparse_vectors ← _sparse_vectors_or_none child_texts;
      dense_vectors ← embed_all on_progress total (batches EMBED_BATCH_SIZE child_texts) [];
      points ← of_result (points_from c title source topic dense_vectors sparse_vectors 0 (flattened parents));
      vectors (upsert cfg points None) ;;
      count "agent_ingest_total" (fst (partition ":" source)) ;;
      Ret (length points)
  | _, _ => refuse "no_ctx" "a valid tenant+principal ctx is required to ingest content"
  end.
(** *** Files *)

(** [PurePosixPath(p).name]: the last component but for empty ones and dots *)
Definition path_name (p : string) : string := default "" (last (filter (λ c, c ≠ "" ∧ c ≠ ".") (split_on "/" p))).

(** The position of the last full stop *)
Fixpoint rfind_dot (s : string) : option nat :=
  match s with
  | EmptyString => None
  | String a s => match rfind_dot s with Some i => Some (S i) | None => if Ascii.eqb a "." then Some 0%nat else None end
  end.

(** Where the suffix of a name begins: not at its first or last character *)
Definition suffix_at (name : string) : option nat :=
  match rfind_dot name with
  | Some i => if (0 <? i)%nat && (S i <? String.length name)%nat then Some i else None
  | None => None
  end.
Definition path_suffix (p : string) : string := match suffix_at (path_name p) with Some i => drop_str i (path_name p) | None => "" end.
Definition path_stem (p : string) : string := match suffix_at (path_name p) with Some i => take_str i (path_name p) | None => path_name p end.

Definition _ALLOWED_FILE_SUFFIXES : list string := [".md"; ".txt"].

Definition unsupported (suffix : string) (allowed : list string) : string :=
  "unsupported file type " +:+ repr_str suffix +:+ " — only " +:+ py_repr (JList (JStr <$> allowed)) +:+ " are supported".

Definition ingest_file (path : string) (ctx : option SecurityCtx) (topic : option string) : P nat :=
  if bool_decide (Text.lower (path_suffix path) ∉ _ALLOWED_FILE_SUFFIXES) then refuse "bad_file_type" (unsupported (path_suffix path) _ALLOWED_FILE_SUFFIXES) else
  text ← call (Read_file path);
  ingest_text text (path_stem path) ctx ("file:" +:+ path_name path) topic None.

(** *** Web pages *)

(** What the parser of HTML hands over *)
Inductive html_event : Type := Starttag (tag : string) | Endtag (tag : string) | Data (data : string).
Context (html_events : string → list html_event).

(** [_skip_depth] and [_chunks] *)
Definition _TextExtractor : Type := nat * list string.
Definition handle (x : _TextExtractor) (e : html_event) : _TextExtractor :=
  let '(depth, chunks) := x in
  match e with
  | Starttag tag => ((if bool_decide (tag ∈ ["script"; "style"]) then S depth else depth), chunks)
  | Endtag tag => ((if bool_decide (tag ∈ ["script"; "style"]) then pred depth else depth), chunks)
  | Data data => (depth, if (depth =? 0)%nat && nonempty (strip data) then chunks ++ [strip data] else chunks)
  end.
Definition extracted (markup : string) : string := join blank_line (foldl handle (0%nat, []) (html_events markup)).2.

Definition _assert_safe_url (url : string) : P () :=
  catch (assert_safe_url_async url)
    (λ e, if isinstance e ["UnsafeURLError"] then refuse "ssrf_blocked" (exc_text e) else Throw e).

Definition ingest_url (url : string) (ctx : option SecurityCtx) (topic : option string) : P nat :=
  _assert_safe_url url ;;
  r ← catch (call (Http_get url))
    (λ e, if isinstance e ["HTTPError"] then refuse "fetch_failed" ("fetch failed: " +:+ exc_text e) else Throw e);
  if (400 <=? status_code r)%Z then refuse "fetch_failed" ("fetch failed with status " +:+ dump_int (status_code r)) else
  if (_MAX_URL_BYTES <? content_length r)%Z then refuse "too_large" ("response exceeds the " +:+ dump_int _MAX_URL_BYTES +:+ "-byte fetch limit") else
  let text := if contains (content_type r) "html" then extracted (body r) else body r in
  ingest_text text url ctx ("url:" +:+ url) topic None.

(** ** [object_store.py] *)

Definition ensure_bucket : P () :=
  ready ← call Bucket_ready;
  if (ready : bool) then Ret () else
  exists_ ← call Bucket_exists;
  (if (exists_ : bool) then Ret () else call Make_bucket) ;;
  call Set_bucket_ready.

Definition upload_bytes (key data content_type : string) : P () := ensure_bucket ;; call (Put_object key data content_type).
Definition delete_object (key : string) : P () := catch_exception (call (Remove_object key)) (λ _, Ret ()).
Definition download_bytes (key : string) : P string := call (Get_object key).

(** ** [extractors.py] *)

Definition ExtractionFailed (text : string) : exc := Exc "ExtractionFailed" text.

Definition extract_pdf_text (data : string) : P string :=
  catch
    (is_encrypted ← call (Pdf_open data);
     if (is_encrypted : bool) then Throw (ExtractionFailed "PDF is password-protected") else
     pages ← call (Pdf_pages data);
     Ret (join blank_line (map (default "") pages)))
    (λ e, if isinstance e ["ExtractionFailed"] then Throw e else
          if isinstance e ["PdfReadError"; "ValueError"] then Throw (ExtractionFailed ("could not parse PDF: " +:+ exc_text e)) else Throw e).

Definition extract_docx_text (data : string) : P string :=
  catch_exception (call (Docx_open data)) (λ e, Throw (ExtractionFailed ("could not parse DOCX: " +:+ exc_text e))) ;;
  paragraphs ← call (Docx_paragraphs data);
  Ret (join blank_line (filter (λ p, strip p ≠ "") paragraphs)).

Definition EXTRACTORS_BY_SUFFIX : list (string * (string → P string)) := [(".docx", extract_docx_text); (".pdf", extract_pdf_text)].

(** ** [ingest_queue.py] *)

Definition INGEST_REQUESTS_STREAM : string := "ingest:requests".
Definition INGEST_CONSUMER_GROUP : string := "ingest-workers".
Definition ingest_results_key (job_id : string) : string := "ingest:results:" +:+ job_id.

Definition ctx_json (c : SecurityCtx) : json :=
  JObj [("tenant", JStr (sc_tenant c)); ("principal", JStr (sc_principal c)); ("claims", JObj [])].

Definition ingest_payload (job_id object_key filename content_type : string) (c : SecurityCtx) (topic : option string) : json :=
  JObj [("job_id", JStr job_id); ("object_key", JStr object_key); ("filename", JStr filename); ("content_type", JStr content_type);
        ("ctx", ctx_json c); ("topic", match topic with Some t => JStr t | None => JNull end)].

Definition publish_ingest_request (job_id object_key filename content_type : string) (c : SecurityCtx) (topic : option string) : P () :=
  redis (call (XAdd INGEST_REQUESTS_STREAM [("payload", dumps (ingest_payload job_id object_key filename content_type c topic))] None)) ;;
  Ret ().

Definition publish_ingest_result (job_id : string) (ev : event) : P () :=
  redis (call (XAdd (ingest_results_key job_id) [("payload", dumps (JObj ev))] None)) ;;
  redis (call (Jobs.Expire (ingest_results_key job_id) RESULTS_STREAM_TTL_SECONDS)).

Definition ensure_ingest_group : P () :=
  catch (redis (call (XGroupCreate INGEST_REQUESTS_STREAM INGEST_CONSUMER_GROUP)))
    (λ e, if String.eqb (exc_class e) "ResponseError" && contains (exc_text e) "BUSYGROUP" then Ret () else Throw e).

Definition ends_job (ev : event) : bool :=
  match dict_get "type" ev with Some (JStr t) => bool_decide (t ∈ ["done"; "error"]) | _ => false end.

Fixpoint read_job_entries (entries : list Jobs.entry) (last_id : string) : P (string * bool) :=
  match entries with
  | [] => Ret (last_id, false)
  | (entry_id, fs) :: entries =>
      text ← of_result (payload_text fs);
      ev ← of_result (loads_exc text);
      match ev with
      | JObj ev =>
          redis (call (Emit ev)) ;;
          if ends_job ev then Ret (entry_id, true) else read_job_entries entries entry_id
      | _ => Throw (Exc "AttributeError" "get")
      end
  end.

(** The loop of [read_results], at most [fuel] times round; [false] when it would go on *)
Fixpoint read_job_loop (fuel : nat) (job_id : string) (block_ms seconds : Z) (deadline : option Z) (last_id : string) : P bool :=
  match fuel with
  | O => Ret false
  | S fuel =>
      expired ← match deadline with
                | None => Ret false
                | Some deadline => now ← redis (call Jobs.Monotonic); Ret (deadline <=? now)%Z
                end;
      if (expired : bool) then
        redis (call (Jobs.Count "agent_worker_unreachable_total" "ingest")) ;;
        redis (call (Emit [("type", JStr "error");
          ("content", JStr ("No response for job " +:+ repr_str job_id +:+ " after " +:+ dump_int seconds +:+ "s — is an ingest-worker running?"))])) ;;
        Ret true
      else
      entries ← redis (call (XRead (ingest_results_key job_id) last_id block_ms 10));
      match entries with
      | [] => read_job_loop fuel job_id block_ms seconds deadline last_id
      | entries =>
          '(last_id, finished) ← read_job_entries entries last_id;
          if (finished : bool) then Ret true else read_job_loop fuel job_id block_ms seconds None last_id
      end
  end.

Definition read_job_results (fuel : nat) (job_id : string) (block_ms : Z) (first_event_deadline_seconds : option Z) : P bool :=
  deadline ← match first_event_deadline_seconds with
             | None => Ret None
             | Some s => now ← redis (call Jobs.Monotonic); Ret (Some (now + s * 1000000)%Z)
             end;
  read_job_loop fuel job_id block_ms (default 0%Z first_event_deadline_seconds) deadline "0".

Definition delete_job_results (job_id : string) : P () :=
  catch_exception (redis (call (Delete (ingest_results_key job_id)))) (λ _, Ret ()).
(** ** [ingest_worker.py] *)

(** The context a payload carries: a tenant and a person are texts. *)
Definition text_item (k : string) (l : list (string * json)) : string := match dict_get k l with Some (JStr s) => s | _ => "" end.
Definition ctx_of (j : json) : result exc (option SecurityCtx) :=
  match j with
  | JNull => Ok None
  | JObj l => Ok (Some (SecCtx (text_item "tenant" l) (text_item "principal" l)))
  | _ => Err (Exc "AttributeError" "get")
  end.

(** [str(exc)] *)
Definition exc_str (e : exc) : string := if String.eqb (exc_class e) "KeyError" then repr_str (exc_text e) else exc_text e.

Definition report (job_id : string) (done total : nat) : P () :=
  catch_exception
    (publish_ingest_result job_id [("type", JStr "progress"); ("done", JInt (Z.of_nat done)); ("total", JInt (Z.of_nat total))])
    (λ _, Ret ()).

(** The guarded part of [process_job] *)
Definition run_job (payload : json) (job_id : string) : P () :=
  publish_ingest_result job_id [("type", JStr "started")] ;;
  filename ← of_result (rbind (Jobs.subscript payload "filename") (λ j, match j with JStr f => Ok f | _ => Err (Exc "TypeError" "") end));
  let suffix := Text.lower (path_suffix filename) in
  match dict_get suffix EXTRACTORS_BY_SUFFIX with
  | None => Throw (ExtractionFailed (unsupported suffix EXTRACTORS_BY_SUFFIX.*1))
  | Some extractor =>
      object_key ← of_result (Jobs.subscript payload "object_key");
      data ← download_bytes (py_str object_key);
      text ← extractor data;
      ctx ← of_result (rbind (Jobs.subscript payload "ctx") ctx_of);
      topic ← of_result (get_item payload "topic");
      chunks ← ingest_text text (path_stem filename) ctx ("upload:" +:+ filename)
                 (match topic with Some (JStr t) => Some t | _ => None end) (Some (report job_id));
      publish_ingest_result job_id [("type", JStr "done"); ("chunks", JInt (Z.of_nat chunks))]
  end.

Definition ack_job (entry_id : string) : P () := redis (call (XAck INGEST_REQUESTS_STREAM INGEST_CONSUMER_GROUP entry_id)).

Definition process_job (entry_id : string) (fs : fields) : P () :=
  text ← of_result (payload_text fs);
  payload ← of_result (loads_exc text);
  job_id ← of_result (Jobs.subscript payload "job_id");
  finally
    (catch_exception (run_job payload (py_str job_id))
      (λ e, publish_ingest_result (py_str job_id) [("type", JStr "error"); ("content", JStr (exc_str e))]))
    (ack_job entry_id).

Definition _dead_letter_reclaimed_ingest_job (entry_id : string) (payload : json) (reason : string) : P () :=
  count "agent_worker_job_reclaimed_total" "ingest,dead_lettered" ;;
  redis (publish_dead_letter INGEST_REQUESTS_STREAM entry_id payload reason) ;;
  ack_job entry_id.

Definition UPLOAD_LOST_MESSAGE : string :=
  "The worker processing this upload kept failing after multiple attempts. Please upload it again.".

Definition reclaim_job (max_retries : Z) (entry_id : string) (fs : fields) : P () :=
  match rbind (payload_text fs) loads_exc with
  | Err _ => _dead_letter_reclaimed_ingest_job entry_id (JObj []) "unreadable_payload"
  | Ok (JObj payload) =>
      attempts ← of_result (attempts_of payload);
      if (attempts <? max_retries)%Z then
        redis (republish_job INGEST_REQUESTS_STREAM payload) ;;
        count "agent_worker_job_reclaimed_total" "ingest,retried" ;;
        ack_job entry_id
      else
        (if truthy (dict_get "job_id" payload) then
           publish_ingest_result (py_str (default JNull (dict_get "job_id" payload))) [("type", JStr "error"); ("content", JStr UPLOAD_LOST_MESSAGE)]
         else Ret ()) ;;
        _dead_letter_reclaimed_ingest_job entry_id (JObj payload) "worker_lost"
  | Ok _ => Throw (Exc "AttributeError" "get")
  end.

(** One pass of the loop, what it raises is logged; and the loop, at most [passes] times round *)
Definition ingest_reclaim_pass (max_retries idle_seconds : Z) (consumer : string) (fuel : nat) : P () :=
  catch_exception
    (entries ← redis (reclaim_stale_entries fuel INGEST_REQUESTS_STREAM INGEST_CONSUMER_GROUP consumer (idle_seconds * 1000)%Z);
     each (default [] entries) (λ '(entry_id, fs), reclaim_job max_retries entry_id fs))
    (λ _, Ret ()).
Fixpoint ingest_reclaim_loop (max_retries idle_seconds interval_seconds : Z) (consumer : string) (fuel passes : nat) : P () :=
  match passes with
  | O => Ret ()
  | S passes =>
      stop ← redis (call (Stopping interval_seconds));
      if (stop : bool) then Ret () else
      ingest_reclaim_pass max_retries idle_seconds consumer fuel ;;
      ingest_reclaim_loop max_retries idle_seconds interval_seconds consumer fuel passes
  end.

(** ** [api/routers/ingest.py] *)

(** An uploaded file, with what its reads give in turn *)
Record UploadFile : Type := mkUpload { up_filename : option string; up_content_type : option string; up_reads : list (result exc string) }.
Record IngestUploadResult : Type := mkResult { r_filename : string; r_job_id : option string; r_error : option string }.

(** The 413 of a file that is too large is its text. *)
Fixpoint _read_bounded (max_mb : Z) (filename : string) (total : Z) (reads : list (result exc string)) : P (string + string) :=
  match reads with
  | [] => Ret (inr "")
  | Err e :: _ => Throw e
  | Ok chunk :: reads =>
      if bool_decide (chunk = "") then Ret (inr "") else
      let total := (total + Z.of_nat (String.length chunk))%Z in
      if (max_mb * 1024 * 1024 <? total)%Z then
        count "agent_upload_rejected_total" "too_large" ;;
        Ret (inl (repr_str filename +:+ " exceeds the " +:+ dump_int max_mb +:+ "MB upload limit"))
      else
      rest ← _read_bounded max_mb filename total reads;
      Ret (match rest with inr data => inr (chunk +:+ data) | inl detail => inl detail end)
  end.

Definition upload_one (max_mb : Z) (topic : option string) (c : SecurityCtx) (upload : UploadFile) : P IngestUploadResult :=
  let filename := path_name (default "" (up_filename upload)) in
  let suffix := Text.lower (path_suffix filename) in
  if bool_decide (suffix ∉ EXTRACTORS_BY_SUFFIX.*1) then
    count "agent_upload_rejected_total" "bad_file_type" ;;
    Ret (mkResult filename None (Some (unsupported suffix EXTRACTORS_BY_SUFFIX.*1)))
  else
  data ← _read_bounded max_mb filename 0 (up_reads upload);
  match data with
  | inl detail => Ret (mkResult filename None (Some detail))
  | inr data =>
      job_id ← redis (call Jobs.Uuid4);
      let object_key := sc_tenant c +:+ "/" +:+ job_id +:+ "-" +:+ filename in
      let content_type := if nonempty (default "" (up_content_type upload)) then default "" (up_content_type upload) else "application/octet-stream" in
      catch_exception
        (upload_bytes object_key data content_type ;;
         publish_ingest_request job_id object_key filename content_type c topic ;;
         Ret (mkResult filename (Some job_id) None))
        (λ _, delete_object object_key ;;
              count "agent_upload_failed_total" "storage_error" ;;
              Ret (mkResult filename None (Some ("failed to queue " +:+ repr_str filename +:+ " for ingestion"))))
  end.

(** [inl] is the 400 of a request with too many files. *)
Definition ingest_upload (max_files : nat) (max_mb : Z) (files : list UploadFile) (topic : option string) (c : SecurityCtx) :
    P (string + list IngestUploadResult) :=
  if (max_files <? length files)%nat then
    count "agent_upload_rejected_total" "too_many_files" ;;
    Ret (inl (dump_int (Z.of_nat (length files)) +:+ " files exceeds the " +:+ dump_int (Z.of_nat max_files) +:+
      "-file limit per upload — split into multiple submissions"))
  else
  results ← collect files (upload_one max_mb topic c);
  Ret (inr results).

(** The frames of [ingest_stream]: the events that [read_job_results] emits *)
Definition ingest_stream (fuel : nat) (job_id : string) (deadline_seconds : Z) : P bool :=
  finally (read_job_results fuel job_id 5000 (Some deadline_seconds)) (delete_job_results job_id).
End commands.
