(* ===== verification/IngestTheorems.v ===== *)
(** The properties of the documents that come in, each with a concrete instance.  Module [Reach] says
    by numbers which addresses are of the open internet. *)
From Stdlib Require Import Ascii.
From S2P Require Import Prelude Dict Json Messages AgentState Process Sha256 Wire Jobs Identity Retrieval RetrievalTheorems Text Ingestion.

Local Open Scope string_scope.
Local Open Scope list_scope.

(** ** What is written, without its blanks *)

Fixpoint ink (s : string) : string :=
  match s with EmptyString => "" | String a s => if py_isspace a then ink s else String a (ink s) end.
Definition inks (l : list string) : string := join "" (ink <$> l).

Lemma ink_app s t : ink (s +:+ t) = ink s +:+ ink t.
Proof.
  induction s as [|a s IH]; [done|]. change (String a s +:+ t) with (String a (s +:+ t)). cbn [ink]. rewrite IH. by destruct (py_isspace a).
Qed.

Lemma inks_cons s l : inks (s :: l) = ink s +:+ inks l.
Proof. unfold inks. rewrite fmap_cons. apply join_cons. Qed.

Lemma inks_app l k : inks (l ++ k) = inks l +:+ inks k.
Proof. induction l as [|s l IH]; [done|]. cbn [app]. by rewrite !inks_cons, IH, str_app_assoc. Qed.

Lemma ink_blank_line : ink blank_line = "".
Proof. reflexivity. Qed.

Lemma ink_join l : ink (join blank_line l) = inks l.
Proof.
  induction l as [|s [|t l] IH]; [done| |].
  - by rewrite inks_cons, str_app_nil.
  - change (join blank_line (s :: t :: l)) with (s +:+ blank_line +:+ join blank_line (t :: l)). by rewrite !ink_app, ink_blank_line, IH, (inks_cons s).
Qed.

Lemma ink_lstrip s : ink (lstrip s) = ink s.
Proof. induction s as [|a s IH]; [done|]. cbn [lstrip ink]. destruct (py_isspace a) eqn:E; [done|]. cbn [ink]. by rewrite E. Qed.

Lemma ink_rstrip s : ink (rstrip s) = ink s.
Proof.
  induction s as [|a s IH]; [done|]. cbn [rstrip ink]. destruct (py_isspace a) eqn:E; cbn [andb].
  - case_bool_decide as Hr; [by rewrite <-IH, Hr|]. cbn [ink]. by rewrite E, IH.
  - cbn [ink]. by rewrite E, IH.
Qed.

Lemma ink_strip s : ink (strip s) = ink s.
Proof. unfold strip. by rewrite ink_rstrip, ink_lstrip. Qed.

(** Two line feeds split a text, and are blank. *)
Lemma split_blank_step a s : split_blank_lines (String a s) =
  if Ascii.eqb a newline && startswith s (String newline "") then "" :: split_blank_lines (drop_str 1 s)
  else match split_blank_lines s with p :: ps => String a p :: ps | [] => [String a ""] end.
Proof.
  destruct s as [|b rest]; cbn [split_blank_lines]; [by rewrite andb_false_r|]. unfold startswith. cbn [String.prefix].
  rewrite (Ascii.eqb_sym b newline). destruct (Ascii.eqb_spec newline b) as [E|E]; destruct (ascii_dec newline b); try done.
  by destruct rest.
Qed.

Lemma inks_split n s : (String.length s <= n)%nat → inks (split_blank_lines s) = ink s.
Proof.
  revert s. induction n as [|n IH]; intros [|a s] Hn; cbn [String.length] in Hn; try done; try lia.
  rewrite split_blank_step. destruct (_ && _) eqn:E.
  - apply andb_true_iff in E as [Ha%Ascii.eqb_eq Hs]. subst a. destruct s as [|b s]; [done|].
    unfold startswith in Hs. cbn [String.prefix] in Hs. destruct (ascii_dec newline b) as [<-|]; [|done].
    rewrite inks_cons, IH by (cbn [drop_str String.length] in *; lia). reflexivity.
  - specialize (IH s ltac:(lia)). destruct (split_blank_lines s) as [|p ps]; rewrite inks_cons; cbn [ink]; rewrite <-IH; [|rewrite inks_cons];
      by destruct (py_isspace a).
Qed.

Lemma inks_paragraphs s : inks (paragraphs s) = ink s.
Proof.
  rewrite <-(inks_split (String.length s) s) by done. unfold paragraphs. generalize (split_blank_lines s). intros l.
  induction l as [|p l IH]; [done|]. rewrite fmap_cons, filter_cons, inks_cons. case_decide as Hp.
  - by rewrite inks_cons, ink_strip, IH.
  - rewrite IH, <-ink_strip. destruct (decide (strip p = "")) as [->|]; [done|by destruct Hp].
Qed.

(** ** Parents *)

Definition fits (n : nat) (s : string) : Prop := s ≠ "" ∧ (String.length s <= n)%nat.

Lemma pieces_go_spec n fuel s : (0 < n)%nat → (String.length s <= fuel)%nat →
  inks (pieces_go fuel n s) = ink s ∧ Forall (fits n) (pieces_go fuel n s).
Proof.
  intros Hn. revert s. induction fuel as [|fuel IH]; intros [|a s] Hf; cbn [String.length] in Hf; try done; [lia|].
  cbn [pieces_go]. destruct (IH (drop_str n (String a s))) as [IH1 IH2]; [rewrite length_drop_str; cbn [String.length]; lia|]. split.
  - by rewrite inks_cons, IH1, <-ink_app, take_drop_str.
  - constructor; [|done]. split; [by destruct n; [lia|]|]. rewrite length_take_str. lia.
Qed.

Lemma join_last sep l x : l ≠ [] → join sep (l ++ [x]) = join sep l +:+ sep +:+ x.
Proof.
  induction l as [|y [|z l] IH]; intros Hl; [done..|]. change (join sep ((y :: z :: l) ++ [x])) with (y +:+ sep +:+ join sep ((z :: l) ++ [x])).
  rewrite IH by done. change (join sep (y :: z :: l)) with (y +:+ sep +:+ join sep (z :: l)). by rewrite !str_app_assoc.
Qed.

(** The current parent is as long as counted, and fits. *)
Definition packed (n : nat) (p : packing) : Prop :=
  Forall (fits n) (parents p) ∧
  (current p = [] ∧ current_len p = 0%nat ∨
   current p ≠ [] ∧ String.length (join blank_line (current p)) = current_len p ∧ (0 < current_len p <= n)%nat).

Lemma flushed_fits n p : packed n p → Forall (fits n) (flushed p).
Proof.
  intros [Hp Hc]. unfold flushed. case_bool_decide as E; [done|]. apply Forall_app. split; [done|]. constructor; [|done].
  destruct Hc as [[? _]|(_ & Hl & H0 & Hn)]; [done|]. split; [|lia]. intros E'. rewrite E' in Hl. cbn in Hl. lia.
Qed.

Lemma inks_flushed p : inks (flushed p) = inks (parents p) +:+ inks (current p).
Proof.
  unfold flushed. case_bool_decide as E; [by rewrite E, str_app_nil|]. rewrite inks_app. f_equal. rewrite inks_cons, ink_join. by rewrite str_app_nil.
Qed.

Lemma pack_spec n p para : (0 < n)%nat → para ≠ "" → packed n p →
  packed n (pack n p para) ∧ inks (flushed (pack n p para)) = inks (flushed p) +:+ ink para.
Proof.
  intros Hn Hpara Hp. pose proof (flushed_fits _ _ Hp) as Hf. destruct Hp as [Hps Hc]. unfold pack.
  assert (Hpos : (0 < String.length para)%nat) by (destruct para; [done|cbn; lia]).
  destruct (Nat.ltb_spec n (String.length para)) as [Hl|Hl].
  - destruct (pieces_go_spec n (String.length para) para Hn ltac:(done)) as [H1 H2]. split.
    + split; [by apply Forall_app|by left].
    + rewrite inks_flushed. cbn [parents current]. change (inks []) with "". rewrite str_app_nil, inks_app. unfold pieces. by rewrite H1.
  - case_bool_decide as E; cbn [negb andb].
    + split.
      * split; [done|]. right. cbn [parents current current_len]. rewrite E. destruct Hc as [[_ ->]|(? & _)]; [|done].
        split_and!; [done|cbn; lia|lia..].
      * rewrite !inks_flushed. cbn [parents current]. by rewrite inks_app, str_app_assoc, inks_cons, str_app_nil.
    + destruct Hc as [[? _]|(_ & Hlen & H0)]; [done|]. destruct (Nat.ltb_spec n (current_len p + (String.length para + 2))) as [Hx|Hx].
      * split; [split; [done|]; right; cbn [parents current current_len join]; split_and!; [done|done|lia..]|].
        rewrite inks_flushed. cbn [parents current]. by rewrite inks_cons, str_app_nil.
      * split.
        -- split; [done|]. right. cbn [parents current current_len]. split_and!; [by intros [? [=]]%app_eq_nil| |lia..].
           rewrite join_last by done. rewrite !str_length_app, Hlen. cbn. lia.
        -- rewrite !inks_flushed. cbn [parents current]. by rewrite inks_app, str_app_assoc, inks_cons, str_app_nil.
Qed.

Lemma packs_spec n paras p : (0 < n)%nat → Forall (λ x, x ≠ "") paras → packed n p →
  packed n (foldl (pack n) p paras) ∧ inks (flushed (foldl (pack n) p paras)) = inks (flushed p) +:+ inks paras.
Proof.
  intros Hn Hne. revert p. induction Hne as [|para paras Hp _ IH]; intros p Hpk; cbn [foldl]; [by rewrite str_app_nil|].
  destruct (pack_spec _ _ _ Hn Hp Hpk) as [H1 H2]. destruct (IH _ H1) as [H3 H4]. split; [done|]. by rewrite H4, H2, inks_cons, str_app_assoc.
Qed.

Lemma split_spec n s : (0 < n)%nat → ∃ ps, _split_into_parents s n = Ok ps ∧ inks ps = ink s ∧ Forall (fits n) ps.
Proof.
  intros Hn. unfold _split_into_parents. case_bool_decide as E; [exists []; split_and!; [done| |constructor]; by rewrite <-inks_paragraphs, E|].
  destruct (Nat.eqb_spec n 0) as [->|]; [lia|]. eexists. split; [done|].
  destruct (packs_spec n (paragraphs s) (mkPacking [] [] 0) Hn) as [H1 H2]; [|split; [constructor|by left]|].
  { unfold paragraphs. apply Forall_forall. by intros x [Hx _]%list_elem_of_filter. }
  split; [by rewrite H2, inks_paragraphs|by apply flushed_fits].
Qed.

(** ** Children *)

(** A passage from [i] on, [n] long *)
Definition passage (s : string) (i n : nat) : string := take_str n (drop_str i s).

(** What the children come to when each but the first loses what it shares with the one before *)
Definition rebuild (overlap : nat) (ws : list string) : string :=
  match ws with [] => "" | w :: ws => w +:+ join "" (drop_str overlap <$> ws) end.

(** Every child fits; they come to the text; and a passage a little longer than what they share
    is whole in one of them. *)
Definition covers (overlap child_chars : nat) (s : string) (start : nat) (ws : list string) : Prop :=
  rebuild overlap ws = drop_str start s ∧ Forall (fits child_chars) ws ∧
  ∀ i n, (start <= i)%nat → (n <= S overlap)%nat → (i + n <= String.length s)%nat →
    ∃ w j, w ∈ ws ∧ (j + n <= String.length w)%nat ∧ passage w j n = passage s i n.

Lemma slice_passage s start n : slice s start (start + n) = passage s start n.
Proof. unfold slice, passage. f_equal. lia. Qed.

Lemma passage_passage s i n j m : (j + m <= n)%nat → passage (passage s i n) j m = passage s (i + j) m.
Proof. intros Hj. unfold passage. rewrite drop_take_str, drop_drop_str, take_take_str. f_equal. lia. Qed.

Lemma length_passage s i n : (i + n <= String.length s)%nat → String.length (passage s i n) = n.
Proof. intros Hi. unfold passage. rewrite length_take_str, length_drop_str. lia. Qed.

Lemma windows_spec fuel s c step start : (0 < step <= c)%nat → (start < String.length s)%nat → (String.length s - start <= fuel)%nat →
  ∃ w ws, windows fuel s c step start = Some (w :: ws) ∧ String.length w = Nat.min c (String.length s - start) ∧ covers (c - step) c s start (w :: ws).
Proof.
  intros Hc. revert start. induction fuel as [|fuel IH]; intros start Hs Hf; [lia|]. cbn [windows].
  destruct (Nat.leb_spec (String.length s) start) as [|_]; [lia|]. rewrite slice_passage.
  destruct (Nat.leb_spec (String.length s) (start + c)) as [Hl|Hl].
  - assert (E : passage s start c = drop_str start s) by (apply take_str_all; rewrite length_drop_str; lia). rewrite E.
    exists (drop_str start s), []. split; [done|]. split; [rewrite length_drop_str; lia|]. split_and!.
    + cbn. by rewrite str_app_nil.
    + constructor; [|done]. split; [|rewrite length_drop_str; lia]. intros E'. apply (f_equal String.length) in E'. rewrite length_drop_str in E'. cbn in E'. lia.
    + intros i n Hi Hn Hin. exists (drop_str start s), (i - start)%nat. split_and!; [left|rewrite length_drop_str; lia|].
      unfold passage. rewrite drop_drop_str. do 2 f_equal. lia.
  - destruct (IH (start + step)%nat) as (w & ws & -> & Hw & Hre & Hfit & Hcov); [lia..|]. cbn [fmap option_fmap option_map].
    eexists _, _. split; [done|]. assert (Hlen : String.length (passage s start c) = c) by (apply length_passage; lia).
    split; [lia|]. split_and!.
    + cbn [rebuild] in Hre |- *. rewrite fmap_cons, join_cons.
      rewrite <-(take_drop_str c (drop_str start s)). fold (passage s start c). f_equal. rewrite drop_drop_str.
      replace (start + c)%nat with ((start + step) + (c - step))%nat by lia. rewrite <-drop_drop_str, <-Hre, drop_str_app by lia. done.
    + constructor; [|done]. split; [|lia]. intros E'. rewrite E' in Hlen. cbn in Hlen. lia.
    + intros i n Hi Hn Hin. destruct (decide (i + n <= start + c)%nat) as [Hin'|Hin'].
      * exists (passage s start c), (i - start)%nat. split_and!; [left|lia|]. rewrite passage_passage by lia. f_equal. lia.
      * destruct (Hcov i n) as (v & j & Hv & Hj & E); [lia..|]. exists v, j. split_and!; [by right|done..].
Qed.

Lemma sliding_spec s c o : s ≠ "" → (o < c)%nat → ∃ ws, _sliding_window s c o = Some ws ∧ covers o c s 0 ws.
Proof.
  intros Hs Ho. unfold _sliding_window. destruct (Nat.leb_spec (String.length s) c) as [Hl|Hl].
  - exists [s]. split; [done|]. split_and!.
    + cbn. by rewrite str_app_nil.
    + by constructor.
    + intros i n _ _ Hin. exists s, i. split_and!; [left|done|done].
  - destruct (windows_spec (String.length s) s c (c - o) 0) as (w & ws & -> & _ & Hc); [lia..|]. exists (w :: ws). split; [done|].
    by replace (c - (c - o))%nat with o in Hc by lia.
Qed.

Section chunks.
Context {address : Type}.
Implicit Types tr : list (step (@cmd address)).

Lemma collect_path {A B} (f : A → prog (@cmd address) B) (Q : A → B → Prop) (F : exc → step (@cmd address) → Prop) (xs : list A) :
  (∀ x tr out, x ∈ xs → path (f x) tr out → match out with Ok y => Q x y | Err e => Exists (F e) tr end) →
  ∀ tr out, path (collect xs f) tr out → match out with Ok ys => Forall2 Q xs ys | Err e => Exists (F e) tr end.
Proof.
  induction xs as [|x xs IH]; intros Hf tr out; cbn [collect]; [intros [-> ->]; constructor|].
  intros [(y & t1 & t2 & H1 & H2 & ->)|(e & H1 & ->)]%path_bind; [|by apply (Hf x tr (Err e)); [left|]].
  apply (Hf x) in H1; [|left]. apply path_bind in H2 as [(ys & t3 & t4 & H2 & [-> ->] & ->)|(e & H2 & ->)].
  - constructor; [done|]. apply (IH (λ x tr out Hx, Hf x tr out ltac:(by right)) t3 (Ok ys) H2).
  - apply Exists_app. right. apply (IH (λ x tr out Hx, Hf x tr out ltac:(by right)) t2 (Err e) H2).
Qed.

(** C38: chunking loses nothing but blanks and repeats nothing but the overlap.  A child as long as
    what it would share is refused.  Otherwise only a failing [uuid4] stops it, and: the parents come,
    blanks apart, to the text; each parent is no longer than the limit; its children are no longer
    than theirs; the first child, followed by each other one less the overlap it shares with the one
    before, is the parent, letter by letter; and every passage of the parent up to one character
    longer than the overlap is whole in one child, so that none is lost to search by a cut. *)
Theorem chunks_keep_the_text txt n c o tr out : (0 < n)%nat → path (chunk_text txt n c o) tr out →
  if (c <=? o)%nat then tr = [] ∧ out = Err (Exc "ValueError" "child_overlap must be smaller than child_chars") else
  match out with
  | Ok chunks => inks (text <$> chunks) = ink txt ∧ Forall (λ p, fits n (text p) ∧ covers o c (text p) 0 (children p)) chunks
  | Err e => Exists (λ s, s = Step (Redis Jobs.Uuid4) (Err e)) tr
  end.
Proof.
  intros Hn. unfold chunk_text. destruct (Nat.leb_spec c o) as [Hc|Hc]; [by intros [-> ->]|].
  destruct (split_spec n txt Hn) as (ps & -> & Hink & Hfit). cbn [of_result bind]. intros Hp.
  apply (collect_path _ (λ s p, text p = s ∧ covers o c s 0 (children p)) (λ e s, s = Step (Redis Jobs.Uuid4) (Err e))) in Hp.
  - destruct out as [chunks|e]; [|done]. split.
    + rewrite <-Hink. f_equal. clear Hink Hfit. induction Hp as [|s p ? ? [H1 _] _ IH]; [done|]. cbn. by rewrite H1, IH.
    + clear Hink. induction Hp as [|s p ? ? [<- H1] _ IH]; [constructor|]. inversion Hfit; subst. constructor; [done|]. by apply IH.
  - intros s tr1 out1 Hs. apply Forall_forall with (x := s) in Hfit as [Hs1 _]; [|done].
    destruct (sliding_spec s c o Hs1 Hc) as (ws & -> & Hcov).
    intros [(id & t1 & t2 & _ & [-> ->] & ->)|(e & H1 & ->)]%path_bind; [done|].
    apply path_lift in H1 as (tr' & ->%path_call & ->). by left.
Qed.
End chunks.

(** ** What an upload leaves in the store *)

(** The passages a text is searched by, in order *)
Definition passages (txt : string) : list string :=
  match _split_into_parents txt DEFAULT_PARENT_CHARS with
  | Ok ps => concat ((λ s, default [] (_sliding_window s DEFAULT_CHILD_CHARS DEFAULT_CHILD_OVERLAP)) <$> ps)
  | Err _ => []
  end.

Section upload.
Context {address : Type} (cfg : store_settings) (uuid5 : string → string).
Implicit Types tr : list (step (@cmd address)).

Definition put (s : step (@cmd address)) : option (list point) := match st_cmd s with Vectors (Upsert _ ps) => Some ps | _ => None end.
Definition given (s : step (@cmd address)) : option (list (string * list float)) :=
  match s with
  | Step c r =>
      match c in cmd R return result exc R → _ with
      | Vectors c =>
          match c in Retrieval.cmd R return result exc R → _ with
          | Embed_documents ts => λ r, match r with Ok vs => Some (zip ts vs) | Err _ => None end
          | _ => λ _, None
          end
      | _ => λ _, None
      end r
  end.

(** The points a run wrote, and the texts it had embedded with their vectors *)
Definition upserted tr : list point := concat (omap put tr).
Definition embedded tr : list (string * list float) := concat (omap given tr).

Lemma upserted_app tr1 tr2 : upserted (tr1 ++ tr2) = upserted tr1 ++ upserted tr2.
Proof. unfold upserted. by rewrite omap_app, concat_app. Qed.
Lemma embedded_app tr1 tr2 : embedded (tr1 ++ tr2) = embedded tr1 ++ embedded tr2.
Proof. unfold embedded. by rewrite omap_app, concat_app. Qed.

Abbreviation quiet := (only (λ s : step (@cmd address), put s = None ∧ given s = None)).
Abbreviation unwritten := (only (λ s : step (@cmd address), put s = None)).

Lemma quiet_trace {A} (p : prog (@cmd address) A) tr out : quiet p → path p tr out → upserted tr = [] ∧ embedded tr = [].
Proof.
  intros Hq Hp%Hq. unfold upserted, embedded. split; rewrite omap_none; try done; eapply Forall_impl; try exact Hp; by intros s [].
Qed.
Lemma unwritten_trace {A} (p : prog (@cmd address) A) tr out : unwritten p → path p tr out → upserted tr = [].
Proof. intros Hq Hp%Hq. unfold upserted. by rewrite omap_none. Qed.

Lemma redis_quiet {A} (p : prog Jobs.cmd A) : quiet (redis p).
Proof.
  intros tr out (tr' & _ & ->)%path_lift. apply Forall_forall. intros s (s' & <- & _)%list_elem_of_In%in_map_iff. by destruct s'.
Qed.
Lemma count_quiet a b : quiet (count a b).
Proof. apply redis_quiet. Qed.
#[local] Hint Resolve redis_quiet count_quiet : steps.

Lemma collect_quiet {A B} (xs : list A) (f : A → prog (@cmd address) B) : (∀ x, quiet (f x)) → quiet (collect xs f).
Proof. intros Hf. induction xs as [|x xs IH]; cbn [collect]; auto 12 with steps. Qed.

Lemma chunk_quiet txt n c o : quiet (chunk_text txt n c o).
Proof. apply only_if; [auto with steps|]. apply only_bind; [auto with steps|]. intros ps. apply collect_quiet. auto with steps. Qed.

Lemma sparse_quiet ts : quiet (_sparse_vectors_or_none ts).
Proof.
  apply only_catch_exception; [|auto with steps]. apply only_bind; [|auto with steps].
  intros tr out (tr' & ->%path_call & ->)%path_lift. by repeat constructor.
Qed.

Lemma report_quiet job a b : quiet (report job a b).
Proof. apply only_catch_exception; [|auto with steps]. unfold publish_ingest_result. auto with steps. Qed.

(** Only [upsert] itself writes. *)
Definition writes (s : step Retrieval.cmd) : bool := match st_cmd s with Upsert _ _ => true | _ => false end.
Lemma vectors_unwritten {A} (p : prog Retrieval.cmd A) :
  only (λ s, writes s = false) p → unwritten (vectors p).
Proof.
  intros Hp tr out (tr' & Hpath%Hp & ->)%path_lift. apply Forall_map. eapply Forall_impl; [exact Hpath|]. intros [R c r]. by destruct c.
Qed.
#[local] Hint Resolve report_quiet : steps.

Lemma check_unwritten collection : only (λ s, writes s = false) (check_identity cfg collection).
Proof. eapply only_impl; [apply check_identity_looks|]. intros [R c r] Hc. by destruct c. Qed.

(** *** Batches *)

Lemma concat_batches {A} n (xs : list A) : (0 < n)%nat → concat (batches n xs) = xs.
Proof.
  intros Hn. unfold batches. assert (H : (length xs <= length xs)%nat) by done. revert H. generalize (length xs) at 2 3. intros fuel. revert xs.
  induction fuel as [|fuel IH]; intros [|x xs] Hl; cbn [length batches_go] in *; try done; [lia|].
  cbn [concat]. rewrite IH; [by rewrite take_drop|]. rewrite length_drop. cbn [length]. lia.
Qed.

Lemma upsert_writes points tr out : path (vectors (upsert cfg points None) : prog (@cmd address) _) tr out →
  upserted tr `prefix_of` points ∧ ∀ a, out = Ok a → upserted tr = points.
Proof.
  unfold vectors. intros (tr' & Hp & ->)%path_lift. unfold upsert in Hp.
  assert (Hw : ∀ (tr1 : list (step Retrieval.cmd)) out1, path (check_identity cfg None) tr1 out1 →
    upserted (map (lift_step (@Vectors address)) tr1) = []).
  { intros tr1 out1 H1. apply (unwritten_trace (vectors (check_identity cfg None)) _ out1).
    - apply vectors_unwritten, check_unwritten.
    - apply path_lift. by exists tr1. }
  apply path_bind in Hp as [(name & t1 & t2 & H1 & H2 & ->)|(e & H1 & ->)].
  2:{ rewrite (Hw _ _ H1). split; [apply prefix_nil|done]. }
  rewrite map_app, upserted_app, (Hw _ _ H1). cbn [app]. clear H1 Hw t1.
  rewrite <-(concat_batches _MAX_POINTS_PER_UPSERT_BATCH points) by (unfold _MAX_POINTS_PER_UPSERT_BATCH; lia).
  revert t2 H2. generalize (batches _MAX_POINTS_PER_UPSERT_BATCH points). intros bs.
  induction bs as [|b bs IH]; intros t2 Hp; cbn [each] in Hp; [destruct Hp as [-> ->]; done|].
  apply path_bind in Hp as [([] & t3 & t4 & H3 & H4 & ->)|(e & H3 & ->)].
  - apply path_call in H3 as ->. destruct (IH _ H4) as [H5 H6]. cbn [map]. rewrite map_app, upserted_app. cbn [concat].
    assert (E : upserted (map (lift_step (@Vectors address)) [Step (Upsert name b) (Ok ())]) = b) by (cbn; by rewrite app_nil_r).
    rewrite E. split.
    + by apply prefix_app.
    + intros a Ha. by rewrite (H6 _ Ha).
  - apply path_call in H3 as ->. split; [|done]. cbn. rewrite app_nil_r. by apply prefix_app_r.
Qed.

(** *** What is embedded *)

(** The embedder gives one vector for each text. *)
Definition one_each tr : bool :=
  forallb (λ s, match s with
    | Step c r =>
        match c in cmd R return result exc R → bool with
        | Vectors c =>
            match c in Retrieval.cmd R return result exc R → bool with
            | Embed_documents ts => λ r, match r with Ok vs => (length vs =? length ts)%nat | Err _ => true end
            | _ => λ _, true
            end
        | _ => λ _, true
        end r
    end) tr.

Lemma one_each_app tr1 tr2 : one_each (tr1 ++ tr2) = one_each tr1 && one_each tr2.
Proof. apply forallb_app. Qed.

Lemma embed_all_spec job total todo d tr out :
  path (embed_all cfg (report <$> job) total todo d : prog (@cmd address) _) tr out →
  upserted tr = [] ∧
  ∀ d', out = Ok d' → one_each tr → ∃ new, d' = d ++ new ∧ embedded tr = zip (String.append (EMBED_DOCUMENT_PREFIX cfg) <$> concat todo) new ∧
    length new = length (concat todo).
Proof.
  revert d tr. induction todo as [|ts todo IH]; intros d tr; cbn [embed_all].
  { intros [-> ->]. split; [done|]. intros d' [= <-] _. exists []. by rewrite app_nil_r. }
  intros [(new & t1 & t2 & H1 & H2 & ->)|(e & H1 & ->)]%path_bind; apply path_lift in H1 as (tr' & ->%path_call & ->); [|done].
  rewrite upserted_app. cbn [map lift_step].
  apply path_bind in H2 as [([] & t3 & t4 & H3 & H4 & ->)|(e & H3 & ->)].
  all: eapply quiet_trace in H3 as [Hq1 Hq2]; [|destruct job; [apply report_quiet|apply only_ret]].
  2: { by rewrite Hq1. }
  apply IH in H4 as [H4 H5]. rewrite upserted_app, Hq1, H4. split; [done|]. intros d' -> Hone.
  rewrite !one_each_app, !andb_True in Hone. destruct Hone as (Hone & _ & Hone2). destruct (H5 d' eq_refl Hone2) as (new2 & -> & E & Hl).
  exists (new ++ new2). rewrite app_assoc. split; [done|]. rewrite !embedded_app, Hq2, E. cbn [concat]. rewrite fmap_app.
  cbn in Hone. rewrite andb_true_r in Hone. apply Is_true_true, Nat.eqb_eq in Hone. rewrite length_fmap in Hone. split.
  - cbn. rewrite app_nil_r. symmetry. apply zip_with_app. by rewrite length_fmap.
  - rewrite !length_app, Hl. lia.
Qed.

(** *** The points *)

Lemma points_from_spec c title source topic d v i todo pts :
  points_from uuid5 c title source topic d v i todo = Ok pts →
  length pts = length todo ∧
  ∀ j pt, pts !! j = Some pt → ∃ parent t vec, todo !! j = Some (parent, t) ∧ d !! (i + j)%nat = Some vec ∧ p_dense pt = vec ∧
    p_id pt = _content_point_id uuid5 (sc_tenant c) source (i + j) t ∧ p_payload pt = payload_of c title source topic parent t.
Proof.
  revert i pts. induction todo as [|[parent t] todo IH]; intros i pts; cbn [points_from]; [by intros [= <-]|].
  unfold item at 1. destruct (d !! i) as [vec|] eqn:Hd; [|done]. cbn [rbind].
  destruct (match v with Some _ => _ | None => _ end) as [sv|]; [|done]. cbn [rbind].
  destruct (points_from uuid5 c title source topic d v (S i) todo) as [pts'|] eqn:E; [|done]. intros [= <-].
  destruct (IH _ _ E) as [H1 H2]. split; [cbn; by rewrite H1|]. intros [|j] pt.
  - intros [= <-]. exists parent, t, vec. by rewrite Nat.add_0_r.
  - intros Hj. destruct (H2 j pt Hj) as (parent' & t' & vec' & ?). exists parent', t', vec'. by rewrite Nat.add_succ_r.
Qed.

Lemma flattened_passages txt (chunks : list ParentChunk) tr :
  path (chunk_text txt DEFAULT_PARENT_CHARS DEFAULT_CHILD_CHARS DEFAULT_CHILD_OVERLAP : prog (@cmd address) _) tr (Ok chunks) →
  snd <$> flattened chunks = passages txt.
Proof.
  unfold chunk_text, passages. change (DEFAULT_CHILD_CHARS <=? DEFAULT_CHILD_OVERLAP)%nat with false.
  destruct (split_spec DEFAULT_PARENT_CHARS txt) as (ps & -> & _); [unfold DEFAULT_PARENT_CHARS; lia|]. cbn [of_result bind]. intros Hp.
  apply (collect_path _ (λ s p, children p = default [] (_sliding_window s DEFAULT_CHILD_CHARS DEFAULT_CHILD_OVERLAP)) (λ _ _, True)) in Hp.
  - unfold flattened. induction Hp as [|s p ? ? H1 _ IH]; [done|]. cbn [fmap list_fmap concat]. rewrite fmap_app. cbn in IH |- *. rewrite IH, <-H1. f_equal.
    rewrite <-list_fmap_compose. apply list_fmap_id.
  - intros s tr1 out1 _ [(id & t1 & t2 & _ & [-> ->] & ->)|(e & H1 & ->)]%path_bind; [done|].
    apply path_lift in H1 as (tr' & ->%path_call & ->). by left.
Qed.

(** Storing a text again writes the points it wrote before.  On every run, whole or cut short by
    any failure, the point written [i]-th is that of the text's [i]-th passage: its id is computed from
    the tenant, the source, the place and the passage alone, so a second run can only write over it;
    it carries the passage, its parent and the caller's tenant; and, of an embedder that gives one
    vector for each text, the vector it gave for this very passage.  A run that returns has written
    every passage and says how many they are; without a caller nothing is written. *)
Theorem repeated_upload_lands_on_the_same_points text title ctx source topic job tr out :
  path (ingest_text cfg uuid5 text title ctx source topic (report <$> job) : prog (@cmd address) _) tr out →
  match ctx, valid_ctx ctx with
  | Some c, true =>
      (∀ i pt, upserted tr !! i = Some pt → ∃ passage parent, passages text !! i = Some passage ∧
         p_id pt = _content_point_id uuid5 (sc_tenant c) source i passage ∧ p_payload pt = payload_of c title source topic parent passage ∧
         (one_each tr → embedded tr !! i = Some (EMBED_DOCUMENT_PREFIX cfg +:+ passage, p_dense pt))) ∧
      (∀ n, out = Ok n → length (upserted tr) = length (passages text) ∧ n = length (passages text))
  | _, _ => upserted tr = [] ∧ ∃ e, out = Err e
  end.
Proof.
  unfold ingest_text. destruct ctx as [c|]; [destruct (valid_ctx (Some c))|].
  2,3: intros [([] & t1 & t2 & H1 & [-> ->] & ->)|(e & H1 & ->)]%path_bind; (eapply quiet_trace in H1 as [H1 _]; [|apply count_quiet]);
    rewrite ?app_nil_r; eauto.
  intros [(chunks & t1 & t2 & H1 & H2 & ->)|(e & H1 & ->)]%path_bind.
  2: { eapply quiet_trace in H1 as [-> _]; [done|apply chunk_quiet]. }
  pose proof (flattened_passages _ _ _ H1) as Hps. eapply quiet_trace in H1 as [Hu1 He1]; [|apply chunk_quiet].
  rewrite upserted_app, embedded_app, one_each_app, Hu1, He1. cbn [app]. clear Hu1 He1.
  case_bool_decide as Hch.
  { destruct H2 as [-> ->]. split; [done|]. intros n [= <-]. destruct chunks; [|done]. by rewrite <-Hps. }
  rewrite <-Hps. set (todo := flattened chunks) in *. clearbody todo. clear Hps Hch.
  apply path_bind in H2 as [(v & t3 & t4 & H3 & H4 & ->)|(e & H3 & ->)].
  2: { eapply quiet_trace in H3 as [-> _]; [done|apply sparse_quiet]. }
  eapply quiet_trace in H3 as [Hu3 He3]; [|apply sparse_quiet]. rewrite upserted_app, embedded_app, one_each_app, Hu3, He3. cbn [app]. clear Hu3 He3.
  apply path_bind in H4 as [(d & t5 & t6 & H5 & H6 & ->)|(e & H5 & ->)]; apply embed_all_spec in H5 as [Hu5 H5]; [|by rewrite Hu5].
  specialize (H5 d eq_refl). rewrite concat_batches in H5 by (unfold EMBED_BATCH_SIZE; lia).
  rewrite upserted_app, embedded_app, one_each_app, Hu5. cbn [app].
  apply path_bind in H6 as [(pts & t7 & t8 & H7 & H8 & ->)|(e & H7 & ->)].
  2: { destruct (points_from _ _ _ _ _ _ _ _ _); [by destruct H7|]. by destruct H7 as [-> _]. }
  destruct (points_from _ _ _ _ _ _ _ _ _) as [pts'|] eqn:Epts; [|by destruct H7]. destruct H7 as [-> [= <-]]. cbn [app].
  apply points_from_spec in Epts as [Hlen Hpts].
  assert (Hup : upserted t8 `prefix_of` pts ∧ ∀ n, out = Ok n → upserted t8 = pts ∧ n = length pts).
  { apply path_bind in H8 as [([] & t9 & t10 & H9 & H10 & ->)|(e & H9 & ->)]; apply upsert_writes in H9 as [H9 H9']; [|done].
    assert (upserted t10 = []) as E.
    { eapply quiet_trace with (p := (count "agent_ingest_total" (fst (partition ":" source)) ;; Ret (length pts))%prog); [|exact H10]. auto with steps. }
    rewrite upserted_app, E, app_nil_r. split; [done|]. intros n ->. split; [by apply (H9' ())|].
    apply path_bind in H10 as [([] & ? & ? & _ & [_ [= ->]] & _)|(e & _ & [=])]. done. }
  destruct Hup as [Hpre Hall]. split.
  - intros i pt Hi. destruct (Hpts i pt) as (parent & t & vec & Ht & Hvec & Hd & Hid & Hpay); [by eapply prefix_lookup_Some|].
    exists t, parent. rewrite list_lookup_fmap, Ht. split_and!; [done..|]. intros Hone. apply andb_True in Hone as [_ Hone].
    apply andb_True in Hone as [_ Hone]. apply andb_True in Hone as [Hone _].
    destruct (H5 Hone) as (new & Enew & Eemb & Hnew). cbn [app] in Enew. subst d. rewrite Eemb. apply lookup_app_l_Some, lookup_zip_Some.
    rewrite !list_lookup_fmap, Ht. cbn in Hvec. rewrite Hvec, Hd. done.
  - intros n Hn. destruct (Hall n Hn) as [-> ->]. by rewrite length_fmap, Hlen.
Qed.
End upload.

(** ** Which points are told apart *)

Definition free_of (a : ascii) (s : string) : Prop := a ∉ String.list_ascii_of_string s.
#[export] Instance free_of_dec a s : Decision (free_of a s) := _.

Lemma free_cons a b s : free_of a (String b s) ↔ a ≠ b ∧ free_of a s.
Proof. unfold free_of. cbn. rewrite not_elem_of_cons. done. Qed.

Lemma first_bar a s t s' t' : free_of a s → free_of a s' → s +:+ String a t = s' +:+ String a t' → s = s' ∧ t = t'.
Proof.
  revert s'. induction s as [|b s IH]; intros [|b' s'] Hs Hs' E; rewrite ?free_cons in *; cbn in E; simplify_eq.
  - done.
  - by destruct Hs' as [? _].
  - by destruct Hs as [? _].
  - destruct (IH s') as [-> ->]; [apply Hs|apply Hs'|done|done].
Qed.

Lemma free_app a s t : free_of a (s +:+ t) → free_of a t.
Proof. induction s as [|b s IH]; [done|]. intros [_ H]%free_cons. by apply IH. Qed.

Lemma last_bar a s t s' t' : free_of a t → free_of a t' → s +:+ String a t = s' +:+ String a t' → s = s' ∧ t = t'.
Proof.
  revert s'. induction s as [|b s IH]; intros [|b' s'] Ht Ht' E; cbn in E; simplify_eq; [done|..].
  - apply free_app, free_cons in Ht as [? _]. done.
  - apply free_app, free_cons in Ht' as [? _]. done.
  - destruct (IH s') as [-> ->]; done.
Qed.

Lemma same_tail s d s' d' : String.length d = String.length d' → s +:+ d = s' +:+ d' → s = s' ∧ d = d'.
Proof.
  intros Hd. revert s'. induction s as [|b s IH]; intros [|b' s'] E; [done|..|].
  1,2: apply (f_equal String.length) in E; rewrite !str_length_app in E; cbn [String.length] in E; lia.
  cbn in E. injection E as -> E. destruct (IH _ E) as [-> ->]. done.
Qed.

Lemma after_bar a s t : String a s = String a t → s = t.
Proof. by intros [= ->]. Qed.

Lemma dump_free z : free_of "|" (dump_int z).
Proof. intros Ha%dump_int_in_number. done. Qed.

Lemma hex_digit_inj n m : (n < 16)%N → (m < 16)%N → hex_digit n = hex_digit m → n = m.
Proof.
  intros Hn Hm E%(f_equal N_of_ascii). unfold hex_digit in E.
  destruct (N.ltb_spec n 10), (N.ltb_spec m 10); rewrite !N_ascii_embedding in E; lia.
Qed.

Lemma hex_inj s t : hex s = hex t → s = t.
Proof.
  revert t. induction s as [|a s IH]; intros [|b t]; cbn [hex]; [done..|]. intros [= E1 E2 E3%IH]. subst.
  pose proof (N_ascii_bounded a). pose proof (N_ascii_bounded b).
  apply hex_digit_inj in E1; [|apply N.Div0.div_lt_upper_bound; lia..]. apply hex_digit_inj in E2; [|apply N.mod_lt; lia..]. f_equal.
  rewrite <-(ascii_N_embedding a), <-(ascii_N_embedding b). f_equal. rewrite (N.div_mod (N_of_ascii a) 16), (N.div_mod (N_of_ascii b) 16) by lia. congruence.
Qed.

(** Tenants do not share points.  As long as no tenant's name has a bar in it, what a point's id is
    computed from tells everything apart: names that agree are of one tenant, one source, one place and
    passages of one digest — so two tenants that store the very same document never write over each other. *)
Theorem points_of_tenants_are_apart tenant tenant' source source' i i' passage passage' :
  free_of "|" tenant → free_of "|" tenant' → point_name tenant source i passage = point_name tenant' source' i' passage' →
  tenant = tenant' ∧ source = source' ∧ i = i' ∧ sha256 (encode passage) = sha256 (encode passage').
Proof.
  assert (Hn : ∀ t s j x, point_name t s j x =
    t +:+ String "|" ((s +:+ String "|" (dump_int (Z.of_nat j))) +:+ String "|" (hex (sha256 (encode x))))).
  { intros. unfold point_name. by rewrite str_app_assoc. }
  intros Ht Ht' E. rewrite !Hn in E. apply first_bar in E as [-> E]; [|done..]. split; [done|].
  apply same_tail in E as [E1 E2%after_bar]; [|cbn [String.length]; by rewrite !length_hex, !length_sha256].
  apply last_bar in E1 as [-> E1]; [|apply dump_free..]. split_and!; [done| |].
  - assert (Hi : Some (JInt (Z.of_nat i)) = Some (JInt (Z.of_nat i'))) by (by rewrite <-!load_dump_int, E1). injection Hi. lia.
  - by apply hex_inj.
Qed.

(** ** Addresses of the open internet *)

(** Said in bounds of numbers, and apart from the tables of networks that the guard reads *)
Module Reach.
Import Ip.
Local Open Scope Z_scope.

Definition between (lo n hi : Z) : Prop := lo <= n <= hi.
(** The last address that begins with these groups *)
Definition upto (gs : list Z) : Z := foldl (λ n g, n * 65536 + g) 0 (take 8 (gs ++ replicate 8 0xffff)).

(** This network, the private ones, those of carriers (with the metadata services of clouds), the machine
    itself, the link, protocol assignments, documentation, benchmarks, multicast and what is reserved *)
Definition inside4 (n : Z) : Prop :=
  between (dotted 0 0 0 0) n (dotted 0 255 255 255) ∨ between (dotted 10 0 0 0) n (dotted 10 255 255 255) ∨
  between (dotted 100 64 0 0) n (dotted 100 127 255 255) ∨ between (dotted 127 0 0 0) n (dotted 127 255 255 255) ∨
  between (dotted 169 254 0 0) n (dotted 169 254 255 255) ∨ between (dotted 172 16 0 0) n (dotted 172 31 255 255) ∨
  between (dotted 192 0 0 0) n (dotted 192 0 0 255) ∧ n ≠ dotted 192 0 0 9 ∧ n ≠ dotted 192 0 0 10 ∨
  between (dotted 192 0 2 0) n (dotted 192 0 2 255) ∨ between (dotted 192 168 0 0) n (dotted 192 168 255 255) ∨
  between (dotted 198 18 0 0) n (dotted 198 19 255 255) ∨ between (dotted 198 51 100 0) n (dotted 198 51 100 255) ∨
  between (dotted 203 0 113 0) n (dotted 203 0 113 255) ∨ between (dotted 224 0 0 0) n (dotted 255 255 255 255).

(** What is below [2000::], from [4000::] through the unique local and the link-local addresses, multicast,
    6to4, the two networks for documentation, and protocol assignments but for those of anycast and the like *)
Definition inside6 (n : Z) : Prop :=
  between 0 n (upto [0x1fff]) ∨ between (groups [0x4000]) n (upto [0xfebf]) ∨ between (groups [0xff00]) n (upto []) ∨
  between (groups [0x2002]) n (upto [0x2002]) ∨ between (groups [0x2001; 0xdb8]) n (upto [0x2001; 0xdb8]) ∨
  between (groups [0x3fff]) n (upto [0x3fff; 0x0fff]) ∨
  between (groups [0x2001]) n (upto [0x2001; 0x1ff]) ∧
    ¬ between (groups [0x2001; 1; 0; 0; 0; 0; 0; 1]) n (groups [0x2001; 1; 0; 0; 0; 0; 0; 2]) ∧
    ¬ between (groups [0x2001; 3]) n (upto [0x2001; 3]) ∧ ¬ between (groups [0x2001; 4; 0x112]) n (upto [0x2001; 4; 0x112]) ∧
    ¬ between (groups [0x2001; 0x20]) n (upto [0x2001; 0x3f]).

(** The first address of the IPv4 addresses written as IPv6 ones *)
Definition mapped : Z := groups [0; 0; 0; 0; 0; 0xffff].
Definition outward (a : ip) : Prop :=
  match a with
  | IPv4 n => ¬ inside4 n
  | IPv6 n => (between mapped n (mapped + 0xffffffff) → ¬ inside4 (n - mapped)) ∧ (¬ between mapped n (mapped + 0xffffffff) → ¬ inside6 n)
  end.

Lemma within_range w n base len : 0 <= w - len → base mod 2 ^ (w - len) = 0 →
  within w n (base, len) = (base <=? n) && (n <=? base + 2 ^ (w - len) - 1).
Proof.
  intros Hk Hb. unfold within. cbn [fst snd]. rewrite !Z.shiftr_div_pow2 by lia.
  set (p := 2 ^ (w - len)) in *. assert (0 < p) by (apply Z.pow_pos_nonneg; lia).
  pose proof (Z.div_mod base p ltac:(lia)). pose proof (Z.div_mod n p ltac:(lia)). pose proof (Z.mod_pos_bound n p ltac:(lia)).
  destruct (Z.eqb_spec (n / p) (base / p)) as [E|E]; symmetry.
  - rewrite E in *. apply andb_true_iff. rewrite !Z.leb_le. lia.
  - apply andb_false_iff. rewrite !Z.leb_gt. nia.
Qed.

Definition aligned (w : Z) (net : network) : bool := (0 <=? w - net.2) && (net.1 mod 2 ^ (w - net.2) =? 0).
Lemma within_ranges w n nets : forallb (aligned w) nets = true →
  within_any w n nets = existsb (λ r, (r.1 <=? n) && (n <=? r.2)) (map (λ net, (net.1, net.1 + 2 ^ (w - net.2) - 1)) nets).
Proof.
  intros H. unfold within_any. induction nets as [|[b l] nets IH]; [done|]. cbn [forallb existsb map fst snd] in *.
  apply andb_true_iff in H as [[H1 H2]%andb_true_iff H]. rewrite IH by done. rewrite within_range; [done|cbn in *; lia..].
Qed.

(** Networks become bounds, and addresses the numbers they are. *)
Ltac ranges := rewrite within_ranges by (vm_compute; reflexivity);
  match goal with |- context [existsb _ (map ?f ?l)] => let v := eval vm_compute in (map f l) in change (map f l) with v end; cbn [existsb fst snd].
Ltac numbers := repeat match goal with
  | |- context [groups ?l] => let v := eval vm_compute in (groups l) in change (groups l) with v
  | |- context [upto ?l] => let v := eval vm_compute in (upto l) in change (upto l) with v
  | |- context [dotted ?a ?b ?c ?d] => let v := eval vm_compute in (dotted a b c d) in change (dotted a b c d) with v
  end.

(** The condition of the guard *)
Definition refused (a : ip) : bool :=
  negb (is_global a) || is_private a || is_loopback a || is_link_local a || is_reserved a || is_multicast a || is_unspecified a.

Lemma refused4 n : refused (IPv4 n) = false ↔ ¬ inside4 n.
Proof.
  unfold refused, is_global, is_private, is_loopback, is_link_local, is_reserved, is_multicast, is_unspecified, by_version, private, inside4, between.
  repeat ranges. numbers. lia.
Qed.

Lemma refused6 n : ipv4_mapped n = None → refused (IPv6 n) = false ↔ ¬ inside6 n.
Proof.
  intros Hm. unfold refused, is_global, is_private, is_loopback, is_link_local, is_reserved, is_multicast, is_unspecified, by_version, private, inside6, between.
  rewrite Hm. repeat ranges. numbers. lia.
Qed.

Lemma mapped_spec n : ipv4_mapped n = if decide (between mapped n (mapped + 0xffffffff)) then Some (n - mapped) else None.
Proof.
  unfold ipv4_mapped, between, mapped. numbers. change 0xffffffff with (Z.ones 32). rewrite Z.land_ones, Z.shiftr_div_pow2 by lia. change (2 ^ 32) with 4294967296.
  pose proof (Z.div_mod n 4294967296 ltac:(lia)). pose proof (Z.mod_pos_bound n 4294967296 ltac:(lia)). change (Z.ones 32) with 4294967295.
  destruct (Z.eqb_spec (n / 4294967296) 0xffff), (decide _); try lia; [f_equal|done]. lia.
Qed.

Lemma refused_spec a : refused (unwrapped a) = false ↔ outward a.
Proof.
  destruct a as [n|n]; [apply refused4|]. unfold unwrapped, outward. pose proof (mapped_spec n) as Hm. destruct (decide _) as [Hb|Hb] in Hm; rewrite Hm.
  - rewrite refused4. tauto.
  - rewrite refused6 by done. tauto.
Qed.

(** The metadata service of a cloud, a private address in an IPv6 coat, and two that anyone may ask *)
Example some_are_inside : (λ a, refused (unwrapped a)) <$>
  [IPv4 (dotted 100 100 100 200); IPv4 (dotted 169 254 169 254); IPv6 (mapped + dotted 10 0 0 1); IPv6 1; IPv6 (groups [0xfd00; 0; 0; 0; 0; 0; 0; 1])] =
  [true; true; true; true; true].
Proof. vm_compute. reflexivity. Qed.
Example some_are_outward : (λ a, refused (unwrapped a)) <$>
  [IPv4 (dotted 93 184 216 34); IPv6 (mapped + dotted 8 8 8 8); IPv6 (groups [0x2606; 0x4700; 0; 0; 0; 0; 0; 0x1111])] = [false; false; false].
Proof. vm_compute. reflexivity. Qed.
(** Not every address that is let through is routed: the old site-local ones are none of the flags. *)
Example site_local_is_let_through : refused (unwrapped (IPv6 (groups [0xfec0; 0; 0; 0; 0; 0; 0; 1]))) = false.
Proof. vm_compute. reflexivity. Qed.
End Reach.

(** ** Web pages *)

Section pages.
Context {address : Type} (isinstance : exc → list string → bool) (urlparse : string → result exc (string * option string))
  (ip_address : address → result exc Ip.ip) (ip_text : Ip.ip → string) (cfg : store_settings) (uuid5 : string → string)
  (html_events : string → list html_event).
Implicit Types tr : list (step (@cmd address)).

Definition fetches (s : step (@cmd address)) : bool := match st_cmd s with Http_get _ => true | _ => false end.
(** It reads as an address, and one of the open internet. *)
Definition allowed_address (a : address) : Prop := ∃ ip, ip_address a = Ok ip ∧ Reach.outward ip.

Abbreviation still := (only (λ s : step (@cmd address), fetches s = false)).

Lemma redis_still {A} (p : prog Jobs.cmd A) : still (redis p).
Proof.
  intros tr out (tr' & _ & ->)%path_lift. apply Forall_forall. intros s (s' & <- & _)%list_elem_of_In%in_map_iff. by destruct s'.
Qed.
Lemma vectors_still {A} (p : prog Retrieval.cmd A) : still (vectors p).
Proof.
  intros tr out (tr' & _ & ->)%path_lift. apply Forall_forall. intros s (s' & <- & _)%list_elem_of_In%in_map_iff. by destruct s'.
Qed.
#[local] Hint Resolve redis_still vectors_still : steps.

Lemma count_still a b : still (count a b).
Proof. unfold count. auto with steps. Qed.
#[local] Hint Resolve count_still : steps.

Lemma ingest_text_still text title ctx source topic : still (ingest_text cfg uuid5 text title ctx source topic None).
Proof.
  unfold ingest_text. assert (Hr : still (refuse (A := nat) "no_ctx" "a valid tenant+principal ctx is required to ingest content")) by (unfold refuse; auto with steps).
  destruct ctx as [c|]; [destruct (valid_ctx (Some c))|]; [|done..]. apply only_bind.
  - unfold chunk_text. apply only_if; [auto with steps|]. apply only_bind; [auto with steps|]. intros ps. induction ps as [|p ps IH]; cbn [collect]; auto 12 with steps.
  - intros chunks. apply only_if; [auto with steps|]. apply only_bind; [unfold _sparse_vectors_or_none; auto with steps|]. intros v.
    apply only_bind; [|auto 12 with steps]. generalize (batches EMBED_BATCH_SIZE (snd <$> flattened chunks)) (length (snd <$> flattened chunks)) (@nil (list float)).
    intros bs. induction bs as [|b bs IH]; intros total d; cbn [embed_all]; [auto with steps|]. apply only_bind; [auto with steps|]. auto with steps.
Qed.

Lemma addresses_spec addrs : _check_resolved_addresses ip_address ip_text addrs = Ok () ↔ Forall allowed_address addrs.
Proof.
  induction addrs as [|a addrs IH]; [by split|]. cbn [_check_resolved_addresses]. rewrite Forall_cons, <-IH. unfold allowed_address.
  destruct (ip_address a) as [ip|] eqn:E; cbn [rbind]; [|split; [done|by intros [(? & ? & ?) _]]]. cbn zeta. fold (Reach.refused (unwrapped ip)).
  pose proof (Reach.refused_spec ip) as Hs. destruct (Reach.refused (unwrapped ip)).
  - split; [done|]. intros [(ip' & [= <-] & H) _]. by apply Hs in H.
  - split; [|by intros [_ ?]]. intros H. split; [|done]. exists ip. split; [done|by apply Hs].
Qed.

(** The URL is [https], and its host was resolved to addresses that may be asked. *)
Definition resolved_outward (url : string) tr : Prop :=
  ∃ host addrs, urlparse url = Ok ("https", Some host) ∧ host ≠ "" ∧ Forall allowed_address addrs ∧ tr = [Step (Getaddrinfo host) (Ok addrs)].

(** What a resolution answered *)
Definition resolution (s : step (@cmd address)) : option (list address) :=
  match s with Step c r =>
    match c in cmd R return result exc R → option (list address) with Getaddrinfo _ => λ r, match r with Ok addrs => Some addrs | Err _ => None end | _ => λ _, None end r
  end.

Lemma assert_safe_spec url tr out : path (assert_safe_url_async isinstance urlparse ip_address ip_text url) tr out →
  (out = Ok () → resolved_outward url tr) ∧
  (∀ host, urlparse url = Ok ("https", Some host) → host ≠ "" →
    ∃ s, tr = [s] ∧ ∀ addrs, resolution s = Some addrs → Forall allowed_address addrs → out = Ok ()).
Proof.
  unfold assert_safe_url_async, _hostname_or_refuse, resolved_outward. intros H.
  destruct (urlparse url) as [[scheme host]|e]; cbn [rbind of_result bind] in H; [|by destruct H as [-> ->]].
  destruct (String.eqb_spec scheme "https") as [->|Hs]; cbn [negb] in H; [|destruct H as [-> ->]; split; [done|intros h [= ? ?]; by destruct Hs]].
  destruct (nonempty (default "" host)) eqn:Eh; [|destruct H as [-> ->]; split; [done|intros h [= ->] Hh; by destruct h]].
  destruct host as [host|]; [|done]. cbn [of_result bind default] in *.
  apply path_bind in H as [(addrs & t1 & t2 & H1 & H2 & ->)|(e & H1 & ->)].
  - apply path_catch in H1 as [(a & H1 & [= ->])|(e & ? & ? & _ & H & _)]; [|destruct (isinstance e _); by destruct H]. apply path_call in H1 as ->.
    pose proof (addresses_spec a) as Ha. destruct (_check_resolved_addresses ip_address ip_text a) as [[]|e]; destruct H2 as [-> ->].
    + split; [intros _; exists host, a; split_and!; [done|by destruct host|by apply Ha|done]|]. intros h _ _. eauto.
    + split; [done|]. intros h _ _. eexists. split; [done|]. by intros addrs [= <-] Hall%Ha.
  - split; [done|]. intros h _ _. apply path_catch in H1 as [(a & H1 & [=])|(e' & t1 & t2 & ->%path_call & H & ->)].
    exists (Step (Getaddrinfo host) (Err e')). split; [|done]. destruct (isinstance e' _); by destruct H as [-> _].
Qed.

Lemma assert_safe_still url : still (assert_safe_url_async isinstance urlparse ip_address ip_text url).
Proof.
  unfold assert_safe_url_async. apply only_bind; [auto with steps|]. intros h. apply only_bind; [|auto with steps].
  apply only_catch; [auto with steps|]. intros e'. auto with steps.
Qed.

Lemma refuse_still A a b : still (refuse (A := A) a b).
Proof. unfold refuse. auto with steps. Qed.
Lemma refuse_fails A a b tr out : path (refuse (A := A) a b) tr out → ∃ e, out = Err e.
Proof. intros [([] & ? & ? & _ & [_ ->] & _)|(e & _ & ->)]%path_bind; eauto. Qed.

Lemma guard_spec url tr out : path (_assert_safe_url isinstance urlparse ip_address ip_text url) tr out →
  still (_assert_safe_url isinstance urlparse ip_address ip_text url) ∧ (out = Ok () → resolved_outward url tr) ∧
  (∀ host s rest addrs, urlparse url = Ok ("https", Some host) → host ≠ "" → tr = s :: rest → resolution s = Some addrs → Forall allowed_address addrs → out = Ok ()).
Proof.
  intros H. split; [|split].
  - apply only_catch; [apply assert_safe_still|]. intros e. apply only_if; [apply refuse_still|auto with steps].
  - intros ->. apply path_catch in H as [([] & H & _)|(e & t1 & t2 & _ & H & _)]; [by eapply assert_safe_spec|].
    destruct (isinstance e _); [by apply refuse_fails in H as [? [=]]|by destruct H].
  - intros host s rest addrs Hu Hh Ht Hs Ha. apply path_catch in H as [([] & _ & ->)|(e & t1 & t2 & [_ H]%assert_safe_spec & _ & E)]; [done|].
    destruct (H host Hu Hh) as (s' & -> & Hs'). rewrite Ht in E. injection E as <- _. by specialize (Hs' addrs Hs Ha).
Qed.

Lemma http_get_spec url tr out :
  path (catch (call (Http_get url)) (λ e, if isinstance e ["HTTPError"] then refuse "fetch_failed" ("fetch failed: " +:+ exc_text e) else Throw e)) tr out →
  ∃ r rest, tr = Step (Http_get url) r :: rest ∧ Forall (λ s, fetches s = false) rest ∧ (∀ page, out = Ok page → r = Ok page ∧ rest = []) ∧ (∀ page, r = Ok page → out = Ok page).
Proof.
  intros [(page & H & ->)|(e & t1 & t2 & H & H2 & ->)]%path_catch; apply path_call in H as ->.
  - exists (Ok page), []. split_and!; [done|constructor|by intros ? [= ->]|by intros ? [= ->]].
  - exists (Err e), t2. split_and!; [done| | |done].
    + destruct (isinstance e _); [by apply refuse_still in H2|by destruct H2 as [-> _]].
    + intros page ->. destruct (isinstance e _); [by apply refuse_fails in H2 as [? [=]]|by destruct H2].
Qed.

(** C35: no page is fetched from inside.  A URL is requested at most once, and exactly when it is an
    [https] URL with a host whose every resolved address reads as one of the open internet — by its number
    none of the private, carrier, loopback, link-local, documentation, multicast and reserved ranges of its
    version, an IPv4 address written as an IPv6 one judged as the IPv4 address — and the request comes right
    after that resolution; otherwise it is never made.  A page that is an error, or longer than the limit,
    is refused. *)
Theorem no_page_from_inside url ctx topic tr out :
  path (ingest_url isinstance urlparse ip_address ip_text cfg uuid5 html_events url ctx topic) tr out →
  (∃ host addrs r rest, urlparse url = Ok ("https", Some host) ∧ host ≠ "" ∧ Forall allowed_address addrs ∧
    tr = Step (Getaddrinfo host) (Ok addrs) :: Step (Http_get url) r :: rest ∧ Forall (λ s, fetches s = false) rest ∧
    (∀ page, r = Ok page → (400 <= status_code page)%Z ∨ (_MAX_URL_BYTES < content_length page)%Z → ∃ e, out = Err e)) ∨
  Forall (λ s, fetches s = false) tr ∧
  ∀ host addrs rest, urlparse url = Ok ("https", Some host) → host ≠ "" → tr = Step (Getaddrinfo host) (Ok addrs) :: rest → ¬ Forall allowed_address addrs.
Proof.
  intros [([] & t1 & t2 & H1 & H2 & ->)|(e & H1 & ->)]%path_bind; destruct (guard_spec _ _ _ H1) as (Hs & Hr & Hr').
  - destruct (Hr eq_refl) as (host & addrs & Hu & Hh & Ha & ->). left. exists host, addrs.
    apply path_bind in H2 as [(page & t7 & t8 & (r & rest & -> & _ & Hok & _)%http_get_spec & H6 & ->)|(e & (r & rest & -> & Hrest & _ & Hok)%http_get_spec & ->)].
    + destruct (Hok page eq_refl) as [-> ->]. exists (Ok page), t8. split_and!; try done.
      * destruct (400 <=? _)%Z; [by apply refuse_still in H6|]. destruct (_ <? _)%Z; [by apply refuse_still in H6|]. by eapply ingest_text_still.
      * intros page' [= <-] Hbad. destruct (Z.leb_spec 400 (status_code page)); [by eapply refuse_fails|].
        destruct (Z.ltb_spec _MAX_URL_BYTES (content_length page)); [by eapply refuse_fails|]. lia.
    + exists r, rest. split_and!; try done. intros page -> _. by specialize (Hok page eq_refl).
  - right. split; [by eapply Hs|]. intros host addrs rest Hu Hh Ht Ha. by discriminate (Hr' host _ rest addrs Hu Hh Ht eq_refl Ha).
Qed.
End pages.

(** ** Jobs *)

Section jobs.
Context {address : Type} (isinstance : exc → list string → bool) (cfg : store_settings) (uuid5 : string → string).
Implicit Types tr : list (step (@cmd address)).

Definition acks (s : step (@cmd address)) : bool := match st_cmd s with Redis (XAck _ _ _) => true | _ => false end.

(** A last event of the job was published. *)
Definition answers (job_id : string) (s : step (@cmd address)) : Prop :=
  ∃ ev id, ends_job ev = true ∧ s = Step (Redis (XAdd (ingest_results_key job_id) [("payload", dumps (JObj ev))] None)) (Ok id).

Abbreviation unacked := (only (λ s : step (@cmd address), acks s = false)).

Lemma vectors_unacked {A} (p : prog Retrieval.cmd A) : unacked (vectors p).
Proof.
  intros tr out (tr' & _ & ->)%path_lift. apply Forall_forall. intros s (s' & <- & _)%list_elem_of_In%in_map_iff. by destruct s'.
Qed.
Lemma redis_call_unacked {R} (c : Jobs.cmd R) : match c with XAck _ _ _ => false | _ => true end = true → unacked (redis (call c)).
Proof. intros Hc tr out (tr' & ->%path_call & ->)%path_lift. constructor; [|constructor]. by destruct c. Qed.
#[local] Hint Resolve vectors_unacked redis_call_unacked : steps.

Lemma count_unacked a b : unacked (count a b).
Proof. apply redis_call_unacked. done. Qed.
Lemma publish_unacked job_id ev : unacked (publish_ingest_result job_id ev).
Proof. unfold publish_ingest_result. auto with steps. Qed.
#[local] Hint Resolve count_unacked publish_unacked : steps.

Lemma ingest_text_unacked text title ctx source topic job : unacked (ingest_text cfg uuid5 text title ctx source topic (report <$> job)).
Proof.
  unfold ingest_text. assert (Hr : ∀ A a b, unacked (refuse (A := A) a b)) by (intros; unfold refuse; auto with steps).
  destruct ctx as [c|]; [destruct (valid_ctx (Some c))|]; [|done..]. apply only_bind.
  - unfold chunk_text. apply only_if; [auto with steps|]. apply only_bind; [auto with steps|]. intros ps. induction ps as [|p ps IH]; cbn [collect]; auto 12 with steps.
  - intros chunks. apply only_if; [auto with steps|]. apply only_bind; [unfold _sparse_vectors_or_none; auto with steps|]. intros v.
    apply only_bind; [|auto 12 with steps]. generalize (batches EMBED_BATCH_SIZE (snd <$> flattened chunks)) (length (snd <$> flattened chunks)) (@nil (list float)).
    intros bs. induction bs as [|b bs IH]; intros total d; cbn [embed_all]; [auto with steps|]. apply only_bind; [auto with steps|]. intros new.
    apply only_bind; [|auto with steps]. destruct job; [|apply only_ret]. cbn [fmap option_fmap option_map]. unfold report. auto with steps.
Qed.

Lemma extractor_unacked suffix extractor data :
  dict_get suffix (EXTRACTORS_BY_SUFFIX (address := address) isinstance) = Some extractor → unacked (extractor data).
Proof.
  cbn. destruct (bool_decide _); [intros [= <-]|destruct (bool_decide _); [intros [= <-]|done]].
  - unfold extract_docx_text. auto with steps.
  - unfold extract_pdf_text. apply only_catch; [|auto with steps]. apply only_bind; [auto with steps|]. intros b. apply only_if; auto with steps.
Qed.

Lemma run_job_unacked payload job_id : unacked (run_job isinstance cfg uuid5 payload job_id).
Proof.
  unfold run_job. apply only_bind; [auto with steps|]. intros []. apply only_bind; [auto with steps|]. intros filename.
  destruct (dict_get _ _) as [f|] eqn:E; [|auto with steps]. do 1 (apply only_bind; [auto with steps|]; intros key).
  apply only_bind; [unfold download_bytes; auto with steps|]. intros data. apply only_bind; [by eapply extractor_unacked|]. intros text.
  apply only_bind; [auto with steps|]. intros ctx. apply only_bind; [auto with steps|]. intros topic.
  apply only_bind; [|auto with steps]. apply (ingest_text_unacked _ _ _ _ _ (Some job_id)).
Qed.

Lemma published job_id ev tr : ends_job ev = true → path (publish_ingest_result job_id ev : prog (@cmd address) _) tr (Ok ()) → Exists (answers job_id) tr.
Proof.
  intros He [(id & t1 & t2 & H1 & _ & ->)|(e & _ & [=])]%path_bind.
  apply path_lift in H1 as (tr' & H1 & ->). apply path_call in H1 as ->. left. by exists ev, id.
Qed.

(** A job is answered before it is acknowledged.  Either its entry cannot be read, and then the
    entry is left to be reclaimed; or the entry is acknowledged once, as the last thing that is done for
    it — whatever the extractor, the embedder or the store did — and a job that went through has
    published its last event, [done] or [error], before. *)
Theorem a_job_is_answered_before_it_is_acked entry_id fs tr out :
  path (process_job isinstance cfg uuid5 entry_id fs : prog (@cmd address) _) tr out →
  match rbind (rbind (payload_text fs) loads_exc) (λ payload, Jobs.subscript payload "job_id") with
  | Err e => tr = [] ∧ out = Err e
  | Ok job_id => ∃ before r, tr = before ++ [Step (Redis (XAck INGEST_REQUESTS_STREAM INGEST_CONSUMER_GROUP entry_id)) r] ∧
      Forall (λ s, acks s = false) before ∧ (out = Ok () → Exists (answers (py_str job_id)) before)
  end.
Proof.
  unfold process_job. destruct (payload_text fs) as [text|e0]; [|by intros [-> ->]]. cbn [of_result rbind bind]. destruct (loads_exc text) as [payload|e0]; [|by intros [-> ->]].
  cbn [of_result rbind bind]. destruct (Jobs.subscript payload "job_id") as [job_id|e0]; [|by intros [-> ->]]. cbn [of_result bind].
  intros (out1 & t1 & t2 & outq & H1 & H2 & -> & ->)%path_finally. apply path_lift in H2 as (tr' & ->%path_call & ->). exists t1, outq. split; [done|].
  split; [eapply (only_catch_exception (λ s : step (@cmd address), acks s = false)); [..|exact H1]; [apply run_job_unacked|intros e; apply publish_unacked]|].
  destruct outq as [[]|]; [|done]. intros ->. apply path_catch in H1 as [([] & H1 & _)|(e & t3 & t4 & _ & H & ->)].
  - unfold run_job in H1. apply path_bind in H1 as [([] & t3 & t4 & _ & H1 & ->)|(e & _ & [=])]. apply Exists_app. right.
    destruct (rbind (Jobs.subscript payload "filename") _) as [filename|]; [|by destruct H1]. cbn [of_result bind] in H1.
    destruct (dict_get _ _) as [f|]; [|by destruct H1].
    do 6 (apply path_bind in H1 as [(? & ? & ? & _ & H1 & ->)|(? & _ & [=])]; apply Exists_app; right). eapply published; [|exact H1]; done.
  - destruct (base_exception e); [by destruct H|]. apply Exists_app. right. eapply published; [|exact H]; done.
Qed.
End jobs.

(** ** Uploads *)

(** What the reads give until one gives nothing *)
Fixpoint received (reads : list (result exc string)) : string :=
  match reads with
  | Ok chunk :: reads => if bool_decide (chunk = "") then "" else chunk +:+ received reads
  | _ => ""
  end.

Lemma collect_results {address A B} (f : A → prog (@cmd address) B) xs tr ys : path (collect xs f) tr (Ok ys) →
  Forall2 (λ x y, ∃ tr', tr' ⊆ tr ∧ path (f x) tr' (Ok y)) xs ys.
Proof.
  revert tr ys. induction xs as [|x xs IH]; intros tr ys; cbn [collect]; [intros [-> [= ->]]; constructor|].
  intros [(y & t1 & t2 & H1 & H2 & ->)|(e & _ & [=])]%path_bind.
  apply path_bind in H2 as [(ys' & t3 & t4 & H2 & [-> [= ->]] & ->)|(e & _ & [=])]. constructor.
  - exists t1. split; [set_solver|done].
  - eapply Forall2_impl; [by apply IH|]. intros a b (tr' & Hs & Hp). exists tr'. split; [set_solver|done].
Qed.

Section uploads.
Context {address : Type} (isinstance : exc → list string → bool).
Implicit Types tr : list (step (@cmd address)).

Lemma read_bounded_spec max_mb filename total reads tr out : path (_read_bounded max_mb filename total reads : prog (@cmd address) _) tr out →
  ∀ data, out = Ok (inr data) → data = received reads ∧ (data = "" ∨ total + Z.of_nat (String.length data) <= max_mb * 1024 * 1024)%Z.
Proof.
  revert total tr out. induction reads as [|[chunk|e] reads IH]; intros total tr out; cbn [_read_bounded received].
  - intros [-> ->] data [= <-]. by split; [|left].
  - case_bool_decide as Hc; [intros [-> ->] data [= <-]; by split; [|left]|]. destruct (Z.ltb_spec (max_mb * 1024 * 1024) (total + Z.of_nat (String.length chunk))) as [Hl|Hl].
    + intros [([] & t1 & t2 & _ & [_ ->] & ->)|(e & _ & ->)]%path_bind data [=].
    + intros [(rest & t1 & t2 & H1 & [_ ->] & ->)|(e & _ & ->)]%path_bind data; [|done]. destruct rest as [detail|rest]; [done|]. intros [= <-].
      destruct (IH _ _ _ H1 rest eq_refl) as [-> Hr]. split; [done|]. right. rewrite str_length_app. destruct Hr as [Hr|Hr]; [|lia].
      rewrite Hr. cbn [String.length]. lia.
  - by intros [-> ->] data [=].
Qed.

(** The file was put in the store, and its job in the queue. *)
Definition queued max_mb (topic : option string) (c : SecurityCtx) (upload : UploadFile) (filename job_id : string) tr : Prop :=
  let object_key := sc_tenant c +:+ "/" +:+ job_id +:+ "-" +:+ filename in
  ∃ content_type id, Text.lower (path_suffix filename) ∈ (EXTRACTORS_BY_SUFFIX (address := address) isinstance).*1 ∧
    (received (up_reads upload) = "" ∨ Z.of_nat (String.length (received (up_reads upload))) <= max_mb * 1024 * 1024)%Z ∧
    Step (Put_object object_key (received (up_reads upload)) content_type) (Ok ()) ∈ tr ∧
    Step (Redis (XAdd INGEST_REQUESTS_STREAM [("payload", dumps (ingest_payload job_id object_key filename content_type c topic))] None)) (Ok id) ∈ tr.

Lemma upload_one_spec max_mb topic c upload tr r : path (upload_one isinstance max_mb topic c upload : prog (@cmd address) _) tr (Ok r) →
  r_filename r = path_name (default "" (up_filename upload)) ∧
  match r_job_id r with
  | Some job_id => r_error r = None ∧ queued max_mb topic c upload (r_filename r) job_id tr
  | None => r_error r ≠ None
  end.
Proof.
  unfold upload_one. set (filename := path_name _). case_bool_decide as Hs.
  { intros [([] & t1 & t2 & _ & [_ [= ->]] & _)|(e & _ & [=])]%path_bind. done. }
  intros [(data & t1 & t2 & H1 & H2 & ->)|(e & _ & [=])]%path_bind.
  destruct data as [detail|data]; [destruct H2 as [_ [= ->]]; done|].
  destruct (read_bounded_spec _ _ _ _ _ _ H1 data eq_refl) as [-> Hl]. cbn zeta in H2.
  set (content_type := if nonempty (default "" (up_content_type upload)) then _ else _) in H2. clearbody content_type.
  apply path_bind in H2 as [(job_id & t3 & t4 & _ & H2 & ->)|(e & _ & [=])].
  apply path_catch in H2 as [(a & H2 & [= ->])|(e & t5 & t6 & _ & H2 & ->)].
  - apply path_bind in H2 as [([] & t5 & t6 & H3 & H2 & ->)|(e & _ & [=])].
    apply path_bind in H2 as [([] & t7 & t8 & H4 & [_ [= ->]] & ->)|(e & _ & [=])].
    apply path_bind in H3 as [([] & t9 & t10 & _ & H3 & ->)|(e & _ & [=])]. apply path_call in H3 as ->.
    apply path_bind in H4 as [(id & t11 & t12 & H4 & [_ _] & ->)|(e & _ & [=])]. apply path_lift in H4 as (tr' & ->%path_call & ->).
    cbn [r_filename r_job_id r_error]. split_and!; [done..|]. exists content_type, id. split_and!; [by destruct (decide (Text.lower (path_suffix filename) ∈ (EXTRACTORS_BY_SUFFIX (address := address) isinstance).*1))|by rewrite Z.add_0_l in Hl| |].
    + rewrite !elem_of_app, !list_elem_of_singleton. tauto.
    + cbn [map lift_step]. rewrite !elem_of_app, !list_elem_of_singleton. tauto.
  - destruct (base_exception e); [by destruct H2|].
    apply path_bind in H2 as [([] & t7 & t8 & _ & H2 & ->)|(? & _ & [=])].
    apply path_bind in H2 as [([] & t9 & t10 & _ & [_ [= ->]] & ->)|(? & _ & [=])]. done.
Qed.

(** The last part of a path has no slash, so that a file lands under its tenant's prefix. *)
Lemma path_name_flat p : free_of "/" (path_name p).
Proof.
  assert (Hs : ∀ s, Forall (free_of "/") (split_on "/" s)).
  { induction s as [|a s IH]; cbn [split_on]; [by repeat constructor; apply not_elem_of_nil|].
    destruct (Ascii.eqb_spec a "/") as [->|Ha]; [constructor; [apply not_elem_of_nil|done]|].
    destruct IH as [|part parts Hp IH]; constructor; rewrite ?free_cons; try done. split; [done|apply not_elem_of_nil]. }
  unfold path_name. destruct (last _) as [c|] eqn:E; [|apply not_elem_of_nil].
  apply last_Some_elem_of, list_elem_of_filter in E as [_ E]. specialize (Hs p). rewrite Forall_forall in Hs. by apply Hs.
Qed.

(** Every file of an upload is answered, and for what it is.  The answers come one for each file, in
    order, and no more than the limit are taken.  A file that is given a job has been stored whole — every byte
    that was read, no more than the limit, of a kind that can be read — under the caller's tenant, by a name
    that cannot leave it, and its job queued to name that very object and caller; any other file is given an error. *)
Theorem uploads_are_answered_one_by_one max_files max_mb files topic c tr results :
  path (ingest_upload isinstance max_files max_mb files topic c : prog (@cmd address) _) tr (Ok (inr results)) →
  (length files <= max_files)%nat ∧
  Forall2 (λ upload r, r_filename r = path_name (default "" (up_filename upload)) ∧ free_of "/" (r_filename r) ∧
    match r_job_id r with
    | Some job_id => r_error r = None ∧ queued max_mb topic c upload (r_filename r) job_id tr
    | None => r_error r ≠ None
    end) files results.
Proof.
  unfold ingest_upload. destruct (Nat.ltb_spec max_files (length files)) as [Hl|Hl].
  { by intros [([] & t1 & t2 & _ & [_ [=]] & _)|(e & _ & [=])]%path_bind. }
  intros [(rs & t1 & t2 & H1 & [-> [= ->]] & ->)|(e & _ & [=])]%path_bind. split; [done|]. rewrite app_nil_r.
  eapply Forall2_impl; [exact (collect_results _ _ _ _ H1)|]. intros upload r (tr' & Hs & [Hn Hr]%upload_one_spec). split; [done|]. split; [rewrite Hn; apply path_name_flat|].
  destruct (r_job_id r); [|done]. destruct Hr as [-> (ct & id & H2 & H3 & H4 & H5)]. split; [done|]. exists ct, id. split_and!; [done|done|by apply Hs..].
Qed.
End uploads.

(** ** A process with documents *)

Module Desk.
Definition isinstance (e : exc) (classes : list string) : bool := bool_decide (exc_class e ∈ classes).
Definition urlparse (url : string) : result exc (string * option string) :=
  if startswith url "https://" then Ok ("https", Some (drop_str 8 url)) else Ok ("http", None).
Definition ip_address (a : string) : result exc Ip.ip :=
  if String.eqb a "93.184.216.34" then Ok (Ip.IPv4 (Ip.dotted 93 184 216 34)) else
  if String.eqb a "::ffff:10.0.0.1" then Ok (Ip.IPv6 (Reach.mapped + Ip.dotted 10 0 0 1)) else Err (Exc "ValueError" a).
Definition uuid5 (name : string) : string := "id:" +:+ name.
Definition html_events (s : string) : list html_event := [Data s].

Definition ask_redis R (c : Jobs.cmd R) : result exc R :=
  match c in Jobs.cmd R return result exc R with
  | Get _ => Ok None
  | SetKey _ _ _ _ => Ok true
  | Jobs.XAdd _ _ _ => Ok "1-0"
  | XRead _ _ _ _ => Ok []
  | XReadGroup _ _ _ _ _ => Ok []
  | XAutoClaim _ _ _ _ _ _ => Ok ("0-0", [])
  | Jobs.Uuid4 => Ok "f"
  | Jobs.Monotonic => Ok 0%Z
  | Stopping _ => Ok true
  | GetState _ => Ok None
  | CancelRun _ _ => Ok false
  | Delete _ => Ok ()
  | EvalRelease _ _ => Ok ()
  | XGroupCreate _ _ => Ok ()
  | Jobs.Expire _ _ => Ok ()
  | XAck _ _ _ => Ok ()
  | Jobs.Count _ _ => Ok ()
  | Touch _ => Ok ()
  | Emit _ => Ok ()
  end.

Definition reply (w : Shelf.world) R (c : @cmd string R) : result exc R * Shelf.world :=
  match c in cmd R return result exc R * Shelf.world with
  | Redis c => (ask_redis _ c, w)
  | Vectors c => Shelf.reply w _ c
  | Bucket_ready => (Ok false, w)
  | Set_bucket_ready => (Ok (), w)
  | Bucket_exists => (Ok false, w)
  | Make_bucket => (Ok (), w)
  | Put_object _ _ _ => (Ok (), w)
  | Get_object _ => (Ok "nine to five", w)
  | Remove_object _ => (Ok (), w)
  | Pdf_open _ => (Ok false, w)
  | Pdf_pages _ => (Ok [Some "nine to five"; None], w)
  | Docx_open _ => (Ok (), w)
  | Docx_paragraphs _ => (Ok ["nine"; " "; "to five"], w)
  | Getaddrinfo _ => (Ok ["93.184.216.34"], w)
  | Http_get _ => (Ok (mkResponse 200 12 "text/plain" "nine to five"), w)
  | Read_file _ => (Ok "nine to five", w)
  end.

Definition result_of {A} (p : prog (@cmd string) A) : result exc A := fst (fst (Process.run reply p Shelf.start)).
Definition trace_of {A} (p : prog (@cmd string) A) : list (step (@cmd string)) := snd (fst (Process.run reply p Shelf.start)).
Lemma ran {A} (p : prog (@cmd string) A) : path p (trace_of p) (result_of p).
Proof. exact (run_path reply p Shelf.start). Qed.

Definition ann : SecurityCtx := SecCtx "acme" "ann".
Definition two_paragraphs : string := "open nine to five" +:+ blank_line +:+ "closed on sundays".
Definition page : prog (@cmd string) nat := ingest_url isinstance urlparse ip_address (λ _, "") Shelf.cfg uuid5 html_events "https://acme.test" (Some ann) None.
Definition store : prog (@cmd string) nat := ingest_text Shelf.cfg uuid5 two_paragraphs "hours" (Some ann) "upload:hours.txt" None (report <$> Some "j1").
Definition job : fields := [("payload", dumps (ingest_payload "j1" "acme/j1-hours.pdf" "hours.pdf" "application/pdf" ann None))].
Definition work : prog (@cmd string) () := process_job isinstance Shelf.cfg uuid5 "1-0" job.
Definition two_files : list UploadFile := [mkUpload (Some "../hours.PDF") None [Ok "nine "; Ok "to five"]; mkUpload (Some "run.sh") None []].
Definition upload : prog (@cmd string) (string + list IngestUploadResult) := ingest_upload isinstance 5 1 two_files None ann.

Example chunked : match result_of (chunk_text two_paragraphs 30 8 2) with Ok ps => (λ p, (text p, children p)) <$> ps | Err _ => [] end =
  [("open nine to five", ["open nin"; "ine to f"; " five"]); ("closed on sundays", ["closed o"; " on sund"; "ndays"])].
Proof. vm_compute. reflexivity. Qed.
Example stored : result_of store = Ok 1%nat ∧ p_id <$> upserted (trace_of store) = ["id:" +:+ point_name "acme" "upload:hours.txt" 0 two_paragraphs].
Proof. vm_compute. done. Qed.
Example worked : result_of work = Ok ().
Proof. vm_compute. reflexivity. Qed.

(** A tenant's name with a bar in it is where the points of two tenants meet. *)
Example bars_are_not_told_apart x i : point_name "acme" "upload:a|upload:b" i x = point_name "acme|upload:a" "upload:b" i x.
Proof. reflexivity. Qed.
End Desk.

Lemma chunks_keep_the_text_witness : ∃ chunks,
  Desk.result_of (chunk_text Desk.two_paragraphs 30 8 2) = Ok chunks ∧ inks (text <$> chunks) = "openninetofiveclosedonsundays" ∧
  Forall (λ p, fits 30 (text p) ∧ covers 2 8 (text p) 0 (children p)) chunks.
Proof.
  eexists. split; [vm_compute; reflexivity|].
  exact (chunks_keep_the_text Desk.two_paragraphs 30 8 2 _ _ ltac:(lia) (Desk.ran (chunk_text Desk.two_paragraphs 30 8 2))).
Defined.

Lemma repeated_upload_lands_on_the_same_points_witness :
  length (upserted (Desk.trace_of Desk.store)) = length (passages Desk.two_paragraphs) ∧
  ∀ i pt, upserted (Desk.trace_of Desk.store) !! i = Some pt → ∃ passage parent, passages Desk.two_paragraphs !! i = Some passage ∧
    p_id pt = _content_point_id Desk.uuid5 "acme" "upload:hours.txt" i passage ∧
    p_payload pt = payload_of Desk.ann "hours" "upload:hours.txt" None parent passage ∧
    (one_each (Desk.trace_of Desk.store) → embedded (Desk.trace_of Desk.store) !! i = Some (EMBED_DOCUMENT_PREFIX Shelf.cfg +:+ passage, p_dense pt)).
Proof.
  pose proof (repeated_upload_lands_on_the_same_points Shelf.cfg Desk.uuid5 Desk.two_paragraphs "hours" (Some Desk.ann) "upload:hours.txt" None (Some "j1")
    _ _ (Desk.ran Desk.store)) as [Hp Hn].
  split; [exact (proj1 (Hn 1%nat (proj1 Desk.stored)))|exact Hp].
Defined.

Lemma points_of_tenants_are_apart_witness : point_name "acme" "s" 1 "x" = point_name "acme" "s" 1 "x" ∧ "s" = "s".
Proof.
  split; [reflexivity|].
  exact (proj1 (proj2 (points_of_tenants_are_apart "acme" "acme" "s" "s" 1 1 "x" "x" ltac:(apply (bool_decide_unpack _); vm_compute; exact I)
    ltac:(apply (bool_decide_unpack _); vm_compute; exact I) eq_refl))).
Defined.

Lemma no_page_from_inside_witness : ∃ host addrs, Desk.urlparse "https://acme.test" = Ok ("https", Some host) ∧
  Forall (allowed_address Desk.ip_address) addrs ∧ Step (Getaddrinfo host) (Ok addrs) ∈ Desk.trace_of Desk.page.
Proof.
  destruct (no_page_from_inside Desk.isinstance Desk.urlparse Desk.ip_address (λ _, "") Shelf.cfg Desk.uuid5 Desk.html_events "https://acme.test" (Some Desk.ann) None
    _ _ (Desk.ran Desk.page)) as [(host & addrs & r & rest & Hu & _ & Ha & Ht & _)|[H _]].
  - exists host, addrs. split; [exact Hu|]. split; [exact Ha|]. rewrite Ht. left.
  - exfalso. assert (E : existsb fetches (Desk.trace_of Desk.page) = true) by (vm_compute; reflexivity).
    apply existsb_exists in E as (s & Hs & E). rewrite Forall_forall in H. rewrite (H s) in E; [discriminate|by apply list_elem_of_In].
Defined.

Lemma a_job_is_answered_before_it_is_acked_witness : ∃ before r,
  Desk.trace_of Desk.work = before ++ [Step (Redis (XAck INGEST_REQUESTS_STREAM INGEST_CONSUMER_GROUP "1-0")) r] ∧ Exists (answers "j1") before.
Proof.
  pose proof (a_job_is_answered_before_it_is_acked Desk.isinstance Shelf.cfg Desk.uuid5 "1-0" Desk.job _ _ (Desk.ran Desk.work)) as H.
  assert (E : rbind (rbind (payload_text Desk.job) loads_exc) (λ payload, Jobs.subscript payload "job_id") = Ok (JStr "j1")) by (vm_compute; reflexivity).
  rewrite E in H. destruct H as (before & r & Ht & _ & Ha). exists before, r. split; [exact Ht|]. apply Ha. exact Desk.worked.
Defined.

Lemma uploads_are_answered_one_by_one_witness : ∃ results, Desk.result_of Desk.upload = Ok (inr results) ∧
  Forall2 (λ _ r, free_of "/" (r_filename r)) Desk.two_files results ∧ r_filename <$> results = ["hours.PDF"; "run.sh"] ∧ r_job_id <$> results = [Some "f"; None].
Proof.
  eexists. split; [vm_compute; reflexivity|]. split; [|split; reflexivity].
  refine (Forall2_impl _ _ _ _ (proj2 (uploads_are_answered_one_by_one Desk.isinstance 5 1 Desk.two_files None Desk.ann (Desk.trace_of Desk.upload) _ _)) _).
  - pose proof (Desk.ran Desk.upload) as H. assert (E : Desk.result_of Desk.upload = Desk.result_of Desk.upload) by reflexivity. revert E. vm_compute (Desk.result_of _) at 2. intros E. rewrite E in H. exact H.
  - intros x y H. exact (proj1 (proj2 H)).
Defined.
