(* ===== verification/Stores.v ===== *)
(** The systems of record of the domains: [app/domains/sales/store.py], [support/store.py], [ops/store.py]
    and [app/core/sql_store.py], over the tables of [postgres-init/].

    A block [async with get_connection()] is one transaction: a function of the tables and of the
    transaction's [now()], which commits when it returns and is rolled back when it raises — but for the
    sequences, from which a number once drawn is gone.  A program asks for its transactions one after the
    other, so that anything may happen to the tables in between.  Times are microseconds.  Of rows that an
    [ORDER BY] leaves tied the one inserted first comes first; the order of names is an argument. *)
From Stdlib Require Import Ascii.
From S2P Require Import Prelude Json Calendar Process Text.

Local Open Scope string_scope.
Local Open Scope list_scope.

(** ** The tables *)

Record lead : Type := mkLead {
  ld_id : Z; ld_tenant : string; ld_name : string; ld_contact : string; ld_status : string; ld_created_at : Z; ld_updated_at : Z;
}.
Record followup : Type := mkFollowup {
  fu_id : Z; fu_tenant : string; fu_lead_id : Z; fu_due_at : Z; fu_note : string; fu_status : string; fu_created_by : string;
  fu_call : option string; fu_created_at : Z;
}.
(** A row of [crm_lead_notes] or of [support_ticket_comments]: what was said of a lead or of a ticket. *)
Record remark : Type := mkRemark {
  rm_id : Z; rm_tenant : string; rm_of : Z; rm_text : string; rm_call : option string; rm_created_at : Z;
}.
Record ticket : Type := mkTicket {
  tk_id : Z; tk_tenant : string; tk_requester : string; tk_subject : string; tk_description : string; tk_priority : string;
  tk_status : string; tk_escalation_reason : option string; tk_call : option string; tk_created_at : Z; tk_updated_at : Z;
}.
Record incident : Type := mkIncident {
  in_id : Z; in_opened_by : string; in_summary : string; in_detail : option string; in_status : string; in_resolution : option string;
  in_call : option string; in_created_at : Z; in_resolved_at : option Z;
}.
Record employee : Type := mkEmployee {
  em_tenant : string; em_name : string; em_department : string; em_title : string; em_hired_on : Z;     (* a day *)
}.

(** The sequences the tables draw their ids from *)
Record sequences : Type := mkSequences {
  sq_leads : Z; sq_followups : Z; sq_notes : Z; sq_tickets : Z; sq_comments : Z; sq_incidents : Z;
}.

Record tables : Type := mkTables {
  leads : list lead;
  followups : list followup;
  notes : list remark;
  tickets : list ticket;
  comments : list remark;
  incidents : list incident;
  employees : list employee;
  seqs : sequences;
}.

(** ** Transactions *)

Definition tx (A : Type) : Type := Z → tables → result exc A * tables.

Definition tx_ret {A} (a : A) : tx A := λ _ T, (Ok a, T).
Definition tx_raise {A} (e : exc) : tx A := λ _ T, (Err e, T).
Definition tx_bind {A B} (m : tx A) (f : A → tx B) : tx B :=
  λ now T, match m now T with (Ok a, T) => f a now T | (Err e, T) => (Err e, T) end.

Declare Scope tx_scope.
Delimit Scope tx_scope with tx.
Notation "x ← m ; k" := (tx_bind m (λ x, k)) (at level 20, m at level 100, k at level 200, right associativity) : tx_scope.
Notation "m ;; k" := (tx_bind m (λ _, k)) (at level 100, k at level 200, right associativity) : tx_scope.

Definition with_seqs (q : sequences) (T : tables) : tables :=
  mkTables (leads T) (followups T) (notes T) (tickets T) (comments T) (incidents T) (employees T) q.

(** The block: what raised leaves only its numbers drawn. *)
Definition atomically {A} (m : tx A) : tx A :=
  λ now T, match m now T with (Ok a, T') => (Ok a, T') | (Err e, T') => (Err e, with_seqs (seqs T') T) end.

Inductive cmd : Type → Type :=
| Transaction {R} (m : tx R) : cmd R.
Abbreviation P := (prog cmd).
Definition get_connection {R} (m : tx R) : P R := call (Transaction (atomically m)).

(** What the database answers, and the tables after: a block whose answer is an error may have failed
    before it did anything, or after it was committed. *)
Definition tx_answered {R} (now : Z) (T : tables) (c : cmd R) (r : result exc R) (T' : tables) : Prop :=
  match c in cmd R return result exc R → Prop with
  | Transaction m => λ r, m now T = (r, T') ∨ is_Some (match r with Err e => Some e | Ok _ => None end) ∧ (T' = T ∨ T' = (m now T).2)
  end r.

(** ** Statements *)

Section statements.
Local Open Scope tx_scope.

Definition set_leads (l : list lead) (T : tables) : tables :=
  mkTables l (followups T) (notes T) (tickets T) (comments T) (incidents T) (employees T) (seqs T).
Definition set_followups (l : list followup) (T : tables) : tables :=
  mkTables (leads T) l (notes T) (tickets T) (comments T) (incidents T) (employees T) (seqs T).
Definition set_notes (l : list remark) (T : tables) : tables :=
  mkTables (leads T) (followups T) l (tickets T) (comments T) (incidents T) (employees T) (seqs T).
Definition set_tickets (l : list ticket) (T : tables) : tables :=
  mkTables (leads T) (followups T) (notes T) l (comments T) (incidents T) (employees T) (seqs T).
Definition set_comments (l : list remark) (T : tables) : tables :=
  mkTables (leads T) (followups T) (notes T) (tickets T) l (incidents T) (employees T) (seqs T).
Definition set_incidents (l : list incident) (T : tables) : tables :=
  mkTables (leads T) (followups T) (notes T) (tickets T) (comments T) l (employees T) (seqs T).

(** The default of an [id]: an [INSERT] draws it whether or not it then conflicts. *)
Definition next_lead : tx Z := λ _ T, let q := seqs T in (Ok (sq_leads q), with_seqs (mkSequences (sq_leads q + 1) (sq_followups q) (sq_notes q) (sq_tickets q) (sq_comments q) (sq_incidents q)) T).
Definition next_followup : tx Z := λ _ T, let q := seqs T in (Ok (sq_followups q), with_seqs (mkSequences (sq_leads q) (sq_followups q + 1) (sq_notes q) (sq_tickets q) (sq_comments q) (sq_incidents q)) T).
Definition next_note : tx Z := λ _ T, let q := seqs T in (Ok (sq_notes q), with_seqs (mkSequences (sq_leads q) (sq_followups q) (sq_notes q + 1) (sq_tickets q) (sq_comments q) (sq_incidents q)) T).
Definition next_ticket : tx Z := λ _ T, let q := seqs T in (Ok (sq_tickets q), with_seqs (mkSequences (sq_leads q) (sq_followups q) (sq_notes q) (sq_tickets q + 1) (sq_comments q) (sq_incidents q)) T).
Definition next_comment : tx Z := λ _ T, let q := seqs T in (Ok (sq_comments q), with_seqs (mkSequences (sq_leads q) (sq_followups q) (sq_notes q) (sq_tickets q) (sq_comments q + 1) (sq_incidents q)) T).
Definition next_incident : tx Z := λ _ T, let q := seqs T in (Ok (sq_incidents q), with_seqs (mkSequences (sq_leads q) (sq_followups q) (sq_notes q) (sq_tickets q) (sq_comments q) (sq_incidents q + 1)) T).

Definition select {A} (f : tables → A) : tx A := λ _ T, (Ok (f T), T).
Definition execute (f : Z → tables → tables) : tx () := λ now T, (Ok (), f now T).

(** A unique column that may be null: two rows collide on a value, never on null. *)
Definition taken {A} (column : A → option string) (v : option string) (l : list A) : bool :=
  existsb (λ x, match v, column x with Some v, Some w => String.eqb v w | _, _ => false end) l.

Definition ForeignKeyViolation : exc := Exc "ForeignKeyViolation" "".

(** [ORDER BY] *)
Fixpoint insert_by {A} (le : A → A → bool) (x : A) (l : list A) : list A :=
  match l with [] => [x] | y :: l => if le x y then x :: y :: l else y :: insert_by le x l end.
Definition sort_by {A} (le : A → A → bool) (l : list A) : list A := foldr (insert_by le) [] l.

(** [STRING_AGG(text, E'\n' ORDER BY created_at)] of the rows joined to a parent: null when there are none *)
Definition line_feed : string := String "010"%char "".
Definition remarks_of (tenant : string) (id : Z) (l : list remark) : option string :=
  match sort_by (λ x y, (rm_created_at x <=? rm_created_at y)%Z) (filter (λ r, rm_of r = id ∧ rm_tenant r = tenant) l) with
  | [] => None
  | rs => Some (join line_feed (rm_text <$> rs))
  end.

Definition insert_note (tenant : string) (lead_id : Z) (note : string) (call : option string) : tx () :=
  id ← next_note;
  λ now T,
    if taken rm_call call (notes T) then (Ok (), T) else
    if bool_decide (lead_id ∈ ld_id <$> leads T) then (Ok (), set_notes (notes T ++ [mkRemark id tenant lead_id note call now]) T)
    else (Err ForeignKeyViolation, T).

Definition insert_comment (tenant : string) (ticket_id : Z) (comment : string) (call : option string) : tx () :=
  id ← next_comment;
  λ now T,
    if taken rm_call call (comments T) then (Ok (), T) else
    if bool_decide (ticket_id ∈ tk_id <$> tickets T) then (Ok (), set_comments (comments T ++ [mkRemark id tenant ticket_id comment call now]) T)
    else (Err ForeignKeyViolation, T).

(** [(x,) = await cur.fetchone()] of a query that found nothing *)
Definition cannot_unpack {A} : tx A := tx_raise (Exc "TypeError" "cannot unpack non-iterable NoneType object").

(** ** [sales/store.py] *)

Definition is_lead (tenant contact : string) (l : lead) : Prop := ld_tenant l = tenant ∧ ld_contact l = contact.
#[export] Instance is_lead_dec tenant contact l : Decision (is_lead tenant contact l) := _.
Definition set_status (status : string) (now : Z) (l : lead) : lead :=
  mkLead (ld_id l) (ld_tenant l) (ld_name l) (ld_contact l) status (ld_created_at l) now.
Definition touched (now : Z) (l : lead) : lead := set_status (ld_status l) now l.

(** [INSERT ... ON CONFLICT (tenant, contact) DO UPDATE SET updated_at = now() RETURNING id] *)
Definition upsert_lead (tenant name contact : string) : tx Z :=
  id ← next_lead;
  λ now T,
    match filter (is_lead tenant contact) (leads T) with
    | l :: _ => (Ok (ld_id l), set_leads (update_where (is_lead tenant contact) (touched now) (leads T)) T)
    | [] => (Ok id, set_leads (leads T ++ [mkLead id tenant name contact "new" now now]) T)
    end.

Definition find_or_create_lead (tenant name contact note : string) (tool_call_id : option string) : P Z :=
  get_connection (
    lead_id ← upsert_lead tenant name contact;
    insert_note tenant lead_id note tool_call_id ;;
    tx_ret lead_id).

Definition set_lead_status (tenant contact status : string) : P bool :=
  get_connection (
    found ← select (λ T, filter (is_lead tenant contact) (leads T));
    execute (λ now T, set_leads (update_where (is_lead tenant contact) (set_status status now) (leads T)) T) ;;
    tx_ret (0 <? length found)%nat).

Definition get_lead_tx (tenant contact : string) : tx (option (lead * option string)) :=
  select (λ T,
    match filter (is_lead tenant contact) (leads T) with
    | l :: _ => Some (l, remarks_of (ld_tenant l) (ld_id l) (notes T))
    | [] => None
    end).
Definition get_lead (tenant contact : string) : P (option (lead * option string)) := get_connection (get_lead_tx tenant contact).

Definition insert_followup (tenant : string) (lead_id due_at : Z) (note created_by : string) (tool_call_id : option string) : tx Z :=
  id ← next_followup;
  clash ← select (λ T, taken fu_call tool_call_id (followups T));
  if (clash : bool) then
    found ← select (λ T, head (filter (λ f, tool_call_id ≠ None ∧ fu_call f = tool_call_id) (followups T)));
    match found with Some f => tx_ret (fu_id f) | None => cannot_unpack end
  else
    parent ← select (λ T, bool_decide (lead_id ∈ ld_id <$> leads T));
    if (parent : bool) then
      execute (λ now T, set_followups (followups T ++ [mkFollowup id tenant lead_id due_at note "pending" created_by tool_call_id now]) T) ;;
      tx_ret id
    else tx_raise ForeignKeyViolation.

Definition add_followup (tenant contact : string) (due_at : Z) (note created_by : string) (tool_call_id : option string) : P (option Z) :=
  (lead ← get_lead tenant contact;
   match lead with
   | None => Ret None
   | Some (l, _) => id ← get_connection (insert_followup tenant (ld_id l) due_at note created_by tool_call_id); Ret (Some id)
   end)%prog.

(** A follow-up with the name and the contact of its lead: the join is on the lead's id alone. *)
Record due : Type := mkDue { du_id : Z; du_due_at : Z; du_note : string; du_contact : string; du_lead_name : string }.
Definition joined (T : tables) (f : followup) : list due :=
  (λ l, mkDue (fu_id f) (fu_due_at f) (fu_note f) (ld_contact l) (ld_name l)) <$> filter (λ l, ld_id l = fu_lead_id f) (leads T).
Definition by_due (x y : due) : bool := (du_due_at x <=? du_due_at y)%Z.

Definition list_pending_followups (tenant : string) (contact : option string) : P (list due) :=
  get_connection (select (λ T,
    sort_by by_due (filter (λ d, contact = None ∨ contact = Some (du_contact d))
      (filter (λ f, fu_tenant f = tenant ∧ fu_status f = "pending") (followups T) ≫= joined T)))).

Definition cancelled (f : followup) : followup :=
  mkFollowup (fu_id f) (fu_tenant f) (fu_lead_id f) (fu_due_at f) (fu_note f) "cancelled" (fu_created_by f) (fu_call f) (fu_created_at f).

Definition close_lead (tenant contact : string) (lead_id : Z) (reason : string) (tool_call_id : option string) : tx () :=
  execute (λ now T, set_leads (update_where (is_lead tenant contact) (set_status "lost" now) (leads T)) T) ;;
  insert_note tenant lead_id reason tool_call_id ;;
  execute (λ _ T, set_followups (update_where (λ f, fu_tenant f = tenant ∧ fu_lead_id f = lead_id ∧ fu_status f = "pending") cancelled (followups T)) T).

Definition mark_lead_lost (tenant contact reason : string) (tool_call_id : option string) : P bool :=
  (lead ← get_lead tenant contact;
   match lead with
   | None => Ret false
   | Some (l, _) => get_connection (close_lead tenant contact (ld_id l) reason tool_call_id) ;; Ret true
   end)%prog.

Definition due_followups (tenant : string) (as_of : Z) : P (list due) :=
  get_connection (select (λ T,
    sort_by by_due (filter (λ f, fu_tenant f = tenant ∧ fu_status f = "pending" ∧ (fu_due_at f <= as_of)%Z) (followups T) ≫= joined T))).

Definition done_followup (f : followup) : followup :=
  mkFollowup (fu_id f) (fu_tenant f) (fu_lead_id f) (fu_due_at f) (fu_note f) "done" (fu_created_by f) (fu_call f) (fu_created_at f).
Definition mark_followup_done (tenant : string) (followup_id : Z) : P () :=
  get_connection (execute (λ _ T, set_followups (update_where (λ f, fu_tenant f = tenant ∧ fu_id f = followup_id) done_followup (followups T)) T)).

Definition note_lead (tenant contact : string) (lead_id : Z) (note : string) (tool_call_id : option string) : tx () :=
  insert_note tenant lead_id note tool_call_id ;;
  execute (λ now T, set_leads (update_where (is_lead tenant contact) (touched now) (leads T)) T).

Definition append_lead_note (tenant contact note : string) (tool_call_id : option string) : P bool :=
  (lead ← get_lead tenant contact;
   match lead with
   | None => Ret false
   | Some (l, _) => get_connection (note_lead tenant contact (ld_id l) note tool_call_id) ;; Ret true
   end)%prog.

Definition followups_of (tenant : string) (lead_id : Z) (T : tables) : list followup :=
  sort_by (λ x y, (fu_due_at x <=? fu_due_at y)%Z) (filter (λ f, fu_tenant f = tenant ∧ fu_lead_id f = lead_id) (followups T)).
Definition lead_history (tenant contact : string) : P (option (lead * option string * list followup)) :=
  (lead ← get_lead tenant contact;
   match lead with
   | None => Ret None
   | Some (l, notes) => fs ← get_connection (select (followups_of tenant (ld_id l))); Ret (Some (l, notes, fs))
   end)%prog.

(** ** [support/store.py] *)

Definition is_ticket (tenant : string) (ticket_id : Z) (t : ticket) : Prop := tk_tenant t = tenant ∧ tk_id t = ticket_id.
#[export] Instance is_ticket_dec tenant ticket_id t : Decision (is_ticket tenant ticket_id t) := _.

(** The row is looked for by the call alone. *)
Definition create_ticket (tenant requester subject description priority : string) (tool_call_id : option string) : P Z :=
  get_connection (
    id ← next_ticket;
    clash ← select (λ T, taken tk_call tool_call_id (tickets T));
    if (clash : bool) then
      found ← select (λ T, head (filter (λ t, tool_call_id ≠ None ∧ tk_call t = tool_call_id) (tickets T)));
      match found with Some t => tx_ret (tk_id t) | None => cannot_unpack end
    else
      execute (λ now T, set_tickets (tickets T ++ [mkTicket id tenant requester subject description priority "open" None tool_call_id now now]) T) ;;
      tx_ret id).

Definition get_ticket (tenant : string) (ticket_id : Z) : P (option (ticket * option string)) :=
  get_connection (select (λ T : tables,
    match filter (is_ticket tenant ticket_id) (tickets T) with
    | t :: _ => Some (t, remarks_of (tk_tenant t) (tk_id t) (comments T))
    | [] => None
    end)).

Definition list_tickets_for_requester (tenant requester : string) (limit : nat) : P (list ticket) :=
  get_connection (select (λ T,
    take limit (sort_by (λ x y, (tk_created_at y <=? tk_created_at x)%Z) (filter (λ t, tk_tenant t = tenant ∧ tk_requester t = requester) (tickets T))))).

Definition escalated (reason : string) (now : Z) (t : ticket) : ticket :=
  mkTicket (tk_id t) (tk_tenant t) (tk_requester t) (tk_subject t) (tk_description t) (tk_priority t) "escalated" (Some reason) (tk_call t) (tk_created_at t) now.
Definition escalate_ticket (tenant : string) (ticket_id : Z) (reason : string) : P bool :=
  get_connection (
    found ← select (λ T, filter (is_ticket tenant ticket_id) (tickets T));
    execute (λ now T, set_tickets (update_where (is_ticket tenant ticket_id) (escalated reason now) (tickets T)) T) ;;
    tx_ret (0 <? length found)%nat).

Definition bumped (now : Z) (t : ticket) : ticket :=
  mkTicket (tk_id t) (tk_tenant t) (tk_requester t) (tk_subject t) (tk_description t) (tk_priority t) (tk_status t) (tk_escalation_reason t) (tk_call t) (tk_created_at t) now.
Definition add_comment (tenant : string) (ticket_id : Z) (comment : string) (tool_call_id : option string) : P bool :=
  get_connection (
    found ← select (λ T, filter (is_ticket tenant ticket_id) (tickets T));
    match found with
    | [] => tx_ret false
    | _ =>
        insert_comment tenant ticket_id comment tool_call_id ;;
        execute (λ now T, set_tickets (update_where (is_ticket tenant ticket_id) (bumped now) (tickets T)) T) ;;
        tx_ret true
    end).

(** ** [ops/store.py] *)

Definition log_incident (opened_by summary : string) (detail tool_call_id : option string) : P Z :=
  get_connection (
    id ← next_incident;
    clash ← select (λ T, taken in_call tool_call_id (incidents T));
    if (clash : bool) then
      found ← select (λ T, head (filter (λ i, tool_call_id ≠ None ∧ in_call i = tool_call_id) (incidents T)));
      match found with Some i => tx_ret (in_id i) | None => cannot_unpack end
    else
      execute (λ now T, set_incidents (incidents T ++ [mkIncident id opened_by summary detail "open" None tool_call_id now None]) T) ;;
      tx_ret id).

Definition list_recent_incidents (limit : nat) (status : option string) : P (list incident) :=
  get_connection (select (λ T,
    take limit (sort_by (λ x y, (in_created_at y <=? in_created_at x)%Z)
      (filter (λ i, status = None ∨ status = Some (in_status i)) (incidents T))))).

Definition resolved (resolution : string) (now : Z) (i : incident) : incident :=
  mkIncident (in_id i) (in_opened_by i) (in_summary i) (in_detail i) "resolved" (Some resolution) (in_call i) (in_created_at i) (Some now).
Definition resolve_incident (incident_id : Z) (resolution : string) : P bool :=
  get_connection (
    found ← select (λ T, filter (λ i, in_id i = incident_id) (incidents T));
    execute (λ now T, set_incidents (update_where (λ i, in_id i = incident_id) (resolved resolution now) (incidents T)) T) ;;
    tx_ret (0 <? length found)%nat).

(** ** [core/sql_store.py] *)

(** [s ILIKE p]: [%] is any text, [_] any character, and a backslash takes the next one literally. *)
Fixpoint ilike (p s : string) : bool :=
  match p with
  | EmptyString => match s with EmptyString => true | _ => false end
  | String a p =>
      if Ascii.eqb a "%" then
        (fix any (s : string) : bool := ilike p s || match s with String _ s => any s | EmptyString => false end) s
      else if Ascii.eqb a "_" then match s with String _ s => ilike p s | EmptyString => false end
      else if Ascii.eqb a "\" then
        match p, s with String b p, String c s => Ascii.eqb (lower_char b) (lower_char c) && ilike p s | _, _ => false end
      else match s with String c s => Ascii.eqb (lower_char a) (lower_char c) && ilike p s | EmptyString => false end
  end.

Definition query_employees (name_le : string → string → bool) (tenant : string) (department name_contains : option string) (limit : option nat) :
    P (list employee) :=
  get_connection (select (λ T,
    let rows := sort_by (λ x y, name_le (em_name x) (em_name y)) (filter (λ e,
      em_tenant e = tenant ∧
      (default "" department = "" ∨ Some (em_department e) = department) ∧
      (default "" name_contains = "" ∨ ilike ("%" +:+ default "" name_contains +:+ "%") (em_name e) = true)) (employees T)) in
    match limit with Some n => take n rows | None => rows end)).
End statements.

(** The rows of the domains' tables stay consistent, whatever transactions are run on them: laws of
    the statements and of the operations of [Stores]. *)
From Stdlib Require Import Ascii.

Local Open Scope string_scope.
Local Open Scope list_scope.

(** ** Consistent tables *)

(** Ids that were drawn once, and at most one row a call *)
Definition table_ok {A} (id : A → Z) (call : A → option string) (next : Z) (l : list A) : Prop :=
  NoDup (id <$> l) ∧ (∀ x, x ∈ l → id x < next)%Z ∧ NoDup (omap call l).

Definition lead_key (l : lead) : Z * string := (ld_id l, ld_tenant l).
Definition ticket_key (t : ticket) : Z * string := (tk_id t, tk_tenant t).
Definition remark_key (r : remark) : Z * string := (rm_of r, rm_tenant r).
Definition followup_key (f : followup) : Z * string := (fu_lead_id f, fu_tenant f).
Definition contact_key (l : lead) : string * string := (ld_tenant l, ld_contact l).

(** What is said of a lead or a ticket belongs to the tenant of that lead or ticket. *)
Record consistent (T : tables) : Prop := mkConsistent {
  ok_leads : table_ok ld_id (λ _, None) (sq_leads (seqs T)) (leads T);
  ok_contacts : NoDup (contact_key <$> leads T);
  ok_followups : table_ok fu_id fu_call (sq_followups (seqs T)) (followups T);
  ok_notes : table_ok rm_id rm_call (sq_notes (seqs T)) (notes T);
  ok_tickets : table_ok tk_id tk_call (sq_tickets (seqs T)) (tickets T);
  ok_comments : table_ok rm_id rm_call (sq_comments (seqs T)) (comments T);
  ok_incidents : table_ok in_id in_call (sq_incidents (seqs T)) (incidents T);
  ok_followed : ∀ f, f ∈ followups T → followup_key f ∈ lead_key <$> leads T;
  ok_noted : ∀ r, r ∈ notes T → remark_key r ∈ lead_key <$> leads T;
  ok_commented : ∀ r, r ∈ comments T → remark_key r ∈ ticket_key <$> tickets T;
}.

(** Numbers are drawn upwards, and leads and tickets stay, with their tenants. *)
Definition seqs_le (q q' : sequences) : Prop :=
  (sq_leads q ≤ sq_leads q' ∧ sq_followups q ≤ sq_followups q' ∧ sq_notes q ≤ sq_notes q' ∧
   sq_tickets q ≤ sq_tickets q' ∧ sq_comments q ≤ sq_comments q' ∧ sq_incidents q ≤ sq_incidents q')%Z.
Record grows (T T' : tables) : Prop := mkGrows {
  gr_seqs : seqs_le (seqs T) (seqs T');
  gr_leads : lead_key <$> leads T ⊆ lead_key <$> leads T';
  gr_tickets : ticket_key <$> tickets T ⊆ ticket_key <$> tickets T';
}.

#[export] Instance grows_preorder : PreOrder grows.
Proof.
  split.
  - intros T. split; [unfold seqs_le; lia|done..].
  - intros T1 T2 T3 [Q1 L1 K1] [Q2 L2 K2]. split; [unfold seqs_le in *; lia|by etrans..].
Qed.

Section table.
Context {A : Type} (id : A → Z) (call : A → option string).
Implicit Types (l : list A).

Lemma table_ok_later next next' l : table_ok id call next l → (next ≤ next')%Z → table_ok id call next' l.
Proof. intros (H1 & H2 & H3) Hn. split_and!; [done| |done]. intros x Hx. specialize (H2 x Hx). lia. Qed.

Lemma taken_false v l : taken call v l = false → ∀ w, v = Some w → w ∉ omap call l.
Proof.
  unfold taken. intros Hv w -> (x & Hx & Hc)%list_elem_of_omap.
  assert (existsb (λ x, match call x with Some w' => String.eqb w w' | None => false end) l = true) as E; [|congruence].
  apply existsb_exists. exists x. split; [by apply list_elem_of_In|]. rewrite Hc. apply String.eqb_refl.
Qed.

Lemma taken_null l : taken call None l = false.
Proof. by induction l. Qed.

Lemma table_ok_insert next l x :
  table_ok id call next l → id x ∉ id <$> l → (id x < next)%Z → taken call (call x) l = false → table_ok id call next (l ++ [x]).
Proof.
  intros (H1 & H2 & H3) Hx Hn Ht. split_and!.
  - apply NoDup_fmap_app_one; [done|]. intros y Hy E. apply Hx. rewrite <-E. by apply list_elem_of_fmap_2.
  - intros y [Hy|Hy]%elem_of_app; [by apply H2|]. by apply list_elem_of_singleton in Hy as ->.
  - rewrite omap_app. cbn [omap list_omap]. destruct (call x) as [w|] eqn:E; [|by rewrite app_nil_r].
    apply NoDup_app. split_and!; [done| |apply NoDup_singleton].
    intros v Hv ->%list_elem_of_singleton. by eapply taken_false.
Qed.

Lemma omap_update_where (P : A → Prop) `{!∀ x, Decision (P x)} f l : (∀ x, call (f x) = call x) → omap call (update_where P f l) = omap call l.
Proof.
  intros Hf. induction l as [|x l IH]; [done|]. change (update_where P f (x :: l)) with ((if decide (P x) then f x else x) :: update_where P f l).
  cbn [omap list_omap]. rewrite IH. by case_decide; rewrite ?Hf.
Qed.

Lemma table_ok_update next (P : A → Prop) `{!∀ x, Decision (P x)} f l :
  (∀ x, id (f x) = id x) → (∀ x, call (f x) = call x) → table_ok id call next l → table_ok id call next (update_where P f l).
Proof.
  intros Hi Hc (H1 & H2 & H3). unfold table_ok. rewrite update_where_key, omap_update_where by done. split_and!; [done| |done].
  intros y (x & Hx & ->)%elem_of_update_where. case_decide; [rewrite Hi|]; by apply H2.
Qed.

Lemma fresh next l : table_ok id call next l → next ∉ id <$> l.
Proof. intros (_ & H & _) (x & Hx & Hl)%list_elem_of_fmap. specialize (H x Hl). lia. Qed.
End table.

(** ** Transactions that keep the tables consistent *)

Section hoare.
Local Open Scope tx_scope.

Definition hoare {A} (Pre : tables → Prop) (m : tx A) (Post : A → tables → Prop) : Prop :=
  ∀ now T r T', consistent T → Pre T → m now T = (r, T') →
    consistent T' ∧ grows T T' ∧ match r with Ok a => Post a T' | Err _ => True end.
Definition keeps {A} (m : tx A) : Prop := hoare (λ _, True) m (λ _ _, True).

Lemma hoare_ret {A} (Pre : tables → Prop) (a : A) (Post : A → tables → Prop) : (∀ T, consistent T → Pre T → Post a T) → hoare Pre (tx_ret a) Post.
Proof. intros H now T r T' HT HP [= <- <-]. split_and!; [done..|by apply H]. Qed.
Lemma hoare_raise {A} Pre e (Post : A → tables → Prop) : hoare Pre (tx_raise e) Post.
Proof. intros now T r T' HT HP [= <- <-]. by split_and!. Qed.

Lemma hoare_bind {A B} Pre (m : tx A) (f : A → tx B) Mid Post :
  hoare Pre m Mid → (∀ a, hoare (Mid a) (f a) Post) → hoare Pre (tx_bind m f) Post.
Proof.
  intros Hm Hf now T r T' HT HP. unfold tx_bind. destruct (m now T) as [[a|e] T1] eqn:E.
  - destruct (Hm _ _ _ _ HT HP E) as (H1 & H2 & H3). intros E'. destruct (Hf a _ _ _ _ H1 H3 E') as (H4 & H5 & H6).
    split_and!; [done|by etrans|done].
  - intros [= <- <-]. destruct (Hm _ _ _ _ HT HP E) as (H1 & H2 & H3). by split_and!.
Qed.

Lemma hoare_conseq {A} (Pre Pre' : tables → Prop) (m : tx A) (Post Post' : A → tables → Prop) :
  hoare Pre' m Post' → (∀ T, consistent T → Pre T → Pre' T) → (∀ a T, consistent T → Post' a T → Post a T) → hoare Pre m Post.
Proof.
  intros Hm H1 H2 now T r T' HT HP E. destruct (Hm _ _ _ _ HT (H1 _ HT HP) E) as (H3 & H4 & H5). split_and!; [done..|].
  destruct r; [by apply H2|done].
Qed.

Lemma hoare_select {A} (Pre : tables → Prop) (f : tables → A) : hoare Pre (select f) (λ a T, Pre T ∧ a = f T).
Proof. intros now T r T' HT HP [= <- <-]. by split_and!. Qed.

Lemma hoare_execute (Pre Post : tables → Prop) f :
  (∀ now T, consistent T → Pre T → consistent (f now T) ∧ grows T (f now T) ∧ Post (f now T)) → hoare Pre (execute f) (λ _, Post).
Proof. intros H now T r T' HT HP [= <- <-]. by apply H. Qed.

(** What a block that raised leaves drawn does no harm. *)
Lemma consistent_drawn q T : consistent T → seqs_le (seqs T) q → consistent (with_seqs q T).
Proof. intros [] (? & ? & ? & ? & ? & ?). split; cbn; try done; by eapply table_ok_later. Qed.
Lemma grows_drawn q T : seqs_le (seqs T) q → grows T (with_seqs q T).
Proof. intros H. by split. Qed.

Lemma hoare_atomically {A} Pre (m : tx A) (Post : A → tables → Prop) : hoare Pre m Post → hoare Pre (atomically m) Post.
Proof.
  intros Hm now T r T' HT HP. unfold atomically. destruct (m now T) as [[a|e] T1] eqn:E; intros [= <- <-];
    destruct (Hm _ _ _ _ HT HP E) as (H1 & H2 & H3); [by split_and!|].
  pose proof (gr_seqs _ _ H2). split_and!; [by apply consistent_drawn|by apply grows_drawn|done].
Qed.
End hoare.

(** ** Statements *)

Section statements.
Local Open Scope tx_scope.

Lemma hoare_next (get : sequences → Z) (bump : sequences → sequences) (ids : tables → list Z) (K : tables → Prop) :
  (∀ q, seqs_le q (bump q)) → (∀ q, get q < get (bump q))%Z → (∀ q T, ids (with_seqs q T) = ids T) →
  (∀ T, consistent T → get (seqs T) ∉ ids T) → (∀ q T, K T → K (with_seqs q T)) →
  hoare K (λ _ T, (Ok (get (seqs T)), with_seqs (bump (seqs T)) T)) (λ id T, K T ∧ (id < get (seqs T))%Z ∧ id ∉ ids T).
Proof.
  intros Hb Hl Hi Hf HK now T r T' HT HP [= <- <-].
  split_and!; [by apply consistent_drawn|by apply grows_drawn|by apply HK|apply Hl|rewrite Hi; by apply Hf].
Qed.

Ltac next get bump ids := refine (hoare_next get bump ids _ _ _ _ _ _); [intros q; unfold seqs_le; cbn; lia|intros q; cbn; lia|done|intros T []; by eapply fresh|done].

Lemma hoare_next_lead K : (∀ q T, K T → K (with_seqs q T)) → hoare K next_lead (λ id T, K T ∧ (id < sq_leads (seqs T))%Z ∧ id ∉ ld_id <$> leads T).
Proof. intros HK. next sq_leads (λ q, mkSequences (sq_leads q + 1) (sq_followups q) (sq_notes q) (sq_tickets q) (sq_comments q) (sq_incidents q)) (λ T, ld_id <$> leads T). Qed.
Lemma hoare_next_followup K : (∀ q T, K T → K (with_seqs q T)) → hoare K next_followup (λ id T, K T ∧ (id < sq_followups (seqs T))%Z ∧ id ∉ fu_id <$> followups T).
Proof. intros HK. next sq_followups (λ q, mkSequences (sq_leads q) (sq_followups q + 1) (sq_notes q) (sq_tickets q) (sq_comments q) (sq_incidents q)) (λ T, fu_id <$> followups T). Qed.
Lemma hoare_next_note K : (∀ q T, K T → K (with_seqs q T)) → hoare K next_note (λ id T, K T ∧ (id < sq_notes (seqs T))%Z ∧ id ∉ rm_id <$> notes T).
Proof. intros HK. next sq_notes (λ q, mkSequences (sq_leads q) (sq_followups q) (sq_notes q + 1) (sq_tickets q) (sq_comments q) (sq_incidents q)) (λ T, rm_id <$> notes T). Qed.
Lemma hoare_next_ticket K : (∀ q T, K T → K (with_seqs q T)) → hoare K next_ticket (λ id T, K T ∧ (id < sq_tickets (seqs T))%Z ∧ id ∉ tk_id <$> tickets T).
Proof. intros HK. next sq_tickets (λ q, mkSequences (sq_leads q) (sq_followups q) (sq_notes q) (sq_tickets q + 1) (sq_comments q) (sq_incidents q)) (λ T, tk_id <$> tickets T). Qed.
Lemma hoare_next_comment K : (∀ q T, K T → K (with_seqs q T)) → hoare K next_comment (λ id T, K T ∧ (id < sq_comments (seqs T))%Z ∧ id ∉ rm_id <$> comments T).
Proof. intros HK. next sq_comments (λ q, mkSequences (sq_leads q) (sq_followups q) (sq_notes q) (sq_tickets q) (sq_comments q + 1) (sq_incidents q)) (λ T, rm_id <$> comments T). Qed.
Lemma hoare_next_incident K : (∀ q T, K T → K (with_seqs q T)) → hoare K next_incident (λ id T, K T ∧ (id < sq_incidents (seqs T))%Z ∧ id ∉ in_id <$> incidents T).
Proof. intros HK. next sq_incidents (λ q, mkSequences (sq_leads q) (sq_followups q) (sq_notes q) (sq_tickets q) (sq_comments q) (sq_incidents q + 1)) (λ T, in_id <$> incidents T). Qed.

(** Updates that keep the keys *)

Lemma update_leads P `{!∀ x, Decision (P x)} f T :
  (∀ x, lead_key (f x) = lead_key x) → (∀ x, contact_key (f x) = contact_key x) → consistent T →
  consistent (set_leads (update_where P f (leads T)) T) ∧ grows T (set_leads (update_where P f (leads T)) T).
Proof.
  intros Hk Hc HT. assert (lead_key <$> update_where P f (leads T) = lead_key <$> leads T) as E by by apply update_where_key.
  split; [|split; cbn; rewrite ?E; unfold seqs_le; try done; lia].
  destruct HT. split; cbn; rewrite ?E; rewrite ?(update_where_key contact_key) by done; try done.
  apply table_ok_update; [|done..]. intros x. by injection (Hk x).
Qed.
Lemma update_tickets P `{!∀ x, Decision (P x)} f T :
  (∀ x, ticket_key (f x) = ticket_key x) → (∀ x, tk_call (f x) = tk_call x) → consistent T →
  consistent (set_tickets (update_where P f (tickets T)) T) ∧ grows T (set_tickets (update_where P f (tickets T)) T).
Proof.
  intros Hk Hc HT. assert (ticket_key <$> update_where P f (tickets T) = ticket_key <$> tickets T) as E by by apply update_where_key.
  split; [|split; cbn; rewrite ?E; unfold seqs_le; try done; lia].
  destruct HT. split; cbn; rewrite ?E; try done. apply table_ok_update; [|done..]. intros x. by injection (Hk x).
Qed.
Lemma update_followups P `{!∀ x, Decision (P x)} f T :
  (∀ x, fu_id (f x) = fu_id x) → (∀ x, fu_call (f x) = fu_call x) → (∀ x, followup_key (f x) = followup_key x) → consistent T →
  consistent (set_followups (update_where P f (followups T)) T) ∧ grows T (set_followups (update_where P f (followups T)) T).
Proof.
  intros Hi Hc Hk HT. split; [|split; cbn; unfold seqs_le; try done; lia].
  destruct HT. split; cbn; try done; [by apply table_ok_update|].
  intros y (x & Hx & ->)%elem_of_update_where. case_decide; [rewrite Hk|]; auto.
Qed.
Lemma update_incidents P `{!∀ x, Decision (P x)} f T :
  (∀ x, in_id (f x) = in_id x) → (∀ x, in_call (f x) = in_call x) → consistent T →
  consistent (set_incidents (update_where P f (incidents T)) T) ∧ grows T (set_incidents (update_where P f (incidents T)) T).
Proof.
  intros Hi Hc HT. split; [|split; cbn; unfold seqs_le; try done; lia].
  destruct HT. split; cbn; try done. by apply table_ok_update.
Qed.

(** Inserts of a row whose id was drawn and whose call has none *)
Lemma insert_lead x T :
  (ld_id x < sq_leads (seqs T))%Z → ld_id x ∉ ld_id <$> leads T → contact_key x ∉ contact_key <$> leads T → consistent T →
  consistent (set_leads (leads T ++ [x]) T) ∧ grows T (set_leads (leads T ++ [x]) T).
Proof.
  intros Hn Hx Hc HT. split; [|split; cbn; rewrite ?fmap_app; unfold seqs_le; try done; set_solver].
  destruct HT. split; cbn; try done.
  - apply table_ok_insert; [done..|apply taken_null].
  - rewrite fmap_app. apply NoDup_app. split_and!; [done| |apply NoDup_singleton]. intros k Hk ->%list_elem_of_singleton. done.
  - intros f Hf. rewrite fmap_app. apply elem_of_app. auto.
  - intros f Hf. rewrite fmap_app. apply elem_of_app. auto.
Qed.
Lemma insert_ticket x T :
  (tk_id x < sq_tickets (seqs T))%Z → tk_id x ∉ tk_id <$> tickets T → taken tk_call (tk_call x) (tickets T) = false → consistent T →
  consistent (set_tickets (tickets T ++ [x]) T) ∧ grows T (set_tickets (tickets T ++ [x]) T).
Proof.
  intros Hn Hx Hc HT. split; [|split; cbn; rewrite ?fmap_app; unfold seqs_le; try done; set_solver].
  destruct HT. split; cbn; try done; [by apply table_ok_insert|].
  intros f Hf. rewrite fmap_app. apply elem_of_app. auto.
Qed.

Ltac inserted HT :=
  split; [|split; cbn; unfold seqs_le; try done; lia]; destruct HT; split; cbn; try done; try (by apply table_ok_insert);
  intros y [Hy|Hy]%elem_of_app; [auto|by apply list_elem_of_singleton in Hy as ->].

Lemma insert_followup_row x T :
  (fu_id x < sq_followups (seqs T))%Z → fu_id x ∉ fu_id <$> followups T → taken fu_call (fu_call x) (followups T) = false →
  followup_key x ∈ lead_key <$> leads T → consistent T →
  consistent (set_followups (followups T ++ [x]) T) ∧ grows T (set_followups (followups T ++ [x]) T).
Proof. intros Hn Hx Hc Hk HT. inserted HT. Qed.
Lemma insert_note_row x T :
  (rm_id x < sq_notes (seqs T))%Z → rm_id x ∉ rm_id <$> notes T → taken rm_call (rm_call x) (notes T) = false →
  remark_key x ∈ lead_key <$> leads T → consistent T →
  consistent (set_notes (notes T ++ [x]) T) ∧ grows T (set_notes (notes T ++ [x]) T).
Proof. intros Hn Hx Hc Hk HT. inserted HT. Qed.
Lemma insert_comment_row x T :
  (rm_id x < sq_comments (seqs T))%Z → rm_id x ∉ rm_id <$> comments T → taken rm_call (rm_call x) (comments T) = false →
  remark_key x ∈ ticket_key <$> tickets T → consistent T →
  consistent (set_comments (comments T ++ [x]) T) ∧ grows T (set_comments (comments T ++ [x]) T).
Proof. intros Hn Hx Hc Hk HT. inserted HT. Qed.
Lemma insert_incident x T :
  (in_id x < sq_incidents (seqs T))%Z → in_id x ∉ in_id <$> incidents T → taken in_call (in_call x) (incidents T) = false → consistent T →
  consistent (set_incidents (incidents T ++ [x]) T) ∧ grows T (set_incidents (incidents T ++ [x]) T).
Proof. intros Hn Hx Hc HT. split; [|split; cbn; unfold seqs_le; try done; lia]. destruct HT. split; cbn; try done. by apply table_ok_insert. Qed.
End statements.

(** ** Operations *)

Section operations.
Local Open Scope tx_scope.
Implicit Types (T : tables).

Definition owned_lead (tenant : string) (id : Z) (T : tables) : Prop := (id, tenant) ∈ lead_key <$> leads T.
Definition owned_ticket (tenant : string) (id : Z) (T : tables) : Prop := (id, tenant) ∈ ticket_key <$> tickets T.

Lemma owned_found tenant contact T l : l ∈ filter (is_lead tenant contact) (leads T) → owned_lead tenant (ld_id l) T.
Proof. intros [[<- _] Hl]%list_elem_of_filter. by apply (list_elem_of_fmap_2 lead_key). Qed.
Lemma owned_ticket_found tenant id T t : t ∈ filter (is_ticket tenant id) (tickets T) → owned_ticket tenant id T.
Proof. intros [[<- <-] Ht]%list_elem_of_filter. by apply (list_elem_of_fmap_2 ticket_key). Qed.

Lemma owned_grows tenant id T T' : grows T T' → owned_lead tenant id T → owned_lead tenant id T'.
Proof. intros [_ H _]. apply H. Qed.

Lemma insert_note_ok tenant lead_id note call :
  hoare (owned_lead tenant lead_id) (insert_note tenant lead_id note call) (λ _, owned_lead tenant lead_id).
Proof.
  eapply hoare_bind; [by apply hoare_next_note|]. intros id now T r T' HT (HK & Hn & Hf). cbv beta.
  destruct (taken rm_call call (notes T)) eqn:E; [intros [= <- <-]; by split_and!|].
  case_bool_decide; intros [= <- <-]; [|by split_and!].
  edestruct (insert_note_row (mkRemark id tenant lead_id note call now) T); try done.
Qed.

Lemma insert_comment_ok tenant ticket_id comment call :
  hoare (owned_ticket tenant ticket_id) (insert_comment tenant ticket_id comment call) (λ _ _, True).
Proof.
  eapply hoare_bind; [by apply hoare_next_comment|]. intros id now T r T' HT (HK & Hn & Hf). cbv beta.
  destruct (taken rm_call call (comments T)) eqn:E; [intros [= <- <-]; by split_and!|].
  case_bool_decide; intros [= <- <-]; [|by split_and!].
  edestruct (insert_comment_row (mkRemark id tenant ticket_id comment call now) T); try done.
Qed.

Lemma update_leads_ok (K : tables → Prop) P `{!∀ x, Decision (P x)} (f : Z → lead → lead) :
  (∀ now x, lead_key (f now x) = lead_key x) → (∀ now x, contact_key (f now x) = contact_key x) → (∀ T T', grows T T' → K T → K T') →
  hoare K (execute (λ now T, set_leads (update_where P (f now) (leads T)) T)) (λ _, K).
Proof. intros Hk Hc HK. apply hoare_execute. intros now T HT HP. destruct (update_leads P (f now) T); eauto. Qed.

Lemma upsert_lead_ok tenant name contact : hoare (λ _, True) (upsert_lead tenant name contact) (owned_lead tenant).
Proof.
  eapply hoare_bind; [by apply hoare_next_lead|]. intros id now T r T' HT (HK & Hn & Hf). cbv beta.
  destruct (filter (is_lead tenant contact) (leads T)) as [|l k] eqn:E; intros [= <- <-].
  - destruct (insert_lead (mkLead id tenant name contact "new" now now) T); [done..| |done|].
    + intros (l & [= -> ->] & Hl)%list_elem_of_fmap. assert (l ∈ @nil lead); [|set_solver].
      rewrite <-E. apply list_elem_of_filter. by split.
    + split_and!; [done..|]. cbn. unfold owned_lead. cbn. rewrite fmap_app. set_solver.
  - edestruct (update_leads (is_lead tenant contact) (touched now) T) as [H1 H2]; [done..|]. split_and!; [done..|].
    eapply owned_grows; [done|]. apply owned_found with contact. rewrite E. left.
Qed.

Lemma find_or_create_lead_ok tenant name contact note call :
  keeps (lead_id ← upsert_lead tenant name contact; insert_note tenant lead_id note call ;; tx_ret lead_id).
Proof.
  eapply hoare_bind; [apply upsert_lead_ok|]. intros id. eapply hoare_bind; [apply insert_note_ok|].
  intros ?. by apply hoare_ret.
Qed.

Lemma insert_followup_ok tenant lead_id due_at note by_ call :
  hoare (owned_lead tenant lead_id) (insert_followup tenant lead_id due_at note by_ call) (λ _ _, True).
Proof.
  eapply hoare_bind; [by apply hoare_next_followup|]. intros id. cbv beta.
  eapply hoare_bind; [apply hoare_select|]. intros [].
  - eapply hoare_bind; [apply hoare_select|]. intros [f|]; [by apply hoare_ret|apply hoare_raise].
  - eapply hoare_bind; [apply hoare_select|]. intros []; [|apply hoare_raise].
    eapply hoare_bind; [|intros ?; by apply hoare_ret].
    apply (hoare_execute _ (λ _, True)). intros now T HT [[(HK & Hn & Hf) Ht] _].
    destruct (insert_followup_row (mkFollowup id tenant lead_id due_at note "pending" by_ call now) T); first [done|by cbn; rewrite <-?Ht|idtac].
Qed.

Lemma cancel_ok K tenant lead_id :
  hoare K (execute (λ _ T, set_followups (update_where (λ f, fu_tenant f = tenant ∧ fu_lead_id f = lead_id ∧ fu_status f = "pending") cancelled (followups T)) T)) (λ _ _, True).
Proof. apply (hoare_execute _ (λ _, True)). intros now T HT _. edestruct (update_followups (λ f, fu_tenant f = tenant ∧ fu_lead_id f = lead_id ∧ fu_status f = "pending") cancelled T); done. Qed.

Lemma close_lead_ok tenant contact lead_id reason call : hoare (owned_lead tenant lead_id) (close_lead tenant contact lead_id reason call) (λ _ _, True).
Proof.
  eapply hoare_bind; [apply update_leads_ok; [done..|intros T T'; apply owned_grows]|]. intros ?.
  eapply hoare_bind; [apply insert_note_ok|]. intros ?. apply cancel_ok.
Qed.

Lemma note_lead_ok tenant contact lead_id note call : hoare (owned_lead tenant lead_id) (note_lead tenant contact lead_id note call) (λ _ _, True).
Proof.
  eapply hoare_bind; [apply insert_note_ok|]. intros ?.
  eapply hoare_conseq; [apply update_leads_ok with (f := touched); [done..|intros T T'; apply owned_grows]|done|done].
Qed.

Lemma set_lead_status_ok tenant contact status :
  keeps (found ← select (λ T, filter (is_lead tenant contact) (leads T));
         execute (λ now T, set_leads (update_where (is_lead tenant contact) (set_status status now) (leads T)) T) ;;
         tx_ret (0 <? length found)%nat).
Proof.
  eapply hoare_bind; [apply hoare_select|]. intros found. eapply hoare_bind; [|intros ?; by apply hoare_ret].
  eapply hoare_conseq; [apply (update_leads_ok (λ _, True)); done|done|]. intros a T HT _. exact I.
Qed.

Lemma create_ticket_ok tenant requester subject description priority call :
  keeps (id ← next_ticket;
    clash ← select (λ T, taken tk_call call (tickets T));
    if (clash : bool) then
      found ← select (λ T, head (filter (λ t, call ≠ None ∧ tk_call t = call) (tickets T)));
      match found with Some t => tx_ret (tk_id t) | None => cannot_unpack end
    else
      execute (λ now T, set_tickets (tickets T ++ [mkTicket id tenant requester subject description priority "open" None call now now]) T) ;;
      tx_ret id).
Proof.
  eapply hoare_bind; [by apply hoare_next_ticket|]. intros id. cbv beta.
  eapply hoare_bind; [apply hoare_select|]. intros [].
  - eapply hoare_bind; [apply hoare_select|]. intros [f|]; [by apply hoare_ret|apply hoare_raise].
  - eapply hoare_bind; [|intros ?; by apply hoare_ret].
    apply (hoare_execute _ (λ _, True)). intros now T HT [(HK & Hn & Hf) Ht].
    destruct (insert_ticket (mkTicket id tenant requester subject description priority "open" None call now now) T); first [done|by cbn; rewrite <-?Ht|idtac].
Qed.

Lemma update_tickets_ok P `{!∀ x, Decision (P x)} (f : Z → ticket → ticket) (K : tables → Prop) :
  (∀ now x, ticket_key (f now x) = ticket_key x) → (∀ now x, tk_call (f now x) = tk_call x) →
  hoare K (execute (λ now T, set_tickets (update_where P (f now) (tickets T)) T)) (λ _ _, True).
Proof. intros Hk Hc. apply (hoare_execute _ (λ _, True)). intros now T HT HP. destruct (update_tickets P (f now) T); eauto. Qed.

Lemma escalate_ticket_ok tenant ticket_id reason :
  keeps (found ← select (λ T, filter (is_ticket tenant ticket_id) (tickets T));
         execute (λ now T, set_tickets (update_where (is_ticket tenant ticket_id) (escalated reason now) (tickets T)) T) ;;
         tx_ret (0 <? length found)%nat).
Proof.
  eapply hoare_bind; [apply hoare_select|]. intros found. eapply hoare_bind; [by apply update_tickets_ok|intros ?; by apply hoare_ret].
Qed.

Lemma add_comment_ok tenant ticket_id comment call :
  keeps (found ← select (λ T, filter (is_ticket tenant ticket_id) (tickets T));
    match found with
    | [] => tx_ret false
    | _ =>
        insert_comment tenant ticket_id comment call ;;
        execute (λ now T, set_tickets (update_where (is_ticket tenant ticket_id) (bumped now) (tickets T)) T) ;;
        tx_ret true
    end).
Proof.
  eapply hoare_bind; [apply hoare_select|]. intros [|t found]; [by apply hoare_ret|].
  eapply hoare_bind.
  - eapply hoare_conseq; [apply insert_comment_ok| |done]. intros T HT [_ E]. apply (owned_ticket_found _ _ _ t). rewrite <-E. left.
  - intros ?. eapply hoare_bind; [by apply update_tickets_ok|intros ?; by apply hoare_ret].
Qed.

Lemma log_incident_ok opened_by summary detail call :
  keeps (id ← next_incident;
    clash ← select (λ T, taken in_call call (incidents T));
    if (clash : bool) then
      found ← select (λ T, head (filter (λ i, call ≠ None ∧ in_call i = call) (incidents T)));
      match found with Some i => tx_ret (in_id i) | None => cannot_unpack end
    else
      execute (λ now T, set_incidents (incidents T ++ [mkIncident id opened_by summary detail "open" None call now None]) T) ;;
      tx_ret id).
Proof.
  eapply hoare_bind; [by apply hoare_next_incident|]. intros id. cbv beta.
  eapply hoare_bind; [apply hoare_select|]. intros [].
  - eapply hoare_bind; [apply hoare_select|]. intros [f|]; [by apply hoare_ret|apply hoare_raise].
  - eapply hoare_bind; [|intros ?; by apply hoare_ret].
    apply (hoare_execute _ (λ _, True)). intros now T HT [(HK & Hn & Hf) Ht].
    destruct (insert_incident (mkIncident id opened_by summary detail "open" None call now None) T); first [done|by cbn; rewrite <-?Ht|idtac].
Qed.

Lemma resolve_incident_ok incident_id resolution :
  keeps (found ← select (λ T, filter (λ i, in_id i = incident_id) (incidents T));
         execute (λ now T, set_incidents (update_where (λ i, in_id i = incident_id) (resolved resolution now) (incidents T)) T) ;;
         tx_ret (0 <? length found)%nat).
Proof.
  eapply hoare_bind; [apply hoare_select|]. intros found. eapply hoare_bind; [|intros ?; by apply hoare_ret].
  apply (hoare_execute _ (λ _, True)). intros now T HT _. destruct (update_incidents (λ i, in_id i = incident_id) (resolved resolution now) T); done.
Qed.

Lemma select_ok {A} (f : tables → A) : keeps (select f).
Proof. eapply hoare_conseq; [apply (hoare_select (λ _, True))|done|done]. Qed.

(** A lead that was read is the tenant's. *)
Lemma get_lead_ok tenant contact :
  hoare (λ _, True) (get_lead_tx tenant contact) (λ r T, match r with Some (l, _) => owned_lead tenant (ld_id l) T | None => True end).
Proof.
  eapply hoare_conseq; [apply (hoare_select (λ _, True))|done|]. intros r T HT [_ ->].
  destruct (filter (is_lead tenant contact) (leads T)) as [|l k] eqn:E; [done|]. apply owned_found with contact. rewrite E. left.
Qed.
End operations.

(** ** Tenants *)

Section tenants.
Context (tenant : string).
Implicit Types (T : tables).

(** What belongs to other tenants, and what a tenant sees: incidents are nobody's. *)
Definition foreign T :=
  (filter (λ l, ld_tenant l ≠ tenant) (leads T), filter (λ f, fu_tenant f ≠ tenant) (followups T), filter (λ r, rm_tenant r ≠ tenant) (notes T),
   filter (λ t, tk_tenant t ≠ tenant) (tickets T), filter (λ r, rm_tenant r ≠ tenant) (comments T), employees T).
Definition own T :=
  (filter (λ l, ld_tenant l = tenant) (leads T), filter (λ f, fu_tenant f = tenant) (followups T), filter (λ r, rm_tenant r = tenant) (notes T),
   filter (λ t, tk_tenant t = tenant) (tickets T), filter (λ r, rm_tenant r = tenant) (comments T), filter (λ e, em_tenant e = tenant) (employees T),
   incidents T).

(** A transaction that leaves the rows of others alone *)
Definition confined {A} (m : tx A) : Prop := ∀ now T, foreign (m now T).2 = foreign T.
(** A transaction that changes nothing and whose answer is about the tenant's rows alone *)
Definition reads_own {A} (m : tx A) : Prop :=
  (∀ now T, (m now T).2 = T) ∧
  ∀ now T1 T2, consistent T1 → consistent T2 → own T1 = own T2 → (m now T1).1 = (m now T2).1.

Lemma confined_ret {A} (a : A) : confined (tx_ret a).
Proof. done. Qed.
Lemma confined_raise {A} e : confined (tx_raise e : tx A).
Proof. done. Qed.
Lemma confined_bind {A B} (m : tx A) (f : A → tx B) : confined m → (∀ a, confined (f a)) → confined (tx_bind m f).
Proof.
  intros Hm Hf now T. unfold tx_bind. specialize (Hm now T). destruct (m now T) as [[a|e] T1]; [|done].
  rewrite <-Hm. apply Hf.
Qed.
Lemma confined_select {A} (f : tables → A) : confined (select f).
Proof. done. Qed.
Lemma confined_execute f : (∀ now T, foreign (f now T) = foreign T) → confined (execute f).
Proof. intros Hf now T. apply Hf. Qed.
Lemma confined_atomically {A} (m : tx A) : confined m → confined (atomically m).
Proof. intros Hm now T. unfold atomically. specialize (Hm now T). by destruct (m now T) as [[a|e] T1]. Qed.

Lemma foreign_update {A} (ten : A → string) (P : A → Prop) `{!∀ x, Decision (P x)} f (l : list A) :
  (∀ x, P x → ten x = tenant) → (∀ x, ten (f x) = ten x) → filter (λ x, ten x ≠ tenant) (update_where P f l) = filter (λ x, ten x ≠ tenant) l.
Proof.
  intros HP Hf. induction l as [|x l IH]; [done|].
  change (update_where P f (x :: l)) with ((if decide (P x) then f x else x) :: update_where P f l). rewrite !filter_cons, IH.
  destruct (decide (P x)) as [Hx|]; [|done]. rewrite !decide_False; [done|..]; rewrite ?Hf, (HP _ Hx); auto.
Qed.
Lemma foreign_app {A} (ten : A → string) (l : list A) x : ten x = tenant → filter (λ x, ten x ≠ tenant) (l ++ [x]) = filter (λ x, ten x ≠ tenant) l.
Proof. intros Hx. rewrite filter_app, filter_cons, decide_False by auto. apply app_nil_r. Qed.

Lemma filter_own {A} (ten : A → string) (P : A → Prop) `{!∀ x, Decision (P x)} (l : list A) :
  (∀ x, x ∈ l → P x → ten x = tenant) → filter P l = filter P (filter (λ x, ten x = tenant) l).
Proof.
  induction l as [|x l IH]; intros HP; [done|]. rewrite !filter_cons.
  assert (filter P l = filter P (filter (λ x, ten x = tenant) l)) as E by (apply IH; intros y Hy; apply HP; by right).
  destruct (decide (ten x = tenant)) as [|Hx]; [rewrite filter_cons; case_decide; by rewrite E|].
  destruct (decide (P x)) as [Hp|]; [|done]. exfalso. apply Hx, HP; [left|done].
Qed.

(** *** Operations that change rows *)

Lemma foreign_leads l T : filter (λ l, ld_tenant l ≠ tenant) l = filter (λ l, ld_tenant l ≠ tenant) (leads T) → foreign (set_leads l T) = foreign T.
Proof. intros H. unfold foreign. cbn. by rewrite H. Qed.
Lemma foreign_followups l T : filter (λ l, fu_tenant l ≠ tenant) l = filter (λ l, fu_tenant l ≠ tenant) (followups T) → foreign (set_followups l T) = foreign T.
Proof. intros H. unfold foreign. cbn. by rewrite H. Qed.
Lemma foreign_tickets l T : filter (λ l, tk_tenant l ≠ tenant) l = filter (λ l, tk_tenant l ≠ tenant) (tickets T) → foreign (set_tickets l T) = foreign T.
Proof. intros H. unfold foreign. cbn. by rewrite H. Qed.

Lemma insert_note_confined lead_id note call : confined (insert_note tenant lead_id note call).
Proof.
  apply confined_bind; [done|]. intros id now T. cbv beta. destruct (taken _ _ _); [done|]. case_bool_decide; [|done].
  unfold foreign. cbn. by rewrite foreign_app.
Qed.
Lemma insert_comment_confined ticket_id comment call : confined (insert_comment tenant ticket_id comment call).
Proof.
  apply confined_bind; [done|]. intros id now T. cbv beta. destruct (taken _ _ _); [done|]. case_bool_decide; [|done].
  unfold foreign. cbn. by rewrite foreign_app.
Qed.
Lemma upsert_lead_confined name contact : confined (upsert_lead tenant name contact).
Proof.
  apply confined_bind; [done|]. intros id now T. cbv beta. destruct (filter _ _); apply foreign_leads; [by apply foreign_app|].
  apply (foreign_update ld_tenant); [by intros x []|done].
Qed.
Lemma update_leads_confined contact (f : Z → lead → lead) : (∀ now x, ld_tenant (f now x) = ld_tenant x) →
  confined (execute (λ now T, set_leads (update_where (is_lead tenant contact) (f now) (leads T)) T)).
Proof. intros Hf. apply confined_execute. intros now T. apply foreign_leads, (foreign_update ld_tenant); [by intros x []|done]. Qed.
Lemma update_tickets_confined id (f : Z → ticket → ticket) : (∀ now x, tk_tenant (f now x) = tk_tenant x) →
  confined (execute (λ now T, set_tickets (update_where (is_ticket tenant id) (f now) (tickets T)) T)).
Proof. intros Hf. apply confined_execute. intros now T. apply foreign_tickets, (foreign_update tk_tenant); [by intros x []|done]. Qed.
Lemma cancel_confined lead_id :
  confined (execute (λ _ T, set_followups (update_where (λ f, fu_tenant f = tenant ∧ fu_lead_id f = lead_id ∧ fu_status f = "pending") cancelled (followups T)) T)).
Proof. apply confined_execute. intros now T. apply foreign_followups, (foreign_update fu_tenant); [by intros x []|done]. Qed.
End tenants.

Create HintDb confined discriminated.
#[export] Hint Resolve confined_ret confined_raise confined_bind confined_select confined_atomically insert_note_confined insert_comment_confined
  upsert_lead_confined cancel_confined : confined.
#[export] Hint Extern 1 (confined _ (execute _)) => first [by apply update_leads_confined|by apply update_tickets_confined] : confined.
#[export] Hint Extern 1 (confined _ next_followup) => done : confined.
#[export] Hint Extern 1 (confined _ next_ticket) => done : confined.
#[export] Hint Extern 1 (confined _ next_incident) => done : confined.
#[export] Hint Extern 1 (confined _ cannot_unpack) => done : confined.
#[export] Hint Extern 2 (confined _ (match ?x with _ => _ end)) => destruct x : confined.
#[export] Hint Extern 3 => progress intros : confined.

Section operations_of_tenants.
Context (tenant : string).

Lemma insert_followup_confined lead_id due_at note by_ call : confined tenant (insert_followup tenant lead_id due_at note by_ call).
Proof.
  unfold insert_followup. apply confined_bind; [done|]. intros id. apply confined_bind; [done|]. intros []; [auto 10 with confined|].
  apply confined_bind; [done|]. intros []; [|done]. apply confined_bind; [|done].
  apply confined_execute. intros now T. apply foreign_followups. by apply (foreign_app tenant fu_tenant).
Qed.
Lemma close_lead_confined contact lead_id reason call : confined tenant (close_lead tenant contact lead_id reason call).
Proof. unfold close_lead. auto 10 with confined. Qed.
Lemma note_lead_confined contact lead_id note call : confined tenant (note_lead tenant contact lead_id note call).
Proof. unfold note_lead. auto 10 with confined. Qed.

Lemma new_ticket_confined id requester subject description priority call now' :
  confined tenant (execute (λ now T, set_tickets (tickets T ++ [mkTicket id tenant requester subject description priority "open" None call now (now' now)]) T)).
Proof. apply confined_execute. intros now T. apply foreign_tickets. by apply (foreign_app tenant tk_tenant). Qed.

(** *** Operations that only read *)

Lemma reads_own_select {A} (f : tables → A) :
  (∀ T1 T2, consistent T1 → consistent T2 → own tenant T1 = own tenant T2 → f T1 = f T2) → reads_own tenant (atomically (select f)).
Proof. intros Hf. split; [done|]. intros now T1 T2 H1 H2 HT. unfold atomically, select. cbn. by rewrite (Hf T1 T2). Qed.

Lemma remarks_of_own id l1 l2 :
  filter (λ r, rm_tenant r = tenant) l1 = filter (λ r, rm_tenant r = tenant) l2 → remarks_of tenant id l1 = remarks_of tenant id l2.
Proof.
  intros E. unfold remarks_of. rewrite (filter_own tenant rm_tenant _ l1), E by (by intros x _ []).
  by rewrite <-(filter_own tenant rm_tenant) by (by intros x _ []).
Qed.

Ltac owned E ten l1 l2 := rewrite (filter_own tenant ten _ l1), E, <-(filter_own tenant ten _ l2).

Lemma get_lead_own contact : reads_own tenant (atomically (get_lead_tx tenant contact)).
Proof.
  apply reads_own_select. intros T1 T2 _ _ [= E1 E2 E3 _ _ _ _].
  owned E1 ld_tenant (leads T1) (leads T2); [|by intros x _ []..].
  destruct (filter (is_lead tenant contact) (leads T2)) as [|l k] eqn:E; [done|].
  assert (ld_tenant l = tenant) as ->.
  { assert (l ∈ filter (is_lead tenant contact) (leads T2)) as [[] _]%list_elem_of_filter by (rewrite E; left). done. }
  by rewrite (remarks_of_own _ _ _ E3).
Qed.

Lemma followups_of_own lead_id : reads_own tenant (atomically (select (followups_of tenant lead_id))).
Proof.
  apply reads_own_select. intros T1 T2 _ _ [= _ E2 _ _ _ _ _]. unfold followups_of.
  by owned E2 fu_tenant (followups T1) (followups T2); [|intros x _ []..].
Qed.

Lemma get_ticket_own ticket_id :
  reads_own tenant (atomically (select (λ T : tables,
    match filter (is_ticket tenant ticket_id) (tickets T) with
    | t :: _ => Some (t, remarks_of (tk_tenant t) (tk_id t) (comments T))
    | [] => None
    end))).
Proof.
  apply reads_own_select. intros T1 T2 _ _ [= _ _ _ E4 E5 _ _].
  owned E4 tk_tenant (tickets T1) (tickets T2); [|by intros x _ []..].
  destruct (filter (is_ticket tenant ticket_id) (tickets T2)) as [|l k] eqn:E; [done|].
  assert (tk_tenant l = tenant) as ->.
  { assert (l ∈ filter (is_ticket tenant ticket_id) (tickets T2)) as [[] _]%list_elem_of_filter by (rewrite E; left). done. }
  by rewrite (remarks_of_own _ _ _ E5).
Qed.

(** A follow-up is joined to the tenant's own lead. *)
Lemma joined_own T f : consistent T → f ∈ followups T → fu_tenant f = tenant →
  filter (λ l, ld_id l = fu_lead_id f) (leads T) = filter (λ l, ld_id l = fu_lead_id f) (filter (λ l, ld_tenant l = tenant) (leads T)).
Proof.
  intros HT Hf Hten. apply filter_own. intros l Hl Hid.
  pose proof (ok_followed _ HT f Hf) as (l' & [= E1 E2] & Hl')%list_elem_of_fmap. destruct (ok_leads _ HT) as (Hnd & _).
  assert (l = l') as ->; [|by rewrite <-E2]. eapply (key_inj ld_id); [done..|]. by rewrite Hid.
Qed.
End operations_of_tenants.

(** ** The transactions of the operations *)

Definition tx_step (Q : ∀ R, tx R → Prop) (s : step Stores.cmd) : Prop := match st_cmd s with Transaction m => Q _ m end.

Lemma only_get_connection (Q : ∀ R, tx R → Prop) {R} (m : tx R) : Q R (atomically m) → only (tx_step Q) (get_connection m).
Proof. intros H. by apply only_call. Qed.

Section transactions.
Context (tenant : string).
Abbreviation confined_op := (only (tx_step (@confined tenant))).
Abbreviation reading_op := (only (tx_step (@reads_own tenant))).

Ltac at_once := apply only_get_connection, confined_atomically.

Lemma confined_tx {A} (m : tx A) : confined tenant m → confined_op (get_connection m).
Proof. intros H. by at_once. Qed.
Lemma confined_get_lead contact : confined_op (get_lead tenant contact).
Proof. by at_once. Qed.
Hint Resolve confined_tx confined_get_lead : steps.

Lemma confined_find_or_create_lead name contact note call : confined_op (find_or_create_lead tenant name contact note call).
Proof. at_once. auto 10 with confined. Qed.
Lemma confined_set_lead_status contact status : confined_op (set_lead_status tenant contact status).
Proof. at_once. auto 10 with confined. Qed.
Lemma confined_add_followup contact due_at note by_ call : confined_op (add_followup tenant contact due_at note by_ call).
Proof. apply only_bind; [auto with steps|]. intros [[l n]|]; [|auto with steps]. apply only_bind; [|auto with steps]. apply confined_tx, insert_followup_confined. Qed.
Lemma confined_mark_lead_lost contact reason call : confined_op (mark_lead_lost tenant contact reason call).
Proof. apply only_bind; [auto with steps|]. intros [[l n]|]; [|auto with steps]. apply only_bind; [|auto with steps]. apply confined_tx, close_lead_confined. Qed.
Lemma confined_append_lead_note contact note call : confined_op (append_lead_note tenant contact note call).
Proof. apply only_bind; [auto with steps|]. intros [[l n]|]; [|auto with steps]. apply only_bind; [|auto with steps]. apply confined_tx, note_lead_confined. Qed.
Lemma confined_create_ticket requester subject description priority call : confined_op (create_ticket tenant requester subject description priority call).
Proof.
  at_once. apply confined_bind; [done|]. intros id. apply confined_bind; [done|]. intros []; [auto 10 with confined|].
  apply confined_bind; [|done]. apply (new_ticket_confined tenant id _ _ _ _ _ (λ now, now)).
Qed.
Lemma confined_escalate_ticket id reason : confined_op (escalate_ticket tenant id reason).
Proof. at_once. auto 10 with confined. Qed.
Lemma confined_add_comment id comment call : confined_op (add_comment tenant id comment call).
Proof. at_once. auto 10 with confined. Qed.
Lemma confined_log_incident opened_by summary detail call : confined_op (log_incident opened_by summary detail call).
Proof.
  at_once. apply confined_bind; [done|]. intros id. apply confined_bind; [done|]. intros []; [auto 10 with confined|].
  by apply confined_bind.
Qed.
Lemma confined_resolve_incident id resolution : confined_op (resolve_incident id resolution).
Proof. at_once. by apply confined_bind. Qed.

Lemma confined_reading {A} (p : Stores.P A) : reading_op p → confined_op p.
Proof. intros Hp. eapply only_impl; [exact Hp|]. intros [R [R' m] r] [H _] now T. cbn in *. by rewrite H. Qed.

Lemma reading_get_lead contact : reading_op (get_lead tenant contact).
Proof. apply only_get_connection, get_lead_own. Qed.
Lemma reading_lead_history contact : reading_op (lead_history tenant contact).
Proof.
  apply only_bind; [apply reading_get_lead|]. intros [[l n]|]; [|auto with steps]. apply only_bind; [|auto with steps].
  apply only_get_connection, followups_of_own.
Qed.
Lemma reading_get_ticket id : reading_op (get_ticket tenant id).
Proof. apply only_get_connection, get_ticket_own. Qed.
Lemma reading_list_tickets requester limit : reading_op (list_tickets_for_requester tenant requester limit).
Proof.
  apply only_get_connection, reads_own_select. intros T1 T2 _ _ [= _ _ _ E4 _ _ _].
  rewrite (filter_own tenant tk_tenant _ (tickets T1)), E4 by (by intros x _ []). by rewrite <-(filter_own tenant tk_tenant) by (by intros x _ []).
Qed.
Lemma reading_query_employees name_le department name_contains limit : reading_op (query_employees name_le tenant department name_contains limit).
Proof.
  apply only_get_connection, reads_own_select. intros T1 T2 _ _ [= _ _ _ _ _ E6 _].
  rewrite (filter_own tenant em_tenant _ (employees T1)), E6 by (by intros x _ []). by rewrite <-(filter_own tenant em_tenant) by (by intros x _ []).
Qed.
Lemma reading_list_recent_incidents limit status : reading_op (list_recent_incidents limit status).
Proof. apply only_get_connection, reads_own_select. intros T1 T2 _ _ [= _ _ _ _ _ _ E7]. by rewrite E7. Qed.

Lemma bind_ext_in {A B} (f g : A → list B) l : (∀ x, x ∈ l → f x = g x) → l ≫= f = l ≫= g.
Proof.
  induction l as [|x l IH]; intros H; [done|]. cbn [mbind list_bind]. rewrite (H x) by left. f_equal. apply IH. intros y Hy. apply H. by right.
Qed.

Lemma reading_list_pending_followups contact : reading_op (list_pending_followups tenant contact).
Proof.
  apply only_get_connection, reads_own_select. intros T1 T2 H1 H2 [= E1 E2 _ _ _ _ _]. do 2 f_equal.
  rewrite (filter_own tenant fu_tenant _ (followups T1)), E2 by (by intros x _ []). rewrite <-(filter_own tenant fu_tenant) by (by intros x _ []).
  apply bind_ext_in. intros f [[Hten _] Hf]%list_elem_of_filter. unfold joined. f_equal.
  assert (f ∈ followups T1) as Hf1.
  { assert (f ∈ filter (λ f, fu_tenant f = tenant) (followups T1)) as [_ ?]%list_elem_of_filter; [|done]. rewrite E2. by apply list_elem_of_filter. }
  by rewrite (joined_own tenant T1 f), (joined_own tenant T2 f), E1.
Qed.
End transactions.
