(* ===== verification/ToolRuntime.v ===== *)
(** What tools run on: [app/core/tool_runtime.py], [scrubbing.py], [output_limits.py], the code sandbox
    ([app/domains/sandbox_session.py]) and the adapters of the open web and of the team channel
    ([app/adapters/web/serper.py], [app/ingestion/web_crawler.py], [app/adapters/notify/team_channel.py]).

    A tool is a program over one set of commands: the transactions of [Stores], the ledger of
    [ToolCalls], the vector store of [Retrieval], and calls of services.  A deadline that passes is an
    answer to the command it passes at: [TimeoutError].  A call behind a circuit breaker ([Breaker]) is one
    command, answered with what the breaker lets through or raises.  Logs are left out. *)
From Stdlib Require Import Ascii SpecFloat.
From S2P Require Import Prelude Dict Json Messages AgentState Process Sha256 Wire Calendar Regex ToolCalls Stores Retrieval Ingestion AgentNode Text.

Local Open Scope string_scope.
Local Open Scope list_scope.

(** ** [scrubbing.py] *)

(** [r{n,}] *)
Fixpoint at_least (n : nat) (r : regex) : regex := match n with O => RStar r | S n => RSeq r (at_least n r) end.
Definition between (lo hi : N) (a : ascii) : bool := let n := N_of_ascii a in ((lo <=? n) && (n <=? hi))%N.
Definition upper_or_digit (a : ascii) : bool := between 48 57 a || between 65 90 a.
Definition alphanumeric (a : ascii) : bool := upper_or_digit a || between 97 122 a.
Definition token_char (a : ascii) : bool := alphanumeric a || bool_decide (a ∈ ["_"; "-"]%char).

Definition _STATIC_PATTERNS : list regex := [
  RSeq (exact "sk-") (at_least 16 (RChr alphanumeric));
  RSeq (exact "AKIA") (in_order (replicate 16 (RChr upper_or_digit)));
  in_order [RBound; one_of [lit "password"; lit "passwd"; lit "token"; lit "secret"; in_order [lit "api"; opt (RChr (λ a, bool_decide (a ∈ ["_"; "-"]%char))); lit "key"]];
            RStar blank; RChr (λ a, bool_decide (a ∈ [":"; "="]%char)); RStar blank; plus non_blank];
  in_order [exact "://"; plus (RChr (λ a, negb (py_isspace a || bool_decide (a ∈ [":"; "/"; "@"]%char)))); exactly ":";
            plus (RChr (λ a, negb (py_isspace a || bool_decide (a ∈ ["/"; "@"]%char)))); exactly "@"];
  in_order [exact "eyJ"; at_least 10 (RChr token_char); exactly "."; at_least 10 (RChr token_char); exactly "."; at_least 10 (RChr token_char)]
].

Definition _REDACTED : string := "[REDACTED]".

(** Where the longest match at a position ends: these patterns take as much as they can. *)
Definition longest (r : regex) (p : pos) : option pos :=
  foldl (λ best q, match best with Some b => if shorter b q then Some q else best | None => Some q end) None (ends r p).

(** [r.sub(by, s)] of a pattern that matches no empty text *)
Fixpoint sub_go (fuel : nat) (r : regex) (by_ : string) (before : option ascii) (s : string) : string :=
  match fuel, s with
  | S fuel, String a rest =>
      match longest r (before, s) with
      | Some (last, rest) => by_ +:+ sub_go fuel r by_ last rest
      | None => String a (sub_go fuel r by_ (Some a) rest)
      end
  | _, _ => ""
  end.
Definition re_sub (r : regex) (by_ s : string) : string := sub_go (String.length s) r by_ None s.

(** [s.replace(old, by)] of a text that is not empty *)
Fixpoint replace_go (fuel : nat) (old by_ s : string) : string :=
  match fuel, s with
  | S fuel, String a rest =>
      match strip_prefix old s with
      | Some rest => by_ +:+ replace_go fuel old by_ rest
      | None => String a (replace_go fuel old by_ rest)
      end
  | _, _ => ""
  end.
Definition replace_str (old by_ s : string) : string := replace_go (String.length s) old by_ s.

(** The password in a URL: what is between the first [://user:] and the next [@] *)
Definition password_at (s : string) : option string :=
  match strip_prefix "://" s with
  | Some s =>
      let '(user, s) := span (λ a, negb (py_isspace a || bool_decide (a ∈ [":"; "/"; "@"]%char))) s in
      match s with
      | String ":"%char s =>
          let '(password, s) := span (λ a, negb (py_isspace a || bool_decide (a ∈ ["/"; "@"]%char))) s in
          if nonempty user && nonempty password && startswith s "@" then Some password else None
      | _ => None
      end
  | None => None
  end.
Fixpoint password_in (s : string) : option string :=
  match password_at s with
  | Some p => Some p
  | None => match s with String _ s => password_in s | EmptyString => None end
  end.

(** The secrets of the configuration, and the addresses that carry one *)
Record secret_settings : Type := mkSecrets { secret_values : list string; secret_urls : list string }.
Definition _bound_secret_values (config : secret_settings) : list string :=
  filter (λ c, c ≠ "") (secret_values config ++ omap password_in (secret_urls config)).

Definition scrub (config : secret_settings) (text : string) : string :=
  let scrubbed := foldl (λ text pattern, re_sub pattern _REDACTED text) text _STATIC_PATTERNS in
  foldl (λ text secret, if contains text secret then replace_str secret _REDACTED text else text) scrubbed (_bound_secret_values config).

(** ** What a tool asks of the outside *)

(** What the search engine answers: its status and its body *)
Record search_response : Type := mkSearchResponse { sr_status : Z; sr_body : option json }.
(** What the crawler answers *)
Record crawl_result : Type := mkCrawl { cr_success : bool; cr_error_message : option string; cr_markdown : option string }.

Inductive cmd (address : Type) : Type → Type :=
| Store {R} (c : Stores.cmd R) : cmd address R
| Ledger {R} (c : ToolCalls.cmd R) : cmd address R
| Docs {R} (c : Ingestion.cmd (address := address) R) : cmd address R
| Now : cmd address Z
| Count (counter label : string) : cmd address ()
| Append_log (line : string) : cmd address ()                       (* one line to [var/team_channel.log] *)
| Post_slack (url text : string) : cmd address ()
| Post_search (key query : string) (num : nat) : cmd address search_response
| Crawl (url : string) : cmd address crawl_result
| Fetch_readings : cmd address (list (string * option float))
| Cached_catalog : cmd address (list string)                        (* [_raw_sandbox_tools_cache] *)
| Cache_catalog (names : list string) : cmd address ()
| Load_catalog : cmd address (list string)
| Invoke (name : string) (kwargs : list (string * json)) : cmd address string.
Arguments Store {address R} c.
Arguments Ledger {address R} c.
Arguments Docs {address R} c.
Arguments Now {address}.
Arguments Count {address} counter label.
Arguments Append_log {address} line.
Arguments Post_slack {address} url text.
Arguments Post_search {address} key query num.
Arguments Crawl {address} url.
Arguments Fetch_readings {address}.
Arguments Cached_catalog {address}.
Arguments Cache_catalog {address} names.
Arguments Load_catalog {address}.
Arguments Invoke {address} name kwargs.

Section runtime.
Context {address : Type}.
Abbreviation P := (prog (cmd address)).
Local Open Scope prog_scope.

Definition store {A} (p : Stores.P A) : P A := lift (cmd := Stores.cmd) (@Store address) p.
Definition docs {A} (p : prog Ingestion.cmd A) : P A := lift (cmd := Ingestion.cmd) (@Docs address) p.

(** ** [output_limits.py] *)

Definition HEAD_SHARE : float := fdiv (float_of_int 2) (float_of_int 3).

Definition bound_output (text : string) (limit : Z) (dependency : string) : P string :=
  if (limit <=? 0)%Z || (Z.of_nat (String.length text) <=? limit)%Z then Ret text else
  let head := trunc (fmul (float_of_int limit) HEAD_SHARE) in
  let tail := (limit - head)%Z in
  let omitted := (Z.of_nat (String.length text) - limit)%Z in
  call (Count "agent_tool_output_truncated_total" dependency) ;;
  Ret (take_str (Z.to_nat head) text +:+ line_feed +:+ "… [" +:+ dump_int omitted +:+ " of " +:+ dump_int (Z.of_nat (String.length text)) +:+
       " characters omitted] …" +:+ line_feed +:+ drop_str (Z.to_nat (Z.of_nat (String.length text) - tail)) text).

(** ** [tool_runtime.py] *)

Definition TOOL_TIMEOUT_SECONDS : Z := 15.

Definition NO_CTX_REFUSAL : string :=
  "Refused: no valid tenant/principal context for this request. This isn't something you can work around — it means the request never got a security context stamped on it upstream.".

(** [config["configurable"]] *)
Record config : Type := mkConfig { cf_ctx : option SecurityCtx; cf_thread_id : option string }.
Definition ctx_from_config (cf : option config) : option SecurityCtx := cf ≫= cf_ctx.

(** A policy's [permit] *)
Definition ctx_or_refuse (permit : string → option SecurityCtx → bool) (cf : option config) (action : string) : option SecurityCtx :=
  let ctx := ctx_from_config cf in
  if negb (valid_ctx ctx) || negb (permit action ctx) then None else ctx.

Context (secrets : secret_settings).

(** [await asyncio.wait_for(...)] under the deadline of a call *)
Definition wait_for {C : Type → Type} {A} (func : prog C A) (_timeout_seconds : option Z) : prog C A :=
  let timeout := default TOOL_TIMEOUT_SECONDS _timeout_seconds in
  catch func (λ e, if is_timeout e then Throw (Exc "TimeoutError" ("Tool call exceeded the " +:+ dump_int timeout +:+ "s timeout.")) else Throw e).
Definition arun_with_timeout {C : Type → Type} (func : prog C string) (_timeout_seconds : option Z) : prog C string :=
  result ← wait_for func _timeout_seconds;
  Ret (scrub secrets result).

(** What a program returns or raises, as a value *)
Fixpoint attempt {C : Type → Type} {A} (p : prog C A) : prog C (result exc A) :=
  match p with
  | Ret a => Ret (Ok a)
  | Throw e => Ret (Err e)
  | Do c k => Do c (λ r, attempt (k r))
  end.

(** The guard of [ToolCalls] with the tool's own program for [fn] *)
Fixpoint guarded {A} (p : prog ToolCalls.cmd A) (fn : P string) : P A :=
  match p with
  | Ret a => Ret a
  | Throw e => Throw e
  | Do c k =>
      match c in ToolCalls.cmd R return (result exc R → P A) → P A with
      | Run_fn => λ k, bind (attempt fn) k
      | Insert_claim id tenant thread_id tool_name => λ k, Do (Ledger (Insert_claim id tenant thread_id tool_name)) k
      | Select_result id => λ k, Do (Ledger (Select_result id)) k
      | Update_result id result => λ k, Do (Ledger (Update_result id result)) k
      | Delete_older hours => λ k, Do (Ledger (Delete_older hours)) k
      end (λ r, guarded (k r) fn)
  end.
Definition idempotently (cf : option config) (ctx : SecurityCtx) (tool_call_id tool_name : string) (fn : P string) : P string :=
  guarded (idempotent tool_call_id (sc_tenant ctx) (cf ≫= cf_thread_id) tool_name) fn.

(** Arguments that the schema refuses; the text of the error is the validator's. *)
Definition not_blank (v : string) : bool := nonempty (strip v).
Definition at_most (n : nat) (v : string) : bool := (String.length v <=? n)%nat.
Definition validated {C : Type → Type} {A} (valid : bool) (body : prog C A) : prog C A := if valid then body else Throw (Exc "ValidationError" "").

(** ** [sandbox_session.py] *)

Record sandbox_settings : Type := mkSandbox {
  MCP_TOOL_OUTPUT_MAX_CHARS : Z;
  SANDBOX_ARG_LIMIT : nat;
  SANDBOX_IMAGE : string;
  SANDBOX_TTL_SECONDS : Z;
}.
Context (sandbox : sandbox_settings).

Definition SANDBOX_TENANT_KEY : string := "agent_core_tenant_sha".
Definition SANDBOX_THREAD_KEY : string := "agent_core_thread_sha".
Definition _TAG_HEX_CHARS : nat := 40.
Definition SANDBOX_CALL_TIMEOUT_SECONDS : Z := 60.
Definition SANDBOX_DEPENDENCY : string := "opensandbox_mcp".
Definition REMOTE_ERROR_PREFIX : string := "Remote tool error:".

Definition SandboxCallFailed (text : string) : exc := Exc "SandboxCallFailed" text.

Definition load_raw_sandbox_tools : P (list string) :=
  cached ← call Cached_catalog;
  if bool_decide (cached = []) then
    names ← call Load_catalog;
    call (Cache_catalog names) ;;
    Ret names
  else Ret cached.

Definition _call_raw_tool (raw : list string) (name : string) (kwargs : list (string * json)) : P (list (string * json)) :=
  if bool_decide (name ∉ raw) then Throw (Exc "KeyError" name) else
  raw_text ← call (Invoke name kwargs);
  if startswith raw_text REMOTE_ERROR_PREFIX then Throw (SandboxCallFailed raw_text) else
  match loads raw_text with
  | None => Throw (SandboxCallFailed (name +:+ " returned an unparseable response: " +:+ take_str 300 raw_text))
  | Some (JObj parsed) => Ret parsed
  | Some _ => Throw (SandboxCallFailed (name +:+ " returned an unexpected shape: " +:+ take_str 300 raw_text))
  end.

Definition _tag_value (raw : string) : string := take_str _TAG_HEX_CHARS (hex (sha256 (encode raw))).

Definition _owner_tags (tenant thread_id : string) : result exc (list (string * json)) :=
  if negb (not_blank tenant) || negb (not_blank thread_id) then
    Err (SandboxCallFailed "refusing to find or create a sandbox without a tenant and a conversation id")
  else Ok [(SANDBOX_TENANT_KEY, JStr (_tag_value tenant)); (SANDBOX_THREAD_KEY, JStr (_tag_value thread_id))].

(** [x or default] of what a dict has under a key, and [x.get] *)
Definition or_else (d : json) (k : string) (l : list (string * json)) : json :=
  if truthy (dict_get k l) then default JNull (dict_get k l) else d.
Definition as_dict (j : json) : result exc (list (string * json)) :=
  match j with JObj l => Ok l | _ => Err (Exc "AttributeError" "get") end.
(** [for x in j]: a text gives its characters, a dict its keys *)
Definition iterated (j : json) : result exc (list json) :=
  match j with
  | JList l => Ok l
  | JObj l => Ok (JStr <$> l.*1)
  | JStr s => Ok ((λ a, JStr (String a "")) <$> String.list_ascii_of_string s)
  | _ => Err (Exc "TypeError" "not iterable")
  end.

(** The entry whose tags are the owner's *)
Fixpoint owned_by (tags : list (string * json)) (infos : list json) : result exc (option json) :=
  match infos with
  | [] => Ok None
  | info :: infos =>
      rbind (as_dict info) (λ info,
      rbind (as_dict (or_else (JObj []) "metadata" info)) (λ found,
        if forallb (λ '(key, value), bool_decide (default JNull (dict_get key found) = value)) tags then Ok (Some (default JNull (dict_get "id" info)))
        else owned_by tags infos))
  end.

Definition _find_existing_sandbox_id (raw : list string) (tags : list (string * json)) : P (option json) :=
  listed ← catch (l ← _call_raw_tool raw "sandbox_list" [("filter", JObj [("metadata", JObj tags); ("states", JList [JStr "RUNNING"])])]; Ret (Some l))
    (λ e, if String.eqb (exc_class e) "SandboxCallFailed" then Ret None else Throw e);
  match listed with
  | None => Ret None
  | Some l => of_result (rbind (iterated (or_else (JList []) "sandbox_infos" l)) (owned_by tags))
  end.

Definition get_or_create_sandbox_id (raw : list string) (thread_id tenant : string) : P json :=
  tags ← of_result (_owner_tags tenant thread_id);
  existing ← _find_existing_sandbox_id raw tags;
  if truthy existing then Ret (default JNull existing) else
  created ← _call_raw_tool raw "sandbox_create"
    [("image", JStr (SANDBOX_IMAGE sandbox)); ("metadata", JObj tags); ("timeout_seconds", JInt (SANDBOX_TTL_SECONDS sandbox))];
  if truthy (dict_get "sandbox_id" created) then Ret (default JNull (dict_get "sandbox_id" created))
  else Throw (SandboxCallFailed ("sandbox_create did not return a sandbox_id: " +:+ py_repr (JObj created))).

Definition _bounded (text : string) : P string := bound_output (scrub secrets text) (MCP_TOOL_OUTPUT_MAX_CHARS sandbox) SANDBOX_DEPENDENCY.

(** ["".join(m.get("text", "") for m in j)] *)
Fixpoint texts_of (items : list json) : result exc string :=
  match items with
  | [] => Ok ""
  | m :: items =>
      rbind (as_dict m) (λ m,
      match default (JStr "") (dict_get "text" m) with
      | JStr t => rbind (texts_of items) (λ rest, Ok (t +:+ rest))
      | _ => Err (Exc "TypeError" "sequence item: expected str instance")
      end)
  end.
Definition stream_text (name : string) (logs : list (string * json)) : result exc string :=
  rbind (iterated (or_else (JList []) name logs)) texts_of.

Definition _format_execution (execution : list (string * json)) : P string :=
  let exit_code := default JNull (dict_get "exit_code" execution) in
  logs ← of_result (as_dict (or_else (JObj []) "logs" execution));
  out ← of_result (stream_text "stdout" logs);
  stdout ← _bounded out;
  err ← of_result (stream_text "stderr" logs);
  stderr ← _bounded err;
  Ret (join line_feed (["exit code: " +:+ py_str exit_code;
    if nonempty stdout then "stdout:" +:+ line_feed +:+ stdout else "stdout: (empty)"] ++
    if nonempty stderr then ["stderr:" +:+ line_feed +:+ stderr] else [])).

Definition run_command_in_sandbox_impl (command thread_id : string) (raw : list string) (tenant : string) : P string :=
  sandbox_id ← get_or_create_sandbox_id raw thread_id tenant;
  execution ← _call_raw_tool raw "command_run" [("sandbox_id", sandbox_id); ("command", JStr command); ("connect_if_missing", JBool true)];
  _format_execution execution.

Definition _RUN_PYTHON_SCRIPT_PATH : string := "_run_python_in_sandbox.py".

(** [s.endswith(p)], and [s.rstrip("\n")] *)
Definition endswith (s p : string) : bool :=
  (String.length p <=? String.length s)%nat && String.eqb (drop_str (String.length s - String.length p) s) p.
Fixpoint rstrip_lines (s : string) : string :=
  match s with
  | EmptyString => ""
  | String a s => let rest := rstrip_lines s in if Ascii.eqb a "010" && bool_decide (rest = "") then "" else String a rest
  end.

Definition backticks : string := "```".
Definition _strip_markdown_fence (script : string) : string :=
  let stripped := strip script in
  if negb (startswith stripped backticks) then script else
  match find_str stripped line_feed with
  | None => ""
  | Some first_newline =>
      let body := rstrip (drop_str (S first_newline) stripped) in
      if endswith body backticks then rstrip_lines (take_str (String.length body - 3) body) else body
  end.

Definition run_python_in_sandbox_impl (script thread_id : string) (raw : list string) (tenant : string) : P string :=
  let script := _strip_markdown_fence script in
  sandbox_id ← get_or_create_sandbox_id raw thread_id tenant;
  _call_raw_tool raw "file_write"
    [("sandbox_id", sandbox_id); ("path", JStr _RUN_PYTHON_SCRIPT_PATH); ("content", JStr script); ("connect_if_missing", JBool true)] ;;
  execution ← _call_raw_tool raw "command_run"
    [("sandbox_id", sandbox_id); ("command", JStr ("python3 " +:+ _RUN_PYTHON_SCRIPT_PATH)); ("connect_if_missing", JBool true)];
  _format_execution execution.

(** [content] is a text. *)
Definition read_sandbox_file_impl (path thread_id : string) (raw : list string) (tenant : string) : P string :=
  sandbox_id ← get_or_create_sandbox_id raw thread_id tenant;
  result ← _call_raw_tool raw "file_read" [("sandbox_id", sandbox_id); ("path", JStr path); ("connect_if_missing", JBool true)];
  match default (JStr "") (dict_get "content" result) with
  | JStr content => _bounded content
  | _ => Throw (Exc "TypeError" "expected string or bytes-like object")
  end.

Definition write_sandbox_file_impl (path content thread_id : string) (raw : list string) (tenant : string) : P string :=
  sandbox_id ← get_or_create_sandbox_id raw thread_id tenant;
  _call_raw_tool raw "file_write" [("sandbox_id", sandbox_id); ("path", JStr path); ("content", JStr content); ("connect_if_missing", JBool true)] ;;
  Ret ("Wrote " +:+ repr_str path +:+ " to the sandbox.").

(** ** [adapters/notify/team_channel.py] *)

Context (SLACK_WEBHOOK_URL : string).

Definition count_notify (sink outcome : string) : P () := call (Count "agent_team_channel_notify_total" (sink +:+ "," +:+ outcome)).

Definition post_to_team_channel (channel message : string) : P string :=
  now ← call Now;
  let line := "[" +:+ isoformat_auto (DateTime now true) +:+ "] [" +:+ channel +:+ "] " +:+ message in
  catch (call (Append_log (line +:+ line_feed)) ;; count_notify "local" "ok")
    (λ e, if String.eqb (exc_class e) "OSError" then count_notify "local" "error" else Throw e) ;;
  (if nonempty SLACK_WEBHOOK_URL then
     catch_exception (call (Post_slack SLACK_WEBHOOK_URL ("*[" +:+ channel +:+ "]* " +:+ message)) ;; count_notify "slack" "ok")
       (λ _, count_notify "slack" "error")
   else Ret ()) ;;
  Ret ("Posted to " +:+ repr_str channel +:+ ".").

(** ** [adapters/web/serper.py] *)

Context (isinstance : exc → list string → bool).
Context (url_scheme : string → string).       (* [urlparse(link).scheme] *)
Context (SERPER_API_KEY : string) (WEB_SEARCH_MAX_RESULTS : nat).

Record SearchHit : Type := mkHit { title : string; url : string; snippet : string; hit_date : option string }.

Definition _MAX_TITLE_CHARS : nat := 200.
Definition _MAX_SNIPPET_CHARS : nat := 400.

Definition _fail {A} (outcome message : string) : P A :=
  call (Count "agent_web_search_total" outcome) ;; Throw (Exc "SearchFailed" message).

(** [" ".join(s.split())] *)
Definition squeezed (s : string) : string := join " " (Text.split s).
Definition str_of (j : option json) : option string := match j with Some (JStr s) => Some s | _ => None end.

Definition hit_from (item : json) : option SearchHit :=
  match item with
  | JObj l =>
      match str_of (dict_get "title" l), str_of (dict_get "link" l) with
      | Some title, Some link =>
          if bool_decide (url_scheme link ∈ ["http"; "https"]) then
            Some (mkHit (take_str _MAX_TITLE_CHARS (squeezed title)) link
              (match str_of (dict_get "snippet" l) with Some s => take_str _MAX_SNIPPET_CHARS (squeezed s) | None => "" end)
              (str_of (dict_get "date" l)))
          else None
      | _, _ => None
      end
  | _ => None
  end.

Definition _hits_from (data : json) : option (list SearchHit) :=
  match data with
  | JObj l => match dict_get "organic" l with Some (JList items) => Some (take WEB_SEARCH_MAX_RESULTS (omap hit_from items)) | _ => None end
  | _ => None
  end.

Definition search_cleaned (key query : string) : P (list SearchHit) :=
  resp ← catch (call (Post_search key query WEB_SEARCH_MAX_RESULTS))
    (λ e, if isinstance e ["CircuitOpenError"] then
            _fail "circuit_open" "Web search is unreachable right now (repeated connection failures). Do not retry it; tell the person it is unavailable."
          else if isinstance e ["HTTPError"] then
            _fail "unavailable" "Web search did not answer in time or could not be reached. Do not retry it; tell the person it is unavailable."
          else Throw e);
  let status := sr_status resp in
  if bool_decide (status = 401 ∨ status = 403)%Z then
    _fail "auth_failed" "The web search provider refused this deployment's API key, so web search is unavailable until an operator fixes it. Do not retry; tell the person it is unavailable."
  else if (status =? 429)%Z then
    _fail "rate_limited" "The web search provider is rate limiting this deployment. Do not retry now; tell the person to try again shortly."
  else if ((400 <=? status) && (status <? 500))%Z then
    _fail "rejected" "The web search provider rejected the request, so web search is unavailable. Do not retry; tell the person it is unavailable."
  else if negb (status =? 200)%Z then
    _fail "unavailable" "The web search provider is having trouble. Do not retry now; tell the person it is unavailable."
  else match _hits_from (default JNull (sr_body resp)) with
       | None => _fail "bad_response" "Web search returned something unreadable. Do not retry; tell the person it is unavailable."
       | Some hits => call (Count "agent_web_search_total" (if bool_decide (hits = []) then "no_results" else "ok")) ;; Ret hits
       end.

Definition search_web (query : string) : P (list SearchHit) :=
  let cleaned := squeezed query in
  if negb (nonempty cleaned) then _fail "blank_query" "A web search needs some words to search for." else
  if negb (nonempty SERPER_API_KEY) then
    call (Count "agent_web_search_total" "not_configured") ;;
    Throw (Exc "SearchNotConfigured"
      "Web search is not set up on this deployment (no search API key is configured), so it cannot be used. Do not retry; tell the person web search is not available here.")
  else search_cleaned SERPER_API_KEY cleaned.

(** ** [ingestion/web_crawler.py] *)

Context (urlparse : string → result exc (string * option string)) (ip_address : address → result exc Ip.ip) (ip_text : Ip.ip → string).

Definition CRAWL_RENDER_TIMEOUT_SECONDS : Z := 30.
Definition CRAWL_TOOL_TIMEOUT_SECONDS : Z := CRAWL_RENDER_TIMEOUT_SECONDS + 10.
Definition _MAX_MARKDOWN_CHARS : nat := 20000.

Definition CrawlFailed (text : string) : exc := Exc "CrawlFailed" text.

(** [s.strip().splitlines()[0]]: the first line of a text that has one; lines end at a line feed, a
    carriage return and at what else Python takes for the end of a line. *)
Definition line_end (a : ascii) : bool := let n := N_of_ascii a in ((10 <=? n) && (n <=? 13) || (28 <=? n) && (n <=? 30) || (n =? 133))%N.
Definition first_line (s : string) : result exc string :=
  match strip s with
  | EmptyString => Err (Exc "IndexError" "list index out of range")
  | s => Ok (span (λ a, negb (line_end a)) s).1
  end.

Definition _crawl (url : string) : P string :=
  result ← catch (call (Crawl url))
    (λ e, if isinstance e ["Crawl4aiConnectionError"; "Crawl4aiRequestError"] then
            Throw (CrawlFailed ("could not reach the crawl4ai server for " +:+ url +:+ ": " +:+ exc_text e))
          else if isinstance e ["CircuitOpenError"] then Throw (CrawlFailed (exc_text e)) else Throw e);
  if negb (cr_success result) then
    line ← of_result (first_line (if nonempty (default "" (cr_error_message result)) then default "" (cr_error_message result) else "unknown error"));
    Throw (CrawlFailed ("could not render " +:+ url +:+ ": " +:+ line))
  else Ret (default "" (cr_markdown result)).

Definition render_url_to_markdown (url : string) : P string :=
  docs (assert_safe_url_async isinstance urlparse ip_address ip_text url) ;;
  text ← _crawl url;
  Ret (if (_MAX_MARKDOWN_CHARS <? String.length text)%nat
       then take_str _MAX_MARKDOWN_CHARS text +:+ blank_line +:+ "[truncated: page content exceeds the fetch limit]" else text).

(** ** [domains/web_search.py] *)

Definition ACTION : string := "web_search".
Definition _MAX_QUERY_CHARS : nat := 300.
Definition NO_RESULTS : string := "The search ran and found no web results. Try different keywords, or tell the person you found nothing.".

(** [_BRACKET_NUMBER.sub]: numbers in square brackets come in round ones. *)
Fixpoint defused_go (fuel : nat) (s : string) : string :=
  match fuel, s with
  | S fuel, String a rest =>
      match bracket_number s with
      | Some (digits, rest) => "(" +:+ digits +:+ ")" +:+ defused_go fuel rest
      | None => String a (defused_go fuel rest)
      end
  | _, _ => ""
  end.
Definition defused (s : string) : string := defused_go (String.length s) s.

Definition hit_lines (hit : SearchHit) : string :=
  join line_feed (["- " +:+ title hit;
    "  " +:+ url hit +:+ if nonempty (default "" (hit_date hit)) then " (" +:+ default "" (hit_date hit) +:+ ")" else ""] ++
    if nonempty (snippet hit) then ["  " +:+ snippet hit] else []).
Definition format_hits (hits : list SearchHit) : string := defused (join line_feed (hit_lines <$> hits)).

Definition _web_search_impl (query : string) : P string :=
  hits ← catch (hits ← search_web query; Ret (inr hits))
    (λ e, if String.eqb (exc_class e) "SearchNotConfigured" then Ret (inl (exc_text e)) else Throw e);
  match hits with
  | inl answer => Ret answer
  | inr hits => if bool_decide (hits = []) then Ret NO_RESULTS else Ret (frame_untrusted (format_hits hits))
  end.

(** The tool of a domain whose policy is [permit] *)
Definition make_web_search_tool (permit : string → option SecurityCtx → bool) (query : string) (cf : option config) (tool_call_id : string) : P string :=
  validated (not_blank query && at_most _MAX_QUERY_CHARS query)
    (match ctx_or_refuse permit cf ACTION with
     | None => Ret NO_CTX_REFUSAL
     | Some ctx => idempotently cf ctx tool_call_id ACTION (arun_with_timeout (_web_search_impl query) None)
     end).

(** ** [domains/policy.py] *)

Definition ActionAllowlistPolicy (actions : list string) (action : string) (ctx : option SecurityCtx) : bool :=
  bool_decide (action ∈ actions) && valid_ctx ctx.

(** ** What the tools of the sandbox share *)

Definition _raw_sandbox_tools_or_raise : P (list string) :=
  raw ← load_raw_sandbox_tools;
  if bool_decide (raw = []) then
    Throw (SandboxCallFailed "OpenSandbox is not reachable right now (opensandbox-mcp/opensandbox-server may still be starting, or the sandbox profile isn't running) — try again in a moment.")
  else Ret raw.

Definition _thread_id_from_config (cf : option config) : string := default "unknown" (cf ≫= cf_thread_id).
End runtime.
