(* ===== verification/DomainTools.v ===== *)
(** The tools of the four domains: [app/domains/ecorp/], [support/], [ops/] and [sales/].

    A tool takes its arguments, the config of the run and, where it changes something, the id of the
    tool call.  What the pages and the documentation of a tool tell the model is not modelled; what the
    schema refuses is, but for the text of the refusal. *)
From Stdlib Require Import Ascii SpecFloat.
From S2P Require Import Prelude Decimals Dict Json Messages AgentState Process Wire Calendar Identity Retrieval ToolCalls Stores Ingestion AgentNode Text ToolRuntime.

Local Open Scope string_scope.
Local Open Scope list_scope.

(** [str(dt)] of a time in UTC, and of a day *)
Definition dt_str (us : Z) : string :=
  let s := isoformat_auto (DateTime us true) in take_str 10 s +:+ " " +:+ drop_str 11 s.
Definition day_str (us : Z) : string := take_str 10 (isoformat_auto (DateTime us true)).

(** [format(x, ".<digits>g")] *)
Section fmt_g.
(** A float above zero as a ratio *)
Definition ratio_of (m : positive) (e : Z) : Z * Z := if (0 <=? e)%Z then (Z.pos m * 2 ^ e, 1)%Z else (Z.pos m, 2 ^ (- e))%Z.
(** [n / d] times [10 ^ k], to the nearest integer and to the even one of two *)
Definition scaled_round (n d k : Z) : Z :=
  let '(n, d) := if (0 <=? k)%Z then (n * 10 ^ k, d)%Z else (n, d * 10 ^ (- k))%Z in
  let q := (n / d)%Z in
  let r := (2 * (n - q * d))%Z in
  if (r <? d)%Z then q else if (d <? r)%Z then (q + 1)%Z else if Z.even q then q else (q + 1)%Z.
(** [d.ddd] of [digits] digits without the zeros that end it *)
Fixpoint rstrip_zeros (s : string) : string :=
  match s with EmptyString => "" | String a s => let t := rstrip_zeros s in if Ascii.eqb a "0" && bool_decide (t = "") then "" else String a t end.
Definition pointed (whole part : string) : string := let part := rstrip_zeros part in if nonempty part then whole +:+ "." +:+ part else whole.
Definition power_text (x : Z) : string := (if (x <? 0)%Z then "-" else "+") +:+ (if (Z.abs x <? 10)%Z then "0" else "") +:+ dump_int (Z.abs x).

Definition fmt_positive (digits : Z) (m : positive) (e : Z) : string :=
  let '(n, d) := ratio_of m e in
  (* the place of the first digit, at most one off before it is rounded *)
  let guess := ((Z.log2 n - Z.log2 d) * 30103 / 100000)%Z in
  let place := (if d * 10 ^ Z.max 0 (guess + 1) <=? n * 10 ^ Z.max 0 (- (guess + 1)) then guess + 1
                else if d * 10 ^ Z.max 0 guess <=? n * 10 ^ Z.max 0 (- guess) then guess else guess - 1)%Z in
  let q := scaled_round n d (digits - 1 - place) in
  let '(q, place) := if (10 ^ digits <=? q)%Z then (q / 10, place + 1)%Z else (q, place) in
  let text := dump_int q in
  if ((-4 <=? place) && (place <? digits))%Z then
    if (0 <=? place)%Z then pointed (take_str (Z.to_nat (place + 1)) text) (drop_str (Z.to_nat (place + 1)) text)
    else pointed "0" (String.concat "" (replicate (Z.to_nat (- place - 1)) "0") +:+ text)
  else pointed (take_str 1 text) (drop_str 1 text) +:+ "e" +:+ power_text place.

Definition fmt_g (digits : Z) (x : float) : string :=
  match x with
  | S754_zero s => if s then "-0" else "0"
  | S754_infinity s => if s then "-inf" else "inf"
  | S754_nan => "nan"
  | S754_finite s m e => (if s then "-" else "") +:+ fmt_positive digits m e
  end.

Example fmt_g_examples : fmt_g 3 <$> [float_ratio 5 2; float_of_int 30; float_ratio 123456 3; float_of_int 1234567; float_ratio 12345 9; float_ratio 99999 5] =
  ["0.05"; "30"; "123"; "1.23e+06"; "1.23e-05"; "1"].
Proof. vm_compute. reflexivity. Qed.
End fmt_g.

(** ** What the tools run on *)

Record deployment (address : Type) : Type := mkDeployment {
  dp_secrets : secret_settings;
  dp_sandbox : sandbox_settings;
  dp_slack_webhook_url : string;
  dp_isinstance : exc → list string → bool;
  dp_url_scheme : string → string;
  dp_serper_api_key : string;
  dp_web_search_max_results : nat;
  dp_urlparse : string → result exc (string * option string);
  dp_ip_address : address → result exc Ip.ip;
  dp_ip_text : Ip.ip → string;
  dp_store : store_settings;
  dp_uuid5 : string → string;
  dp_name_le : string → string → bool;
}.
Arguments dp_secrets {address} _.
Arguments dp_sandbox {address} _.
Arguments dp_slack_webhook_url {address} _.
Arguments dp_isinstance {address} _.
Arguments dp_url_scheme {address} _.
Arguments dp_serper_api_key {address} _.
Arguments dp_web_search_max_results {address} _.
Arguments dp_urlparse {address} _.
Arguments dp_ip_address {address} _.
Arguments dp_ip_text {address} _.
Arguments dp_store {address} _.
Arguments dp_uuid5 {address} _.
Arguments dp_name_le {address} _.

Section shared.
Context {address : Type} (D : deployment address).
Abbreviation P := (prog (cmd address)).
Local Open Scope prog_scope.

Definition timed (body : P string) (timeout : option Z) : P string := arun_with_timeout (dp_secrets D) body timeout.
Definition render (url : string) : P string :=
  render_url_to_markdown (dp_isinstance D) (dp_urlparse D) (dp_ip_address D) (dp_ip_text D) url.
Definition post (channel message : string) : P string := post_to_team_channel (dp_slack_webhook_url D) channel message.
Definition sandbox_arg (v : string) : bool := at_most (SANDBOX_ARG_LIMIT (dp_sandbox D)) v.
Definition search_tool (permit : string → option SecurityCtx → bool) (query : string) (cf : option config) (tool_call_id : string) : P string :=
  make_web_search_tool (dp_secrets D) (dp_isinstance D) (dp_url_scheme D) (dp_serper_api_key D) (dp_web_search_max_results D) permit query cf tool_call_id.

(** A tool that only reads, and a tool that acts: it does not repeat what it did under the same call. *)
Definition reading (permit : string → option SecurityCtx → bool) (cf : option config) (action : string) (body : SecurityCtx → P string) : P string :=
  match ctx_or_refuse permit cf action with
  | None => Ret NO_CTX_REFUSAL
  | Some ctx => timed (body ctx) None
  end.
Definition acting (permit : string → option SecurityCtx → bool) (cf : option config) (action tool_call_id tool_name : string)
    (timeout : option Z) (body : SecurityCtx → P string) : P string :=
  match ctx_or_refuse permit cf action with
  | None => Ret NO_CTX_REFUSAL
  | Some ctx => idempotently cf ctx tool_call_id tool_name (timed (body ctx) timeout)
  end.

(** The page is data of a stranger. *)
Definition read_page (url : string) : P string := page ← render url; Ret (frame_untrusted page).

(** [Impl(..., await _raw_sandbox_tools_or_raise(), tenant=ctx["tenant"])] of the four sandbox tools *)
Definition _run_command_in_sandbox_impl (command thread_id : string) (ctx : SecurityCtx) : P string :=
  raw ← _raw_sandbox_tools_or_raise; run_command_in_sandbox_impl (dp_secrets D) (dp_sandbox D) command thread_id raw (sc_tenant ctx).
Definition _run_python_in_sandbox_impl (script thread_id : string) (ctx : SecurityCtx) : P string :=
  raw ← _raw_sandbox_tools_or_raise; run_python_in_sandbox_impl (dp_secrets D) (dp_sandbox D) script thread_id raw (sc_tenant ctx).
Definition _read_sandbox_file_impl (path thread_id : string) (ctx : SecurityCtx) : P string :=
  raw ← _raw_sandbox_tools_or_raise; read_sandbox_file_impl (dp_secrets D) (dp_sandbox D) path thread_id raw (sc_tenant ctx).
Definition _write_sandbox_file_impl (path content thread_id : string) (ctx : SecurityCtx) : P string :=
  raw ← _raw_sandbox_tools_or_raise; write_sandbox_file_impl (dp_sandbox D) path content thread_id raw (sc_tenant ctx).

(** The four tools, which each of three domains defines over its own policy *)
Inductive sandbox_call : Type :=
| Run_command_in_sandbox (command : string)
| Run_python_in_sandbox (script : string)
| Read_sandbox_file (path : string)
| Write_sandbox_file (path content : string).

Definition sandbox_tool (permit : string → option SecurityCtx → bool) (c : sandbox_call) (cf : option config) (tool_call_id : string) : P string :=
  let run name body := acting permit cf name tool_call_id name (Some SANDBOX_CALL_TIMEOUT_SECONDS) (body (_thread_id_from_config cf)) in
  match c with
  | Run_command_in_sandbox command =>
      validated (sandbox_arg command && not_blank command) (run "run_command_in_sandbox" (_run_command_in_sandbox_impl command))
  | Run_python_in_sandbox script =>
      validated (sandbox_arg script && not_blank script) (run "run_python_in_sandbox" (_run_python_in_sandbox_impl script))
  | Read_sandbox_file path => validated (sandbox_arg path) (run "read_sandbox_file" (_read_sandbox_file_impl path))
  | Write_sandbox_file path content =>
      validated (sandbox_arg path && sandbox_arg content) (run "write_sandbox_file" (_write_sandbox_file_impl path content))
  end.
Definition sandbox_names : list string := ["run_command_in_sandbox"; "run_python_in_sandbox"; "read_sandbox_file"; "write_sandbox_file"].
End shared.

(** ** Ecorp *)

Module Ecorp.
Section tools.
Context {address : Type} (D : deployment address).
Abbreviation P := (prog (cmd address)).
Local Open Scope prog_scope.

Definition MAX_NOTE_TITLE_CHARS : nat := 200.
Definition MAX_NOTE_CONTENT_CHARS : nat := 4000.
Definition MAX_MEMORY_CONTENT_CHARS : nat := 2000.

Inductive Topic : Type := Tlanggraph | Tqdrant | Tcompany.
Definition topic_value (t : Topic) : string := match t with Tlanggraph => "langgraph" | Tqdrant => "qdrant" | Tcompany => "company" end.
Inductive Department : Type := Dengineering | Dsupport | Dsales.
Definition department_value (d : Department) : string := match d with Dengineering => "Engineering" | Dsupport => "Support" | Dsales => "Sales" end.

Definition tool_call_point_id (tool_call_id : string) : string := dp_uuid5 D tool_call_id.

Definition retrieval {A} (p : prog Retrieval.cmd A) : P A := docs (vectors p).

Definition sparse_vector_or_none (text : string) : P (option sparse) :=
  catch_exception (v ← retrieval (embed_sparse text); Ret (Some v)) (λ _, Ret None).

Definition store_add_note (point_id title content topic tenant : string) : P () :=
  let text := title +:+ ": " +:+ content in
  dense ← retrieval (embed_document (dp_store D) text);
  sparse ← sparse_vector_or_none text;
  retrieval (upsert (dp_store D) [build_point point_id dense
    [("text", JStr text); ("topic", JStr topic); ("title", JStr title); ("kind", JStr "document"); ("tenant", JStr tenant)] sparse] None).

Definition store_add_memory (point_id content tenant owner : string) (created_at : Z) : P () :=
  dense ← retrieval (embed_document (dp_store D) content);
  sparse ← sparse_vector_or_none content;
  retrieval (upsert (dp_store D) [build_point point_id dense
    [("text", JStr content); ("kind", JStr "memory"); ("tenant", JStr tenant); ("owner", JStr owner);
     ("created_at", JStr (isoformat_auto (DateTime created_at true)))] sparse] None).

Definition add_note_impl (title content : string) (topic : Topic) (ctx : SecurityCtx) (tool_call_id : string) : P string :=
  store_add_note (tool_call_point_id tool_call_id) title content (topic_value topic) (sc_tenant ctx) ;;
  Ret ("Note '" +:+ title +:+ "' added to the " +:+ topic_value topic +:+ " knowledge base.").

Definition remember_impl (content : string) (ctx : SecurityCtx) (tool_call_id : string) : P string :=
  now ← call Now;
  store_add_memory (tool_call_point_id tool_call_id) content (sc_tenant ctx) (sc_principal ctx) now ;;
  Ret "Remembered.".

Definition EMPLOYEES_CAP : nat := 20.

Definition employee_line (e : employee) : string :=
  "- " +:+ em_name e +:+ " — " +:+ em_title e +:+ ", " +:+ em_department e +:+ " (hired " +:+ day_str (days (em_hired_on e)) +:+ ")".
Definition query_employees_impl (department : option Department) (name_contains : option string) (ctx : SecurityCtx) : P string :=
  rows ← store (Stores.query_employees (dp_name_le D) (sc_tenant ctx) (department_value <$> department) name_contains (Some (S EMPLOYEES_CAP)));
  if bool_decide (rows = []) then Ret "No matching employees found." else
  Ret (join line_feed ((employee_line <$> take EMPLOYEES_CAP rows) ++
    if (EMPLOYEES_CAP <? length rows)%nat
    then ["[truncated: showing the first " +:+ dump_int (Z.of_nat EMPLOYEES_CAP) +:+ " matches; more exist]"] else [])).

Definition add_note (title content : string) (topic : Topic) (cf : option config) (tool_call_id : string) : P string :=
  validated (not_blank title && not_blank content && at_most MAX_NOTE_TITLE_CHARS title && at_most MAX_NOTE_CONTENT_CHARS content)
    (acting D permit cf "write_note" tool_call_id "add_note" None (λ ctx, add_note_impl title content topic ctx tool_call_id)).

Definition remember (content : string) (cf : option config) (tool_call_id : string) : P string :=
  validated (not_blank content && at_most MAX_MEMORY_CONTENT_CHARS content)
    (acting D permit cf "write_memory" tool_call_id "remember" None (λ ctx, remember_impl content ctx tool_call_id)).

Definition query_employees (department : option Department) (name_contains : option string) (cf : option config) : P string :=
  reading D permit cf "query_structured_data" (query_employees_impl department name_contains).

(** A call of a tool of the domain, as [ToolNode] makes it *)
Inductive tool_call : Type :=
| Add_note (title content : string) (topic : Topic)
| Remember (content : string)
| Query_employees (department : option Department) (name_contains : option string).
Definition TOOLS (c : tool_call) (cf : option config) (tool_call_id : string) : P string :=
  match c with
  | Add_note title content topic => add_note title content topic cf tool_call_id
  | Remember content => remember content cf tool_call_id
  | Query_employees department name_contains => query_employees department name_contains cf
  end.

Definition TOOL_CAPABILITIES : list (string * string) := [("query_employees", "read_only"); ("add_note", "mutating"); ("remember", "mutating")].
End tools.
End Ecorp.

(** ** Support *)

Module Support.
Section tools.
Context {address : Type} (D : deployment address).
Abbreviation P := (prog (cmd address)).
Local Open Scope prog_scope.

Definition SUPPORT_POLICY : list string := [
  "create_ticket"; "check_ticket_status"; "escalate_to_human"; "list_my_tickets"; "add_ticket_comment"; "fetch_external_reference"; "web_search";
  "run_command_in_sandbox"; "run_python_in_sandbox"; "read_sandbox_file"; "write_sandbox_file"].
Definition permit : string → option SecurityCtx → bool := ActionAllowlistPolicy SUPPORT_POLICY.

Inductive TicketPriority : Type := Low | Normal | High | Urgent.
Definition priority_value (p : TicketPriority) : string :=
  match p with Low => "low" | Normal => "normal" | High => "high" | Urgent => "urgent" end.

Definition _create_ticket_impl (subject description : string) (priority : TicketPriority) (ctx : SecurityCtx) (tool_call_id : string) : P string :=
  ticket_id ← store (Stores.create_ticket (sc_tenant ctx) (sc_principal ctx) subject description (priority_value priority) (Some tool_call_id));
  Ret ("Ticket #" +:+ dump_int ticket_id +:+ " opened (" +:+ priority_value priority +:+ " priority): " +:+ subject).
Definition create_ticket (subject description : string) (priority : TicketPriority) (cf : option config) (tool_call_id : string) : P string :=
  validated (not_blank subject && not_blank description)
    (acting D permit cf "create_ticket" tool_call_id "create_ticket" None (λ ctx, _create_ticket_impl subject description priority ctx tool_call_id)).

Definition status_line (t : ticket) : string :=
  "#" +:+ dump_int (tk_id t) +:+ " — " +:+ tk_status t +:+ " (" +:+ tk_priority t +:+ " priority): " +:+ tk_subject t.
Definition _check_ticket_status_impl (ticket_id : Z) (ctx : SecurityCtx) : P string :=
  ticket ← store (Stores.get_ticket (sc_tenant ctx) ticket_id);
  match ticket with
  | None => Ret ("No ticket #" +:+ dump_int ticket_id +:+ " found.")
  | Some (t, notes) =>
      let reason := default "" (tk_escalation_reason t) in
      let notes := default "" notes in
      Ret ("Ticket " +:+ status_line t +:+
        (if nonempty reason then line_feed +:+ "Escalated: " +:+ reason else "") +:+
        (if nonempty notes then line_feed +:+ "Follow-up notes:" +:+ line_feed +:+ notes else ""))
  end.
Definition check_ticket_status (ticket_id : Z) (cf : option config) : P string :=
  reading D permit cf "check_ticket_status" (_check_ticket_status_impl ticket_id).

Definition _escalate_to_human_impl (ticket_id : Z) (reason : string) (ctx : SecurityCtx) : P string :=
  updated ← store (Stores.escalate_ticket (sc_tenant ctx) ticket_id reason);
  if negb updated then Ret ("No ticket #" +:+ dump_int ticket_id +:+ " found to escalate.") else
  post D "support-escalations" ("[" +:+ sc_tenant ctx +:+ "] Ticket #" +:+ dump_int ticket_id +:+ " escalated by " +:+ sc_principal ctx +:+ ": " +:+ reason) ;;
  Ret ("Ticket #" +:+ dump_int ticket_id +:+ " escalated to a human agent: " +:+ reason).
Definition escalate_to_human (ticket_id : Z) (reason : string) (cf : option config) (tool_call_id : string) : P string :=
  validated (not_blank reason)
    (acting D permit cf "escalate_to_human" tool_call_id "escalate_to_human" None (_escalate_to_human_impl ticket_id reason)).

(** The default of [limit] of [list_tickets_for_requester] *)
Definition TICKETS_LIMIT : nat := 10.
Definition _list_my_tickets_impl (ctx : SecurityCtx) : P string :=
  tickets ← store (Stores.list_tickets_for_requester (sc_tenant ctx) (sc_principal ctx) TICKETS_LIMIT);
  if bool_decide (tickets = []) then Ret "You have no support tickets on file."
  else Ret (join line_feed ((λ t, "- " +:+ status_line t) <$> tickets)).
Definition list_my_tickets (cf : option config) : P string := reading D permit cf "list_my_tickets" _list_my_tickets_impl.

Definition _add_ticket_comment_impl (ticket_id : Z) (comment : string) (ctx : SecurityCtx) (tool_call_id : string) : P string :=
  updated ← store (Stores.add_comment (sc_tenant ctx) ticket_id comment (Some tool_call_id));
  if negb updated then Ret ("No ticket #" +:+ dump_int ticket_id +:+ " found to add a comment to.")
  else Ret ("Added your follow-up to ticket #" +:+ dump_int ticket_id +:+ ".").
Definition add_ticket_comment (ticket_id : Z) (comment : string) (cf : option config) (tool_call_id : string) : P string :=
  validated (not_blank comment)
    (acting D permit cf "add_ticket_comment" tool_call_id "add_ticket_comment" None (λ ctx, _add_ticket_comment_impl ticket_id comment ctx tool_call_id)).

Definition fetch_external_reference (url : string) (cf : option config) (tool_call_id : string) : P string :=
  acting D permit cf "fetch_external_reference" tool_call_id "fetch_external_reference" (Some CRAWL_TOOL_TIMEOUT_SECONDS) (λ _, read_page D url).

Inductive tool_call : Type :=
| Create_ticket (subject description : string) (priority : TicketPriority)
| Check_ticket_status (ticket_id : Z)
| Escalate_to_human (ticket_id : Z) (reason : string)
| List_my_tickets
| Add_ticket_comment (ticket_id : Z) (comment : string)
| Fetch_external_reference (url : string)
| In_sandbox (c : sandbox_call)
| Web_search (query : string).
Definition TOOLS (c : tool_call) (cf : option config) (tool_call_id : string) : P string :=
  match c with
  | Create_ticket subject description priority => create_ticket subject description priority cf tool_call_id
  | Check_ticket_status ticket_id => check_ticket_status ticket_id cf
  | Escalate_to_human ticket_id reason => escalate_to_human ticket_id reason cf tool_call_id
  | List_my_tickets => list_my_tickets cf
  | Add_ticket_comment ticket_id comment => add_ticket_comment ticket_id comment cf tool_call_id
  | Fetch_external_reference url => fetch_external_reference url cf tool_call_id
  | In_sandbox c => sandbox_tool D permit c cf tool_call_id
  | Web_search query => search_tool D permit query cf tool_call_id
  end.

Definition TOOL_CAPABILITIES : list (string * string) :=
  [("create_ticket", "mutating"); ("check_ticket_status", "read_only"); ("escalate_to_human", "mutating"); ("list_my_tickets", "read_only");
   ("add_ticket_comment", "mutating"); ("fetch_external_reference", "outward"); ("web_search", "outward")] ++ ((λ n, (n, "outward")) <$> sandbox_names).
End tools.
End Support.

(** ** Operations *)

Module Ops.

(** *** [metric_checks.py] *)

Record MetricCheck : Type := mkCheck { name : string; description : string; threshold : float }.
Definition quoted (s : string) : string := String "034"%char s +:+ String "034"%char "".
Definition CHECKS : list MetricCheck := [
  mkCheck "turn_error_rate" ("Fraction of agent turns ending in outcome=" +:+ quoted "error" +:+ " (5m)") (float_ratio 5 2);
  mkCheck "p95_latency_seconds" "p95 end-to-end turn latency (5m)" (float_of_int 30);
  mkCheck "tool_error_rate" "Fraction of tool calls that errored (10m)" (float_ratio 1 1);
  mkCheck "moderation_block_rate" "Blocked (moderation) inputs per second (5m)" (float_ratio 5 1);
  mkCheck "rate_limit_rejections_per_sec" "Payment-webhook rate-limit rejections per second (5m)" (float_of_int 1);
  mkCheck "retrieval_degraded_rate" "Hybrid retrieval degradation events per second (15m)" (float_of_int 0);
  mkCheck "checkpoint_issues_15m" "Refused/lost checkpoint resumes in the last 15m" (float_of_int 0)].

(** [by_name.get(name)]: the names are distinct. *)
Definition by_name (n : string) : option MetricCheck := head (filter (λ c, name c = n) CHECKS).

(** [value > threshold]: nothing is above, or below, a number that is none. *)
Definition above (x y : float) : bool := SFltb y x.

Definition anomaly (reading : string * option float) : option string :=
  match by_name reading.1, reading.2 with
  | Some check, Some value =>
      if above value (threshold check) then Some (description check +:+ ": " +:+ fmt_g 3 value +:+ " (threshold " +:+ fmt_g 6 (threshold check) +:+ ")") else None
  | _, _ => None
  end.
Definition detect_anomalies (readings : list (string * option float)) : list string := omap anomaly readings.

Definition reading_line (reading : string * option float) : string :=
  let label := match by_name reading.1 with Some check => description check | None => reading.1 end in
  "- " +:+ label +:+ ": " +:+ match reading.2 with Some value => fmt_g 3 value | None => "unknown (query failed or no data)" end.
Definition format_readings (readings : list (string * option float)) : string := join line_feed (reading_line <$> readings).

(** *** The tools *)

Section tools.
Context {address : Type} (D : deployment address).
Abbreviation P := (prog (cmd address)).
Local Open Scope prog_scope.

Definition OPS_POLICY : list string := [
  "fetch_metrics"; "post_to_channel"; "log_incident"; "list_recent_incidents"; "resolve_incident"; "check_vendor_status"; "web_search";
  "run_command_in_sandbox"; "run_python_in_sandbox"; "read_sandbox_file"; "write_sandbox_file"].
Definition permit : string → option SecurityCtx → bool := ActionAllowlistPolicy OPS_POLICY.

Definition fetch_metrics_summary_impl : P string :=
  readings ← call Fetch_readings;
  let anomalies := detect_anomalies readings in
  Ret (join line_feed (format_readings readings ::
    if bool_decide (anomalies = []) then [line_feed +:+ "No anomalies — every metric is within its normal range."]
    else (line_feed +:+ "Anomalies (past an alert-matching threshold):") :: ((λ a, "- " +:+ a) <$> anomalies))).
Definition fetch_metrics_summary (cf : option config) : P string := reading D permit cf "fetch_metrics" (λ _, fetch_metrics_summary_impl).

Definition post_to_team_channel (channel message : string) (cf : option config) (tool_call_id : string) : P string :=
  validated (not_blank channel && not_blank message)
    (acting D permit cf "post_to_channel" tool_call_id "post_to_team_channel" None (λ _, post D channel message)).

Definition _log_incident_impl (summary : string) (detail : option string) (ctx : SecurityCtx) (tool_call_id : string) : P string :=
  incident_id ← store (Stores.log_incident (sc_principal ctx) summary detail (Some tool_call_id));
  Ret ("Incident #" +:+ dump_int incident_id +:+ " logged: " +:+ summary).
Definition log_incident (summary : string) (detail : option string) (cf : option config) (tool_call_id : string) : P string :=
  validated (not_blank summary)
    (acting D permit cf "log_incident" tool_call_id "log_incident" None (λ ctx, _log_incident_impl summary detail ctx tool_call_id)).

(** The default of [limit] of the store's [list_recent_incidents] *)
Definition INCIDENTS_LIMIT : nat := 10.
Definition incident_line (i : incident) : string :=
  "- #" +:+ dump_int (in_id i) +:+ " [" +:+ in_status i +:+ "] " +:+ in_summary i +:+ " (opened by " +:+ in_opened_by i +:+ ", " +:+ dt_str (in_created_at i) +:+ ")".
Definition list_recent_incidents_impl (status : option string) : P string :=
  incidents ← store (Stores.list_recent_incidents INCIDENTS_LIMIT status);
  if bool_decide (incidents = []) then Ret "No incidents on record." else Ret (join line_feed (incident_line <$> incidents)).
Definition list_recent_incidents (status : option string) (cf : option config) : P string :=
  reading D permit cf "list_recent_incidents" (λ _, list_recent_incidents_impl status).

Definition _resolve_incident_impl (incident_id : Z) (resolution : string) (ctx : SecurityCtx) : P string :=
  updated ← store (Stores.resolve_incident incident_id resolution);
  if negb updated then Ret ("No incident #" +:+ dump_int incident_id +:+ " found to resolve.")
  else Ret ("Incident #" +:+ dump_int incident_id +:+ " resolved: " +:+ resolution).
Definition resolve_incident (incident_id : Z) (resolution : string) (cf : option config) (tool_call_id : string) : P string :=
  validated (not_blank resolution)
    (acting D permit cf "resolve_incident" tool_call_id "resolve_incident" None (_resolve_incident_impl incident_id resolution)).

Definition check_vendor_status_page (url : string) (cf : option config) (tool_call_id : string) : P string :=
  acting D permit cf "check_vendor_status" tool_call_id "check_vendor_status_page" (Some CRAWL_TOOL_TIMEOUT_SECONDS) (λ _, read_page D url).

Inductive tool_call : Type :=
| Fetch_metrics_summary
| Post_to_team_channel (channel message : string)
| Log_incident (summary : string) (detail : option string)
| List_recent_incidents (status : option string)
| Resolve_incident (incident_id : Z) (resolution : string)
| Check_vendor_status_page (url : string)
| In_sandbox (c : sandbox_call)
| Web_search (query : string).
Definition TOOLS (c : tool_call) (cf : option config) (tool_call_id : string) : P string :=
  match c with
  | Fetch_metrics_summary => fetch_metrics_summary cf
  | Post_to_team_channel channel message => post_to_team_channel channel message cf tool_call_id
  | Log_incident summary detail => log_incident summary detail cf tool_call_id
  | List_recent_incidents status => list_recent_incidents status cf
  | Resolve_incident incident_id resolution => resolve_incident incident_id resolution cf tool_call_id
  | Check_vendor_status_page url => check_vendor_status_page url cf tool_call_id
  | In_sandbox c => sandbox_tool D permit c cf tool_call_id
  | Web_search query => search_tool D permit query cf tool_call_id
  end.

Definition TOOL_CAPABILITIES : list (string * string) :=
  [("fetch_metrics_summary", "read_only"); ("post_to_team_channel", "outward"); ("log_incident", "mutating"); ("list_recent_incidents", "read_only");
   ("resolve_incident", "mutating"); ("check_vendor_status_page", "outward"); ("web_search", "outward")] ++ ((λ n, (n, "outward")) <$> sandbox_names).
End tools.
End Ops.

(** ** Sales *)

Module Sales.
Section tools.
Context {address : Type} (D : deployment address).
Abbreviation P := (prog (cmd address)).
Local Open Scope prog_scope.

Definition SALES_POLICY : list string := [
  "log_lead_interaction"; "schedule_followup"; "package_lead_brief"; "handoff_to_human"; "list_pending_followups"; "mark_lead_lost"; "enrich_lead"; "web_search";
  "run_command_in_sandbox"; "run_python_in_sandbox"; "read_sandbox_file"; "write_sandbox_file"].
Definition permit : string → option SecurityCtx → bool := ActionAllowlistPolicy SALES_POLICY.

Definition _log_lead_interaction_impl (name contact notes : string) (ctx : SecurityCtx) (tool_call_id : string) : P string :=
  lead_id ← store (Stores.find_or_create_lead (sc_tenant ctx) name contact notes (Some tool_call_id));
  Ret ("Logged interaction for lead #" +:+ dump_int lead_id +:+ " (" +:+ name +:+ ", " +:+ contact +:+ ").").
Definition log_lead_interaction (name contact notes : string) (cf : option config) (tool_call_id : string) : P string :=
  validated (not_blank name && not_blank contact && not_blank notes)
    (acting D permit cf "log_lead_interaction" tool_call_id "log_lead_interaction" None (λ ctx, _log_lead_interaction_impl name contact notes ctx tool_call_id)).

Definition no_lead (contact rest : string) : string := "No lead found for contact " +:+ repr_str contact +:+ rest.
Definition LOG_FIRST : string := " — log an interaction with them first.".

Definition _schedule_followup_impl (contact : string) (due_in_days : Z) (note : string) (ctx : SecurityCtx) (tool_call_id : string) : P string :=
  now ← call Now;
  let due_at := (now + days due_in_days)%Z in
  followup_id ← store (Stores.add_followup (sc_tenant ctx) contact due_at note (sc_principal ctx) (Some tool_call_id));
  match followup_id with
  | None => Ret (no_lead contact LOG_FIRST)
  | Some id => Ret ("Follow-up #" +:+ dump_int id +:+ " scheduled for " +:+ day_str due_at +:+ ": " +:+ note)
  end.
Definition schedule_followup (contact : string) (due_in_days : Z) (note : string) (cf : option config) (tool_call_id : string) : P string :=
  validated ((0 <=? due_in_days)%Z && (due_in_days <=? 365)%Z && not_blank note)
    (acting D permit cf "schedule_followup" tool_call_id "schedule_followup" None (λ ctx, _schedule_followup_impl contact due_in_days note ctx tool_call_id)).

Definition BRIEF_NOTES_MAX_CHARS : nat := 8000.
Definition _bounded_notes (notes : string) : string :=
  if (String.length notes <=? BRIEF_NOTES_MAX_CHARS)%nat then notes else
  "[earlier notes omitted — the newest " +:+ dump_int (Z.of_nat BRIEF_NOTES_MAX_CHARS) +:+ " characters follow]" +:+ line_feed +:+
  drop_str (String.length notes - BRIEF_NOTES_MAX_CHARS) notes.

Definition followup_line (f : followup) : string := "  - [" +:+ fu_status f +:+ "] due " +:+ dt_str (fu_due_at f) +:+ ": " +:+ fu_note f.
Definition _package_lead_brief_impl (contact : string) (ctx : SecurityCtx) : P string :=
  history ← store (Stores.lead_history (sc_tenant ctx) contact);
  match history with
  | None => Ret (no_lead contact ".")
  | Some (l, notes, followups) =>
      let notes := if nonempty (default "" notes) then _bounded_notes (default "" notes) else "" in
      Ret (join line_feed (["Lead: " +:+ ld_name l +:+ " (" +:+ ld_contact l +:+ ")";
        "Status: " +:+ ld_status l;
        "Notes:" +:+ line_feed +:+ if nonempty notes then frame_untrusted notes else "(none)"] ++
        if bool_decide (followups = []) then [] else "Follow-ups:" :: (followup_line <$> followups)))
  end.
Definition package_lead_brief (contact : string) (cf : option config) : P string :=
  reading D permit cf "package_lead_brief" (_package_lead_brief_impl contact).

Definition _handoff_to_human_impl (contact brief_summary reason : string) (ctx : SecurityCtx) : P string :=
  updated ← store (Stores.set_lead_status (sc_tenant ctx) contact "handed_off");
  if negb updated then Ret (no_lead contact " — nothing to hand off.") else
  post D "sales-handoffs" ("[" +:+ sc_tenant ctx +:+ "] Hot lead " +:+ contact +:+ " handed off by " +:+ sc_principal ctx +:+ " (" +:+ reason +:+ "):" +:+ line_feed +:+ brief_summary) ;;
  Ret ("Lead " +:+ contact +:+ " handed off to a human rep.").
Definition handoff_to_human (contact brief_summary reason : string) (cf : option config) (tool_call_id : string) : P string :=
  validated (not_blank brief_summary && not_blank reason)
    (acting D permit cf "handoff_to_human" tool_call_id "handoff_to_human" None (_handoff_to_human_impl contact brief_summary reason)).

Definition due_line (d : due) : string := "- due " +:+ dt_str (du_due_at d) +:+ ": " +:+ du_lead_name d +:+ " (" +:+ du_contact d +:+ ") — " +:+ du_note d.
Definition _list_pending_followups_impl (contact : option string) (ctx : SecurityCtx) : P string :=
  followups ← store (Stores.list_pending_followups (sc_tenant ctx) contact);
  if bool_decide (followups = []) then
    Ret (match contact with None => "No pending follow-ups." | Some contact => "No pending follow-ups for " +:+ repr_str contact +:+ "." end)
  else Ret (join line_feed (due_line <$> followups)).
Definition list_pending_followups (contact : option string) (cf : option config) : P string :=
  reading D permit cf "list_pending_followups" (_list_pending_followups_impl contact).

Definition _mark_lead_lost_impl (contact reason : string) (ctx : SecurityCtx) (tool_call_id : string) : P string :=
  updated ← store (Stores.mark_lead_lost (sc_tenant ctx) contact reason (Some tool_call_id));
  if negb updated then Ret (no_lead contact " — nothing to mark lost.")
  else Ret ("Lead " +:+ contact +:+ " marked lost (" +:+ reason +:+ "); its pending follow-ups were cancelled.").
Definition mark_lead_lost (contact reason : string) (cf : option config) (tool_call_id : string) : P string :=
  validated (not_blank reason)
    (acting D permit cf "mark_lead_lost" tool_call_id "mark_lead_lost" None (λ ctx, _mark_lead_lost_impl contact reason ctx tool_call_id)).

Definition _enrich_lead_from_website_impl (contact url : string) (ctx : SecurityCtx) (tool_call_id : string) : P string :=
  lead ← store (Stores.get_lead (sc_tenant ctx) contact);
  match lead with
  | None => Ret (no_lead contact LOG_FIRST)
  | Some (l, _) =>
      page_text ← render D url;
      store (Stores.append_lead_note (sc_tenant ctx) contact ("Website research (" +:+ url +:+ "):" +:+ line_feed +:+ page_text) (Some tool_call_id)) ;;
      Ret ("Added research from " +:+ url +:+ " to " +:+ ld_name l +:+ "'s notes. Summary of what was found:" +:+ line_feed +:+ frame_untrusted (take_str 500 page_text))
  end.
Definition enrich_lead_from_website (contact url : string) (cf : option config) (tool_call_id : string) : P string :=
  acting D permit cf "enrich_lead" tool_call_id "enrich_lead_from_website" (Some CRAWL_TOOL_TIMEOUT_SECONDS)
    (λ ctx, _enrich_lead_from_website_impl contact url ctx tool_call_id).

Inductive tool_call : Type :=
| Log_lead_interaction (name contact notes : string)
| Schedule_followup (contact : string) (due_in_days : Z) (note : string)
| Package_lead_brief (contact : string)
| Handoff_to_human (contact brief_summary reason : string)
| List_pending_followups (contact : option string)
| Mark_lead_lost (contact reason : string)
| Enrich_lead_from_website (contact url : string)
| In_sandbox (c : sandbox_call)
| Web_search (query : string).
Definition TOOLS (c : tool_call) (cf : option config) (tool_call_id : string) : P string :=
  match c with
  | Log_lead_interaction name contact notes => log_lead_interaction name contact notes cf tool_call_id
  | Schedule_followup contact due_in_days note => schedule_followup contact due_in_days note cf tool_call_id
  | Package_lead_brief contact => package_lead_brief contact cf
  | Handoff_to_human contact brief_summary reason => handoff_to_human contact brief_summary reason cf tool_call_id
  | List_pending_followups contact => list_pending_followups contact cf
  | Mark_lead_lost contact reason => mark_lead_lost contact reason cf tool_call_id
  | Enrich_lead_from_website contact url => enrich_lead_from_website contact url cf tool_call_id
  | In_sandbox c => sandbox_tool D permit c cf tool_call_id
  | Web_search query => search_tool D permit query cf tool_call_id
  end.

Definition TOOL_CAPABILITIES : list (string * string) :=
  [("log_lead_interaction", "mutating"); ("schedule_followup", "mutating"); ("package_lead_brief", "read_only"); ("handoff_to_human", "mutating");
   ("list_pending_followups", "read_only"); ("mark_lead_lost", "mutating"); ("enrich_lead_from_website", "outward"); ("web_search", "outward")] ++
  ((λ n, (n, "outward")) <$> sandbox_names).
End tools.
End Sales.

(** A call of a tool of any domain *)
Inductive domain_call : Type :=
| In_ecorp (c : Ecorp.tool_call)
| In_support (c : Support.tool_call)
| In_ops (c : Ops.tool_call)
| In_sales (c : Sales.tool_call).
Definition tool_run {address} (D : deployment address) (c : domain_call) (cf : option config) (tool_call_id : string) : prog (cmd address) string :=
  match c with
  | In_ecorp c => Ecorp.TOOLS D c cf tool_call_id
  | In_support c => Support.TOOLS D c cf tool_call_id
  | In_ops c => Ops.TOOLS D c cf tool_call_id
  | In_sales c => Sales.TOOLS D c cf tool_call_id
  end.
