(* ===== verification/DomainTheorems.v ===== *)
(** What holds of the tools of the domains, of every call in every run: a caller without a tenant gets
    nothing done, a tool touches the rows of its caller's tenant alone, a tool that needs no approval
    changes nothing, a sandbox is its conversation's own, and the tables stay consistent while any
    number of tools run at once. *)
From Stdlib Require Import Ascii SpecFloat.
From stdpp Require Import relations.
From S2P Require Import Prelude Decimals Dict Json Messages AgentState Process Wire Calendar Identity Retrieval ToolCalls Stores Ingestion IngestTheorems AgentNode Text ToolRuntime DomainTools.

Local Open Scope string_scope.
Local Open Scope list_scope.

(** ** Runs *)

(** Every program can be run to its end. *)
Lemma path_exists {cmd A} (p : prog cmd A) : ∃ tr out, path p tr out.
Proof.
  induction p as [a|e|R c k IH]; [by exists [], (Ok a)|by exists [], (Err e)|].
  destruct (IH (Err (Exc "" ""))) as (tr & out & H). exists (Step c (Err (Exc "" "")) :: tr), out. by eexists.
Qed.

Lemma only_do {cmd A R} (Q : step cmd → Prop) (c : cmd R) (k : _ → prog cmd A) : only Q (Do c k) → ∀ r, Q (Step c r) ∧ only Q (k r).
Proof.
  intros H r. assert (Hp : ∀ tr out, path (k r) tr out → Q (Step c r) ∧ Forall Q tr).
  { intros tr out Hk. by apply Forall_cons, (H _ out); eexists. }
  split; [|intros tr out Hk; by eapply Hp]. destruct (path_exists (k r)) as (tr & out & Hk). by eapply Hp.
Qed.
Lemma only_do_intro {cmd A R} (Q : step cmd → Prop) (c : cmd R) (k : _ → prog cmd A) : (∀ r, Q (Step c r)) → (∀ r, only Q (k r)) → only Q (Do c k).
Proof. intros Hc Hk [|s tr] out; [done|]. intros (r & -> & H). constructor; [apply Hc|by eapply Hk]. Qed.

Lemma only_lift {cmd cmd' : Type → Type} (inj : ∀ R, cmd R → cmd' R) (Q : step cmd' → Prop) (Q' : step cmd → Prop) {A} (p : prog cmd A) :
  only Q' p → (∀ s, Q' s → Q (lift_step inj s)) → only Q (lift inj p).
Proof. intros Hp HQ tr out (tr' & H%Hp & ->)%path_lift. apply Forall_map. by eapply Forall_impl. Qed.

Lemma only_attempt {address A} (Q : step (ToolRuntime.cmd address) → Prop) (p : prog (ToolRuntime.cmd address) A) : only Q p → only Q (attempt p).
Proof.
  induction p as [a|e|R c k IH]; cbn [attempt]; intros H; [apply only_ret..|].
  apply only_do_intro; intros r; [by apply (only_do _ _ _ H)|apply IH; by apply (only_do _ _ _ H)].
Qed.

(** ** Commands of a tool *)

Section steps.
Context {address : Type}.
Abbreviation cmd := (ToolRuntime.cmd address).
Abbreviation P := (prog cmd).

(** Every command but a transaction, a command of the ledger, and the writing of a point *)
Definition plain {R} (c : cmd R) : bool :=
  match c with
  | Store _ | Ledger _ => false
  | Docs (Vectors (Upsert _ _)) => false
  | _ => true
  end.

(** The operations on the tables, as the tools of a tenant use them *)
Inductive operation (tenant : string) : ∀ A, Stores.P A → Prop :=
| op_find_or_create_lead name contact note call : operation tenant _ (find_or_create_lead tenant name contact note call)
| op_set_lead_status contact status : operation tenant _ (set_lead_status tenant contact status)
| op_get_lead contact : operation tenant _ (get_lead tenant contact)
| op_add_followup contact due_at note by_ call : operation tenant _ (add_followup tenant contact due_at note by_ call)
| op_list_pending_followups contact : operation tenant _ (list_pending_followups tenant contact)
| op_mark_lead_lost contact reason call : operation tenant _ (mark_lead_lost tenant contact reason call)
| op_append_lead_note contact note call : operation tenant _ (append_lead_note tenant contact note call)
| op_lead_history contact : operation tenant _ (lead_history tenant contact)
| op_create_ticket requester subject description priority call : operation tenant _ (create_ticket tenant requester subject description priority call)
| op_get_ticket id : operation tenant _ (get_ticket tenant id)
| op_list_tickets requester limit : operation tenant _ (list_tickets_for_requester tenant requester limit)
| op_escalate_ticket id reason : operation tenant _ (escalate_ticket tenant id reason)
| op_add_comment id comment call : operation tenant _ (add_comment tenant id comment call)
| op_log_incident opened_by summary detail call : operation tenant _ (log_incident opened_by summary detail call)
| op_list_recent_incidents limit status : operation tenant _ (list_recent_incidents limit status)
| op_resolve_incident id resolution : operation tenant _ (resolve_incident id resolution)
| op_query_employees name_le department name_contains limit : operation tenant _ (query_employees name_le tenant department name_contains limit).

(** A property of programs that is kept by what programs are put together with, and that the commands a
    tool issues for a tenant have *)
Class Keeps (tenant : string) (R : ∀ A, P A → Prop) : Prop := {
  keeps_ret {A} (a : A) : R A (Ret a);
  keeps_throw {A} e : R A (Throw e);
  keeps_bind {A B} (p : P A) (f : A → P B) : R A p → (∀ a, R B (f a)) → R B (bind p f);
  keeps_catch {A} (p : P A) h : R A p → (∀ e, R A (h e)) → R A (catch p h);
  keeps_plain {A} (c : cmd A) : plain c = true → R A (call c);
  keeps_docs {A} (p : prog Ingestion.cmd A) : only (λ s, plain (Docs (st_cmd s)) = true) p → R A (docs p);
  keeps_upsert cfg points : Forall (λ x, dict_get "tenant" (p_payload x) = Some (JStr tenant)) points → R unit (docs (vectors (upsert cfg points None)));
  keeps_ledger cf ctx id name fn : sc_tenant ctx = tenant → R string fn → R string (idempotently cf ctx id name fn);
  keeps_store {A} (p : Stores.P A) : operation tenant A p → R A (store p);
}.

Section any.
Context (tenant : string) (holds : ∀ A, P A → Prop) {K : Keeps tenant holds}.
Abbreviation R p := (holds _ p).

Lemma keeps_if {A} (b : bool) (p q : P A) : R p → R q → R (if b then p else q).
Proof. by destruct b. Qed.
Lemma keeps_of_result {A} (r : result exc A) : R (of_result r).
Proof. destruct r; [apply keeps_ret|apply keeps_throw]. Qed.
Lemma keeps_catch_exception {A} (p : P A) h : R p → (∀ e, R (h e)) → R (catch_exception p h).
Proof. intros Hp Hh. apply keeps_catch; [done|]. intros e. apply keeps_if; [apply keeps_throw|apply Hh]. Qed.

Context (secrets : secret_settings) (sandbox : sandbox_settings).
Local Hint Extern 0 (holds _ (Ret _)) => apply keeps_ret : steps.
Local Hint Extern 0 (holds _ (Throw _)) => apply keeps_throw : steps.
Local Hint Extern 1 (holds _ (bind _ _)) => apply keeps_bind : steps.
Local Hint Extern 1 (holds _ (catch _ _)) => apply keeps_catch : steps.
Local Hint Resolve keeps_if keeps_of_result keeps_catch_exception : steps.
Local Hint Extern 1 (holds _ (call _)) => by apply keeps_plain : steps.
Local Hint Extern 2 (holds _ (match ?x with _ => _ end)) => destruct x : steps.

Lemma keeps_timed fn timeout : R fn → R (arun_with_timeout secrets fn timeout).
Proof. intros Hfn. unfold arun_with_timeout, wait_for. apply keeps_bind; auto with steps. Qed.

Lemma keeps_bound_output text limit dependency : R (bound_output text limit dependency).
Proof. unfold bound_output. auto with steps. Qed.
Local Hint Resolve keeps_bound_output : steps.

Lemma keeps_call_raw raw name kwargs : R (_call_raw_tool raw name kwargs).
Proof. unfold _call_raw_tool. apply keeps_if; auto with steps. Qed.
Local Hint Resolve keeps_call_raw : steps.

Lemma keeps_sandbox_id raw thread_id of_ : R (get_or_create_sandbox_id sandbox raw thread_id of_).
Proof.
  unfold get_or_create_sandbox_id. apply keeps_bind; [auto with steps|]. intros tags. apply keeps_bind; [|auto 10 with steps].
  unfold _find_existing_sandbox_id. apply keeps_bind; auto 10 with steps.
Qed.
Lemma keeps_format execution : R (_format_execution secrets sandbox execution).
Proof. unfold _format_execution, _bounded. auto 20 with steps. Qed.
Local Hint Resolve keeps_sandbox_id keeps_format : steps.

Lemma keeps_raw_or_raise : R _raw_sandbox_tools_or_raise.
Proof.
  unfold _raw_sandbox_tools_or_raise, load_raw_sandbox_tools. apply keeps_bind; [|auto with steps].
  apply keeps_bind; [auto with steps|]. intros l. apply keeps_if; auto 10 with steps.
Qed.

Lemma keeps_post url channel message : R (post_to_team_channel url channel message).
Proof. unfold post_to_team_channel, count_notify. auto 30 with steps. Qed.

Lemma keeps_web_search isinstance scheme key n query : R (_web_search_impl isinstance scheme key n query).
Proof.
  unfold _web_search_impl, search_web, search_cleaned, _fail. apply keeps_bind; [|auto with steps].
  apply keeps_catch; [|auto with steps]. apply keeps_bind; [|auto with steps]. auto 30 with steps.
Qed.

Lemma keeps_render isinstance parse ip text url : R (render_url_to_markdown isinstance parse ip text url).
Proof.
  unfold render_url_to_markdown. apply keeps_bind.
  - apply keeps_docs. unfold assert_safe_url_async. auto 20 with steps.
  - intros _. apply keeps_bind; [|auto with steps]. unfold _crawl. auto 20 with steps.
Qed.
End any.

(** *** The tools *)

Section tools.
Context (tenant : string) (holds : ∀ A, P A → Prop) {K : Keeps tenant holds}.
Abbreviation R p := (holds _ p).
Local Hint Extern 0 (holds _ (Ret _)) => apply keeps_ret : steps.
Local Hint Extern 0 (holds _ (Throw _)) => apply keeps_throw : steps.
Local Hint Extern 1 (holds _ (bind _ _)) => apply keeps_bind : steps.
Local Hint Extern 1 (holds _ (catch _ _)) => apply keeps_catch : steps.
Local Hint Extern 1 (holds _ (call _)) => by apply keeps_plain : steps.
Local Hint Extern 2 (holds _ (match ?x with _ => _ end)) => destruct x : steps.
Local Hint Extern 1 => simple apply (keeps_timed tenant) : steps.
Local Hint Extern 1 => simple apply (keeps_raw_or_raise tenant) : steps.
Local Hint Extern 1 => simple apply (keeps_post tenant) : steps.
Local Hint Extern 1 => simple apply (keeps_web_search tenant) : steps.
Local Hint Extern 1 => simple apply (keeps_render tenant) : steps.
Local Hint Extern 1 => simple apply (keeps_call_raw tenant) : steps.
Local Hint Extern 1 => simple apply (keeps_sandbox_id tenant) : steps.
Local Hint Extern 1 => simple apply (keeps_format tenant) : steps.
Local Hint Extern 1 => simple apply (keeps_bound_output tenant) : steps.
Local Hint Extern 1 => simple apply (keeps_of_result tenant) : steps.
Local Hint Extern 1 => simple apply (keeps_catch_exception tenant) : steps.

Context (D : deployment address) (ctx : SecurityCtx) (Htenant : sc_tenant ctx = tenant) (cf : option config) (Hcf : ctx_from_config cf = Some ctx).

Lemma ctx_or_refuse_is permit action : ctx_or_refuse permit cf action = None ∨ ctx_or_refuse permit cf action = Some ctx.
Proof. unfold ctx_or_refuse. rewrite Hcf. destruct (negb _ || _); auto. Qed.

Lemma keeps_reading permit action body : R (body ctx) → R (reading D permit cf action body).
Proof. intros Hb. unfold reading, timed. destruct (ctx_or_refuse_is permit action) as [->| ->]; auto with steps. Qed.
Lemma keeps_acting permit action id name timeout body : R (body ctx) → R (acting D permit cf action id name timeout body).
Proof.
  intros Hb. unfold acting, timed. destruct (ctx_or_refuse_is permit action) as [->| ->]; [auto with steps|].
  apply keeps_ledger; auto with steps.
Qed.
Lemma keeps_validated b (p : P string) : R p → R (validated b p).
Proof. intros Hp. unfold validated. auto with steps. Qed.
Local Hint Resolve keeps_reading keeps_acting keeps_validated : steps.

Lemma keeps_op {A B} (p : Stores.P A) (f : A → P B) : operation tenant A p → (∀ a, R (f a)) → R (bind (store p) f).
Proof. intros Hp Hf. apply keeps_bind; [by apply keeps_store|done]. Qed.

Lemma keeps_sandbox_tool permit c id : R (sandbox_tool D permit c cf id).
Proof.
  unfold sandbox_tool, _run_command_in_sandbox_impl, _run_python_in_sandbox_impl, _read_sandbox_file_impl, _write_sandbox_file_impl.
  destruct c; apply keeps_validated, keeps_acting; (apply keeps_bind; [auto with steps|intros raw]);
    unfold run_command_in_sandbox_impl, run_python_in_sandbox_impl, read_sandbox_file_impl, write_sandbox_file_impl, _bounded;
    auto 20 with steps.
Qed.
Lemma keeps_search_tool permit query id : R (search_tool D permit query cf id).
Proof.
  unfold search_tool, make_web_search_tool. apply keeps_validated.
  destruct (ctx_or_refuse_is permit ACTION) as [->| ->]; [auto with steps|]. apply keeps_ledger; auto with steps.
Qed.
Lemma keeps_read_page url : R (read_page D url).
Proof. unfold read_page, render. auto with steps. Qed.
Local Hint Resolve keeps_sandbox_tool keeps_search_tool keeps_read_page : steps.

Lemma keeps_vectors {A} (p : prog Retrieval.cmd A) : only (λ s, writes s = false) p → R (docs (vectors p)).
Proof.
  intros Hp. apply keeps_docs. unfold vectors. eapply only_lift; [exact Hp|]. intros [B c r] Hc. by destruct c.
Qed.

Lemma embed_unwritten cfg text : only (λ s, writes s = false) (embed_document cfg text).
Proof. unfold embed_document, embed_documents. apply only_bind; [auto with steps|]. intros []; auto with steps. Qed.
Lemma keeps_sparse text : R (Ecorp.sparse_vector_or_none text).
Proof.
  unfold Ecorp.sparse_vector_or_none, Ecorp.retrieval. apply (keeps_catch_exception tenant holds); [|auto with steps]. apply keeps_bind; [|auto with steps].
  apply keeps_vectors. unfold embed_sparse, embed_sparse_batch. apply only_bind; [auto with steps|]. intros []; auto with steps.
Qed.

Lemma keeps_ecorp c id : R (Ecorp.TOOLS D c cf id).
Proof.
  destruct c; cbn [Ecorp.TOOLS]; [apply keeps_validated, keeps_acting..|apply keeps_reading].
  - unfold Ecorp.add_note_impl, Ecorp.store_add_note, Ecorp.retrieval. apply keeps_bind; [|auto with steps].
    apply keeps_bind; [apply keeps_vectors, embed_unwritten|]. intros dense. apply keeps_bind; [apply keeps_sparse|]. intros sparse.
    apply keeps_upsert. repeat constructor. cbn. by rewrite Htenant.
  - unfold Ecorp.remember_impl, Ecorp.store_add_memory, Ecorp.retrieval. apply keeps_bind; [auto with steps|]. intros now.
    apply keeps_bind; [|auto with steps]. apply keeps_bind; [apply keeps_vectors, embed_unwritten|]. intros dense. apply keeps_bind; [apply keeps_sparse|]. intros sparse.
    apply keeps_upsert. repeat constructor. cbn. by rewrite Htenant.
  - unfold Ecorp.query_employees_impl. rewrite Htenant. apply keeps_op; [constructor|auto with steps].
Qed.

Ltac by_op := match goal with |- context [store _] => try rewrite Htenant; apply keeps_op; [constructor|] | _ => idtac end; auto 20 with steps.

Lemma keeps_support c id : R (Support.TOOLS D c cf id).
Proof.
  destruct c; cbn [Support.TOOLS]; try (by auto with steps).
  - apply keeps_validated, keeps_acting. unfold Support._create_ticket_impl. by_op.
  - apply keeps_reading. unfold Support._check_ticket_status_impl. by_op.
  - apply keeps_validated, keeps_acting. unfold Support._escalate_to_human_impl, post. by_op.
  - apply keeps_reading. unfold Support._list_my_tickets_impl. by_op.
  - apply keeps_validated, keeps_acting. unfold Support._add_ticket_comment_impl. by_op.
  - apply keeps_acting. auto with steps.
Qed.

Lemma keeps_ops c id : R (Ops.TOOLS D c cf id).
Proof.
  destruct c; cbn [Ops.TOOLS]; try (by auto with steps).
  - apply keeps_reading. unfold Ops.fetch_metrics_summary_impl. auto with steps.
  - apply keeps_validated, keeps_acting. unfold post. auto with steps.
  - apply keeps_validated, keeps_acting. unfold Ops._log_incident_impl. by_op.
  - apply keeps_reading. unfold Ops.list_recent_incidents_impl. by_op.
  - apply keeps_validated, keeps_acting. unfold Ops._resolve_incident_impl. by_op.
  - apply keeps_acting. auto with steps.
Qed.

Lemma keeps_sales c id : R (Sales.TOOLS D c cf id).
Proof.
  destruct c; cbn [Sales.TOOLS]; try (by auto with steps).
  - apply keeps_validated, keeps_acting. unfold Sales._log_lead_interaction_impl. by_op.
  - apply keeps_validated, keeps_acting. unfold Sales._schedule_followup_impl. apply keeps_bind; [auto with steps|]. intros now. by_op.
  - apply keeps_reading. unfold Sales._package_lead_brief_impl. by_op.
  - apply keeps_validated, keeps_acting. unfold Sales._handoff_to_human_impl, post. by_op.
  - apply keeps_reading. unfold Sales._list_pending_followups_impl. by_op.
  - apply keeps_validated, keeps_acting. unfold Sales._mark_lead_lost_impl. by_op.
  - apply keeps_acting. unfold Sales._enrich_lead_from_website_impl. rewrite Htenant. apply keeps_op; [constructor|].
    intros [[l n]|]; [|auto with steps]. apply keeps_bind; [unfold render; auto with steps|]. intros page. by_op.
Qed.

Lemma keeps_tool_run c id : R (tool_run D c cf id).
Proof. destruct c; [apply keeps_ecorp|apply keeps_support|apply keeps_ops|apply keeps_sales]. Qed.
End tools.
End steps.

(** ** What a tool does is its tenant's *)

Section tenants.
Context {address : Type} (tenant : string).
Abbreviation cmd := (ToolRuntime.cmd address).
Abbreviation P := (prog cmd).

(** A transaction leaves the rows of other tenants alone, a call is claimed for the tenant, and a point
    that is written says whose it is. *)
Definition for_tenant (s : step cmd) : Prop :=
  match st_cmd s with
  | Store (Transaction m) => confined tenant m
  | Ledger (Insert_claim _ t _ _) => t = tenant
  | Docs (Vectors (Upsert _ points)) => Forall (λ x, dict_get "tenant" (p_payload x) = Some (JStr tenant)) points
  | _ => True
  end.

Lemma for_tenant_plain {R} (c : cmd R) r : plain c = true → for_tenant (Step c r).
Proof. destruct c as [? []|? []|? c| | | | | | | | | | |]; try done. destruct c as [? c|? c| | | | | | | | | | | | | |]; try done. by destruct c. Qed.

Lemma only_guarded {A} (Q : step cmd → Prop) (p : prog ToolCalls.cmd A) fn :
  only (λ s, Q (lift_step (@Ledger address) s)) p → only Q fn → only Q (guarded p fn).
Proof.
  intros Hp Hfn. induction p as [a|e|R c k IH]; cbn [guarded]; [apply only_ret|apply only_throw|].
  pose proof (only_do _ _ _ Hp) as Hdo.
  destruct c; try (apply only_do_intro; [intros r; apply (Hdo r)|intros r; apply IH, (Hdo r)]).
  apply only_bind; [by apply only_attempt|]. intros r. apply IH, (Hdo r).
Qed.

Lemma upsert_writes_given cfg points :
  only (λ s, match st_cmd s with Upsert _ written => ∀ x, x ∈ written → x ∈ points | _ => True end) (upsert cfg points None).
Proof.
  unfold upsert. apply only_bind.
  - eapply only_impl; [apply check_unwritten|]. intros [R c r] H. by destruct c.
  - intros name. assert (H : ∀ b x, b ∈ batches _MAX_POINTS_PER_UPSERT_BATCH points → x ∈ b → x ∈ points).
    { intros b x Hb Hx. rewrite <-(concat_batches _MAX_POINTS_PER_UPSERT_BATCH points) by (unfold _MAX_POINTS_PER_UPSERT_BATCH; lia).
      apply list_elem_of_In, in_concat. exists b. by rewrite <-!list_elem_of_In. }
    revert H. generalize (batches _MAX_POINTS_PER_UPSERT_BATCH points). intros bs H. induction bs as [|b bs IH]; cbn [each]; [apply only_ret|].
    apply only_bind; [|intros _; apply IH; intros b' x Hb'; apply H; by right]. apply only_call. intros _ x. apply H. left.
Qed.

Lemma operation_confined {A} (p : Stores.P A) : operation tenant A p → only (tx_step (@confined tenant)) p.
Proof.
  destruct 1; auto using confined_find_or_create_lead, confined_set_lead_status, confined_get_lead, confined_add_followup, confined_mark_lead_lost,
    confined_append_lead_note, confined_create_ticket, confined_escalate_ticket, confined_add_comment, confined_log_incident, confined_resolve_incident,
    confined_reading, reading_lead_history, reading_get_ticket, reading_list_tickets, reading_list_recent_incidents, reading_query_employees,
    reading_list_pending_followups.
Qed.

#[export] Instance for_tenant_keeps : Keeps tenant (λ A, only for_tenant).
Proof.
  split.
  - intros A a. apply only_ret.
  - intros A e. apply only_throw.
  - intros A B p f. apply only_bind.
  - intros A p h. apply only_catch.
  - intros A c Hc. apply only_call. intros r. by apply for_tenant_plain.
  - intros A p Hp. eapply only_lift; [exact Hp|]. intros [R c r] H. by apply for_tenant_plain.
  - intros cfg points Hpoints. eapply only_lift; [eapply only_lift; [apply (upsert_writes_given cfg points)|]|].
    + intros s Hs. instantiate (1 := λ s, for_tenant (lift_step (@Docs address) s)). destruct s as [R c r]. destruct c; try done. cbn in *.
      apply Forall_forall. intros x Hx. rewrite Forall_forall in Hpoints. auto.
    + done.
  - intros cf ctx id name fn Ht Hfn. apply only_guarded; [|done].
    assert (Hc : ∀ R (c : ToolCalls.cmd R), match c with Insert_claim _ t _ _ => t = tenant | _ => True end →
      only (λ s, for_tenant (lift_step (@Ledger address) s)) (call c)).
    { intros R c Hc. apply only_call. intros r. by destruct c. }
    unfold idempotent, claim_or_cached, store_result. apply only_bind.
    + apply only_catch; [|auto with steps]. apply only_bind; [|auto with steps].
      apply only_bind; [by apply Hc|]. intros b. apply only_if; [auto with steps|]. apply only_bind; [by apply Hc|auto with steps].
    + intros [[l|]|]; [auto with steps| |by apply Hc].
      apply only_bind; [apply only_catch; [by apply Hc|auto with steps]|]. intros r.
      apply only_bind; [apply only_catch; [by apply Hc|auto with steps]|auto with steps].
  - intros A p Hp. eapply only_lift; [apply operation_confined, Hp|]. intros [R c r] H. by destruct c.
Qed.
End tenants.

(** *** A caller without a tenant *)

Definition refused {address} (p : prog (cmd address) string) : Prop := p = Ret NO_CTX_REFUSAL ∨ p = Throw (Exc "ValidationError" "").

Lemma no_caller {address} (D : deployment address) c cf id : valid_ctx (ctx_from_config cf) = false → refused (tool_run D c cf id).
Proof.
  intros Hv. assert (Hr : ∀ permit action, ctx_or_refuse permit cf action = None) by (intros; unfold ctx_or_refuse; by rewrite Hv).
  assert (Ha : ∀ permit action i n t b, refused (acting D permit cf action i n t b)) by (intros; unfold acting; rewrite Hr; by left).
  assert (Hd : ∀ permit action b, refused (reading D permit cf action b)) by (intros; unfold reading; rewrite Hr; by left).
  assert (Hb : ∀ b (p : prog (cmd address) string), refused p → refused (validated b p)) by (intros [] p Hp; [done|by right]).
  assert (Hw : ∀ permit q i, refused (search_tool D permit q cf i))
    by (intros; apply Hb; rewrite Hr; by left).
  destruct c as [[]|[| | | | | |[]|]|[| | | | | |[]|]|[| | | | | | |[]|]]; cbn [tool_run Ecorp.TOOLS Support.TOOLS Ops.TOOLS Sales.TOOLS sandbox_tool];
    first [apply Ha|apply Hd|apply Hw|apply Hb, Ha].
Qed.

(** *** A tool keeps to its caller's tenant *)

(** C39: Whatever the outside answers, a call of a tool of the four domains by a caller without a valid tenant and person issues
    no command at all and is refused; and in every run of a call of any other caller each transaction leaves the rows of
    other tenants as they are, the call is claimed for the caller's tenant, and each point that is written bears it. *)
Theorem tools_keep_to_their_tenant {address} (D : deployment address) c cf id tr out :
  path (tool_run D c cf id) tr out →
  (valid_ctx (ctx_from_config cf) = false → tr = [] ∧ (out = Ok NO_CTX_REFUSAL ∨ out = Err (Exc "ValidationError" ""))) ∧
  ∀ ctx, ctx_from_config cf = Some ctx → Forall (for_tenant (sc_tenant ctx)) tr.
Proof.
  intros Hp. split.
  - intros Hv. destruct (no_caller D c cf id Hv) as [E|E]; rewrite E in Hp; destruct Hp as [-> ->]; auto.
  - intros ctx Hctx. refine (keeps_tool_run (sc_tenant ctx) (λ A, only (for_tenant (sc_tenant ctx))) D ctx eq_refl cf Hctx c id tr out Hp).
Qed.

(** ** A tool that needs no approval changes nothing *)

Definition tool_name (c : domain_call) : string :=
  let sandbox_name c := match c with
    | Run_command_in_sandbox _ => "run_command_in_sandbox" | Run_python_in_sandbox _ => "run_python_in_sandbox"
    | Read_sandbox_file _ => "read_sandbox_file" | Write_sandbox_file _ _ => "write_sandbox_file" end in
  match c with
  | In_ecorp c => match c with Ecorp.Add_note _ _ _ => "add_note" | Ecorp.Remember _ => "remember" | Ecorp.Query_employees _ _ => "query_employees" end
  | In_support c =>
      match c with
      | Support.Create_ticket _ _ _ => "create_ticket" | Support.Check_ticket_status _ => "check_ticket_status"
      | Support.Escalate_to_human _ _ => "escalate_to_human" | Support.List_my_tickets => "list_my_tickets"
      | Support.Add_ticket_comment _ _ => "add_ticket_comment" | Support.Fetch_external_reference _ => "fetch_external_reference"
      | Support.In_sandbox c => sandbox_name c | Support.Web_search _ => "web_search"
      end
  | In_ops c =>
      match c with
      | Ops.Fetch_metrics_summary => "fetch_metrics_summary" | Ops.Post_to_team_channel _ _ => "post_to_team_channel"
      | Ops.Log_incident _ _ => "log_incident" | Ops.List_recent_incidents _ => "list_recent_incidents"
      | Ops.Resolve_incident _ _ => "resolve_incident" | Ops.Check_vendor_status_page _ => "check_vendor_status_page"
      | Ops.In_sandbox c => sandbox_name c | Ops.Web_search _ => "web_search"
      end
  | In_sales c =>
      match c with
      | Sales.Log_lead_interaction _ _ _ => "log_lead_interaction" | Sales.Schedule_followup _ _ _ => "schedule_followup"
      | Sales.Package_lead_brief _ => "package_lead_brief" | Sales.Handoff_to_human _ _ _ => "handoff_to_human"
      | Sales.List_pending_followups _ => "list_pending_followups" | Sales.Mark_lead_lost _ _ => "mark_lead_lost"
      | Sales.Enrich_lead_from_website _ _ => "enrich_lead_from_website"
      | Sales.In_sandbox c => sandbox_name c | Sales.Web_search _ => "web_search"
      end
  end.
Definition capabilities (c : domain_call) : list (string * string) :=
  match c with
  | In_ecorp _ => Ecorp.TOOL_CAPABILITIES | In_support _ => Support.TOOL_CAPABILITIES
  | In_ops _ => Ops.TOOL_CAPABILITIES | In_sales _ => Sales.TOOL_CAPABILITIES
  end.
Definition capability (c : domain_call) : option string := snd <$> head (filter (λ p, p.1 = tool_name c) (capabilities c)).

Section readers.
Context {address : Type} (tenant : string).
Abbreviation cmd := (ToolRuntime.cmd address).

Definition harmless (s : step cmd) : Prop :=
  match st_cmd s with Store (Transaction m) => reads_own tenant m | Fetch_readings => True | _ => False end.

Lemma harmless_op {A B} (p : Stores.P A) (f : A → prog cmd B) : only (tx_step (@reads_own tenant)) p → (∀ a, only harmless (f a)) → only harmless (bind (store p) f).
Proof. intros Hp Hf. apply only_bind; [|done]. eapply only_lift; [exact Hp|]. intros [R c r] H. by destruct c. Qed.

Lemma harmless_reading (D : deployment address) permit cf action body :
  (∀ ctx, ctx_from_config cf = Some ctx → only harmless (body ctx)) → only harmless (reading D permit cf action body).
Proof.
  intros Hb. unfold reading, timed, arun_with_timeout, wait_for. destruct (ctx_or_refuse permit cf action) as [ctx|] eqn:E; [|apply only_ret].
  apply only_bind; [|auto with steps]. apply only_catch; [|auto with steps]. apply Hb. unfold ctx_or_refuse in E.
  by destruct (negb _ || _).
Qed.
End readers.

Lemma readers_harmless {address} (D : deployment address) c cf id ctx :
  capability c = Some "read_only" → ctx_from_config cf = Some ctx → only (harmless (sc_tenant ctx)) (tool_run D c cf id).
Proof.
  intros Hc Hctx.
  destruct c as [[]|[| | | | | |[]|]|[| | | | | |[]|]|[| | | | | | |[]|]]; try (by vm_compute in Hc);
    cbn [tool_run Ecorp.TOOLS Support.TOOLS Ops.TOOLS Sales.TOOLS]; apply harmless_reading; intros ctx' E; rewrite Hctx in E; injection E as <-.
  - apply harmless_op; [apply reading_query_employees|auto with steps].
  - apply harmless_op; [apply reading_get_ticket|]. intros [[t n]|]; auto with steps.
  - apply harmless_op; [apply reading_list_tickets|auto with steps].
  - unfold Ops.fetch_metrics_summary_impl. apply only_bind; [by apply only_call|auto with steps].
  - apply harmless_op; [apply reading_list_recent_incidents|auto with steps].
  - apply harmless_op; [apply reading_lead_history|]. intros [[[l n] f]|]; auto with steps.
  - apply harmless_op; [apply reading_list_pending_followups|auto with steps].
Qed.

(** C24: In every run, a tool declared read-only, which the graph lets run without an approval, issues nothing but transactions and
    the query of the metrics, and its transactions change no row and no sequence and answer what follows from the rows of the
    caller's tenant, and from the incidents, alone, however the rows of other tenants are. *)
Theorem readers_change_nothing {address} (D : deployment address) c cf id ctx tr out :
  capability c = Some "read_only" → ctx_from_config cf = Some ctx → path (tool_run D c cf id) tr out → Forall (harmless (sc_tenant ctx)) tr.
Proof. intros Hc Hctx. by apply readers_harmless. Qed.

(** ** Any number of tools at once *)

Section runs.
Context {address : Type}.
Abbreviation cmd := (ToolRuntime.cmd address).
Abbreviation P := (prog cmd).

(** What a command answers, and the tables after it *)
Definition tool_answered {R} (T : tables) (c : cmd R) (r : result exc R) (T' : tables) : Prop :=
  match c in ToolRuntime.cmd _ R return result exc R → Prop with
  | Store c => λ r, ∃ now, tx_answered now T c r T'
  | _ => λ _, T' = T
  end r.

(** [runs T p Q]: begun once the tables were [T], and whatever others do to them between its steps as long
    as they stay consistent and keep their leads and tickets, each step of [p] does so too, and [Q] holds
    of the tables and the result where it ends. *)
Fixpoint runs {A} (T : tables) (p : P A) (Q : tables → result exc A → Prop) : Prop :=
  match p with
  | Ret a => Q T (Ok a)
  | Throw e => Q T (Err e)
  | Do c k => ∀ T1 r T2, grows T T1 → consistent T1 → tool_answered T1 c r T2 → (consistent T2 ∧ grows T1 T2) ∧ runs T2 (k r) Q
  end.
Definition quiet {A} (p : P A) : Prop := ∀ T, runs T p (λ _ _, True).

Lemma runs_later {A} T T' (p : P A) : grows T T' → runs T p (λ _ _, True) → runs T' p (λ _ _, True).
Proof. intros HT. destruct p as [a|e|R c k]; cbn; [done..|]. intros H T1 r T2 H1. apply H. by etrans. Qed.

Lemma runs_conseq {A} T (p : P A) (Q Q' : tables → result exc A → Prop) : runs T p Q → (∀ T r, Q T r → Q' T r) → runs T p Q'.
Proof.
  intros Hp HQ. revert T Hp. induction p as [a|e|R c k IH]; cbn; intros T Hp; [by apply HQ..|].
  intros T1 r T2 H1 H2 H3. destruct (Hp T1 r T2 H1 H2 H3) as [H4 H5]. split; [done|]. by apply IH.
Qed.
Lemma runs_bind {A B} T (p : P A) (f : A → P B) Q :
  runs T p (λ T r, match r with Ok a => runs T (f a) Q | Err e => Q T (Err e) end) → runs T (bind p f) Q.
Proof.
  revert T. induction p as [a|e|R c k IH]; cbn; intros T Hp; [done..|].
  intros T1 r T2 H1 H2 H3. destruct (Hp T1 r T2 H1 H2 H3) as [H4 H5]. split; [done|]. by apply IH.
Qed.
Lemma runs_catch {A} T (p : P A) h Q : runs T p (λ T r, match r with Ok a => Q T (Ok a) | Err e => runs T (h e) Q end) → runs T (catch p h) Q.
Proof.
  revert T. induction p as [a|e|R c k IH]; cbn; intros T Hp; [done..|].
  intros T1 r T2 H1 H2 H3. destruct (Hp T1 r T2 H1 H2 H3) as [H4 H5]. split; [done|]. by apply IH.
Qed.

Lemma quiet_then {A B} (p : P A) (f : A → P B) : quiet p → (∀ a, quiet (f a)) → quiet (bind p f).
Proof. intros Hp Hf T. apply runs_bind. eapply runs_conseq; [apply Hp|]. intros T' [a|e] _; [apply Hf|done]. Qed.
Lemma quiet_except {A} (p : P A) h : quiet p → (∀ e, quiet (h e)) → quiet (catch p h).
Proof. intros Hp Hh T. apply runs_catch. eapply runs_conseq; [apply Hp|]. intros T' [a|e] _; [done|apply Hh]. Qed.

(** A program without transactions *)
Definition no_store (s : step cmd) : Prop := match st_cmd s with Store _ => False | _ => True end.
Lemma no_store_quiet {A} (p : P A) : only no_store p → quiet p.
Proof.
  induction p as [a|e|R c k IH]; intros Hp T; [done..|]. intros T1 r T2 H1 H2 H3. destruct (only_do _ _ _ Hp r) as [Hc Hk].
  assert (T2 = T1) as -> by (by destruct c). split; [done|]. by apply IH.
Qed.

Lemma quiet_attempt {A} (p : P A) : quiet p → quiet (attempt p).
Proof.
  intros Hp T. specialize (Hp T). revert T Hp. induction p as [a|e|R c k IH]; cbn; intros T Hp; [done..|].
  intros T1 r T2 H1 H2 H3. destruct (Hp T1 r T2 H1 H2 H3) as [H4 H5]. split; [done|]. by apply IH.
Qed.
Lemma quiet_guarded {A} (p : prog ToolCalls.cmd A) fn : quiet fn → quiet (guarded p fn).
Proof.
  intros Hfn. induction p as [a|e|R c k IH]; cbn [guarded]; [done..|].
  destruct c; try (by intros T T1 r T2 H1 H2 ->; split; [done|]; apply IH).
  apply quiet_then; [by apply quiet_attempt|done].
Qed.

(** A transaction that keeps the tables consistent when what was known still holds *)
Lemma runs_tx {A} T (K : tables → Prop) (m : tx A) (Post : A → tables → Prop) Q :
  (∀ T T', grows T T' → K T → K T') → hoare K m Post → K T →
  (∀ a T', Post a T' → Q T' (Ok a)) → (∀ e T', Q T' (Err e)) → runs T (store (address := address) (get_connection m)) Q.
Proof.
  intros HK Hm HT HQ He. intros T1 r T2 H1 H2 (now & H3).
  destruct (atomically m now T1) as [r0 T0] eqn:E.
  destruct (hoare_atomically _ _ _ Hm _ _ _ _ H2 (HK _ _ H1 HT) E) as (H4 & H5 & H6).
  destruct H3 as [H3|[[e He'] H3]].
  - rewrite E in H3. injection H3 as -> ->. split; [done|]. destruct r as [a|e]; cbn; auto.
  - destruct r as [a|e']; [done|]. cbn in H3. rewrite E in H3. cbn in *. destruct H3 as [-> | ->]; split; auto. split; [done|reflexivity].
Qed.
Lemma quiet_tx {A} (m : tx A) : keeps m → quiet (store (get_connection m)).
Proof. intros Hm T. by eapply (runs_tx T (λ _, True)). Qed.

Lemma runs_store_bind {A B} T (p : Stores.P A) (f : A → Stores.P B) Q :
  runs T (store (address := address) p) (λ T r, match r with Ok a => runs T (store (f a)) Q | Err e => Q T (Err e) end) → runs T (store (bind p f)) Q.
Proof.
  revert T. induction p as [a|e|R c k IH]; cbn; intros T Hp; [done..|].
  intros T1 r T2 H1 H2 H3. destruct (Hp T1 r T2 H1 H2 H3) as [H4 H5]. split; [done|]. by apply IH.
Qed.

(** An operation that finds a lead first and then acts on it in a transaction of its own *)
Lemma quiet_found {A B} tenant contact (m : lead → tx A) (b : B) (g : A → B) :
  (∀ l, hoare (owned_lead tenant (ld_id l)) (m l) (λ _ _, True)) →
  quiet (store (bind (get_lead tenant contact) (λ r, match r with None => Ret b | Some (l, _) => bind (get_connection (m l)) (λ a, Ret (g a)) end))).
Proof.
  intros Hm T. apply runs_store_bind.
  eapply (runs_tx T (λ _, True)); [done|apply get_lead_ok|done| |done].
  intros [[l n]|] T' Hl; [|done]. apply runs_store_bind.
  eapply (runs_tx T' (owned_lead tenant (ld_id l))); [apply owned_grows|apply Hm|done|done|done].
Qed.

Lemma operation_quiet tenant {A} (p : Stores.P A) : operation tenant A p → quiet (store p).
Proof.
  destruct 1; try (apply quiet_tx; first [apply find_or_create_lead_ok|apply set_lead_status_ok|apply select_ok|apply create_ticket_ok
    |apply escalate_ticket_ok|apply add_comment_ok|apply log_incident_ok|apply resolve_incident_ok]).
  - apply (quiet_found tenant contact (λ l, insert_followup tenant (ld_id l) due_at note by_ call) None Some). intros l. apply insert_followup_ok.
  - apply (quiet_found tenant contact (λ l, close_lead tenant contact (ld_id l) reason call) false (λ _, true)). intros l. apply close_lead_ok.
  - apply (quiet_found tenant contact (λ l, note_lead tenant contact (ld_id l) note call) false (λ _, true)). intros l. apply note_lead_ok.
  - intros T. apply runs_store_bind. eapply (runs_tx T (λ _, True)); [done|apply get_lead_ok|done| |done].
    intros [[l n]|] T' _; [|done]. apply runs_store_bind. by eapply (runs_tx T' (λ _, True)); [|apply select_ok|..].
Qed.

#[export] Instance quiet_keeps tenant : Keeps tenant (λ A, quiet).
Proof.
  split.
  - done.
  - done.
  - intros A B p f. apply quiet_then.
  - intros A p h. apply quiet_except.
  - intros A c Hc. apply no_store_quiet, only_call. intros r. by destruct c.
  - intros A p Hp. apply no_store_quiet. eapply only_lift; [exact Hp|]. by intros [R c r] H.
  - intros cfg points _. apply no_store_quiet. eapply only_lift; [|by intros [R c r] H]. by instantiate (1 := λ _, True); intros tr out _; apply Forall_true.
  - intros cf ctx id name fn _ Hfn. by apply quiet_guarded.
  - intros A p Hp. by eapply operation_quiet.
Qed.

(** The tools that run, and the tables they share.  A program that is not stepped again has died or was cancelled; the sweep of the
    follow-ups marks what it dealt with. *)
Inductive pool_step : tables * list (P string) → tables * list (P string) → Prop :=
| tool_starts T ps D c cf id : pool_step (T, ps) (T, ps ++ [tool_run D c cf id])
| sweep_starts T ps tenant followup_id : pool_step (T, ps) (T, ps ++ [bind (store (mark_followup_done tenant followup_id)) (λ _, Ret "")])
| tool_moves T ps i R (c : cmd R) k r T' : ps !! i = Some (Do c k) → tool_answered T c r T' → pool_step (T, ps) (T', <[i := k r]> ps).

Lemma mark_followup_done_ok tenant followup_id :
  keeps (execute (λ _ T, set_followups (update_where (λ f, fu_tenant f = tenant ∧ fu_id f = followup_id) done_followup (followups T)) T)).
Proof.
  apply (hoare_execute _ (λ _, True)). intros now T HT _.
  edestruct (update_followups (λ f, fu_tenant f = tenant ∧ fu_id f = followup_id) done_followup T); done.
Qed.

Lemma sweep_quiet tenant followup_id : quiet (bind (store (mark_followup_done tenant followup_id)) (λ _, Ret "")).
Proof. apply quiet_then; [apply quiet_tx, mark_followup_done_ok|done]. Qed.

Lemma tool_quiet D c cf id : quiet (tool_run D c cf id).
Proof.
  destruct (ctx_from_config cf) as [ctx|] eqn:E.
  - exact (keeps_tool_run (sc_tenant ctx) (λ A, quiet) D ctx eq_refl cf E c id).
  - intros T. destruct (no_caller D c cf id) as [-> | ->]; [by rewrite E|done..].
Qed.

Definition pool_ok (x : tables * list (P string)) : Prop := consistent x.1 ∧ Forall (λ p, runs x.1 p (λ _ _, True)) x.2.

Lemma pool_step_ok x y : pool_step x y → pool_ok x → pool_ok y ∧ grows x.1 y.1.
Proof.
  intros Hs [HT Hps]. destruct Hs as [T ps D c cf id|T ps tenant fid|T ps i R c k r T' Hi Ha]; cbn [fst snd] in *.
  - split; [|reflexivity]. split; [done|]. apply Forall_app_2, Forall_singleton; [done|].
    apply tool_quiet.
  - split; [|reflexivity]. split; [done|]. apply Forall_app_2, Forall_singleton; [done|].
    apply sweep_quiet.
  - pose proof (Forall_lookup_1 _ _ _ _ Hps Hi) as Hp. cbn in Hp.
    assert (grows T T) as HTT by reflexivity. destruct (Hp T r T' HTT HT Ha) as [[H1 H2] H3].
    split; [|done]. split; [done|]. apply Forall_insert; [|done]. eapply Forall_impl; [exact Hps|]. intros p. by apply runs_later.
Qed.
End runs.

(** C5: However many tools of however many tenants run at once over the tables, in whatever order their commands come, fail, or
    are lost, the tables stay consistent: ids are unique, no call has two follow-ups, notes, tickets, comments or incidents, no
    contact of a tenant is two leads, and every follow-up, note and comment belongs to the tenant of its lead or ticket; and
    leads and tickets stay, with their tenants. *)
Theorem records_stay_consistent {address} T0 (T : tables) (ps : list (prog (cmd address) string)) :
  consistent T0 → rtc pool_step (T0, []) (T, ps) → consistent T ∧ grows T0 T.
Proof.
  intros H0 Hs. assert (H : ∀ x y, rtc (@pool_step address) x y → pool_ok x → pool_ok y ∧ grows x.1 y.1).
  { induction 1 as [x|x y z Hxy _ IH]; intros Hx; [by split|].
    destruct (pool_step_ok _ _ Hxy Hx) as [Hy Hg]. destruct (IH Hy) as [Hz Hg']. split; [done|by etrans]. }
  destruct (H _ _ Hs) as [[HT _] Hg]; [by split|]. done.
Qed.

(** ** A sandbox is its conversation's own *)

Section sandboxes.
Context {address : Type} (tags : list (string * json)).
Abbreviation cmd := (ToolRuntime.cmd address).
Abbreviation P := (prog cmd).

(** The id of an entry of the listing that bears the tags *)
Definition listed_own (info : json) : option json :=
  match info with
  | JObj l =>
      match dict_get "metadata" l with
      | Some (JObj metadata) =>
          if forallb (λ '(key, value), bool_decide (dict_get key metadata = Some value)) tags then Some (default JNull (dict_get "id" l)) else None
      | _ => None
      end
  | _ => None
  end.

(** The sandboxes that an answer of the service shows to be the owner's: what it lists with the tags, and what it created *)
Definition shown (name : string) (answer : result exc string) : list json :=
  match answer with
  | Ok text =>
      match loads text with
      | Some (JObj l) =>
          if String.eqb name "sandbox_list" then match dict_get "sandbox_infos" l with Some (JList infos) => omap listed_own infos | _ => [] end
          else if String.eqb name "sandbox_create" then [default JNull (dict_get "sandbox_id" l)] else []
      | _ => []
      end
  | Err _ => []
  end.

(** Nothing but five tools of the service is called: a listing and a creation under the tags, and a command, a reading and a writing
    in a sandbox that was shown to be the owner's. *)
Definition permitted (known : list json) (name : string) (kwargs : list (string * json)) : Prop :=
  name = "sandbox_list" ∧ kwargs = [("filter", JObj [("metadata", JObj tags); ("states", JList [JStr "RUNNING"])])] ∨
  name = "sandbox_create" ∧ dict_get "metadata" kwargs = Some (JObj tags) ∨
  name ∈ ["command_run"; "file_read"; "file_write"] ∧ ∃ id, dict_get "sandbox_id" kwargs = Some id ∧ id ∈ known.

Definition own_allowed (known : list json) {R} (c : cmd R) : Prop :=
  match c with Invoke name kwargs => permitted known name kwargs | _ => True end.
Definition own_next (known : list json) {R} (c : cmd R) (r : result exc R) : list json :=
  match c in ToolRuntime.cmd _ R return result exc R → list json with
  | Invoke name _ => λ r, known ++ shown name r
  | _ => λ _, known
  end r.
Abbreviation keeping := (safe (@own_allowed) (@own_next)).

Lemma calm {A} known (p : P A) : only (λ s, match st_cmd s with Invoke _ _ => False | _ => True end) p → keeping known p (λ known' _, known' = known).
Proof.
  induction p as [a|e|R c k IH]; intros Hp; [done..|]. split.
  - destruct (only_do _ _ _ Hp (Err (Exc "" ""))) as [Hc _]. by destruct c.
  - intros r. destruct (only_do _ _ _ Hp r) as [Hc Hk]. assert (own_next known c r = known) as -> by (by destruct c). by apply IH.
Qed.

Lemma grown (known : list json) l : known ⊆ known ++ l.
Proof. intros j Hj. apply elem_of_app. by left. Qed.

Lemma call_raw_keeps known raw name kwargs : permitted known name kwargs →
  keeping known (_call_raw_tool raw name kwargs)
    (λ known' r, known ⊆ known' ∧ match r with Ok l => ∃ text, loads text = Some (JObj l) ∧ known' = known ++ shown name (Ok text) | Err _ => True end).
Proof.
  intros Hp. unfold _call_raw_tool. case_bool_decide; [done|]. apply safe_bind, safe_call; [done|]. intros [text|e]; cbn [own_next].
  - destruct (startswith text REMOTE_ERROR_PREFIX); cbn [safe]; [split; [apply grown|done]|].
    destruct (loads text) as [[]|] eqn:E; cbn [safe]; (split; [apply grown|]); try done. by exists text.
  - split; [apply grown|done].
Qed.

Lemma get_some k (l : list (string * json)) v : default JNull (dict_get k l) = v → v ≠ JNull → dict_get k l = Some v.
Proof. destruct (dict_get k l); cbn; congruence. Qed.

Context (Htags : ∀ k v, (k, v) ∈ tags → v ≠ JNull) (Hsome : tags ≠ []).

(** The entry that is taken is one that bears the tags. *)
Lemma owned_by_own infos id : owned_by tags infos = Ok (Some id) → id ∈ omap listed_own infos.
Proof.
  induction infos as [|info infos IH]; [done|]. cbn [owned_by]. destruct info as [| | | | | |l]; try done. cbn [as_dict rbind].
  destruct (as_dict (or_else (JObj []) "metadata" l)) as [found|e] eqn:E; [|done]. cbn [rbind].
  destruct (forallb _ tags) eqn:F.
  - intros [= <-]. cbn [omap list_omap]. assert (listed_own (JObj l) = Some (default JNull (dict_get "id" l))) as ->; [|left].
    unfold listed_own, or_else, as_dict in *. 
    assert (Hfound : forallb (λ '(key, value), bool_decide (dict_get key found = Some value)) tags = true).
    { apply forallb_forall. intros [k v] Hin. rewrite forallb_forall in F. specialize (F _ Hin). cbn in F. apply bool_decide_eq_true in F.
      apply bool_decide_eq_true, get_some; [done|]. apply (Htags k). by apply list_elem_of_In. }
    destruct (dict_get "metadata" l) as [m|] eqn:M.
    + destruct (truthy (Some m)) eqn:Tm; cbn in E; [destruct m; simplify_eq; by rewrite Hfound|].
      injection E as <-. destruct tags as [|[k v] tl]; [done|]. cbn in Hfound. by case_bool_decide.
    + cbn in E. injection E as <-. destruct tags as [|[k v] tl]; [done|]. cbn in Hfound. by case_bool_decide.
  - intros H%IH. cbn [omap list_omap]. destruct (listed_own (JObj l)); [by right|done].
Qed.

Context (secrets : secret_settings) (sandbox : sandbox_settings).

Lemma owned_by_texts {A} (f : A → string) l id : owned_by tags ((λ a, JStr (f a)) <$> l) ≠ Ok (Some id).
Proof. by destruct l. Qed.

Lemma found_listed l id text : loads text = Some (JObj l) →
  rbind (iterated (or_else (JList []) "sandbox_infos" l)) (owned_by tags) = Ok (Some id) → id ∈ shown "sandbox_list" (Ok text).
Proof.
  intros Hload (infos & Hi & Ho)%rbind_Ok. unfold shown. rewrite Hload. cbn [String.eqb Ascii.eqb Bool.eqb]. unfold or_else in Hi.
  destruct (dict_get "sandbox_infos" l) as [j|] eqn:E; [|by injection Hi as <-].
  destruct (truthy (Some j)); [|by injection Hi as <-]. cbn in Hi. destruct j; simplify_eq/=.
  - by apply owned_by_texts in Ho.
  - by apply owned_by_own.
  - rewrite <-(list_fmap_compose fst JStr) in Ho. by apply (owned_by_texts fst) in Ho.
Qed.

Lemma create_own known raw :
  keeping known
    (bind (_call_raw_tool raw "sandbox_create" [("image", JStr (SANDBOX_IMAGE sandbox)); ("metadata", JObj tags); ("timeout_seconds", JInt (SANDBOX_TTL_SECONDS sandbox))])
      (λ created, if truthy (dict_get "sandbox_id" created) then Ret (default JNull (dict_get "sandbox_id" created))
       else Throw (SandboxCallFailed ("sandbox_create did not return a sandbox_id: " +:+ py_repr (JObj created)))))
    (λ known' r, match r with Ok id => id ∈ known' | Err _ => True end).
Proof.
  apply safe_bind. eapply safe_conseq; [apply call_raw_keeps; right; left; done|]. intros known1 [l|e] [_ Hl]; cbn; [|done].
  destruct Hl as (text & Hload & ->). destruct (truthy _); cbn; [|done]. unfold shown. rewrite Hload. apply elem_of_app. right. left.
Qed.

Lemma sandbox_id_own known raw thread_id tenant : _owner_tags tenant thread_id = Ok tags ∨ (∃ e, _owner_tags tenant thread_id = Err e) →
  keeping known (get_or_create_sandbox_id sandbox raw thread_id tenant) (λ known' r, match r with Ok id => id ∈ known' | Err _ => True end).
Proof.
  intros Hown. unfold get_or_create_sandbox_id. apply safe_bind, safe_of_result. destruct Hown as [-> |[e ->]]; [|done].
  apply safe_bind. unfold _find_existing_sandbox_id. apply safe_bind, safe_catch, safe_bind.
  eapply safe_conseq; [apply call_raw_keeps; by left|]. intros known1 [l|e] [_ Hl]; cbn.
  - destruct Hl as (text & Hload & ->). apply safe_of_result.
    destruct (rbind _ (owned_by tags)) as [[id|]|e] eqn:E; [|apply create_own|done].
    destruct (truthy (Some id)); [|apply create_own]. apply elem_of_app. right. by eapply found_listed.
  - destruct (String.eqb _ _); cbn; [apply create_own|done].
Qed.

(** The rest of a tool *)
Abbreviation idle := (only (λ s : step cmd, match st_cmd s with Invoke _ _ => False | _ => True end)).
Definition owned {A} (p : P A) : Prop := ∀ known, keeping known p (λ _ _, True).

Lemma idle_owned {A} (p : P A) : idle p → owned p.
Proof. intros Hp known. eapply safe_conseq; [by apply calm|done]. Qed.
Lemma idle_command {R} (c : cmd R) : match c with Invoke _ _ => False | _ => True end → idle (call c).
Proof. intros Hc. by apply only_call. Qed.
Local Hint Extern 1 (only _ (call _)) => by apply idle_command : steps.

Lemma owned_bind {A B} (p : P A) (f : A → P B) : owned p → (∀ a, owned (f a)) → owned (bind p f).
Proof. intros Hp Hf known. apply safe_bind. eapply safe_conseq; [apply Hp|]. intros known' [a|e] _; [apply Hf|done]. Qed.
Lemma owned_catch {A} (p : P A) h : owned p → (∀ e, owned (h e)) → owned (catch p h).
Proof. intros Hp Hh known. apply safe_catch. eapply safe_conseq; [apply Hp|]. intros known' [a|e] _; [done|apply Hh]. Qed.
Lemma owned_attempt {A} (p : P A) : owned p → owned (attempt p).
Proof.
  intros Hp known. specialize (Hp known). revert known Hp. induction p as [a|e|R c k IH]; cbn [attempt safe]; intros known Hp; [done..|].
  destruct Hp as [Hc Hp]. split; [done|]. intros r. apply IH, Hp.
Qed.
Lemma owned_guarded {A} (p : prog ToolCalls.cmd A) fn : owned fn → owned (guarded p fn).
Proof.
  intros Hfn. induction p as [a|e|R c k IH]; cbn [guarded]; [done..|].
  destruct c; try (intros known; split; [done|]; intros r; apply IH). apply owned_bind; [by apply owned_attempt|done].
Qed.

Lemma idle_bound text limit dependency : idle (bound_output text limit dependency).
Proof. unfold bound_output. auto with steps. Qed.
Local Hint Resolve idle_bound : steps.
Lemma format_owned execution : owned (_format_execution secrets sandbox execution).
Proof. apply idle_owned. unfold _format_execution, _bounded. auto 20 with steps. Qed.
Lemma raw_owned : owned _raw_sandbox_tools_or_raise.
Proof.
  apply idle_owned. unfold _raw_sandbox_tools_or_raise, load_raw_sandbox_tools. apply only_bind; [|auto with steps].
  apply only_bind; [auto with steps|]. intros l. apply only_if; auto 10 with steps.
Qed.

(** A call in the owner's sandbox, and what is done with its answer *)
Lemma in_own_sandbox {A} raw thread_id tenant (name : string) kwargs (f : json → list (string * json) → P A) :
  _owner_tags tenant thread_id = Ok tags ∨ (∃ e, _owner_tags tenant thread_id = Err e) → name ∈ ["command_run"; "file_read"; "file_write"] →
  (∀ id known, id ∈ known → ∀ known' l, known ⊆ known' → keeping known' (f id l) (λ _ _, True)) →
  owned (bind (get_or_create_sandbox_id sandbox raw thread_id tenant) (λ id, bind (_call_raw_tool raw name (("sandbox_id", id) :: kwargs)) (f id))).
Proof.
  intros Hown Hname Hf known. apply safe_bind. eapply safe_conseq; [by apply sandbox_id_own|]. intros known1 [id|e] Hid; [|done].
  apply safe_bind. eapply safe_conseq; [apply call_raw_keeps; right; right; split; [done|]; exists id; by split|].
  intros known2 [l|e] [Hk _]; [|done]. by eapply Hf.
Qed.
End sandboxes.

Definition tags_of (tenant thread_id : string) : list (string * json) :=
  [(SANDBOX_TENANT_KEY, JStr (_tag_value tenant)); (SANDBOX_THREAD_KEY, JStr (_tag_value thread_id))].

(** C22: In every run of a sandbox tool, whatever the service answers, nothing is called at the service but its listing and a creation
    under the tags of the caller's tenant and conversation, and commands, readings and writings in a sandbox that, in this run,
    the service either listed with exactly these tags or created under them. *)
Theorem sandbox_is_the_conversations_own {address} (D : deployment address) permit c cf id ctx tr out :
  let tags := tags_of (sc_tenant ctx) (_thread_id_from_config cf) in
  ctx_from_config cf = Some ctx → path (sandbox_tool D permit c cf id) tr out →
  kept (@own_allowed address tags) (@own_next address tags) [] tr.
Proof.
  intros tags Hctx Hp. assert (H : owned (address := address) tags (sandbox_tool D permit c cf id)); [|exact (proj1 (safe_path _ _ _ _ _ _ _ (H []) Hp))].
  assert (Hown : _owner_tags (sc_tenant ctx) (_thread_id_from_config cf) = Ok tags ∨ ∃ e, _owner_tags (sc_tenant ctx) (_thread_id_from_config cf) = Err e)
    by (unfold _owner_tags; destruct (negb _ || _); eauto).
  assert (Ht : ∀ k v, (k, v) ∈ tags → v ≠ JNull) by (intros k v [[= -> ->]|[[= -> ->]|[]%not_elem_of_nil]%elem_of_cons]%elem_of_cons; done).
  assert (Hn : tags ≠ []) by done.
  assert (Ha : ∀ name timeout body, owned (address := address) tags (body ctx) → owned tags (acting D permit cf name id name timeout body)).
  { intros name timeout body Hb. unfold acting, timed, arun_with_timeout. destruct (ctx_or_refuse_is ctx cf Hctx permit name) as [-> | ->]; [done|].
    apply owned_guarded, owned_bind; [|done]. apply owned_catch; [done|]. intros e. by destruct (is_timeout e). }
  assert (Hv : ∀ b (p : prog (cmd address) string), owned tags p → owned tags (validated b p)) by (intros [] p H; done).
  unfold sandbox_tool, _run_command_in_sandbox_impl, _run_python_in_sandbox_impl, _read_sandbox_file_impl, _write_sandbox_file_impl.
  destruct c; apply Hv, Ha; (apply owned_bind; [apply raw_owned|intros raw]);
    unfold run_command_in_sandbox_impl, run_python_in_sandbox_impl, read_sandbox_file_impl, write_sandbox_file_impl.
  - apply (in_own_sandbox tags Ht Hn (dp_sandbox D)); [done|set_solver|]. intros sid known _ known' l _. apply format_owned.
  - apply (in_own_sandbox tags Ht Hn (dp_sandbox D)); [done|set_solver|]. intros sid known Hsid known' l Hk. apply safe_bind.
    eapply safe_conseq; [apply call_raw_keeps; right; right; split; [set_solver|]; exists sid; split; [done|by apply Hk]|].
    intros known2 [l2|e] _; [apply format_owned|done].
  - apply (in_own_sandbox tags Ht Hn (dp_sandbox D)); [done|set_solver|]. intros sid known _ known' l _.
    destruct (default (JStr "") (dict_get "content" l)); try done. apply idle_owned. apply idle_bound.
  - apply (in_own_sandbox tags Ht Hn (dp_sandbox D)); [done|set_solver|]. done.
Qed.

(** ** Examples *)

Module Office.

Definition deploy : deployment () :=
  mkDeployment () (mkSecrets ["hunter22"] []) (mkSandbox 1000 4000 "python" 600) "" (λ _ _, false) (λ _, "https") "" 5
    (λ _, Err (Exc "ValueError" "")) (λ _, Err (Exc "ValueError" "")) (λ _, "")
    (mkStore "docs" 30 20 5 "embed" "" "" "" (float_of_int 1) 3600) (λ s, s) String.leb.
Definition ann : SecurityCtx := SecCtx "acme" "ann".
Definition by_ann : option config := Some (mkConfig (Some ann) (Some "chat-1")).

Definition no_rows : tables := mkTables [] [] [] [] [] [] [] (mkSequences 1 1 1 1 1 1).
Definition a_ticket : ticket := mkTicket 1 "acme" "ann" "Login" "It fails" "high" "open" None (Some "call-1") 7 7.
Definition one_ticket : tables := mkTables [] [] [] [a_ticket] [] [] [] (mkSequences 1 1 1 2 1 1).

(** The outside: the tables, the answers the sandbox service still gives, and a clock that stands *)
Abbreviation world := (tables * list string)%type.
Definition down {R} : result exc R := Err (Exc "ConnectionError" "").
Definition store_answers (s : world) {R} (c : Stores.cmd R) : result exc R * world :=
  match c in Stores.cmd R return result exc R * world with Transaction m => let '(r, T) := m 7%Z s.1 in (r, (T, s.2)) end.
Definition ledger_answers (s : world) {R} (c : ToolCalls.cmd R) : result exc R * world :=
  match c in ToolCalls.cmd R return result exc R * world with
  | Insert_claim _ _ _ _ => (Ok true, s)
  | Update_result _ _ => (Ok (), s)
  | _ => (down, s)
  end.
Definition answers (s : world) (R : Type) (c : cmd () R) : result exc R * world :=
  match c in cmd _ R return result exc R * world with
  | Store c => store_answers s c
  | Ledger c => ledger_answers s c
  | Cached_catalog => (Ok ["sandbox_list"; "sandbox_create"; "command_run"], s)
  | Invoke _ _ => match s.2 with text :: rest => (Ok text, (s.1, rest)) | [] => (down, s) end
  | Fetch_readings => (Ok [("turn_error_rate", Some (float_ratio 125 3)); ("p95_latency_seconds", Some (float_of_int 30))], s)
  | Count _ _ => (Ok (), s)
  | _ => (down, s)
  end.
Definition did (p : prog (cmd ()) string) (T : tables) (l : list string) := run answers p (T, l).
Definition open_ticket : domain_call := In_support (Support.Create_ticket "Login" "It fails" Support.High).

Example ticket_opened : did (tool_run deploy open_ticket by_ann "call-1") no_rows [] =
  (Ok "Ticket #1 opened (high priority): Login", (did (tool_run deploy open_ticket by_ann "call-1") no_rows []).1.2, (one_ticket, [])).
Proof. vm_compute. reflexivity. Qed.

Example metrics_read : (did (tool_run deploy (In_ops Ops.Fetch_metrics_summary) by_ann "call-2") no_rows []).1.1 =
  Ok (join line_feed ["- Fraction of agent turns ending in outcome=" +:+ Ops.quoted "error" +:+ " (5m): 0.125"; "- p95 end-to-end turn latency (5m): 30"; "";
    "Anomalies (past an alert-matching threshold):"; "- Fraction of agent turns ending in outcome=" +:+ Ops.quoted "error" +:+ " (5m): 0.125 (threshold 0.05)"]).
Proof. vm_compute. reflexivity. Qed.

(** Another tenant's ticket answers for a call id that is used again. *)
Example call_ids_are_not_the_tenants : (did (tool_run deploy open_ticket (Some (mkConfig (Some (SecCtx "zeta" "zoe")) None)) "call-1") one_ticket []).1.1 =
  Ok "Ticket #1 opened (high priority): Login".
Proof. vm_compute. reflexivity. Qed.
End Office.

Definition ticket_run := Office.did (tool_run Office.deploy Office.open_ticket Office.by_ann "call-1") Office.no_rows [].
Definition status_run := Office.did (tool_run Office.deploy (In_support (Support.Check_ticket_status 1)) Office.by_ann "call-2") Office.one_ticket [].

Lemma tools_keep_to_their_tenant_witness : length ticket_run.1.2 = 3%nat ∧ Forall (for_tenant "acme") ticket_run.1.2.
Proof.
  split; [vm_compute; reflexivity|].
  exact (proj2 (tools_keep_to_their_tenant Office.deploy Office.open_ticket Office.by_ann "call-1" _ _ (run_path Office.answers _ (Office.no_rows, []))) Office.ann eq_refl).
Defined.

Lemma readers_change_nothing_witness : length status_run.1.2 = 1%nat ∧ Forall (harmless "acme") status_run.1.2.
Proof.
  split; [vm_compute; reflexivity|].
  exact (readers_change_nothing Office.deploy (In_support (Support.Check_ticket_status 1)) Office.by_ann "call-2" Office.ann _ _
    ltac:(vm_compute; reflexivity) eq_refl (run_path Office.answers _ (Office.one_ticket, []))).
Defined.

Lemma no_rows_consistent : consistent Office.no_rows.
Proof. split; cbn; try (by intros ? ?%not_elem_of_nil); try constructor; repeat split; cbn; try constructor; by intros ? ?%not_elem_of_nil. Qed.

Lemma records_stay_consistent_witness : consistent Office.one_ticket ∧ grows Office.no_rows Office.one_ticket.
Proof.
  eapply (records_stay_consistent (address := ()) Office.no_rows Office.one_ticket); [apply no_rows_consistent|].
  eapply rtc_l; [apply (tool_starts _ _ Office.deploy Office.open_ticket Office.by_ann "call-1")|].
  eapply rtc_l; [eapply (tool_moves _ _ 0 bool _ _ (Ok true)); [reflexivity|reflexivity]|].
  eapply rtc_l; [eapply (tool_moves _ _ 0); [reflexivity|]; exists 7%Z; left; vm_compute; reflexivity|].
  apply rtc_refl.
Defined.


(** The service lists another conversation's sandbox beside the caller's own. *)
Definition their_tags : json := JObj (tags_of "acme" "chat-1").
Definition listing : string := dumps (JObj [("sandbox_infos", JList [
  JObj [("id", JStr "box-other"); ("metadata", JObj (tags_of "acme" "chat-2"))]; JObj [("id", JStr "box-ann"); ("metadata", their_tags)]])]).
Definition execution : string := dumps (JObj [("exit_code", JInt 0); ("logs", JObj [("stdout", JList [JObj [("text", JStr "a b hunter22")]])])]).
Definition sandbox_run := Office.did (sandbox_tool Office.deploy Support.permit (Run_command_in_sandbox "ls") Office.by_ann "call-3") Office.no_rows [listing; execution].

Lemma sandbox_is_the_conversations_own_witness :
  sandbox_run.1.1 = Ok (join line_feed ["exit code: 0"; "stdout:"; "a b [REDACTED]"]) ∧ length sandbox_run.1.2 = 5%nat ∧
  kept (@own_allowed () (tags_of "acme" "chat-1")) (@own_next () (tags_of "acme" "chat-1")) [] sandbox_run.1.2.
Proof.
  split_and!; [vm_compute; reflexivity|vm_compute; reflexivity|].
  exact (sandbox_is_the_conversations_own Office.deploy Support.permit (Run_command_in_sandbox "ls") Office.by_ann "call-3" Office.ann _ _ eq_refl
    (run_path Office.answers _ (Office.no_rows, [listing; execution]))).
Defined.
