(* ===== verification/AgentTools.v ===== *)
(** What the agent is given beside the tools of its domain: [app/agent/tools/] and
    [app/core/moderation.py], and the tools each domain is put together from
    ([app/domains/*/domain.py]).

    The catalogues of skills and subagents are read from files ([SKILL.md], [AGENT.md]); the file
    system, the YAML reader, the compiled graphs and the classifier of injections are outside.  A
    nested run of a graph is one command, answered with the state it ends in: what such a run is, is
    [Graph] under [nested_graph_config].  The name of a point's parent and of a skill in a payload is a text,
    as what writes them puts it.  Logs, durations and the calculator are left out, and so is what a
    schema tells the model. *)
From Stdlib Require Import Ascii SpecFloat.
From stdpp Require Import gmap.
From S2P Require Import Prelude Dict Json Messages AgentState Process Sha256 Regex Turn Routing Graph Identity ToolCalls Retrieval Stores Ingestion Text ToolRuntime DomainTools.

Local Open Scope string_scope.
Local Open Scope list_scope.

(** ** Two coroutines at once *)

(** [asyncio.gather(p, q, return_exceptions=True)]: the steps of the two in the order of [schedule],
    where [true] is a step of the first; both run to their end. *)
Fixpoint gather {C : Type → Type} {A B} (p : prog C A) : prog C B → list bool → prog C (result exc A * result exc B) :=
  match p with
  | Ret a => λ q _, bind (attempt q) (λ r, Ret (Ok a, r))
  | Throw e => λ q _, bind (attempt q) (λ r, Ret (Err e, r))
  | Do c k =>
      fix beside (q : prog C B) (schedule : list bool) {struct q} :=
        match q with
        | Ret b => Do c (λ r, bind (attempt (k r)) (λ r, Ret (r, Ok b)))
        | Throw e => Do c (λ r, bind (attempt (k r)) (λ r, Ret (r, Err e)))
        | Do c' k' =>
            match schedule with
            | false :: schedule => Do c' (λ r, beside (k' r) schedule)
            | _ => Do c (λ r, gather (k r) q (tail schedule))
            end
        end
  end.

(** ** Records *)

Record SkillRecord : Type := mkSkill {
  sk_name : string;
  sk_description : string;
  sk_body : string;
  sk_domains : option (list string);
  sk_path : string;
}.

Record SubagentRecord : Type := mkSubagent {
  sa_name : string;
  sa_description : string;
  sa_system_prompt : string;
  sa_tools : option (list string);
  sa_model : option string;
  sa_domains : option (list string);
  sa_path : string;
}.

(** What [build_subagent_graph] is given for a subagent: its prompt, the names of its tools, the
    alias of its model. *)
Record nested_graph : Type := mkNested {
  ng_name : string;
  ng_system_prompt : string;
  ng_tools : list string;
  ng_model : string;
}.

Record nested_config : Type := mkNestedConfig {
  nc_thread_id : string;
  nc_ctx : SecurityCtx;
  nc_subagent_name : string;
  nc_parent_thread_id : string;
  nc_domain : string;
  nc_recursion_limit : Z;
}.

(** ** What is asked of the outside *)

Inductive cmd (address : Type) : Type → Type :=
| Tool {R} (c : ToolRuntime.cmd address R) : cmd address R
| Skills_cache : cmd address (option (list (string * SkillRecord)))
| Set_skills_cache (c : option (list (string * SkillRecord))) : cmd address ()
| Subagents_cache : cmd address (option (list (string * SubagentRecord)))
| Set_subagents_cache (c : option (list (string * SubagentRecord))) : cmd address ()
| Is_dir (root : string) : cmd address bool
| Sorted_glob (root filename : string) : cmd address (list string)     (* [sorted(root.glob("*/<filename>"))] *)
| Read_text (path : string) : cmd address string
| Malicious_score (text : string) : cmd address float
| Refuse_unpriced (alias : string) : cmd address bool
| Uuid4_hex : cmd address string
| Graph_cache (key : string * string) : cmd address (option nested_graph)
| Cache_graph (key : string * string) (g : nested_graph) : cmd address ()
| Invoke_graph (g : nested_graph) (task : string) (c : nested_config) : cmd address State.
Arguments Tool {address R} c.
Arguments Skills_cache {address}.
Arguments Set_skills_cache {address} c.
Arguments Subagents_cache {address}.
Arguments Set_subagents_cache {address} c.
Arguments Is_dir {address} root.
Arguments Sorted_glob {address} root filename.
Arguments Read_text {address} path.
Arguments Malicious_score {address} text.
Arguments Refuse_unpriced {address} alias.
Arguments Uuid4_hex {address}.
Arguments Graph_cache {address} key.
Arguments Cache_graph {address} key g.
Arguments Invoke_graph {address} g task c.

(** The settings that are read *)
Record agent_settings : Type := mkAgentSettings {
  SKILLS_DIR : string;
  SKILLS_COLLECTION : string;
  SKILLS_SEARCH_TOP_K : nat;
  SUBAGENTS_DIR : string;
  CHAT_MODEL : string;
  MAX_SUBAGENT_COST_USD_PER_RUN : float;
  SUBAGENT_TIMEOUT_SECONDS : Z;
  MEMORY_RETENTION_DAYS : Z;
}.

(** ** Retrieval ([builtin.py]) *)

Section retrieval.
Context (cfg : store_settings) (settings : agent_settings).
Abbreviation P := (prog Retrieval.cmd).
Local Open Scope prog_scope.

Definition MIN_RERANK_SCORE : float := float_of_int (-8).

(** [payload.get(a) or payload.get(b) or ...] *)
Definition get_or (k : string) (other : json) (payload : list (string * json)) : json := or_else other k payload.

Definition _display_text (h : hit) : json := get_or "parent_text" (default (JStr "") (dict_get "text" (h_payload h))) (h_payload h).

Definition parent_of (h : hit) : option string :=
  match dict_get "parent_id" (h_payload h) with Some (JStr p) => if nonempty p then Some p else None | _ => None end.

Fixpoint dedupe_go (seen_parents : list string) (hits : list hit) : list hit :=
  match hits with
  | [] => []
  | h :: hits =>
      match parent_of h with
      | Some p => if bool_decide (p ∈ seen_parents) then dedupe_go seen_parents hits else h :: dedupe_go (p :: seen_parents) hits
      | None => h :: dedupe_go seen_parents hits
      end
  end.
Definition _dedupe_by_parent (hits : list hit) : list hit := dedupe_go [] hits.

Definition marker (n : nat) : string := "[" +:+ dump_int (Z.of_nat n) +:+ "]".

Definition _format_cited_context (hits : list hit) (offset : nat) : string :=
  join line_feed (imap (λ i h, marker (i + offset + 1) +:+ " " +:+ py_str (_display_text h)) hits).

Record citation_record : Type := mkCitation {
  cr_marker : string;
  cr_doc_id : string;
  cr_title : json;
  cr_text : json;
  cr_score : float;
}.
Definition citation_title (payload : list (string * json)) : json :=
  get_or "title" (get_or "topic" (default (JStr "source") (dict_get "kind" payload)) payload) payload.
Definition _citation_records (hits : list hit) (offset : nat) : list citation_record :=
  imap (λ i h, mkCitation (marker (i + offset + 1)) (py_str (h_id h)) (citation_title (h_payload h)) (_display_text h) (h_score h)) hits.

(** [DEFAULT_POLICY.lower] at the time it is asked *)
Definition lower_now (ctx : SecurityCtx) (target : string) : P AccessScope :=
  now ← (if String.eqb target "memories" then call Retrieval.Now else Ret 0%Z);
  match Identity.lower (MEMORY_RETENTION_DAYS settings) ctx target now with
  | Some scope => Ret scope
  | None => Throw (Exc "ValueError" ("unknown lowering target: " +:+ repr_str target))
  end.

Definition _document_hits (ctx : SecurityCtx) (query : string) (topic : option Ecorp.Topic) (doc_ids : option (list string)) : P (list hit) :=
  scope ← lower_now ctx "documents";
  hits ← search cfg query scope (Ecorp.topic_value <$> topic) None true doc_ids (Some MIN_RERANK_SCORE);
  Ret (_dedupe_by_parent hits).

Definition _memory_hits (ctx : SecurityCtx) (query : string) : P (list hit) :=
  scope ← lower_now ctx "memories";
  search cfg query scope None None false None None.

Definition _search_docs_impl (query : string) (topic : option Ecorp.Topic) (ctx : SecurityCtx) (doc_ids : option (list string)) : P string :=
  hits ← _document_hits ctx query topic doc_ids;
  if bool_decide (hits = []) then Ret "No relevant documents found." else Ret (_format_cited_context hits 0).

Definition gather_context (schedule : list bool) (ctx : option SecurityCtx) (query : string) : P (string * list citation_record) :=
  match ctx, valid_ctx ctx with
  | Some c, true =>
      results ← gather (if Identity.permit "search" ctx then _document_hits c query None None else Ret [])
                       (if Identity.permit "recall_memory" ctx then _memory_hits c query else Ret []) schedule;
      doc_hits ← of_result results.1;
      memory_hits ← of_result results.2;
      let all_hits := doc_hits ++ memory_hits in
      if bool_decide (all_hits = []) then Ret ("", []) else Ret (_format_cited_context all_hits 0, _citation_records all_hits 0)
  | _, _ => Ret ("", [])
  end.
End retrieval.

(** ** Files with a frontmatter ([frontmatter.py]) *)

(** The texts after each line break of the blanks a text begins with, the last first *)
Fixpoint after_breaks (s : string) : list string :=
  match s with
  | String a s => if py_isspace a then after_breaks s ++ (if Ascii.eqb a "010" then [s] else []) else []
  | EmptyString => []
  end.
(** [_FRONTMATTER_RE.match]: what is between the lines, and what follows the second but for blanks,
    which are stripped anyway *)
Definition frontmatter_match (text : string) : option (string * string) :=
  rest ← strip_prefix "---" text;
  head (omap (λ s, j ← find_str s (line_feed +:+ "---"); Some (take_str (S j) s, drop_str (j + 4) s)) (after_breaks rest)).

Section catalogs.
Context {address : Type} (isinstance : exc → list string → bool) (safe_load : string → result exc json).
Abbreviation P := (prog (cmd address)).
Local Open Scope prog_scope.

Section file.
Context (error : string) (path : string).
Definition refused {A} (text : string) : result exc A := Err (Exc error (path +:+ text)).

Definition split_file : P (list (string * json) * string) :=
  text ← call (Read_text path);
  match frontmatter_match text with
  | None => of_result (refused ": missing YAML frontmatter (expected a leading '---' block).")
  | Some (front, rest) =>
      match safe_load front with
      | Err e => of_result (if isinstance e ["YAMLError"] then refused (": invalid YAML frontmatter: " +:+ exc_text e) else Err e)
      | Ok j => of_result (match (if truthy (Some j) then j else JObj []) with
                           | JObj frontmatter => Ok (frontmatter, strip rest)
                           | _ => refused ": frontmatter must be a YAML mapping."
                           end)
      end
  end.

Definition required_text (frontmatter : list (string * json)) (key : string) : result exc string :=
  match dict_get key frontmatter with
  | Some (JStr v) => if not_blank v then Ok (strip v) else refused (": frontmatter must set a non-empty '" +:+ key +:+ "'.")
  | _ => refused (": frontmatter must set a non-empty '" +:+ key +:+ "'.")
  end.
Definition optional_text (frontmatter : list (string * json)) (key : string) : result exc (option string) :=
  match dict_get key frontmatter with
  | None | Some JNull => Ok None
  | Some (JStr v) => if not_blank v then Ok (Some (strip v)) else refused (": '" +:+ key +:+ "', if set, must be a non-empty string.")
  | _ => refused (": '" +:+ key +:+ "', if set, must be a non-empty string.")
  end.
(** The texts of a list of texts that are not blank *)
Fixpoint full_texts (items : list json) : option (list string) :=
  match items with
  | [] => Some []
  | JStr v :: items => if not_blank v then cons v <$> full_texts items else None
  | _ => None
  end.
Definition optional_string_list (frontmatter : list (string * json)) (key : string) : result exc (option (list string)) :=
  match dict_get key frontmatter with
  | None | Some JNull => Ok None
  | Some (JList items) =>
      match full_texts items with Some l => Ok (Some l) | None => refused (": '" +:+ key +:+ "', if set, must be a list of non-empty strings.") end
  | _ => refused (": '" +:+ key +:+ "', if set, must be a list of non-empty strings.")
  end.
Definition required_body (body label : string) : result exc string :=
  if nonempty body then Ok body else refused (": " +:+ label +:+ " body (markdown after frontmatter) must not be empty.").
End file.

(** The loop over the files *)
Fixpoint load_go {R} (parse : string → P R) (error : string) (name : R → string) (files : list string) (catalog : list (string * R)) : P (list (string * R)) :=
  match files with
  | [] => Ret catalog
  | file :: files =>
      record ← catch (r ← parse file; Ret (Some r)) (λ e, if String.eqb (exc_class e) error then Ret None else Throw e);
      match record with
      | None => load_go parse error name files catalog
      | Some r =>
          match dict_get (name r) catalog with
          | Some _ => load_go parse error name files catalog
          | None => load_go parse error name files (dict_set (name r) r catalog)
          end
      end
  end.
Definition load_catalog {R} (root filename : string) (parse : string → P R) (error : string) (name : R → string) : P (list (string * R)) :=
  found ← call (Is_dir root);
  if negb (found : bool) then Ret [] else
  files ← call (Sorted_glob root filename);
  load_go parse error name files [].

(** *** [skill_catalog.py] *)

Definition _parse_skill_file (path : string) : P SkillRecord :=
  '(frontmatter, body) ← split_file "SkillLoadError" path;
  of_result
    (rbind (required_text "SkillLoadError" path frontmatter "name") (λ name,
     rbind (required_text "SkillLoadError" path frontmatter "description") (λ description,
     rbind (required_body "SkillLoadError" path body "skill") (λ body,
     rbind (optional_string_list "SkillLoadError" path frontmatter "domains") (λ domains,
     Ok (mkSkill name description body domains path)))))).

Context (settings : agent_settings).

Definition load_skills (skills_dir : option string) : P (list (string * SkillRecord)) :=
  load_catalog (default (SKILLS_DIR settings) skills_dir) "SKILL.md" _parse_skill_file "SkillLoadError" sk_name.
Definition get_skills : P (list (string * SkillRecord)) :=
  cached ← call Skills_cache;
  match cached with
  | Some skills => Ret skills
  | None => skills ← load_skills None; call (Set_skills_cache (Some skills)) ;; Ret skills
  end.
Definition reload_skills : P () := call (Set_skills_cache None).

(** *** [subagent_catalog.py] *)

Definition _parse_subagent_file (path : string) : P SubagentRecord :=
  '(frontmatter, body) ← split_file "SubagentLoadError" path;
  of_result
    (rbind (required_text "SubagentLoadError" path frontmatter "name") (λ name,
     rbind (required_text "SubagentLoadError" path frontmatter "description") (λ description,
     rbind (required_body "SubagentLoadError" path body "subagent") (λ system_prompt,
     rbind (optional_string_list "SubagentLoadError" path frontmatter "tools") (λ tools,
     rbind (optional_text "SubagentLoadError" path frontmatter "model") (λ model,
     rbind (optional_string_list "SubagentLoadError" path frontmatter "domains") (λ domains,
     Ok (mkSubagent name description system_prompt tools model domains path)))))))).

Definition load_subagents (subagents_dir : option string) : P (list (string * SubagentRecord)) :=
  load_catalog (default (SUBAGENTS_DIR settings) subagents_dir) "AGENT.md" _parse_subagent_file "SubagentLoadError" sa_name.
Definition get_subagents : P (list (string * SubagentRecord)) :=
  cached ← call Subagents_cache;
  match cached with
  | Some subagents => Ret subagents
  | None => subagents ← load_subagents None; call (Set_subagents_cache (Some subagents)) ;; Ret subagents
  end.
Definition reload_subagents : P () := call (Set_subagents_cache None).
End catalogs.

(** ** The shared tools ([builtin.py]) *)

Section shared_tools.
Context {address : Type} (D : deployment address) (safe_load : string → result exc json) (settings : agent_settings).
Abbreviation P := (prog (cmd address)).
Local Open Scope prog_scope.

Definition tool {A} (p : prog (ToolRuntime.cmd address) A) : P A := lift (cmd := ToolRuntime.cmd address) (@Tool address) p.
Definition retrieval {A} (p : prog Retrieval.cmd A) : P A := tool (docs (vectors p)).
Definition count (counter label : string) : P () := call (Tool (ToolRuntime.Count counter label)).
Definition skills : P (list (string * SkillRecord)) := get_skills (dp_isinstance D) safe_load settings.

Definition search_docs (query : string) (topic : option Ecorp.Topic) (doc_ids : option (list string)) (cf : option config) : P string :=
  match ctx_or_refuse Identity.permit cf "search" with
  | None => Ret NO_CTX_REFUSAL
  | Some ctx => arun_with_timeout (dp_secrets D) (retrieval (_search_docs_impl (dp_store D) settings query topic ctx doc_ids)) None
  end.

Definition _ask_clarification_impl (question : string) (options : list string) : P string :=
  let numbered := join line_feed (imap (λ i option_, dump_int (Z.of_nat (i + 1)) +:+ ". " +:+ option_) options) in
  Ret (question +:+ line_feed +:+ numbered +:+ blank_line +:+ "(Or describe what you meant in your own words.)").
Definition ask_clarification (question : string) (options : list string) : P string :=
  validated ((2 <=? length options)%nat && (length options <=? 4)%nat)
    (arun_with_timeout (dp_secrets D) (_ask_clarification_impl question options) None).

Definition hit_field (k : string) (h : hit) : json := default JNull (dict_get k (h_payload h)).
Definition _format_skill_hits (hits : list hit) : string :=
  join line_feed ((λ h, "- " +:+ py_str (hit_field "name" h) +:+ ": " +:+ py_str (hit_field "description" h)) <$> hits).

Definition _skill_visible_to_domain (record : SkillRecord) (domain : string) : bool :=
  match sk_domains record with None => true | Some l => bool_decide (domain ∈ l) end.

Definition _SKILL_SEARCH_FETCH_K : nat := (SKILLS_SEARCH_TOP_K settings * 4) `max` 10.

Definition record_of (h : hit) (catalog : list (string * SkillRecord)) : option SkillRecord :=
  match hit_field "name" h with JStr name => dict_get name catalog | _ => None end.
Definition _filter_skill_hits_by_domain (hits : list hit) (domain : string) (catalog : list (string * SkillRecord)) : list hit :=
  filter (λ h, from_option (λ r, _skill_visible_to_domain r domain) false (record_of h catalog) = true) hits.

Definition _skill_search_impl (domain query : string) : P string :=
  hits ← catch_exception
    (hits ← retrieval (search_catalog (dp_store D) query (SKILLS_COLLECTION settings) (Some _SKILL_SEARCH_FETCH_K)); Ret (Some hits))
    (λ _, Ret None);
  match hits with
  | None => Ret "No skills catalog is available right now (has `make index-skills` been run?)."
  | Some hits =>
      catalog ← skills;
      let visible := _filter_skill_hits_by_domain hits domain catalog in
      if bool_decide (visible = []) then Ret "No matching skills found. Proceed using your other tools directly."
      else Ret (_format_skill_hits (take (SKILLS_SEARCH_TOP_K settings) visible))
  end.
Definition skill_search (domain query : string) : P string := arun_with_timeout (dp_secrets D) (_skill_search_impl domain query) None.

Definition no_skill (name : string) : string :=
  "No skill named " +:+ repr_str name +:+ " found. Call skill_search first to find the exact name of an available skill.".
Definition _use_skill_impl (domain name : string) : P string :=
  catalog ← skills;
  match dict_get name catalog with
  | Some record => Ret (if _skill_visible_to_domain record domain then sk_body record else no_skill name)
  | None => Ret (no_skill name)
  end.
Definition use_skill (domain name : string) : P string := arun_with_timeout (dp_secrets D) (_use_skill_impl domain name) None.

(** A call of a shared tool by a domain's agent, and the tool's name *)
Inductive shared_call : Type :=
| Search_docs (query : string) (topic : option Ecorp.Topic) (doc_ids : option (list string))
| Ask_clarification (question : string) (options : list string)
| Skill_search (query : string)
| Use_skill (name : string).
Definition shared_name (c : shared_call) : string :=
  match c with
  | Search_docs _ _ _ => "search_docs" | Ask_clarification _ _ => "ask_clarification" | Skill_search _ => "skill_search" | Use_skill _ => "use_skill"
  end.
Definition shared_run (domain : string) (c : shared_call) (cf : option config) : P string :=
  match c with
  | Search_docs query topic doc_ids => search_docs query topic doc_ids cf
  | Ask_clarification question options => ask_clarification question options
  | Skill_search query => skill_search domain query
  | Use_skill name => use_skill domain name
  end.
End shared_tools.

(** Tools by what a tool's name is *)
Definition skill_tools_first {T} (name : T → string) (action_tools reused_tools : list T) (run_subagent : option T) : list T :=
  let by_name := dict_of name (λ t, t) reused_tools [] in
  omap (λ n, dict_get n by_name) ["skill_search"; "use_skill"] ++ option_list run_subagent ++
  action_tools ++ filter (λ t, name t ∉ ["skill_search"; "use_skill"]) reused_tools.

Definition SHARED_TOOL_CAPABILITIES : list (string * string) :=
  [("search_docs", "read_only"); ("calculator", "read_only"); ("ask_clarification", "read_only"); ("skill_search", "read_only");
   ("use_skill", "read_only"); ("run_subagent", "read_only")].

(** ** Subagents ([run_subagent.py]) *)

(** [tool_capabilities.get(name, "outward") == "read_only"] *)
Definition is_read_only (tool_capabilities : list (string * string)) (name : string) : bool :=
  String.eqb (default "outward" (dict_get name tool_capabilities)) "read_only".

(** [all_tool_names] is a set, in the order it is iterated. *)
Definition _resolve_subagent_tools (declared_tools : option (list string)) (all_tool_names : list string)
    (tool_capabilities : list (string * string)) : list string :=
  let candidates := match declared_tools with
                    | Some declared => declared
                    | None => filter (λ n, is_read_only tool_capabilities n = true) all_tool_names
                    end in
  filter (λ n, n ≠ "run_subagent" ∧ n ∈ all_tool_names ∧ is_read_only tool_capabilities n = true) candidates.

Definition _subagent_declared_for_domain (record : SubagentRecord) (domain : string) : bool :=
  match sa_domains record with None => String.eqb domain "ecorp" | Some l => bool_decide (domain ∈ l) end.

(** What a subagent may be asked for: its record and its tools, by its name *)
Abbreviation registry := (list (string * (SubagentRecord * list string))).

Definition registry_of (all_tool_names : list string) (tool_capabilities : list (string * string)) (domain : string)
    (subagents : list SubagentRecord) : registry :=
  foldl (λ registry record,
    if negb (_subagent_declared_for_domain record domain) then registry else
    dict_set (sa_name record) (record, _resolve_subagent_tools (sa_tools record) all_tool_names tool_capabilities) registry) [] subagents.

(** [_CITATION_MARKERS_RE.sub("", text)].  A marker, and a run of them: where it ends *)
Definition marker_at (s : string) : option string :=
  match s with
  | String "["%char (String d s) =>
      if is_digit d && negb (Ascii.eqb d "0") then
        match (span is_digit s).2 with String "]"%char s => Some s | _ => None end
      else None
  | _ => None
  end.
Fixpoint markers_at (fuel : nat) (s : string) : option string :=
  match fuel with
  | O => None
  | S fuel => rest ← marker_at s; Some (default rest (markers_at fuel rest))
  end.
(** Where the match at a position ends: after the blanks there, or after what is no word and no bracket *)
Definition attached (before : option ascii) : bool :=
  match before with Some a => is_word a || bool_decide (a ∈ [")"; "]"]%char) | None => false end.
Definition citation_markers_at (before : option ascii) (s : string) : option string :=
  let '(blanks, rest) := span py_isspace s in
  if nonempty blanks then markers_at (String.length rest) rest else if attached before then None else markers_at (String.length s) s.
Fixpoint strip_markers_go (fuel : nat) (before : option ascii) (s : string) : string :=
  match fuel, s with
  | S fuel, String a rest =>
      match citation_markers_at before s with
      | Some rest => strip_markers_go fuel (Some "]"%char) rest
      | None => String a (strip_markers_go fuel (Some a) rest)
      end
  | _, _ => ""
  end.
Definition strip_citation_markers (text : string) : string := strip_markers_go (String.length text) None text.

Definition _CITATION_MARKER_WARNING : string :=
  "Do not use '[n]'-style bracket citation markers in your final answer — that citation convention is reserved for the orchestrating agent's own retrieved context, not yours.".

Record SubagentResult : Type := mkResult { sr_answer : string; sr_total_tokens : Z; sr_total_cost_usd : float }.

(** The last [AIMessage] *)
Definition final_ai (ms : list message) : option message := head (filter (λ m, is_type AIMessage m = true) (rev ms)).
Definition final_content (ms : list message) : string :=
  match final_ai ms with
  | Some m => if bool_decide (m_tool_calls m = []) then content_str (m_content m) else ""
  | None => ""
  end.

Section subagents.
Context {address : Type} (D : deployment address) (safe_load : string → result exc json) (settings : agent_settings).
Abbreviation P := (prog (cmd address)).
Local Open Scope prog_scope.

Definition build_subagent_registry (all_tool_names : list string) (tool_capabilities : list (string * string)) (domain : string) : P registry :=
  subagents ← get_subagents (dp_isinstance D) safe_load settings;
  Ret (registry_of all_tool_names tool_capabilities domain subagents.*2).

(** [record.model or CHAT_MODEL] *)
Definition model_of (record : SubagentRecord) : string :=
  match sa_model record with Some m => if nonempty m then m else CHAT_MODEL settings | None => CHAT_MODEL settings end.

Definition nested_graph_of (record : SubagentRecord) (resolved tools_by_name : list string) : nested_graph :=
  mkNested (sa_name record) (sa_system_prompt record +:+ blank_line +:+ _CITATION_MARKER_WARNING)
    (filter (λ n, n ∈ tools_by_name) resolved) (model_of record).

Definition count_run (name outcome : string) : P () := count "agent_subagent_run_total" (name +:+ "," +:+ outcome).

Definition run_subagent_impl (subagent_name task : string) (cf : option config) (domain : string) (registry : registry)
    (tools_by_name : list string) (use_cache : bool) : P SubagentResult :=
  match ctx_from_config cf, valid_ctx (ctx_from_config cf) with
  | Some ctx, true =>
      match dict_get subagent_name registry with
      | None => Ret (mkResult ("No subagent named " +:+ repr_str subagent_name +:+ " is registered.") 0 fzero)
      | Some (record, resolved_tool_names) =>
          unpriced ← call (Refuse_unpriced (model_of record));
          if (unpriced : bool) then
            count_run (sa_name record) "model_unpriced" ;;
            Ret (mkResult ("Subagent " +:+ repr_str (sa_name record) +:+ " cannot be run: this deployment cannot meter its model's cost. " +:+
              "Answer without it, or tell the user it is unavailable.") 0 fzero)
          else
          let cache_key := (domain, subagent_name) in
          cached ← (if use_cache then call (Graph_cache cache_key) else Ret None);
          nested ← match cached with
                   | Some g => Ret g
                   | None =>
                       let g := nested_graph_of record resolved_tool_names tools_by_name in
                       (if use_cache then call (Cache_graph cache_key g) else Ret ()) ;; Ret g
                   end;
          let parent_thread_id := default "unknown" (cf ≫= cf_thread_id) in
          uuid ← call Uuid4_hex;
          let nested_config :=
            mkNestedConfig (parent_thread_id +:+ ":subagent:" +:+ sa_name record +:+ ":" +:+ take_str 8 uuid) ctx (sa_name record)
              parent_thread_id domain (MAX_SUBAGENT_ITERATIONS * 2 + 15) in
          result_state ← catch_exception (wait_for (call (Invoke_graph nested task nested_config)) (Some (SUBAGENT_TIMEOUT_SECONDS settings)))
            (λ e, count_run (sa_name record) (if is_timeout e then "timeout" else "error") ;; Throw e);
          let content := strip (strip_citation_markers (final_content (messages result_state))) in
          let '(text, outcome) :=
            if nonempty content then (scrub (dp_secrets D) content, "completed")
            else ("Subagent " +:+ repr_str (sa_name record) +:+ " did not produce a final answer before hitting one of its own safety budgets.",
                  "budget_exceeded") in
          count_run (sa_name record) outcome ;;
          Ret (mkResult text (total_tokens result_state) (total_cost_usd result_state))
      end
  | _, _ => Ret (mkResult NO_CTX_REFUSAL 0 fzero)
  end.

(** *** [run_subagent_domain.py] *)

(** What [run_subagent] of a domain is built over: nothing without a subagent to offer *)
Definition make_domain_subagent_tool (domain : string) (all_tools : list string) (tool_capabilities : list (string * string)) : P (option registry) :=
  registry ← build_subagent_registry all_tools tool_capabilities domain;
  Ret (if bool_decide (registry = []) then None else Some registry).

(** The update it returns: the result of the call, and what was spent *)
Definition run_subagent (domain : string) (registry : registry) (tools_by_name : list string) (subagent_name task : string)
    (cf : option config) (tool_call_id : string) : P (message * (Z * float)) :=
  validated (bool_decide (subagent_name ∈ registry.*1) && not_blank task)
    (result ← run_subagent_impl subagent_name task cf domain registry tools_by_name true;
     Ret (Message ToolMessage None (Messages.Plain (sr_answer result)) [] tool_call_id None "success" [], (sr_total_tokens result, sr_total_cost_usd result))).

(** The graph of a nested run, as [Graph] runs it: the stages that only a conversation has are absent, so
    the sizes of its history and the router are not looked at. *)
Definition nested_graph_config (r : router_settings) (g : nested_graph) : graph_config :=
  mkGraph (list_to_map ((λ n, (n, "read_only")) <$> ng_tools g)) (list_to_set (ng_tools g)) (ng_system_prompt g)
    (mkLimits MAX_SUBAGENT_ITERATIONS MAX_SUBAGENT_TOKENS_PER_RUN (MAX_SUBAGENT_COST_USD_PER_RUN settings))
    false 0 0 SUBAGENT_PROFILE r.
End subagents.

(** ** What a domain is made of ([app/domains/*/domain.py]) *)

Inductive domain : Type := ecorp | support | ops | sales.
Definition domain_name (d : domain) : string := match d with ecorp => "ecorp" | support => "support" | ops => "ops" | sales => "sales" end.

(** The names of [TOOLS] in a domain's [tools.py] *)
Definition own_tools (d : domain) : list string :=
  match d with
  | ecorp => ["add_note"; "remember"; "query_employees"]
  | support => ["create_ticket"; "check_ticket_status"; "escalate_to_human"; "list_my_tickets"; "add_ticket_comment"; "fetch_external_reference"] ++
               sandbox_names ++ ["web_search"]
  | ops => ["fetch_metrics_summary"; "post_to_team_channel"; "log_incident"; "list_recent_incidents"; "resolve_incident"; "check_vendor_status_page"] ++
           sandbox_names ++ ["web_search"]
  | sales => ["log_lead_interaction"; "schedule_followup"; "package_lead_brief"; "handoff_to_human"; "list_pending_followups"; "mark_lead_lost";
              "enrich_lead_from_website"] ++ sandbox_names ++ ["web_search"]
  end.
Definition own_capabilities (d : domain) : list (string * string) :=
  match d with
  | ecorp => Ecorp.TOOL_CAPABILITIES | support => Support.TOOL_CAPABILITIES | ops => Ops.TOOL_CAPABILITIES | sales => Sales.TOOL_CAPABILITIES
  end.

Definition action_tools (d : domain) : list string :=
  match d with ecorp => ["search_docs"; "calculator"] ++ own_tools ecorp | _ => own_tools d end.
Definition reused_tools (d : domain) : list string :=
  match d with
  | ecorp => ["skill_search"; "use_skill"; "ask_clarification"]
  | ops => ["ask_clarification"; "skill_search"; "use_skill"]
  | support | sales => ["search_docs"; "skill_search"; "use_skill"; "ask_clarification"]
  end.
Definition all_tools (d : domain) : list string := action_tools d ++ reused_tools d.

(** What [make_domain_subagent_tool] is told of the tools' capabilities *)
Definition capabilities (d : domain) : list (string * string) :=
  match d with
  | ecorp => dict_update SHARED_TOOL_CAPABILITIES (own_capabilities ecorp)
  | _ => dict_update (own_capabilities d) (filter (λ p, p.1 ∈ reused_tools d) SHARED_TOOL_CAPABILITIES)
  end.

(** The plugin of a domain that has [run_subagent] or has it not *)
Definition plugin_tools (d : domain) (with_subagents : bool) : list string :=
  skill_tools_first (λ n, n) (action_tools d) (reused_tools d) (if with_subagents then Some "run_subagent" else None).
Definition plugin_capabilities (d : domain) (with_subagents : bool) : list (string * string) :=
  match d with
  | ecorp => if with_subagents then capabilities ecorp else filter (λ p, p.1 ≠ "run_subagent") (capabilities ecorp)
  | _ => capabilities d ++ (if with_subagents then [("run_subagent", "read_only")] else [])
  end.

(** ** Screening ([app/core/moderation.py]) *)

Section moderation.
Context {address : Type}.
Abbreviation P := (prog (cmd address)).
Local Open Scope prog_scope.

Definition ML_INJECTION_THRESHOLD : float := fdiv (float_of_int 1) (float_of_int 2).

Record ModerationResult : Type := mkModeration { mr_allowed : bool; mr_reason : option string }.

Definition plural (s : string) : regex := RSeq (lit s) (opt (chr "s")).
Definition _INJECTION_PATTERNS : list regex := [
  in_order [lit "ignore "; opt (one_of [lit "all "; lit "any "]); one_of [lit "previous"; lit "prior"; lit "above"]; plural " instruction"];
  in_order [lit "disregard "; opt (one_of [lit "all "; lit "any "]); one_of [lit "previous"; lit "prior"; lit "above"]; lit " ";
            one_of [plural "instruction"; plural "rule"]];
  RSeq (lit "you are now ") (one_of [lit "DAN"; lit "in developer mode"; lit "unrestricted"]);
  in_order [lit "reveal "; opt (one_of [lit "your "; lit "the "; lit "my "]); one_of [lit "system prompt"; plural "instruction"]];
  in_order [lit "act as if you "; one_of [lit "have"; lit "had"]; lit " no "; one_of [plural "restriction"; plural "guideline"; plural "filter"]];
  in_order [lit "pretend "; one_of [lit "you are"; lit "to be"]; lit " "; RStar (none_of ["010"%char]); opt (lit "with "); lit "no ";
            one_of [plural "restriction"; plural "rule"; plural "filter"]]
].
Definition _DENYLIST_PATTERNS : list regex := [
  in_order [lit "how to "; one_of [lit "make"; lit "build"; lit "synthesize"]; lit " "; one_of [lit "a bomb"; lit "explosives"; lit "nerve gas"]]
].

Definition INJECTION_REASON : string := "possible prompt-injection or jailbreak attempt detected".
Definition count_moderation (outcome : string) : P () := count "agent_moderation_total" outcome.
Definition any_hit (patterns : list regex) (text : string) : bool := existsb (λ r, re_search r text) patterns.

(** The patterns never raise on a text. *)
Definition screen (text : string) : P ModerationResult :=
  if any_hit _INJECTION_PATTERNS text then count_moderation "blocked_injection" ;; Ret (mkModeration false (Some INJECTION_REASON))
  else if any_hit _DENYLIST_PATTERNS text then count_moderation "blocked_denylist" ;; Ret (mkModeration false (Some "disallowed content"))
  else
  score ← catch_exception (score ← call (Malicious_score text); Ret (Some score)) (λ _, Ret None);
  match score with
  | None => count "agent_moderation_ml_degraded_total" "" ;; count_moderation "allowed" ;; Ret (mkModeration true None)
  | Some score =>
      if fge score ML_INJECTION_THRESHOLD then count_moderation "blocked_ml_injection" ;; Ret (mkModeration false (Some INJECTION_REASON))
      else count_moderation "allowed" ;; Ret (mkModeration true None)
  end.
End moderation.
